(* ===== verification/_CoqProject ===== *)
-Q . S2P
Prelude.v
StakeTableScheme.v
StakeTableMt.v
StakeTableMtProofs.v
StakeTableMtTable.v
StakeTableVec.v
Epochs.v
Crypto.v
Committee.v
QuorumFilter.v
Votes.v
Certificates.v
VoteAccumulator.v
VoteCollection.v
Data.v
Vid.v
Consensus.v
ConsensusProofs.v
Decide.v
Task.v
TaskLoop.v
Dependency.v
ProposalValidation.v
QuorumVote.v
Safety.v
ConsistencyTask.v
OverallSafetyTask.v
ViewSync.v
Message.v
Events.v
Byzantine.v
Network.v
TestStorage.v
DaTask.v
Upgrade.v
DataRequests.v
ConsensusTask.v
QuorumProposal.v
Transactions.v
System.v
RequestMessage.v
ExampleTypes.v
RequestResponse.v
CombinedNetwork.v
MemoryNetwork.v
DhtStore.v
Dht.v
Libp2pNetwork.v
Transport.v
Orchestrator.v
