(* ===== verification/Prelude.v ===== *)
(** * HotShot: a verification development

    HotShot is a Byzantine fault tolerant consensus protocol (HotStuff with pipelining, in
    a two-chain and a three-chain form) in Rust.  This library models its crates under
    [src/crates/] and proves what makes them correct.  Paths below are relative to
    [src/crates/].

    ** The program

    A node is a set of tasks that exchange internal events over a broadcast channel and
    share the consensus state behind a lock.  The leader of a view gets a block from a
    builder (transaction task), disperses it (DA and VID tasks) and proposes it (quorum
    proposal task).  The other nodes validate the proposal (proposal receive task), wait for
    its data and vote (quorum vote task).  Votes become certificates (vote collection), which
    the next leader builds on.  A chain of certificates in consecutive views decides a leaf.
    Timeouts and view synchronization bring the nodes back to one view, an upgrade task
    changes the version of the protocol, and epochs change the committee.  Below are stake
    tables and committees, network implementations, storage, a DHT and a request-response
    protocol; beside them an orchestrator for benchmarks and the harness of the tests.

    ** The files

    Each file opens with the sources it models and how state and operations correspond.
    Definitions have the names of the source where that is possible; a field or function
    whose name is taken gets a prefix.

    - Stake tables: [StakeTableScheme] (the trait and its laws), [StakeTableMt],
      [StakeTableMtProofs], [StakeTableMtTable] (the persistent Merkle tree,
      [hotshot-stake-table/src/mt_based*]), [StakeTableVec] ([vec_based*]).
    - Epochs and committees: [Epochs] ([types/src/utils.rs]), [Committee] (the trait
      [Membership] and its implementations, [hotshot/src/traits/election/]), [QuorumFilter]
      (committees drawn at random).
    - Votes: [Crypto] (commitments, assembled signatures), [Votes], [Certificates],
      [VoteAccumulator], [VoteCollection] ([types/src/simple_*.rs], [types/src/vote.rs],
      [task-impls/src/vote_collection.rs]).
    - Data: [Data] (leaves, proposals, both generations), [Vid], [Message], [Events],
      [ExampleTypes] (the application of the tests).
    - Consensus: [Consensus] and [ConsensusProofs] ([types/src/consensus.rs]), [Decide]
      ([task-impls/src/helpers.rs]), [ProposalValidation], [QuorumVote], [QuorumProposal],
      [ConsensusTask], [ViewSync], [DaTask], [Upgrade], [Transactions], [DataRequests] (the
      tasks of [task-impls/src/]), [Safety] (agreement of the nodes), [ConsistencyTask] and
      [OverallSafetyTask] (the test harness's own checks), [Byzantine] (its dishonest nodes).
    - Tasks and nodes: [Task] (the monad of handlers), [TaskLoop] and [Dependency]
      ([task/src/]), [System] (start and restart, [hotshot/src/lib.rs]), [TestStorage].
    - Network: [Network] ([task-impls/src/network.rs]), [CombinedNetwork], [MemoryNetwork],
      [Libp2pNetwork] ([hotshot/src/traits/networking/]), [DhtStore], [Dht], [Transport]
      ([libp2p-networking/src/network/]), [RequestMessage], [RequestResponse]
      ([request-response/src/]), [Orchestrator].

    ** How code is modelled

    Integers are [Z]; where the code's width matters the bounds, the wrap-around, the
    saturation or the panic of an overflow are written out ([u64_modulus] and the checked
    operations of this file).  A function that returns a [Result] gives an [outcome], which
    is [Ok], [Err] or [Panic].  A [HashMap] is a [gmap]; a [BTreeMap] is a [gmap] whose
    iteration order is that of [btree_iter] where it matters.  A handler of a task is a
    [task] of [Task.v]: it changes state, emits events and may fail part way.  Code that runs
    beside other code is cut at its awaits: a step function ([perform] and the like) makes
    one uninterrupted part, and an inductive relation of runs puts them in any order.  Data
    that comes from outside (answers, clocks, random numbers, what a wait delivers) is an
    argument.  Logging, metrics that nothing reads, and timestamps are left out.

    Crates that are not part of the repository are classes of operations, and what is relied
    on is a class of laws: [Committable] with [CommittableLaws] (commitments are collision
    free) and [CommitmentRank] (a commitment is not made of itself); [SignatureScheme] with
    [SignatureLaws] (signatures verify and are not forged); [Vbs], [DhtCodec], [AuthCodec]
    and [RequestTypes] with laws that say that what is encoded is decoded again;
    [RescueCtx] and [CommitCtx] (hashes of the stake tables); [VidScheme]; [Rng] with
    [RngLaws] (every value is drawn sooner or later); [Lru], [RecordStore], [BoundedStore],
    [DhtPersistentStorage], [Storage] and [ActionLog] (stores).  [BlockTypes], [Versions],
    [EpochRoots], [BuilderApi] and [BuilderTypes] are what the application supplies.
    [Membership] with [CommitteeLaws] and [StakeTableScheme] with [StakeTableLaws] are
    interfaces inside the program, whose implementations are instances.  The modules
    [Ideal], [Demo] and [*Witnesses] instantiate the classes with concrete functions, so
    that theorems with hypotheses are applied to runs that exist.

    ** What is shown

    - Agreement: of two leaves that nodes decide with the two-chain rule one extends the
      other, in a committee of members with stake one of whom at most a third are faulty
      ([Safety]).  It rests on the uniqueness of quorum certificates ([Certificates]),
      the check of proposals ([ProposalValidation]), the lock and the decide rules
      ([Decide], [QuorumVote]) and the invariant of the consensus state ([ConsensusProofs]).
      The theorem is about one committee, without restarts, and about nodes whose check of a
      proposal is not interleaved with the handling of another; certificates of the genesis
      view, which the code accepts unsigned, are assumed to name the genesis leaf, and saved
      leaves to be newer than their parents.
    - A node does not contradict itself: it sends at most one vote, one proposal and one DA
      proposal per view, although the jobs that send them overtake each other at their awaits
      ([Network]), and at most one vote and one proposal over all its restarts ([System]);
      after a change of view its votes are for that view, the one before, or later ones
      ([QuorumVote]).
    - Progress: acceptable proposals are validated, complete dependencies lead to a vote, a
      leader gets one block, two-chains are decided, requests are answered
      ([ProposalValidation], [QuorumVote], [Transactions], [Safety], [DataRequests],
      [RequestResponse]).
    - Votes and certificates: a certificate is formed if and only if a quorum has voted, and
      it is valid ([VoteAccumulator], [VoteCollection]); every vote and proposal that is made
      is justified by what the node has seen ([QuorumVote], [QuorumProposal], [DaTask],
      [Upgrade], [ViewSync]).
    - Tables and committees: the two stake tables are the same map with different limits,
      call by call, errors and panics included, and agree with each other; proofs of the Merkle tree are sound; epochs cut the blocks; drawn
      committees are complete.
    - Communication: what is sent arrives as it was sent ([Network], [ExampleTypes],
      [RequestMessage]); no message of the combined network is lost; records of the DHT,
      direct messages and peers of the transport are vouched for by the keys they claim
      ([Dht], [Libp2pNetwork], [Transport]).
    - Where the code does less than it says, a lemma shows what it does.

    ** Fuel

    Loops that do not recurse on their data have fuel, and a theorem says that it suffices.
    The walks along saved leaves ([visit_loop], [walk2_loop]) have one more than there are
    saved leaves, since the views of parents decrease and hashes have no cycles;
    [last_vid_loop] has one more than the view it walks down from; [sample_loop] one more
    than the position; the iterator of the Merkle tree the size of the tree; [cancel_loop]
    the size of its map; [recv_all] the number of arrivals; [chunks] the length of the list;
    [from_bytes_loop] one more than there are bytes; [quorum_collect] one call more than
    there are members, with the fuel that a generator that draws every value needs.

    ** Not modelled

    - The push CDN client, the HTTP clients and servers of builders and orchestrator, the
      set-up of libp2p's swarm: glue to external crates and input and output.
    - Configuration files, metrics, error levels and logging.
    - Interfaces without code ([types/src/traits/]), and the wrappers of VID and light client
      parameters, on which no modelled code depends.
    - Twins, the recording of events, the runner, generators and tasks of the test harness
      other than its two checks of safety and its byzantine nodes, the tests, examples and
      macros. *)

From stdpp Require Export base tactics list gmap strings numbers option.
From stdpp Require Export sorting fin_maps fin_sets.
From Stdlib Require Export ZArith Lia ArithRing ZArithRing.

#[global] Open Scope Z_scope.

(** ** Outcomes of fallible Rust code

    A Rust function that returns [Result<A, E>] either returns [Ok a], returns
    [Err e], or panics ([unwrap] of [None], an index out of bounds, an
    overflowing [U256] operation).  The three are kept apart. *)

Inductive outcome (E A : Type) : Type :=
  | Ok (a : A)
  | Err (e : E)
  | Panic.
Arguments Ok {E A} a.
Arguments Err {E A} e.
Arguments Panic {E A}.

#[global] Instance outcome_ret {E} : MRet (outcome E) := fun A a => Ok a.
#[global] Instance outcome_bind {E} : MBind (outcome E) := fun A B f m =>
  match m with
  | Ok a => f a
  | Err e => Err e
  | Panic => Panic
  end.
#[global] Instance outcome_fmap {E} : FMap (outcome E) := fun A B f m =>
  match m with
  | Ok a => Ok (f a)
  | Err e => Err e
  | Panic => Panic
  end.

#[global] Instance outcome_eq_dec {E A} `{EqDecision E, EqDecision A} :
  EqDecision (outcome E A).
Proof. solve_decision. Defined.

(** [ensure!(b, e)]: the early return with [e] when [b] is false. *)
Definition ensure {E} (b : bool) (e : E) : outcome E unit :=
  if b then Ok tt else Err e.

(** [o.ok_or(e)] and [o.context(e)] on an [Option]. *)
Definition ok_or {E A} (o : option A) (e : E) : outcome E A :=
  match o with
  | Some a => Ok a
  | None => Err e
  end.

(** [o.unwrap()] and [o.expect(..)]. *)
Definition unwrap {E A} (o : option A) : outcome E A :=
  match o with
  | Some a => Ok a
  | None => Panic
  end.

(** [v[i]] on a slice, an array or a [Vec]. *)
Definition index {E A} (v : list A) (i : nat) : outcome E A := unwrap (v !! i).

(** [v[i] = x] on a slice, an array or a [Vec]. *)
Definition index_set {E A} (v : list A) (i : nat) (x : A) : outcome E (list A) :=
  if decide (i < length v)%nat then Ok (<[i := x]> v) else Panic.

Definition is_ok {E A} (m : outcome E A) : bool :=
  match m with Ok _ => true | _ => false end.

(** ** Machine integers

    The crates are built with the release profile of [Cargo.toml], which does
    not enable [overflow-checks]: [u64] arithmetic wraps.  [primitive_types]'
    [U256] operators panic on overflow in every profile. *)

Definition u64_modulus : Z := 2 ^ 64.
Definition u64_add (a b : Z) : Z := (a + b) mod u64_modulus.
Definition u64_sub (a b : Z) : Z := (a - b) mod u64_modulus.
Definition u64_mul (a b : Z) : Z := (a * b) mod u64_modulus.
Definition saturating_sub (a b : Z) : Z := Z.max 0 (a - b).
Definition is_u64 (a : Z) : Prop := 0 <= a < u64_modulus.

#[global] Instance is_u64_dec a : Decision (is_u64 a).
Proof. unfold is_u64. apply _. Defined.

Definition u256_modulus : Z := 2 ^ 256.
Definition is_u256 (a : Z) : Prop := 0 <= a < u256_modulus.
#[global] Instance is_u256_dec a : Decision (is_u256 a).
Proof. unfold is_u256. apply _. Defined.

Definition u256_checked_add (a b : Z) : option Z :=
  if decide (a + b < u256_modulus) then Some (a + b) else None.
Definition u256_checked_sub (a b : Z) : option Z :=
  if decide (b <= a) then Some (a - b) else None.
(** The operators [+] and [-] on [U256]. *)
Definition u256_add {E} (a b : Z) : outcome E Z := unwrap (u256_checked_add a b).
Definition u256_sub {E} (a b : Z) : outcome E Z := unwrap (u256_checked_sub a b).

(** [.fold(U256::zero(), |sum, val| sum + val)] *)
Definition u256_sum {E} (l : list Z) : outcome E Z :=
  foldl (fun acc v => a ← acc; u256_add a v) (Ok 0) l.

(** The sum of a list of integers, without a width. *)
Definition sum_Z (l : list Z) : Z := foldr Z.add 0 l.

(** ** Automation *)

Create HintDb hotshot discriminated.
Create Rewrite HintDb hotshot_simpl.

(** Run the binds of [outcome] whose first computation is known. *)
Ltac mon :=
  repeat match goal with
  | |- context [@mbind (outcome ?E) ?i ?A ?B ?f (Ok ?a)] =>
      change (@mbind (outcome E) i A B f (Ok a)) with (f a)
  | |- context [@mbind (outcome ?E) ?i ?A ?B ?f (Err ?e)] =>
      change (@mbind (outcome E) i A B f (Err e)) with (@Err E B e)
  | |- context [@mbind (outcome ?E) ?i ?A ?B ?f (@Panic _ _)] =>
      change (@mbind (outcome E) i A B f (@Panic E A)) with (@Panic E B)
  end; cbn beta iota.

(** Invert a hypothesis [m = Ok x] bind by bind: one equation per step. *)
Ltac inv_ok H :=
  repeat match type of H with
  | Ok _ = Ok _ => injection H; clear H; intros; try subst
  | Err _ = Ok _ => discriminate H
  | Panic = Ok _ => discriminate H
  | @mbind (outcome _) _ _ _ ?f (Ok ?a) = ?r => change (f a = r) in H; cbn beta iota in H
  | @mbind (outcome _) _ _ _ _ ?m = _ =>
      let E := fresh "E" in destruct m eqn:E; [|discriminate H|discriminate H]
  | match ?m with _ => _ end = _ =>
      first [is_var m; destruct m
            | let E := fresh "E" in destruct m eqn:E]; try discriminate H
  end.

(** Split every [bool] and comparison test in the context into facts for [lia]. *)
Ltac bool_facts :=
  repeat match goal with
  | H : _ && _ = true |- _ => apply andb_true_iff in H as [? ?]
  | H : _ || _ = false |- _ => apply orb_false_iff in H as [? ?]
  | H : _ || _ = true |- _ => apply orb_true_iff in H
  | H : _ && _ = false |- _ => apply andb_false_iff in H
  | H : negb _ = true |- _ => apply negb_true_iff in H
  | H : negb _ = false |- _ => apply negb_false_iff in H
  | H : (_ =? _) = true |- _ => apply Z.eqb_eq in H
  | H : (_ =? _) = false |- _ => apply Z.eqb_neq in H
  | H : (_ <? _) = true |- _ => apply Z.ltb_lt in H
  | H : (_ <? _) = false |- _ => apply Z.ltb_ge in H
  | H : (_ <=? _) = true |- _ => apply Z.leb_le in H
  | H : (_ <=? _) = false |- _ => apply Z.leb_gt in H
  | H : bool_decide _ = true |- _ => apply bool_decide_eq_true in H
  | H : bool_decide _ = false |- _ => apply bool_decide_eq_false in H
  end.

(** ** Generic lemmas *)

Section Outcomes.
Context {E A B : Type}.

Lemma bind_ok_inv (m : outcome E A) (f : A → outcome E B) b :
  m ≫= f = Ok b → ∃ a, m = Ok a ∧ f a = Ok b.
Proof. destruct m; naive_solver. Qed.

Lemma Ok_inj (a a' : A) : Ok (E := E) a = Ok a' → a = a'.
Proof. by intros [=]. Qed.

Lemma ok_or_Ok (o : option A) (e : E) a : ok_or o e = Ok a → o = Some a.
Proof. destruct o; [by intros [= ->]|done]. Qed.

Lemma ensure_ok_inv (b : bool) (e : E) u : ensure b e = Ok u → b = true.
Proof. by destruct b. Qed.

Lemma index_ok_inv (v : list A) i a : index (E:=E) v i = Ok a ↔ v !! i = Some a.
Proof. unfold index. destruct (v !! i); naive_solver. Qed.

Lemma index_Some (v : list A) i a : v !! i = Some a → index (E:=E) v i = Ok a.
Proof. apply index_ok_inv. Qed.

Lemma index_set_ok_inv (v v' : list A) i x :
  index_set (E:=E) v i x = Ok v' → (i < length v)%nat ∧ v' = <[i := x]> v.
Proof. unfold index_set. case_decide; naive_solver. Qed.
End Outcomes.

Section Sums.
Lemma sum_Z_app l1 l2 : sum_Z (l1 ++ l2) = sum_Z l1 + sum_Z l2.
Proof. induction l1; simpl; lia. Qed.

Lemma sum_Z_nonneg l : Forall (fun x => 0 <= x) l → 0 <= sum_Z l.
Proof. induction 1; simpl; lia. Qed.

Lemma sum_Z_insert l i x y :
  l !! i = Some y → sum_Z (<[i := x]> l) = sum_Z l - y + x.
Proof.
  revert i. induction l as [|a l IH]; intros [|i] Hi; simplify_eq/=; [lia|].
  rewrite (IH i) by done. lia.
Qed.

Lemma sum_Z_lookup_le l i x :
  Forall (fun x => 0 <= x) l → l !! i = Some x → x <= sum_Z l.
Proof.
  intros Hl. revert i. induction Hl as [|a l Ha Hl IH]; intros [|i] Hi; simplify_eq/=.
  - apply sum_Z_nonneg in Hl. lia.
  - apply IH in Hi. lia.
Qed.

(** The panicking [U256] sum is the sum, when the sum fits, and panics otherwise. *)
Lemma u256_sum_acc {E} l a s :
  Forall (fun x => 0 <= x) l → 0 <= a < u256_modulus →
  foldl (fun acc v => a ← acc; u256_add (E:=E) a v) (Ok a) l = Ok s ↔
    s = a + sum_Z l ∧ a + sum_Z l < u256_modulus.
Proof.
  intros Hl. revert a. induction Hl as [|x l Hx Hl IH]; intros a Ha; simpl.
  - split; [intros [= <-]|intros [-> _]; f_equal]; lia.
  - pose proof (sum_Z_nonneg l Hl).
    unfold u256_add, u256_checked_add. case_decide; simpl.
    + rewrite IH by lia. lia.
    + split; [|lia]. intros Hf. exfalso. revert Hf. clear.
      induction l; simpl; naive_solver.
Qed.

Lemma u256_sum_ok {E} l s :
  Forall (fun x => 0 <= x) l →
  u256_sum (E:=E) l = Ok s ↔ s = sum_Z l ∧ sum_Z l < u256_modulus.
Proof.
  intros Hl. unfold u256_sum. rewrite u256_sum_acc; [done|done|].
  split; [lia|by compute].
Qed.

Lemma u256_sum_no_err {E} l (e : E) : u256_sum l ≠ Err e.
Proof.
  unfold u256_sum. cut (∀ m, m ≠ Err e →
    foldl (fun acc v => a ← acc; u256_add (E:=E) a v) m l ≠ Err e); [intros H; by apply H|].
  induction l as [|x l IH]; intros m Hm; simpl; [done|]. apply IH.
  destruct m; simpl; [|done|done]. unfold u256_add. by destruct (u256_checked_add _ _).
Qed.
End Sums.

#[export] Hint Rewrite sum_Z_app : hotshot_simpl.

Lemma sublist_Forall {A} (P : A → Prop) l1 l2 : l1 `sublist_of` l2 → Forall P l2 → Forall P l1.
Proof.
  induction 1 as [|x l1 l2 Hs IH|x l1 l2 Hs IH]; intros HP; [done|..];
    apply Forall_cons in HP as [? ?]; [constructor|]; auto.
Qed.

(** ** Lists in equal chunks

    A complete tree of height [h] over [n] children is read as the
    concatenation of [n] chunks of equal length. *)

Section Chunks.
Context {A : Type}.
Local Open Scope nat_scope.

Lemma join_lookup (ls : list (list A)) n p r :
  Forall (fun l => length l = n) ls → r < n →
  mjoin ls !! (p * n + r) = ls !! p ≫= (fun l => l !! r).
Proof.
  intros Hls Hr. revert p. induction Hls as [|l ls Hl Hls IH]; intros [|p]; simpl; [done|done| |].
  - rewrite lookup_app_l by lia. done.
  - rewrite lookup_app_r by lia. rewrite <-IH. f_equal. lia.
Qed.

Lemma join_insert (ls : list (list A)) n p r l x :
  Forall (fun l => length l = n) ls → r < n → ls !! p = Some l →
  mjoin (<[p := <[r := x]> l]> ls) = <[p * n + r := x]> (mjoin ls).
Proof.
  intros Hls Hr. revert p. induction Hls as [|l' ls Hl Hls IH]; intros [|p] Hp; simplify_eq/=.
  - rewrite insert_app_l by lia. done.
  - rewrite insert_app_r_alt by lia. rewrite (IH p) by done. f_equal. f_equal. lia.
Qed.

Lemma join_length (ls : list (list A)) n :
  Forall (fun l => length l = n) ls → length (mjoin ls) = length ls * n.
Proof. induction 1; simpl; [done|]. rewrite length_app. lia. Qed.
End Chunks.

(** ** Errors

    [utils::anytrace::Error] carries a log level and a message; an error is its
    message. *)

Abbreviation Error := string (only parsing).

(** [NonZeroU64::new(x).unwrap()] *)
Definition nonzero {E} (x : Z) : outcome E Z := if x =? 0 then Panic else Ok x.

(** ** Collecting into a [BTreeMap]: a later entry replaces an earlier one *)

Section Collect.
Context {K A : Type} `{Countable K} (key : A → K).

Definition collect_map (l : list A) : gmap K A :=
  foldl (fun m a => <[key a := a]> m) ∅ l.

Lemma collect_map_acc l (m : gmap K A) k a :
  foldl (fun m a => <[key a := a]> m) m l !! k = Some a →
  (a ∈ l ∧ key a = k) ∨ m !! k = Some a.
Proof.
  revert m. induction l as [|b l IH]; intros m; simpl; [by right|].
  intros [[? ?]|Hm]%IH; [left; split; [by right|done]|].
  apply lookup_insert_Some in Hm as [[<- <-]|[? ?]]; [left; split; [left|done]|by right].
Qed.

Lemma collect_map_elem l k a : collect_map l !! k = Some a → a ∈ l ∧ key a = k.
Proof.
  intros [?|Hm]%collect_map_acc; [done|]. by rewrite lookup_empty in Hm.
Qed.

Lemma collect_map_notin l (m : gmap K A) k :
  k ∉ map key l → foldl (fun m a => <[key a := a]> m) m l !! k = m !! k.
Proof.
  revert m. induction l as [|b l IH]; intros m Hk; simpl; [done|].
  simpl in Hk. apply not_elem_of_cons in Hk as [? ?].
  rewrite IH by done. by rewrite lookup_insert_ne.
Qed.

(** With distinct keys the map holds exactly the elements of the list. *)
Lemma collect_map_spec l k a :
  NoDup (map key l) → collect_map l !! k = Some a ↔ a ∈ l ∧ key a = k.
Proof.
  intros Hnd. split; [apply collect_map_elem|]. intros [Ha <-]. unfold collect_map.
  generalize (∅ : gmap K A). induction l as [|b l IH]; intros m; simpl in *.
  - by apply elem_of_nil in Ha.
  - apply NoDup_cons in Hnd as [Hb Hnd]. apply elem_of_cons in Ha as [->|Ha].
    + rewrite collect_map_notin by done. by rewrite lookup_insert_eq.
    + by apply IH.
Qed.
End Collect.

(** Removing the keys of a list one by one. *)
Lemma foldl_delete_Some `{Countable K} {A} (l : list K) (m : gmap K A) k a :
  foldl (fun m k => delete k m) m l !! k = Some a ↔ m !! k = Some a ∧ k ∉ l.
Proof.
  revert m. induction l as [|j l IH]; intros m; simpl.
  - split; [intros ?; split; [done|apply not_elem_of_nil]|by intros [? _]].
  - rewrite IH, lookup_delete_Some, not_elem_of_cons. naive_solver.
Qed.

(** ** [BTreeMap]s keyed by numbers *)

Section BTreeMap.
Context {A : Type}.
Implicit Types (m : gmap Z A).

(** [m.split_off(&k)]: the part of the map with keys at least [k]. *)
Definition split_off m (k : Z) : gmap Z A := base.filter (fun kv => k <= kv.1) m.

(** The key of [m.last_key_value()]. *)
Definition last_key m : option Z :=
  map_fold (fun k _ acc => match acc with Some a => Some (Z.max k a) | None => Some k end) None m.

Lemma split_off_Some m k i a : split_off m k !! i = Some a ↔ m !! i = Some a ∧ k <= i.
Proof. unfold split_off. by rewrite map_lookup_filter_Some. Qed.

Lemma split_off_None m k i : i < k → split_off m k !! i = None.
Proof. intros Hi. apply eq_None_not_Some. intros [a [_ ?]%split_off_Some]. lia. Qed.

Lemma split_off_lookup m k i : k <= i → split_off m k !! i = m !! i.
Proof.
  intros Hi. destruct (m !! i) as [a|] eqn:Hm; [by apply split_off_Some|].
  apply eq_None_not_Some. intros [a [? _]%split_off_Some]. congruence.
Qed.

Lemma split_off_empty k : split_off ∅ k = ∅.
Proof. apply map_filter_empty. Qed.

Lemma last_key_spec m :
  match last_key m with
  | Some k => is_Some (m !! k) ∧ ∀ i, is_Some (m !! i) → i <= k
  | None => m = ∅
  end.
Proof.
  unfold last_key.
  apply (map_fold_weak_ind (fun acc m => match acc with
    | Some k => is_Some (m !! k) ∧ ∀ i, is_Some (m !! i) → i <= k | None => m = ∅ end)); [done|].
  intros i a m' acc Hi Hacc. destruct acc as [k|].
  - destruct Hacc as [Hk Hmax]. split.
    + destruct (Z.max_spec i k) as [[_ ->]|[_ ->]]; [|by rewrite lookup_insert_eq].
      destruct (decide (i = k)) as [->|?]; [by rewrite lookup_insert_eq|by rewrite lookup_insert_ne].
    + intros j Hj. destruct (decide (i = j)) as [->|?]; [lia|].
      rewrite lookup_insert_ne in Hj by done. specialize (Hmax j Hj). lia.
  - subst. split; [by rewrite lookup_insert_eq|]. intros j Hj.
    destruct (decide (i = j)) as [->|?]; [lia|].
    rewrite lookup_insert_ne, lookup_empty in Hj by done. by destruct Hj.
Qed.
End BTreeMap.

(** The entries and the values, in the order of the keys. *)
Definition key_le {A} (a b : Z * A) : Prop := a.1 <= b.1.
#[global] Instance key_le_dec {A} : RelDecision (@key_le A).
Proof. intros a b. unfold key_le. apply _. Defined.
Definition btree_iter {A} (m : gmap Z A) : list (Z * A) := merge_sort key_le (map_to_list m).
Definition btree_values {A} (m : gmap Z A) : list A := (btree_iter m).*2.

Lemma elem_of_btree_iter {A} (m : gmap Z A) k x : (k, x) ∈ btree_iter m ↔ m !! k = Some x.
Proof. unfold btree_iter. by rewrite (merge_sort_Permutation key_le (map_to_list m)), elem_of_map_to_list. Qed.

Lemma elem_of_btree_values {A} (m : gmap Z A) x : x ∈ btree_values m ↔ ∃ k, m !! k = Some x.
Proof.
  unfold btree_values. rewrite list_elem_of_fmap. split.
  - intros ([k y] & -> & Hin%elem_of_btree_iter). by exists k.
  - intros [k Hk]. exists (k, x). split; [done|]. by apply elem_of_btree_iter.
Qed.

Lemma btree_iter_keys {A} (m : gmap Z A) : NoDup (btree_iter m).*1.
Proof. unfold btree_iter. rewrite (merge_sort_Permutation key_le (map_to_list m)). apply NoDup_fst_map_to_list. Qed.

(** ** Runs *)

(** A run is checked by what it shows. *)
Lemma shows {A B} (x : option (A * B)) b : snd <$> x = Some b → ∃ a, x = Some (a, b).
Proof. destruct x as [[a b']|]; simpl; [intros [= ->]; by exists a|done]. Qed.
