(* ===== verification/StakeTableScheme.v ===== *)
(** * The stake table interface

    Models [crates/types/src/traits/stake_table.rs]: the error type and the
    snapshot versions every stake table shares, and the part of the trait
    [StakeTableScheme] both implementations provide.  [StakeTableLaws] is the
    contract: three snapshots, each a finite map from keys to stakes.  The
    client theorem [run_refines] is proved against the contract only.  [table_spec] is the
    table as a map with the limits of an implementation; both tables are shown to be it. *)

From S2P Require Import Prelude.

(** The errors of a stake table. *)
Inductive StakeTableError : Type :=
  | RescueError
  | MismatchedKey
  | KeyNotFound
  | ExistingKey
  | MalformedProof
  | VerificationError
  | InsufficientFund
  | StakeOverflow
  | SnapshotUnsupported.

#[global] Instance StakeTableError_eq_dec : EqDecision StakeTableError.
Proof. solve_decision. Defined.

(** Which snapshot of the table is meant. *)
Inductive SnapshotVersion : Type :=
  | Head
  | EpochStart
  | LastEpochStart
  | BlockNum (n : Z).

(** ** The trait *)

Class StakeTableScheme (T K A : Type) := {
  sc_register : T → K → Z → A → outcome StakeTableError T;
  sc_update : T → K → Z → bool → outcome StakeTableError (T * Z);
  sc_set_value : T → K → Z → outcome StakeTableError (T * Z);
  sc_advance : T → outcome StakeTableError T;
  sc_lookup : T → SnapshotVersion → K → outcome StakeTableError Z;
  sc_total_stake : T → SnapshotVersion → outcome StakeTableError Z;
}.

(** The trait's default methods.  [batch_register] discards the result of its
    [try_for_each]; [batch_update] stops at the first error, the updates before
    it having been made. *)
Section Batch.
Context {T K A : Type} `{!StakeTableScheme T K A}.

Fixpoint try_register (t : T) (l : list (K * Z * A)) : T * outcome StakeTableError unit :=
  match l with
  | [] => (t, Ok ())
  | (key, amount, aux) :: l =>
      match sc_register t key amount aux with
      | Ok t' => try_register t' l
      | Err e => (t, Err e)
      | Panic => (t, Panic)
      end
  end.

Definition batch_register (t : T) (new_keys : list K) (amounts : list Z) (auxs : list A) :
    T * outcome StakeTableError unit :=
  match try_register t (zip (zip new_keys amounts) auxs) with
  | (t', Panic) => (t', Panic)
  | (t', _) => (t', Ok ())
  end.

Fixpoint try_update (t : T) (l : list (K * Z * bool)) : T * outcome StakeTableError (list Z) :=
  match l with
  | [] => (t, Ok [])
  | (key, amount, negative) :: l =>
      match sc_update t key amount negative with
      | Ok (t', v) => let '(t'', r) := try_update t' l in (t'', (fun vs => v :: vs) <$> r)
      | Err e => (t, Err e)
      | Panic => (t, Panic)
      end
  end.

Definition batch_update (t : T) (keys : list K) (amounts : list Z) (negative_flags : list bool) :
    T * outcome StakeTableError (list Z) :=
  try_update t (zip (zip keys amounts) negative_flags).
End Batch.

(** ** The abstract table *)

Record AbsTable (K : Type) `{Countable K} : Type := {
  abs_head : gmap K Z;
  abs_epoch_start : gmap K Z;
  abs_last_epoch_start : gmap K Z;
}.
Arguments abs_head {K _ _}.
Arguments abs_epoch_start {K _ _}.
Arguments abs_last_epoch_start {K _ _}.

Section Contract.
Context {K A : Type} `{Countable K}.

Definition abs_version (a : AbsTable K) (v : SnapshotVersion) : option (gmap K Z) :=
  match v with
  | Head => Some (abs_head a)
  | EpochStart => Some (abs_epoch_start a)
  | LastEpochStart => Some (abs_last_epoch_start a)
  | BlockNum _ => None
  end.

Definition abs_set_head (a : AbsTable K) (m : gmap K Z) : AbsTable K :=
  {| abs_head := m; abs_epoch_start := abs_epoch_start a;
     abs_last_epoch_start := abs_last_epoch_start a |}.

Definition abs_advance (a : AbsTable K) : AbsTable K :=
  {| abs_head := abs_head a; abs_epoch_start := abs_head a;
     abs_last_epoch_start := abs_epoch_start a |}.

Definition abs_empty : AbsTable K :=
  {| abs_head := ∅; abs_epoch_start := ∅; abs_last_epoch_start := ∅ |}.

Definition map_total (m : gmap K Z) : Z := sum_Z (snd <$> map_to_list m).

(** The new stake of [update]. *)
Definition new_stake (old delta : Z) (negative : bool) : Z :=
  if negative then old - delta else old + delta.

(** What an implementation owes its clients: an invariant, an abstraction
    function, and that each operation that succeeds is the map operation,
    with the error the trait documents when the key is (not) registered. *)
Class StakeTableLaws (T : Type) `{!StakeTableScheme T K A} := {
  sc_inv : T → Prop;
  sc_abs : T → AbsTable K;
  sc_register_ok : ∀ t k v aux t', sc_inv t → is_u256 v → sc_register t k v aux = Ok t' →
    abs_head (sc_abs t) !! k = None ∧ sc_inv t' ∧
    sc_abs t' = abs_set_head (sc_abs t) (<[k := v]> (abs_head (sc_abs t)));
  sc_register_existing : ∀ t k v aux, sc_inv t → is_Some (abs_head (sc_abs t) !! k) →
    sc_register t k v aux = Err ExistingKey;
  sc_update_ok : ∀ t k delta neg t' v, sc_inv t → is_u256 delta →
    sc_update t k delta neg = Ok (t', v) →
    ∃ old, abs_head (sc_abs t) !! k = Some old ∧ v = new_stake old delta neg ∧ is_u256 v ∧
      sc_inv t' ∧ sc_abs t' = abs_set_head (sc_abs t) (<[k := v]> (abs_head (sc_abs t)));
  sc_update_missing : ∀ t k delta neg, sc_inv t → abs_head (sc_abs t) !! k = None →
    sc_update t k delta neg = Err KeyNotFound;
  sc_update_insufficient : ∀ t k delta old, sc_inv t → abs_head (sc_abs t) !! k = Some old →
    old < delta → sc_update t k delta true = Err InsufficientFund;
  sc_set_value_ok : ∀ t k v t' old, sc_inv t → is_u256 v → sc_set_value t k v = Ok (t', old) →
    abs_head (sc_abs t) !! k = Some old ∧ sc_inv t' ∧
    sc_abs t' = abs_set_head (sc_abs t) (<[k := v]> (abs_head (sc_abs t)));
  sc_set_value_missing : ∀ t k v, sc_inv t → abs_head (sc_abs t) !! k = None →
    sc_set_value t k v = Err KeyNotFound;
  sc_advance_ok : ∀ t t', sc_inv t → sc_advance t = Ok t' →
    sc_inv t' ∧ sc_abs t' = abs_advance (sc_abs t);
  sc_lookup_spec : ∀ t ver k, sc_inv t →
    sc_lookup t ver k =
      match abs_version (sc_abs t) ver with
      | None => Err SnapshotUnsupported
      | Some m => ok_or (m !! k) KeyNotFound
      end;
  sc_total_spec : ∀ t ver, sc_inv t →
    sc_total_stake t ver = ok_or (map_total <$> abs_version (sc_abs t) ver) SnapshotUnsupported;
}.

(** ** Clients of the contract *)

Inductive op : Type :=
  | OpRegister (k : K) (v : Z) (aux : A)
  | OpUpdate (k : K) (delta : Z) (negative : bool)
  | OpSetValue (k : K) (v : Z)
  | OpAdvance.

Definition op_args_ok (o : op) : Prop :=
  match o with
  | OpRegister _ v _ | OpUpdate _ v _ | OpSetValue _ v => is_u256 v
  | OpAdvance => True
  end.

Definition run_op {T} `{!StakeTableScheme T K A} (t : T) (o : op) : outcome StakeTableError T :=
  match o with
  | OpRegister k v aux => sc_register t k v aux
  | OpUpdate k d n => '(t', _) ← sc_update t k d n; Ok t'
  | OpSetValue k v => '(t', _) ← sc_set_value t k v; Ok t'
  | OpAdvance => sc_advance t
  end.

(** A failed operation leaves the table as it was; a panic ends the run. *)
Fixpoint run {T} `{!StakeTableScheme T K A} (t : T) (ops : list op) : option T :=
  match ops with
  | [] => Some t
  | o :: ops =>
      match run_op t o with
      | Ok t' => run t' ops
      | Err _ => run t ops
      | Panic => None
      end
  end.

(** What an operation that succeeds does to the abstract table; [None] where none may
    succeed. *)
Definition abs_effect (a : AbsTable K) (o : op) : option (AbsTable K) :=
  match o with
  | OpRegister k v _ =>
      match abs_head a !! k with
      | None => Some (abs_set_head a (<[k := v]> (abs_head a)))
      | Some _ => None
      end
  | OpUpdate k d n => old ← abs_head a !! k; Some (abs_set_head a (<[k := new_stake old d n]> (abs_head a)))
  | OpSetValue k v => _ ← abs_head a !! k; Some (abs_set_head a (<[k := v]> (abs_head a)))
  | OpAdvance => Some (abs_advance a)
  end.

Fixpoint abs_effects (a : AbsTable K) (ops : list op) : option (AbsTable K) :=
  match ops with
  | [] => Some a
  | o :: ops => a' ← abs_effect a o; abs_effects a' ops
  end.

(** The calls of a run that succeed. *)
Fixpoint accepted {T} `{!StakeTableScheme T K A} (t : T) (ops : list op) : list op :=
  match ops with
  | [] => []
  | o :: ops =>
      match run_op t o with
      | Ok t' => o :: accepted t' ops
      | _ => accepted t ops
      end
  end.

Lemma run_op_refines {T} `{!StakeTableScheme T K A, !StakeTableLaws T} (t t' : T) o :
  sc_inv t → op_args_ok o → run_op t o = Ok t' →
  sc_inv t' ∧ abs_effect (sc_abs t) o = Some (sc_abs t').
Proof.
  intros Hinv Hargs Hrun. destruct o as [k v aux|k d n|k v|]; cbn [run_op op_args_ok abs_effect] in *.
  - apply sc_register_ok in Hrun as (-> & ? & ->); done.
  - inv_ok Hrun. apply sc_update_ok in E as (old & -> & -> & Hu & ? & ->); done.
  - inv_ok Hrun. apply sc_set_value_ok in E as (-> & ? & ->); done.
  - apply sc_advance_ok in Hrun as (? & ->); done.
Qed.

(** A run of an implementation leaves the abstract table on which exactly the accepted
    calls have been made. *)
Lemma run_refines {T} `{!StakeTableScheme T K A, !StakeTableLaws T} (t t' : T) ops :
  sc_inv t → Forall op_args_ok ops → run t ops = Some t' →
  sc_inv t' ∧ abs_effects (sc_abs t) (accepted t ops) = Some (sc_abs t').
Proof.
  intros Hinv Hargs. revert t Hinv. induction Hargs as [|o ops Ho Hops IH]; intros t Hinv; cbn [run accepted].
  - intros [= <-]. done.
  - destruct (run_op t o) as [t1|e|] eqn:Hop; [|by apply IH|done]. intros Hrun.
    destruct (run_op_refines _ _ _ Hinv Ho Hop) as [Hinv1 Heff]. cbn [abs_effects]. rewrite Heff. by apply IH.
Qed.

(** ** The table as a map, exactly

    What every call does, answers and refuses, and when it panics, given the limits of
    an implementation: how many keys it has room for, whether a stake over 256 bits is
    an error ([StakeOverflow]) or a panic, and how many keys a snapshot can hold. *)
Record Limits := {
  lim_slots : option nat;
  lim_overflow_reported : bool;
  lim_snapshot : option nat;
}.

Definition within (n : nat) (limit : option nat) : bool :=
  match limit with Some limit => bool_decide (n <= limit)%nat | None => true end.

Definition table_spec (l : Limits) (a : AbsTable K) (o : op) : outcome StakeTableError (AbsTable K * option Z) :=
  let set k v answer := if decide (map_total (<[k := v]> (abs_head a)) < u256_modulus)
                        then Ok (abs_set_head a (<[k := v]> (abs_head a)), answer) else Panic in
  match o with
  | OpRegister k v _ =>
      if decide (is_Some (abs_head a !! k)) then Err ExistingKey
      else if negb (within (S (size (abs_head a))) (lim_slots l)) then Err ExistingKey
      else set k v None
  | OpUpdate k d negative =>
      match abs_head a !! k with
      | None => Err KeyNotFound
      | Some old =>
          let v := new_stake old d negative in
          if negative && (old <? d) then Err InsufficientFund
          else if lim_overflow_reported l && (u256_modulus <=? v) then Err StakeOverflow
          else set k v (Some v)
      end
  | OpSetValue k v =>
      match abs_head a !! k with
      | None => Err KeyNotFound
      | Some old => set k v (Some old)
      end
  | OpAdvance => if within (size (abs_head a)) (lim_snapshot l) then Ok (abs_advance a, None) else Panic
  end.

(** A call, with what it answers. *)
Definition call {T} `{!StakeTableScheme T K A} (t : T) (o : op) : outcome StakeTableError (T * option Z) :=
  match o with
  | OpRegister k v aux => t' ← sc_register t k v aux; Ok (t', None)
  | OpUpdate k d n => '(t', v) ← sc_update t k d n; Ok (t', Some v)
  | OpSetValue k v => '(t', v) ← sc_set_value t k v; Ok (t', Some v)
  | OpAdvance => t' ← sc_advance t; Ok (t', None)
  end.

(** A sequence of calls: the answer, the error or the panic of each, and the table at the
    end unless a call has panicked. *)
Fixpoint calls {T} (step : T → op → outcome StakeTableError (T * option Z)) (t : T) (ops : list op)
    : list (outcome StakeTableError (option Z)) * option T :=
  match ops with
  | [] => ([], Some t)
  | o :: ops =>
      match step t o with
      | Ok (t', v) => let '(vs, r) := calls step t' ops in (Ok v :: vs, r)
      | Err e => let '(vs, r) := calls step t ops in (Err e :: vs, r)
      | Panic => ([Panic], None)
      end
  end.

(** Two tables that answer each call alike answer every sequence alike. *)
Lemma calls_simulation {T U} step (spec : U → op → outcome StakeTableError (U * option Z)) (inv : T → Prop) (abs : T → U) t ops :
  (∀ t o, inv t → op_args_ok o → prod_map abs id <$> step t o = spec (abs t) o ∧
     ∀ t' v, step t o = Ok (t', v) → inv t') →
  inv t → Forall op_args_ok ops →
  prod_map id (fmap (M := option) abs) (calls step t ops) = calls spec (abs t) ops ∧
  ∀ t', (calls step t ops).2 = Some t' → inv t'.
Proof.
  intros Hsim Hinv Hops. revert t Hinv. induction Hops as [|o ops Ho Hops IH]; intros t Hinv; cbn [calls].
  { split; [done|]. by intros t' [= <-]. }
  destruct (Hsim t o Hinv Ho) as [<- Hinv']. destruct (step t o) as [[t1 v]|e|]; cbn [fmap outcome_fmap prod_map fst snd].
  - destruct (IH t1 (Hinv' t1 v eq_refl)) as [<- Hi]. by destruct (calls step t1 ops).
  - destruct (IH t Hinv) as [<- Hi]. by destruct (calls step t ops).
  - done.
Qed.

(** A batch registers a prefix of its list: the keys up to the first error. *)
Lemma try_register_refines {T} `{!StakeTableScheme T K A, !StakeTableLaws T} (t : T) l :
  sc_inv t → Forall (fun '(_, v, _) => is_u256 v) l →
  ∃ n, sc_inv (try_register t l).1 ∧
    abs_effects (sc_abs t) ((fun '(k, v, aux) => OpRegister k v aux) <$> take n l) =
      Some (sc_abs (try_register t l).1) ∧
    (is_ok (try_register t l).2 = true → n = length l).
Proof.
  intros Hinv Hl. revert t Hinv. induction Hl as [|[[k v] aux] l Hv Hl IH]; intros t Hinv.
  { by exists 0%nat. }
  cbn [try_register]. destruct (sc_register t k v aux) as [t'|e|] eqn:Hr.
  - apply sc_register_ok in Hr as (Hk & Hinv' & Habs); [|done..].
    destruct (IH t' Hinv') as (n & ? & Hs & Hn). exists (S n). split_and!; [done| |].
    + csimpl. cbn [abs_effects abs_effect]. rewrite Hk. cbn [mbind option_bind]. by rewrite <-Habs.
    + intros Ho. apply Hn in Ho. simpl. lia.
  - by exists 0%nat.
  - by exists 0%nat.
Qed.
End Contract.

(** ** Properties *)

(** [batch_register] reports no error.  Its documentation promises an
    error when a key fails to register; the code drops the error of its loop,
    registers the keys before the failing one only, and returns [Ok]. *)
Theorem batch_register_drops_errors {T K A} `{!StakeTableScheme T K A} (t : T) k v aux ks vs auxs e :
  sc_register t k v aux = Err e →
  batch_register t (k :: ks) (v :: vs) (aux :: auxs) = (t, Ok ()).
Proof. intros Hr. unfold batch_register. simpl. by rewrite Hr. Qed.

#[global] Instance sum_Z_perm : Proper ((≡ₚ) ==> (=)) sum_Z.
Proof. intros l1 l2. induction 1; simpl; lia. Qed.

Section Totals.
Context {K : Type} `{Countable K}.
Implicit Types (m : gmap K Z).

Lemma total_insert_new m k v : m !! k = None → map_total (<[k := v]> m) = map_total m + v.
Proof. intros Hk. unfold map_total. rewrite map_to_list_insert by done. csimpl. lia. Qed.

Lemma total_insert m k v old : m !! k = Some old → map_total (<[k := v]> m) = map_total m - old + v.
Proof.
  intros Hk. rewrite <-(insert_delete_id m k old Hk) at 2. rewrite <-(insert_delete_eq m k v).
  rewrite !total_insert_new by apply lookup_delete_eq. lia.
Qed.
End Totals.
