(* ===== verification/StakeTableMt.v ===== *)
(** * The Merkle-tree stake table

    Models [crates/hotshot-stake-table/src/mt_based/internal.rs] (the
    persistent ternary Merkle tree, its proofs and its iterator),
    [mt_based/config.rs] and [mt_based.rs] (the stake table with its three
    snapshots).  The rescue hash, the field arithmetic and the conversion of a
    key to field elements are third-party code: they are the operations of the
    class [RescueCtx], with the documented facts the theorems use as the class
    [RescueLaws]. *)

From S2P Require Import Prelude StakeTableScheme.

(** The third-party operations: [FieldType::from(0)], [Digest::evaluate(x)[0]]
    ([None] is its error), [K::to_fields], [K::SIZE] and
    [F::from_le_bytes_mod_order]. *)
Class RescueCtx (K F : Type) := {
  F_zero : F;
  digest : list F → option F;
  to_fields : K → list F;
  SIZE : nat;
  from_le_bytes_mod_order : list Z → F;
}.

(** [mt_based/config.rs] *)
Definition TREE_BRANCH : nat := 3.

(** [U256::to_little_endian] *)
Fixpoint to_little_endian (n : nat) (v : Z) : list Z :=
  match n with
  | O => []
  | S n => v mod 256 :: to_little_endian n (v / 256)
  end.

Section MerkleTree.
Context {K F : Type} `{!EqDecision K, !Countable K, !EqDecision F, !RescueCtx K F}.

#[local] Abbreviation result := (outcome StakeTableError).

Definition u256_to_field (v : Z) : F :=
  from_le_bytes_mod_order (K:=K) (to_little_endian 32 v).

Inductive PersistentMerkleNode : Type :=
  | Empty
  | Branch (comm : F) (children : list PersistentMerkleNode)
      (num_keys : nat) (total_stakes : Z)
  | Leaf (comm : F) (key : K) (value : Z).

Inductive MerklePathEntry : Type :=
  | PathBranch (pos : nat) (siblings : list F)
  | PathLeaf (key : K) (value : Z).

Record MerkleProof : Type := {
  mp_index : nat;
  mp_path : list MerklePathEntry;
}.

Record MerkleCommitment : Type := {
  mc_comm : F;
  mc_height : nat;
  mc_size : nat;
}.

(** ** The leaf preimage

    [let mut input = [FieldType::default(); 3];
     input[..SIZE].copy_from_slice(&key.to_fields()[..]);
     input[2] = u256_to_field(&value);
     Digest::evaluate(input).map_err(|_| RescueError)?[0]] *)
Definition copy_prefix (input : list F) (n : nat) (src : list F) : result (list F) :=
  if decide ((n ≤ length input)%nat ∧ length src = n)
  then Ok (src ++ drop n input) else Panic.

Definition leaf_comm (key : K) (value : Z) : result F :=
  input ← copy_prefix (replicate 3 (F_zero (K:=K))) (SIZE (K:=K) (F:=F)) (to_fields key);
  input ← index_set input 2 (u256_to_field value);
  ok_or (digest (K:=K) input) RescueError.

(** ** Merkle proofs *)

Definition tree_height (p : MerkleProof) : Z :=
  u64_sub (Z.of_nat (length (mp_path p))) 1.

Definition proof_key (p : MerkleProof) : option K :=
  match mp_path p with PathLeaf key _ :: _ => Some key | _ => None end.
Definition proof_value (p : MerkleProof) : option Z :=
  match mp_path p with PathLeaf _ value :: _ => Some value | _ => None end.
Definition proof_key_value (p : MerkleProof) : option (K * Z) :=
  match mp_path p with PathLeaf key value :: _ => Some (key, value) | _ => None end.

(** The [input] array of a branch: the siblings around [comm] at [pos]. *)
Definition branch_input (pos : nat) (comm : F) (siblings : list F) : result (list F) :=
  if decide ((pos < TREE_BRANCH)%nat ∧ length siblings = (TREE_BRANCH - 1)%nat)
  then Ok (take pos siblings ++ comm :: drop pos siblings) else Panic.

Definition fold_entry (comm : result F) (entry : MerklePathEntry) : result F :=
  comm ← comm;
  match entry with
  | PathBranch pos siblings =>
      input ← branch_input pos comm siblings;
      ok_or (digest (K:=K) input) RescueError
  | PathLeaf _ _ => Err MalformedProof
  end.

Definition compute_root (p : MerkleProof) : result F :=
  match mp_path p with
  | PathLeaf key value :: rest =>
      init ← leaf_comm key value;
      foldl fold_entry (Ok init) rest
  | _ => Err MalformedProof
  end.

Definition verify (p : MerkleProof) (comm : MerkleCommitment) : result unit :=
  if bool_decide (tree_height p ≠ Z.of_nat (mc_height comm)) then Err VerificationError
  else
    root ← compute_root p;
    if bool_decide (root = mc_comm comm) then Ok tt else Err VerificationError.

(** ** The tree *)

Definition commitment (t : PersistentMerkleNode) : F :=
  match t with
  | Empty => F_zero (K:=K)
  | Branch comm _ _ _ | Leaf comm _ _ => comm
  end.

Definition num_keys (t : PersistentMerkleNode) : nat :=
  match t with
  | Empty => 0
  | Branch _ _ n _ => n
  | Leaf _ _ _ => 1
  end.

Definition total_stakes (t : PersistentMerkleNode) : Z :=
  match t with
  | Empty => 0
  | Branch _ _ _ s => s
  | Leaf _ _ v => v
  end.

(** [path[height - 1]]: for height 0 the subtraction underflows and the
    index is out of bounds. *)
Fixpoint simple_lookup (height : nat) (t : PersistentMerkleNode) (path : list nat) : result Z :=
  match t with
  | Empty => Err KeyNotFound
  | Branch _ children _ _ =>
      match height with
      | O => Panic
      | S height =>
          pos ← index path height;
          child ← index children pos;
          simple_lookup height child path
      end
  | Leaf _ _ value => Ok value
  end.

Definition to_merkle_path (idx height : nat) : list nat :=
  (fix go pos n := match n with
    | O => []
    | S n => (pos mod TREE_BRANCH)%nat :: go (pos / TREE_BRANCH)%nat n
    end) idx height.

Definition from_merkle_path (path : list nat) : nat :=
  fst (foldl (fun '(pos, mul) branch => (pos + mul * branch, mul * TREE_BRANCH)%nat)
         (0, 1)%nat path).

(** The commitments of the children other than [pos]. *)
Definition siblings_of (children : list PersistentMerkleNode) (pos : nat) : list F :=
  (fun '(_, node) => commitment node) <$>
    filter (fun '(i, _) => i ≠ pos) (imap pair children).

Fixpoint lookup (height : nat) (t : PersistentMerkleNode) (path : list nat) : result MerkleProof :=
  match t with
  | Empty => Err KeyNotFound
  | Branch _ children _ _ =>
      match height with
      | O => Panic
      | S height =>
          pos ← index path height;
          child ← index children pos;
          proof ← lookup height child path;
          let siblings := siblings_of children pos in
          _ ← (if decide (length siblings = (TREE_BRANCH - 1)%nat) then Ok () else Panic);
          Ok {| mp_index := mp_index proof;
                mp_path := mp_path proof ++ [PathBranch pos siblings] |}
      end
  | Leaf _ key value =>
      Ok {| mp_index := from_merkle_path path; mp_path := [PathLeaf key value] |}
  end.

(** The [while] loop walks the children from the left; running past the last
    one is an index out of bounds. *)
Fixpoint key_by_stake (t : PersistentMerkleNode) (stake_number : Z) : result (option (K * Z)) :=
  if total_stakes t <=? stake_number then Ok None
  else match t with
  | Empty => Ok None
  | Branch _ children _ _ =>
      (fix go cs stake_number := match cs with
        | [] => Panic
        | c :: cs =>
            if total_stakes c <=? stake_number
            then go cs (stake_number - total_stakes c)
            else key_by_stake c stake_number
        end) children stake_number
  | Leaf _ key value => Ok (Some (key, value))
  end.

(** [num_keys], [total_stakes] and [comm] of a branch from its children. *)
Definition branch_of_children (children : list PersistentMerkleNode) :
    result PersistentMerkleNode :=
  let num := sum_list (num_keys <$> children) in
  total ← u256_sum (total_stakes <$> children);
  comm ← ok_or (digest (K:=K) (commitment <$> children)) RescueError;
  Ok (Branch comm children num total).

Fixpoint register (height : nat) (t : PersistentMerkleNode) (path : list nat)
    (key : K) (value : Z) : result PersistentMerkleNode :=
  match height with
  | O =>
      match t with
      | Empty => comm ← leaf_comm key value; Ok (Leaf comm key value)
      | _ => Err ExistingKey
      end
  | S height =>
      let children := match t with
        | Branch _ children _ _ => children
        | _ => replicate TREE_BRANCH Empty
        end in
      pos ← index path height;
      child ← index children pos;
      child' ← register height child path key value;
      children' ← index_set children pos child';
      branch_of_children children'
  end.

Fixpoint update (height : nat) (t : PersistentMerkleNode) (path : list nat)
    (key : K) (delta : Z) (negative : bool) : result (PersistentMerkleNode * Z) :=
  match t with
  | Empty => Err KeyNotFound
  | Branch _ children _ _ =>
      match height with
      | O => Panic
      | S height =>
          pos ← index path height;
          child ← index children pos;
          '(child', value) ← update height child path key delta negative;
          children' ← index_set children pos child';
          t' ← branch_of_children children';
          Ok (t', value)
      end
  | Leaf _ node_key old_value =>
      if decide (key = node_key) then
        value ← (if negative then ok_or (u256_checked_sub old_value delta) InsufficientFund
                 else ok_or (u256_checked_add old_value delta) StakeOverflow);
        comm ← leaf_comm key value;
        Ok (Leaf comm key value, value)
      else Err MismatchedKey
  end.

Fixpoint set_value (height : nat) (t : PersistentMerkleNode) (path : list nat)
    (key : K) (value : Z) : result (PersistentMerkleNode * Z) :=
  match t with
  | Empty => Err KeyNotFound
  | Branch _ children _ _ =>
      match height with
      | O => Panic
      | S height =>
          pos ← index path height;
          child ← index children pos;
          '(child', old_value) ← set_value height child path key value;
          children' ← index_set children pos child';
          if decide (sum_list (num_keys <$> children') = 0%nat) then Ok (Empty, value)
          else
            t' ← branch_of_children children';
            Ok (t', old_value)
      end
  | Leaf _ cur_key old_value =>
      if decide (key = cur_key) then
        comm ← leaf_comm key value;
        Ok (Leaf comm key value, old_value)
      else Err MismatchedKey
  end.

(** ** The iterator

    [IntoIter] is its stack of unvisited nodes, the last element on top; here
    the head of the list is the top.  One call of [next] pops nodes until it
    meets a leaf or an empty node; [nodes] counts the nodes of the stack and
    bounds the recursion. *)
Fixpoint node_count (t : PersistentMerkleNode) : nat :=
  match t with
  | Branch _ children _ _ => S (sum_list_with node_count children)
  | _ => 1
  end.

Definition IntoIter : Type := list PersistentMerkleNode.

Definition IntoIter_new (root : PersistentMerkleNode) : IntoIter := [root].

Fixpoint next_fuel (fuel : nat) (unvisited : IntoIter) : option (K * Z) * IntoIter :=
  match fuel with
  | O => (None, unvisited)
  | S fuel =>
      match unvisited with
      | [] => (None, [])
      | visiting :: unvisited =>
          match visiting with
          | Empty => (None, unvisited)
          | Branch _ children _ _ => next_fuel fuel (children ++ unvisited)
          | Leaf _ key value => (Some (key, value), unvisited)
          end
      end
  end.

Definition next (unvisited : IntoIter) : option (K * Z) * IntoIter :=
  next_fuel (S (sum_list_with node_count unvisited)) unvisited.

(** [.collect()]: the items until the first [None]. *)
Fixpoint collect_fuel (fuel : nat) (it : IntoIter) : list (K * Z) :=
  match fuel with
  | O => []
  | S fuel =>
      match next it with
      | (Some kv, it) => kv :: collect_fuel fuel it
      | (None, _) => []
      end
  end.

Definition collect (it : IntoIter) : list (K * Z) :=
  collect_fuel (S (sum_list_with node_count it)) it.

(** ** The stake table *)

Record StakeTable : Type := {
  head : PersistentMerkleNode;
  epoch_start : PersistentMerkleNode;
  last_epoch_start : PersistentMerkleNode;
  height : nat;
  mapping : gmap K nat;
}.

Definition StakeTable_new (h : nat) : StakeTable :=
  {| head := Empty; epoch_start := Empty; last_epoch_start := Empty;
     height := h; mapping := ∅ |}.

Definition with_head (st : StakeTable) (t : PersistentMerkleNode) : StakeTable :=
  {| head := t; epoch_start := epoch_start st; last_epoch_start := last_epoch_start st;
     height := height st; mapping := mapping st |}.

Definition with_mapping (st : StakeTable) (m : gmap K nat) : StakeTable :=
  {| head := head st; epoch_start := epoch_start st;
     last_epoch_start := last_epoch_start st; height := height st; mapping := m |}.

Definition root (st : StakeTable) (version : SnapshotVersion) : result PersistentMerkleNode :=
  match version with
  | Head => Ok (head st)
  | EpochStart => Ok (epoch_start st)
  | LastEpochStart => Ok (last_epoch_start st)
  | BlockNum _ => Err SnapshotUnsupported
  end.

Definition st_register (st : StakeTable) (new_key : K) (amount : Z) : result StakeTable :=
  match mapping st !! new_key with
  | Some _ => Err ExistingKey
  | None =>
      let pos := size (mapping st) in
      head' ← register (height st) (head st) (to_merkle_path pos (height st)) new_key amount;
      Ok (with_mapping (with_head st head') (<[new_key := pos]> (mapping st)))
  end.

Definition st_commitment (st : StakeTable) (version : SnapshotVersion) : result MerkleCommitment :=
  r ← root st version;
  Ok {| mc_comm := commitment r; mc_height := height st; mc_size := num_keys r |}.

Definition total_stake (st : StakeTable) (version : SnapshotVersion) : result Z :=
  r ← root st version; Ok (total_stakes r).

Definition st_len (st : StakeTable) (version : SnapshotVersion) : result nat :=
  r ← root st version; Ok (num_keys r).

Definition contains_key (st : StakeTable) (key : K) : bool :=
  bool_decide (is_Some (mapping st !! key)).

Definition st_lookup (st : StakeTable) (version : SnapshotVersion) (key : K) : result Z :=
  r ← root st version;
  match mapping st !! key with
  | Some idx => simple_lookup (height st) r (to_merkle_path idx (height st))
  | None => Err KeyNotFound
  end.

Definition lookup_with_proof (st : StakeTable) (version : SnapshotVersion) (key : K) :
    result (Z * MerkleProof) :=
  r ← root st version;
  proof ← match mapping st !! key with
    | Some idx => lookup (height st) r (to_merkle_path idx (height st))
    | None => Err KeyNotFound
    end;
  amount ← ok_or (proof_value proof) KeyNotFound;
  Ok (amount, proof).

Definition lookup_with_aux_and_proof (st : StakeTable) (version : SnapshotVersion) (key : K) :
    result (Z * unit * MerkleProof) :=
  '(amount, proof) ← lookup_with_proof st version key;
  Ok (amount, (), proof).

Definition st_update (st : StakeTable) (key : K) (delta : Z) (negative : bool) :
    result (StakeTable * Z) :=
  match mapping st !! key with
  | Some pos =>
      '(head', value) ← update (height st) (head st) (to_merkle_path pos (height st))
                          key delta negative;
      Ok (with_head st head', value)
  | None => Err KeyNotFound
  end.

(** [r] is the 512-bit number the random generator filled in; [r % m] panics
    when [m] is zero. *)
Definition sample (st : StakeTable) (r : Z) : result (option (K * Z)) :=
  let m := total_stakes (last_epoch_start st) in
  if m =? 0 then Panic else key_by_stake (last_epoch_start st) (r mod m).

Definition try_iter (st : StakeTable) (version : SnapshotVersion) : result IntoIter :=
  r ← root st version; Ok (IntoIter_new r).

Definition advance (st : StakeTable) : StakeTable :=
  {| head := head st; epoch_start := head st; last_epoch_start := epoch_start st;
     height := height st; mapping := mapping st |}.

Definition st_set_value (st : StakeTable) (key : K) (value : Z) : result (StakeTable * Z) :=
  match mapping st !! key with
  | Some pos =>
      '(head', old_value) ← set_value (height st) (head st) (to_merkle_path pos (height st))
                              key value;
      Ok (with_head st head', old_value)
  | None => Err KeyNotFound
  end.

End MerkleTree.

Arguments PersistentMerkleNode : clear implicits.
Arguments StakeTable K F {_ _}.
Arguments MerkleProof : clear implicits.
Arguments MerklePathEntry : clear implicits.
Arguments MerkleCommitment : clear implicits.
