(* ===== verification/StakeTableMtProofs.v ===== *)
(** * The Merkle-tree stake table: correctness

    A well-formed tree of height [h] is a table of [3 ^ h] slots ([entries]);
    every operation of the tree is the corresponding operation on the slot of
    its index, and the stake table refines a finite map from keys to stakes. *)

From S2P Require Import Prelude StakeTableScheme StakeTableMt.

(** What the development relies on of the rescue hash and of [ToFields]: a
    rate-3 hash accepts three field elements, and a key is at most two field
    elements ([mt_based/config.rs]: 1 for a field element, 2 for a BLS key). *)
Class RescueLaws (K F : Type) `{!RescueCtx K F} : Prop := {
  digest_total : ∀ l : list F, length l = TREE_BRANCH → is_Some (digest (K:=K) l);
  length_to_fields : ∀ k : K, length (to_fields (F:=F) k) = SIZE (K:=K) (F:=F);
  SIZE_le : (SIZE (K:=K) (F:=F) ≤ 2)%nat;
}.

Section Paths.
Local Open Scope nat_scope.

Lemma to_merkle_path_S idx h :
  to_merkle_path idx (S h) = (idx mod 3) :: to_merkle_path (idx / 3) h.
Proof. done. Qed.

Lemma length_to_merkle_path idx h : length (to_merkle_path idx h) = h.
Proof. revert idx. induction h; intros; [done|]. rewrite to_merkle_path_S. simpl. auto. Qed.

Lemma to_merkle_path_lookup idx h i :
  i < h → to_merkle_path idx h !! i = Some ((idx / 3 ^ i) mod 3).
Proof.
  revert idx i. induction h as [|h IH]; intros idx [|i] Hi; [lia|lia| |];
    rewrite to_merkle_path_S; cbn [list_lookup lookup].
  - by rewrite Nat.pow_0_r, Nat.div_1_r.
  - change (to_merkle_path (idx / 3) h !! i = Some ((idx / 3 ^ S i) mod 3)).
    rewrite IH by lia. by rewrite Nat.Div0.div_div, <-Nat.pow_succ_r'.
Qed.

Lemma mod_pow_lt idx h : idx mod 3 ^ h < 3 ^ h.
Proof. apply Nat.mod_upper_bound, Nat.pow_nonzero. lia. Qed.

(** The slot of [idx] in a subtree of height [S h]: the chunk of the digit
    [h], and the slot in that chunk. *)
Lemma mod_pow_S idx h :
  idx mod 3 ^ S h = ((idx / 3 ^ h) mod 3) * 3 ^ h + idx mod 3 ^ h.
Proof.
  rewrite Nat.pow_succ_r', (Nat.mul_comm 3), Nat.Div0.mod_mul_r. lia.
Qed.

Lemma from_merkle_path_acc path p m :
  (foldl (fun '(pos, mul) branch => (pos + mul * branch, mul * TREE_BRANCH)) (p, m) path).1
    = p + m * from_merkle_path path.
Proof.
  unfold from_merkle_path. revert p m. induction path as [|b path IH]; intros; simpl; [lia|].
  rewrite IH, (IH (b + 0)). unfold TREE_BRANCH. ring.
Qed.

Lemma from_merkle_path_cons b path :
  from_merkle_path (b :: path) = b + 3 * from_merkle_path path.
Proof. unfold from_merkle_path at 1. simpl. rewrite from_merkle_path_acc. unfold TREE_BRANCH. lia. Qed.

Lemma from_merkle_path_snoc path b :
  from_merkle_path (path ++ [b]) = b * 3 ^ length path + from_merkle_path path.
Proof.
  induction path as [|a path IH].
  - change (b + 0 = b * 1 + 0). lia.
  - cbn [app length]. rewrite !from_merkle_path_cons, IH, Nat.pow_succ_r'. ring.
Qed.

Lemma from_to_merkle_path idx h : from_merkle_path (to_merkle_path idx h) = idx mod 3 ^ h.
Proof.
  revert idx. induction h as [|h IH]; intros idx; [done|].
  rewrite to_merkle_path_S, from_merkle_path_cons, IH, Nat.pow_succ_r', Nat.Div0.mod_mul_r. done.
Qed.

End Paths.

Section Proofs.
Context {K F : Type} `{!EqDecision K, !Countable K, !EqDecision F, !RescueCtx K F}.

#[local] Abbreviation node := (PersistentMerkleNode K F).
#[local] Abbreviation slot := (option (K * Z)).

(** ** Well-formed trees and their slots *)

Fixpoint wf_node (h : nat) (t : node) : Prop :=
  match t with
  | Empty => True
  | Leaf comm key value => h = O ∧ leaf_comm key value = Ok comm ∧ is_u256 value
  | Branch comm children num total =>
      match h with
      | O => False
      | S h =>
          length children = TREE_BRANCH ∧ Forall (wf_node h) children ∧
          num = sum_list (num_keys <$> children) ∧
          total = sum_Z (total_stakes <$> children) ∧ total < u256_modulus ∧
          digest (K:=K) (commitment <$> children) = Some comm
      end
  end.

Fixpoint entries (h : nat) (t : node) : list slot :=
  match t with
  | Empty => replicate (3 ^ h) None
  | Leaf _ key value => [Some (key, value)]
  | Branch _ children _ _ =>
      match h with
      | O => []
      | S h => mjoin (entries h <$> children)
      end
  end.

Definition slot_stake (s : slot) : Z := match s with Some (_, v) => v | None => 0 end.
Definition slots_stake (l : list slot) : Z := sum_Z (slot_stake <$> l).
Definition slots_count (l : list slot) : nat := length (omap id l).

Lemma wf_Empty h : wf_node h Empty.
Proof. by destruct h. Qed.

Lemma length_entries h (t : node) : wf_node h t → length (entries h t) = (3 ^ h)%nat.
Proof.
  revert t. induction h as [|h IH]; intros [|comm cs n s|comm k v] Hwf; simpl in *; try done.
  - by rewrite length_replicate.
  - destruct Hwf as (Hlen & Hcs & _). rewrite (join_length _ (3 ^ h)).
    + rewrite length_fmap, Hlen. done.
    + apply Forall_fmap. eapply Forall_impl; [exact Hcs|]. intros c Hc. by apply IH.
  - by destruct Hwf.
Qed.

Lemma entries_chunks h (cs : list node) :
  Forall (wf_node h) cs → Forall (fun l => length l = (3 ^ h)%nat) (entries h <$> cs).
Proof. intros. apply Forall_fmap. eapply Forall_impl; [done|]. intros. by apply length_entries. Qed.

Lemma slots_stake_join (ls : list (list slot)) :
  slots_stake (mjoin ls) = sum_Z (slots_stake <$> ls).
Proof.
  unfold slots_stake. induction ls as [|l ls IH]; [done|]. simpl.
  rewrite fmap_app, sum_Z_app, IH. done.
Qed.

Lemma slots_count_join (ls : list (list slot)) :
  slots_count (mjoin ls) = sum_list (slots_count <$> ls).
Proof.
  unfold slots_count. induction ls as [|l ls IH]; [done|]. simpl.
  rewrite omap_app, length_app, IH. done.
Qed.

Lemma slots_stake_empty n : slots_stake (replicate n None) = 0.
Proof. unfold slots_stake. rewrite fmap_replicate. by induction n. Qed.

Lemma slots_count_empty n : slots_count (replicate n None) = 0%nat.
Proof. unfold slots_count. induction n; simpl; done. Qed.

(** The cached totals of a node are the totals of its slots. *)
Lemma wf_totals h (t : node) :
  wf_node h t →
  total_stakes t = slots_stake (entries h t) ∧ num_keys t = slots_count (entries h t) ∧
  is_u256 (total_stakes t).
Proof.
  revert t. induction h as [|h IH]; intros [|comm cs n s|comm k v] Hwf; simpl in *; try done.
  - unfold slots_stake; simpl. unfold is_u256 in *. destruct Hwf as (_ & _ & ?).
    split_and!; first [done | lia].
  - rewrite slots_stake_empty, slots_count_empty. done.
  - destruct Hwf as (Hlen & Hcs & -> & -> & Hlt & _).
    rewrite slots_stake_join, slots_count_join, <-!list_fmap_compose.
    assert (total_stakes <$> cs = slots_stake ∘ entries h <$> cs) as Hts.
    { apply list_fmap_ext. intros i c Hc. rewrite Forall_forall in Hcs.
      apply IH, Hcs. by eapply list_elem_of_lookup_2. }
    assert (num_keys <$> cs = slots_count ∘ entries h <$> cs) as Hnk.
    { apply list_fmap_ext. intros i c Hc. rewrite Forall_forall in Hcs.
      apply IH, Hcs. by eapply list_elem_of_lookup_2. }
    rewrite <-Hts, <-Hnk. split_and!; try done. split; [|done].
    apply sum_Z_nonneg, Forall_fmap. eapply Forall_impl; [exact Hcs|].
    intros c Hc. apply IH in Hc. unfold is_u256 in Hc. simpl. lia.
  - by destruct Hwf.
Qed.

Lemma slots_stake_insert (l : list slot) i x y :
  l !! i = Some y → slots_stake (<[i := x]> l) = slots_stake l - slot_stake y + slot_stake x.
Proof.
  intros Hi. unfold slots_stake. rewrite list_fmap_insert.
  apply sum_Z_insert. by rewrite list_lookup_fmap, Hi.
Qed.

(** ** Lookup *)

(** [idx]'s slot of a branch lies in the child of its digit. *)
Lemma entries_branch_lookup h comm (cs : list node) n s idx c :
  wf_node (S h) (Branch comm cs n s) →
  cs !! ((idx / 3 ^ h) mod 3)%nat = Some c →
  entries (S h) (Branch comm cs n s) !! (idx mod 3 ^ S h)%nat =
    entries h c !! (idx mod 3 ^ h)%nat.
Proof.
  intros (_ & Hcs & _) Hc. rewrite mod_pow_S. cbn [entries].
  rewrite (join_lookup _ (3 ^ h)), list_lookup_fmap, Hc; [done|by apply entries_chunks|].
  apply mod_pow_lt.
Qed.

Lemma branch_child h comm (cs : list node) n s idx :
  wf_node (S h) (Branch comm cs n s) →
  ∃ c, cs !! ((idx / 3 ^ h) mod 3)%nat = Some c ∧ wf_node h c.
Proof.
  intros (Hlen & Hcs & _). unfold TREE_BRANCH in Hlen.
  destruct (lookup_lt_is_Some_2 cs ((idx / 3 ^ h) mod 3)%nat) as [c Hc].
  { rewrite Hlen. apply Nat.mod_upper_bound. lia. }
  exists c. split; [done|]. by eapply Forall_lookup_1.
Qed.

Lemma empty_lookup h idx : entries h (Empty (K:=K) (F:=F)) !! (idx mod 3 ^ h)%nat = Some None.
Proof.
  assert (entries h (Empty (K:=K) (F:=F)) = replicate (3 ^ h) None) as -> by (by destruct h).
  apply lookup_replicate_2, mod_pow_lt.
Qed.

Lemma leaf_lookup comm k v idx :
  entries 0 (Leaf comm k v : node) !! (idx mod 3 ^ 0)%nat = Some (Some (k, v)).
Proof. by rewrite Nat.pow_0_r, Nat.mod_1_r. Qed.

Lemma index_path {E} idx H h :
  (S h ≤ H)%nat → index (E:=E) (to_merkle_path idx H) h = Ok ((idx / 3 ^ h) mod 3)%nat.
Proof. intros. apply index_ok_inv, to_merkle_path_lookup. lia. Qed.

Lemma simple_lookup_spec h (t : node) idx H :
  wf_node h t → (h ≤ H)%nat →
  simple_lookup h t (to_merkle_path idx H) =
    match entries h t !! (idx mod 3 ^ h)%nat with
    | Some (Some (_, v)) => Ok v
    | _ => Err KeyNotFound
    end.
Proof.
  revert t. induction h as [|h IH]; intros [|comm cs n s|comm k v] Hwf Hle; try done.
  - by rewrite empty_lookup.
  - destruct (branch_child _ _ _ _ _ idx Hwf) as (c & Hc & Hwfc).
    rewrite (entries_branch_lookup _ _ _ _ _ _ _ Hwf Hc). simpl.
    rewrite (index_path _ _ _ Hle). simpl.
    rewrite (index_Some _ _ _ Hc). simpl. apply IH; [done|lia].
  - by destruct Hwf.
Qed.

(** ** The operations that rebuild a path *)

Context `{!RescueLaws K F}.

Lemma leaf_comm_total (k : K) v : ∃ c : F, leaf_comm k v = Ok c.
Proof.
  unfold leaf_comm, copy_prefix. pose proof (SIZE_le (K:=K) (F:=F)).
  pose proof (length_to_fields (F:=F) k) as Hlen.
  rewrite decide_True by (rewrite length_replicate; split; [lia|done]). simpl.
  unfold index_set. rewrite decide_True.
  2:{ rewrite length_app, length_drop. simpl. lia. }
  simpl. edestruct (digest_total (K:=K) (F:=F)) as [d ->]; [|by eexists].
  rewrite length_insert, length_app, length_drop. simpl. unfold TREE_BRANCH. lia.
Qed.

Lemma branch_of_children_spec h (cs : list node) :
  length cs = TREE_BRANCH → Forall (wf_node h) cs →
  match branch_of_children cs with
  | Ok t => wf_node (S h) t ∧ entries (S h) t = mjoin (entries h <$> cs)
  | Err _ => False
  | Panic => u256_modulus <= slots_stake (mjoin (entries h <$> cs))
  end.
Proof.
  intros Hlen Hcs.
  assert (total_stakes <$> cs = slots_stake <$> (entries h <$> cs)) as Hts.
  { rewrite <-list_fmap_compose. apply list_fmap_ext. intros i c Hc.
    apply (wf_totals h). by eapply Forall_lookup_1. }
  assert (Forall (fun x => 0 <= x) (total_stakes <$> cs)) as Hnn.
  { apply Forall_fmap. eapply Forall_impl; [done|]. intros c Hc. simpl.
    apply wf_totals in Hc. unfold is_u256 in Hc. lia. }
  destruct (digest_total (K:=K) (commitment <$> cs)) as [d Hd]; [by rewrite length_fmap|].
  unfold branch_of_children. destruct (u256_sum _) as [s|e|] eqn:Hs; simpl.
  - apply u256_sum_ok in Hs as [-> ?]; [|done]. rewrite Hd. simpl. by split_and!.
  - by apply u256_sum_no_err in Hs.
  - rewrite slots_stake_join, <-Hts. destruct (decide (sum_Z (total_stakes <$> cs) < u256_modulus)); [|lia].
    assert (u256_sum (E:=StakeTableError) (total_stakes <$> cs) = Ok (sum_Z (total_stakes <$> cs)))
      by (by apply u256_sum_ok). congruence.
Qed.

(** Replacing one child of a node by a tree with one slot changed. *)
Lemma rebuild_spec h (cs : list node) idx c c' x :
  length cs = TREE_BRANCH → Forall (wf_node h) cs → wf_node h c' →
  cs !! ((idx / 3 ^ h) mod 3)%nat = Some c →
  entries h c' = <[(idx mod 3 ^ h)%nat := x]> (entries h c) →
  let cs' := <[((idx / 3 ^ h) mod 3)%nat := c']> cs in
  index_set (E:=StakeTableError) cs ((idx / 3 ^ h) mod 3)%nat c' = Ok cs' ∧
  length cs' = TREE_BRANCH ∧ Forall (wf_node h) cs' ∧
  mjoin (entries h <$> cs') = <[(idx mod 3 ^ S h)%nat := x]> (mjoin (entries h <$> cs)).
Proof.
  intros Hlen Hcs Hc' Hc He cs'. split_and!.
  - unfold index_set. rewrite decide_True; [done|]. by eapply lookup_lt_Some.
  - unfold cs'. by rewrite length_insert.
  - by apply Forall_insert.
  - unfold cs'. rewrite list_fmap_insert, He, mod_pow_S. apply join_insert.
    + by apply entries_chunks.
    + apply mod_pow_lt.
    + by rewrite list_lookup_fmap, Hc.
Qed.

Lemma register_spec h (t : node) idx H key value :
  wf_node h t → (h ≤ H)%nat → is_u256 value →
  match register h t (to_merkle_path idx H) key value with
  | Ok t' =>
      entries h t !! (idx mod 3 ^ h)%nat = Some None ∧ wf_node h t' ∧
      entries h t' = <[(idx mod 3 ^ h)%nat := Some (key, value)]> (entries h t)
  | Err e => e = ExistingKey ∧ ∃ kv, entries h t !! (idx mod 3 ^ h)%nat = Some (Some kv)
  | Panic =>
      entries h t !! (idx mod 3 ^ h)%nat = Some None ∧
      u256_modulus <= slots_stake (entries h t) + value
  end.
Proof.
  revert t. induction h as [|h IH]; intros t Hwf Hle Hv.
  - destruct (leaf_comm_total key value) as [d Hd].
    destruct t; simpl in *; [rewrite Hd; simpl; by split_and!|done|eauto].
  - cbn [register].
    set (cs := match t with Branch _ cs _ _ => cs | _ => replicate TREE_BRANCH Empty end).
    assert (length cs = TREE_BRANCH ∧ Forall (wf_node h) cs ∧
            mjoin (entries h <$> cs) = entries (S h) t) as (Hlen & Hcs & Hent).
    { destruct t as [|? cs' ? ?|]; [|destruct Hwf as (?&?&_); done|by destruct Hwf].
      subst cs. split_and!; [done|by apply Forall_replicate, wf_Empty|].
      simpl. assert (entries h (Empty (K:=K) (F:=F)) = replicate (3 ^ h) None) as -> by by destruct h.
      by rewrite app_nil_r, <-!replicate_add, Nat.add_0_r. }
    rewrite (index_path _ _ _ Hle); mon.
    destruct (lookup_lt_is_Some_2 cs ((idx / 3 ^ h) mod 3)%nat) as [c Hc].
    { rewrite Hlen. apply Nat.mod_upper_bound. unfold TREE_BRANCH. lia. }
    assert (wf_node h c) as Hwfc by by eapply Forall_lookup_1.
    rewrite (index_Some _ _ _ Hc); mon.
    assert (entries (S h) t !! (idx mod 3 ^ S h)%nat = entries h c !! (idx mod 3 ^ h)%nat) as Hlk.
    { rewrite <-Hent, mod_pow_S, (join_lookup _ (3 ^ h)), list_lookup_fmap, Hc;
        [done|by apply entries_chunks|apply mod_pow_lt]. }
    specialize (IH c Hwfc ltac:(lia) Hv).
    destruct (register h c _ key value) as [c'|e|]; mon.
    + destruct IH as (Hnone & Hwfc' & He).
      destruct (rebuild_spec h cs idx c c' (Some (key, value))) as (-> & Hlen' & Hcs' & Hj); try done.
      mon. pose proof (branch_of_children_spec h _ Hlen' Hcs') as Hb.
      rewrite Hj, Hent in Hb. rewrite Hlk, Hnone.
      destruct (branch_of_children _); [by destruct Hb|done|]. split; [done|].
      rewrite slots_stake_insert with (y := None) in Hb by congruence. cbn [slot_stake] in Hb. lia.
    + rewrite Hlk. naive_solver.
    + rewrite Hlk. destruct IH as [? Ho]. split; [done|].
      enough (slots_stake (entries h c) <= slots_stake (entries (S h) t)) by lia.
      rewrite <-Hent, slots_stake_join, <-list_fmap_compose.
      apply sum_Z_lookup_le with (i := ((idx / 3 ^ h) mod 3)%nat).
      * apply Forall_fmap. eapply Forall_impl; [done|]. intros x Hx. simpl.
        apply wf_totals in Hx as (<- & _ & ?). unfold is_u256 in *. lia.
      * by rewrite list_lookup_fmap, Hc.
Qed.

(** [update] and [set_value] change the stake of an existing slot.  Both
    descend to the slot, check the key and rebuild the path, so they share
    [modify_spec]: [f] is the leaf's new value and the value returned. *)
Fixpoint modify (h : nat) (t : node) (path : list nat) (key : K)
    (f : Z → outcome StakeTableError (Z * Z)) : outcome StakeTableError (node * Z) :=
  match t with
  | Empty => Err KeyNotFound
  | Branch _ children _ _ =>
      match h with
      | O => Panic
      | S h =>
          pos ← index path h;
          child ← index children pos;
          '(child', r) ← modify h child path key f;
          children' ← index_set children pos child';
          t' ← branch_of_children children';
          Ok (t', r)
      end
  | Leaf _ node_key old_value =>
      if decide (key = node_key) then
        '(value, r) ← f old_value;
        comm ← leaf_comm key value;
        Ok (Leaf comm key value, r)
      else Err MismatchedKey
  end.

Lemma update_modify h (t : node) path key delta negative :
  update h t path key delta negative =
  modify h t path key (fun old =>
    v ← (if negative then ok_or (u256_checked_sub old delta) InsufficientFund
         else ok_or (u256_checked_add old delta) StakeOverflow); Ok (v, v)).
Proof.
  revert t. induction h as [|h IH]; intros [|comm cs n s|comm k v]; try done; cbn [update modify].
  - case_decide; [|done]. by destruct (if negative then _ else _).
  - destruct (index path h); mon; [|done|done]. destruct (index cs _); mon; [|done|done]. by rewrite IH.
  - case_decide; [|done]. by destruct (if negative then _ else _).
Qed.

Lemma modify_num_keys h (t t' : node) path key f r :
  modify h t path key f = Ok (t', r) → wf_node h t → t' ≠ Empty ∧ (0 < num_keys t')%nat.
Proof.
  revert t t'. induction h as [|h IH]; intros [|comm cs n s|comm k v] t' Hm Hwf; try done;
    cbn [modify] in Hm.
  - case_decide; [|done]. inv_ok Hm. simplify_eq. simpl. split; [done|lia].
  - inv_ok Hm.
    apply index_set_ok_inv in E2 as [_ ->]. apply index_ok_inv in E0.
    destruct Hwf as (_ & Hcs & _). apply IH in E1 as [_ Hpos]; [|by eapply Forall_lookup_1].
    unfold branch_of_children in E3. inv_ok E3. split; [done|]. simpl.
    clear -E0 Hpos. revert a E0. induction cs as [|c cs IHc]; intros [|i] Hi; simplify_eq/=; [lia|].
    apply IHc in Hi. lia.
  - case_decide; [|done]. inv_ok Hm. simplify_eq. simpl. split; [done|lia].
Qed.

Lemma set_value_modify h (t : node) path key value :
  wf_node h t →
  set_value h t path key value = modify h t path key (fun old => Ok (value, old)).
Proof.
  revert t. induction h as [|h IH]; intros [|comm cs n s|comm k v] Hwf; try done;
    cbn [set_value modify].
  destruct (index path h) as [pos| |]; mon; [|done|done].
  destruct (index cs pos) as [c| |] eqn:Hc; mon; [|done|done].
  apply index_ok_inv in Hc. destruct Hwf as (_ & Hcs & _).
  assert (wf_node h c) as Hwfc by by eapply Forall_lookup_1. rewrite (IH c Hwfc).
  destruct (modify h c path key _) as [[c' r]| |] eqn:Hm; mon; [|done|done].
  destruct (index_set cs pos c') as [cs'| |] eqn:Hs; mon; [|done|done].
  rewrite decide_False; [done|]. apply modify_num_keys in Hm as [_ Hpos]; [|done].
  apply index_set_ok_inv in Hs as [Hlt ->].
  clear -Hlt Hpos. revert pos Hlt. induction cs as [|d cs IHc]; intros [|i] Hi; csimpl in *; [lia..|].
  specialize (IHc i ltac:(lia)). lia.
Qed.

(** The slot of a tree below the slot of a child weighs no more. *)
Lemma child_stake_le h (cs : list node) p c :
  Forall (wf_node h) cs → cs !! p = Some c →
  slots_stake (entries h c) <= slots_stake (mjoin (entries h <$> cs)).
Proof.
  intros Hcs Hc. rewrite slots_stake_join, <-list_fmap_compose.
  apply sum_Z_lookup_le with (i := p); [|by rewrite list_lookup_fmap, Hc].
  apply Forall_fmap. eapply Forall_impl; [done|]. intros x Hx. simpl.
  apply wf_totals in Hx as (<- & _ & ?). unfold is_u256 in *. lia.
Qed.

Lemma modify_spec h (t : node) idx H key f :
  wf_node h t → (h ≤ H)%nat →
  (∀ old v r, is_u256 old → f old = Ok (v, r) → is_u256 v) →
  match entries h t !! (idx mod 3 ^ h)%nat with
  | Some (Some (k, old)) =>
      if decide (key = k) then
        match f old with
        | Ok (v, r) =>
            match modify h t (to_merkle_path idx H) key f with
            | Ok (t', r') =>
                r' = r ∧ wf_node h t' ∧
                entries h t' = <[(idx mod 3 ^ h)%nat := Some (key, v)]> (entries h t)
            | Err _ => False
            | Panic => u256_modulus <= slots_stake (entries h t) - old + v
            end
        | Err e => modify h t (to_merkle_path idx H) key f = Err e
        | Panic => modify h t (to_merkle_path idx H) key f = Panic
        end
      else modify h t (to_merkle_path idx H) key f = Err MismatchedKey
  | _ => modify h t (to_merkle_path idx H) key f = Err KeyNotFound
  end.
Proof.
  intros Hwf Hle Hf. revert t Hwf. induction h as [|h IH]; intros [|comm cs n s|comm k v] Hwf; try done.
  - rewrite leaf_lookup. cbn [modify]. case_decide; [subst k|done].
    destruct (f v) as [[v' r]|e|] eqn:Hfv; mon; [|done|done].
    destruct (leaf_comm_total key v') as [d Hd]. rewrite Hd; mon.
    destruct Hwf as (_ & _ & Hv). split_and!; [done| |done]. simpl. split_and!; [done|done|by eapply Hf].
  - by rewrite empty_lookup.
  - destruct (branch_child _ _ _ _ _ idx Hwf) as (c & Hc & Hwfc).
    rewrite (entries_branch_lookup _ _ _ _ _ _ _ Hwf Hc). cbn [modify].
    rewrite (index_path _ _ _ Hle); mon. rewrite (index_Some _ _ _ Hc); mon.
    specialize (IH ltac:(lia) c Hwfc).
    destruct (entries h c !! _) as [[[k old]|]|] eqn:Hslot; [|by rewrite IH..].
    case_decide; [subst k|by rewrite IH].
    destruct (f old) as [[v r]|e|]; [|by rewrite IH..].
    destruct Hwf as (Hlen & Hcs & _). pose proof (child_stake_le _ _ _ _ Hcs Hc).
    destruct (modify h c _ key f) as [[c' r']|e|]; mon; [|done|cbn [entries]; lia].
    destruct IH as (-> & Hwfc' & He).
    destruct (rebuild_spec h cs idx c c' (Some (key, v))) as (-> & Hlen' & Hcs' & Hj); try done; mon.
    pose proof (branch_of_children_spec h _ Hlen' Hcs') as Hb. rewrite Hj in Hb.
    destruct (branch_of_children _); mon; [by destruct Hb|done|].
    rewrite slots_stake_insert with (y := Some (key, old)) in Hb; [done|].
    rewrite mod_pow_S, (join_lookup _ (3 ^ h)), list_lookup_fmap, Hc;
      [done|by apply entries_chunks|apply mod_pow_lt].
  - by destruct Hwf.
Qed.

(** ** Stake-weighted sampling *)

(** The reference: walk the slots from the left, the first whose running total
    exceeds [n]. *)
Fixpoint pick_by_stake (l : list slot) (n : Z) : option (K * Z) :=
  match l with
  | [] => None
  | None :: l => pick_by_stake l n
  | Some (k, v) :: l => if v <=? n then pick_by_stake l (n - v) else Some (k, v)
  end.

Definition slots_ok (l : list slot) : Prop := Forall (fun s => 0 <= slot_stake s) l.

Lemma slots_stake_nonneg l : slots_ok l → 0 <= slots_stake l.
Proof. intros Hl. apply sum_Z_nonneg, Forall_fmap. done. Qed.

Lemma pick_by_stake_app l1 l2 n :
  slots_ok l1 → 0 <= n →
  pick_by_stake (l1 ++ l2) n =
    if slots_stake l1 <=? n then pick_by_stake l2 (n - slots_stake l1)
    else pick_by_stake l1 n.
Proof.
  intros Hl. revert n. induction Hl as [|s l Hs Hl IH]; intros n Hn.
  - change (slots_stake []) with 0. destruct (Z.leb_spec 0 n); [|lia]. simpl. f_equal. lia.
  - change (slots_stake (s :: l)) with (slot_stake s + slots_stake l).
    pose proof (slots_stake_nonneg l Hl). destruct s as [[k v]|]; cbn [slot_stake app pick_by_stake] in *.
    + destruct (Z.leb_spec v n).
      * rewrite IH by lia. replace (n - v - slots_stake l) with (n - (v + slots_stake l)) by lia.
        destruct (Z.leb_spec (slots_stake l) (n - v)), (Z.leb_spec (v + slots_stake l) n); done || lia.
      * destruct (Z.leb_spec (v + slots_stake l) n); [lia|done].
    + by rewrite IH.
Qed.

Lemma pick_by_stake_none l n : slots_ok l → 0 <= n → slots_stake l <= n → pick_by_stake l n = None.
Proof.
  intros Hl Hn Hle. rewrite <-(app_nil_r l), pick_by_stake_app by done.
  by destruct (Z.leb_spec (slots_stake l) n); [|lia].
Qed.

Lemma pick_by_stake_some l n :
  slots_ok l → 0 <= n < slots_stake l → ∃ k v, pick_by_stake l n = Some (k, v) ∧ Some (k, v) ∈ l ∧ 0 < v.
Proof.
  intros Hl. revert n. induction Hl as [|s l Hs Hl IH]; intros n Hn.
  { unfold slots_stake in Hn. simpl in Hn. lia. }
  change (slots_stake (s :: l)) with (slot_stake s + slots_stake l) in Hn.
  destruct s as [[k v]|]; cbn [slot_stake pick_by_stake] in *.
  - destruct (Z.leb_spec v n).
    + destruct (IH (n - v)) as (k' & v' & -> & ? & ?); [lia|]. exists k', v'. set_solver.
    + exists k, v. split_and!; [done|set_solver|lia].
  - destruct (IH n) as (k' & v' & -> & ? & ?); [lia|]. exists k', v'. set_solver.
Qed.

Lemma entries_ok h (t : node) : wf_node h t → slots_ok (entries h t).
Proof.
  unfold slots_ok. revert t. induction h as [|h IH]; intros [|comm cs n s|comm k v] Hwf; try done.
  - by apply Forall_replicate.
  - destruct Hwf as (_ & _ & Hv). unfold is_u256 in Hv. constructor; [simpl; lia|done].
  - by apply Forall_replicate.
  - destruct Hwf as (_ & Hcs & _). cbn [entries]. apply Forall_join, Forall_fmap.
    eapply Forall_impl; [done|]. intros c Hc. by apply IH.
  - by destruct Hwf.
Qed.

Lemma entries_u256 h (t : node) pos k v :
  wf_node h t → entries h t !! pos = Some (Some (k, v)) → is_u256 v.
Proof.
  intros Hwf Hp. pose proof (wf_totals _ _ Hwf) as (Ht & _ & Hu). rewrite Ht in Hu.
  pose proof (entries_ok _ _ Hwf) as Hok. unfold is_u256 in *.
  assert ((slot_stake <$> entries h t) !! pos = Some v) as Hs by by rewrite list_lookup_fmap, Hp.
  pose proof (sum_Z_lookup_le _ _ _ (proj2 (Forall_fmap _ _ _) Hok) Hs).
  unfold slots_stake in Hu. pose proof (Forall_lookup_1 _ _ _ _ Hok Hp). simpl in *. lia.
Qed.

Lemma key_by_stake_spec h (t : node) n :
  wf_node h t → 0 <= n → key_by_stake t n = Ok (pick_by_stake (entries h t) n).
Proof.
  revert t n. induction h as [|h IH]; intros t n Hwf Hn;
    pose proof (wf_totals _ _ Hwf) as (Htot & _ & _); pose proof (entries_ok _ _ Hwf) as Hok;
    destruct t as [|comm cs m s|comm k v]; cbn [key_by_stake].
  all: match goal with |- (if ?a <=? ?b then _ else _) = _ =>
         destruct (Z.leb_spec a b) as [Hle|Hlt] end;
    [by rewrite pick_by_stake_none by (done || lia)|].
  all: try by (simpl in *; exfalso; lia).
  all: try by (destruct Hwf).
  - simpl. simpl in Hlt. by destruct (Z.leb_spec v n); [lia|].
  - destruct Hwf as (_ & Hcs & _ & -> & _). cbn [entries]. simpl in Hlt. clear Htot Hok.
    revert n Hn Hlt. induction Hcs as [|c cs Hc Hcs IHcs]; intros n Hn Hlt; csimpl in *; [lia|].
    pose proof (wf_totals _ _ Hc) as (Hcst & _ & _).
    rewrite pick_by_stake_app by (done || by apply entries_ok). rewrite <-Hcst.
    destruct (Z.leb_spec (total_stakes c) n); [apply IHcs; lia|by apply IH].
Qed.

(** ** Merkle proofs: completeness *)

Lemma siblings_input (cs : list node) pos c :
  length cs = TREE_BRANCH → cs !! pos = Some c →
  length (siblings_of cs pos) = (TREE_BRANCH - 1)%nat ∧
  branch_input pos (commitment c) (siblings_of cs pos) = Ok (commitment <$> cs).
Proof.
  intros Hlen Hc. destruct cs as [|c0 [|c1 [|c2 [|]]]]; try done.
  destruct pos as [|[|[|]]]; simplify_eq/=; done.
Qed.

Lemma compute_root_snoc p e :
  compute_root {| mp_index := mp_index p; mp_path := mp_path p ++ [e] |} =
    match mp_path p with
    | [] => match e with PathLeaf k v => leaf_comm k v | _ => Err MalformedProof end
    | _ => fold_entry (compute_root p) e
    end.
Proof.
  unfold compute_root. simpl. destruct (mp_path p) as [|[|k v] l]; simpl.
  - destruct e; [done|]. by destruct (leaf_comm _ _).
  - done.
  - destruct (leaf_comm k v); mon; [by rewrite foldl_app|done|done].
Qed.

Lemma lookup_spec h (t : node) idx H :
  wf_node h t → (h ≤ H)%nat →
  match entries h t !! (idx mod 3 ^ h)%nat with
  | Some (Some (k, v)) =>
      ∃ path, lookup h t (to_merkle_path idx H) =
                Ok {| mp_index := (idx mod 3 ^ H)%nat; mp_path := PathLeaf k v :: path |} ∧
        length path = h ∧
        compute_root {| mp_index := (idx mod 3 ^ H)%nat; mp_path := PathLeaf k v :: path |} =
          Ok (commitment t)
  | _ => lookup h t (to_merkle_path idx H) = Err KeyNotFound
  end.
Proof.
  revert t. induction h as [|h IH]; intros [|comm cs n s|comm k v] Hwf Hle; try done.
  - rewrite leaf_lookup. exists []. cbn [lookup]. rewrite from_to_merkle_path.
    split_and!; [done|done|]. destruct Hwf as (_ & Hd & _). unfold compute_root. simpl. by rewrite Hd.
  - by rewrite empty_lookup.
  - destruct (branch_child _ _ _ _ _ idx Hwf) as (c & Hc & Hwfc).
    rewrite (entries_branch_lookup _ _ _ _ _ _ _ Hwf Hc). cbn [lookup].
    rewrite (index_path _ _ _ Hle); mon. rewrite (index_Some _ _ _ Hc); mon.
    specialize (IH c Hwfc ltac:(lia)).
    destruct (entries h c !! _) as [[[k v]|]|]; [|by rewrite IH..].
    destruct IH as (path & -> & Hlen & Hroot); mon.
    destruct Hwf as (Hl & _ & _ & _ & _ & Hd).
    destruct (siblings_input _ _ _ Hl Hc) as [Hsl Hin].
    rewrite decide_True by done; mon. eexists (path ++ [_]). split_and!; [done| |].
    + rewrite length_app, Hlen. simpl. lia.
    + pose proof (compute_root_snoc {| mp_index := idx mod 3 ^ H; mp_path := PathLeaf k v :: path |}
        (PathBranch ((idx / 3 ^ h) mod 3) (siblings_of cs ((idx / 3 ^ h) mod 3)))%nat) as Hs.
      cbn [mp_path mp_index app] in Hs. rewrite Hs, Hroot. unfold fold_entry; mon.
      rewrite Hin; mon. by rewrite Hd.
  - by destruct Hwf.
Qed.

(** ** The iterator *)

(** The longest prefix of occupied slots. *)
Fixpoint occupied_prefix (l : list slot) : list (K * Z) :=
  match l with
  | Some kv :: l => kv :: occupied_prefix l
  | _ => []
  end.

(** The slots still to visit, for a stack of nodes with their heights. *)
Definition stack_slots (st : list (nat * node)) : list slot :=
  mjoin ((fun '(h, t) => entries h t) <$> st).

Lemma entries_Empty_cons h : ∃ l, entries h (Empty (K:=K) (F:=F)) = None :: l.
Proof.
  destruct h as [|h]; [by exists []|]. simpl.
  destruct (3 ^ h)%nat as [|m] eqn:Hm; [|by eexists].
  exfalso. pose proof (Nat.pow_nonzero 3 h). lia.
Qed.

(** Pushing the children of a branch keeps the slots to visit. *)
Definition push_children (h : nat) (cs : list node) (st : list (nat * node)) :=
  ((fun c => (h, c)) <$> cs) ++ st.

Lemma push_children_nodes h cs st : (push_children h cs st).*2 = cs ++ st.*2.
Proof.
  unfold push_children. rewrite fmap_app, <-list_fmap_compose. f_equal.
  rewrite <-(list_fmap_id cs) at 2. by apply list_fmap_ext.
Qed.

Lemma push_children_slots h comm cs n s st :
  stack_slots (push_children h cs st) = stack_slots ((S h, Branch comm cs n s) :: st).
Proof.
  unfold stack_slots, push_children. rewrite fmap_app, <-list_fmap_compose. simpl.
  by rewrite join_app.
Qed.

Lemma next_fuel_spec fuel (st : list (nat * node)) :
  Forall (fun '(h, t) => wf_node h t) st →
  (sum_list_with node_count st.*2 < fuel)%nat →
  match stack_slots st with
  | Some kv :: l =>
      ∃ st', next_fuel fuel st.*2 = (Some kv, st'.*2) ∧ stack_slots st' = l ∧
        Forall (fun '(h, t) => wf_node h t) st' ∧
        (sum_list_with node_count st'.*2 < sum_list_with node_count st.*2)%nat
  | _ => ∃ it, next_fuel fuel st.*2 = (None, it)
  end.
Proof.
  revert st. induction fuel as [|fuel IH]; intros st Hst Hf; [lia|].
  destruct st as [|[h t] st]; [by eexists|]. apply Forall_cons in Hst as [Ht Hst].
  destruct t as [|comm cs n s|comm k v].
  - unfold stack_slots. csimpl. destruct (entries_Empty_cons h) as [l ->]. by eexists.
  - destruct h as [|h]; [done|]. destruct Ht as (_ & Hcs & _).
    specialize (IH (push_children h cs st)).
    rewrite push_children_nodes, (push_children_slots _ comm _ n s), sum_list_with_app in IH.
    csimpl in *. destruct (stack_slots _) as [|[kv|] l].
    + apply IH; [|lia]. apply Forall_app; split; [by apply Forall_fmap|done].
    + destruct IH as (st' & ? & ? & ? & ?); [|lia|].
      { apply Forall_app; split; [by apply Forall_fmap|done]. }
      exists st'. split_and!; [done..|lia].
    + apply IH; [|lia]. apply Forall_app; split; [by apply Forall_fmap|done].
  - destruct h as [|h]; [|by destruct Ht]. unfold stack_slots. csimpl. exists st. split_and!; [done..|lia].
Qed.

(** Collecting the iterator gives the occupied slots up to the first free one. *)
Lemma collect_spec h (t : node) :
  wf_node h t → collect (IntoIter_new t) = occupied_prefix (entries h t).
Proof.
  intros Hwf. unfold collect, IntoIter_new.
  cut (∀ fuel st, Forall (fun '(h, t) => wf_node h t) st →
    (sum_list_with node_count st.*2 < fuel)%nat →
    collect_fuel fuel st.*2 = occupied_prefix (stack_slots st)).
  { intros Hc. specialize (Hc (S (sum_list_with node_count [t])) [(h, t)]).
    unfold stack_slots in Hc. csimpl in Hc. rewrite app_nil_r in Hc.
    apply Hc; [by repeat constructor|lia]. }
  induction fuel as [|fuel IH]; intros st Hst Hf; [lia|]. cbn [collect_fuel]. unfold next.
  pose proof (next_fuel_spec (S (sum_list_with node_count st.*2)) st Hst ltac:(lia)) as Hn.
  destruct (stack_slots st) as [|[kv|] l].
  - by destruct Hn as [it ->].
  - destruct Hn as (st' & -> & <- & ? & ?). simpl. f_equal. apply IH; [done|lia].
  - by destruct Hn as [it ->].
Qed.

(** ** Merkle proofs: soundness

    For a hash without collisions on three field elements, whose digests are
    not the commitment of an empty subtree, a proof that verifies is a proof
    of the slot its branch positions name.  The stake is only fixed up to
    [u256_to_field], which reduces modulo the field's order. *)
Class RescueInjective : Prop := {
  digest_inj : ∀ l1 l2 d, length l1 = TREE_BRANCH → length l2 = TREE_BRANCH →
    digest (K:=K) (F:=F) l1 = Some d → digest (K:=K) l2 = Some d → l1 = l2;
  digest_nonzero : ∀ l, digest (K:=K) (F:=F) l ≠ Some (F_zero (K:=K));
  to_fields_inj : ∀ k1 k2 : K, to_fields (F:=F) k1 = to_fields k2 → k1 = k2;
}.

Definition entry_pos (e : MerklePathEntry K F) : nat :=
  match e with PathBranch pos _ => pos | PathLeaf _ _ => 0 end.

(** The index the branch positions of a proof name. *)
Definition proof_position (p : MerkleProof K F) : nat :=
  from_merkle_path (entry_pos <$> tail (mp_path p)).

Lemma leaf_comm_inj `{!RescueInjective} (k1 k2 : K) v1 v2 (d : F) :
  leaf_comm k1 v1 = Ok d → leaf_comm k2 v2 = Ok d →
  k1 = k2 ∧ u256_to_field (K:=K) (F:=F) v1 = u256_to_field (K:=K) v2.
Proof.
  pose proof (SIZE_le (K:=K) (F:=F)). pose proof (length_to_fields (F:=F) k1).
  pose proof (length_to_fields (F:=F) k2). unfold leaf_comm, copy_prefix. intros Hd1 Hd2.
  rewrite decide_True in Hd1 by (rewrite length_replicate; lia).
  rewrite decide_True in Hd2 by (rewrite length_replicate; lia).
  inv_ok Hd1. inv_ok Hd2. apply index_set_ok_inv in E as [Hl1 ->]. apply index_set_ok_inv in E0 as [Hl2 ->].
  unfold ok_or in Hd1, Hd2. inv_ok Hd1. inv_ok Hd2.
  assert (∀ k, length (to_fields k ++ drop (SIZE (K:=K) (F:=F)) (replicate 3 (F_zero (K:=K)))) = TREE_BRANCH)
    as Hlen.
  { intros k. rewrite length_app, length_drop, length_to_fields. simpl. unfold TREE_BRANCH. lia. }
  assert (<[2%nat:=u256_to_field v1]> (to_fields k1 ++ drop (SIZE (K:=K) (F:=F)) (replicate 3 (F_zero (K:=K))))
        = <[2%nat:=u256_to_field v2]> (to_fields k2 ++ drop (SIZE (K:=K) (F:=F)) (replicate 3 (F_zero (K:=K)))))
    as Heq.
  { eapply digest_inj; [rewrite length_insert; apply Hlen..| |]; done. }
  split.
  - apply to_fields_inj. apply (f_equal (take (SIZE (K:=K) (F:=F)))) in Heq.
    rewrite !take_insert_ge, !take_app_length' in Heq by lia. done.
  - apply (f_equal (.!! 2%nat)) in Heq.
    rewrite !list_lookup_insert_eq in Heq by (rewrite Hlen; unfold TREE_BRANCH; lia).
    by injection Heq.
Qed.

Lemma branch_input_inv (cs : list node) pos (r d : F) sibs input `{!RescueInjective} :
  length cs = TREE_BRANCH → digest (K:=K) (commitment <$> cs) = Some d →
  branch_input pos r sibs = Ok input → digest (K:=K) input = Some d →
  ∃ c, cs !! pos = Some c ∧ commitment c = r.
Proof.
  intros Hlen Hd Hin Hd'. unfold branch_input in Hin. case_decide as Hp; inv_ok Hin.
  destruct Hp as [Hpos Hsib]. unfold TREE_BRANCH in *.
  assert (take pos sibs ++ r :: drop pos sibs = commitment <$> cs) as Heq.
  { eapply digest_inj; [| |exact Hd'|exact Hd].
    - rewrite length_app. simpl. rewrite length_take, length_drop. unfold TREE_BRANCH. lia.
    - by rewrite length_fmap. }
  assert ((commitment <$> cs) !! pos = Some r) as Hl.
  { rewrite <-Heq, lookup_app_r, length_take; [|rewrite length_take; lia].
    replace (pos - pos `min` length sibs)%nat with 0%nat by lia. done. }
  rewrite list_lookup_fmap in Hl. destruct (cs !! pos) as [c|]; simplify_eq/=. by exists c.
Qed.

Lemma fold_sound `{!RescueInjective} h (t : node) init rest k v :
  wf_node h t → length rest = h → leaf_comm k v = Ok init →
  foldl fold_entry (Ok init) rest = Ok (commitment t) →
  ∃ v', entries h t !! from_merkle_path (entry_pos <$> rest) = Some (Some (k, v')) ∧
    u256_to_field (K:=K) (F:=F) v' = u256_to_field (K:=K) v.
Proof.
  revert t rest. induction h as [|h IH]; intros t rest Hwf Hlen Hinit Hroot.
  - apply length_zero_iff_nil in Hlen as ->. simpl in Hroot. inv_ok Hroot.
    destruct t as [|?|comm k' v']; simpl in *; [|done|].
    + exfalso. unfold leaf_comm in Hinit. inv_ok Hinit. unfold ok_or in Hinit. inv_ok Hinit.
      by eapply digest_nonzero.
    + destruct Hwf as (_ & Hc & _). destruct (leaf_comm_inj _ _ _ _ _ Hinit Hc) as [-> ?].
      by exists v'.
  - destruct rest as [|e rest _] using rev_ind; [done|].
    rewrite length_app in Hlen. simpl in Hlen. rewrite foldl_app in Hroot. cbn [foldl] in Hroot.
    unfold fold_entry at 1 in Hroot. inv_ok Hroot.
    unfold ok_or in Hroot. inv_ok Hroot.
    destruct t as [|comm cs n s|]; simpl in E1; [by apply digest_nonzero in E1| |by destruct Hwf].
    pose proof Hwf as (Hl & Hcs & _ & _ & _ & Hd).
    destruct (branch_input_inv cs pos a comm siblings a0) as (c & Hc & Hcr); [done..|].
    assert (wf_node h c) as Hwfc by by eapply Forall_lookup_1.
    destruct (IH c rest Hwfc ltac:(lia) Hinit ltac:(by rewrite Hcr)) as (v' & Hv' & ?).
    exists v'. split; [|done]. rewrite fmap_app. cbn [fmap list_fmap entry_pos].
    rewrite from_merkle_path_snoc, length_fmap. replace (length rest) with h by lia.
    cbn [entries]. rewrite (join_lookup _ (3 ^ h)), list_lookup_fmap, Hc; [done|by apply entries_chunks|].
    rewrite <-(length_entries h c) by done. by eapply lookup_lt_Some.
Qed.

Lemma verify_sound `{!RescueInjective} h (t : node) (p : MerkleProof K F) comm k v :
  wf_node h t → mc_comm comm = commitment t → mc_height comm = h →
  proof_key_value p = Some (k, v) → verify p comm = Ok () →
  Z.of_nat (length (mp_path p)) <= u64_modulus →
  ∃ v', entries h t !! proof_position p = Some (Some (k, v')) ∧
    u256_to_field (K:=K) (F:=F) v' = u256_to_field (K:=K) v.
Proof.
  intros Hwf Hcomm Hh Hkv Hv Hlen. destruct p as [ix path]; simpl in *.
  unfold proof_key_value in Hkv. destruct path as [|[|k' v''] rest]; simplify_eq/=.
  unfold verify in Hv. case_bool_decide as Hht; [done|].
  inv_ok Hv. case_bool_decide; [subst a|done]. unfold compute_root in E. simpl in E. inv_ok E.
  unfold proof_position. simpl. eapply fold_sound; [done| |done|by rewrite E, Hcomm].
  unfold tree_height, u64_sub in Hht. simpl mp_path in Hht. cbn [length] in Hht, Hlen.
  rewrite Z.mod_small in Hht; unfold u64_modulus in *; lia.
Qed.
End Proofs.
