(* ===== verification/StakeTableMtTable.v ===== *)
(** * The Merkle-tree stake table refines a map

    The invariant of [mt_based.rs]'s [StakeTable], the map each snapshot
    stands for, and the instance of [StakeTableLaws].  Its theorems are the
    properties of the component. *)

From S2P Require Import Prelude StakeTableScheme StakeTableMt StakeTableMtProofs.

Section Slots.
Context {K : Type} `{!EqDecision K, !Countable K}.
#[local] Abbreviation slot := (option (K * Z)).

(** Every key is in one slot at most. *)
Definition slots_unique (l : list slot) : Prop :=
  ∀ i j k v w, l !! i = Some (Some (k, v)) → l !! j = Some (Some (k, w)) → i = j.

(** The map a list of slots stands for. *)
Definition slots_map (l : list slot) : gmap K Z := list_to_map (omap id l).

Lemma elem_of_omap_id (l : list slot) kv : kv ∈ omap id l ↔ Some kv ∈ l.
Proof. rewrite list_elem_of_omap. unfold id. naive_solver. Qed.

Lemma slots_unique_NoDup l : slots_unique l → NoDup (omap id l).*1.
Proof.
  induction l as [|[[k v]|] l IH]; intros Hu; csimpl; [constructor| |].
  - constructor.
    + rewrite list_elem_of_fmap. intros [[k' w] [-> Hin]]. apply elem_of_omap_id in Hin.
      apply list_elem_of_lookup in Hin as [j Hj]. simpl in *.
      by specialize (Hu 0%nat (S j) k' v w eq_refl Hj).
    + apply IH. intros i j k' w w' Hi Hj. by specialize (Hu (S i) (S j) k' w w' Hi Hj) as [= ->].
  - apply IH. intros i j k' w w' Hi Hj. by specialize (Hu (S i) (S j) k' w w' Hi Hj) as [= ->].
Qed.

Lemma slots_map_lookup l k v :
  slots_unique l → slots_map l !! k = Some v ↔ ∃ pos, l !! pos = Some (Some (k, v)).
Proof.
  intros Hu. unfold slots_map. rewrite <-elem_of_list_to_map by by apply slots_unique_NoDup.
  by rewrite elem_of_omap_id, list_elem_of_lookup.
Qed.

Lemma slots_map_none l k :
  slots_unique l → slots_map l !! k = None ↔ ∀ pos v, l !! pos ≠ Some (Some (k, v)).
Proof.
  intros Hu. rewrite eq_None_not_Some. split.
  - intros Hn pos v Hp. apply Hn. exists v. apply slots_map_lookup; eauto.
  - intros Hn [v Hv]. apply slots_map_lookup in Hv as [pos Hp]; [|done]. by eapply Hn.
Qed.

(** When the occupied slots are a prefix, the iterator's prefix is all of them. *)
Lemma occupied_prefix_all (l : list slot) n :
  (∀ pos, (pos < n)%nat ↔ ∃ kv, l !! pos = Some (Some kv)) → occupied_prefix l = omap id l.
Proof.
  revert n. induction l as [|[kv|] l IH]; intros n Hocc; csimpl; [done| |].
  - f_equal. apply (IH (pred n)). intros pos. specialize (Hocc (S pos)). simpl in Hocc.
    rewrite <-Hocc. lia.
  - assert (n = 0%nat) as ->.
    { destruct n; [done|]. destruct (proj1 (Hocc 0%nat)) as [? ?]; [lia|done]. }
    symmetry. apply nil_length_inv, length_zero_iff_nil. destruct (omap id l) as [|kv l'] eqn:Ho; [done|].
    exfalso. assert (kv ∈ omap id l) as Hin by (rewrite Ho; set_solver).
    apply elem_of_omap_id, list_elem_of_lookup in Hin as [i Hi].
    assert (S i < 0)%nat; [apply Hocc; eauto|lia].
Qed.

(** Writing the slot of [k], or a free slot when [k] has none, is inserting [k]. *)
Lemma slots_map_insert l pos k v :
  slots_unique l → (pos < length l)%nat →
  (∀ kv, l !! pos = Some (Some kv) → kv.1 = k) →
  (∀ i w, l !! i = Some (Some (k, w)) → i = pos) →
  slots_unique (<[pos := Some (k, v)]> l) ∧
  slots_map (<[pos := Some (k, v)]> l) = <[k := v]> (slots_map l).
Proof.
  intros Hu Hlt Hpos Hk.
  assert (slots_unique (<[pos := Some (k, v)]> l)) as Hu'.
  { intros i j k' w w'. rewrite !list_lookup_insert.
    repeat case_decide; destruct_and?; simplify_eq/=; intros ??; simplify_eq; eauto; symmetry; eauto. }
  split; [done|]. apply map_eq. intros k'. apply option_eq. intros w.
  rewrite slots_map_lookup by done. setoid_rewrite list_lookup_insert. split.
  - intros [i Hi]. case_decide as Hd; simplify_eq.
    + by rewrite lookup_insert_eq.
    + rewrite lookup_insert_ne; [apply slots_map_lookup; eauto|]. intros <-.
      apply Hd. split; [symmetry; eauto|done].
  - destruct (decide (k = k')) as [<-|Hne].
    + rewrite lookup_insert_eq. intros [= ->]. exists pos. by rewrite decide_True by done.
    + rewrite lookup_insert_ne by done. intros Hw.
      apply slots_map_lookup in Hw as [i Hi]; [|done]. exists i.
      rewrite decide_False; [done|]. intros [-> _]. apply Hpos in Hi. done.
Qed.

Lemma slots_map_total l : slots_unique l → map_total (slots_map l) = slots_stake l.
Proof.
  intros Hu. unfold map_total, slots_map.
  rewrite map_to_list_to_map by by apply slots_unique_NoDup.
  unfold slots_stake. clear Hu. induction l as [|[[k v]|] l IH]; csimpl in *; [done|lia|lia].
Qed.
End Slots.

Section Table.
Context {K F : Type} `{!EqDecision K, !Countable K, !EqDecision F, !RescueCtx K F, !RescueLaws K F}.

#[local] Abbreviation node := (PersistentMerkleNode K F).
#[local] Abbreviation table := (StakeTable K F).

(** A snapshot: well-formed, its occupied slots are a prefix, and each key is
    in the slot the mapping says. *)
Definition root_inv (st : table) (r : node) (n : nat) : Prop :=
  wf_node (height st) r ∧ (n ≤ 3 ^ height st)%nat ∧
  (∀ pos, (pos < n)%nat ↔ ∃ kv, entries (height st) r !! pos = Some (Some kv)) ∧
  (∀ pos k v, entries (height st) r !! pos = Some (Some (k, v)) → mapping st !! k = Some pos).

Definition st_inv (st : table) : Prop :=
  root_inv st (head st) (size (mapping st)) ∧
  (∃ n, root_inv st (epoch_start st) n) ∧ (∃ n, root_inv st (last_epoch_start st) n) ∧
  (∀ k pos, mapping st !! k = Some pos → (pos < size (mapping st))%nat ∧
    ∃ v, entries (height st) (head st) !! pos = Some (Some (k, v))).

Definition abs_root (st : table) (r : node) : gmap K Z := slots_map (entries (height st) r).

Definition st_abs (st : table) : AbsTable K :=
  {| abs_head := abs_root st (head st);
     abs_epoch_start := abs_root st (epoch_start st);
     abs_last_epoch_start := abs_root st (last_epoch_start st) |}.

Lemma root_unique st r n : root_inv st r n → slots_unique (entries (height st) r).
Proof. intros (_ & _ & _ & Hm) i j k v w Hi Hj. apply Hm in Hi, Hj. congruence. Qed.

Lemma mapping_inj st k1 k2 pos :
  st_inv st → mapping st !! k1 = Some pos → mapping st !! k2 = Some pos → k1 = k2.
Proof.
  intros (_ & _ & _ & Hm) H1 H2. apply Hm in H1 as (_ & v1 & H1), H2 as (_ & v2 & H2). congruence.
Qed.

Lemma mapping_bound st k pos :
  st_inv st → mapping st !! k = Some pos → (pos < 3 ^ height st)%nat.
Proof. intros ((_ & Hle & _) & _ & _ & Hm) Hk. apply Hm in Hk as [? _]. lia. Qed.

(** Reading the slot of [k] in a snapshot is reading its map at [k]. *)
Lemma root_slot st r n k pos :
  st_inv st → root_inv st r n → mapping st !! k = Some pos →
  match entries (height st) r !! pos with
  | Some (Some (k', v)) => k' = k ∧ abs_root st r !! k = Some v
  | _ => abs_root st r !! k = None
  end.
Proof.
  intros Hst Hr Hk. pose proof (root_unique _ _ _ Hr) as Hu. destruct Hr as (Hwf & _ & _ & Hm).
  assert ((∀ v, entries (height st) r !! pos ≠ Some (Some (k, v))) → abs_root st r !! k = None) as Hn.
  { intros Hne. apply slots_map_none; [done|]. intros pos' v Hp. pose proof (Hm _ _ _ Hp).
    simplify_eq. by apply (Hne v). }
  destruct (entries (height st) r !! pos) as [[[k' v]|]|] eqn:Hs; [|by apply Hn..].
  assert (k' = k) as ->. { eapply mapping_inj; [done| |done]. by eapply Hm. }
  split; [done|]. apply slots_map_lookup; eauto.
Qed.

Lemma abs_root_unmapped st r n k :
  root_inv st r n → mapping st !! k = None → abs_root st r !! k = None.
Proof.
  intros Hr Hk. apply slots_map_none; [by eapply root_unique|].
  intros pos v Hp. destruct Hr as (_ & _ & _ & Hm). apply Hm in Hp. congruence.
Qed.

Lemma abs_head_mapped st k :
  st_inv st → is_Some (abs_head (st_abs st) !! k) ↔ is_Some (mapping st !! k).
Proof.
  intros Hst. pose proof Hst as (Hh & _ & _ & Hm). simpl. split.
  - intros [v Hv]. destruct (mapping st !! k) eqn:Hk; [eauto|].
    rewrite (abs_root_unmapped _ _ _ _ Hh Hk) in Hv. done.
  - intros [pos Hk]. destruct (Hm _ _ Hk) as (_ & v & Hv).
    pose proof (root_slot _ _ _ _ _ Hst Hh Hk) as Hs. rewrite Hv in Hs. destruct Hs as [_ ->]. eauto.
Qed.

Lemma root_version st ver r :
  st_inv st → root st ver = Ok r →
  ∃ n, root_inv st r n ∧ abs_version (st_abs st) ver = Some (abs_root st r).
Proof.
  intros (Hh & (n1 & He) & (n2 & Hl) & _) Hr. destruct ver; simpl in Hr; simplify_eq; eauto.
Qed.

(** The slot an operation on [k] writes: its own, or the next free one. *)
Definition slot_of (st : table) (k : K) : nat := default (size (mapping st)) (mapping st !! k).

Definition write_slot (st : table) (k : K) (t' : node) : table :=
  with_mapping (with_head st t') (<[k := slot_of st k]> (mapping st)).

Lemma slot_of_other st k k' p :
  st_inv st → mapping st !! k' = Some p → k' ≠ k → p ≠ slot_of st k.
Proof.
  intros Hst Hk' Hne ->. unfold slot_of in Hk'. destruct (mapping st !! k) as [q|] eqn:Hk; simpl in Hk'.
  - by apply Hne, (mapping_inj st k' k q).
  - destruct Hst as (_ & _ & _ & Hm). apply Hm in Hk' as [? _]. lia.
Qed.

Lemma slot_of_lt st k : (slot_of st k < size (<[k := slot_of st k]> (mapping st)))%nat ∨ ¬ st_inv st.
Proof.
  unfold slot_of. destruct (mapping st !! k) as [q|] eqn:Hk; simpl.
  - destruct (decide (q < size (mapping st))%nat).
    + left. by rewrite map_size_insert_Some by (by rewrite Hk).
    + right. intros (_ & _ & _ & Hm). apply Hm in Hk as [? _]. lia.
  - left. rewrite map_size_insert_None by done. lia.
Qed.

Lemma write_slot_root st k (t' : node) r n :
  st_inv st → root_inv st r n → root_inv (write_slot st k t') r n.
Proof.
  intros Hst (Hwf & Hle & Hocc & Hm). split_and!; [done..|].
  intros pos k' v Hp. apply Hm in Hp as Hk'. cbn [write_slot with_mapping mapping].
  destruct (decide (k = k')) as [<-|]; [|by rewrite lookup_insert_ne].
  rewrite lookup_insert_eq. unfold slot_of. by rewrite Hk'.
Qed.

Lemma write_slot_inv st k v (t' : node) :
  st_inv st → wf_node (height st) t' → (slot_of st k < 3 ^ height st)%nat →
  entries (height st) t' = <[slot_of st k := Some (k, v)]> (entries (height st) (head st)) →
  st_inv (write_slot st k t') ∧
  st_abs (write_slot st k t') = abs_set_head (st_abs st) (<[k := v]> (abs_head (st_abs st))).
Proof.
  intros Hst Hwf Hpos He. pose proof Hst as (Hh & (n1 & Hes) & (n2 & Hls) & Hm).
  pose proof (root_unique _ _ _ Hh) as Hu. pose proof Hh as (Hwfh & Hle & Hocc & Hkey).
  assert (length (entries (height st) (head st)) = 3 ^ height st)%nat as Hlen by by apply length_entries.
  destruct (slot_of_lt st k) as [Hlt|]; [|done].
  set (m' := <[k := slot_of st k]> (mapping st)) in *.
  assert (∀ p, (p < size m')%nat ↔ p = slot_of st k ∨ (p < size (mapping st))%nat) as Hsz.
  { intros p. subst m'. unfold slot_of in *. destruct (mapping st !! k) as [q|] eqn:Hk; simpl in *.
    - rewrite map_size_insert_Some in * by (by rewrite Hk). lia.
    - rewrite map_size_insert_None by done. lia. }
  split; [split_and!|].
  - split_and!; [done| | |]; cbn [write_slot with_mapping with_head head mapping height].
    + fold m'. destruct (size m') as [|q] eqn:Hq; [lia|].
      assert (q < 3 ^ height st)%nat; [|lia]. destruct (proj1 (Hsz q)); lia.
    + intros p. fold m'. rewrite Hsz, He, list_lookup_insert, Hocc. case_decide as Hd.
      * destruct Hd as [-> _]. split; [eauto|auto].
      * split; [intros [->|?]; [destruct Hd; rewrite Hlen; done|done]|auto].
    + intros p k' w. rewrite He, list_lookup_insert. case_decide as Hd.
      * intros [= <- <-]. rewrite lookup_insert_eq. f_equal. tauto.
      * intros Hp. apply Hkey in Hp as Hk'. destruct (decide (k = k')) as [<-|];
          [|by rewrite lookup_insert_ne].
        rewrite lookup_insert_eq. unfold slot_of. by rewrite Hk'.
  - exists n1. by apply write_slot_root.
  - exists n2. by apply write_slot_root.
  - cbn [write_slot with_mapping with_head head mapping height]. fold m'. intros k' p Hk'.
    rewrite He. destruct (decide (k = k')) as [<-|Hne].
    + subst m'. rewrite lookup_insert_eq in Hk'. injection Hk' as <-. split; [done|].
      exists v. apply list_lookup_insert_eq. lia.
    + subst m'. rewrite lookup_insert_ne in Hk' by done. destruct (Hm _ _ Hk') as [? [w Hw]].
      split; [apply Hsz; auto|]. exists w. rewrite list_lookup_insert_ne; [done|].
      intros Heq. by eapply (slot_of_other st k k' p).
  - unfold st_abs, abs_set_head, abs_root.
    cbn [write_slot with_mapping with_head head height epoch_start last_epoch_start abs_head
         abs_epoch_start abs_last_epoch_start]. f_equal. rewrite He.
    apply slots_map_insert; [done|lia| |].
    + intros [k' w] Hs. apply Hkey in Hs. simpl. destruct (decide (k' = k)); [done|].
      by destruct (slot_of_other st k k' (slot_of st k)).
    + intros i w Hi. apply Hkey in Hi. unfold slot_of. by rewrite Hi.
Qed.

Lemma write_slot_mapped st k pos (t' : node) :
  mapping st !! k = Some pos → write_slot st k t' = with_head st t'.
Proof.
  intros Hk. unfold write_slot, slot_of. rewrite Hk. simpl. rewrite insert_id by done. by destruct st.
Qed.

(** ** The operations *)

Lemma st_new_inv h : st_inv (StakeTable_new (K:=K) (F:=F) h) ∧ st_abs (StakeTable_new (K:=K) (F:=F) h) = abs_empty.
Proof.
  assert (root_inv (StakeTable_new (K:=K) (F:=F) h) Empty 0) as Hr.
  { split_and!; cbn [StakeTable_new height mapping]; [apply wf_Empty|lia| |].
    - intros pos. split; [lia|]. intros [kv Hkv]. destruct h; simpl in Hkv.
      + apply list_elem_of_lookup_2 in Hkv. set_solver.
      + apply lookup_replicate in Hkv as [? _]. done.
    - intros pos k v Hkv. exfalso. destruct h; simpl in Hkv.
      + apply list_elem_of_lookup_2 in Hkv. set_solver.
      + apply lookup_replicate in Hkv as [? _]. done. }
  assert (abs_root (StakeTable_new (K:=K) (F:=F) h) Empty = ∅) as Ha.
  { apply map_empty. intros k. apply slots_map_none; [by eapply root_unique|]. intros pos v Hp.
    destruct Hr as (_ & _ & Hocc & _). assert (pos < 0)%nat; [apply Hocc; eauto|lia]. }
  split; [split_and!; [done|by exists 0%nat..|done]|].
  unfold st_abs, abs_empty. cbn [StakeTable_new head epoch_start last_epoch_start]. by rewrite Ha.
Qed.

Lemma st_register_spec st k v :
  st_inv st → is_u256 v →
  match st_register st k v with
  | Ok st' => abs_head (st_abs st) !! k = None ∧ st_inv st' ∧
      st_abs st' = abs_set_head (st_abs st) (<[k := v]> (abs_head (st_abs st)))
  | Err e => e = ExistingKey ∧
      (is_Some (abs_head (st_abs st) !! k) ∨ size (mapping st) = (3 ^ height st)%nat)
  | Panic => abs_head (st_abs st) !! k = None ∧
      u256_modulus <= map_total (abs_head (st_abs st)) + v
  end.
Proof.
  intros Hst Hv. unfold st_register. pose proof (abs_head_mapped st k Hst) as Hmap.
  pose proof Hst as (Hh & _ & _ & _). pose proof Hh as (Hwf & Hle & Hocc & _).
  destruct (mapping st !! k) as [pos|] eqn:Hk.
  { split; [done|]. left. apply Hmap. eauto. }
  assert (abs_head (st_abs st) !! k = None) as Hnone.
  { apply eq_None_not_Some. rewrite Hmap. by intros [? ?]. }
  pose proof (register_spec (height st) (head st) (size (mapping st)) (height st) k v Hwf (le_n _) Hv) as Hr.
  destruct (decide (size (mapping st) = 3 ^ height st)%nat) as [Hfull|Hnfull].
  - rewrite Hfull in *. rewrite Nat.Div0.mod_same in Hr.
    assert (∃ kv, entries (height st) (head st) !! 0%nat = Some (Some kv)) as [kv Hkv].
    { apply Hocc. pose proof (Nat.pow_nonzero 3 (height st)). lia. }
    rewrite Hkv in Hr. destruct (register _ _ _ _ _) as [t'|e|]; mon.
    + destruct Hr as [? _]. done.
    + destruct Hr as [-> _]. auto.
    + destruct Hr as [? _]. done.
  - rewrite Nat.mod_small in Hr by lia. destruct (register _ _ _ _ _) as [t'|e|]; mon.
    + destruct Hr as (Hs & Hwf' & He). split; [done|].
      assert (slot_of st k = size (mapping st)) as Hslot by (unfold slot_of; by rewrite Hk).
      rewrite <-Hslot. apply write_slot_inv; [done|done|rewrite Hslot; lia|by rewrite Hslot].
    + destruct Hr as (_ & kv & Hkv). assert (size (mapping st) < size (mapping st))%nat; [|lia].
      apply Hocc. eauto.
    + destruct Hr as [_ Ho]. split; [done|]. cbn [st_abs abs_head]. unfold abs_root.
      rewrite slots_map_total by by eapply root_unique. done.
Qed.

Lemma st_modify_spec st k f :
  st_inv st →
  (∀ old v r, is_u256 old → f old = Ok (v, r) → is_u256 v) →
  match abs_head (st_abs st) !! k with
  | None => mapping st !! k = None
  | Some old =>
      ∃ pos, mapping st !! k = Some pos ∧
      match f old with
      | Ok (v, r) =>
          match modify (height st) (head st) (to_merkle_path pos (height st)) k f with
          | Ok (t', r') => r' = r ∧ st_inv (with_head st t') ∧
              st_abs (with_head st t') = abs_set_head (st_abs st) (<[k := v]> (abs_head (st_abs st)))
          | Err _ => False
          | Panic => u256_modulus <= map_total (abs_head (st_abs st)) - old + v
          end
      | Err e => modify (height st) (head st) (to_merkle_path pos (height st)) k f = Err e
      | Panic => modify (height st) (head st) (to_merkle_path pos (height st)) k f = Panic
      end
  end.
Proof.
  intros Hst Hf. pose proof (abs_head_mapped st k Hst) as Hmap.
  pose proof Hst as (Hh & _ & _ & _). pose proof Hh as (Hwf & _).
  destruct (abs_head (st_abs st) !! k) as [old|] eqn:Hold.
  2:{ apply eq_None_not_Some. rewrite <-Hmap. by intros [? ?]. }
  destruct Hmap as [[pos Hk] _]; [eauto|]. exists pos. split; [done|].
  pose proof (mapping_bound _ _ _ Hst Hk) as Hb.
  pose proof (modify_spec (height st) (head st) pos (height st) k f Hwf (le_n _) Hf) as Hm.
  rewrite Nat.mod_small in Hm by done. pose proof (root_slot _ _ _ _ _ Hst Hh Hk) as Hs.
  cbn [st_abs abs_head] in Hold.
  destruct (entries (height st) (head st) !! pos) as [[[k' w]|]|]; [|congruence..].
  destruct Hs as [-> Hw]. assert (w = old) as -> by congruence. rewrite decide_True in Hm by done.
  destruct (f old) as [[v r]| |]; [|done..].
  destruct (modify _ _ _ _ _) as [[t' r']| |]; [|done|].
  - destruct Hm as (-> & Hwf' & He). split; [done|].
    rewrite <-(write_slot_mapped st k pos) by done.
    assert (slot_of st k = pos) as Hslot by (unfold slot_of; by rewrite Hk).
    apply write_slot_inv; rewrite ?Hslot; done.
  - cbn [st_abs abs_head]. unfold abs_root. rewrite slots_map_total by by eapply root_unique. done.
Qed.

Lemma update_insufficient st k delta old :
  st_inv st → abs_head (st_abs st) !! k = Some old → old < delta →
  st_update st k delta true = Err InsufficientFund.
Proof.
  intros Hst Hold Hlt. unfold st_update.
  assert (is_Some (mapping st !! k)) as [pos Hk] by (apply abs_head_mapped; eauto).
  rewrite Hk, update_modify. destruct Hst as [Hh Hrest].
  pose proof (conj Hh Hrest : st_inv st) as Hst.
  pose proof (root_slot _ _ _ _ _ Hst Hh Hk) as Hs. pose proof (mapping_bound _ _ _ Hst Hk).
  destruct Hh as (Hwf & _). cbn [st_abs abs_head] in Hold.
  match goal with |- context [modify _ _ _ _ ?f] =>
    pose proof (modify_spec (height st) (head st) pos (height st) k f Hwf (le_n _)) as Hm end.
  rewrite Nat.mod_small in Hm by done.
  destruct (entries (height st) (head st) !! pos) as [[[k' w]|]|] eqn:Hslot; [|congruence..].
  destruct Hs as [-> Hw]. assert (w = old) as -> by congruence. rewrite decide_True in Hm by done.
  pose proof (entries_u256 _ _ _ _ _ Hwf Hslot) as Hou.
  unfold u256_checked_sub in Hm. rewrite (decide_False (P := delta <= old)) in Hm by lia.
  simpl in Hm. unfold u256_checked_sub. rewrite Hm; [done|].
  intros o v r Ho Hf. unfold is_u256 in *. case_decide; simpl in Hf; [|done]. inv_ok Hf. lia.
Qed.

Lemma st_update_spec st k delta negative :
  st_inv st → is_u256 delta →
  match abs_head (st_abs st) !! k with
  | None => st_update st k delta negative = Err KeyNotFound
  | Some old =>
      let v := new_stake old delta negative in
      if decide (v < 0) then st_update st k delta negative = Err InsufficientFund
      else if decide (u256_modulus <= v) then st_update st k delta negative = Err StakeOverflow
      else match st_update st k delta negative with
      | Ok (st', v') => v' = v ∧ st_inv st' ∧
          st_abs st' = abs_set_head (st_abs st) (<[k := v]> (abs_head (st_abs st)))
      | Err _ => False
      | Panic => u256_modulus <= map_total (abs_head (st_abs st)) - old + v
      end
  end.
Proof.
  intros Hst Hd. unfold st_update.
  pose proof (st_modify_spec st k (fun old =>
    v ← (if negative then ok_or (u256_checked_sub old delta) InsufficientFund
         else ok_or (u256_checked_add old delta) StakeOverflow); Ok (v, v)) Hst) as Hm.
  assert (∀ old, abs_head (st_abs st) !! k = Some old → is_u256 old) as Hu.
  { intros old Hold. cbn [st_abs abs_head] in Hold. destruct Hst as ((Hwf & Hr) & _).
    apply slots_map_lookup in Hold as [pos Hp]; [|by eapply root_unique].
    by eapply entries_u256. }
  unfold is_u256 in *. destruct (abs_head (st_abs st) !! k) as [old|] eqn:Hold.
  2:{ rewrite Hm; [done|]. intros old v r ? Hf. unfold u256_checked_sub, u256_checked_add in Hf.
      destruct negative; case_decide; simpl in Hf; inv_ok Hf; lia. }
  destruct Hm as (pos & Hk & Hm).
  { intros old' v r ? Hf. unfold u256_checked_sub, u256_checked_add in Hf.
    destruct negative; case_decide; simpl in Hf; inv_ok Hf; lia. }
  cbv zeta. rewrite Hk, !update_modify. specialize (Hu old eq_refl).
  unfold new_stake, u256_checked_sub, u256_checked_add in *.
  destruct negative; repeat case_decide; simpl in Hm; try lia; try (by rewrite Hm);
    destruct (modify _ _ _ _ _) as [[t' r']| |]; mon; naive_solver.
Qed.

Lemma st_set_value_spec st k v :
  st_inv st → is_u256 v →
  match abs_head (st_abs st) !! k with
  | None => st_set_value st k v = Err KeyNotFound
  | Some old =>
      match st_set_value st k v with
      | Ok (st', old') => old' = old ∧ st_inv st' ∧
          st_abs st' = abs_set_head (st_abs st) (<[k := v]> (abs_head (st_abs st)))
      | Err _ => False
      | Panic => u256_modulus <= map_total (abs_head (st_abs st)) - old + v
      end
  end.
Proof.
  intros Hst Hv. unfold st_set_value.
  pose proof (st_modify_spec st k (fun old => Ok (v, old)) Hst ltac:(naive_solver)) as Hm.
  destruct (abs_head (st_abs st) !! k) as [old|]; [|by rewrite Hm].
  destruct Hm as (pos & -> & Hm). destruct Hst as ((Hwf & _) & _). rewrite set_value_modify by done.
  destruct (modify _ _ _ _ _) as [[t' r']| |]; mon; [naive_solver|done|done].
Qed.

Lemma advance_spec st : st_inv st → st_inv (advance st) ∧ st_abs (advance st) = abs_advance (st_abs st).
Proof.
  intros (Hh & (n1 & He) & (n2 & Hl) & Hm). split; [|done].
  split_and!; [done|by exists (size (mapping st))|by exists n1|done].
Qed.

Lemma st_lookup_spec st ver k :
  st_inv st →
  st_lookup st ver k =
    match abs_version (st_abs st) ver with
    | None => Err SnapshotUnsupported
    | Some m => ok_or (m !! k) KeyNotFound
    end.
Proof.
  intros Hst. unfold st_lookup. destruct (root st ver) as [r|e|] eqn:Hr; mon.
  - destruct (root_version _ _ _ Hst Hr) as (n & Hri & ->).
    destruct (mapping st !! k) as [pos|] eqn:Hk.
    + pose proof (mapping_bound _ _ _ Hst Hk). pose proof (root_slot _ _ _ _ _ Hst Hri Hk) as Hs.
      destruct Hri as (Hwf & _). rewrite simple_lookup_spec by done. rewrite Nat.mod_small by done.
      destruct (entries (height st) r !! pos) as [[[k' v]|]|]; [|by rewrite Hs..].
      by destruct Hs as [_ ->].
    + by rewrite (abs_root_unmapped _ _ _ _ Hri Hk).
  - destruct ver; simpl in *; by simplify_eq.
  - by destruct ver.
Qed.

Lemma total_stake_spec st ver :
  st_inv st →
  total_stake st ver = ok_or (map_total <$> abs_version (st_abs st) ver) SnapshotUnsupported.
Proof.
  intros Hst. unfold total_stake. destruct (root st ver) as [r|e|] eqn:Hr; mon.
  - destruct (root_version _ _ _ Hst Hr) as (n & Hri & ->). simpl. f_equal. unfold abs_root.
    rewrite slots_map_total by by eapply root_unique. destruct Hri as (Hwf & _).
    by apply wf_totals in Hwf as (-> & _).
  - destruct ver; simpl in *; by simplify_eq.
  - by destruct ver.
Qed.

#[global] Instance mt_scheme : StakeTableScheme table K unit := {|
  sc_register := fun st k v _ => st_register st k v;
  sc_update := st_update;
  sc_set_value := st_set_value;
  sc_advance := fun st => Ok (advance st);
  sc_lookup := st_lookup;
  sc_total_stake := total_stake;
|}.

#[global] Instance mt_laws : StakeTableLaws table.
Proof.
  refine {| sc_inv := st_inv; sc_abs := st_abs |}; cbn [sc_register sc_update sc_set_value sc_advance
    sc_lookup sc_total_stake mt_scheme].
  - intros t k v _ t' Hi Hv Hr. pose proof (st_register_spec t k v Hi Hv) as H. by rewrite Hr in H.
  - intros t k v _ Hi Hk. apply abs_head_mapped in Hk as [p Hp]; [|done]. unfold st_register. by rewrite Hp.
  - intros t k d neg t' v Hi Hd Hu. pose proof (st_update_spec t k d neg Hi Hd) as H.
    destruct (abs_head (st_abs t) !! k) as [old|]; [|congruence]. exists old. cbv zeta in H.
    repeat case_decide; [congruence..|]. rewrite Hu in H. destruct H as (-> & ? & ?).
    split_and!; [done|done|split; lia|done|done].
  - intros t k d neg Hi Hk. unfold st_update.
    destruct (mapping t !! k) eqn:Hm; [|done].
    assert (is_Some (abs_head (st_abs t) !! k)) as [? ?]; [|congruence]. apply abs_head_mapped; eauto.
  - intros t k d old Hi Hk Hlt. apply update_insufficient with old; done.
  - intros t k v t' old Hi Hv Hs. pose proof (st_set_value_spec t k v Hi Hv) as H.
    destruct (abs_head (st_abs t) !! k) as [old'|]; [|congruence]. rewrite Hs in H. naive_solver.
  - intros t k v Hi Hk. unfold st_set_value.
    destruct (mapping t !! k) eqn:Hm; [|done].
    assert (is_Some (abs_head (st_abs t) !! k)) as [? ?]; [|congruence]. apply abs_head_mapped; eauto.
  - intros t t' Hi [= <-]. by apply advance_spec.
  - intros. by apply st_lookup_spec.
  - intros. by apply total_stake_spec.
Defined.
(** ** The table is the map, exactly *)

Definition mt_limits (h : nat) : Limits :=
  {| lim_slots := Some (3 ^ h)%nat; lim_overflow_reported := true; lim_snapshot := None |}.

Lemma head_total st : st_inv st → map_total (abs_head (st_abs st)) < u256_modulus.
Proof.
  intros ((Hwf & Hr) & _). cbn [st_abs abs_head]. unfold abs_root.
  rewrite slots_map_total by by eapply root_unique. by destruct (wf_totals _ _ Hwf) as (<- & _ & _ & ?).
Qed.

Lemma mapping_size st : st_inv st → size (mapping st) = size (abs_head (st_abs st)).
Proof.
  intros Hst. rewrite <-!size_dom. f_equal. apply set_eq. intros k. rewrite !elem_of_dom. by rewrite <-abs_head_mapped.
Qed.

Lemma head_u256 st k old : st_inv st → abs_head (st_abs st) !! k = Some old → is_u256 old.
Proof.
  intros ((Hwf & Hr) & _) Hold. cbn [st_abs abs_head] in Hold.
  apply slots_map_lookup in Hold as [pos Hp]; [|by eapply root_unique]. by eapply entries_u256.
Qed.

(** A table with no slot left overwrites none. *)
Lemma st_register_full st k v :
  st_inv st → is_u256 v → size (mapping st) = (3 ^ height st)%nat → st_register st k v = Err ExistingKey.
Proof.
  intros Hst Hv Hfull. unfold st_register. destruct (mapping st !! k); [done|].
  pose proof Hst as ((Hwf & _ & Hocc & _) & _).
  pose proof (register_spec (height st) (head st) (size (mapping st)) (height st) k v Hwf (le_n _) Hv) as Hr.
  rewrite Hfull in *. rewrite Nat.Div0.mod_same in Hr.
  assert (∃ kv, entries (height st) (head st) !! 0%nat = Some (Some kv)) as [kv Hkv].
  { apply Hocc. pose proof (Nat.pow_nonzero 3 (height st)). lia. }
  rewrite Hkv in Hr. destruct (register _ _ _ _ _) as [t'|e|]; mon; naive_solver.
Qed.

Lemma st_height st o st' v : call st o = Ok (st', v) → height st' = height st.
Proof.
  destruct o; cbn [call sc_register sc_update sc_set_value sc_advance mt_scheme]; intros H; inv_ok H;
    unfold st_register, st_update, st_set_value in *; repeat (case_match; try done); by inv_ok E || done.
Qed.

Lemma mt_register_exact st k v aux :
  st_inv st → is_u256 v →
  prod_map st_abs id <$> call st (OpRegister k v aux) = table_spec (mt_limits (height st)) (st_abs st) (OpRegister k v aux) ∧
  ∀ st' r, call st (OpRegister k v aux) = Ok (st', r) → st_inv st'.
Proof.
  intros Hst Hv. pose proof (st_register_spec st k v Hst Hv) as Hs. pose proof (mapping_size st Hst) as Hsz.
  pose proof (st_register_full st k v Hst Hv) as Hfull.
  assert (size (mapping st) <= 3 ^ height st)%nat as Hle by apply Hst.
  pose proof (st_height st (OpRegister k v aux)) as Hh.
  cbn [call table_spec sc_register mt_scheme within lim_slots mt_limits] in *.
  destruct (st_register st k v) as [st1|e|]; simpl in Hh; mon; simpl.
  - destruct Hs as (Hn & Hi & Ha). specialize (Hh st1 None eq_refl). pose proof (head_total st1 Hi) as Ht.
    pose proof (mapping_size st1 Hi) as Hsz1. assert (size (mapping st1) <= 3 ^ height st1)%nat as Hle1 by apply Hi.
    rewrite Ha in Ht, Hsz1 |- *. simpl in Hn, Ht, Hsz1, Hsz. rewrite map_size_insert_None in Hsz1 by done.
    split; [|by intros ? ? [= <- _]]. rewrite decide_False by (rewrite Hn; by intros [? ?]).
    rewrite Hh in Hle1. rewrite bool_decide_true by lia. by rewrite decide_True.
  - split; [|done]. destruct Hs as [-> Hs]. simpl in Hs. case_decide as Hk; [done|]. simpl in Hsz.
    rewrite bool_decide_false; [done|]. destruct Hs; [done|lia].
  - split; [|done]. destruct Hs as [Hn Ht]. simpl in Hn, Ht, Hsz. rewrite decide_False by (rewrite Hn; by intros [? ?]).
    rewrite bool_decide_true; [|destruct (decide (size (mapping st) = 3 ^ height st)%nat) as [Hf|]; [by specialize (Hfull Hf)|lia]].
    simpl. rewrite decide_False; [done|]. rewrite total_insert_new by done. lia.
Qed.

(** Writing the stake [v] of a key that has the stake [old]: what [update] and [set_value] share. *)
Lemma mt_write_exact st k old v answer (r : outcome StakeTableError (table * Z)) :
  abs_head (st_abs st) !! k = Some old →
  match r with
  | Ok (st', v') => v' = answer ∧ st_inv st' ∧
      st_abs st' = abs_set_head (st_abs st) (<[k := v]> (abs_head (st_abs st)))
  | Err _ => False
  | Panic => u256_modulus <= map_total (abs_head (st_abs st)) - old + v
  end →
  (prod_map st_abs id <$> ('(st', v') ← r; Ok (st', Some v'))) =
    (if decide (map_total (<[k := v]> (abs_head (st_abs st))) < u256_modulus)
     then Ok (abs_set_head (st_abs st) (<[k := v]> (abs_head (st_abs st))), Some answer) else Panic) ∧
  ∀ st' x, ('(st', v') ← r; Ok (st', Some v')) = Ok (st', x) → st_inv st'.
Proof.
  intros Hk Hr. destruct r as [[st1 v1]|e|]; mon; [|done|].
  - destruct Hr as (-> & Hi & Ha). split; [|by intros ? ? [= <- _]]. pose proof (head_total st1 Hi) as Ht.
    rewrite Ha in Ht. rewrite decide_True by done. simpl. by rewrite Ha.
  - split; [|done]. rewrite decide_False; [done|]. rewrite (total_insert _ _ _ _ Hk). lia.
Qed.

Lemma mt_update_exact st k d n :
  st_inv st → is_u256 d →
  prod_map st_abs id <$> call st (OpUpdate (A:=unit) k d n) = table_spec (mt_limits (height st)) (st_abs st) (OpUpdate (A:=unit) k d n) ∧
  ∀ st' r, call st (OpUpdate k d n) = Ok (st', r) → st_inv st'.
Proof.
  intros Hst Hd. pose proof (st_update_spec st k d n Hst Hd) as Hs.
  cbn [call table_spec sc_update mt_scheme mt_limits lim_overflow_reported].
  destruct (abs_head (st_abs st) !! k) as [old|] eqn:Hk; [|rewrite Hs; mon; by split].
  assert (is_u256 old) as Hold by by eapply head_u256. cbv zeta in Hs |- *. unfold is_u256 in *.
  destruct (n && (old <? d)) eqn:Hneg.
  { bool_facts. subst n. rewrite decide_True in Hs by (simpl; lia). rewrite Hs. mon. by split. }
  rewrite decide_False in Hs by (unfold new_stake; destruct n; simpl in Hneg; bool_facts; lia).
  simpl andb. case_decide as Hov.
  - rewrite (proj2 (Z.leb_le _ _)), Hs by done. mon. by split.
  - rewrite (proj2 (Z.leb_gt _ _)) by lia. by apply mt_write_exact with old.
Qed.

Lemma mt_call_exact st o :
  st_inv st → op_args_ok o →
  prod_map st_abs id <$> call st o = table_spec (mt_limits (height st)) (st_abs st) o ∧
  ∀ st' v, call st o = Ok (st', v) → st_inv st' ∧ height st' = height st.
Proof.
  intros Hst Ho.
  enough (prod_map st_abs id <$> call st o = table_spec (mt_limits (height st)) (st_abs st) o ∧
    ∀ st' v, call st o = Ok (st', v) → st_inv st') as [? Hi] by eauto using st_height.
  destruct o as [k v aux|k d n|k v|]; [by apply mt_register_exact|by apply mt_update_exact| |].
  - pose proof (st_set_value_spec st k v Hst Ho) as Hs. cbn [call table_spec sc_set_value mt_scheme].
    destruct (abs_head (st_abs st) !! k) as [old|] eqn:Hk; [|rewrite Hs; mon; by split].
    by apply mt_write_exact with old.
  - destruct (advance_spec st Hst) as [Hi Ha]. cbn [call table_spec sc_advance mt_scheme mt_limits lim_snapshot within].
    mon. split; [simpl; by rewrite Ha|by intros ? ? [= <- _]].
Qed.
End Table.

(** ** A concrete hash for the witnesses

    Field elements are positives, and the hash is the (injective) encoding of
    the list of its inputs, shifted away from the empty commitment [1]. *)
Module Demo.
#[export] Instance demo_rescue : RescueCtx Z positive := {|
  F_zero := 1%positive;
  digest := fun l => Some (Pos.succ (encode l));
  to_fields := fun k => [encode k];
  SIZE := 1;
  from_le_bytes_mod_order := fun l => encode l;
|}.

#[export] Instance demo_laws : RescueLaws Z positive.
Proof. split; [eauto|done|simpl; lia]. Qed.

#[export] Instance demo_injective : RescueInjective (K:=Z) (F:=positive).
Proof.
  split; cbn [digest to_fields F_zero demo_rescue].
  - intros l1 l2 d _ _ [= H1] [= H2]. assert (encode l1 = encode l2) as He by lia.
    by apply (inj encode) in He.
  - intros l [= H]. lia.
  - intros k1 k2 [= He]. by apply (inj encode) in He.
Qed.

Abbreviation table := (StakeTable Z positive).

(** Three keys in a tree of height 2, with an epoch boundary in between. *)
Definition ops : list (op (K:=Z) (A:=unit)) :=
  [OpRegister 7 100 (); OpRegister 8 50 (); OpAdvance; OpRegister 9 1 ();
   OpUpdate 8 20 true; OpAdvance].

Definition demo_table : table := default (StakeTable_new 2) (run (StakeTable_new 2) ops).

Lemma demo_run : run (StakeTable_new (K:=Z) (F:=positive) 2) ops = Some demo_table.
Proof. vm_compute. reflexivity. Qed.

Lemma demo_inv : st_inv demo_table.
Proof.
  pose proof (run_refines (StakeTable_new 2) demo_table ops (proj1 (st_new_inv (K:=Z) (F:=positive) 2))) as H.
  apply H; [|apply demo_run]. repeat constructor; done.
Qed.
End Demo.

(** ** Properties *)

Section Properties.
Context {K F : Type} `{!EqDecision K, !Countable K, !EqDecision F, !RescueCtx K F, !RescueLaws K F}.

(** C39. The Merkle stake table is the map.  Make any sequence of [register], [update],
    [set_value] and [advance] calls to an empty table of height [h].  Each call answers,
    is refused with the error, or panics exactly as it does for the abstract table of three
    maps with room for [3 ^ h] keys ([table_spec]: an existing key and a full table are
    [ExistingKey], a missing key [KeyNotFound], a stake that would become negative
    [InsufficientFund], one over 256 bits [StakeOverflow], a total over 256 bits a panic), and
    at the end [lookup] and [total_stake] of every version read its three maps. *)
Theorem mt_table_refines_map (h : nat) (ops : list (op (K:=K) (A:=unit))) :
  Forall op_args_ok ops →
  let '(answers, final) := calls call (StakeTable_new (K:=K) (F:=F) h) ops in
  let '(answers', final') := calls (table_spec (mt_limits h)) abs_empty ops in
  answers = answers' ∧
  match final, final' with
  | Some st, Some a =>
      (∀ ver k, st_lookup st ver k =
         match abs_version a ver with
         | None => Err SnapshotUnsupported
         | Some m => ok_or (m !! k) KeyNotFound
         end) ∧
      (∀ ver, total_stake st ver = ok_or (map_total <$> abs_version a ver) SnapshotUnsupported)
  | None, None => True
  | _, _ => False
  end.
Proof.
  intros Hops. destruct (st_new_inv (K:=K) (F:=F) h) as [Hi Ha].
  destruct (calls_simulation call (table_spec (mt_limits h)) (fun st : StakeTable K F => st_inv st ∧ height st = h) st_abs
    (StakeTable_new h) ops) as [Hs Hf]; [|done|done|].
  { intros st o [Hst <-] Ho. by apply mt_call_exact. }
  rewrite Ha in Hs. rewrite <-Hs. destruct (calls call _ ops) as [answers [st|]]; simpl in *; [|done].
  destruct (Hf st eq_refl) as [Hst _]. split; [done|]. split; intros; [by apply st_lookup_spec|by apply total_stake_spec].
Qed.

(** [StakeTable::register] on every branch.  A new key of a table with a
    free slot is added with its stake and nothing else changes; a key that is
    registered, or a table whose [3 ^ height] slots are all taken, gives
    [ExistingKey] (a full table never overwrites a slot); the only panic is
    the overflow of the total stake. *)
Theorem mt_register_correct (st : StakeTable K F) (k : K) (v : Z) :
  st_inv st → is_u256 v →
  match st_register st k v with
  | Ok st' => abs_head (st_abs st) !! k = None ∧ st_inv st' ∧
      st_abs st' = abs_set_head (st_abs st) (<[k := v]> (abs_head (st_abs st)))
  | Err e => e = ExistingKey ∧
      (is_Some (abs_head (st_abs st) !! k) ∨ size (mapping st) = (3 ^ height st)%nat)
  | Panic => abs_head (st_abs st) !! k = None ∧
      u256_modulus <= map_total (abs_head (st_abs st)) + v
  end.
Proof. apply st_register_spec. Qed.

(** [StakeTable::update] on every branch: the new stake is returned and
    stored; a missing key, a stake that would become negative and a stake
    that would not fit in 256 bits are [KeyNotFound], [InsufficientFund] and
    [StakeOverflow]; the only panic is the overflow of the total. *)
Theorem mt_update_correct (st : StakeTable K F) (k : K) (delta : Z) (negative : bool) :
  st_inv st → is_u256 delta →
  match abs_head (st_abs st) !! k with
  | None => st_update st k delta negative = Err KeyNotFound
  | Some old =>
      let v := new_stake old delta negative in
      if decide (v < 0) then st_update st k delta negative = Err InsufficientFund
      else if decide (u256_modulus <= v) then st_update st k delta negative = Err StakeOverflow
      else match st_update st k delta negative with
      | Ok (st', v') => v' = v ∧ st_inv st' ∧
          st_abs st' = abs_set_head (st_abs st) (<[k := v]> (abs_head (st_abs st)))
      | Err _ => False
      | Panic => u256_modulus <= map_total (abs_head (st_abs st)) - old + v
      end
  end.
Proof. apply st_update_spec. Qed.

(** The proof of [lookup_with_proof] verifies.  For a key of a snapshot
    the call succeeds with the stake of the key, and the proof passes
    [MerkleProof::verify] against the snapshot's [commitment]. *)
Theorem mt_lookup_proof_verifies (st : StakeTable K F) ver k v m c :
  st_inv st → Z.of_nat (height st) < u64_modulus →
  abs_version (st_abs st) ver = Some m → m !! k = Some v → st_commitment st ver = Ok c →
  ∃ p, lookup_with_proof st ver k = Ok (v, p) ∧ proof_key_value p = Some (k, v) ∧
    verify p c = Ok ().
Proof.
  intros Hst Hb Hm Hv Hc. unfold st_commitment in Hc. unfold lookup_with_proof. inv_ok Hc. mon.
  destruct (root_version _ _ _ Hst E) as (n & Hri & Ha). rewrite Ha in Hm. injection Hm as <-.
  destruct (mapping st !! k) as [pos|] eqn:Hk; [|rewrite (abs_root_unmapped _ _ _ _ Hri Hk) in Hv; done].
  pose proof (mapping_bound _ _ _ Hst Hk). pose proof (root_slot _ _ _ _ _ Hst Hri Hk) as Hs.
  destruct Hri as (Hwf & _). pose proof (lookup_spec (height st) a pos (height st) Hwf (le_n _)) as Hl.
  rewrite Nat.mod_small in Hl by done.
  destruct (entries (height st) a !! pos) as [[[k' w]|]|]; [|congruence..].
  destruct Hs as [-> Hw]. assert (w = v) as -> by congruence.
  destruct Hl as (path & -> & Hlen & Hroot). mon. simpl. eexists. split_and!; [done|done|].
  unfold verify. cbn [mc_height mc_comm]. rewrite Hroot, bool_decide_false; mon.
  - by rewrite bool_decide_true.
  - unfold tree_height, u64_sub. cbn [mp_path length]. rewrite Hlen, Z.mod_small; [|unfold u64_modulus in *; lia].
    intros Hne. apply Hne. lia.
Qed.

(** C40: a Merkle proof that verifies is sound.  If the hash has no collisions,
    a proof accepted against the commitment of a snapshot names a slot (by the
    positions of its branches) that holds its key, with a stake equal to the
    proof's modulo the order of the field. *)
Theorem mt_verify_sound `{!RescueInjective (K:=K) (F:=F)} (st : StakeTable K F) ver r c p k v :
  st_inv st → root st ver = Ok r → st_commitment st ver = Ok c →
  Z.of_nat (length (mp_path p)) <= u64_modulus →
  proof_key_value p = Some (k, v) → verify p c = Ok () →
  ∃ v', mapping st !! k = Some (proof_position p) ∧ abs_root st r !! k = Some v' ∧
    u256_to_field (K:=K) (F:=F) v' = u256_to_field (K:=K) v.
Proof.
  intros Hst Hr Hc Hlen Hkv Hv. unfold st_commitment in Hc. rewrite Hr in Hc. inv_ok Hc.
  destruct (root_version _ _ _ Hst Hr) as (n & Hri & _). pose proof Hri as (Hwf & _ & _ & Hm).
  eapply verify_sound in Hv as (v' & Hs & He); [|exact Hwf|done|done|exact Hkv|done].
  exists v'. split_and!; [by eapply Hm| |done]. apply slots_map_lookup; [by eapply root_unique|eauto].
Qed.

(** Sampling is weighted by stake.  [sample] with randomness [r] returns
    the first registered key, in registration order, at which the running
    total of the [LastEpochStart] stakes exceeds [r] modulo the total; the key
    has a positive stake, and no randomness makes it fail or miss. *)
Theorem mt_sample_weighted (st : StakeTable K F) (r : Z) :
  st_inv st → 0 < total_stakes (last_epoch_start st) →
  sample st r =
    Ok (pick_by_stake (entries (height st) (last_epoch_start st))
          (r mod total_stakes (last_epoch_start st))) ∧
  ∃ k v, sample st r = Ok (Some (k, v)) ∧ 0 < v ∧
    abs_last_epoch_start (st_abs st) !! k = Some v.
Proof.
  intros (_ & _ & (n & Hl) & _) Ht. pose proof (root_unique _ _ _ Hl) as Hu. destruct Hl as (Hwf & _).
  pose proof (Z.mod_pos_bound r _ Ht). unfold sample.
  rewrite (proj2 (Z.eqb_neq _ _)) by lia. rewrite (key_by_stake_spec (height st)) by (done || lia).
  split; [done|]. pose proof (wf_totals _ _ Hwf) as (Htot & _).
  destruct (pick_by_stake_some (entries (height st) (last_epoch_start st))
    (r mod total_stakes (last_epoch_start st))) as (k & v & Hp & Hin & Hv); [by apply entries_ok|lia|].
  exists k, v. rewrite Hp. split_and!; [done|done|]. apply slots_map_lookup; [done|].
  by apply list_elem_of_lookup.
Qed.

(** The iterator visits every registered key of a snapshot exactly once, in
    the order of registration, although it stops at the first empty node. *)
Theorem mt_iter_complete (st : StakeTable K F) ver r it :
  st_inv st → root st ver = Ok r → try_iter st ver = Ok it →
  collect it = omap id (entries (height st) r) ∧
  NoDup (collect it).*1 ∧ (∀ k v, (k, v) ∈ collect it ↔ abs_root st r !! k = Some v).
Proof.
  intros Hst Hr Hit. unfold try_iter in Hit. rewrite Hr in Hit. inv_ok Hit.
  destruct (root_version _ _ _ Hst Hr) as (n & Hri & _). pose proof (root_unique _ _ _ Hri) as Hu.
  destruct Hri as (Hwf & _ & Hocc & _). rewrite (collect_spec (height st)) by done.
  assert (occupied_prefix (entries (height st) r) = omap id (entries (height st) r)) as ->.
  { apply occupied_prefix_all with n. done. }
  split_and!; [done|by apply slots_unique_NoDup|]. intros k v.
  rewrite elem_of_omap_id, list_elem_of_lookup. unfold abs_root. by rewrite slots_map_lookup.
Qed.
End Properties.

(** [to_merkle_path] and [from_merkle_path] are inverse on the indices of
    a tree: the digits of an index below [3 ^ height] give it back. *)
Theorem merkle_path_roundtrip (idx h : nat) :
  (idx < 3 ^ h)%nat → from_merkle_path (to_merkle_path idx h) = idx ∧
  length (to_merkle_path idx h) = h.
Proof.
  intros Hlt. rewrite from_to_merkle_path, Nat.mod_small by done.
  split; [done|apply length_to_merkle_path].
Qed.

(** ** Witnesses *)
Section Witnesses.
Import Demo.

(** The calls of [ops], with one that is refused and one to a full table. *)
Lemma mt_table_refines_map_witness :
  let '(answers, final) := calls call (StakeTable_new (K:=Z) (F:=positive) 1)
    (ops ++ [OpUpdate 8 31 true; OpUpdate 9 (u256_modulus - 1) false; OpRegister 10 1 ()]) in
  answers = [Ok None; Ok None; Ok None; Ok None; Ok (Some 30); Ok None; Err InsufficientFund; Err StakeOverflow; Err ExistingKey] ∧
  ∃ st, final = Some st ∧ st_lookup st EpochStart 8 = Ok 30 ∧ st_lookup st LastEpochStart 8 = Ok 50 ∧ total_stake st Head = Ok 131.
Proof.
  pose proof (mt_table_refines_map (K:=Z) (F:=positive) 1
    (ops ++ [OpUpdate 8 31 true; OpUpdate 9 (u256_modulus - 1) false; OpRegister 10 1 ()])) as H.
  destruct (calls call _ _) as [answers final]. destruct (calls (table_spec _) _ _) as [answers' final'] eqn:E.
  vm_compute in E. injection E as <- <-. destruct H as [-> H]; [repeat constructor; done|]. split; [done|].
  destruct final as [st|]; [|done]. exists st. destruct H as [Hl Ht]. rewrite !Hl, Ht. split; [done|]. vm_compute. done.
Defined.

Lemma mt_register_correct_witness :
  ∃ st', st_register demo_table 10 5 = Ok st' ∧
    st_abs st' = abs_set_head (st_abs demo_table) (<[10 := 5]> (abs_head (st_abs demo_table))).
Proof.
  pose proof (mt_register_correct demo_table 10 5 demo_inv ltac:(done)) as H.
  destruct (st_register demo_table 10 5) as [st'| |] eqn:E.
  - exists st'. split; [done|]. apply H.
  - exfalso. vm_compute in E. done.
  - exfalso. vm_compute in E. done.
Defined.

Lemma mt_update_correct_witness :
  st_update demo_table 42 1 true = Err KeyNotFound.
Proof.
  pose proof (mt_update_correct demo_table 42 1 true demo_inv ltac:(done)) as H.
  destruct (abs_head (st_abs demo_table) !! 42) eqn:E; [vm_compute in E; done|exact H].
Defined.

Lemma mt_lookup_proof_verifies_witness :
  ∃ p c, st_commitment demo_table EpochStart = Ok c ∧
    lookup_with_proof demo_table EpochStart 8 = Ok (30, p) ∧ verify p c = Ok ().
Proof.
  destruct (st_commitment demo_table EpochStart) as [c| |] eqn:Hc; [|done|done].
  destruct (mt_lookup_proof_verifies demo_table EpochStart 8 30 (abs_epoch_start (st_abs demo_table)) c)
    as (p & H1 & _ & H2).
  - exact demo_inv.
  - vm_compute. done.
  - reflexivity.
  - vm_compute. reflexivity.
  - exact Hc.
  - exists p, c. split; [done|]. split; done.
Defined.

(** The proof of key 8, as the table gives it. *)
Definition demo_proof : MerkleProof Z positive :=
  match lookup_with_proof demo_table EpochStart 8 with
  | Ok (_, p) => p
  | _ => {| mp_index := 0; mp_path := [] |}
  end.

Lemma mt_verify_sound_witness :
  ∃ v', mapping demo_table !! 8 = Some (proof_position demo_proof) ∧
    abs_root demo_table (epoch_start demo_table) !! 8 = Some v'.
Proof.
  destruct (st_commitment demo_table EpochStart) as [c| |] eqn:Hc; [|done|done].
  destruct (mt_verify_sound demo_table EpochStart (epoch_start demo_table) c demo_proof 8 30) as (v' & H1 & H2 & _).
  - exact demo_inv.
  - reflexivity.
  - exact Hc.
  - vm_compute. done.
  - vm_compute. reflexivity.
  - vm_compute in Hc. injection Hc as <-. vm_compute. reflexivity.
  - exists v'. split; done.
Defined.

Lemma mt_sample_weighted_witness :
  sample demo_table 120 = Ok (Some (8, 50)) ∧
  ∃ k v, sample demo_table 120 = Ok (Some (k, v)) ∧ 0 < v ∧
    abs_last_epoch_start (st_abs demo_table) !! k = Some v.
Proof.
  split; [vm_compute; reflexivity|]. apply (mt_sample_weighted demo_table 120 demo_inv).
  vm_compute. reflexivity.
Defined.

Lemma mt_iter_complete_witness :
  collect (IntoIter_new (head demo_table)) = omap id (entries 2 (head demo_table)) ∧
  collect (IntoIter_new (head demo_table)) = [(7, 100); (8, 30); (9, 1)].
Proof.
  split; [|vm_compute; reflexivity].
  apply (mt_iter_complete demo_table Head (head demo_table) (IntoIter_new (head demo_table)));
    [exact demo_inv|reflexivity|reflexivity].
Defined.

Lemma batch_register_drops_errors_witness :
  sc_register demo_table 8 5 () = Err ExistingKey ∧
  batch_register demo_table [8; 11] [5; 6] [(); ()] = (demo_table, Ok ()).
Proof.
  split; [vm_compute; reflexivity|].
  apply (batch_register_drops_errors demo_table 8 5 () [11] [6] [()] ExistingKey).
  vm_compute. reflexivity.
Defined.

End Witnesses.
