(* ===== verification/StakeTableVec.v ===== *)
(** * The vector stake table

    [hotshot-stake-table/src/vec_based.rs]: three snapshots, each three vectors
    indexed by the position of a key, the totals, the commitments of the two
    finalized snapshots, and the map from keys to positions.  The table is the second
    instance of [StakeTableLaws]; [stake_tables_agree] compares it with the Merkle
    tree.  The rescue hash and the field are parameters ([CommitCtx]). *)

From S2P Require Import Prelude StakeTableScheme StakeTableMt StakeTableMtProofs StakeTableMtTable.

(** The hash of [jf_rescue], with its [unwrap] ([None] is a panic), the field, and
    the two key types' [ToFields]. *)
Class CommitCtx (K1 K2 G : Type) := {
  evaluate : list G → option G;
  G_default : G;
  K1_to_fields : K1 → list G;
  K1_SIZE : nat;
  K2_to_fields : K2 → list G;
  K2_SIZE : nat;
  K2_default : K2;
  u256_to_G : Z → G;
}.

(** [Vec::resize] *)
Definition resize {A} (l : list A) (n : nat) (x : A) : list A := take n l ++ replicate (n - length l) x.

Section VecTable.
Context {K1 K2 G : Type} `{!EqDecision K1, !Countable K1, !CommitCtx K1 K2 G}.

Record StakeTableSnapshot := {
  bls_keys : list K1;
  schnorr_keys : list K2;
  stake_amount : list Z;
}.

Definition Snapshot_default : StakeTableSnapshot :=
  {| bls_keys := []; schnorr_keys := []; stake_amount := [] |}.

Record VecStakeTable := {
  capacity : nat;
  vt_head : StakeTableSnapshot;
  vt_epoch_start : StakeTableSnapshot;
  vt_last_epoch_start : StakeTableSnapshot;
  head_total_stake : Z;
  epoch_start_total_stake : Z;
  last_epoch_start_total_stake : Z;
  epoch_start_comm : G * G * G;
  last_epoch_start_comm : G * G * G;
  bls_mapping : gmap K1 nat;
}.

(** The head, its total and the mapping are written; the rest stays. *)
Definition set_vt_head (st : VecStakeTable) (s : StakeTableSnapshot) (total : Z) (mapping : gmap K1 nat) : VecStakeTable :=
  {| capacity := capacity st; vt_head := s; vt_epoch_start := vt_epoch_start st;
     vt_last_epoch_start := vt_last_epoch_start st; head_total_stake := total;
     epoch_start_total_stake := epoch_start_total_stake st;
     last_epoch_start_total_stake := last_epoch_start_total_stake st; epoch_start_comm := epoch_start_comm st;
     last_epoch_start_comm := last_epoch_start_comm st; bls_mapping := mapping |}.

Definition set_stakes (st : VecStakeTable) (stakes : list Z) (total : Z) : VecStakeTable :=
  set_vt_head st {| bls_keys := bls_keys (vt_head st); schnorr_keys := schnorr_keys (vt_head st); stake_amount := stakes |}
    total (bls_mapping st).

Definition vec_register (st : VecStakeTable) (new_key : K1) (amount : Z) (aux : K2) : outcome StakeTableError VecStakeTable :=
  match bls_mapping st !! new_key with
  | Some _ => Err ExistingKey
  | None =>
      let pos := size (bls_mapping st) in
      let head := {| bls_keys := bls_keys (vt_head st) ++ [new_key];
                     schnorr_keys := schnorr_keys (vt_head st) ++ [aux];
                     stake_amount := stake_amount (vt_head st) ++ [amount] |} in
      total ← u256_add (head_total_stake st) amount;
      Ok (set_vt_head st head total (<[new_key := pos]> (bls_mapping st)))
  end.

(** The key stays, with no stake. *)
Definition deregister (st : VecStakeTable) (existing_key : K1) : outcome StakeTableError VecStakeTable :=
  match bls_mapping st !! existing_key with
  | Some pos =>
      old ← index (stake_amount (vt_head st)) pos;
      total ← u256_sub (head_total_stake st) old;
      stakes ← index_set (stake_amount (vt_head st)) pos 0;
      Ok (set_stakes st stakes total)
  | None => Err KeyNotFound
  end.

Definition vec_commitment (st : VecStakeTable) (version : SnapshotVersion) : outcome StakeTableError (G * G * G) :=
  match version with
  | EpochStart => Ok (epoch_start_comm st)
  | LastEpochStart => Ok (last_epoch_start_comm st)
  | _ => Err SnapshotUnsupported
  end.

Definition vec_total_stake (st : VecStakeTable) (version : SnapshotVersion) : outcome StakeTableError Z :=
  match version with
  | Head => Ok (head_total_stake st)
  | EpochStart => Ok (epoch_start_total_stake st)
  | LastEpochStart => Ok (last_epoch_start_total_stake st)
  | BlockNum _ => Err SnapshotUnsupported
  end.

(** [StakeTable::version] *)
Definition vec_version (st : VecStakeTable) (version : SnapshotVersion) : outcome StakeTableError StakeTableSnapshot :=
  match version with
  | Head => Ok (vt_head st)
  | EpochStart => Ok (vt_epoch_start st)
  | LastEpochStart => Ok (vt_last_epoch_start st)
  | BlockNum _ => Err SnapshotUnsupported
  end.

Definition lookup_pos (st : VecStakeTable) (key : K1) : outcome StakeTableError nat :=
  ok_or (bls_mapping st !! key) KeyNotFound.

Definition vec_len (st : VecStakeTable) (version : SnapshotVersion) : outcome StakeTableError nat :=
  table ← vec_version st version; Ok (length (bls_keys table)).

Definition vec_contains_key (st : VecStakeTable) (key : K1) : bool := bool_decide (is_Some (bls_mapping st !! key)).

Definition vec_lookup (st : VecStakeTable) (version : SnapshotVersion) (key : K1) : outcome StakeTableError Z :=
  table ← vec_version st version;
  pos ← lookup_pos st key;
  if decide (length (bls_keys table) <= pos)%nat then Err KeyNotFound else index (stake_amount table) pos.

Definition vec_lookup_with_proof (st : VecStakeTable) (version : SnapshotVersion) (key : K1)
    : outcome StakeTableError (Z * unit) :=
  amount ← vec_lookup st version key; Ok (amount, tt).

Definition lookup_with_aux_and_proof (st : VecStakeTable) (version : SnapshotVersion) (key : K1)
    : outcome StakeTableError (Z * K2 * unit) :=
  table ← vec_version st version;
  pos ← lookup_pos st key;
  if decide (length (bls_keys table) <= pos)%nat then Err KeyNotFound
  else
    amount ← index (stake_amount table) pos;
    aux ← index (schnorr_keys table) pos;
    Ok (amount, aux, tt).

Definition vec_update (st : VecStakeTable) (key : K1) (delta : Z) (negative : bool)
    : outcome StakeTableError (VecStakeTable * Z) :=
  pos ← lookup_pos st key;
  amount ← index (stake_amount (vt_head st)) pos;
  '(total, new_amount) ←
    (if negative then
       _ ← ensure (delta <=? amount) InsufficientFund;
       total ← u256_sub (head_total_stake st) delta;
       new_amount ← u256_sub amount delta;
       Ok (total, new_amount)
     else
       total ← u256_add (head_total_stake st) delta;
       new_amount ← u256_add amount delta;
       Ok (total, new_amount));
  stakes ← index_set (stake_amount (vt_head st)) pos new_amount;
  Ok (set_stakes st stakes total, new_amount).

(** The loop of [sample]: [idx] stays zero. *)
Fixpoint sample_loop (fuel : nat) (pos stake : Z) : option Z :=
  match fuel with
  | O => None
  | S fuel => if stake <? pos then sample_loop fuel (pos - stake) stake else Some pos
  end.

(** [r] is the number read from 64 random bytes; [None] when the loop runs out of
    fuel.  A remainder by zero panics. *)
Definition vec_sample (fuel : nat) (st : VecStakeTable) (r : Z) : option (outcome StakeTableError (K1 * Z)) :=
  if last_epoch_start_total_stake st =? 0 then Some Panic
  else
    let pos := r mod last_epoch_start_total_stake st in
    match stake_amount (vt_last_epoch_start st) !! 0%nat with
    | None => Some Panic
    | Some stake =>
        _pos ← sample_loop fuel pos stake;
        Some (key ← index (bls_keys (vt_last_epoch_start st)) 0; Ok (key, stake))
    end.

Definition vec_try_iter (st : VecStakeTable) (version : SnapshotVersion) : outcome StakeTableError (list (K1 * Z * K2)) :=
  table ← vec_version st version;
  foldr (fun i rest =>
    key ← index (bls_keys table) i;
    amount ← index (stake_amount table) i;
    aux ← index (schnorr_keys table) i;
    entries ← rest;
    Ok ((key, amount, aux) :: entries)) (Ok []) (seq 0 (length (bls_keys table))).

Definition vec_new (capacity : nat) : outcome StakeTableError VecStakeTable :=
  default_bls_comm ← unwrap (evaluate (replicate (capacity * K1_SIZE) G_default));
  default_schnorr_comm ← unwrap (evaluate (replicate (capacity * K2_SIZE) G_default));
  default_stake_comm ← unwrap (evaluate (replicate capacity G_default));
  let default_comm := (default_bls_comm, default_schnorr_comm, default_stake_comm) in
  Ok {| capacity := capacity; vt_head := Snapshot_default; vt_epoch_start := Snapshot_default;
        vt_last_epoch_start := Snapshot_default; head_total_stake := 0; epoch_start_total_stake := 0;
        last_epoch_start_total_stake := 0; epoch_start_comm := default_comm;
        last_epoch_start_comm := default_comm; bls_mapping := ∅ |}.

(** [capacity - len] is below zero when the table has more keys than its capacity:
    the subtraction panics, or wraps to a padding that no memory holds. *)
Definition compute_head_comm (st : VecStakeTable) : outcome StakeTableError (G * G * G) :=
  if decide (capacity st < length (bls_keys (vt_head st)))%nat then Panic
  else
    let padding_len := (capacity st - length (bls_keys (vt_head st)))%nat in
    let bls_comm_preimage := mjoin (map K1_to_fields (bls_keys (vt_head st))) in
    bls_comm ← unwrap (evaluate (resize bls_comm_preimage (capacity st * K1_SIZE) G_default));
    let schnorr_comm_preimage :=
      mjoin (map K2_to_fields (schnorr_keys (vt_head st) ++ replicate padding_len K2_default)) in
    schnorr_comm ← unwrap (evaluate schnorr_comm_preimage);
    let stake_comm_preimage := map u256_to_G (stake_amount (vt_head st)) in
    stake_comm ← unwrap (evaluate (resize stake_comm_preimage (capacity st) G_default));
    Ok (bls_comm, schnorr_comm, stake_comm).

Definition vec_advance (st : VecStakeTable) : outcome StakeTableError VecStakeTable :=
  comm ← compute_head_comm st;
  Ok {| capacity := capacity st; vt_head := vt_head st; vt_epoch_start := vt_head st;
        vt_last_epoch_start := vt_epoch_start st; head_total_stake := head_total_stake st;
        epoch_start_total_stake := head_total_stake st;
        last_epoch_start_total_stake := epoch_start_total_stake st; epoch_start_comm := comm;
        last_epoch_start_comm := epoch_start_comm st; bls_mapping := bls_mapping st |}.

Definition vec_set_value (st : VecStakeTable) (key : K1) (value : Z) : outcome StakeTableError (VecStakeTable * Z) :=
  match bls_mapping st !! key with
  | Some pos =>
      old_value ← index (stake_amount (vt_head st)) pos;
      stakes ← index_set (stake_amount (vt_head st)) pos value;
      total ← u256_sub (head_total_stake st) old_value;
      total ← u256_add total value;
      Ok (set_stakes st stakes total, old_value)
  | None => Err KeyNotFound
  end.

#[global] Instance vec_scheme : StakeTableScheme VecStakeTable K1 K2 := {|
  sc_register := vec_register;
  sc_update := vec_update;
  sc_set_value := vec_set_value;
  sc_advance := vec_advance;
  sc_lookup := vec_lookup;
  sc_total_stake := vec_total_stake;
|}.

(** ** The maps the snapshots stand for *)

Definition snap_map (s : StakeTableSnapshot) : gmap K1 Z := list_to_map (zip (bls_keys s) (stake_amount s)).

Definition snap_ok (s : StakeTableSnapshot) : Prop :=
  NoDup (bls_keys s) ∧ length (stake_amount s) = length (bls_keys s) ∧
  length (schnorr_keys s) = length (bls_keys s) ∧ Forall is_u256 (stake_amount s).

Lemma snap_lookup s k v :
  snap_ok s → snap_map s !! k = Some v ↔ ∃ pos, bls_keys s !! pos = Some k ∧ stake_amount s !! pos = Some v.
Proof using Type.
  intros (Hnd & Hlen & _). unfold snap_map. rewrite <-elem_of_list_to_map.
  - rewrite list_elem_of_lookup. apply exist_proper. intros pos. rewrite lookup_zip_with_Some. naive_solver.
  - by rewrite fst_zip by lia.
Qed.

Lemma snap_at s k pos :
  snap_ok s → bls_keys s !! pos = Some k → snap_map s !! k = stake_amount s !! pos.
Proof using Type.
  intros Hok Hk. pose proof Hok as (Hnd & Hlen & _). apply option_eq. intros v. rewrite snap_lookup by done. split.
  - intros (pos' & Hk' & Hv). by rewrite (NoDup_lookup _ _ _ _ Hnd Hk Hk').
  - eauto.
Qed.

Lemma snap_none s k : snap_ok s → snap_map s !! k = None ↔ k ∉ bls_keys s.
Proof using Type.
  intros (_ & Hlen & _). unfold snap_map. rewrite <-not_elem_of_list_to_map. by rewrite fst_zip by lia.
Qed.

Lemma snap_total s : snap_ok s → map_total (snap_map s) = sum_Z (stake_amount s).
Proof using Type.
  intros (Hnd & Hlen & _). unfold map_total, snap_map.
  rewrite map_to_list_to_map by (by rewrite fst_zip by lia). by rewrite snd_zip by lia.
Qed.

Definition snap_set (s : StakeTableSnapshot) (pos : nat) (v : Z) : StakeTableSnapshot :=
  {| bls_keys := bls_keys s; schnorr_keys := schnorr_keys s; stake_amount := <[pos := v]> (stake_amount s) |}.

Lemma snap_set_spec s pos k v :
  snap_ok s → bls_keys s !! pos = Some k → is_u256 v →
  snap_ok (snap_set s pos v) ∧ snap_map (snap_set s pos v) = <[k := v]> (snap_map s).
Proof using Type.
  intros Hok Hk Hv. assert (snap_ok (snap_set s pos v)) as Hok'.
  { destruct Hok as (? & ? & ? & ?). unfold snap_ok, snap_set. simpl. rewrite length_insert. split_and!; auto.
    by apply Forall_insert. }
  split; [done|]. destruct Hok as (Hnd & Hlen & Hok). apply map_eq. intros k'.
  destruct (decide (k = k')) as [<-|Hne].
  - rewrite lookup_insert_eq, (snap_at _ k pos) by done. simpl. apply list_lookup_insert_eq.
    apply lookup_lt_Some in Hk. lia.
  - rewrite lookup_insert_ne by done. apply option_eq. intros w. rewrite !snap_lookup by done. simpl.
    apply exist_proper. intros pos'. split; intros [Hk' Hw]; (split; [done|]); [rewrite list_lookup_insert_ne in Hw|
      rewrite list_lookup_insert_ne]; congruence.
Qed.

Definition snap_push (s : StakeTableSnapshot) (k : K1) (aux : K2) (v : Z) : StakeTableSnapshot :=
  {| bls_keys := bls_keys s ++ [k]; schnorr_keys := schnorr_keys s ++ [aux]; stake_amount := stake_amount s ++ [v] |}.

Lemma snap_push_spec s k aux v :
  snap_ok s → k ∉ bls_keys s → is_u256 v →
  snap_ok (snap_push s k aux v) ∧ snap_map (snap_push s k aux v) = <[k := v]> (snap_map s).
Proof using Type.
  intros Hok Hk Hv. pose proof Hok as (Hnd & Hlen & Hlen' & Hu). split.
  - unfold snap_ok, snap_push. simpl. rewrite !length_app. simpl. split_and!; [|lia|lia|].
    + apply NoDup_app. split_and!; [done|set_solver|apply NoDup_singleton].
    + apply Forall_app. split; [done|by apply Forall_singleton].
  - unfold snap_map, snap_push. simpl. rewrite zip_with_app by lia. simpl.
    rewrite list_to_map_snoc; [done|]. by rewrite fst_zip by lia.
Qed.

(** ** The invariant *)

Definition vec_inv (st : VecStakeTable) : Prop :=
  (snap_ok (vt_head st) ∧ snap_ok (vt_epoch_start st) ∧ snap_ok (vt_last_epoch_start st)) ∧
  (bls_keys (vt_last_epoch_start st) `prefix_of` bls_keys (vt_epoch_start st) ∧
   bls_keys (vt_epoch_start st) `prefix_of` bls_keys (vt_head st)) ∧
  (head_total_stake st = sum_Z (stake_amount (vt_head st)) ∧
   epoch_start_total_stake st = sum_Z (stake_amount (vt_epoch_start st)) ∧
   last_epoch_start_total_stake st = sum_Z (stake_amount (vt_last_epoch_start st))) ∧
  (∀ k pos, bls_mapping st !! k = Some pos ↔ bls_keys (vt_head st) !! pos = Some k) ∧
  size (bls_mapping st) = length (bls_keys (vt_head st)) ∧ head_total_stake st < u256_modulus.

Definition vec_abs (st : VecStakeTable) : AbsTable K1 :=
  {| abs_head := snap_map (vt_head st); abs_epoch_start := snap_map (vt_epoch_start st);
     abs_last_epoch_start := snap_map (vt_last_epoch_start st) |}.

Lemma vec_new_inv n st : vec_new n = Ok st → vec_inv st ∧ vec_abs st = abs_empty.
Proof using Type.
  unfold vec_new. intros H. inv_ok H. split; [|done].
  assert (snap_ok Snapshot_default) by (split_and!; [constructor|done..]).
  unfold vec_inv. simpl. split_and!; done.
Qed.

(** The table after the head is written at the position of a key. *)
Lemma vec_set_inv st pos k v total :
  vec_inv st → bls_mapping st !! k = Some pos → is_u256 v →
  total = sum_Z (<[pos := v]> (stake_amount (vt_head st))) → total < u256_modulus →
  let st' := set_stakes st (<[pos := v]> (stake_amount (vt_head st))) total in
  vec_inv st' ∧ vec_abs st' = abs_set_head (vec_abs st) (<[k := v]> (abs_head (vec_abs st))).
Proof using Type.
  intros ((Hh & He & Hl) & (? & ?) & (? & ? & ?) & Hm & Hs & _) Hk Hv -> Hlt. apply Hm in Hk.
  destruct (snap_set_spec _ _ _ _ Hh Hk Hv) as [Hok Hmap]. cbv zeta. split.
  - unfold vec_inv. cbn. by split_and!.
  - unfold vec_abs, abs_set_head. cbn. f_equal. exact Hmap.
Qed.

Lemma head_stake st k pos :
  vec_inv st → bls_mapping st !! k = Some pos →
  ∃ old, stake_amount (vt_head st) !! pos = Some old ∧ abs_head (vec_abs st) !! k = Some old ∧ is_u256 old ∧
    old <= head_total_stake st.
Proof using Type.
  intros ((Hh & _) & _ & (Ht & _) & Hm & _) Hk. apply Hm in Hk. pose proof Hh as (_ & Hlen & _ & Hu).
  destruct (lookup_lt_is_Some_2 (stake_amount (vt_head st)) pos) as [old Hold].
  { apply lookup_lt_Some in Hk. lia. }
  exists old. split_and!; [done|simpl; by rewrite (snap_at _ _ _ Hh Hk)|by eapply Forall_lookup_1|].
  rewrite Ht. eapply sum_Z_lookup_le; [|done]. eapply Forall_impl; [done|]. intros x [? ?]. done.
Qed.

Lemma head_unmapped st k : vec_inv st → bls_mapping st !! k = None ↔ abs_head (vec_abs st) !! k = None.
Proof using Type.
  intros ((Hh & _) & _ & _ & Hm & _). simpl. rewrite snap_none by done. rewrite list_elem_of_lookup, eq_None_not_Some.
  unfold is_Some. by setoid_rewrite Hm.
Qed.

(** ** The operations, exactly

    [vec_spec] is the table as a map: what each operation does to it, when it is
    refused and when it panics. *)

Definition vec_spec (cap : nat) (a : AbsTable K1) (o : op (K := K1) (A := K2)) : outcome StakeTableError (AbsTable K1) :=
  let set k v := if decide (map_total (<[k := v]> (abs_head a)) < u256_modulus)
                 then Ok (abs_set_head a (<[k := v]> (abs_head a))) else Panic in
  match o with
  | OpRegister k v _ => if decide (is_Some (abs_head a !! k)) then Err ExistingKey else set k v
  | OpUpdate k d negative =>
      match abs_head a !! k with
      | None => Err KeyNotFound
      | Some old =>
          if negative && (old <? d) then Err InsufficientFund else set k (new_stake old d negative)
      end
  | OpSetValue k v => if decide (is_Some (abs_head a !! k)) then set k v else Err KeyNotFound
  | OpAdvance => if decide (size (abs_head a) <= cap)%nat then Ok (abs_advance a) else Panic
  end.

(** It is the map of the contract, with a limit on the size of a snapshot only. *)
Definition vec_limits (cap : nat) : Limits :=
  {| lim_slots := None; lim_overflow_reported := false; lim_snapshot := Some cap |}.

Lemma vec_spec_limits cap a o : vec_spec cap a o = fst <$> table_spec (vec_limits cap) a o.
Proof using Type.
  destruct o as [k v aux|k d n|k v|]; simpl.
  - by repeat case_decide.
  - destruct (abs_head a !! k); [|done]. destruct (n && _); [done|]. by case_decide.
  - destruct (abs_head a !! k); simpl; by repeat case_decide.
  - case_decide; [by rewrite bool_decide_true|by rewrite bool_decide_false].
Qed.

Lemma vec_totals st : vec_inv st →
  head_total_stake st = map_total (abs_head (vec_abs st)) ∧ is_u256 (head_total_stake st).
Proof using Type.
  intros ((Hh & _) & _ & (Ht & _) & _ & _ & Hlt). simpl. rewrite snap_total by done. rewrite Ht in *. split; [done|].
  split; [|done]. apply sum_Z_nonneg. destruct Hh as (_ & _ & _ & Hu). eapply Forall_impl; [done|]. by intros x [? ?].
Qed.

(** Writing the stake of a key: what [update] and [set_value] do at the end. *)
Lemma vec_write st k pos old v :
  vec_inv st → bls_mapping st !! k = Some pos → stake_amount (vt_head st) !! pos = Some old → is_u256 v →
  head_total_stake st - old + v < u256_modulus →
  let st' := set_stakes st (<[pos := v]> (stake_amount (vt_head st))) (head_total_stake st - old + v) in
  index_set (E := StakeTableError) (stake_amount (vt_head st)) pos v = Ok (<[pos := v]> (stake_amount (vt_head st))) ∧
  vec_inv st' ∧ capacity st' = capacity st ∧
  vec_abs st' = abs_set_head (vec_abs st) (<[k := v]> (abs_head (vec_abs st))).
Proof using Type.
  intros Hi Hk Hold Hv Hlt. cbv zeta.
  destruct (vec_set_inv st pos k v (head_total_stake st - old + v) Hi Hk Hv) as [Hi' Ha].
  { rewrite (sum_Z_insert _ _ _ _ Hold). destruct Hi as (_ & _ & (-> & _) & _). done. }
  { done. }
  split_and!; [|done..]. unfold index_set. rewrite decide_True; [done|]. by eapply lookup_lt_Some.
Qed.

Lemma vec_register_exact st k v aux :
  vec_inv st → is_u256 v →
  vec_abs <$> vec_register st k v aux = vec_spec (capacity st) (vec_abs st) (OpRegister k v aux) ∧
  ∀ st', vec_register st k v aux = Ok st' → vec_inv st' ∧ capacity st' = capacity st.
Proof using Type.
  intros Hi Hv. unfold vec_register, vec_spec. pose proof (head_unmapped st k Hi) as Hnone.
  pose proof (vec_totals st Hi) as [Ht _]. destruct (bls_mapping st !! k) as [pos|] eqn:Hk.
  { rewrite decide_True; [done|]. apply not_eq_None_Some. by rewrite <-Hnone. }
  assert (abs_head (vec_abs st) !! k = None) as Habs by by apply Hnone.
  rewrite decide_False by (rewrite Habs; by intros [? ?]). rewrite total_insert_new by done. rewrite <-Ht.
  unfold u256_add, u256_checked_add. case_decide; mon; [|done].
  pose proof Hi as ((Hh & He & Hl) & (? & ?) & (Ht' & ? & ?) & Hm & Hs & _).
  destruct (snap_push_spec (vt_head st) k aux v Hh) as [Hok Hmap]; [by apply snap_none|done|]. split.
  - simpl. f_equal. unfold vec_abs, abs_set_head. cbn. f_equal. exact Hmap.
  - intros st' [= <-]. split; [|done]. unfold vec_inv. cbn. split_and!; try done.
    + etrans; [done|]. by apply prefix_app_r.
    + rewrite sum_Z_app, Ht'. simpl. lia.
    + intros k' p. rewrite lookup_snoc_Some, <-Hs. rewrite lookup_insert_Some, Hm. split.
      * intros [[<- <-]|[? Hp]]; [by right|left; split; [|done]]. rewrite Hs. by eapply lookup_lt_Some.
      * intros [[? Hp]|[<- <-]]; [right; split; [|done]|by left]. intros <-. apply Hm in Hp. congruence.
    + rewrite map_size_insert_None by done. rewrite length_app, Hs. simpl. lia.
Qed.

(** A panicking write of the total of the head. *)
Lemma head_total_after st k old v :
  vec_inv st → abs_head (vec_abs st) !! k = Some old →
  map_total (<[k := v]> (abs_head (vec_abs st))) = head_total_stake st - old + v.
Proof using Type. intros Hi Hold. rewrite (total_insert _ _ _ _ Hold). pose proof (vec_totals st Hi) as [-> _]. done. Qed.

Lemma vec_update_exact st k d negative :
  vec_inv st → is_u256 d →
  (vec_abs ∘ fst <$> vec_update st k d negative) = vec_spec (capacity st) (vec_abs st) (OpUpdate k d negative) ∧
  ∀ st' v, vec_update st k d negative = Ok (st', v) →
    vec_inv st' ∧ capacity st' = capacity st ∧ abs_head (vec_abs st') !! k = Some v.
Proof using Type.
  intros Hi Hd. unfold vec_update, lookup_pos, vec_spec. pose proof (head_unmapped st k Hi) as Hnone.
  pose proof (vec_totals st Hi) as [_ Htot]. destruct (bls_mapping st !! k) as [pos|] eqn:Hk; [|by rewrite (proj1 Hnone eq_refl)].
  destruct (head_stake st k pos Hi Hk) as (old & Hold & Habs & Hu & Hle). rewrite Habs.
  cbn [ok_or]. mon. rewrite (index_Some _ _ _ Hold). mon. unfold is_u256 in *.
  pose proof (vec_write st k pos old (new_stake old d negative) Hi Hk Hold) as Hw.
  pose proof (head_total_after st k old (new_stake old d negative) Hi Habs) as Hafter.
  cbv zeta. rewrite Hafter. unfold u256_sub, u256_add, u256_checked_sub, u256_checked_add, new_stake, is_u256 in *.
  destruct negative; cbn [andb].
  - destruct (Z.ltb_spec old d); [by rewrite (proj2 (Z.leb_gt _ _)) by lia|].
    rewrite (proj2 (Z.leb_le _ _)) by lia. rewrite !decide_True by lia. cbn [unwrap ensure]. do 3 mon.
    destruct Hw as (Hset & Hi' & Hc & Ha); [lia..|]. rewrite Hset. mon.
    replace (head_total_stake st - d) with (head_total_stake st - old + (old - d)) by lia.
    split; [exact (f_equal Ok Ha)|]. intros st' v [= <- <-]. split_and!; [done..|]. rewrite Ha. apply lookup_insert_eq.
  - destruct (decide (head_total_stake st - old + (old + d) < u256_modulus)).
    + rewrite !decide_True by lia. cbn [unwrap]. do 3 mon. destruct Hw as (Hset & Hi' & Hc & Ha); [lia..|]. rewrite Hset. mon.
      replace (head_total_stake st + d) with (head_total_stake st - old + (old + d)) by lia.
      split; [exact (f_equal Ok Ha)|]. intros st' v [= <- <-]. split_and!; [done..|]. rewrite Ha. apply lookup_insert_eq.
    + by rewrite (decide_False (P := head_total_stake st + d < u256_modulus)) by lia.
Qed.

Lemma vec_set_value_exact st k v :
  vec_inv st → is_u256 v →
  (vec_abs ∘ fst <$> vec_set_value st k v) = vec_spec (capacity st) (vec_abs st) (OpSetValue k v) ∧
  ∀ st' old, vec_set_value st k v = Ok (st', old) →
    vec_inv st' ∧ capacity st' = capacity st ∧ abs_head (vec_abs st) !! k = Some old.
Proof using Type.
  intros Hi Hv. unfold vec_set_value, vec_spec. pose proof (head_unmapped st k Hi) as Hnone.
  pose proof (vec_totals st Hi) as [_ Htot]. destruct (bls_mapping st !! k) as [pos|] eqn:Hk.
  2: { rewrite (proj1 Hnone eq_refl), decide_False by (by intros [? ?]). done. }
  destruct (head_stake st k pos Hi Hk) as (old & Hold & Habs & Hu & Hle). rewrite Habs, decide_True by eauto.
  rewrite (index_Some _ _ _ Hold). mon. pose proof (vec_write st k pos old v Hi Hk Hold Hv) as Hw.
  cbv zeta. rewrite (head_total_after st k old v Hi Habs).
  unfold index_set, u256_sub, u256_add, u256_checked_sub, u256_checked_add, is_u256 in *.
  rewrite (decide_True (P := (pos < _)%nat)) by (by eapply lookup_lt_Some). mon.
  rewrite (decide_True (P := old <= _)) by done. cbn [unwrap]. mon.
  destruct (decide (head_total_stake st - old + v < u256_modulus)); cbn [unwrap]; mon; [|done].
  destruct Hw as (_ & Hi' & Hc & Ha); [done|]. split; [exact (f_equal Ok Ha)|]. by intros st' o [= <- <-].
Qed.

(** The key keeps its place and has no stake. *)
Lemma deregister_exact st k :
  vec_inv st →
  vec_abs <$> deregister st k = vec_spec (capacity st) (vec_abs st) (OpSetValue k 0) ∧
  ∀ st', deregister st k = Ok st' → vec_inv st' ∧ capacity st' = capacity st ∧ vec_contains_key st' k = true.
Proof using Type.
  intros Hi. unfold deregister, vec_spec. pose proof (head_unmapped st k Hi) as Hnone.
  pose proof (vec_totals st Hi) as [_ Htot]. destruct (bls_mapping st !! k) as [pos|] eqn:Hk.
  2: { rewrite (proj1 Hnone eq_refl), decide_False by (by intros [? ?]). done. }
  destruct (head_stake st k pos Hi Hk) as (old & Hold & Habs & Hu & Hle). rewrite Habs, decide_True by eauto.
  rewrite (index_Some _ _ _ Hold). mon.
  cbv zeta. rewrite (head_total_after st k old 0 Hi Habs). unfold u256_sub, u256_checked_sub, is_u256 in *.
  rewrite !decide_True by lia. cbn [unwrap]. mon.
  destruct (vec_write st k pos old 0 Hi Hk Hold) as (Hset & Hi' & Hc & Ha); [split; lia|lia|]. rewrite Hset. mon.
  replace (head_total_stake st - old) with (head_total_stake st - old + 0) by lia.
  split; [exact (f_equal Ok Ha)|]. intros st' [= <-]. split_and!; [done..|]. unfold vec_contains_key. simpl. rewrite Hk. done.
Qed.

Lemma snap_size s : snap_ok s → size (snap_map s) = length (bls_keys s).
Proof using Type.
  intros (Hnd & Hlen & _). unfold snap_map. rewrite map_size_list_to_map by (by rewrite fst_zip by lia).
  rewrite length_zip_with. lia.
Qed.

Lemma vec_advance_exact st :
  vec_inv st → (∀ l, is_Some (evaluate l)) →
  vec_abs <$> vec_advance st = vec_spec (capacity st) (vec_abs st) OpAdvance.
Proof using Type.
  intros ((Hh & _) & _) Hev. unfold vec_advance, compute_head_comm, vec_spec. simpl. rewrite snap_size by done.
  case_decide; [by rewrite decide_False by lia|]. rewrite decide_True by lia. cbv zeta.
  repeat (match goal with |- context [evaluate ?l] => destruct (Hev l) as [? ->] end; cbn [unwrap]; mon). done.
Qed.

Lemma vec_advance_inv st st' : vec_inv st → vec_advance st = Ok st' → vec_inv st' ∧ capacity st' = capacity st ∧
  vec_abs st' = abs_advance (vec_abs st).
Proof using Type.
  intros ((? & ? & ?) & (? & ?) & (? & ? & ?) & ? & ? & ?) Ha. unfold vec_advance in Ha. inv_ok Ha.
  split; [|done]. unfold vec_inv. cbn. by split_and!.
Qed.

Lemma vec_version_spec st ver :
  vec_inv st →
  match vec_version st ver with
  | Ok s => snap_ok s ∧ bls_keys s `prefix_of` bls_keys (vt_head st) ∧ abs_version (vec_abs st) ver = Some (snap_map s)
  | Err e => e = SnapshotUnsupported ∧ abs_version (vec_abs st) ver = None
  | Panic => False
  end.
Proof using Type.
  intros ((? & ? & ?) & (? & ?) & _). destruct ver; simpl; split_and?; try done. by etrans.
Qed.

Lemma vec_lookup_spec st ver k :
  vec_inv st →
  vec_lookup st ver k =
    match abs_version (vec_abs st) ver with
    | None => Err SnapshotUnsupported
    | Some m => ok_or (m !! k) KeyNotFound
    end.
Proof using Type.
  intros Hi. unfold vec_lookup. pose proof (vec_version_spec st ver Hi) as Hv.
  destruct (vec_version st ver) as [s|e|]; mon; [|by destruct Hv as [-> ->]|done].
  destruct Hv as (Hok & Hpre & ->). unfold lookup_pos. destruct Hi as ((Hh & _) & _ & _ & Hm & _).
  destruct (bls_mapping st !! k) as [pos|] eqn:Hk; cbn [ok_or]; mon.
  - apply Hm in Hk. case_decide as Hlen.
    + rewrite (proj2 (snap_none s k Hok)); [done|]. intros [p Hp]%list_elem_of_lookup.
      pose proof (prefix_lookup_Some _ _ _ _ Hp Hpre) as Hp'. destruct Hh as (Hnd & _).
      rewrite (NoDup_lookup _ _ _ _ Hnd Hk Hp') in Hlen. apply lookup_lt_Some in Hp. lia.
    + destruct (lookup_lt_is_Some_2 (bls_keys s) pos) as [k' Hk']; [lia|].
      pose proof (prefix_lookup_Some _ _ _ _ Hk' Hpre). simplify_eq. rewrite (snap_at s k pos) by done.
      unfold index. destruct (stake_amount s !! pos) eqn:Hs; [done|]. destruct Hok as (_ & Hl & _).
      apply lookup_ge_None in Hs. lia.
  - rewrite (proj2 (snap_none s k Hok)); [done|]. intros [p Hp]%list_elem_of_lookup.
    pose proof (prefix_lookup_Some _ _ _ _ Hp Hpre) as Hp'. apply Hm in Hp'. congruence.
Qed.

Lemma vec_total_spec st ver :
  vec_inv st → vec_total_stake st ver = ok_or (map_total <$> abs_version (vec_abs st) ver) SnapshotUnsupported.
Proof using Type.
  intros ((? & ? & ?) & _ & (Ht & Ht1 & Ht2) & _).
  destruct ver; simpl; rewrite ?snap_total by done; congruence.
Qed.

(** The iterator gives the keys of a snapshot with their stakes, in the order of
    registration. *)
Lemma vec_iter_spec st ver :
  vec_inv st →
  match vec_try_iter st ver with
  | Ok l => ∃ s, vec_version st ver = Ok s ∧ (fun '(k, v, _) => (k, v)) <$> l = zip (bls_keys s) (stake_amount s)
  | Err e => e = SnapshotUnsupported
  | Panic => False
  end.
Proof using Type.
  intros Hi. unfold vec_try_iter. pose proof (vec_version_spec st ver Hi) as Hv.
  destruct (vec_version st ver) as [s|e|]; mon; [|by destruct Hv|done]. destruct Hv as ((_ & Hl & Hl' & _) & _).
  cut (∀ n m, (m + n = length (bls_keys s))%nat → ∃ l,
    foldr (fun i rest => key ← index (bls_keys s) i; amount ← index (stake_amount s) i; aux ← index (schnorr_keys s) i;
      entries ← rest; Ok ((key, amount, aux) :: entries)) (Ok (E := StakeTableError) []) (seq m n) = Ok l ∧
    (fun '(k, v, _) => (k, v)) <$> l = zip (drop m (bls_keys s)) (drop m (stake_amount s))).
  { intros Hc. destruct (Hc (length (bls_keys s)) 0%nat) as (l & -> & Hz); [lia|]. eauto. }
  induction n as [|n IH]; intros m Hm; simpl.
  - exists []. split; [done|]. by rewrite drop_ge by lia.
  - destruct (IH (S m)) as (l & -> & Hz); [lia|].
    destruct (lookup_lt_is_Some_2 (bls_keys s) m) as [k Hk]; [lia|].
    destruct (lookup_lt_is_Some_2 (stake_amount s) m) as [v Hv]; [lia|].
    destruct (lookup_lt_is_Some_2 (schnorr_keys s) m) as [a Ha]; [lia|].
    rewrite (index_Some _ _ _ Hk), (index_Some _ _ _ Hv), (index_Some _ _ _ Ha). mon. eexists. split; [done|].
    rewrite (drop_S _ _ _ Hk), (drop_S _ _ _ Hv). csimpl. by rewrite Hz.
Qed.

#[global] Instance vec_laws : StakeTableLaws VecStakeTable.
Proof using Type.
  refine {| sc_inv := vec_inv; sc_abs := vec_abs |}; cbn [sc_register sc_update sc_set_value sc_advance
    sc_lookup sc_total_stake vec_scheme].
  - intros t k v aux t' Hi Hv Hr. destruct (vec_register_exact t k v aux Hi Hv) as [Hs Hi']. rewrite Hr in Hs. simpl in Hs.
    case_decide as Hk; [done|]. case_decide; [|done]. apply Ok_inj in Hs. split_and!; [by apply eq_None_not_Some|by eapply Hi'|done].
  - intros t k v aux Hi Hk. unfold vec_register. pose proof (head_unmapped t k Hi) as Hn.
    destruct (bls_mapping t !! k); [done|]. rewrite (proj1 Hn eq_refl) in Hk. by destruct Hk.
  - intros t k d neg t' v Hi Hd Hu. destruct (vec_update_exact t k d neg Hi Hd) as [Hs Hi']. rewrite Hu in Hs. simpl in Hs.
    destruct (Hi' _ _ Hu) as (Hinv & _ & Hv). simpl in Hv. destruct (snap_map (vt_head t) !! k) as [old|] eqn:Hold; [|done].
    destruct (neg && (old <? d)); [done|]. case_decide; [|done]. apply Ok_inj in Hs. pose proof (f_equal abs_head Hs) as Hs1. simpl in Hs1.
    rewrite Hs1, lookup_insert_eq in Hv. injection Hv as <-. exists old. split_and!; [done..| |done|].
    + destruct Hinv as ((Hok & _) & _). pose proof (proj1 (snap_lookup _ k (new_stake old d neg) Hok)) as Hx.
      rewrite Hs1, lookup_insert_eq in Hx. destruct Hx as (p & _ & Hp); [done|]. destruct Hok as (_ & _ & _ & Hall).
      by eapply Forall_lookup_1.
    + exact Hs.
  - intros t k d neg Hi Hk. unfold vec_update, lookup_pos. by rewrite (proj2 (head_unmapped t k Hi) Hk).
  - intros t k d old Hi Hk Hlt. unfold vec_update, lookup_pos. pose proof (head_unmapped t k Hi) as Hn.
    destruct (bls_mapping t !! k) as [pos|] eqn:Hm; [|rewrite (proj1 Hn eq_refl) in Hk; done].
    destruct (head_stake t k pos Hi Hm) as (old' & Hold & Habs & _). simplify_eq. cbn [ok_or]. mon.
    rewrite (index_Some _ _ _ Hold). mon. by rewrite (proj2 (Z.leb_gt _ _)) by lia.
  - intros t k v t' old Hi Hv Hu. destruct (vec_set_value_exact t k v Hi Hv) as [Hs Hi']. rewrite Hu in Hs. simpl in Hs.
    destruct (Hi' _ _ Hu) as (Hinv & _ & Hold). split; [done|]. split; [done|]. case_decide; [|done].
    case_decide; [|done]. by apply Ok_inj in Hs.
  - intros t k v Hi Hk. unfold vec_set_value. by rewrite (proj2 (head_unmapped t k Hi) Hk).
  - intros t t' Hi Ha. by apply vec_advance_inv in Ha as (? & _ & ?).
  - intros. by apply vec_lookup_spec.
  - intros. by apply vec_total_spec.
Defined.
End VecTable.
Arguments VecStakeTable : clear implicits.
Arguments VecStakeTable K1 K2 G {_ _}.

(** ** Runs *)

Section Runs.
Context {K1 K2 G : Type} `{!EqDecision K1, !Countable K1, !CommitCtx K1 K2 G}.

(** The abstract table after a sequence of operations; a refused one changes
    nothing, a panic ends the run. *)
Fixpoint spec_run (cap : nat) (a : AbsTable K1) (ops : list (op (K := K1) (A := K2))) : option (AbsTable K1) :=
  match ops with
  | [] => Some a
  | o :: ops =>
      match vec_spec cap a o with
      | Ok a' => spec_run cap a' ops
      | Err _ => spec_run cap a ops
      | Panic => None
      end
  end.

(** When the hash does not fail, a step is the step of [vec_spec], errors and
    panics included. *)
Lemma vec_step_exact (st : VecStakeTable K1 K2 G) o :
  vec_inv st → op_args_ok o → (∀ l : list G, is_Some (evaluate l)) →
  vec_abs <$> run_op st o = vec_spec (capacity st) (vec_abs st) o ∧
  ∀ st', run_op st o = Ok st' → vec_inv st' ∧ capacity st' = capacity st.
Proof using Type.
  intros Hi Ho Hev. destruct o as [k v aux|k d n|k v|]; cbn [run_op sc_register sc_update sc_set_value sc_advance vec_scheme].
  - by apply vec_register_exact.
  - destruct (vec_update_exact st k d n Hi Ho) as [Hs Hi']. rewrite <-Hs.
    destruct (vec_update st k d n) as [[t u]|e|]; simpl; (split; [done|]); [intros ? [= <-]|done..].
    by destruct (Hi' t u) as (? & ? & _).
  - destruct (vec_set_value_exact st k v Hi Ho) as [Hs Hi']. rewrite <-Hs.
    destruct (vec_set_value st k v) as [[t u]|e|]; simpl; (split; [done|]); [intros ? [= <-]|done..].
    by destruct (Hi' t u) as (? & ? & _).
  - split; [by apply vec_advance_exact|]. by intros st' (? & ? & _)%vec_advance_inv.
Qed.

Lemma vec_run_exact (st : VecStakeTable K1 K2 G) ops :
  vec_inv st → Forall op_args_ok ops → (∀ l : list G, is_Some (evaluate l)) →
  vec_abs <$> run st ops = spec_run (capacity st) (vec_abs st) ops ∧ ∀ st', run st ops = Some st' → vec_inv st'.
Proof using Type.
  intros Hi Hops Hev. revert st Hi. induction Hops as [|o ops Ho Hops IH]; intros st Hi; cbn [run spec_run].
  { split; [done|]. by intros st' [= <-]. }
  destruct (vec_step_exact st o Hi Ho Hev) as [<- Hi']. destruct (run_op st o) as [t|e|]; cbn [fmap outcome_fmap].
  - destruct (Hi' t) as [Ht Hc]; [done|]. rewrite <-Hc. by apply IH.
  - by apply IH.
  - done.
Qed.

(** The vector stake table is the map.  As long as the hash does not fail, every
    sequence of [register], [update], [set_value] and [advance] calls on a new table
    runs exactly as on the abstract table: each call succeeds, is refused and panics
    in the same cases (a total over 256 bits, and an [advance] with more keys than
    the capacity), and afterwards [lookup] and [total_stake] of each version read its
    three maps. *)
Theorem vec_table_refines_map n (t0 : VecStakeTable K1 K2 G) ops :
  (∀ l : list G, is_Some (evaluate l)) → vec_new n = Ok t0 → Forall op_args_ok ops →
  match run t0 ops with
  | Some st => ∃ a, spec_run n abs_empty ops = Some a ∧
      (∀ ver k, vec_lookup st ver k =
         match abs_version a ver with
         | None => Err SnapshotUnsupported
         | Some m => ok_or (m !! k) KeyNotFound
         end) ∧
      (∀ ver, vec_total_stake st ver = ok_or (map_total <$> abs_version a ver) SnapshotUnsupported)
  | None => spec_run n abs_empty ops = None
  end.
Proof using Type.
  intros Hev Hnew Hops. destruct (vec_new_inv n t0 Hnew) as [Hi Ha].
  assert (capacity t0 = n) as Hc by (unfold vec_new in Hnew; inv_ok Hnew; done).
  destruct (vec_run_exact t0 ops Hi Hops Hev) as [Hs Hi']. rewrite Ha, Hc in Hs.
  destruct (run t0 ops) as [st|]; [|done]. exists (vec_abs st). split; [done|]. specialize (Hi' st eq_refl).
  split; intros; [by apply vec_lookup_spec|by apply vec_total_spec].
Qed.

(** *** Sampling *)

Lemma sample_loop_returns fuel pos stake x : sample_loop fuel pos stake = Some x → x <= stake.
Proof using Type.
  revert pos. induction fuel as [|fuel IH]; intros pos; simpl; [done|].
  destruct (Z.ltb_spec stake pos); [apply IH|]. intros [= <-]. done.
Qed.

Lemma sample_loop_ends fuel pos stake : 0 < stake → 0 <= pos → (Z.to_nat pos < fuel)%nat → is_Some (sample_loop fuel pos stake).
Proof using Type.
  intros Hs. revert pos. induction fuel as [|fuel IH]; intros pos Hp Hf; [lia|]. simpl.
  destruct (Z.ltb_spec stake pos); [|eauto]. apply IH; lia.
Qed.

Lemma sample_loop_diverges fuel pos : 0 < pos → sample_loop fuel pos 0 = None.
Proof using Type.
  intros Hp. induction fuel as [|fuel IH]; simpl; [done|]. rewrite (proj2 (Z.ltb_lt _ _) Hp). by rewrite Z.sub_0_r.
Qed.

(** Sampling ignores the stakes.  Whatever the random number, [sample] of a table
    with stake returns the first key of the [LastEpochStart] snapshot, since its loop
    never moves to the next key; and when the first key has no stake, the loop does
    not end unless the random number is a multiple of the total. *)
Theorem vec_sample_ignores_stake (st : VecStakeTable K1 K2 G) :
  vec_inv st → 0 < last_epoch_start_total_stake st →
  ∃ k0 s0, bls_keys (vt_last_epoch_start st) !! 0%nat = Some k0 ∧ stake_amount (vt_last_epoch_start st) !! 0%nat = Some s0 ∧
    ∀ r, let pos := r mod last_epoch_start_total_stake st in
      if decide (s0 = 0 ∧ pos ≠ 0) then ∀ fuel, vec_sample fuel st r = None
      else ∀ fuel, (Z.to_nat pos < fuel)%nat → vec_sample fuel st r = Some (Ok (k0, s0)).
Proof using Type.
  intros ((_ & _ & (_ & Hlen & _ & Hu)) & _ & (_ & _ & Ht) & _) Hpos.
  destruct (vt_last_epoch_start st) as [keys aux stakes] eqn:Hs. simpl in *.
  destruct stakes as [|s0 stakes]; [simpl in Ht; lia|]. destruct keys as [|k0 keys]; [done|].
  exists k0, s0. split_and!; [done..|]. intros r. set (pos := r mod last_epoch_start_total_stake st). unfold vec_sample. rewrite Hs. simpl.
  rewrite (proj2 (Z.eqb_neq _ _)) by lia. fold pos.
  assert (0 <= pos) by (apply Z.mod_pos_bound; done). apply Forall_cons in Hu as [[Hs0 _] _].
  case_decide as Hd.
  - destruct Hd as [-> Hne]. intros fuel. rewrite sample_loop_diverges; [done|lia].
  - intros fuel Hf. cut (is_Some (sample_loop fuel pos s0)); [intros [x ->]; done|].
    destruct (decide (s0 = 0)) as [->|]; [|apply sample_loop_ends; lia].
    assert (pos = 0) as -> by (destruct (decide (pos = 0)); [done|by destruct Hd]).
    destruct fuel; [lia|]. simpl. eauto.
Qed.
End Runs.

(** ** Commitments *)

(** A hash without collisions, keys that are written with a fixed number of field
    elements, and no key that is written as the padding. *)
Class CommitLaws (K1 K2 G : Type) `{!CommitCtx K1 K2 G} := {
  evaluate_inj : ∀ (l1 l2 : list G) d, evaluate l1 = Some d → evaluate l2 = Some d → l1 = l2;
  K1_length : ∀ k, length (K1_to_fields k) = K1_SIZE;
  K1_inj : ∀ k1 k2, K1_to_fields k1 = K1_to_fields k2 → k1 = k2;
  K1_not_padding : ∀ k, K1_to_fields k ≠ replicate K1_SIZE G_default;
  K2_length : ∀ k, length (K2_to_fields k) = K2_SIZE;
  K2_inj : ∀ k1 k2, K2_to_fields k1 = K2_to_fields k2 → k1 = k2;
  K_sizes : (0 < K1_SIZE)%nat ∧ (0 < K2_SIZE)%nat;
}.

Section Binding.
Context {K1 K2 G : Type} `{!EqDecision K1, !Countable K1, !CommitCtx K1 K2 G, !CommitLaws K1 K2 G}.

Lemma join_chunks_inj {A} n (ls1 ls2 : list (list A)) :
  (0 < n)%nat → Forall (fun l => length l = n) ls1 → Forall (fun l => length l = n) ls2 →
  mjoin ls1 = mjoin ls2 → ls1 = ls2.
Proof using Type.
  intros Hn H1. revert ls2. induction H1 as [|l1 ls1 Hl1 H1 IH]; intros ls2 H2 Heq;
    (destruct H2 as [|l2 ls2 Hl2 H2]; [try done|]); simpl in Heq.
  - destruct l2; simpl in *; [lia|done].
  - destruct l1; simpl in *; [lia|done].
  - apply app_inj_1 in Heq as [-> Heq]; [|congruence]. f_equal. by apply IH.
Qed.

Lemma padded_inj {A B} (f : A → B) (z : B) (l1 l2 : list A) n1 n2 :
  (∀ x y, f x = f y → x = y) → (∀ x, f x ≠ z) →
  map f l1 ++ replicate n1 z = map f l2 ++ replicate n2 z → l1 = l2.
Proof using Type.
  intros Hf Hz. revert l2. induction l1 as [|x l1 IH]; intros [|y l2]; simpl; intros Heq; [done|..].
  - destruct n1; simpl in Heq; [done|]. injection Heq as He _. by destruct (Hz y).
  - destruct n2; simpl in Heq; [done|]. injection Heq as He _. by destruct (Hz x).
  - injection Heq as He Heq. rewrite (Hf _ _ He). f_equal. by apply IH.
Qed.

Lemma join_replicate {A} n m (x : A) : mjoin (replicate n (replicate m x)) = replicate (n * m) x.
Proof using Type. induction n; simpl; [done|]. by rewrite replicate_add, IHn. Qed.

(** The preimage of the commitment of the keys, in chunks of one key. *)
Lemma bls_preimage cap (keys : list K1) :
  (length keys <= cap)%nat →
  resize (mjoin (map K1_to_fields keys)) (cap * K1_SIZE) G_default =
  mjoin (map K1_to_fields keys ++ replicate (cap - length keys) (replicate K1_SIZE G_default)).
Proof using Type*.
  intros Hle. assert (length (mjoin (map K1_to_fields keys)) = length keys * K1_SIZE)%nat as Hl.
  { rewrite (join_length _ K1_SIZE), length_map; [done|]. apply Forall_map, Forall_true. intros k. apply K1_length. }
  unfold resize. rewrite Hl, take_ge by (rewrite Hl; nia). rewrite join_app, join_replicate. do 2 f_equal. nia.
Qed.

Lemma head_comm_preimages (st : VecStakeTable K1 K2 G) c :
  compute_head_comm st = Ok c →
  (length (bls_keys (vt_head st)) <= capacity st)%nat ∧
  evaluate (mjoin (map K1_to_fields (bls_keys (vt_head st)) ++
    replicate (capacity st - length (bls_keys (vt_head st))) (replicate K1_SIZE G_default))) = Some c.1.1 ∧
  evaluate (mjoin (map K2_to_fields (schnorr_keys (vt_head st) ++
    replicate (capacity st - length (bls_keys (vt_head st))) K2_default))) = Some c.1.2 ∧
  evaluate (resize (map u256_to_G (stake_amount (vt_head st))) (capacity st) G_default) = Some c.2.
Proof using Type*.
  unfold compute_head_comm. case_decide; [done|]. cbv zeta. rewrite bls_preimage by lia.
  destruct (evaluate (mjoin (map K1_to_fields _ ++ _))); [|done]. cbn [unwrap]. mon.
  destruct (evaluate (mjoin (map K2_to_fields _))); [|done]. cbn [unwrap]. mon.
  destruct (evaluate _); [|done]. intros [= <-]. split_and!; [lia|done..].
Qed.

(** The commitment of a snapshot fixes it.  With a hash that has no collisions,
    two tables of one capacity that finalize snapshots with equal commitments have
    finalized the same keys with the same auxiliary keys in the same order, and the
    same stakes modulo the order of the field. *)
Theorem vec_commitment_binds (st1 st2 st1' st2' : VecStakeTable K1 K2 G) c :
  vec_inv st1 → vec_inv st2 → capacity st1 = capacity st2 → vec_advance st1 = Ok st1' → vec_advance st2 = Ok st2' →
  vec_commitment st1' EpochStart = Ok c → vec_commitment st2' EpochStart = Ok c →
  bls_keys (vt_epoch_start st1') = bls_keys (vt_epoch_start st2') ∧
  schnorr_keys (vt_epoch_start st1') = schnorr_keys (vt_epoch_start st2') ∧
  map (u256_to_G (K1 := K1)) (stake_amount (vt_epoch_start st1')) = map u256_to_G (stake_amount (vt_epoch_start st2')).
Proof using Type*.
  intros ((Hk1 & _) & _) ((Hk2 & _) & _) Hcap H1 H2 C1 C2. unfold vec_advance in H1, H2. inv_ok H1. inv_ok H2. simpl in *.
  injection C1 as ->. injection C2 as ->. apply head_comm_preimages in E as (Hl1 & B1 & S1 & A1), E0 as (Hl2 & B2 & S2 & A2).
  pose proof (evaluate_inj _ _ _ B1 B2) as HB. pose proof (evaluate_inj _ _ _ S1 S2) as HS.
  pose proof (evaluate_inj _ _ _ A1 A2) as HA. pose proof K_sizes as [? ?].
  assert (∀ st : VecStakeTable K1 K2 G, Forall (fun l => length l = K1_SIZE) (map K1_to_fields (bls_keys (vt_head st)) ++
    replicate (capacity st - length (bls_keys (vt_head st))) (replicate K1_SIZE G_default))) as Hchunks.
  { intros st. apply Forall_app. split; [apply Forall_map, Forall_true; intros; apply K1_length|].
    apply Forall_replicate. apply length_replicate. }
  apply (join_chunks_inj K1_SIZE), padded_inj in HB; [|apply K1_inj|apply K1_not_padding|done|apply Hchunks..].
  apply (join_chunks_inj K2_SIZE) in HS; [|done|apply Forall_map, Forall_true; intros; apply K2_length..].
  destruct Hk1 as (_ & Hs1 & Hx1 & _), Hk2 as (_ & Hs2 & Hx2 & _). rewrite <-HB, <-Hcap in *. split_and!; [done|..].
  - assert (Inj (=) (=) (K2_to_fields (K1 := K1) (G := G))) by (intros ??; apply K2_inj).
    pose proof (inj (fmap (M := list) K2_to_fields) _ _ HS) as HS'. apply app_inj_1 in HS' as [? _]; [done|congruence].
  - unfold resize in HA. rewrite !take_ge in HA by (rewrite length_map; lia).
    apply app_inj_1 in HA as [? _]; [done|]. rewrite !length_map. congruence.
Qed.
End Binding.

(** ** The two tables *)

Section Agreement.
Context {K A F G : Type} `{!EqDecision K, !Countable K, !EqDecision F, !RescueCtx K F, !RescueLaws K F, !CommitCtx K A G}.

(** The Merkle table stores no auxiliary key. *)
Definition erase_aux (o : op (K := K) (A := A)) : op (K := K) (A := unit) :=
  match o with
  | OpRegister k v _ => OpRegister k v tt
  | OpUpdate k d n => OpUpdate k d n
  | OpSetValue k v => OpSetValue k v
  | OpAdvance => OpAdvance
  end.

Definition registers (o : op (K := K) (A := A)) : nat := match o with OpRegister _ _ _ => 1 | _ => 0 end.
Definition registrations (ops : list (op (K := K) (A := A))) : nat := sum_list_with registers ops.

Lemma fmap_outcome {E B C} (f : B → C) (x : outcome E B) y :
  f <$> x = y →
  match y with
  | Ok c => ∃ b, x = Ok b ∧ f b = c
  | Err e => x = Err e
  | Panic => x = Panic
  end.
Proof using Type. intros <-. destruct x; simpl; eauto. Qed.

(** One operation on both tables, when neither panics and the tree has room. *)
Definition agree_step (m : StakeTable K F) (v : VecStakeTable K A G) (o : op (K := K) (A := A)) : Prop :=
  (∃ m' v', run_op m (erase_aux o) = Ok m' ∧ run_op v o = Ok v' ∧ st_abs m' = vec_abs v' ∧ height m' = height m ∧
     (size (abs_head (vec_abs v')) <= size (abs_head (vec_abs v)) + registers o)%nat) ∨
  ∃ e, run_op m (erase_aux o) = Err e ∧ run_op v o = Err e.

Lemma register_agree (m : StakeTable K F) (v : VecStakeTable K A G) k x aux :
  st_inv m → vec_inv v → st_abs m = vec_abs v → is_u256 x → (size (mapping m) < 3 ^ height m)%nat →
  st_register m k x ≠ Panic → vec_register v k x aux ≠ Panic → agree_step m v (OpRegister k x aux).
Proof using RescueLaws0.
  intros Hm Hv Habs Ho Hroom Pm Pv. unfold agree_step. cbn [erase_aux run_op sc_register vec_scheme mt_scheme registers].
  pose proof (st_register_spec m k x Hm Ho) as Sm. destruct (vec_register_exact v k x aux Hv Ho) as [Sv%fmap_outcome _].
  cbn [vec_spec] in Sv. rewrite <-Habs in Sv. destruct (st_register m k x) as [m'|e|] eqn:Em; [left|right|done].
  - destruct Sm as (Hn & _ & Ha). rewrite decide_False in Sv by (rewrite Hn; by intros [? ?]).
    case_decide; [|done]. destruct Sv as (v' & Ev & Av). exists m', v'. split_and!; [done..|congruence| |].
    + unfold st_register in Em. inv_ok Em. done.
    + rewrite Av, <-Habs. simpl. rewrite map_size_insert. destruct (_ !! k); simpl; lia.
  - destruct Sm as [-> [Hn|Hfull]]; [|lia]. rewrite decide_True in Sv by done. by exists ExistingKey.
Qed.

(** What [update] and [set_value] agree on: the key has a stake and [x] is written. *)
Lemma write_agree (m m' : StakeTable K F) (v v' : VecStakeTable K A G) k x old :
  st_abs m = vec_abs v → abs_head (st_abs m) !! k = Some old →
  st_abs m' = abs_set_head (st_abs m) (<[k := x]> (abs_head (st_abs m))) →
  vec_abs v' = abs_set_head (st_abs m) (<[k := x]> (abs_head (st_abs m))) →
  st_abs m' = vec_abs v' ∧ (size (abs_head (vec_abs v')) <= size (abs_head (vec_abs v)) + 0)%nat.
Proof using Type.
  intros Habs Hk -> ->. split; [done|]. rewrite <-Habs. simpl. rewrite map_size_insert_Some by eauto. lia.
Qed.

Lemma update_agree (m : StakeTable K F) (v : VecStakeTable K A G) k d n :
  st_inv m → vec_inv v → st_abs m = vec_abs v → is_u256 d →
  st_update m k d n ≠ Panic → vec_update v k d n ≠ Panic → agree_step m v (OpUpdate k d n).
Proof using RescueLaws0.
  intros Hm Hv Habs Ho Pm Pv. unfold agree_step. cbn [erase_aux run_op sc_update vec_scheme mt_scheme registers].
  pose proof (st_update_spec m k d n Hm Ho) as Sm. destruct (vec_update_exact v k d n Hv Ho) as [Sv%fmap_outcome _].
  pose proof (vec_totals v Hv) as [Ht _]. cbn [vec_spec] in Sv. rewrite <-Habs in *.
  destruct (abs_head (st_abs m) !! k) as [old|] eqn:Hk.
  2: { right. exists KeyNotFound. by rewrite Sm, Sv. }
  assert (0 <= old <= head_total_stake v) as Hold.
  { pose proof (head_unmapped v k Hv) as Hn. rewrite <-Habs, Hk in Hn.
    destruct (bls_mapping v !! k) as [pos|] eqn:Hp; [|by destruct Hn as [Hn _]; specialize (Hn eq_refl)].
    destruct (head_stake v k pos Hv Hp) as (o' & _ & Ho' & [? _] & ?). rewrite <-Habs in Ho'. simplify_eq. lia. }
  cbv zeta in Sm. unfold is_u256 in Ho. destruct (n && (old <? d)) eqn:Hneg.
  { right. exists InsufficientFund. bool_facts. subst n. unfold new_stake in Sm. rewrite decide_True in Sm by lia. by rewrite Sm, Sv. }
  case_decide as Htot; [|by rewrite Sv in Pv]. destruct Sv as ([v' x] & Ev & Av). simpl in Av.
  rewrite (total_insert _ _ _ _ Hk) in Htot. rewrite <-Ht in Htot.
  rewrite decide_False in Sm by (unfold new_stake; destruct n; simpl in Hneg; bool_facts; lia).
  rewrite decide_False in Sm by lia. left.
  destruct (st_update m k d n) as [[m' y]|e|] eqn:Em; [|done..]. destruct Sm as (-> & _ & Am).
  destruct (write_agree m m' v v' k (new_stake old d n) old) as [? ?]; [done..|].
  exists m', v'. rewrite Ev. split_and!; [done..| |by rewrite Habs]. unfold st_update in Em. inv_ok Em. done.
Qed.

Lemma set_value_agree (m : StakeTable K F) (v : VecStakeTable K A G) k x :
  st_inv m → vec_inv v → st_abs m = vec_abs v → is_u256 x →
  st_set_value m k x ≠ Panic → vec_set_value v k x ≠ Panic → agree_step m v (OpSetValue k x).
Proof using RescueLaws0.
  intros Hm Hv Habs Ho Pm Pv. unfold agree_step. cbn [erase_aux run_op sc_set_value vec_scheme mt_scheme registers].
  pose proof (st_set_value_spec m k x Hm Ho) as Sm. destruct (vec_set_value_exact v k x Hv Ho) as [Sv%fmap_outcome _].
  cbn [vec_spec] in Sv. rewrite <-Habs in Sv. destruct (abs_head (st_abs m) !! k) as [old|] eqn:Hk.
  2: { right. exists KeyNotFound. rewrite decide_False in Sv by (by intros [? ?]). by rewrite Sm, Sv. }
  rewrite decide_True in Sv by eauto. case_decide; [|by rewrite Sv in Pv]. destruct Sv as ([v' y] & Ev & Av).
  destruct (st_set_value m k x) as [[m' z]|e|] eqn:Em; [|done..]. destruct Sm as (-> & _ & Am). left.
  destruct (write_agree m m' v v' k x old) as [? ?]; [done..|].
  exists m', v'. rewrite Ev. split_and!; [done..| |done]. unfold st_set_value in Em. inv_ok Em. done.
Qed.

Lemma advance_no_err (v : VecStakeTable K A G) e : vec_advance v ≠ Err e.
Proof using Type.
  unfold vec_advance, compute_head_comm. case_decide; [done|]. cbv zeta.
  by repeat destruct (evaluate _).
Qed.

Lemma step_agree (m : StakeTable K F) (v : VecStakeTable K A G) o :
  st_inv m → vec_inv v → st_abs m = vec_abs v → op_args_ok o → (size (mapping m) + registers o <= 3 ^ height m)%nat →
  run_op m (erase_aux o) ≠ Panic → run_op v o ≠ Panic → agree_step m v o.
Proof using RescueLaws0.
  intros Hm Hv Habs Ho Hroom Pm Pv. destruct o as [k x aux|k d n|k x|].
  - apply register_agree; try done. simpl in Hroom. lia.
  - apply update_agree; try done; intros E; [apply Pm|apply Pv]; simpl; by rewrite E.
  - apply set_value_agree; try done; intros E; [apply Pm|apply Pv]; simpl; by rewrite E.
  - left. simpl in Pv. destruct (vec_advance v) as [v'|e|] eqn:Ev; [|by apply advance_no_err in Ev|done].
    destruct (vec_advance_inv v v' Hv Ev) as (_ & _ & Ha). exists (advance m), v'.
    split_and!; [done|done| |done|rewrite Ha; simpl; lia]. rewrite Ha, <-Habs. by apply advance_spec.
Qed.

Lemma run_agree (m m' : StakeTable K F) (v v' : VecStakeTable K A G) ops :
  st_inv m → vec_inv v → st_abs m = vec_abs v → Forall op_args_ok ops →
  (size (abs_head (st_abs m)) + registrations ops <= 3 ^ height m)%nat →
  run m (erase_aux <$> ops) = Some m' → run v ops = Some v' → st_inv m' ∧ vec_inv v' ∧ st_abs m' = vec_abs v'.
Proof using RescueLaws0.
  intros Hm Hv Habs Hops. revert m v Hm Hv Habs. induction Hops as [|o ops Ho Hops IH]; intros m v Hm Hv Habs Hroom.
  { by intros [= <-] [= <-]. }
  unfold registrations in *. cbn [sum_list_with] in Hroom. rewrite fmap_cons. cbn [run]. intros Rm Rv.
  destruct (step_agree m v o) as [(m1 & v1 & Em & Ev & Ha & Hh & Hs)|(e & Em & Ev)]; [done..| | | | |].
  - rewrite mapping_size by done. lia.
  - intros E. by rewrite E in Rm.
  - intros E. by rewrite E in Rv.
  - rewrite Em in Rm. rewrite Ev in Rv.
    destruct (run_op_refines m m1 (erase_aux o)) as [Hm1 _]; [done|by destruct o|done|].
    destruct (run_op_refines v v1 o) as [Hv1 _]; [done..|].
    apply (IH m1 v1); try done. rewrite Ha, Hh. rewrite Habs in Hroom. lia.
  - rewrite Em in Rm. rewrite Ev in Rv. apply (IH m v); try done. lia.
Qed.

(** C38. The two stake tables agree.  When the same calls are made to a new Merkle
    table of height [h] and to a new vector table, at most [3 ^ h] of them
    registrations, and neither panics, then both accept and refuse the same calls:
    they hold the same three snapshots, and [lookup] and [total_stake] answer alike
    for every version and key. *)
Theorem stake_tables_agree h n t0 ops (m : StakeTable K F) (v : VecStakeTable K A G) :
  vec_new n = Ok t0 → Forall op_args_ok ops → (registrations ops <= 3 ^ h)%nat →
  run (StakeTable_new h) (erase_aux <$> ops) = Some m → run t0 ops = Some v →
  st_abs m = vec_abs v ∧
  (∀ ver k, st_lookup m ver k = vec_lookup v ver k) ∧ (∀ ver, total_stake m ver = vec_total_stake v ver).
Proof using RescueLaws0.
  intros Hnew Hops Hroom Hm Hv. destruct (vec_new_inv n t0 Hnew) as [Hi Ha]. destruct (st_new_inv (K := K) (F := F) h) as [Hi' Ha'].
  destruct (run_agree (StakeTable_new h) m t0 v ops) as (Im & Iv & Habs); [done|done|by rewrite Ha, Ha'|done| |done|done|].
  - rewrite Ha'. simpl. rewrite map_size_empty. simpl. lia.
  - split; [done|]. split.
    + intros ver k. by rewrite (st_lookup_spec m), vec_lookup_spec, Habs.
    + intros ver. by rewrite (total_stake_spec m), vec_total_spec, Habs.
Qed.
End Agreement.

(** ** Witnesses *)

Module VecDemo.
Import Demo.

(** A hash without collisions: a list of numbers is its own code. *)
#[global] Instance ctx : CommitCtx Z Z positive := {|
  evaluate l := Some (encode l);
  G_default := 1%positive;
  K1_to_fields k := [Pos.succ (encode k)]; K1_SIZE := 1;
  K2_to_fields k := [encode k]; K2_SIZE := 1;
  K2_default := 0;
  u256_to_G v := encode v;
|}.
#[global] Instance ctx_laws : CommitLaws Z Z positive.
Proof.
  split; simpl.
  - intros l1 l2 d [= H1] [= H2]. apply (inj encode). congruence.
  - done.
  - intros k1 k2 [= H]. apply (inj encode). lia.
  - intros k [= H]. lia.
  - done.
  - intros k1 k2 [= H]. by apply (inj encode).
  - lia.
Qed.

Definition vec_ops : list (op (K := Z) (A := Z)) :=
  [OpRegister 7 100 70; OpRegister 8 50 80; OpAdvance; OpRegister 9 1 90; OpUpdate 8 20 true; OpRegister 8 1 80; OpAdvance].
Definition new_table : VecStakeTable Z Z positive :=
  match vec_new 5 with Ok t => t | _ => {| capacity := 0; vt_head := Snapshot_default; vt_epoch_start := Snapshot_default;
    vt_last_epoch_start := Snapshot_default; head_total_stake := 0; epoch_start_total_stake := 0;
    last_epoch_start_total_stake := 0; epoch_start_comm := (1, 1, 1)%positive; last_epoch_start_comm := (1, 1, 1)%positive;
    bls_mapping := ∅ |} end.
Definition vec_table : VecStakeTable Z Z positive := default new_table (run new_table vec_ops).
Definition tree : StakeTable Z positive :=
  default (StakeTable_new 2) (run (StakeTable_new 2) (erase_aux <$> vec_ops)).

Lemma vec_run_ok : run new_table vec_ops = Some vec_table.
Proof. vm_compute. reflexivity. Qed.
Lemma vec_args : Forall op_args_ok vec_ops.
Proof. repeat constructor; done. Qed.
Lemma vec_table_inv : vec_inv vec_table.
Proof.
  destruct (vec_run_exact new_table vec_ops) as [_ H]; [by apply (vec_new_inv 5)|apply vec_args|intros l; by eexists|].
  apply H, vec_run_ok.
Qed.

Definition direct_ops : list (op (K := Z) (A := Z)) := [OpRegister 7 100 70; OpRegister 8 30 80; OpRegister 9 1 90].
Definition direct_table : VecStakeTable Z Z positive := default new_table (run new_table direct_ops).
Lemma direct_table_inv : vec_inv direct_table.
Proof.
  destruct (vec_run_exact new_table direct_ops) as [_ H]; [by apply (vec_new_inv 5)|repeat constructor; done|intros l; by eexists|].
  apply H. vm_compute. reflexivity.
Qed.
End VecDemo.

Section VecWitnesses.
Import Demo VecDemo.

Lemma vec_table_refines_map_witness :
  ∃ a, spec_run 5 abs_empty vec_ops = Some a ∧
    vec_lookup vec_table LastEpochStart 8 =
      match abs_version a LastEpochStart with None => Err SnapshotUnsupported | Some m => ok_or (m !! 8) KeyNotFound end ∧
    vec_lookup vec_table LastEpochStart 8 = Ok 50.
Proof.
  pose proof (vec_table_refines_map 5 new_table vec_ops ltac:(intros l; by eexists) eq_refl vec_args) as H.
  rewrite vec_run_ok in H. destruct H as (a & Ha & Hl & _). exists a. split; [exact Ha|]. split; [apply Hl|].
  vm_compute. reflexivity.
Defined.

(** Key 8 holds a third of the stake and is never drawn. *)
Lemma vec_sample_ignores_stake_witness :
  ∃ k0 s0, bls_keys (vt_last_epoch_start vec_table) !! 0%nat = Some k0 ∧ vec_sample 200 vec_table 149 = Some (Ok (k0, s0)).
Proof.
  destruct (vec_sample_ignores_stake vec_table vec_table_inv) as (k0 & s0 & Hk & Hs & Hr); [vm_compute; reflexivity|].
  exists k0, s0. split; [exact Hk|]. specialize (Hr 149). vm_compute in Hs. injection Hs as <-. cbv zeta in Hr.
  destruct (decide _) as [[? _]|_] in Hr; [done|]. apply Hr. vm_compute. lia.
Defined.

(** The same stakes, registered in another way. *)
Lemma vec_commitment_binds_witness :
  ∃ t t', vec_advance vec_table = Ok t ∧ vec_advance direct_table = Ok t' ∧
    bls_keys (vt_epoch_start t) = bls_keys (vt_epoch_start t').
Proof.
  destruct (vec_advance vec_table) as [t|e|] eqn:Ht; [|vm_compute in Ht; done..].
  destruct (vec_advance direct_table) as [t'|e|] eqn:Ht'; [|vm_compute in Ht'; done..].
  exists t, t'. split; [done|]. split; [done|].
  apply (vec_commitment_binds vec_table direct_table t t' (epoch_start_comm t)).
  - exact vec_table_inv.
  - exact direct_table_inv.
  - reflexivity.
  - exact Ht.
  - exact Ht'.
  - reflexivity.
  - vm_compute in Ht. injection Ht as <-. vm_compute in Ht'. injection Ht' as <-. reflexivity.
Defined.

Lemma stake_tables_agree_witness :
  st_abs tree = vec_abs vec_table ∧ st_lookup tree EpochStart 8 = vec_lookup vec_table EpochStart 8 ∧
  vec_lookup vec_table EpochStart 8 = Ok 30.
Proof.
  destruct (stake_tables_agree 2 5 new_table vec_ops tree vec_table) as (Ha & Hl & _).
  - reflexivity.
  - exact vec_args.
  - vm_compute. lia.
  - vm_compute. reflexivity.
  - exact vec_run_ok.
  - split; [exact Ha|]. split; [apply Hl|]. vm_compute. reflexivity.
Defined.
End VecWitnesses.
