(* ===== verification/Epochs.v ===== *)
(** * Epoch arithmetic

    Block numbers, view numbers and epoch numbers are [u64]; an epoch is a
    range of [epoch_height] consecutive block numbers.  Models the epoch helpers
    of [types/src/utils.rs] and the [u64] wrappers of [types/src/data.rs].

    The main result is [epoch_partition]: the epochs 1, 2, ... cut the positive
    block numbers into consecutive intervals of [epoch_height] blocks.  The
    other helpers are located relative to that partition: the last block of an
    epoch, and the epoch root, which is the third block from the end. *)

From S2P Require Import Prelude.

(** ** View and epoch numbers

    [ViewNumber] and [EpochNumber] are wrappers of a [u64]; [Deref], [new] and
    [u64] are the identity on it.  The order is the order of [u64]. *)

Abbreviation ViewNumber := Z (only parsing).
Abbreviation EpochNumber := Z (only parsing).

Definition genesis_view : ViewNumber := 0.
(** [impl ConsensusTime for EpochNumber]: the wrapper's genesis is 0. *)
Definition genesis_epoch : EpochNumber := 0.

Definition wrapper_add (t rhs : Z) : Z := u64_add t rhs.
Definition wrapper_sub (t rhs : Z) : Z := u64_sub t rhs.

(** [*epoch > self.cur_epoch]: [None] is below every epoch. *)
Definition epoch_gt (a b : option EpochNumber) : bool :=
  match a, b with Some _, None => true | Some x, Some y => y <? x | None, _ => false end.

(** ** Epoch helpers *)

Definition epoch_from_block_number (block_number epoch_height : Z) : Z :=
  if epoch_height =? 0 then 0
  else if block_number mod epoch_height =? 0 then block_number / epoch_height
  else u64_add (block_number / epoch_height) 1.

Definition root_block_in_epoch (epoch epoch_height : Z) : Z :=
  if (epoch_height =? 0) || (epoch <? 1) then 0
  else u64_sub (u64_mul epoch_height epoch) 2.

Definition option_epoch_from_block_number (with_epoch : bool)
    (block_number epoch_height : Z) : option EpochNumber :=
  if with_epoch then
    if epoch_height =? 0 then None
    else if block_number mod epoch_height =? 0 then Some (block_number / epoch_height)
    else Some (u64_add (block_number / epoch_height) 1)
  else None.

Definition is_last_block_in_epoch (block_number epoch_height : Z) : bool :=
  if (block_number =? 0) || (epoch_height =? 0) then false
  else block_number mod epoch_height =? 0.

Definition is_epoch_root (block_number epoch_height : Z) : bool :=
  if (block_number =? 0) || (epoch_height =? 0) then false
  else u64_add block_number 2 mod epoch_height =? 0.

(** ** Lemmas *)

Section Width.
Context (bn eh : Z).
Context (Hbn : is_u64 bn) (Heh : is_u64 eh).

(** The quotient plus one fits: with [eh = 1] the remainder is zero. *)
Lemma quotient_succ_fits :
  0 < eh → bn mod eh ≠ 0 → u64_add (bn / eh) 1 = bn / eh + 1.
Proof using Hbn Heh.
  unfold is_u64, u64_modulus in *. intros Hpos Hmod.
  unfold u64_add, u64_modulus. apply Z.mod_small.
  assert (eh ≠ 1) by (intros ->; rewrite Z.mod_1_r in Hmod; lia).
  assert (bn / eh <= bn / 2) by (apply Z.div_le_compat_l; lia).
  assert (bn / 2 < 2 ^ 63) by (apply Z.div_lt_upper_bound; lia).
  assert (0 <= bn / eh) by (apply Z.div_pos; lia). lia.
Qed.

(** [epoch_from_block_number] is the ceiling of [bn / eh]. *)
Lemma epoch_ceiling e :
  0 < eh → epoch_from_block_number bn eh = e ↔ (e - 1) * eh < bn <= e * eh.
Proof using Hbn Heh.
  intros Hpos. unfold epoch_from_block_number.
  destruct (Z.eqb_spec eh 0); [lia|].
  pose proof (Z.div_mod bn eh ltac:(lia)) as Hdm.
  pose proof (Z.mod_pos_bound bn eh Hpos) as Hmb.
  destruct (Z.eqb_spec (bn mod eh) 0) as [Hz|Hz].
  - split; [intros <-; nia|]. intros [? ?].
    assert (bn = eh * (bn / eh)) by lia. nia.
  - rewrite quotient_succ_fits by done.
    split; [intros <-; nia|]. intros [? ?]. nia.
Qed.

Lemma option_epoch_spec with_epoch :
  option_epoch_from_block_number with_epoch bn eh =
    if with_epoch && negb (eh =? 0) then Some (epoch_from_block_number bn eh) else None.
Proof.
  unfold option_epoch_from_block_number, epoch_from_block_number.
  destruct with_epoch, (eh =? 0); simpl; try done. by destruct (_ =? 0).
Qed.

End Width.

(** ** Properties *)

(** Epochs partition the chain: with a positive epoch height, block [bn] is
    in epoch [e] exactly when [(e-1)*epoch_height < bn <= e*epoch_height], and
    the optional variant used on leaves and proposals returns the same epoch
    when epochs are enabled, and [None] otherwise. *)
Theorem epoch_partition (bn eh e : Z) (with_epoch : bool) :
  is_u64 bn → is_u64 eh → 0 < eh →
  (epoch_from_block_number bn eh = e ↔ (e - 1) * eh < bn <= e * eh) ∧
  (option_epoch_from_block_number with_epoch bn eh = Some e ↔
     with_epoch = true ∧ (e - 1) * eh < bn <= e * eh).
Proof.
  intros Hbn Heh Hpos. split; [by apply epoch_ceiling|].
  rewrite option_epoch_spec, <-epoch_ceiling by done.
  destruct (Z.eqb_spec eh 0); [lia|]. destruct with_epoch; naive_solver.
Qed.

Lemma epoch_partition_witness :
  epoch_from_block_number 21 10 = 3 ∧ option_epoch_from_block_number true 21 10 = Some 3.
Proof.
  destruct (epoch_partition 21 10 3 true) as [[_ H1] [_ H2]];
    [by compute|by compute|lia|]. split; [apply H1|apply H2]; lia.
Defined.


(** Every epoch has one root: with an epoch height of at least three and no
    overflow, [root_block_in_epoch e] lies in epoch [e], is two blocks before
    the last block of the epoch, and is the only block of epoch [e] for which
    [is_epoch_root] holds. *)
Theorem epoch_root_unique (e eh bn : Z) :
  1 <= e → 3 <= eh → e * eh < u64_modulus → is_u64 (bn + 2) → 0 < bn →
  let r := root_block_in_epoch e eh in
  epoch_from_block_number r eh = e ∧ is_last_block_in_epoch (r + 2) eh = true ∧
  (is_epoch_root bn eh = true ∧ epoch_from_block_number bn eh = e ↔ bn = r).
Proof.
  intros He Heh Hfit Hbn Hb r.
  assert (is_u64 eh) by (unfold is_u64; nia).
  assert (r = e * eh - 2) as Hr.
  { unfold r, root_block_in_epoch. destruct (Z.eqb_spec eh 0); [lia|].
    destruct (Z.ltb_spec e 1); [lia|]. simpl. unfold u64_mul, u64_sub.
    rewrite (Z.mod_small (eh * e)) by nia. rewrite Z.mod_small by nia. lia. }
  assert (is_u64 r) by (unfold is_u64; nia).
  rewrite Hr. split_and!.
  - apply epoch_ceiling; [by rewrite <-Hr|done|lia|nia].
  - unfold is_last_block_in_epoch. replace (e * eh - 2 + 2) with (e * eh) by lia.
    destruct (Z.eqb_spec (e * eh) 0); [nia|]. destruct (Z.eqb_spec eh 0); [lia|]. simpl.
    rewrite Z.mod_mul by lia. done.
  - unfold is_epoch_root. destruct (Z.eqb_spec bn 0); [lia|].
    destruct (Z.eqb_spec eh 0); [lia|]. simpl.
    assert (u64_add bn 2 = bn + 2) as -> by by apply Z.mod_small.
    rewrite (epoch_ceiling bn eh) by (unfold is_u64 in *; lia). rewrite Z.eqb_eq. split.
    + intros [Hm [H1 H2]]. apply Z.div_exact in Hm; [|lia].
      assert ((bn + 2) / eh = e) by nia. nia.
    + intros ->. replace (e * eh - 2 + 2) with (e * eh) by lia.
      split; [apply Z.mod_mul; lia|nia].
Qed.

Lemma epoch_root_unique_witness :
  is_epoch_root 28 10 = true ∧ epoch_from_block_number 28 10 = 3 ↔
  28 = root_block_in_epoch 3 10.
Proof. apply (epoch_root_unique 3 10 28); [lia|lia|by compute|by compute|lia]. Defined.


