(* ===== verification/Crypto.v ===== *)
(** * Commitments, signatures and assembled quorum signatures

    - [Committable]: the [committable] crate's [RawCommitmentBuilder], which is
      not part of the repository.  A commitment is built by a sequence of
      builder calls, kept as a list of [cb_item]s; [finalize] hashes it.
    - [SignatureScheme]: [jf_signature]'s aggregatable signature scheme, which
      is not part of the repository, as a class of operations.
    - [BitVectorQc] of [types/src/qc.rs]: [assemble], [check] and [trace].
    - [impl SignatureKey for BLSPubKey] of [types/src/signature_key.rs], the
      key type all certificates are built with.

    What the external crates promise is in the classes [CommittableLaws] and
    [SignatureLaws]; [Ideal] gives an instance of each. *)

From S2P Require Import Prelude.

Abbreviation bytes := (list Z).

(** ** Commitments *)

(** One call on a [RawCommitmentBuilder]. *)
Inductive cb_item (C : Type) : Type :=
  | CbU64 (n : Z)
  | CbU64Field (name : string) (n : Z)
  | CbU16 (n : Z)
  | CbVarSizeBytes (b : bytes)
  | CbFixedSizeBytes (b : bytes)
  | CbVarSizeField (name : string) (b : bytes)
  | CbField (name : string) (c : C)
  | CbOptional (name : string) (o : option C)
  | CbConstantStr (s : string).
Arguments CbU64 {C} n.
Arguments CbU64Field {C} name n.
Arguments CbU16 {C} n.
Arguments CbVarSizeBytes {C} b.
Arguments CbFixedSizeBytes {C} b.
Arguments CbVarSizeField {C} name b.
Arguments CbField {C} name c.
Arguments CbOptional {C} name o.
Arguments CbConstantStr {C} s.

(** [Commitment<T>] is a 32-byte digest; [Commitment::from_raw(bytes)], which
    changes the type [T], is the identity. *)
Class Committable := {
  Commitment : Type;
  #[global] Commitment_eq_dec :: EqDecision Commitment;
  #[global] Commitment_countable :: Countable Commitment;
  as_ref : Commitment → bytes;
  (** [RawCommitmentBuilder::new(tag)...finalize()] *)
  finalize : string → list (cb_item Commitment) → Commitment;
  (** [Commitment::default_commitment_no_preimage()] *)
  default_commitment_no_preimage : Commitment;
}.

(** A call without its argument: which call, its name, its fixed size. *)
Definition item_shape {C} (i : cb_item C) : nat * string * nat :=
  match i with
  | CbU64 _ => (0, "", 8)
  | CbU64Field s _ => (1, s, 8)
  | CbU16 _ => (2, "", 2)
  | CbVarSizeBytes _ => (3, "", 0)
  | CbFixedSizeBytes b => (4, "", length b)
  | CbVarSizeField s _ => (5, s, 0)
  | CbField s _ => (6, s, 32)
  | CbOptional s _ => (7, s, 0)
  | CbConstantStr s => (8, s, 0)
  end%nat.

Definition comparable {C} (l l' : list (cb_item C)) : Prop :=
  map item_shape l `prefix_of` map item_shape l' ∨
  map item_shape l' `prefix_of` map item_shape l.

(** What the hash promises: no collision between two sequences of calls for
    the same tag that make the same calls as far as both go.  (Sequences of
    different calls may serialize to the same bytes.) *)
Class CommittableLaws (Cm : Committable) := {
  as_ref_length c : length (as_ref c) = 32%nat;
  as_ref_inj c c' : as_ref c = as_ref c' → c = c';
  finalize_inj t l l' : comparable l l' → finalize t l = finalize t l' → l = l';
}.

(** Hashes have no cycles: a commitment comes after the commitments it is
    computed from. *)
Class CommitmentRank (Cm : Committable) := {
  rank : Commitment → nat;
  finalize_rank t l s c : CbField s c ∈ l → (rank c < rank (finalize t l))%nat;
}.

(** ** Signatures *)

Class SignatureScheme := {
  PubKey : Type;
  PrivKey : Type;
  Sig : Type;
  #[global] PubKey_eq_dec :: EqDecision PubKey;
  #[global] PubKey_countable :: Countable PubKey;
  #[global] Sig_eq_dec :: EqDecision Sig;
  (** [BLSPubKey::from(private_key)] *)
  from_private : PrivKey → PubKey;
  (** [A::sign(pp, sk, msg)], [A::verify(pp, vk, msg, sig).is_ok()],
      [A::aggregate] and [A::multi_sig_verify(..).is_ok()] *)
  A_sign : PrivKey → bytes → option Sig;
  A_verify : PubKey → bytes → Sig → bool;
  A_aggregate : list PubKey → list Sig → option Sig;
  A_multi_sig_verify : list PubKey → bytes → Sig → bool;
}.

(** What the scheme promises: signing then verifying succeeds, aggregating
    valid signatures, in any order, gives a valid aggregate, and a valid aggregate (of a
    non-empty list of keys) is not forged: every key in it [signed] the
    message. *)
Class SignatureLaws (Sg : SignatureScheme) (signed : PubKey → bytes → Prop) := {
  sign_verify sk m s : A_sign sk m = Some s → A_verify (from_private sk) m s = true;
  aggregate_complete ks ss ss' m :
    ks ≠ [] → Forall2 (fun k s => A_verify k m s = true) ks ss → ss ≡ₚ ss' →
    ∃ s, A_aggregate ks ss' = Some s ∧ A_multi_sig_verify ks m s = true;
  multi_sig_unforgeable ks m s :
    A_multi_sig_verify ks m s = true → Forall (fun k => signed k m) ks;
  verify_unforgeable k m s : A_verify k m s = true → signed k m;
}.

(** ** Stake table entries: [types/src/stake_table.rs] *)

Record StakeTableEntry `{SignatureScheme} := {
  stake_key : PubKey;
  stake_amount : Z;
}.

#[global] Instance StakeTableEntry_eq_dec `{SignatureScheme} : EqDecision StakeTableEntry.
Proof. solve_decision. Defined.

(** ** [BitVectorQc] *)

(** [agg_sig_pp] is [()]. *)
Record QcParams `{SignatureScheme} := {
  stake_entries : list StakeTableEntry;
  qc_threshold : Z;
}.

(** The three [ParameterError]s of [qc.rs], and an error of the scheme. *)
Inductive SignatureError :=
  | BitVecLen (signers entries : nat)
  | WeightBelowThreshold (total_weight threshold : Z)
  | KeysSigsMismatch (ver_keys sigs : nat)
  | SchemeError.

Section BitVectorQc.
Context `{SignatureScheme}.

Definition QcType : Type := Sig * list bool.

(** The fold over the zipped entries: [if *b { acc + entry.stake_amount }]. *)
Definition total_weight (entries : list StakeTableEntry) (signers : list bool)
    : outcome SignatureError Z :=
  foldl (fun acc '(entry, b) =>
    a ← acc; if (b : bool) then u256_add a (stake_amount entry) else Ok a)
  (Ok 0) (zip entries signers).

(** The loop that pushes the keys whose bit is set. *)
Definition ver_keys (entries : list StakeTableEntry) (signers : list bool) : list PubKey :=
  foldl (fun keys '(entry, b) =>
    if (b : bool) then keys ++ [stake_key entry] else keys)
  [] (zip entries signers).

Definition assemble_qc (qc_pp : QcParams) (signers : list bool) (sigs : list Sig)
    : outcome SignatureError QcType :=
  if negb (length signers =? length (stake_entries qc_pp))%nat then
    Err (BitVecLen (length signers) (length (stake_entries qc_pp)))
  else
    total_weight ← total_weight (stake_entries qc_pp) signers;
    if total_weight <? qc_threshold qc_pp then
      Err (WeightBelowThreshold total_weight (qc_threshold qc_pp))
    else
      let ver_keys := ver_keys (stake_entries qc_pp) signers in
      if negb (length ver_keys =? length sigs)%nat then
        Err (KeysSigsMismatch (length ver_keys) (length sigs))
      else
        sig ← ok_or (A_aggregate ver_keys sigs) SchemeError;
        Ok (sig, signers).

Definition check_qc (qc_vp : QcParams) (message : bytes) (qc : QcType)
    : outcome SignatureError Z :=
  let '(sig, signers) := qc in
  if negb (length signers =? length (stake_entries qc_vp))%nat then
    Err (BitVecLen (length signers) (length (stake_entries qc_vp)))
  else
    total_weight ← total_weight (stake_entries qc_vp) signers;
    if total_weight <? qc_threshold qc_vp then
      Err (WeightBelowThreshold total_weight (qc_threshold qc_vp))
    else
      let ver_keys := ver_keys (stake_entries qc_vp) signers in
      _ ← ensure (A_multi_sig_verify ver_keys message sig) SchemeError;
      Ok total_weight.

Definition trace_qc (qc_vp : QcParams) (message : bytes) (qc : QcType)
    : outcome SignatureError (list PubKey) :=
  let '(_sig, signers) := qc in
  if negb (length signers =? length (stake_entries qc_vp))%nat then
    Err (BitVecLen (length signers) (length (stake_entries qc_vp)))
  else
    _ ← check_qc qc_vp message qc;
    Ok (map (fun p => stake_key p.1)
          (base.filter (fun p => p.2 = true) (zip (stake_entries qc_vp) signers))).

(** ** [impl SignatureKey for BLSPubKey] *)

Definition validate (key : PubKey) (signature : Sig) (data : bytes) : bool :=
  A_verify key data signature.

Definition sign (sk : PrivKey) (data : bytes) : option Sig := A_sign sk data.

Definition stake_table_entry (key : PubKey) (stake : Z) : StakeTableEntry :=
  {| stake_key := key; stake_amount := stake |}.

Definition public_key (entry : StakeTableEntry) : PubKey := stake_key entry.

Definition public_parameter (stake_entries : list StakeTableEntry) (threshold : Z) : QcParams :=
  {| stake_entries := stake_entries; qc_threshold := threshold |}.

(** [GenericArray::from_slice] panics unless the data has 32 bytes. *)
Definition check (real_qc_pp : QcParams) (data : bytes) (qc : QcType)
    : outcome SignatureError unit :=
  if negb (length data =? 32)%nat then Panic
  else _ ← check_qc real_qc_pp data qc; Ok tt.

(** [.expect("this assembling shouldn't fail")] *)
Definition assemble {E} (real_qc_pp : QcParams) (signers : list bool) (sigs : list Sig)
    : outcome E QcType :=
  match assemble_qc real_qc_pp signers sigs with
  | Ok qc => Ok qc
  | _ => Panic
  end.
End BitVectorQc.

(** ** Lemmas *)

(** The combined stake of the entries whose bit is set. *)
Definition weight `{SignatureScheme} (entries : list StakeTableEntry) (signers : list bool) : Z :=
  sum_Z (zip_with (fun e (b : bool) => if b then stake_amount e else 0) entries signers).

Definition total_stake_of `{SignatureScheme} (entries : list StakeTableEntry) : Z :=
  sum_Z (map stake_amount entries).

(** Stakes are [U256] values whose total is one too. *)
Definition entries_ok `{SignatureScheme} (entries : list StakeTableEntry) : Prop :=
  Forall (fun e => 0 <= stake_amount e) entries ∧ total_stake_of entries < u256_modulus.

Section QcLemmas.
Context `{SignatureScheme}.
Implicit Types (entries : list StakeTableEntry) (signers : list bool).

Lemma weight_bounds entries signers :
  Forall (fun e => 0 <= stake_amount e) entries →
  0 <= weight entries signers <= total_stake_of entries.
Proof.
  unfold weight, total_stake_of. intros He. revert signers.
  induction He as [|e entries He Hes IH]; intros signers; [by destruct signers|].
  destruct signers as [|b signers]; simpl.
  - pose proof (IH []) as IH'. rewrite zip_with_nil_r in IH'. simpl in *. lia.
  - specialize (IH signers). destruct b; lia.
Qed.

Lemma total_weight_acc entries signers a :
  entries_ok entries → 0 <= a → a + total_stake_of entries < u256_modulus →
  foldl (fun acc '(entry, b) =>
    a ← acc; if (b : bool) then u256_add (E:=SignatureError) a (stake_amount entry) else Ok a)
  (Ok a) (zip entries signers) = Ok (a + weight entries signers).
Proof.
  intros [He _]. revert signers a. unfold weight, total_stake_of.
  induction He as [|e entries He Hes IH]; intros signers a Ha Hlt; simpl.
  - f_equal. lia.
  - destruct signers as [|b signers]; simpl; [f_equal; lia|]. simpl in Hlt.
    pose proof (sum_Z_nonneg (map stake_amount entries)
      ltac:(by apply Forall_map)) as Hnn.
    mon. destruct b.
    + unfold u256_add, u256_checked_add. rewrite decide_True by lia. simpl.
      rewrite IH by lia. f_equal. lia.
    + rewrite IH by lia. f_equal.
Qed.

(** The weight never overflows on a table whose total stake is a [U256]. *)
Lemma total_weight_ok entries signers :
  entries_ok entries → total_weight entries signers = Ok (weight entries signers).
Proof.
  intros He. unfold total_weight. rewrite total_weight_acc; [f_equal; lia|done|lia|].
  destruct He. lia.
Qed.

Lemma ver_keys_acc entries signers acc :
  foldl (fun keys '(entry, b) => if (b : bool) then keys ++ [stake_key entry] else keys)
    acc (zip entries signers) =
  acc ++ map (fun p => stake_key p.1) (base.filter (fun p => p.2 = true) (zip entries signers)).
Proof.
  revert acc. induction (zip entries signers) as [|[e b] l IH]; intros acc; simpl.
  - by rewrite app_nil_r.
  - rewrite IH. destruct b; [rewrite filter_cons_True by done|rewrite filter_cons_False by done].
    + simpl. by rewrite <-app_assoc.
    + done.
Qed.

(** The verification keys are the keys whose bit is set, in table order. *)
Lemma ver_keys_filter entries signers :
  ver_keys entries signers =
  map (fun p => stake_key p.1) (base.filter (fun p => p.2 = true) (zip entries signers)).
Proof. apply (ver_keys_acc entries signers []). Qed.

Lemma elem_of_ver_keys entries signers k :
  k ∈ ver_keys entries signers ↔
  ∃ i e, entries !! i = Some e ∧ signers !! i = Some true ∧ stake_key e = k.
Proof.
  rewrite ver_keys_filter, list_elem_of_fmap. split.
  - intros ([e b] & -> & [Hb [i [? ?]%lookup_zip_Some]%list_elem_of_lookup]%list_elem_of_filter).
    simpl in *. subst. eauto.
  - intros (i & e & ? & ? & <-). exists (e, true). split; [done|].
    apply list_elem_of_filter. split; [done|].
    apply list_elem_of_lookup. exists i. by apply lookup_zip_Some.
Qed.

(** What a successful [check] has established. *)
Lemma check_qc_inv pp m sig signers w :
  entries_ok (stake_entries pp) → check_qc pp m (sig, signers) = Ok w →
  length signers = length (stake_entries pp) ∧
  w = weight (stake_entries pp) signers ∧ qc_threshold pp <= w ∧
  A_multi_sig_verify (ver_keys (stake_entries pp) signers) m sig = true.
Proof.
  intros He. unfold check_qc. destruct (Nat.eqb_spec (length signers) (length (stake_entries pp)));
    simpl; [|done]. rewrite total_weight_ok by done. mon.
  destruct (Z.ltb_spec (weight (stake_entries pp) signers) (qc_threshold pp)); [done|].
  intros Hc. inv_ok Hc. apply ensure_ok_inv in E. auto.
Qed.

Lemma check_qc_intro pp m sig signers :
  entries_ok (stake_entries pp) → length signers = length (stake_entries pp) →
  qc_threshold pp <= weight (stake_entries pp) signers →
  A_multi_sig_verify (ver_keys (stake_entries pp) signers) m sig = true →
  check_qc pp m (sig, signers) = Ok (weight (stake_entries pp) signers).
Proof.
  intros He Hl Hw Hv. unfold check_qc. rewrite Hl, Nat.eqb_refl. simpl.
  rewrite total_weight_ok by done. mon.
  destruct (Z.ltb_spec (weight (stake_entries pp) signers) (qc_threshold pp)); [lia|].
  by rewrite Hv.
Qed.

Lemma assemble_qc_intro pp signers sigs sig :
  entries_ok (stake_entries pp) → length signers = length (stake_entries pp) →
  qc_threshold pp <= weight (stake_entries pp) signers →
  length (ver_keys (stake_entries pp) signers) = length sigs →
  A_aggregate (ver_keys (stake_entries pp) signers) sigs = Some sig →
  assemble_qc pp signers sigs = Ok (sig, signers).
Proof.
  intros He Hl Hw Hk Ha. unfold assemble_qc. rewrite Hl, Nat.eqb_refl. simpl.
  rewrite total_weight_ok by done. mon.
  destruct (Z.ltb_spec (weight (stake_entries pp) signers) (qc_threshold pp)); [lia|].
  rewrite Hk, Nat.eqb_refl. simpl. by rewrite Ha.
Qed.

(** A positive weight needs a signer. *)
Lemma weight_ver_keys_nil entries signers :
  ver_keys entries signers = [] → weight entries signers = 0.
Proof.
  rewrite ver_keys_filter. unfold weight. revert signers.
  induction entries as [|e entries IH]; intros [|b signers] Hk; simpl in *; try done.
  destruct b; [by rewrite filter_cons_True in Hk|].
  rewrite filter_cons_False in Hk by done. simpl. rewrite IH by done. done.
Qed.

(** Inclusion and exclusion over two sets of signers. *)
Lemma weight_overlap entries s1 s2 :
  Forall (fun e => 0 <= stake_amount e) entries →
  length s1 = length entries → length s2 = length entries →
  weight entries s1 + weight entries s2 - total_stake_of entries <=
  weight entries (zip_with andb s1 s2).
Proof.
  intros He. unfold weight, total_stake_of. revert s1 s2.
  induction He as [|e entries He Hes IH]; intros [|b1 s1] [|b2 s2] H1 H2; simplify_eq/=; [done|].
  specialize (IH s1 s2 H1 H2). destruct b1, b2; simpl; lia.
Qed.
End QcLemmas.

(** ** Ideal instances of the external crates

    A commitment is the tree of the builder calls themselves; a signature is
    the list of the signed messages with their keys.  [registry k m] says which
    messages the holder of [k] agrees to sign. *)

Module Ideal.
(** A leaf of the tree is a call without commitments, or a number that is no
    hash. *)
Abbreviation tree := (gen_tree (nat * string * list Z)) (only parsing).

Definition item_tree (i : cb_item tree) : tree :=
  match i with
  | CbU64 n => GenLeaf (0%nat, "", [n])
  | CbU64Field s n => GenLeaf (1%nat, s, [n])
  | CbU16 n => GenLeaf (2%nat, "", [n])
  | CbVarSizeBytes b => GenLeaf (3%nat, "", b)
  | CbFixedSizeBytes b => GenLeaf (4%nat, "", b)
  | CbVarSizeField s b => GenLeaf (5%nat, s, b)
  | CbField s c => GenNode 6 [GenLeaf (6%nat, s, []); c]
  | CbOptional s (Some c) => GenNode 7 [GenLeaf (7%nat, s, []); c]
  | CbOptional s None => GenNode 7 [GenLeaf (7%nat, s, [])]
  | CbConstantStr s => GenLeaf (8%nat, s, [])
  end.

#[global] Instance item_tree_inj : Inj (=) (=) item_tree.
Proof. intros [] []; simpl; repeat case_match; naive_solver. Qed.

Definition hash (t : string) (l : list (cb_item tree)) : tree :=
  GenNode 0 (GenLeaf (0%nat, t, []) :: (item_tree <$> l)).
(** A commitment without a preimage. *)
Definition digest (n : Z) : tree := GenLeaf (9%nat, "", [n]).

#[global] Instance committable : Committable := {
  Commitment := tree;
  as_ref p := Z.pos (encode p) :: replicate 31 0;
  finalize := hash;
  default_commitment_no_preimage := digest 0;
}.

#[global] Instance committable_laws : CommittableLaws committable.
Proof.
  split.
  - done.
  - intros c c' [= Hc]. by apply (inj encode) in Hc.
  - intros t l l' _ [= Hl]. by apply (inj (fmap item_tree)) in Hl.
Qed.

Fixpoint tree_size (t : tree) : nat :=
  match t with
  | GenLeaf _ => 1
  | GenNode _ ts => S (list_sum (map tree_size ts))
  end%nat.

Lemma tree_size_elem t ts : t ∈ ts → (tree_size t <= list_sum (map tree_size ts))%nat.
Proof. induction 1; simpl; lia. Qed.

#[global, refine] Instance committable_rank : CommitmentRank committable := {|
  rank := tree_size : Commitment → nat |}.
Proof.
  intros t l s c Hc%(list_elem_of_fmap_2 item_tree)%tree_size_elem.
  change (finalize t l) with (hash t l). unfold hash. simpl in *. lia.
Defined.

Section Signatures.
Variable registry : Z → bytes → bool.

Definition signatures : SignatureScheme := {|
  PubKey := Z;
  PrivKey := Z;
  Sig := list (Z * bytes);
  from_private sk := sk;
  A_sign sk m := if registry sk m then Some [(sk, m)] else None;
  A_verify k m s := bool_decide (s = [(k, m)]) && registry k m;
  A_aggregate ks ss := Some (mjoin ss);
  A_multi_sig_verify ks m s :=
    forallb (fun k => bool_decide ((k, m) ∈ s) && registry k m) ks;
|}.

Lemma signature_laws : SignatureLaws signatures (fun k m => registry k m = true).
Proof.
  split; simpl.
  - intros sk m s Hs. destruct (registry sk m) eqn:Hr; simplify_eq.
    by rewrite bool_decide_eq_true_2.
  - intros ks ss ss' m _ Hf Hp. exists (mjoin ss'). split; [done|].
    apply forallb_forall. intros k [i Hi]%list_elem_of_In%list_elem_of_lookup.
    apply (Forall2_lookup_l _ _ _ _ _ Hf) in Hi
      as (s & Hs & [->%bool_decide_eq_true Hr]%andb_true_iff).
    rewrite Hr, andb_true_r. apply bool_decide_eq_true, list_elem_of_join.
    exists [(k, m)]. split; [by left|]. rewrite <-Hp. by eapply list_elem_of_lookup_2.
  - intros ks m s Hf. apply Forall_forall. intros k Hk%list_elem_of_In.
    pose proof (proj1 (forallb_forall _ _) Hf k Hk) as [_ ?]%andb_true_iff. done.
  - by intros k m s [_ Hr]%andb_true_iff.
Qed.
End Signatures.

(** Three holders of stake one, a threshold of two. *)
Definition all_sign : Z → bytes → bool := fun _ _ => true.
Definition open_signatures : SignatureScheme := signatures all_sign.
Definition open_laws : SignatureLaws open_signatures (fun k m => all_sign k m = true) :=
  signature_laws all_sign.
#[local] Existing Instance open_signatures.

Definition table3 : list StakeTableEntry :=
  map (fun k => {| stake_key := k; stake_amount := 1 |}) [10; 20; 30].
Definition params3 : QcParams := public_parameter table3 2.
Definition msg : bytes := 7 :: replicate 31 0.
Definition qc13 : QcType := ([(10, msg); (30, msg)], [true; false; true]).
Definition qc12 : QcType := ([(10, msg); (20, msg)], [true; true; false]).

Lemma table3_ok : entries_ok table3.
Proof. split; [repeat constructor; simpl; lia|by compute]. Qed.
End Ideal.

(** ** Properties *)

Section QcProperties.
Context `{Sg : SignatureScheme} {signed : PubKey → bytes → Prop} {L : SignatureLaws Sg signed}.

(** Quorum intersection: two certificates that check against the same
    stake table share signers of combined stake at least twice the threshold
    less the total stake, and every shared signer signed both messages. *)
Lemma qc_overlap pp m1 m2 sig1 sig2 s1 s2 w1 w2 :
  entries_ok (stake_entries pp) →
  check_qc pp m1 (sig1, s1) = Ok w1 → check_qc pp m2 (sig2, s2) = Ok w2 →
  let common := zip_with andb s1 s2 in
  2 * qc_threshold pp - total_stake_of (stake_entries pp)
    <= weight (stake_entries pp) common ∧
  Forall (fun k => signed k m1 ∧ signed k m2) (ver_keys (stake_entries pp) common).
Proof using L.
  intros He (Hl1 & -> & Hw1 & Hv1)%check_qc_inv (Hl2 & -> & Hw2 & Hv2)%check_qc_inv common; [|done..].
  split.
  - pose proof (weight_overlap _ s1 s2 (proj1 He) Hl1 Hl2). unfold common. lia.
  - apply multi_sig_unforgeable in Hv1, Hv2. rewrite Forall_forall in Hv1, Hv2.
    apply Forall_forall. intros k (i & e & Hi & Hb & Hk)%elem_of_ver_keys.
    unfold common in Hb. apply lookup_zip_with_Some in Hb as (b1 & b2 & Hb & ? & ?).
    symmetry in Hb. apply andb_true_iff in Hb as [-> ->].
    split; [apply Hv1|apply Hv2]; apply elem_of_ver_keys; eauto.
Qed.

(** [signers] is a quorum on [m] and [sigs] are its signatures, in any order. *)
Definition quorum_of pp m signers sigs : Prop :=
  entries_ok (stake_entries pp) ∧ length signers = length (stake_entries pp) ∧
  0 < qc_threshold pp <= weight (stake_entries pp) signers ∧
  ∃ ss, Forall2 (fun k s => validate k s m = true) (ver_keys (stake_entries pp) signers) ss ∧
        ss ≡ₚ sigs.

Lemma assemble_then_check pp m signers sigs :
  quorum_of pp m signers sigs →
  ∃ qc, assemble_qc pp signers sigs = Ok qc ∧
        check_qc pp m qc = Ok (weight (stake_entries pp) signers) ∧
        trace_qc pp m qc = Ok (ver_keys (stake_entries pp) signers).
Proof using L.
  intros (He & Hl & Hw & ss & Hv & Hp).
  assert (ver_keys (stake_entries pp) signers ≠ []) as Hne.
  { intros Hk%weight_ver_keys_nil. lia. }
  destruct (aggregate_complete _ _ _ m Hne Hv Hp) as (sig & Ha & Hm).
  assert (check_qc pp m (sig, signers) = Ok (weight (stake_entries pp) signers)) as Hc
    by (apply check_qc_intro; [done|done|lia|done]).
  exists (sig, signers). split_and!; [|done|].
  - apply assemble_qc_intro; [done|done|lia| |done].
    rewrite <-Hp. by eapply Forall2_length.
  - unfold trace_qc. rewrite Hl, Nat.eqb_refl, Hc. simpl. mon. by rewrite ver_keys_filter.
Qed.

(** Assembling valid signatures gives a certificate that checks: when the
    bit vector has one bit per stake table entry, the entries with a bit set
    carry at least the (positive) threshold, and the signatures, in any order,
    are one per such entry that its key validates on the message, [assemble]
    succeeds and [check] of its result returns the combined stake of the
    signers. *)
Theorem qc_assemble_check pp m signers sigs :
  quorum_of pp m signers sigs →
  ∃ qc, assemble_qc pp signers sigs = Ok qc ∧
        check_qc pp m qc = Ok (weight (stake_entries pp) signers) ∧
        trace_qc pp m qc = Ok (ver_keys (stake_entries pp) signers).
Proof using L. apply assemble_then_check. Qed.
End QcProperties.

#[local] Existing Instance Ideal.open_signatures.

Lemma qc_assemble_check_witness :
  ∃ qc, assemble_qc Ideal.params3 [true; false; true] [[(10, Ideal.msg)]; [(30, Ideal.msg)]] = Ok qc ∧
        check_qc Ideal.params3 Ideal.msg qc = Ok 2 ∧
        trace_qc Ideal.params3 Ideal.msg qc = Ok [10; 30].
Proof.
  apply (qc_assemble_check (L := Ideal.open_laws) Ideal.params3 Ideal.msg [true; false; true]
           [[(10, Ideal.msg)]; [(30, Ideal.msg)]]).
  split_and!; [apply Ideal.table3_ok|done|by compute|by compute|].
  exists [[(10, Ideal.msg)]; [(30, Ideal.msg)]]. split; [repeat constructor|done].
Defined.
