(* ===== verification/Committee.v ===== *)
(** * Committees

    The [Membership] trait of [types/src/traits/election.rs] as a class, and
    four of the implementations under [hotshot/src/traits/election/]:
    [StaticCommittee], [StaticCommitteeLeaderForTwoViews],
    [RandomizedCommittee] and [TwoStaticCommittees].

    A method that may panic (the leader of an empty committee, a missing epoch
    in [TwoStaticCommittees]) returns an [outcome].

    [CommitteeLaws] is what the rest of the system relies on: in an epoch the
    committee knows, the stake table, the number of nodes, the lookup by key
    and the thresholds are about one and the same table. *)

From S2P Require Import Prelude Epochs Crypto.

(** ** The trait *)

Section Trait.
Context `{SignatureScheme}.

Class Membership (M : Type) := {
  stake_table : M → option EpochNumber → outcome Error (list StakeTableEntry);
  da_stake_table : M → option EpochNumber → outcome Error (list StakeTableEntry);
  committee_members : M → ViewNumber → option EpochNumber → outcome Error (gset PubKey);
  da_committee_members : M → ViewNumber → option EpochNumber → outcome Error (gset PubKey);
  committee_leaders : M → ViewNumber → option EpochNumber → outcome Error (gset PubKey);
  stake : M → PubKey → option EpochNumber → outcome Error (option StakeTableEntry);
  da_stake : M → PubKey → option EpochNumber → outcome Error (option StakeTableEntry);
  has_stake : M → PubKey → option EpochNumber → outcome Error bool;
  has_da_stake : M → PubKey → option EpochNumber → outcome Error bool;
  lookup_leader : M → ViewNumber → option EpochNumber → outcome Error PubKey;
  total_nodes : M → option EpochNumber → outcome Error Z;
  da_total_nodes : M → option EpochNumber → outcome Error Z;
  success_threshold : M → option EpochNumber → outcome Error Z;
  da_success_threshold : M → option EpochNumber → outcome Error Z;
  failure_threshold : M → option EpochNumber → outcome Error Z;
  upgrade_threshold : M → option EpochNumber → outcome Error Z;
}.

(** The default method [leader]: [lookup_leader] with a context message. *)
Definition leader `{Membership M} (m : M) (view : ViewNumber) (epoch : option EpochNumber)
    : outcome Error PubKey :=
  match lookup_leader m view epoch with
  | Ok k => Ok k
  | Err _ => Err "Failed to get leader for view in epoch"
  | Panic => Panic
  end.
End Trait.

Record PeerConfig `{SignatureScheme} := { stake_table_entry : StakeTableEntry }.

(** ** Committees with one table

    The three types have the same five fields, the same [new] and the same
    accessors; they differ in [lookup_leader] and [upgrade_threshold]. *)

Record Committee `{SignatureScheme} := {
  eligible_leaders : list StakeTableEntry;
  c_stake_table : list StakeTableEntry;
  c_da_stake_table : list StakeTableEntry;
  indexed_stake_table : gmap PubKey StakeTableEntry;
  indexed_da_stake_table : gmap PubKey StakeTableEntry;
}.

Section SingleTable.
Context `{SignatureScheme}.

(** [.map(|member| member.stake_table_entry.clone()).filter(|entry| entry.stake() > 0)] *)
Definition staked (members : list PeerConfig) : list StakeTableEntry :=
  base.filter (fun e => 0 < stake_amount e) (map stake_table_entry members).

(** [.iter().map(|entry| (public_key(entry), entry.clone())).collect()] *)
Definition index_by_key (l : list StakeTableEntry) : gmap PubKey StakeTableEntry :=
  collect_map public_key l.

Definition committee_new (committee_members da_members : list PeerConfig) : Committee :=
  let members := staked committee_members in
  let da_members := staked da_members in
  {| eligible_leaders := staked committee_members;
     c_stake_table := members;
     c_da_stake_table := da_members;
     indexed_stake_table := index_by_key members;
     indexed_da_stake_table := index_by_key da_members |}.

(** [.iter().map(public_key).collect()] into a set. *)
Definition keys_of (l : list StakeTableEntry) : gset PubKey :=
  list_to_set (map public_key l).

(** [.get(pub_key).is_some_and(|x| x.stake() > U256::zero())] *)
Definition has_positive (m : gmap PubKey StakeTableEntry) (k : PubKey) : bool :=
  match m !! k with Some x => 0 <? stake_amount x | None => false end.

(** The indexing of [eligible_leaders] by a [u64]: [% len] panics when the
    list is empty. *)
Definition leader_at {E} (leaders : list StakeTableEntry) (n : Z) : outcome E PubKey :=
  let len := Z.of_nat (length leaders) in
  if len =? 0 then Panic
  else res ← index leaders (Z.to_nat (n mod len)); Ok (public_key res).

Definition threshold_two_thirds {E} (len : nat) : outcome E Z :=
  nonzero (u64_add (u64_mul (Z.of_nat len) 2 / 3) 1).
Definition threshold_one_third {E} (len : nat) : outcome E Z :=
  nonzero (u64_add (Z.of_nat len / 3) 1).
Definition threshold_max_nine_tenths {E} (len : nat) : outcome E Z :=
  nonzero (Z.max (u64_mul (Z.of_nat len) 9 / 10) (u64_add (u64_mul (Z.of_nat len) 2 / 3) 1)).
Definition threshold_nine_tenths {E} (len : nat) : outcome E Z :=
  nonzero (u64_add (u64_mul (Z.of_nat len) 9 / 10) 1).

(** The instance with the two methods that vary. *)
Definition committee_membership
    (leader : Committee → ViewNumber → outcome Error PubKey)
    (upgrade : nat → outcome Error Z) : Membership Committee := {|
  stake_table c _ := Ok (c_stake_table c);
  da_stake_table c _ := Ok (c_da_stake_table c);
  committee_members c _ _ := Ok (keys_of (c_stake_table c));
  da_committee_members c _ _ := Ok (keys_of (c_da_stake_table c));
  committee_leaders c _ _ := Ok (keys_of (eligible_leaders c));
  stake c k _ := Ok (indexed_stake_table c !! k);
  da_stake c k _ := Ok (indexed_da_stake_table c !! k);
  has_stake c k _ := Ok (has_positive (indexed_stake_table c) k);
  has_da_stake c k _ := Ok (has_positive (indexed_da_stake_table c) k);
  lookup_leader c view _ := leader c view;
  total_nodes c _ := Ok (Z.of_nat (length (c_stake_table c)));
  da_total_nodes c _ := Ok (Z.of_nat (length (c_da_stake_table c)));
  success_threshold c _ := threshold_two_thirds (length (c_stake_table c));
  da_success_threshold c _ := threshold_two_thirds (length (c_da_stake_table c));
  failure_threshold c _ := threshold_one_third (length (c_stake_table c));
  upgrade_threshold c _ := upgrade (length (c_stake_table c));
|}.

(** [StaticCommittee]: leaders take turns, one view each. *)
Definition StaticCommittee : Membership Committee :=
  committee_membership (fun c view => leader_at (eligible_leaders c) view)
    threshold_max_nine_tenths.

(** [StaticCommitteeLeaderForTwoViews]: leaders take turns, two views each. *)
Definition StaticCommitteeLeaderForTwoViews : Membership Committee :=
  committee_membership (fun c view => leader_at (eligible_leaders c) (view / 2))
    threshold_nine_tenths.

(** [RandomizedCommittee]: [random view] is the first [u64] of a generator
    seeded with the view number. *)
Definition RandomizedCommittee (random : ViewNumber → Z) : Membership Committee :=
  committee_membership (fun c view => leader_at (eligible_leaders c) (random view))
    threshold_max_nine_tenths.
End SingleTable.

(** ** [TwoStaticCommittees] *)

Record TwoCommittees `{SignatureScheme} := {
  eligible_leaders2 : list StakeTableEntry * list StakeTableEntry;
  stake_table2 : list StakeTableEntry * list StakeTableEntry;
  da_stake_table2 : list StakeTableEntry * list StakeTableEntry;
  indexed_stake_table2 : gmap PubKey StakeTableEntry * gmap PubKey StakeTableEntry;
  indexed_da_stake_table2 : gmap PubKey StakeTableEntry * gmap PubKey StakeTableEntry;
}.

Section TwoTables.
Context `{SignatureScheme}.

(** [.iter().enumerate().filter(|(idx, _)| idx % 2 == parity).map(..)] *)
Definition every_other {A} (parity : nat) (l : list A) : list A :=
  omap (fun '(idx, x) => if (idx mod 2 =? parity)%nat then Some x else None)
    (imap (fun idx x => (idx, x)) l).

Definition two_committees_new (committee_members da_members : list PeerConfig) : TwoCommittees :=
  let eligible_leaders := staked committee_members in
  let members := staked committee_members in
  let da_members := staked da_members in
  {| eligible_leaders2 := (every_other 0 eligible_leaders, every_other 1 eligible_leaders);
     stake_table2 := (every_other 0 members, every_other 1 members);
     da_stake_table2 := (every_other 0 da_members, every_other 1 da_members);
     indexed_stake_table2 :=
       (index_by_key (every_other 0 members), index_by_key (every_other 1 members));
     indexed_da_stake_table2 :=
       (index_by_key (every_other 0 da_members), index_by_key (every_other 1 da_members)) |}.

(** [epoch.expect(..)], then [.0] in the even epochs but 0 and [.1] otherwise. *)
Definition for_epoch {E A} (p : A * A) (epoch : option EpochNumber) : outcome E A :=
  epoch ← unwrap epoch;
  Ok (if negb (epoch =? 0) && (epoch mod 2 =? 0) then p.1 else p.2).

Definition TwoStaticCommittees : Membership TwoCommittees := {|
  stake_table c e := for_epoch (stake_table2 c) e;
  da_stake_table c e := for_epoch (da_stake_table2 c) e;
  committee_members c _ e := keys_of <$> for_epoch (stake_table2 c) e;
  da_committee_members c _ e := keys_of <$> for_epoch (da_stake_table2 c) e;
  committee_leaders c _ e := keys_of <$> for_epoch (eligible_leaders2 c) e;
  stake c k e := t ← for_epoch (indexed_stake_table2 c) e; Ok (t !! k);
  da_stake c k e := t ← for_epoch (indexed_da_stake_table2 c) e; Ok (t !! k);
  has_stake c k e := t ← for_epoch (indexed_stake_table2 c) e; Ok (has_positive t k);
  has_da_stake c k e := t ← for_epoch (indexed_da_stake_table2 c) e; Ok (has_positive t k);
  lookup_leader c view e := l ← for_epoch (eligible_leaders2 c) e; leader_at l view;
  total_nodes c e := t ← for_epoch (stake_table2 c) e; Ok (Z.of_nat (length t));
  da_total_nodes c e := t ← for_epoch (da_stake_table2 c) e; Ok (Z.of_nat (length t));
  success_threshold c e := t ← for_epoch (stake_table2 c) e; threshold_two_thirds (length t);
  da_success_threshold c e := t ← for_epoch (da_stake_table2 c) e; threshold_two_thirds (length t);
  failure_threshold c e := t ← for_epoch (stake_table2 c) e; threshold_one_third (length t);
  upgrade_threshold c e := t ← for_epoch (stake_table2 c) e; threshold_max_nine_tenths (length t);
|}.
End TwoTables.

(** ** The contract *)

Section Contract.
Context `{SignatureScheme}.

Definition table_ok (t : list StakeTableEntry) : Prop :=
  NoDup (map stake_key t) ∧ Forall (fun e => 0 < stake_amount e) t ∧
  entries_ok t ∧ 9 * Z.of_nat (length t) < u64_modulus.

(** [o] is what the table says about key [k]. *)
Definition entry_of (t : list StakeTableEntry) (k : PubKey) (o : option StakeTableEntry) : Prop :=
  ∀ x, o = Some x ↔ x ∈ t ∧ stake_key x = k.

(** 2f+1, f+1 of a committee of [n]. *)
Definition two_thirds (n : Z) : Z := 2 * n / 3 + 1.
Definition one_third (n : Z) : Z := n / 3 + 1.

(** [known m e t td]: in epoch [e] the committee [m] has stake table [t] and DA
    stake table [td]. *)
Class CommitteeLaws {M} (Mb : Membership M)
    (known : M → option EpochNumber → list StakeTableEntry → list StakeTableEntry → Prop) := {
  known_tables m e t td : known m e t td → table_ok t ∧ table_ok td;
  known_stake_table m e t td : known m e t td → stake_table m e = Ok t;
  known_da_stake_table m e t td : known m e t td → da_stake_table m e = Ok td;
  known_stake m e t td k : known m e t td → ∃ o, stake m k e = Ok o ∧ entry_of t k o;
  known_da_stake m e t td k : known m e t td → ∃ o, da_stake m k e = Ok o ∧ entry_of td k o;
  known_has_stake m e t td k : known m e t td →
    has_stake m k e = Ok (bool_decide (k ∈ map stake_key t));
  known_total_nodes m e t td : known m e t td → total_nodes m e = Ok (Z.of_nat (length t));
  known_da_total_nodes m e t td : known m e t td → da_total_nodes m e = Ok (Z.of_nat (length td));
  known_success m e t td : known m e t td →
    success_threshold m e = Ok (two_thirds (Z.of_nat (length t)));
  known_da_success m e t td : known m e t td →
    da_success_threshold m e = Ok (two_thirds (Z.of_nat (length td)));
  known_failure m e t td : known m e t td →
    failure_threshold m e = Ok (one_third (Z.of_nat (length t)));
  known_upgrade m e t td : known m e t td → t ≠ [] →
    ∃ u, upgrade_threshold m e = Ok u ∧ two_thirds (Z.of_nat (length t)) <= u <= Z.of_nat (length t);
  known_leader m e t td v k : known m e t td → is_u64 v →
    lookup_leader m v e = Ok k → k ∈ map stake_key t;
  known_leader_total m e t td v : known m e t td → is_u64 v → t ≠ [] →
    ∃ k, lookup_leader m v e = Ok k;
}.

(** *** Lemmas shared by the instances *)

Lemma table_ok_sub t t' : t' `sublist_of` t → table_ok t → table_ok t'.
Proof.
  intros Hs (Hnd & Hp & [Hnn Htot] & Hlen). split_and!.
  - eapply sublist_NoDup; [done|]. by apply (fmap_sublist stake_key).
  - by eapply sublist_Forall.
  - split; [by eapply sublist_Forall|]. eapply Z.le_lt_trans; [|done].
    unfold total_stake_of. clear -Hs Hnn. induction Hs as [|x l1 l2 Hs IH|x l1 l2 Hs IH];
      simpl in *; [done|..]; apply Forall_cons in Hnn as [? Hnn]; specialize (IH Hnn); lia.
  - apply sublist_length in Hs. lia.
Qed.

Lemma index_by_key_spec t k : table_ok t → entry_of t k (index_by_key t !! k).
Proof.
  intros (Hnd & _) x. unfold index_by_key. by rewrite collect_map_spec.
Qed.

Lemma has_positive_spec t k :
  table_ok t → has_positive (index_by_key t) k = bool_decide (k ∈ map stake_key t).
Proof.
  intros Ht. pose proof (index_by_key_spec t k Ht) as Hk. unfold has_positive.
  destruct Ht as (_ & Hp & _). rewrite Forall_forall in Hp.
  destruct (index_by_key t !! k) as [x|].
  - destruct (proj1 (Hk x) eq_refl) as [Hx <-]. specialize (Hp x Hx). simpl in Hp.
    rewrite bool_decide_eq_true_2; [lia|]. by apply (list_elem_of_fmap_2 stake_key).
  - rewrite bool_decide_eq_false_2; [done|].
    intros (x & -> & Hx)%(list_elem_of_fmap stake_key). by specialize (proj2 (Hk x) (conj Hx eq_refl)).
Qed.

Section Thresholds.
Context (n : nat) (Hn : 9 * Z.of_nat n < u64_modulus).

Lemma two_thirds_eq {E} : threshold_two_thirds (E:=E) n = Ok (two_thirds (Z.of_nat n)).
Proof using Hn.
  assert (1 < u64_modulus) by by compute.
  unfold threshold_two_thirds, two_thirds, u64_mul. rewrite Z.mod_small by lia.
  rewrite (Z.mul_comm _ 2). unfold u64_add.
  assert (0 <= 2 * Z.of_nat n / 3 <= Z.of_nat n) by (split; [apply Z.div_pos|apply Z.div_le_upper_bound]; lia).
  rewrite Z.mod_small by lia. unfold nonzero. destruct (Z.eqb_spec (2 * Z.of_nat n / 3 + 1) 0); [lia|done].
Qed.

Lemma one_third_eq {E} : threshold_one_third (E:=E) n = Ok (one_third (Z.of_nat n)).
Proof using Hn.
  assert (1 < u64_modulus) by by compute.
  unfold threshold_one_third, one_third, u64_add.
  assert (0 <= Z.of_nat n / 3 <= Z.of_nat n) by (split; [apply Z.div_pos|apply Z.div_le_upper_bound]; lia).
  rewrite Z.mod_small by lia. unfold nonzero. destruct (Z.eqb_spec (Z.of_nat n / 3 + 1) 0); [lia|done].
Qed.

Lemma max_nine_tenths_eq {E} :
  threshold_max_nine_tenths (E:=E) n = Ok (Z.max (9 * Z.of_nat n / 10) (two_thirds (Z.of_nat n))).
Proof using Hn.
  assert (1 < u64_modulus) by by compute.
  unfold threshold_max_nine_tenths, two_thirds, u64_mul. rewrite !Z.mod_small by lia.
  rewrite (Z.mul_comm _ 2), (Z.mul_comm _ 9). unfold u64_add.
  assert (0 <= 2 * Z.of_nat n / 3 <= Z.of_nat n) by (split; [apply Z.div_pos|apply Z.div_le_upper_bound]; lia).
  rewrite Z.mod_small by lia. unfold nonzero. destruct (Z.eqb_spec (Z.max (9 * Z.of_nat n / 10) (2 * Z.of_nat n / 3 + 1)) 0); [lia|done].
Qed.

Lemma nine_tenths_eq {E} :
  threshold_nine_tenths (E:=E) n = Ok (9 * Z.of_nat n / 10 + 1).
Proof using Hn.
  assert (1 < u64_modulus) by by compute.
  unfold threshold_nine_tenths, u64_mul. rewrite Z.mod_small by lia.
  rewrite (Z.mul_comm _ 9). unfold u64_add.
  assert (0 <= 9 * Z.of_nat n / 10 <= Z.of_nat n) by (split; [apply Z.div_pos|apply Z.div_le_upper_bound]; lia).
  rewrite Z.mod_small by lia. unfold nonzero. destruct (Z.eqb_spec (9 * Z.of_nat n / 10 + 1) 0); [lia|done].
Qed.
End Thresholds.

Lemma nine_tenths_bounds n : 0 < n → two_thirds n <= 9 * n / 10 + 1 <= n ∧ two_thirds n <= n.
Proof. unfold two_thirds. intros. Z.to_euclidean_division_equations. lia. Qed.

Lemma leader_at_ok {E} l n :
  l ≠ [] → ∃ x, l !! Z.to_nat (n mod Z.of_nat (length l)) = Some x ∧
  leader_at (E:=E) l n = Ok (stake_key x).
Proof.
  intros Hl. assert (0 < Z.of_nat (length l)) by (destruct l; simpl in *; [done|lia]).
  pose proof (Z.mod_pos_bound n (Z.of_nat (length l)) ltac:(lia)).
  destruct (lookup_lt_is_Some_2 l (Z.to_nat (n mod Z.of_nat (length l)))) as [x Hx]; [lia|].
  exists x. split; [done|]. unfold leader_at.
  destruct (Z.eqb_spec (Z.of_nat (length l)) 0); [lia|]. by rewrite (index_Some _ _ _ Hx).
Qed.

Lemma leader_at_elem {E} l n k : leader_at (E:=E) l n = Ok k → k ∈ map stake_key l.
Proof.
  destruct (decide (l = [])) as [->|Hl]; [done|].
  destruct (leader_at_ok (E:=E) l n Hl) as (x & Hx & ->). intros [= <-].
  apply (list_elem_of_fmap_2 stake_key). by eapply list_elem_of_lookup_2.
Qed.
End Contract.

(** ** The instances keep the contract *)

Section Instances.
Context `{SignatureScheme}.

(** A committee made by [committee_new], in any epoch. *)
Definition single_known (c : Committee) (_ : option EpochNumber)
    (t td : list StakeTableEntry) : Prop :=
  table_ok t ∧ table_ok td ∧
  c = {| eligible_leaders := t; c_stake_table := t; c_da_stake_table := td;
         indexed_stake_table := index_by_key t; indexed_da_stake_table := index_by_key td |}.

Lemma committee_new_known members da e :
  table_ok (staked members) → table_ok (staked da) →
  single_known (committee_new members da) e (staked members) (staked da).
Proof. done. Qed.

(** A committee of [committee_membership] keeps the contract when its leader is
    chosen by an index and its upgrade threshold is between 2f+1 and n. *)
Lemma committee_laws (idx : ViewNumber → Z) upgrade :
  (∀ n, (0 < n)%nat → 9 * Z.of_nat n < u64_modulus →
    ∃ u, upgrade n = Ok u ∧ two_thirds (Z.of_nat n) <= u <= Z.of_nat n) →
  CommitteeLaws (committee_membership (fun c v => leader_at (eligible_leaders c) (idx v)) upgrade)
    single_known.
Proof.
  intros Hup. constructor; intros m e t td; intros;
    match goal with K : single_known _ _ _ _ |- _ => destruct K as (Ht & Htd & ->) end; simpl in *.
  - done.
  - done.
  - done.
  - eexists. split; [done|]. by apply index_by_key_spec.
  - eexists. split; [done|]. by apply index_by_key_spec.
  - by rewrite has_positive_spec.
  - done.
  - done.
  - apply two_thirds_eq. apply Ht.
  - apply two_thirds_eq. apply Htd.
  - apply one_third_eq. apply Ht.
  - apply Hup; [by destruct t; simpl in *; [|lia]|apply Ht].
  - by eapply leader_at_elem.
  - destruct (leader_at_ok (E:=Error) t (idx v)) as (x & _ & ->); eauto.
Qed.

Lemma max_nine_tenths_upgrade n :
  (0 < n)%nat → 9 * Z.of_nat n < u64_modulus →
  ∃ u, threshold_max_nine_tenths (E:=Error) n = Ok u ∧ two_thirds (Z.of_nat n) <= u <= Z.of_nat n.
Proof.
  intros Hn Hs. rewrite max_nine_tenths_eq by done. eexists. split; [done|].
  pose proof (nine_tenths_bounds (Z.of_nat n) ltac:(lia)). lia.
Qed.

Lemma nine_tenths_upgrade n :
  (0 < n)%nat → 9 * Z.of_nat n < u64_modulus →
  ∃ u, threshold_nine_tenths (E:=Error) n = Ok u ∧ two_thirds (Z.of_nat n) <= u <= Z.of_nat n.
Proof.
  intros Hn Hs. rewrite nine_tenths_eq by done. eexists. split; [done|].
  apply (nine_tenths_bounds (Z.of_nat n)). lia.
Qed.

#[global] Instance static_committee_laws : CommitteeLaws StaticCommittee single_known.
Proof. apply (committee_laws (fun v => v)), max_nine_tenths_upgrade. Qed.

#[global] Instance two_views_laws : CommitteeLaws StaticCommitteeLeaderForTwoViews single_known.
Proof. apply (committee_laws (fun v => v / 2)), nine_tenths_upgrade. Qed.

#[global] Instance randomized_laws random : CommitteeLaws (RandomizedCommittee random) single_known.
Proof. apply (committee_laws random), max_nine_tenths_upgrade. Qed.

(** [TwoStaticCommittees] in epoch [Some e]. *)
Definition two_known (c : TwoCommittees) (e : option EpochNumber)
    (t td : list StakeTableEntry) : Prop :=
  table_ok t ∧ table_ok td ∧
  for_epoch (E:=Error) (stake_table2 c) e = Ok t ∧
  for_epoch (E:=Error) (eligible_leaders2 c) e = Ok t ∧
  for_epoch (E:=Error) (da_stake_table2 c) e = Ok td ∧
  for_epoch (E:=Error) (indexed_stake_table2 c) e = Ok (index_by_key t) ∧
  for_epoch (E:=Error) (indexed_da_stake_table2 c) e = Ok (index_by_key td).

#[global] Instance two_committees_laws : CommitteeLaws TwoStaticCommittees two_known.
Proof.
  constructor; intros m e t td; intros;
    match goal with K : two_known _ _ _ _ |- _ =>
      destruct K as (Ht & Htd & K1 & K2 & K3 & K4 & K5) end;
    simpl in *; rewrite ?K1, ?K2, ?K3, ?K4, ?K5 in *; mon.
  - done.
  - done.
  - done.
  - eexists. split; [done|]. by apply index_by_key_spec.
  - eexists. split; [done|]. by apply index_by_key_spec.
  - by rewrite has_positive_spec.
  - done.
  - done.
  - apply two_thirds_eq. apply Ht.
  - apply two_thirds_eq. apply Htd.
  - apply one_third_eq. apply Ht.
  - apply max_nine_tenths_upgrade; [by destruct t; simpl in *; [|lia]|apply Ht].
  - by eapply leader_at_elem.
  - destruct (leader_at_ok (E:=Error) t v) as (x & _ & ->); eauto.
Qed.

Lemma every_other_sublist {A} p (l : list A) : every_other p l `sublist_of` l.
Proof.
  unfold every_other.
  cut (∀ (g : nat * A → option A) (f : nat → nat),
    (∀ i x y, g (i, x) = Some y → y = x) →
    omap g (imap (fun idx x => (f idx, x)) l) `sublist_of` l).
  { intros Hc. apply (Hc _ id). intros i x y. case_match; naive_solver. }
  intros g f Hg. revert f. induction l as [|x l IH]; intros f; csimpl; [constructor|].
  destruct (g (f 0%nat, x)) eqn:E; [apply Hg in E as ->|]; constructor; apply (IH (f ∘ S)).
Qed.

Lemma two_committees_new_known members da e :
  table_ok (staked members) → table_ok (staked da) →
  ∃ t td, two_known (two_committees_new members da) (Some e) t td ∧
    t = (if negb (e =? 0) && (e mod 2 =? 0) then every_other 0 (staked members)
         else every_other 1 (staked members)).
Proof.
  intros Hm Hd.
  assert (∀ p l, table_ok l → table_ok (every_other p l)) as Hsub
    by (intros p l; apply table_ok_sub, every_other_sublist).
  unfold two_known, for_epoch. simpl. mon. destruct (negb (e =? 0) && (e mod 2 =? 0)); simpl;
    eexists _, _; (split; [split_and!; try reflexivity; auto|reflexivity]).
Qed.
End Instances.

(** ** Properties *)

Section Properties.
Context `{Sg : SignatureScheme}.

Definition unit_stakes (t : list StakeTableEntry) : Prop :=
  Forall (fun e => stake_amount e = 1) t.

Lemma unit_stakes_total t : unit_stakes t → total_stake_of t = Z.of_nat (length t).
Proof. unfold total_stake_of. induction 1; simpl; lia. Qed.

Lemma unit_quorum_arith n : 0 <= n → one_third n <= 2 * two_thirds n - n.
Proof. unfold one_third, two_thirds. intros. Z.to_euclidean_division_equations. lia. Qed.

(** Quorum intersection with equal stakes: in an epoch a committee knows
    and in which every node has stake one, two assembled signatures that check
    against its stake table and success threshold, for any two messages, share
    signers whose number is at least the failure threshold f+1, and each shared
    signer signed both messages. *)
Theorem unit_stake_quorum_intersection {M} {Mb : Membership M} {known}
    {Lc : CommitteeLaws Mb known} {signed} {Ls : SignatureLaws Sg signed}
    (m : M) e t td thr f m1 m2 sig1 sig2 s1 s2 w1 w2 :
  known m e t td → unit_stakes t →
  success_threshold m e = Ok thr → failure_threshold m e = Ok f →
  check_qc (public_parameter t thr) m1 (sig1, s1) = Ok w1 →
  check_qc (public_parameter t thr) m2 (sig2, s2) = Ok w2 →
  f <= weight t (zip_with andb s1 s2) ∧
  Forall (fun k => signed k m1 ∧ signed k m2) (ver_keys t (zip_with andb s1 s2)).
Proof.
  intros Hk Hu Hthr Hf Hc1 Hc2.
  rewrite (known_success _ _ _ _ Hk) in Hthr. rewrite (known_failure _ _ _ _ Hk) in Hf.
  simplify_eq. destruct (known_tables _ _ _ _ Hk) as [(_ & _ & Hok & _) _].
  destruct (qc_overlap (public_parameter t _) _ _ _ _ _ _ _ _ Hok Hc1 Hc2) as [Hw Hs]. split; [|done].
  simpl in Hw. rewrite unit_stakes_total in Hw by done.
  pose proof (unit_quorum_arith (Z.of_nat (length t)) ltac:(lia)). lia.
Qed.

(** Leadership rotates: a [StaticCommittee] with a known, non-empty table
    gives every member exactly one view in any window of as many consecutive
    views as it has members. *)
Theorem static_leader_rotation (c : Committee) e t td v k :
  single_known c e t td → k ∈ map stake_key t →
  is_u64 v → is_u64 (v + Z.of_nat (length t)) →
  ∃ j, 0 <= j < Z.of_nat (length t) ∧ lookup_leader (Membership := StaticCommittee) c (v + j) e = Ok k ∧
    ∀ j', 0 <= j' < Z.of_nat (length t) →
      lookup_leader (Membership := StaticCommittee) c (v + j') e = Ok k → j' = j.
Proof.
  intros (Ht & Htd & ->) Hk Hv Hvn. simpl. destruct Ht as (Hnd & _).
  apply list_elem_of_lookup in Hk as [i Hi]. fold (stake_key <$> t) in Hi, Hnd.
  pose proof (lookup_lt_Some _ _ _ Hi) as Hlt. rewrite length_fmap in Hlt.
  set (n := Z.of_nat (length t)) in *. assert (t ≠ []) as Hne by (intros ->; simpl in *; lia).
  assert (∀ j, leader_at (E:=Error) t (v + j) = Ok k ↔ (v + j) mod n = Z.of_nat i) as Hlead.
  { intros j. destruct (leader_at_ok (E:=Error) t (v + j) Hne) as (x & Hx & ->).
    fold n in Hx. pose proof (Z.mod_pos_bound (v + j) n ltac:(lia)) as Hb. split.
    - intros [= Hkx]. enough (Z.to_nat ((v + j) mod n) = i) by lia.
      eapply NoDup_lookup; [done| |done]. by rewrite list_lookup_fmap, Hx, <-Hkx.
    - intros Heq. rewrite Heq, Nat2Z.id in Hx.
      rewrite list_lookup_fmap, Hx in Hi. by simplify_eq/=. }
  exists ((Z.of_nat i - v) mod n).
  pose proof (Z.mod_pos_bound (Z.of_nat i - v) n ltac:(lia)) as Hb. split; [done|]. split.
  - apply Hlead. rewrite Zplus_mod_idemp_r.
    replace (v + (Z.of_nat i - v)) with (Z.of_nat i) by lia. apply Z.mod_small. lia.
  - intros j' Hj' Hl%Hlead. rewrite <-Hl. rewrite Zminus_mod_idemp_l.
    replace (v + j' - v) with j' by lia. symmetry. by apply Z.mod_small.
Qed.
End Properties.

(** ** Examples and witnesses *)

#[local] Existing Instance Ideal.open_signatures.

Module Demo.
Definition peers : list PeerConfig := map (Build_PeerConfig _) Ideal.table3.
Definition committee : Committee := committee_new peers peers.

Lemma table3_table_ok : table_ok Ideal.table3.
Proof.
  split_and!; [|repeat constructor|apply Ideal.table3_ok|by compute].
  apply (bool_decide_unpack _). by vm_compute.
Qed.

Lemma committee_known e : single_known committee e Ideal.table3 Ideal.table3.
Proof. split_and!; [apply table3_table_ok..|done]. Qed.

(** Two nodes with one hundred times the stake of the third. *)
Definition weighted : list StakeTableEntry :=
  [ {| stake_key := 10; stake_amount := 100 |}; {| stake_key := 20; stake_amount := 100 |};
    {| stake_key := 30; stake_amount := 1 |} ].
Definition weighted_committee : Committee :=
  committee_new (map (Build_PeerConfig _) weighted) [].
Definition msg1 : bytes := 1 :: replicate 31 0.
Definition msg2 : bytes := 2 :: replicate 31 0.
End Demo.

(** The thresholds of a [StaticCommittee] count nodes, while a certificate
    is checked against the stake of its signers: with unequal stakes two
    certificates for different messages can both reach the success threshold
    with no signer in common. *)
Theorem weighted_quorums_can_be_disjoint :
  ∃ thr qc1 qc2,
    success_threshold (Membership := StaticCommittee) Demo.weighted_committee None = Ok thr ∧
    stake_table (Membership := StaticCommittee) Demo.weighted_committee None = Ok Demo.weighted ∧
    is_ok (check_qc (public_parameter Demo.weighted thr) Demo.msg1 qc1) = true ∧
    is_ok (check_qc (public_parameter Demo.weighted thr) Demo.msg2 qc2) = true ∧
    Demo.msg1 ≠ Demo.msg2 ∧
    ver_keys Demo.weighted (zip_with andb qc1.2 qc2.2) = [].
Proof.
  exists 3, ([(10, Demo.msg1)], [true; false; false]), ([(20, Demo.msg2)], [false; true; false]).
  split_and!; [by vm_compute..|done|by vm_compute].
Qed.

Lemma unit_stake_quorum_intersection_witness :
  2 <= weight Ideal.table3 (zip_with andb [true; true; true] [true; true; true]).
Proof.
  refine (proj1 (unit_stake_quorum_intersection (Lc := static_committee_laws)
    (Ls := Ideal.open_laws) Demo.committee None Ideal.table3 Ideal.table3 3 2 Ideal.msg Ideal.msg
    (map (fun k => (k, Ideal.msg)) [10; 20; 30]) (map (fun k => (k, Ideal.msg)) [10; 20; 30])
    [true; true; true] [true; true; true] 3 3 (Demo.committee_known None) _ _ _ _ _));
  [repeat constructor|vm_compute; reflexivity..].
Defined.

Lemma static_leader_rotation_witness :
  ∃ j, 0 <= j < 3 ∧ lookup_leader (Membership := StaticCommittee) Demo.committee (5 + j) None = Ok 20.
Proof.
  destruct (static_leader_rotation Demo.committee None Ideal.table3 Ideal.table3 5 20
    (Demo.committee_known None)) as (j & Hj & Hl & _);
  [|by compute|by compute|exists j; by split].
  right. left.
Defined.
