(* ===== verification/QuorumFilter.v ===== *)
(** * Committees drawn at random for each epoch

    [hotshot/src/traits/election/helpers.rs]: iterators that draw the members of an
    epoch from a seeded generator, with some members of the previous epoch among them;
    and [randomized_committee_members.rs], the committee made of them, another
    instance of [Membership].

    The generator [StdRng] is outside.  The loop that draws until it finds a value it
    has not yet returned has fuel; with a generator that draws every value sooner or
    later, some fuel is enough ([filter_completes]). *)

From S2P Require Import Prelude Epochs Crypto Committee.

Class Rng := {
  StdRng : Type;
  seed_from_u64 : Z → StdRng;
  (** [gen_range(lo..hi)] *)
  gen_range : StdRng → Z → Z → Z * StdRng;
}.

Section Draws.
Context `{Rg : Rng}.

(** The [n]-th value that is drawn from [0..max]. *)
Fixpoint nth_draw (n : nat) (rng : StdRng) (max : Z) : Z :=
  let '(v, rng) := gen_range rng 0 max in
  match n with
  | O => v
  | S n => nth_draw n rng max
  end.
End Draws.

(** A value drawn from a range is in it; every value is drawn some time. *)
Class RngLaws `{Rg : Rng} := {
  gen_range_bound rng lo hi : lo < hi → lo <= (gen_range rng lo hi).1 < hi;
  gen_range_fair rng max v : 0 <= v < max → ∃ n, nth_draw n rng max = v;
}.

(** A set with fewer values than the range leaves one out. *)
Lemma fresh_value (s : gset Z) max : Z.of_nat (size s) < max → ∃ v, 0 <= v < max ∧ v ∉ s.
Proof.
  intros Hlt. set (all := list_to_set (map Z.of_nat (seq 0 (Z.to_nat max))) : gset Z).
  destruct (set_choose_or_empty (all ∖ s)) as [[v [Hv Hn]%elem_of_difference]|Hempty].
  - unfold all in Hv. rewrite elem_of_list_to_set, list_elem_of_fmap in Hv. destruct Hv as (k & -> & Hk).
    apply elem_of_seq in Hk. exists (Z.of_nat k). split; [lia|done].
  - assert (all ⊆ s) as Hsub by set_solver. apply subseteq_size in Hsub. unfold all in Hsub. rewrite size_list_to_set in Hsub.
    + rewrite length_map, length_seq in Hsub. lia.
    + apply NoDup_fmap_2; [apply _|apply NoDup_seq].
Qed.

Section Filters.
Context `{Rg : Rng}.

(** ** [NonRepeatValueIterator] *)

Record NonRepeatValueIterator := {
  nr_rng : StdRng;
  nr_values : gset Z;
  nr_max : Z;
}.

Definition NonRepeat_new (rng : StdRng) (max : Z) : NonRepeatValueIterator :=
  {| nr_rng := rng; nr_values := ∅; nr_max := max |}.

Fixpoint nr_loop (fuel : nat) (it : NonRepeatValueIterator) : option (Z * NonRepeatValueIterator) :=
  match fuel with
  | O => None
  | S fuel =>
      let '(v, rng) := gen_range (nr_rng it) 0 (nr_max it) in
      if decide (v ∈ nr_values it) then nr_loop fuel {| nr_rng := rng; nr_values := nr_values it; nr_max := nr_max it |}
      else Some (v, {| nr_rng := rng; nr_values := {[v]} ∪ nr_values it; nr_max := nr_max it |})
  end.

Definition nr_next (fuel : nat) (it : NonRepeatValueIterator) : option (option Z * NonRepeatValueIterator) :=
  if nr_max it <=? Z.of_nat (size (nr_values it)) then Some (None, it)
  else '(v, it) ← nr_loop fuel it; Some (Some v, it).

(** ** Seeds *)

Definition make_seed (seed round : Z) : Z := u64_add seed (u64_mul round 256).

Definition make_rngs (seed round : Z) : StdRng * StdRng :=
  (seed_from_u64 (make_seed seed (u64_sub round 1)), seed_from_u64 (make_seed seed round)).

Definition calc_num_slots (count : Z) (odd : bool) : Z := count / 2 + (if odd then 0 else count mod 2).

(** ** The iterators

    [StableQuorumIterator] and [RandomOverlapQuorumIterator] differ in how many members
    they return: half of the nodes, or a random number. *)

Record QuorumIterator := {
  qi_prev_rng : NonRepeatValueIterator;
  qi_this_rng : NonRepeatValueIterator;
  qi_round : Z;
  qi_members : Z;
  qi_overlap : Z;
  qi_index : Z;
}.

Definition iterator_new (prev_rng this_rng : StdRng) (round count members overlap : Z) : QuorumIterator :=
  {| qi_prev_rng := NonRepeat_new prev_rng (calc_num_slots count (round mod 2 =? 0));
     qi_this_rng := NonRepeat_new this_rng (calc_num_slots count (round mod 2 =? 1));
     qi_round := round; qi_members := members; qi_overlap := overlap; qi_index := 0 |}.

Definition StableQuorumIterator_new (seed round count overlap : Z) : outcome Error QuorumIterator :=
  if overlap <? count / 2 then
    let '(prev_rng, this_rng) := make_rngs seed round in
    Ok (iterator_new prev_rng this_rng round count (count / 2) overlap)
  else Panic.

(** The two numbers a round starts with. *)
Definition draw_sizes (rng : StdRng) (members_min members_max overlap_min overlap_max : Z) : Z * Z * StdRng :=
  let '(members, rng) := gen_range rng members_min (members_max + 1) in
  let '(overlap, rng) := gen_range rng overlap_min (overlap_max + 1) in
  (members, overlap, rng).

Definition RandomOverlapQuorumIterator_new (seed round count members_min members_max overlap_min overlap_max : Z)
    : outcome Error QuorumIterator :=
  if (members_min <=? members_max) && (overlap_min <=? overlap_max) && (overlap_max <? members_min) &&
     (overlap_max <? count / 2) && (members_max - overlap_min <=? count / 2) then
    let '(prev_rng, this_rng) := make_rngs seed round in
    let '(_, _, prev_rng) := draw_sizes prev_rng members_min members_max overlap_min overlap_max in
    let '(this_members, this_overlap, this_rng) := draw_sizes this_rng members_min members_max overlap_min overlap_max in
    Ok (iterator_new prev_rng this_rng round count this_members this_overlap)
  else Panic.

(** [next]; [None] when out of fuel. *)
Definition quorum_next (fuel : nat) (it : QuorumIterator) : option (outcome Error (option Z * QuorumIterator)) :=
  if qi_members it <=? qi_index it then Some (Ok (None, it))
  else if qi_index it <? qi_overlap it then
    '(v, rng) ← nr_next fuel (qi_prev_rng it);
    Some (v ← unwrap v;
          Ok (Some (v * 2 + (1 - qi_round it mod 2)),
              {| qi_prev_rng := rng; qi_this_rng := qi_this_rng it; qi_round := qi_round it; qi_members := qi_members it;
                 qi_overlap := qi_overlap it; qi_index := qi_index it + 1 |}))
  else
    '(v, rng) ← nr_next fuel (qi_this_rng it);
    Some (v ← unwrap v;
          Ok (Some (v * 2 + qi_round it mod 2),
              {| qi_prev_rng := qi_prev_rng it; qi_this_rng := rng; qi_round := qi_round it; qi_members := qi_members it;
                 qi_overlap := qi_overlap it; qi_index := qi_index it + 1 |})).

(** All values of the iterator; [calls] bounds the calls of [next]. *)
Fixpoint quorum_collect (fuel calls : nat) (it : QuorumIterator) : option (outcome Error (list Z)) :=
  match calls with
  | O => None
  | S calls =>
      r ← quorum_next fuel it;
      match r with
      | Ok (None, _) => Some (Ok [])
      | Ok (Some v, it) => rest ← quorum_collect fuel calls it; Some (l ← rest; Ok (v :: l))
      | Err e => Some (Err e)
      | Panic => Some Panic
      end
  end.

(** A call for each member, and one that returns nothing. *)
Definition collect_set (fuel : nat) (it : outcome Error QuorumIterator) : option (outcome Error (gset nat)) :=
  match it with
  | Ok it =>
      r ← quorum_collect fuel (S (Z.to_nat (qi_members it))) it;
      Some (l ← r; Ok (list_to_set (map Z.to_nat l)))
  | Err e => Some (Err e)
  | Panic => Some Panic
  end.

Definition stable_quorum_filter (fuel : nat) (seed round count overlap : Z) : option (outcome Error (gset nat)) :=
  collect_set fuel (StableQuorumIterator_new seed round count overlap).

Definition random_overlap_quorum_filter (fuel : nat) (seed round count members_min members_max overlap_min overlap_max : Z)
    : option (outcome Error (gset nat)) :=
  collect_set fuel (RandomOverlapQuorumIterator_new seed round count members_min members_max overlap_min overlap_max).

(** ** Properties of the filters *)

Definition nr_ok (it : NonRepeatValueIterator) : Prop := ∀ v, v ∈ nr_values it → 0 <= v < nr_max it.

(** The values an iterator returns in [n] calls. *)
Fixpoint nr_take (fuel n : nat) (it : NonRepeatValueIterator) : option (list Z * NonRepeatValueIterator) :=
  match n with
  | O => Some ([], it)
  | S n =>
      '(v, it) ← nr_next fuel it;
      match v with
      | Some v => '(l, it) ← nr_take fuel n it; Some (v :: l, it)
      | None => None
      end
  end.

Lemma nr_loop_spec `{!RngLaws} fuel it v it' :
  nr_loop fuel it = Some (v, it') → 0 < nr_max it →
  0 <= v < nr_max it ∧ v ∉ nr_values it ∧ nr_values it' = {[v]} ∪ nr_values it ∧ nr_max it' = nr_max it.
Proof using Type.
  revert it. induction fuel as [|fuel IH]; intros it; simpl; [done|].
  destruct (gen_range (nr_rng it) 0 (nr_max it)) as [x rng] eqn:Hx. case_decide as Hd; intros Hl Hpos.
  - by apply IH in Hl.
  - injection Hl as <- <-. pose proof (gen_range_bound (nr_rng it) 0 (nr_max it) Hpos) as Hb. rewrite Hx in Hb.
    split_and!; [apply Hb..|done|done|done].
Qed.

Lemma nr_next_spec `{!RngLaws} fuel it r it' :
  nr_next fuel it = Some (r, it') → nr_max it' = nr_max it ∧
  match r with
  | Some v => 0 <= v < nr_max it ∧ v ∉ nr_values it ∧ nr_values it' = {[v]} ∪ nr_values it
  | None => nr_max it <= Z.of_nat (size (nr_values it)) ∧ it' = it
  end.
Proof using Type.
  unfold nr_next. destruct (Z.leb_spec (nr_max it) (Z.of_nat (size (nr_values it)))) as [Hle|Hlt].
  { by intros [= <- <-]. }
  destruct (nr_loop fuel it) as [[v it1]|] eqn:Hl; [|done]. intros [= <- <-].
  apply nr_loop_spec in Hl as (? & ? & ? & ?); [done|lia].
Qed.

Lemma nr_take_spec `{!RngLaws} fuel n it l it' :
  nr_take fuel n it = Some (l, it') →
  length l = n ∧ NoDup l ∧ nr_max it' = nr_max it ∧ nr_values it' = list_to_set l ∪ nr_values it ∧
  Forall (fun v => 0 <= v < nr_max it ∧ v ∉ nr_values it) l.
Proof using Type.
  revert it l. induction n as [|n IH]; intros it l; simpl.
  { intros [= <- <-]. split_and!; [done|constructor|done|set_solver|constructor]. }
  destruct (nr_next fuel it) as [[[v|] it1]|] eqn:Hn; [|done..]. simpl.
  destruct (nr_take fuel n it1) as [[l1 it2]|] eqn:Ht; [|done]. intros [= <- <-].
  apply nr_next_spec in Hn as (Hm & Hv & Hvn & Hvals). apply IH in Ht as (Hlen & Hnd & Hm2 & Hvals2 & Hall).
  rewrite Hm in Hall. rewrite Hvals in Hvals2, Hall. split_and!; [simpl; lia| |congruence| |].
  - constructor; [|done]. intros Hin. rewrite Forall_forall in Hall. apply Hall in Hin as [_ Hin]. set_solver.
  - rewrite Hvals2. set_solver.
  - constructor; [done|]. eapply Forall_impl; [exact Hall|]. intros x [? Hx]. split; [done|]. set_solver.
Qed.

(** *** More fuel changes nothing *)

Lemma nr_loop_mono fuel fuel' it r : (fuel <= fuel')%nat → nr_loop fuel it = Some r → nr_loop fuel' it = Some r.
Proof using Type.
  revert fuel' it. induction fuel as [|fuel IH]; intros fuel' it Hle; [done|]. destruct fuel' as [|fuel']; [lia|]. simpl.
  destruct (gen_range _ _ _). case_decide; [|done]. apply IH. lia.
Qed.

Lemma nr_next_mono fuel fuel' it r : (fuel <= fuel')%nat → nr_next fuel it = Some r → nr_next fuel' it = Some r.
Proof using Type.
  unfold nr_next. intros Hle. destruct (_ <=? _); [done|]. destruct (nr_loop fuel it) as [x|] eqn:Hl; [|done].
  by rewrite (nr_loop_mono _ _ _ _ Hle Hl).
Qed.

Lemma quorum_next_mono fuel fuel' it r : (fuel <= fuel')%nat → quorum_next fuel it = Some r → quorum_next fuel' it = Some r.
Proof using Type.
  unfold quorum_next. intros Hle. destruct (_ <=? _); [done|].
  destruct (_ <? _); (destruct (nr_next fuel _) as [x|] eqn:Hn; [|done]; by rewrite (nr_next_mono _ _ _ _ Hle Hn)).
Qed.

Lemma quorum_collect_mono fuel fuel' calls it r :
  (fuel <= fuel')%nat → quorum_collect fuel calls it = Some r → quorum_collect fuel' calls it = Some r.
Proof using Type.
  intros Hle. revert it r. induction calls as [|calls IH]; intros it r; simpl; [done|].
  destruct (quorum_next fuel it) as [x|] eqn:Hn; [|done]. rewrite (quorum_next_mono _ _ _ _ Hle Hn). simpl.
  destruct x as [[[v|] it']| |]; [|done..]. destruct (quorum_collect fuel calls it') as [y|] eqn:Hc; [|done].
  by rewrite (IH _ _ Hc).
Qed.

Lemma collect_set_mono fuel fuel' it r : (fuel <= fuel')%nat → collect_set fuel it = Some r → collect_set fuel' it = Some r.
Proof using Type.
  intros Hle. unfold collect_set. destruct it as [it| |]; [|done..].
  destruct (quorum_collect fuel _ it) as [x|] eqn:Hc; [|done]. by rewrite (quorum_collect_mono _ _ _ _ _ Hle Hc).
Qed.

Lemma nr_take_mono fuel fuel' n it r : (fuel <= fuel')%nat → nr_take fuel n it = Some r → nr_take fuel' n it = Some r.
Proof using Type.
  intros Hle. revert it r. induction n as [|n IH]; intros it r; simpl; [done|].
  destruct (nr_next fuel it) as [x|] eqn:Hn; [|done]. rewrite (nr_next_mono _ _ _ _ Hle Hn). simpl.
  destruct x as [[v|] it']; [|done]. destruct (nr_take fuel n it') as [y|] eqn:Hc; [|done]. by rewrite (IH _ _ Hc).
Qed.

(** The first values are the same however many are asked for. *)
Lemma nr_take_prefix fuel n m it l it1 l' it2 :
  (n <= m)%nat → nr_take fuel n it = Some (l, it1) → nr_take fuel m it = Some (l', it2) → l = take n l'.
Proof using Type.
  revert m it l l'. induction n as [|n IH]; intros m it l l' Hle; simpl; [by intros [= <- _]|].
  destruct m as [|m]; [lia|]. simpl. destruct (nr_next fuel it) as [[[v|] it']|]; [|done..]. simpl.
  destruct (nr_take fuel n it') as [[x itx]|] eqn:Hx; [|done]. destruct (nr_take fuel m it') as [[y ity]|] eqn:Hy; [|done].
  intros [= <- <-] [= <- <-]. simpl. f_equal. eapply (IH m it' x y); [lia|done|done].
Qed.

(** *** Fair generators *)

Section Fair.
Context `{Rl : !RngLaws}.

Lemma nr_loop_finds n it : nth_draw n (nr_rng it) (nr_max it) ∉ nr_values it → is_Some (nr_loop (S n) it).
Proof using Type.
  revert it. induction n as [|n IH]; intros it; cbn [nth_draw nr_loop];
    destruct (gen_range (nr_rng it) 0 (nr_max it)) as [v rng]; intros Hn; (case_decide as Hd; [|eauto]).
  - done.
  - apply (IH {| nr_rng := rng; nr_values := nr_values it; nr_max := nr_max it |}). exact Hn.
Qed.

Lemma nr_take_completes n it :
  Z.of_nat (size (nr_values it)) + Z.of_nat n <= nr_max it → ∃ fuel, is_Some (nr_take fuel n it).
Proof using Rl.
  revert it. induction n as [|n IH]; intros it Hn; [by exists 0%nat; eexists|].
  destruct (fresh_value (nr_values it) (nr_max it)) as (v & Hv & Hvn); [lia|].
  destruct (gen_range_fair (nr_rng it) (nr_max it) v Hv) as [k Hk].
  destruct (nr_loop_finds k it) as [[x it1] Hl]; [by rewrite Hk|].
  assert (nr_next (S k) it = Some (Some x, it1)) as Hnext.
  { unfold nr_next. rewrite (proj2 (Z.leb_gt _ _)) by lia. by rewrite Hl. }
  destruct (nr_loop_spec _ _ _ _ Hl) as (_ & Hfresh & Hvals & Hmax); [lia|].
  destruct (IH it1) as [fuel [r Hr]]. { rewrite Hvals, Hmax, size_union by set_solver. rewrite size_singleton. lia. }
  exists (S k + fuel)%nat. cbn [nr_take]. rewrite (nr_next_mono (S k) (S k + fuel) _ _ ltac:(lia) Hnext). cbn [mbind option_bind].
  rewrite (nr_take_mono fuel (S k + fuel) _ _ _ ltac:(lia) Hr). destruct r. by eexists.
Qed.

(** *** The values of an iterator *)

Definition carried (it : QuorumIterator) (v : Z) : Z := v * 2 + (1 - qi_round it mod 2).
Definition fresh (it : QuorumIterator) (v : Z) : Z := v * 2 + qi_round it mod 2.
(** How many values are still to come from the previous and from this round. *)
Definition rest_prev (it : QuorumIterator) : nat := Z.to_nat (Z.min (qi_overlap it) (qi_members it) - qi_index it).
Definition rest_this (it : QuorumIterator) : nat := Z.to_nat (qi_members it - Z.max (qi_overlap it) (qi_index it)).

Lemma quorum_collect_spec fuel calls it lp lt itp itt :
  (Z.to_nat (qi_members it - qi_index it) < calls)%nat →
  nr_take fuel (rest_prev it) (qi_prev_rng it) = Some (lp, itp) →
  nr_take fuel (rest_this it) (qi_this_rng it) = Some (lt, itt) →
  quorum_collect fuel calls it = Some (Ok (map (carried it) lp ++ map (fresh it) lt)).
Proof using Type.
  revert it lp lt. induction calls as [|calls IH]; intros it lp lt Hc Hp Ht; [lia|]. cbn [quorum_collect]. unfold quorum_next.
  destruct (Z.leb_spec (qi_members it) (qi_index it)) as [Hend|Hmore].
  { assert (rest_prev it = 0%nat) as E1 by (unfold rest_prev; lia). assert (rest_this it = 0%nat) as E2 by (unfold rest_this; lia).
    rewrite E1 in Hp. rewrite E2 in Ht. simpl in *. by simplify_eq. }
  destruct (Z.ltb_spec (qi_index it) (qi_overlap it)) as [Hprev|Hthis].
  - assert (∃ k, rest_prev it = S k ∧ k = Z.to_nat (Z.min (qi_overlap it) (qi_members it) - (qi_index it + 1))) as (k & Ek & Hk).
    { unfold rest_prev. eexists. split; [|done]. lia. }
    rewrite Ek in Hp. cbn [nr_take] in Hp. destruct (nr_next fuel (qi_prev_rng it)) as [[[v|] rng]|] eqn:Hn; [|done..]. simpl in Hp.
    destruct (nr_take fuel k rng) as [[l itl]|] eqn:Hl; [|done]. injection Hp as <- <-. simpl.
    erewrite (IH _ l lt); [done|simpl; lia|..].
    + unfold rest_prev. cbn. rewrite <-Hk. exact Hl.
    + unfold rest_this in *. cbn. rewrite <-Ht. f_equal. lia.
  - assert (rest_prev it = 0%nat) as E1 by (unfold rest_prev; lia). rewrite E1 in Hp. simpl in Hp. injection Hp as <- <-.
    assert (∃ k, rest_this it = S k ∧ k = Z.to_nat (qi_members it - Z.max (qi_overlap it) (qi_index it + 1))) as (k & Ek & Hk).
    { unfold rest_this. eexists. split; [|done]. lia. }
    rewrite Ek in Ht. cbn [nr_take] in Ht. destruct (nr_next fuel (qi_this_rng it)) as [[[v|] rng]|] eqn:Hn; [|done..]. simpl in Ht.
    destruct (nr_take fuel k rng) as [[l itl]|] eqn:Hl; [|done]. injection Ht as <- <-. simpl.
    erewrite (IH _ [] l); [done|simpl; lia|..].
    + unfold rest_prev. cbn. replace (Z.to_nat _) with 0%nat by lia. done.
    + unfold rest_this. cbn. rewrite <-Hk. exact Hl.
Qed.

(** What an iterator collects, when the previous round gives [lp] and this one [lt]. *)
Definition members_of (it : QuorumIterator) (lp lt : list Z) : gset nat :=
  list_to_set (map Z.to_nat (map (carried it) lp ++ map (fresh it) lt)).

Section Iterator.
Context (prev this : StdRng) (round count members overlap : Z).
Let it := iterator_new prev this round count members overlap.
Context (Hoverlap : 0 <= overlap <= members) (Hslots : overlap <= count / 2) (Hnew : members - overlap <= count / 2).

Lemma slots_ge odd : 0 <= count → count / 2 <= calc_num_slots count odd.
Proof using Type.
  clear Hoverlap Hslots Hnew. intros Hc. unfold calc_num_slots. pose proof (Z.mod_pos_bound count 2 ltac:(lia)). destruct odd; lia.
Qed.

Lemma count_nonneg : 0 <= count.
Proof using Hoverlap Hslots. clear Hnew. pose proof (Z_div_mod_eq_full count 2). pose proof (Z.mod_pos_bound count 2 ltac:(lia)). lia. Qed.

Lemma iterator_values :
  ∃ fuel lp lt, ∀ fuel', (fuel <= fuel')%nat →
    (∃ i, nr_take fuel' (Z.to_nat overlap) (qi_prev_rng it) = Some (lp, i)) ∧
    (∃ i, nr_take fuel' (Z.to_nat (members - overlap)) (qi_this_rng it) = Some (lt, i)) ∧
    collect_set fuel' (Ok it) = Some (Ok (members_of it lp lt)).
Proof using Rl Hoverlap Hslots Hnew.
  pose proof count_nonneg as Hc.
  destruct (nr_take_completes (Z.to_nat overlap) (qi_prev_rng it)) as [f1 [[lp ip] Hp]].
  { unfold it, iterator_new, NonRepeat_new. cbn [qi_prev_rng qi_this_rng nr_values nr_max]. rewrite size_empty. pose proof (slots_ge (round mod 2 =? 0) Hc). lia. }
  destruct (nr_take_completes (Z.to_nat (members - overlap)) (qi_this_rng it)) as [f2 [[lt ir] Ht]].
  { unfold it, iterator_new, NonRepeat_new. cbn [qi_prev_rng qi_this_rng nr_values nr_max]. rewrite size_empty. pose proof (slots_ge (round mod 2 =? 1) Hc). lia. }
  exists (f1 + f2)%nat, lp, lt. intros fuel Hf.
  assert (nr_take fuel (Z.to_nat overlap) (qi_prev_rng it) = Some (lp, ip)) as Hp' by (eapply nr_take_mono; [|done]; lia).
  assert (nr_take fuel (Z.to_nat (members - overlap)) (qi_this_rng it) = Some (lt, ir)) as Ht' by (eapply nr_take_mono; [|done]; lia).
  split_and!; [eauto..|]. unfold collect_set.
  rewrite (quorum_collect_spec fuel _ it lp lt ip ir); [done|simpl; lia|..].
  - rewrite <-Hp'. f_equal. unfold rest_prev. simpl. lia.
  - rewrite <-Ht'. f_equal. unfold rest_this. simpl. lia.
Qed.

(** They are as many members as asked for, all of them nodes. *)
Lemma iterator_members fuel lp lt i1 i2 :
  nr_take fuel (Z.to_nat overlap) (qi_prev_rng it) = Some (lp, i1) →
  nr_take fuel (Z.to_nat (members - overlap)) (qi_this_rng it) = Some (lt, i2) →
  Z.of_nat (size (members_of it lp lt)) = members ∧ ∀ i, i ∈ members_of it lp lt → Z.of_nat i < count.
Proof using Rl Hoverlap Hslots.
  intros Hp Ht. apply nr_take_spec in Hp as (Lp & Np & _ & _ & Fp), Ht as (Lt & Nt & _ & _ & Ft).
  cbn [qi_prev_rng qi_this_rng it iterator_new NonRepeat_new nr_max nr_values] in Fp, Ft.
  pose proof (Z_div_mod_eq_full count 2) as Hdiv. pose proof (Z.mod_pos_bound count 2 ltac:(lia)) as Hmod.
  pose proof (Z.mod_pos_bound round 2 ltac:(lia)) as Hround.
  assert (∀ v, v ∈ lp → 0 <= v ∧ 0 <= carried it v < count) as Bp.
  { intros v Hv. rewrite Forall_forall in Fp. apply Fp in Hv as [Hv _]. unfold carried, calc_num_slots in *. simpl.
    destruct (Z.eqb_spec (round mod 2) 0); lia. }
  assert (∀ v, v ∈ lt → 0 <= v ∧ 0 <= fresh it v < count) as Bt.
  { intros v Hv. rewrite Forall_forall in Ft. apply Ft in Hv as [Hv _]. unfold fresh, calc_num_slots in *. simpl.
    destruct (Z.eqb_spec (round mod 2) 1); lia. }
  assert (∀ z, z ∈ map (carried it) lp ++ map (fresh it) lt → 0 <= z < count) as Ball.
  { intros z. rewrite elem_of_app, !(list_elem_of_fmap _ _ _). intros [(v & -> & Hv)|(v & -> & Hv)]; [by apply Bp|by apply Bt]. }
  unfold members_of. split.
  - rewrite size_list_to_set.
    + rewrite !length_map, length_app, !length_map, Lp, Lt. lia.
    + assert (NoDup (map (carried it) lp ++ map (fresh it) lt)) as Hnd.
      { apply NoDup_app. split_and!.
        - apply NoDup_fmap_2_strong; [|done]. intros x y _ _. unfold carried. lia.
        - intros z (v & -> & Hv)%list_elem_of_fmap (w & Heq & Hw)%list_elem_of_fmap. unfold carried, fresh in Heq. simpl in Heq. lia.
        - apply NoDup_fmap_2_strong; [|done]. intros x y _ _. unfold fresh. lia. }
      apply NoDup_fmap_2_strong; [|done]. intros x y Hx%Ball Hy%Ball. lia.
  - intros i. rewrite elem_of_list_to_set. intros (z & -> & Hz)%list_elem_of_fmap. apply Ball in Hz. lia.
Qed.
End Iterator.

(** The parity of the round before. *)
Lemma prev_parity round : is_u64 round → u64_sub round 1 mod 2 = 1 - round mod 2.
Proof using Type.
  intros _. unfold u64_sub, u64_modulus. rewrite <-(Znumtheory.Zmod_div_mod 2 (2 ^ 64)); [|lia|lia|by exists (2 ^ 63)].
  pose proof (Z.mod_pos_bound round 2 ltac:(lia)). pose proof (Z.mod_pos_bound (round - 1) 2 ltac:(lia)).
  pose proof (Z_div_mod_eq_full round 2). pose proof (Z_div_mod_eq_full (round - 1) 2). lia.
Qed.

(** The members that are carried over are the first new members of the round before. *)
Lemma carried_shared prev this prev' round round' count members overlap members' overlap' fuel lp lt lp' lt' i1 i2 :
  round' mod 2 = 1 - round mod 2 →
  let it := iterator_new prev this round count members overlap in
  let it' := iterator_new prev' prev round' count members' overlap' in
  nr_take fuel (Z.to_nat overlap) (qi_prev_rng it) = Some (lp, i1) →
  nr_take fuel (Z.to_nat (members' - overlap')) (qi_this_rng it') = Some (lt', i2) →
  (Nat.min (Z.to_nat overlap) (Z.to_nat (members' - overlap')) <= size (members_of it lp lt ∩ members_of it' lp' lt'))%nat.
Proof using Rl.
  intros Hpar it it' Hp Ht. pose proof (Z.mod_pos_bound round 2 ltac:(lia)) as Hr.
  assert (qi_prev_rng it = qi_this_rng it') as Hsame.
  { unfold it, it', iterator_new, NonRepeat_new. cbn [qi_prev_rng qi_this_rng]. f_equal. f_equal.
    rewrite Hpar. destruct (Z.eqb_spec (round mod 2) 0), (Z.eqb_spec (1 - round mod 2) 1); try done; lia. }
  rewrite Hsame in Hp. set (k := Nat.min (Z.to_nat overlap) (Z.to_nat (members' - overlap'))).
  pose proof (nr_take_spec _ _ _ _ _ Hp) as (Lp & Np & _ & _ & Fp). pose proof (nr_take_spec _ _ _ _ _ Ht) as (Lt & _).
  assert (take k lp = take k lt') as Htake.
  { destruct (decide (Z.to_nat overlap <= Z.to_nat (members' - overlap'))%nat) as [Hle|Hle].
    - rewrite (nr_take_prefix _ _ _ _ _ _ _ _ Hle Hp Ht), take_take. f_equal. lia.
    - assert (Z.to_nat (members' - overlap') <= Z.to_nat overlap)%nat as Hle' by lia.
      rewrite (nr_take_prefix _ _ _ _ _ _ _ _ Hle' Ht Hp), take_take. f_equal. lia. }
  assert (∀ v, fresh it' v = carried it v) as Hmap by (intros v; unfold fresh, carried; simpl; lia).
  assert (size (list_to_set (map Z.to_nat (map (carried it) (take k lp))) : gset nat) = k) as Hsize.
  { rewrite size_list_to_set; [rewrite !length_map, length_take; lia|].
    assert (∀ z, z ∈ map (carried it) (take k lp) → 0 <= z) as Hpos.
    { intros z (v & -> & Hv)%list_elem_of_fmap. apply (subseteq_take k lp) in Hv. rewrite Forall_forall in Fp.
      apply Fp in Hv as [Hv _]. unfold carried. simpl. lia. }
    apply NoDup_fmap_2_strong; [intros x y Hx%Hpos Hy%Hpos; lia|].
    apply NoDup_fmap_2_strong; [intros x y _ _; unfold carried; lia|]. by eapply sublist_NoDup, sublist_take. }
  rewrite <-Hsize. apply subseteq_size. intros n. rewrite elem_of_intersection. unfold members_of. rewrite !elem_of_list_to_set.
  intros (z & -> & (v & -> & Hv)%list_elem_of_fmap)%list_elem_of_fmap. split; apply list_elem_of_fmap; eexists; (split; [done|]);
    apply elem_of_app.
  - left. apply list_elem_of_fmap. exists v. split; [done|]. by apply (subseteq_take k lp).
  - right. apply list_elem_of_fmap. exists v. split; [by rewrite Hmap|]. rewrite Htake in Hv. by apply (subseteq_take k lt').
Qed.

(** C32. The members of an epoch.  For every overlap below half of the number of nodes
    the filter ends, with a generator that is fair; it returns exactly half of the
    nodes; and it shares members with the filter of the round before: [overlap] of
    them, as long as that round has so many members of its own. *)
Theorem stable_filter_correct seed round count overlap :
  is_u64 round → 0 <= overlap < count / 2 →
  ∃ fuel s s', (∀ f, (fuel <= f)%nat →
      stable_quorum_filter f seed round count overlap = Some (Ok s) ∧
      stable_quorum_filter f seed (u64_sub round 1) count overlap = Some (Ok s')) ∧
    Z.of_nat (size s) = count / 2 ∧ (∀ i, i ∈ s → Z.of_nat i < count) ∧
    Z.min overlap (count / 2 - overlap) <= Z.of_nat (size (s ∩ s')).
Proof using Rl.
  intros Hu64 Ho. unfold stable_quorum_filter, StableQuorumIterator_new. rewrite (proj2 (Z.ltb_lt _ _)) by lia. unfold make_rngs.
  set (r0 := seed_from_u64 (make_seed seed round)). set (r1 := seed_from_u64 (make_seed seed (u64_sub round 1))).
  set (r2 := seed_from_u64 (make_seed seed (u64_sub (u64_sub round 1) 1))).
  destruct (iterator_values r1 r0 round count (count / 2) overlap) as (f & lp & lt & Hf); [lia..|].
  destruct (iterator_values r2 r1 (u64_sub round 1) count (count / 2) overlap) as (f' & lp' & lt' & Hf'); [lia..|].
  destruct (Hf (f + f')%nat) as ((i1 & Hp) & (i2 & Ht) & _); [lia|].
  destruct (Hf' (f + f')%nat) as ((i3 & Hp') & (i4 & Ht') & _); [lia|].
  destruct (iterator_members r1 r0 round count (count / 2) overlap ltac:(lia) ltac:(lia) _ _ _ _ _ Hp Ht) as [Hsize Hbound].
  exists (f + f')%nat, (members_of (iterator_new r1 r0 round count (count / 2) overlap) lp lt),
    (members_of (iterator_new r2 r1 (u64_sub round 1) count (count / 2) overlap) lp' lt'). split_and!; [|done|done|].
  - intros g Hg. split; [apply Hf|apply Hf']; lia.
  - pose proof (carried_shared r1 r0 r2 round (u64_sub round 1) count _ overlap _ overlap _ lp lt lp' lt' _ _
      (prev_parity round Hu64) Hp Ht'). lia.
Qed.

Lemma draw_sizes_bound rng m1 m2 o1 o2 :
  m1 <= m2 → o1 <= o2 → let '(m, o, _) := draw_sizes rng m1 m2 o1 o2 in m1 <= m <= m2 ∧ o1 <= o <= o2.
Proof using Rl.
  intros Hm Ho. unfold draw_sizes. pose proof (gen_range_bound rng m1 (m2 + 1) ltac:(lia)) as Hb.
  destruct (gen_range rng m1 (m2 + 1)) as [m rng']. simpl in Hb.
  pose proof (gen_range_bound rng' o1 (o2 + 1) ltac:(lia)) as Hb'. destruct (gen_range rng' o1 (o2 + 1)) as [o rng'']. simpl in Hb'. lia.
Qed.

(** The filter with random sizes: it ends, and the number of members is in its range. *)
Lemma random_filter_correct seed round count m1 m2 o1 o2 :
  m1 <= m2 → 0 <= o1 <= o2 → o2 < m1 → o2 < count / 2 → m2 - o1 <= count / 2 →
  ∃ fuel s, (∀ f, (fuel <= f)%nat → random_overlap_quorum_filter f seed round count m1 m2 o1 o2 = Some (Ok s)) ∧
    m1 <= Z.of_nat (size s) <= m2 ∧ ∀ i, i ∈ s → Z.of_nat i < count.
Proof using Rl.
  intros Hm Ho Hom Hoc Hmc. unfold random_overlap_quorum_filter, RandomOverlapQuorumIterator_new.
  rewrite !(proj2 (Z.leb_le _ _)), !(proj2 (Z.ltb_lt _ _)) by lia. cbn [andb]. unfold make_rngs.
  destruct (draw_sizes (seed_from_u64 (make_seed seed (u64_sub round 1))) m1 m2 o1 o2) as [[? ?] prev].
  pose proof (draw_sizes_bound (seed_from_u64 (make_seed seed round)) m1 m2 o1 o2) as Hd.
  destruct (draw_sizes (seed_from_u64 (make_seed seed round)) m1 m2 o1 o2) as [[m o] this]. destruct Hd as [? ?]; [lia..|].
  destruct (iterator_values prev this round count m o) as (f & lp & lt & Hf); [lia..|].
  destruct (Hf f) as ((i1 & Hp) & (i2 & Ht) & _); [lia|].
  destruct (iterator_members prev this round count m o ltac:(lia) ltac:(lia) _ _ _ _ _ Hp Ht) as [Hsize Hbound].
  exists f, (members_of (iterator_new prev this round count m o) lp lt). split_and!; [|lia|lia|done]. intros g Hg. by apply Hf.
Qed.
End Fair.
End Filters.

(** ** [RandomizedCommitteeMembers] *)

Section Members.
Context `{Sg : SignatureScheme}.

(** [QuorumFilterConfig::execute]: the filter of an epoch for a number of nodes. *)
Context (execute : EpochNumber → nat → outcome Error (gset nat)).
(** The first number of a generator that is seeded with the view. *)
Context (random : ViewNumber → Z).

(** [.iter().enumerate().filter(|(idx, _)| filter.contains(idx)).map(..)] *)
Definition filtered {A} (filter : gset nat) (l : list A) : list A :=
  omap (fun '(idx, x) => if decide (idx ∈ filter) then Some x else None) (imap (fun idx x => (idx, x)) l).

Definition make_quorum_filter (c : Committee) (epoch : EpochNumber) : outcome Error (gset nat) :=
  execute epoch (length (c_stake_table c)).
Definition make_da_quorum_filter (c : Committee) (epoch : EpochNumber) : outcome Error (gset nat) :=
  execute epoch (length (c_da_stake_table c)).

(** The table, of the members of the epoch only if there is one. *)
Definition epoch_table (filter : Committee → EpochNumber → outcome Error (gset nat)) (table : list StakeTableEntry)
    (c : Committee) (epoch : option EpochNumber) : outcome Error (list StakeTableEntry) :=
  match epoch with
  | Some epoch => f ← filter c epoch; Ok (filtered f table)
  | None => Ok table
  end.
Definition quorum_table (c : Committee) := epoch_table make_quorum_filter (c_stake_table c) c.
Definition da_quorum_table (c : Committee) := epoch_table make_da_quorum_filter (c_da_stake_table c) c.

(** The entry of a key, if it is one of the members of the epoch. *)
Definition member_entry (table : outcome Error (list StakeTableEntry)) (indexed : gmap PubKey StakeTableEntry) (k : PubKey)
    (epoch : option EpochNumber) : outcome Error (option StakeTableEntry) :=
  match epoch with
  | Some _ => actual_members ← table; Ok (if decide (k ∈ keys_of actual_members) then indexed !! k else None)
  | None => Ok (indexed !! k)
  end.
Definition member_has_stake (table : outcome Error (list StakeTableEntry)) (indexed : gmap PubKey StakeTableEntry) (k : PubKey)
    (epoch : option EpochNumber) : outcome Error bool :=
  match epoch with
  | Some _ => actual_members ← table; Ok (if decide (k ∈ keys_of actual_members) then has_positive indexed k else false)
  | None => Ok (has_positive indexed k)
  end.
(** The number of nodes is the size of the filter. *)
Definition nodes (filter : Committee → EpochNumber → outcome Error (gset nat)) (table : list StakeTableEntry) (c : Committee)
    (epoch : option EpochNumber) : outcome Error nat :=
  match epoch with
  | Some epoch => f ← filter c epoch; Ok (size f)
  | None => Ok (length table)
  end.
Definition quorum_nodes (c : Committee) := nodes make_quorum_filter (c_stake_table c) c.
Definition da_quorum_nodes (c : Committee) := nodes make_da_quorum_filter (c_da_stake_table c) c.

Definition members_leader (c : Committee) (view : ViewNumber) (epoch : option EpochNumber) : outcome Error PubKey :=
  match epoch with
  | Some epoch => f ← make_quorum_filter c epoch; leader_at (filtered f (c_stake_table c)) (random view)
  | None => leader_at (eligible_leaders c) (random view)
  end.

Definition RandomizedCommitteeMembers : Membership Committee := {|
  stake_table c e := quorum_table c e;
  da_stake_table c e := da_quorum_table c e;
  committee_members c _ e := keys_of <$> quorum_table c e;
  da_committee_members c _ e := keys_of <$> da_quorum_table c e;
  committee_leaders c _ e := keys_of <$> quorum_table c e;
  stake c k e := member_entry (quorum_table c e) (indexed_stake_table c) k e;
  da_stake c k e := member_entry (da_quorum_table c e) (indexed_da_stake_table c) k e;
  has_stake c k e := member_has_stake (quorum_table c e) (indexed_stake_table c) k e;
  has_da_stake c k e := member_has_stake (da_quorum_table c e) (indexed_da_stake_table c) k e;
  lookup_leader c view e := members_leader c view e;
  total_nodes c e := n ← quorum_nodes c e; Ok (Z.of_nat n);
  da_total_nodes c e := n ← da_quorum_nodes c e; Ok (Z.of_nat n);
  success_threshold c e := n ← quorum_nodes c e; threshold_two_thirds n;
  da_success_threshold c e := n ← da_quorum_nodes c e; threshold_two_thirds n;
  failure_threshold c e := n ← quorum_nodes c e; threshold_one_third n;
  upgrade_threshold c e := n ← quorum_nodes c e; threshold_max_nine_tenths n;
|}.

(** *** The contract *)

Lemma filtered_sublist {A} f (l : list A) : filtered f l `sublist_of` l.
Proof using Type.
  unfold filtered. cut (∀ g : nat → nat, omap (fun '(idx, x) => if decide (idx ∈ f) then Some x else None)
    (imap (fun idx x => (g idx, x)) l) `sublist_of` l); [intros H; apply (H id)|].
  induction l as [|x l IH]; intros g; csimpl; [constructor|]. case_decide; constructor; apply (IH (g ∘ S)).
Qed.

(** Every index of the filter is an index of the table. *)
Lemma filtered_length {A} (f : gset nat) (l : list A) : (∀ i, i ∈ f → (i < length l)%nat) → length (filtered f l) = size f.
Proof using Type.
  intros Hf. unfold filtered.
  assert (∀ g : nat → nat, length (omap (fun '(idx, x) => if decide (idx ∈ f) then Some x else None)
    (imap (fun idx x => (g idx, x)) l)) = length (base.filter (fun i => i ∈ f) (map g (seq 0 (length l))))) as Hlen.
  { clear Hf. induction l as [|x l IH]; intros g; csimpl; [done|]. specialize (IH (g ∘ S)).
    rewrite filter_cons. rewrite <-seq_shift, map_map. case_decide; csimpl; [f_equal|]; apply IH. }
  etrans; [exact (Hlen id)|]. rewrite map_id. rewrite <-(size_list_to_set (C := gset nat)) by (apply NoDup_filter, NoDup_seq). f_equal.
  apply set_eq. intros i. rewrite elem_of_list_to_set, list_elem_of_filter, elem_of_seq.
  split; [by intros [? _]|]. intros Hi. pose proof (Hf i Hi). split; [done|lia].
Qed.

Definition members_known (c : Committee) (e : option EpochNumber) (t td : list StakeTableEntry) : Prop :=
  single_known c None (c_stake_table c) (c_da_stake_table c) ∧
  match e with
  | None => t = c_stake_table c ∧ td = c_da_stake_table c
  | Some e => ∃ f fd,
      make_quorum_filter c e = Ok f ∧ (∀ i, i ∈ f → (i < length (c_stake_table c))%nat) ∧ t = filtered f (c_stake_table c) ∧
      make_da_quorum_filter c e = Ok fd ∧ (∀ i, i ∈ fd → (i < length (c_da_stake_table c))%nat) ∧ td = filtered fd (c_da_stake_table c)
  end.

(** The table of an epoch, and the accessors in terms of it. *)
Lemma known_table c e t td : members_known c e t td →
  (table_ok t ∧ table_ok td) ∧ (quorum_table c e = Ok t ∧ da_quorum_table c e = Ok td) ∧
  (quorum_nodes c e = Ok (length t) ∧ da_quorum_nodes c e = Ok (length td)) ∧
  (t `sublist_of` c_stake_table c ∧ td `sublist_of` c_da_stake_table c) ∧
  ∀ v, members_leader c v e = leader_at t (random v).
Proof using Type.
  intros [(Ht & Htd & Hc) He]. destruct e as [e|].
  - destruct He as (f & fd & Hf & Hb & -> & Hfd & Hbd & ->).
    unfold quorum_table, da_quorum_table, quorum_nodes, da_quorum_nodes, epoch_table, nodes, members_leader.
    rewrite Hf, Hfd. mon. rewrite !filtered_length by done.
    split_and!; try done; try apply filtered_sublist; eapply table_ok_sub; try apply filtered_sublist; done.
  - destruct He as [-> ->]. unfold members_leader. rewrite Hc. simpl. split_and!; done.
Qed.

Lemma member_entry_spec table t k e :
  table_ok table → t `sublist_of` table → (e = None → t = table) →
  ∃ o, member_entry (Ok t) (index_by_key table) k e = Ok o ∧ entry_of t k o.
Proof using Type.
  intros Hok Hsub He. pose proof (index_by_key_spec table k Hok) as Hk. unfold member_entry. destruct e as [e|].
  2: { specialize (He eq_refl) as ->. eauto. }
  mon. eexists. split; [done|]. intros x.
  destruct Hok as (Hnd & _). case_decide as Hin; unfold keys_of in Hin; rewrite elem_of_list_to_set in Hin.
  - rewrite (Hk x). split; [|intros [Hx ?]; split; [by eapply elem_of_sublist|done]]. intros [Hx <-]. split; [|done].
    apply (list_elem_of_fmap stake_key) in Hin as (y & Heq & Hy).
    assert (x = y) as ->; [|done]. apply (list_elem_of_lookup) in Hx as [i Hi].
    pose proof (elem_of_sublist _ _ _ Hy Hsub) as Hy'. apply list_elem_of_lookup in Hy' as [j Hj].
    assert (i = j) as ->; [|congruence]. eapply (NoDup_lookup _ _ _ (stake_key x) Hnd);
      [|rewrite Heq]; change (map stake_key table) with (stake_key <$> table); rewrite list_lookup_fmap; [by rewrite Hi|by rewrite Hj].
  - split; [done|]. intros [Hx <-]. destruct Hin. by apply (list_elem_of_fmap_2 public_key).
Qed.

Lemma member_has_stake_spec table t k e :
  table_ok table → t `sublist_of` table → (e = None → t = table) →
  member_has_stake (Ok t) (index_by_key table) k e = Ok (bool_decide (k ∈ map stake_key t)).
Proof using Type.
  intros Hok Hsub He. unfold member_has_stake. destruct e as [e|].
  2: { specialize (He eq_refl) as ->. by rewrite has_positive_spec. }
  mon. f_equal. case_decide as Hin; unfold keys_of in Hin; rewrite elem_of_list_to_set in Hin.
  - rewrite has_positive_spec by done. rewrite !bool_decide_eq_true_2; [done|done|].
    apply (list_elem_of_fmap stake_key) in Hin as (x & -> & Hx). apply (list_elem_of_fmap_2 stake_key). by eapply elem_of_sublist.
  - by rewrite bool_decide_eq_false_2.
Qed.

#[global] Instance randomized_members_laws : CommitteeLaws RandomizedCommitteeMembers members_known.
Proof using Type.
  constructor; intros m e t td; intros;
    match goal with K : members_known _ _ _ _ |- _ =>
      pose proof (known_table _ _ _ _ K) as ((Ht & Htd) & (Hq & Hqd) & (Hn & Hnd) & (Hs & Hsd) & Hlead);
      assert (e = None → t = c_stake_table m ∧ td = c_da_stake_table m) as Hnone by (intros ->; apply K);
      destruct K as [(Hok & Hokd & Hc) _] end;
    cbn [stake_table da_stake_table stake da_stake has_stake total_nodes da_total_nodes success_threshold da_success_threshold
         failure_threshold upgrade_threshold lookup_leader RandomizedCommitteeMembers] in *;
    rewrite ?Hq, ?Hqd, ?Hn, ?Hnd, ?Hlead in *; mon; try done.
  - rewrite Hc. apply member_entry_spec; [done|done|naive_solver].
  - rewrite Hc. apply member_entry_spec; [done|done|naive_solver].
  - rewrite Hc. apply member_has_stake_spec; [done|done|naive_solver].
  - apply two_thirds_eq. apply Ht.
  - apply two_thirds_eq. apply Htd.
  - apply one_third_eq. apply Ht.
  - apply max_nine_tenths_upgrade; [by destruct t; simpl in *; [|lia]|apply Ht].
  - by eapply leader_at_elem.
  - destruct (leader_at_ok (E:=Error) t (random v)) as (x & _ & ->); eauto.
Qed.
End Members.

(** ** Witness: a generator that counts *)

Module RngDemo.
#[global] Instance counter : Rng := {|
  StdRng := Z; seed_from_u64 s := s;
  gen_range rng lo hi := (lo + rng mod (hi - lo), rng + 1) |}.

Lemma counter_draw n rng max : 0 < max → nth_draw n rng max = (rng + Z.of_nat n) mod max.
Proof.
  intros Hm. revert rng. induction n as [|n IH]; intros rng; cbn [nth_draw gen_range counter].
  - rewrite Z.sub_0_r. by rewrite Z.add_0_r.
  - rewrite IH. f_equal. lia.
Qed.

#[global] Instance counter_laws : RngLaws.
Proof.
  split.
  - intros rng lo hi Hlt. cbn. pose proof (Z.mod_pos_bound rng (hi - lo) ltac:(lia)). lia.
  - intros rng max v Hv. exists (Z.to_nat ((v - rng) mod max)). rewrite counter_draw by lia.
    pose proof (Z.mod_pos_bound (v - rng) max ltac:(lia)). rewrite Z2Nat.id by lia.
    rewrite Z.add_mod_idemp_r by lia. replace (rng + (v - rng)) with v by lia. apply Z.mod_small. lia.
Qed.
End RngDemo.

Lemma stable_filter_correct_witness :
  ∃ fuel s s', (∀ f, (fuel <= f)%nat →
      stable_quorum_filter f 7 1 10 2 = Some (Ok s) ∧ stable_quorum_filter f 7 (u64_sub 1 1) 10 2 = Some (Ok s')) ∧
    Z.of_nat (size s) = 5 ∧ 2 <= Z.of_nat (size (s ∩ s')).
Proof.
  destruct (stable_filter_correct 7 1 10 2) as (fuel & s & s' & Hf & Hs & _ & Hi); [done|vm_compute; done|].
  exists fuel, s, s'. split; [exact Hf|]. split; [exact Hs|exact Hi].
Defined.
