(* ===== verification/Votes.v ===== *)
(** * Votes, certificates and versions

    The data nodes vote on, simple votes and the certificates assembled from
    them ([types/src/simple_vote.rs], [types/src/simple_certificate.rs]), and the
    upgrade lock, which says which version of the protocol applies in a view
    ([UpgradeLock] of [types/src/message.rs]).

    A certificate's [THRESHOLD] parameter is an index of its type.  The
    [Certificate] trait has one implementation for the two DA data types, which
    reads the DA committee, and one for all other data, which reads the quorum
    committee: the class [CertData] says which one a data type has. *)

From S2P Require Import Prelude Epochs Crypto Committee.

(** ** Versions *)

(** [vbs::version::Version], ordered by major, then minor number. *)
Record Version := { major : Z; minor : Z }.

#[global] Instance Version_eq_dec : EqDecision Version.
Proof. solve_decision. Defined.

Definition version_ge (a b : Version) : bool :=
  (major b <? major a) || ((major a =? major b) && (minor b <=? minor a)).

Class Versions := {
  Base : Version;
  Upgrade : Version;
  UPGRADE_HASH : bytes;
  Marketplace : Version;
  Epochs : Version;
}.

(** The VID commitment of a payload, a type of [jf_vid]. *)
Class VidTypes := {
  VidCommitment : Type;
  #[global] VidCommitment_eq_dec :: EqDecision VidCommitment;
  vid_as_ref : VidCommitment → bytes;
}.

(** ** Data nodes vote on *)

Section Data.
Context `{Committable} `{VidTypes}.

Record QuorumData := { q_leaf_commit : Commitment }.
Record QuorumData2 := { leaf_commit : Commitment; q2_epoch : option EpochNumber }.
Record NextEpochQuorumData2 := NextEpochQuorumData2_ { next_epoch_data : QuorumData2 }.
Record DaData := { da_payload_commit : VidCommitment }.
Record DaData2 := { payload_commit : VidCommitment; da2_epoch : option EpochNumber }.
Record TimeoutData := { t_view : ViewNumber }.
Record TimeoutData2 := { t2_view : ViewNumber; t2_epoch : option EpochNumber }.
Record ViewSyncPreCommitData := { vsp_relay : Z; vsp_round : ViewNumber }.
Record ViewSyncPreCommitData2 :=
  { vsp2_relay : Z; vsp2_round : ViewNumber; vsp2_epoch : option EpochNumber }.
Record ViewSyncCommitData := { vsc_relay : Z; vsc_round : ViewNumber }.
Record ViewSyncCommitData2 :=
  { vsc2_relay : Z; vsc2_round : ViewNumber; vsc2_epoch : option EpochNumber }.
Record ViewSyncFinalizeData := { vsf_relay : Z; vsf_round : ViewNumber }.
Record ViewSyncFinalizeData2 :=
  { vsf2_relay : Z; vsf2_round : ViewNumber; vsf2_epoch : option EpochNumber }.
Record UpgradeProposalData := {
  old_version : Version;
  new_version : Version;
  decide_by : ViewNumber;
  new_version_hash : bytes;
  old_version_last_view : ViewNumber;
  new_version_first_view : ViewNumber;
}.

#[global] Instance QuorumData_eq_dec : EqDecision QuorumData.
Proof. solve_decision. Defined.
#[global] Instance QuorumData2_eq_dec : EqDecision QuorumData2.
Proof. solve_decision. Defined.
#[global] Instance NextEpochQuorumData2_eq_dec : EqDecision NextEpochQuorumData2.
Proof. solve_decision. Defined.
#[global] Instance DaData_eq_dec : EqDecision DaData.
Proof. solve_decision. Defined.
#[global] Instance DaData2_eq_dec : EqDecision DaData2.
Proof. solve_decision. Defined.
#[global] Instance TimeoutData_eq_dec : EqDecision TimeoutData.
Proof. solve_decision. Defined.
#[global] Instance TimeoutData2_eq_dec : EqDecision TimeoutData2.
Proof. solve_decision. Defined.
#[global] Instance ViewSyncPreCommitData_eq_dec : EqDecision ViewSyncPreCommitData.
Proof. solve_decision. Defined.
#[global] Instance ViewSyncPreCommitData2_eq_dec : EqDecision ViewSyncPreCommitData2.
Proof. solve_decision. Defined.
#[global] Instance ViewSyncCommitData_eq_dec : EqDecision ViewSyncCommitData.
Proof. solve_decision. Defined.
#[global] Instance ViewSyncCommitData2_eq_dec : EqDecision ViewSyncCommitData2.
Proof. solve_decision. Defined.
#[global] Instance ViewSyncFinalizeData_eq_dec : EqDecision ViewSyncFinalizeData.
Proof. solve_decision. Defined.
#[global] Instance ViewSyncFinalizeData2_eq_dec : EqDecision ViewSyncFinalizeData2.
Proof. solve_decision. Defined.
#[global] Instance UpgradeProposalData_eq_dec : EqDecision UpgradeProposalData.
Proof. solve_decision. Defined.

(** [Voteable]: data with a commitment. *)
Class Voteable (D : Type) := {
  commit : D → Commitment;
  #[global] voteable_eq_dec :: EqDecision D;
}.

(** [if let Some(epoch) = epoch { cb.u64_field("epoch number", epoch) }] *)
Definition epoch_item (epoch : option EpochNumber) : list (cb_item Commitment) :=
  match epoch with Some e => [CbU64Field "epoch number" e] | None => [] end.

#[global] Instance QuorumData_commit : Voteable QuorumData := {
  commit d := finalize "Quorum data" [CbVarSizeBytes (as_ref (q_leaf_commit d))] }.
#[global] Instance QuorumData2_commit : Voteable QuorumData2 := {
  commit d := finalize "Quorum data"
    (CbVarSizeBytes (as_ref (leaf_commit d)) :: epoch_item (q2_epoch d)) }.
#[global] Instance NextEpochQuorumData2_commit : Voteable NextEpochQuorumData2 := {
  commit d := finalize "Quorum data"
    (CbVarSizeBytes (as_ref (leaf_commit (next_epoch_data d))) ::
     epoch_item (q2_epoch (next_epoch_data d))) }.
#[global] Instance TimeoutData_commit : Voteable TimeoutData := {
  commit d := finalize "Timeout data" [CbU64 (t_view d)] }.
(** The epoch of [TimeoutData2] is not part of its commitment. *)
#[global] Instance TimeoutData2_commit : Voteable TimeoutData2 := {
  commit d := finalize "Timeout data" [CbU64 (t2_view d)] }.
#[global] Instance DaData_commit : Voteable DaData := {
  commit d := finalize "DA data" [CbVarSizeBytes (vid_as_ref (da_payload_commit d))] }.
#[global] Instance DaData2_commit : Voteable DaData2 := {
  commit d := finalize "DA data"
    (CbVarSizeBytes (vid_as_ref (payload_commit d)) :: epoch_item (da2_epoch d)) }.
#[global] Instance UpgradeProposalData_commit : Voteable UpgradeProposalData := {
  commit d := finalize "Upgrade data"
    [CbU64 (decide_by d); CbU64 (new_version_first_view d); CbU64 (old_version_last_view d);
     CbVarSizeBytes (new_version_hash d);
     CbU16 (minor (new_version d)); CbU16 (major (new_version d));
     CbU16 (minor (old_version d)); CbU16 (major (old_version d))] }.

Definition view_and_relay_commit (view : ViewNumber) (relay : Z) (epoch : option EpochNumber)
    (tag : string) : Commitment :=
  finalize tag ([CbU64 view; CbU64 relay] ++ epoch_item epoch).

#[global] Instance ViewSyncPreCommitData_commit : Voteable ViewSyncPreCommitData := {
  commit d := view_and_relay_commit (vsp_round d) (vsp_relay d) None "View Sync Precommit" }.
#[global] Instance ViewSyncPreCommitData2_commit : Voteable ViewSyncPreCommitData2 := {
  commit d := view_and_relay_commit (vsp2_round d) (vsp2_relay d) (vsp2_epoch d) "View Sync Precommit" }.
#[global] Instance ViewSyncFinalizeData_commit : Voteable ViewSyncFinalizeData := {
  commit d := view_and_relay_commit (vsf_round d) (vsf_relay d) None "View Sync Finalize" }.
#[global] Instance ViewSyncFinalizeData2_commit : Voteable ViewSyncFinalizeData2 := {
  commit d := view_and_relay_commit (vsf2_round d) (vsf2_relay d) (vsf2_epoch d) "View Sync Finalize" }.
#[global] Instance ViewSyncCommitData_commit : Voteable ViewSyncCommitData := {
  commit d := view_and_relay_commit (vsc_round d) (vsc_relay d) None "View Sync Commit" }.
#[global] Instance ViewSyncCommitData2_commit : Voteable ViewSyncCommitData2 := {
  commit d := view_and_relay_commit (vsc2_round d) (vsc2_relay d) (vsc2_epoch d) "View Sync Commit" }.

(** [HasEpoch] *)
Class HasEpoch (D : Type) := epoch : D → option EpochNumber.
#[global] Instance QuorumData_epoch : HasEpoch QuorumData := fun _ => None.
#[global] Instance QuorumData2_epoch : HasEpoch QuorumData2 := q2_epoch.
#[global] Instance NextEpochQuorumData2_epoch : HasEpoch NextEpochQuorumData2 :=
  fun d => q2_epoch (next_epoch_data d).
#[global] Instance DaData_epoch : HasEpoch DaData := fun _ => None.
#[global] Instance DaData2_epoch : HasEpoch DaData2 := da2_epoch.
#[global] Instance TimeoutData_epoch : HasEpoch TimeoutData := fun _ => None.
#[global] Instance TimeoutData2_epoch : HasEpoch TimeoutData2 := t2_epoch.
#[global] Instance ViewSyncPreCommitData2_epoch : HasEpoch ViewSyncPreCommitData2 := vsp2_epoch.
#[global] Instance ViewSyncCommitData2_epoch : HasEpoch ViewSyncCommitData2 := vsc2_epoch.
#[global] Instance ViewSyncFinalizeData2_epoch : HasEpoch ViewSyncFinalizeData2 := vsf2_epoch.
#[global] Instance UpgradeProposalData_epoch : HasEpoch UpgradeProposalData := fun _ => None.
End Data.

(** ** Certificates *)

Inductive Threshold := SuccessThreshold | OneHonestThreshold | UpgradeThreshold.

Record SimpleCertificate `{SignatureScheme} `{Committable} (D : Type) (TH : Threshold) := {
  data : D;
  vote_commitment : Commitment;
  view_number : ViewNumber;
  signatures : option QcType;
}.
Arguments data {_ _ D TH} s.
Arguments vote_commitment {_ _ D TH} s.
Arguments view_number {_ _ D TH} s.
Arguments signatures {_ _ D TH} s.
Arguments Build_SimpleCertificate {_ _ D TH} data vote_commitment view_number signatures.

#[global] Instance SimpleCertificate_eq_dec `{SignatureScheme} `{Committable} D TH `{EqDecision D} :
  EqDecision (SimpleCertificate D TH).
Proof. unfold QcType. solve_decision. Defined.

Record SimpleVote `{SignatureScheme} (D : Type) := {
  signature : PubKey * Sig;
  vote_data : D;
  vote_view : ViewNumber;
}.
Arguments signature {_ D} s.
Arguments vote_data {_ D} s.
Arguments vote_view {_ D} s.
Arguments Build_SimpleVote {_ D} signature vote_data vote_view.

(** Whether the certificates over [D] read the DA committee. *)
Class CertData (D : Type) := is_da : bool.

Section Instances.
Context `{Committable} `{VidTypes}.
#[global] Instance DaData_cert : CertData DaData := true.
#[global] Instance DaData2_cert : CertData DaData2 := true.
#[global] Instance QuorumData_cert : CertData QuorumData := false.
#[global] Instance QuorumData2_cert : CertData QuorumData2 := false.
#[global] Instance NextEpochQuorumData2_cert : CertData NextEpochQuorumData2 := false.
#[global] Instance TimeoutData_cert : CertData TimeoutData := false.
#[global] Instance TimeoutData2_cert : CertData TimeoutData2 := false.
#[global] Instance ViewSyncPreCommitData_cert : CertData ViewSyncPreCommitData := false.
#[global] Instance ViewSyncPreCommitData2_cert : CertData ViewSyncPreCommitData2 := false.
#[global] Instance ViewSyncCommitData_cert : CertData ViewSyncCommitData := false.
#[global] Instance ViewSyncCommitData2_cert : CertData ViewSyncCommitData2 := false.
#[global] Instance ViewSyncFinalizeData_cert : CertData ViewSyncFinalizeData := false.
#[global] Instance ViewSyncFinalizeData2_cert : CertData ViewSyncFinalizeData2 := false.
#[global] Instance UpgradeProposalData_cert : CertData UpgradeProposalData := false.
End Instances.

(** Type aliases. *)
Section Aliases.
Context `{SignatureScheme} `{Committable} `{VidTypes}.
Definition QuorumCertificate := SimpleCertificate QuorumData SuccessThreshold.
Definition QuorumCertificate2 := SimpleCertificate QuorumData2 SuccessThreshold.
Definition NextEpochQuorumCertificate2 := SimpleCertificate NextEpochQuorumData2 SuccessThreshold.
Definition DaCertificate := SimpleCertificate DaData SuccessThreshold.
Definition DaCertificate2 := SimpleCertificate DaData2 SuccessThreshold.
Definition TimeoutCertificate := SimpleCertificate TimeoutData SuccessThreshold.
Definition TimeoutCertificate2 := SimpleCertificate TimeoutData2 SuccessThreshold.
Definition ViewSyncPreCommitCertificate := SimpleCertificate ViewSyncPreCommitData OneHonestThreshold.
Definition ViewSyncPreCommitCertificate2 := SimpleCertificate ViewSyncPreCommitData2 OneHonestThreshold.
Definition ViewSyncCommitCertificate := SimpleCertificate ViewSyncCommitData SuccessThreshold.
Definition ViewSyncCommitCertificate2 := SimpleCertificate ViewSyncCommitData2 SuccessThreshold.
Definition ViewSyncFinalizeCertificate := SimpleCertificate ViewSyncFinalizeData SuccessThreshold.
Definition ViewSyncFinalizeCertificate2 := SimpleCertificate ViewSyncFinalizeData2 SuccessThreshold.
Definition UpgradeCertificate := SimpleCertificate UpgradeProposalData UpgradeThreshold.

#[global] Instance QuorumCertificate_eq_dec : EqDecision QuorumCertificate.
Proof. unfold QuorumCertificate. apply _. Defined.
#[global] Instance QuorumCertificate2_eq_dec : EqDecision QuorumCertificate2.
Proof. unfold QuorumCertificate2. apply _. Defined.
#[global] Instance NextEpochQuorumCertificate2_eq_dec : EqDecision NextEpochQuorumCertificate2.
Proof. unfold NextEpochQuorumCertificate2. apply _. Defined.
#[global] Instance DaCertificate2_eq_dec : EqDecision DaCertificate2.
Proof. unfold DaCertificate2. apply _. Defined.
#[global] Instance TimeoutCertificate2_eq_dec : EqDecision TimeoutCertificate2.
Proof. unfold TimeoutCertificate2. apply _. Defined.
#[global] Instance ViewSyncFinalizeCertificate2_eq_dec : EqDecision ViewSyncFinalizeCertificate2.
Proof. unfold ViewSyncFinalizeCertificate2. apply _. Defined.
#[global] Instance UpgradeCertificate_eq_dec : EqDecision UpgradeCertificate.
Proof. unfold UpgradeCertificate. apply _. Defined.
End Aliases.

(** ** The upgrade lock *)

Section UpgradeLock.
Context `{SignatureScheme} `{Committable} `{Versions}.

(** The upgrade certificate the network has decided, if any. *)
Record UpgradeLock := { decided_upgrade_certificate : option UpgradeCertificate }.

Definition UpgradeLock_new : UpgradeLock := {| decided_upgrade_certificate := None |}.
Definition UpgradeLock_from_certificate (certificate : option UpgradeCertificate) : UpgradeLock :=
  {| decided_upgrade_certificate := certificate |}.

Definition version (lock : UpgradeLock) (view : ViewNumber) : outcome Error Version :=
  match decided_upgrade_certificate lock with
  | Some cert =>
      if new_version_first_view (data cert) <=? view then
        if bool_decide (new_version (data cert) = Upgrade) then Ok Upgrade
        else Err "The network has upgraded to a new version that we do not support!"
      else Ok Base
  | None => Ok Base
  end.

Definition version_infallible (lock : UpgradeLock) (view : ViewNumber) : Version :=
  match decided_upgrade_certificate lock with
  | Some cert =>
      if new_version_first_view (data cert) <=? view then new_version (data cert)
      else old_version (data cert)
  | None => Base
  end.

Definition epochs_enabled (lock : UpgradeLock) (view : ViewNumber) : bool :=
  version_ge (version_infallible lock view) Epochs.

Definition genesis_epoch_from_version : option EpochNumber :=
  if version_ge Base Epochs then Some 1 else None.

(** ** Versioned vote data *)

Record VersionedVoteData (D : Type) := {
  vvd_data : D;
  vvd_view : ViewNumber;
  vvd_version : Version;
}.

Definition VersionedVoteData_new {D} (d : D) (view : ViewNumber) (lock : UpgradeLock)
    : outcome Error (VersionedVoteData D) :=
  version ← version lock view;
  Ok {| vvd_data := d; vvd_view := view; vvd_version := version |}.

Definition VersionedVoteData_new_infallible {D} (d : D) (view : ViewNumber) (lock : UpgradeLock)
    : VersionedVoteData D :=
  {| vvd_data := d; vvd_view := view; vvd_version := version_infallible lock view |}.

(** The version is not part of the commitment. *)
Definition vvd_commit {D} `{!Voteable D} (v : VersionedVoteData D) : Commitment :=
  finalize "Vote" [CbVarSizeBytes (as_ref (commit (vvd_data _ v))); CbU64 (vvd_view _ v)].

(** ** [impl Vote for SimpleVote] *)

Section Vote.
Context {D : Type} `{!Voteable D}.

Definition signing_key (v : SimpleVote D) : PubKey := (signature v).1.
Definition vote_signature (v : SimpleVote D) : Sig := (signature v).2.
Definition date (v : SimpleVote D) : D := vote_data v.
Definition vote_data_commitment (v : SimpleVote D) : Commitment := commit (vote_data v).

Definition create_signed_vote (d : D) (view : ViewNumber) (pub_key : PubKey)
    (private_key : PrivKey) (lock : UpgradeLock) : outcome Error (SimpleVote D) :=
  vd ← VersionedVoteData_new d view lock;
  s ← ok_or (sign private_key (as_ref (vvd_commit vd))) "Failed to sign vote";
  Ok {| signature := (pub_key, s); vote_data := d; vote_view := view |}.

Lemma create_signed_vote_ok d view pk sk lock v :
  create_signed_vote d view pk sk lock = Ok v → vote_data v = d ∧ vote_view v = view ∧ signing_key v = pk.
Proof using Type. unfold create_signed_vote. intros Hok. inv_ok Hok. by simplify_eq. Qed.
End Vote.

(** ** [impl Certificate for SimpleCertificate] *)

Section Certificate.
Context {D : Type} `{!Voteable D} {TH : Threshold}.

Definition create_signed_certificate (vote_commitment : Commitment) (d : D) (sig : QcType)
    (view : ViewNumber) : SimpleCertificate D TH :=
  {| data := d; vote_commitment := vote_commitment; view_number := view; signatures := Some sig |}.

Definition data_commitment (cert : SimpleCertificate D TH) (lock : UpgradeLock)
    : outcome Error Commitment :=
  vd ← VersionedVoteData_new (data cert) (view_number cert) lock; Ok (vvd_commit vd).

(** A certificate of the genesis view is valid; the signatures of any other one
    are unwrapped. *)
Definition is_valid_cert (cert : SimpleCertificate D TH) (stake_table : list StakeTableEntry)
    (threshold : Z) (lock : UpgradeLock) : outcome Error unit :=
  if view_number cert =? genesis_view then Ok tt
  else
    let real_qc_pp := public_parameter stake_table threshold in
    commit ← data_commitment cert lock;
    sigs ← unwrap (signatures cert);
    match check real_qc_pp (as_ref commit) sigs with
    | Ok _ => Ok tt
    | Err _ => Err "Signature check failed"
    | Panic => Panic
    end.

Context `{CertData D} {M : Type} `{!Membership M}.

(** [THRESHOLD::threshold] *)
Definition threshold_of (membership : M) (epoch : option EpochNumber) : outcome Error Z :=
  match TH with
  | SuccessThreshold => success_threshold membership epoch
  | OneHonestThreshold => failure_threshold membership epoch
  | UpgradeThreshold => upgrade_threshold membership epoch
  end.

Definition cert_threshold (membership : M) (epoch : option EpochNumber) : outcome Error Z :=
  if is_da (D := D) then da_success_threshold membership epoch
  else threshold_of membership epoch.

Definition cert_stake_table_entry (membership : M) (pub_key : PubKey)
    (epoch : option EpochNumber) : outcome Error (option StakeTableEntry) :=
  if is_da (D := D) then da_stake membership pub_key epoch else stake membership pub_key epoch.

Definition cert_stake_table (membership : M) (epoch : option EpochNumber)
    : outcome Error (list StakeTableEntry) :=
  if is_da (D := D) then da_stake_table membership epoch else stake_table membership epoch.

Definition cert_total_nodes (membership : M) (epoch : option EpochNumber) : outcome Error Z :=
  if is_da (D := D) then da_total_nodes membership epoch else total_nodes membership epoch.
End Certificate.

(** ** [impl UpgradeCertificate] *)

Definition is_relevant (cert : UpgradeCertificate) (view_number : ViewNumber)
    (decided : option UpgradeCertificate) : outcome Error unit :=
  ensure ((view_number <=? decide_by (data cert)) || bool_decide (decided = Some cert))
    "Upgrade certificate is no longer relevant.".

Definition validate_upgrade_certificate {M : Type} `{!Membership M} (cert : option UpgradeCertificate)
    (membership : M) (epoch : option EpochNumber) (lock : UpgradeLock) : outcome Error unit :=
  match cert with
  | Some cert =>
      membership_stake_table ← stake_table membership epoch;
      membership_upgrade_threshold ← upgrade_threshold membership epoch;
      match is_valid_cert cert membership_stake_table membership_upgrade_threshold lock with
      | Ok _ => Ok tt
      | Err _ => Err "Invalid upgrade certificate"
      | Panic => Panic
      end
  | None => Ok tt
  end.

Definition upgrading_in (cert : UpgradeCertificate) (view : ViewNumber) : bool :=
  (old_version_last_view (data cert) <? view) && (view <? new_version_first_view (data cert)).
End UpgradeLock.

Arguments vvd_data {_} v.
Arguments vvd_view {_} v.
Arguments vvd_version {_} v.

(** ** Conversions between the two generations of votes and certificates

    [Commitment::from_raw(c.into())] is the identity on commitments. *)

Section Conversions.
Context `{Sg : SignatureScheme} `{Cm : Committable} `{Vt : VidTypes}.

Definition map_cert {D D' TH} (f : D → D') (c : SimpleCertificate D TH) : SimpleCertificate D' TH :=
  {| data := f (data c); vote_commitment := vote_commitment c;
     view_number := view_number c; signatures := signatures c |}.

Definition map_vote {D D'} (f : D → D') (v : SimpleVote D) : SimpleVote D' :=
  {| signature := signature v; vote_data := f (vote_data v); vote_view := vote_view v |}.

Definition quorum_data2 (d : QuorumData) : QuorumData2 :=
  {| leaf_commit := q_leaf_commit d; q2_epoch := None |}.
Definition quorum_data (d : QuorumData2) : QuorumData := {| q_leaf_commit := leaf_commit d |}.
Definition da_data2 (d : DaData) : DaData2 :=
  {| payload_commit := da_payload_commit d; da2_epoch := None |}.
Definition da_data (d : DaData2) : DaData := {| da_payload_commit := payload_commit d |}.
Definition timeout_data2 (d : TimeoutData) : TimeoutData2 :=
  {| t2_view := t_view d; t2_epoch := None |}.
Definition timeout_data (d : TimeoutData2) : TimeoutData := {| t_view := t2_view d |}.
Definition precommit_data2 (d : ViewSyncPreCommitData) : ViewSyncPreCommitData2 :=
  {| vsp2_relay := vsp_relay d; vsp2_round := vsp_round d; vsp2_epoch := None |}.
Definition precommit_data (d : ViewSyncPreCommitData2) : ViewSyncPreCommitData :=
  {| vsp_relay := vsp2_relay d; vsp_round := vsp2_round d |}.
Definition commit_data2 (d : ViewSyncCommitData) : ViewSyncCommitData2 :=
  {| vsc2_relay := vsc_relay d; vsc2_round := vsc_round d; vsc2_epoch := None |}.
Definition commit_data (d : ViewSyncCommitData2) : ViewSyncCommitData :=
  {| vsc_relay := vsc2_relay d; vsc_round := vsc2_round d |}.
Definition finalize_data2 (d : ViewSyncFinalizeData) : ViewSyncFinalizeData2 :=
  {| vsf2_relay := vsf_relay d; vsf2_round := vsf_round d; vsf2_epoch := None |}.
Definition finalize_data (d : ViewSyncFinalizeData2) : ViewSyncFinalizeData :=
  {| vsf_relay := vsf2_relay d; vsf_round := vsf2_round d |}.

Definition to_qc2 : QuorumCertificate → QuorumCertificate2 := map_cert quorum_data2.
Definition to_qc : QuorumCertificate2 → QuorumCertificate := map_cert quorum_data.
Definition to_dac2 : DaCertificate → DaCertificate2 := map_cert da_data2.
Definition to_dac : DaCertificate2 → DaCertificate := map_cert da_data.
Definition pre_commit_to_vsc2 : ViewSyncPreCommitCertificate → ViewSyncPreCommitCertificate2 :=
  map_cert precommit_data2.
Definition pre_commit_to_vsc : ViewSyncPreCommitCertificate2 → ViewSyncPreCommitCertificate :=
  map_cert precommit_data.
Definition commit_to_vsc2 : ViewSyncCommitCertificate → ViewSyncCommitCertificate2 :=
  map_cert commit_data2.
Definition commit_to_vsc : ViewSyncCommitCertificate2 → ViewSyncCommitCertificate :=
  map_cert commit_data.
Definition finalize_to_vsc2 : ViewSyncFinalizeCertificate → ViewSyncFinalizeCertificate2 :=
  map_cert finalize_data2.
Definition finalize_to_vsc : ViewSyncFinalizeCertificate2 → ViewSyncFinalizeCertificate :=
  map_cert finalize_data.
Definition to_tc2 : TimeoutCertificate → TimeoutCertificate2 := map_cert timeout_data2.
Definition to_tc : TimeoutCertificate2 → TimeoutCertificate := map_cert timeout_data.

Definition quorum_to_vote2 : SimpleVote QuorumData → SimpleVote QuorumData2 := map_vote quorum_data2.
Definition quorum_to_vote : SimpleVote QuorumData2 → SimpleVote QuorumData := map_vote quorum_data.
Definition da_to_vote2 : SimpleVote DaData → SimpleVote DaData2 := map_vote da_data2.
Definition da_to_vote : SimpleVote DaData2 → SimpleVote DaData := map_vote da_data.
Definition timeout_to_vote2 : SimpleVote TimeoutData → SimpleVote TimeoutData2 :=
  map_vote timeout_data2.
Definition timeout_to_vote : SimpleVote TimeoutData2 → SimpleVote TimeoutData :=
  map_vote timeout_data.
Definition pre_commit_to_vote2 : SimpleVote ViewSyncPreCommitData → SimpleVote ViewSyncPreCommitData2 :=
  map_vote precommit_data2.
Definition pre_commit_to_vote : SimpleVote ViewSyncPreCommitData2 → SimpleVote ViewSyncPreCommitData :=
  map_vote precommit_data.
Definition commit_to_vote2 : SimpleVote ViewSyncCommitData → SimpleVote ViewSyncCommitData2 :=
  map_vote commit_data2.
Definition commit_to_vote : SimpleVote ViewSyncCommitData2 → SimpleVote ViewSyncCommitData :=
  map_vote commit_data.
Definition finalize_to_vote2 : SimpleVote ViewSyncFinalizeData → SimpleVote ViewSyncFinalizeData2 :=
  map_vote finalize_data2.
Definition finalize_to_vote : SimpleVote ViewSyncFinalizeData2 → SimpleVote ViewSyncFinalizeData :=
  map_vote finalize_data.
Definition next_epoch_vote : SimpleVote QuorumData2 → SimpleVote NextEpochQuorumData2 :=
  map_vote NextEpochQuorumData2_.

(** *** Lemmas *)

Context `{Vs : Versions}.

(** A data conversion that keeps the commitment keeps the validity of every
    certificate. *)
Lemma map_cert_valid {D D' TH} `{!Voteable D} `{!Voteable D'} (f : D → D')
    (c : SimpleCertificate D TH) t thr lock :
  commit (f (data c)) = commit (data c) →
  is_valid_cert (map_cert f c) t thr lock = is_valid_cert c t thr lock.
Proof.
  intros Hf. unfold is_valid_cert, data_commitment, VersionedVoteData_new, vvd_commit. simpl.
  destruct (view_number c =? genesis_view); [done|].
  destruct (version lock (view_number c)); mon; simpl; by rewrite ?Hf.
Qed.

Lemma map_cert_cancel {D D' TH} (f : D → D') (g : D' → D) (c : SimpleCertificate D TH) :
  g (f (data c)) = data c → map_cert g (map_cert f c) = c.
Proof. intros Hg. destruct c. unfold map_cert. simpl in *. by rewrite Hg. Qed.

Lemma map_vote_cancel {D D'} (f : D → D') (g : D' → D) (v : SimpleVote D) :
  g (f (vote_data v)) = vote_data v → map_vote g (map_vote f v) = v.
Proof. intros Hg. destruct v. unfold map_vote. simpl in *. by rewrite Hg. Qed.
End Conversions.
