(* ===== verification/Certificates.v ===== *)
(** * What a valid certificate proves

    Certificates are checked with [is_valid_cert] ([Votes.v]).  This file shows
    what a successful check means: the signers of the certificate hold stake of
    at least the threshold and signed the vote for the certificate's data and
    view; two quorum certificates of one view agree.  It also models the
    versioned message envelope of [UpgradeLock::serialize] and
    [UpgradeLock::deserialize]. *)

From S2P Require Import Prelude Epochs Crypto Committee Votes.

(** ** The versioned envelope: [types/src/message.rs] *)

(** The [vbs] serializer: bytes tagged with a version. *)
Class Vbs (Msg : Type) := {
  vbs_serialize : Version → Msg → option bytes;
  vbs_deserialize : Version → bytes → option Msg;
  vbs_version : bytes → option Version;
  msg_view : Msg → ViewNumber;
}.

Class VbsLaws {Msg} (V : Vbs Msg) := {
  vbs_tag v m b : vbs_serialize v m = Some b → vbs_version b = Some v;
  vbs_roundtrip v m b : vbs_serialize v m = Some b → vbs_deserialize v b = Some m;
}.

Section Envelope.
Context `{Sg : SignatureScheme} `{Cm : Committable} `{Vs : Versions} {Msg : Type} `{V : !Vbs Msg}.

Definition serialize (lock : UpgradeLock) (message : Msg) : outcome Error bytes :=
  version ← version lock (msg_view message);
  serialized_message ←
    (if bool_decide (version = Base) then Ok (vbs_serialize Base message)
     else if bool_decide (version = Upgrade) then Ok (vbs_serialize Upgrade message)
     else Err "Attempted to serialize with an incompatible version");
  ok_or serialized_message "Failed to serialize message!".

Definition deserialize (lock : UpgradeLock) (message : bytes) : outcome Error Msg :=
  actual_version ← ok_or (vbs_version message) "Failed to read message version!";
  deserialized ←
    (if bool_decide (actual_version = Base) then Ok (vbs_deserialize Base message)
     else if bool_decide (actual_version = Upgrade) then Ok (vbs_deserialize Upgrade message)
     else Err "Cannot deserialize message with stated version");
  deserialized_message ← ok_or deserialized "Failed to deserialize message!";
  expected_version ← version lock (msg_view deserialized_message);
  _ ← ensure (bool_decide (actual_version = expected_version))
        "Message has invalid version number for its view";
  Ok deserialized_message.

Lemma version_supported lock view v : version lock view = Ok v → v = Base ∨ v = Upgrade.
Proof. unfold version. repeat case_match; naive_solver. Qed.

(** The dispatch on a supported version. *)
Lemma supported_dispatch {A} (v : Version) (f : Version → A) e :
  v = Base ∨ v = Upgrade →
  (if bool_decide (v = Base) then Ok (f Base)
   else if bool_decide (v = Upgrade) then Ok (f Upgrade) else Err e) = Ok (E:=Error) (f v).
Proof. intros Hv. repeat case_bool_decide; naive_solver. Qed.

Lemma serialize_inv lock m b :
  serialize lock m = Ok b →
  ∃ v, version lock (msg_view m) = Ok v ∧ vbs_serialize v m = Some b.
Proof.
  unfold serialize. destruct (version lock (msg_view m)) as [v| |] eqn:Hv; [|done..]. mon.
  rewrite (supported_dispatch v (fun v => vbs_serialize v m)) by (by eapply version_supported).
  mon. destruct (vbs_serialize v m) eqn:Hs; simpl; naive_solver.
Qed.

Lemma deserialize_serialize `{!VbsLaws V} lock (m : Msg) b :
  serialize lock m = Ok b → deserialize lock b = Ok m.
Proof.
  intros (v & Hv & Hs)%serialize_inv. unfold deserialize.
  rewrite (vbs_tag _ _ _ Hs). simpl. mon.
  rewrite (supported_dispatch v (fun v => vbs_deserialize v b)) by (by eapply version_supported).
  mon. rewrite (vbs_roundtrip _ _ _ Hs). simpl. mon. rewrite Hv. mon.
  by rewrite bool_decide_eq_true_2.
Qed.

(** Messages survive the wire: what [serialize] produces under an upgrade
    lock, [deserialize] reads back under the same lock; and every message
    [deserialize] accepts carries the tag of the version that applies in the
    message's view. *)
Theorem envelope_roundtrip `{!VbsLaws V} lock (m : Msg) b :
  (serialize lock m = Ok b → deserialize lock b = Ok m) ∧
  (deserialize lock b = Ok m →
     ∃ v, version lock (msg_view m) = Ok v ∧ vbs_version b = Some v).
Proof.
  split; [apply deserialize_serialize|].
  unfold deserialize. intros Hd. inv_ok Hd.
    destruct (vbs_version b) as [v|]; simplify_eq/=. apply ensure_ok_inv in E3. bool_facts. subst.
    eauto.
Qed.
End Envelope.

(** ** Valid certificates *)

Section Valid.
Context `{Sg : SignatureScheme} `{Cm : Committable} `{Vt : VidTypes} `{Vs : Versions}.

(** The message a vote for [d] in view [v] signs.  The version that applies in
    the view is not part of it. *)
Definition vote_message {D} `{!Voteable D} (d : D) (v : ViewNumber) : bytes :=
  as_ref (vvd_commit {| vvd_data := d; vvd_view := v; vvd_version := Base |}).

Lemma data_commitment_spec {D TH} `{!Voteable D} (c : SimpleCertificate D TH) lock cm :
  data_commitment c lock = Ok cm ↔
  ∃ v, version lock (view_number c) = Ok v ∧
       cm = vvd_commit {| vvd_data := data c; vvd_view := view_number c; vvd_version := Base |}.
Proof.
  unfold data_commitment, VersionedVoteData_new, vvd_commit.
  destruct (version lock (view_number c)) as [v| |]; mon; simpl; naive_solver.
Qed.

Lemma valid_cert_inv {D TH} `{!Voteable D} `{!CommittableLaws Cm}
    (c : SimpleCertificate D TH) t thr lock :
  is_valid_cert c t thr lock = Ok tt → view_number c ≠ genesis_view →
  ∃ sig signers w, signatures c = Some (sig, signers) ∧
    check_qc (public_parameter t thr) (vote_message (data c) (view_number c)) (sig, signers) = Ok w.
Proof.
  unfold is_valid_cert. intros Hv Hg. destruct (Z.eqb_spec (view_number c) genesis_view); [done|].
  destruct (data_commitment c lock) as [cm| |] eqn:Hd; [|done..].
  apply data_commitment_spec in Hd as (v & _ & ->). mon. revert Hv. mon.
  destruct (signatures c) as [[sig signers]|]; [|done]. simpl. mon.
  unfold check. rewrite as_ref_length. cbn [negb Nat.eqb].
  destruct (check_qc _ _ _) as [w| |] eqn:Hc; [|done..]. intros _. eauto.
Qed.

(** A certificate with signatures for its data and view is valid. *)
Lemma valid_cert_intro {D TH} `{!Voteable D} `{!CommittableLaws Cm}
    (c : SimpleCertificate D TH) t thr lock qc w v :
  version lock (view_number c) = Ok v → signatures c = Some qc →
  check_qc (public_parameter t thr) (vote_message (data c) (view_number c)) qc = Ok w →
  is_valid_cert c t thr lock = Ok tt.
Proof.
  intros Hver Hs Hc. unfold is_valid_cert. destruct (Z.eqb_spec (view_number c) genesis_view); [done|].
  rewrite (proj2 (data_commitment_spec c lock _)) by eauto. rewrite Hs. mon. simpl. mon.
  unfold check. rewrite as_ref_length. cbn [negb Nat.eqb]. unfold vote_message in Hc. by rewrite Hc.
Qed.

Lemma quorum_data2_commit_inj `{!CommittableLaws Cm} (d1 d2 : QuorumData2) :
  commit d1 = commit d2 → d1 = d2.
Proof.
  destruct d1 as [l1 e1], d2 as [l2 e2]. simpl. intros Hl%finalize_inj.
  - assert (as_ref l1 = as_ref l2) as ->%as_ref_inj by congruence. destruct e1, e2; naive_solver.
  - unfold comparable. destruct e1, e2; simpl;
      first [by left; eexists []|by left; eexists [_]|by right; eexists [_]].
Qed.

Lemma vote_message_inj {D} `{!Voteable D} `{!CommittableLaws Cm} (d1 d2 : D) v1 v2 :
  vote_message d1 v1 = vote_message d2 v2 → commit d1 = commit d2 ∧ v1 = v2.
Proof.
  intros Hl%as_ref_inj%finalize_inj.
  - injection Hl as Hd ->. apply as_ref_inj in Hd. done.
  - left. by exists [].
Qed.

(** *** Counting signers *)

Lemma ver_keys_sublist t bits : ver_keys t bits `sublist_of` map stake_key t.
Proof.
  rewrite ver_keys_filter. revert bits. induction t as [|e t IH]; intros [|b bits]; simpl.
  - done.
  - done.
  - apply sublist_nil_l.
  - destruct b; [rewrite filter_cons_True by done|rewrite filter_cons_False by done];
      simpl; constructor; apply IH.
Qed.

Lemma unit_weight_length t bits :
  unit_stakes t → weight t bits = Z.of_nat (length (ver_keys t bits)).
Proof.
  rewrite ver_keys_filter. unfold weight. intros Hu. revert bits.
  induction Hu as [|e t He Hu IH]; intros [|b bits]; simpl; [done..|].
  rewrite IH. destruct b; [rewrite filter_cons_True by done|rewrite filter_cons_False by done];
    simpl; lia.
Qed.

(** More than [n] distinct keys cannot all be among [n] keys. *)
Lemma honest_key_exists (honest : PubKey → bool) ks keys :
  NoDup keys → ks `sublist_of` keys →
  (length (base.filter (fun k => honest k = false) keys) < length ks)%nat →
  ∃ k, k ∈ ks ∧ honest k = true.
Proof.
  intros Hnd Hs Hlen.
  destruct (decide (Exists (fun k => honest k = true) ks)) as [He|Hn].
  { apply Exists_exists in He. naive_solver. }
  exfalso. apply not_Exists_Forall in Hn; [|apply _]. rewrite Forall_forall in Hn.
  enough (length ks <= length (base.filter (fun k => honest k = false) keys))%nat by lia.
  apply submseteq_length, NoDup_submseteq.
  - by eapply sublist_NoDup.
  - intros k Hk. apply list_elem_of_filter. split; [by apply not_true_is_false, Hn|].
    eapply elem_of_submseteq; [done|by apply sublist_submseteq].
Qed.
End Valid.

(** ** Properties *)

Section CertProperties.
Context `{Sg : SignatureScheme} `{Cm : Committable} `{Vt : VidTypes} `{Vs : Versions}.
Context {Lm : CommittableLaws Cm} {signed : PubKey → bytes → Prop} {Ls : SignatureLaws Sg signed}.

(** Two quorums share an honest member: one has signed for both certificates. *)
Lemma valid_certs_overlap {M} {Mb : Membership M} {known} {Lc : CommitteeLaws Mb known}
    (m : M) e t td thr lock (honest : PubKey → bool) (c1 c2 : QuorumCertificate2) :
  known m e t td → unit_stakes t → success_threshold m e = Ok thr →
  view_number c1 ≠ genesis_view → view_number c2 ≠ genesis_view →
  is_valid_cert c1 t thr lock = Ok tt → is_valid_cert c2 t thr lock = Ok tt →
  Z.of_nat (length (base.filter (fun k => honest k = false) (map stake_key t)))
    <= Z.of_nat (length t) / 3 →
  ∃ k, honest k = true ∧ signed k (vote_message (data c1) (view_number c1)) ∧
    signed k (vote_message (data c2) (view_number c2)).
Proof using Lm Ls.
  intros Hk Hu Hthr Hg1 Hg2 H1 H2 Hf.
  apply valid_cert_inv in H1 as (g1 & s1 & w1 & _ & H1); [|done].
  apply valid_cert_inv in H2 as (g2 & s2 & w2 & _ & H2); [|done].
  rewrite (known_success _ _ _ _ Hk) in Hthr. simplify_eq.
  destruct (known_tables _ _ _ _ Hk) as [(Hnd & _ & Hok & _) _].
  destruct (qc_overlap (public_parameter t _) _ _ _ _ _ _ _ _ Hok H1 H2) as [Hw Hs].
  simpl in Hw, Hs. rewrite unit_stakes_total, unit_weight_length in Hw by done.
  pose proof (unit_quorum_arith (Z.of_nat (length t)) ltac:(lia)) as Har. unfold one_third in Har.
  destruct (honest_key_exists honest (ver_keys t (zip_with andb s1 s2)) (map stake_key t))
    as (k & Hin & Hh); [done|apply ver_keys_sublist|lia|].
  rewrite Forall_forall in Hs. destruct (Hs k Hin) as [Hs1 Hs2]. by exists k.
Qed.

(** C2. At most one quorum certificate per view: in an epoch whose committee members have stake
    one each and of whom at most a third are faulty, two valid quorum certificates of the
    same view certify the same leaf and epoch.  The view is not the genesis view, whose
    certificates [is_valid_cert] accepts whatever they certify.  The honest members sign at
    most one vote message per view. *)
Theorem qc_unique_per_view {M} {Mb : Membership M} {known} {Lc : CommitteeLaws Mb known}
    (m : M) e t td thr lock (honest : PubKey → bool) (c1 c2 : QuorumCertificate2) :
  known m e t td → unit_stakes t → success_threshold m e = Ok thr →
  view_number c1 = view_number c2 → view_number c1 ≠ genesis_view →
  is_valid_cert c1 t thr lock = Ok tt → is_valid_cert c2 t thr lock = Ok tt →
  (∀ k (d1 d2 : QuorumData2), honest k = true →
     signed k (vote_message d1 (view_number c1)) → signed k (vote_message d2 (view_number c1)) →
     vote_message d1 (view_number c1) = vote_message d2 (view_number c1)) →
  Z.of_nat (length (base.filter (fun k => honest k = false) (map stake_key t)))
    <= Z.of_nat (length t) / 3 →
  data c1 = data c2.
Proof using Lm Ls.
  intros Hk Hu Hthr Hview Hg H1 H2 Hhon Hf.
  destruct (valid_certs_overlap m e t td thr lock honest c1 c2) as (k & Hh & Hs1 & Hs2); try done; [congruence|].
  rewrite <-Hview in Hs2. pose proof (Hhon k _ _ Hh Hs1 Hs2) as [Hc _]%vote_message_inj. by apply quorum_data2_commit_inj.
Qed.

(** A certificate that carries no signatures makes [is_valid_cert] panic
    instead of returning an error, in every view but the genesis view whose
    version the node supports. *)
Theorem is_valid_cert_without_signatures {D TH} `{!Voteable D}
    (c : SimpleCertificate D TH) t thr lock v :
  signatures c = None → view_number c ≠ genesis_view → version lock (view_number c) = Ok v →
  is_valid_cert c t thr lock = Panic.
Proof.
  intros Hs Hg Hv. unfold is_valid_cert. destruct (Z.eqb_spec (view_number c) genesis_view); [done|].
  rewrite (proj2 (data_commitment_spec c lock _)) by eauto. by rewrite Hs.
Qed.

(** Certificates of the first generation stay valid: each of the six
    conversions to the second generation gives a certificate that is valid
    exactly when the original is, converting back returns the original, and the
    opposite round trip is the identity exactly on certificates without epoch. *)
Theorem certificate_conversions t thr lock :
  (∀ c, is_valid_cert (to_qc2 c) t thr lock = is_valid_cert c t thr lock ∧ to_qc (to_qc2 c) = c) ∧
  (∀ c, is_valid_cert (to_dac2 c) t thr lock = is_valid_cert c t thr lock ∧ to_dac (to_dac2 c) = c) ∧
  (∀ c, is_valid_cert (to_tc2 c) t thr lock = is_valid_cert c t thr lock ∧ to_tc (to_tc2 c) = c) ∧
  (∀ c, is_valid_cert (pre_commit_to_vsc2 c) t thr lock = is_valid_cert c t thr lock ∧
        pre_commit_to_vsc (pre_commit_to_vsc2 c) = c) ∧
  (∀ c, is_valid_cert (commit_to_vsc2 c) t thr lock = is_valid_cert c t thr lock ∧
        commit_to_vsc (commit_to_vsc2 c) = c) ∧
  (∀ c, is_valid_cert (finalize_to_vsc2 c) t thr lock = is_valid_cert c t thr lock ∧
        finalize_to_vsc (finalize_to_vsc2 c) = c) ∧
  (∀ c, to_qc2 (to_qc c) = c ↔ epoch (data c) = None) ∧
  (∀ c, to_dac2 (to_dac c) = c ↔ epoch (data c) = None).
Proof.
  split_and!; intros c; try (split; [by apply map_cert_valid|by destruct c as [[] ? ? ?]]).
  all: destruct c as [[? e] ? ? ?]; unfold epoch; cbn; destruct e; split; intros; simplify_eq; done.
Qed.

(** The epoch of a timeout certificate is not signed: replacing it by any
    other epoch does not change the outcome of [is_valid_cert]. *)
Theorem timeout_certificate_epoch_unbound (c : TimeoutCertificate2) e t thr lock :
  is_valid_cert (map_cert (fun d => {| t2_view := t2_view d; t2_epoch := e |}) c) t thr lock =
  is_valid_cert c t thr lock.
Proof. by apply map_cert_valid. Qed.
End CertProperties.

(** ** Witnesses *)

Module CertDemo.
#[global] Instance versions : Versions := {|
  Base := {| major := 0; minor := 1 |};
  Upgrade := {| major := 0; minor := 2 |};
  UPGRADE_HASH := replicate 32 0;
  Marketplace := {| major := 0; minor := 3 |};
  Epochs := {| major := 0; minor := 2 |};
|}.

#[global] Instance vid : VidTypes := {| VidCommitment := bytes; vid_as_ref b := b |}.

(** A message is its view and a number. *)
#[global] Instance vbs : Vbs (Z * Z) := {|
  vbs_serialize v m := Some [major v; minor v; m.1; m.2];
  vbs_deserialize v b := match b with [_; _; x; y] => Some (x, y) | _ => None end;
  vbs_version b :=
    match b with x :: y :: _ => Some {| major := x; minor := y |} | _ => None end;
  msg_view m := m.1;
|}.

#[global] Instance vbs_laws : VbsLaws vbs.
Proof. split; simpl; intros v m b [= <-]; by destruct v, m. Qed.

(** Four members of stake one that all voted for the same leaf in view 5. *)
Definition qdata : QuorumData2 := {| leaf_commit := (Ideal.digest 77); q2_epoch := Some 1 |}.
Definition registry : Z → bytes → bool :=
  fun _ m => bool_decide (m = vote_message (Cm := Ideal.committable) qdata 5).
Definition sigs : SignatureScheme := Ideal.signatures registry.
Definition sigs_laws : SignatureLaws sigs (fun k m => registry k m = true) :=
  Ideal.signature_laws registry.
#[local] Existing Instance sigs.

Definition table4 : list (StakeTableEntry ) :=
  map (fun k => {| stake_key := k; stake_amount := 1 |}) [10; 20; 30; 40].
Definition committee4 : Committee  :=
  committee_new (map (Build_PeerConfig sigs) table4) [].

Definition cert (ks : list Z) (bits : list bool) : QuorumCertificate2 :=
  {| data := qdata; vote_commitment := (Ideal.digest 1); view_number := 5;
     signatures := Some (map (fun k => (k, vote_message qdata 5)) ks, bits) |}.

Lemma table4_ok : table_ok table4.
Proof.
  split_and!; [|repeat constructor|split; [repeat constructor; done|by compute]|by compute].
  apply (bool_decide_unpack _). by vm_compute.
Qed.

Lemma committee4_known e : single_known committee4 e table4 [].
Proof.
  split_and!; [apply table4_ok| |done].
  split_and!; [constructor|constructor|split; [constructor|by compute]|by compute].
Qed.
End CertDemo.

Lemma envelope_roundtrip_witness :
  deserialize (Sg := Ideal.open_signatures) (Cm := Ideal.committable) UpgradeLock_new [0; 1; 9; 4]
  = Ok (9, 4).
Proof. by apply (envelope_roundtrip (VbsLaws0 := CertDemo.vbs_laws) UpgradeLock_new (9, 4)). Defined.

Lemma qc_unique_per_view_witness :
  data (CertDemo.cert [10; 20; 30] [true; true; true; false]) =
  data (CertDemo.cert [20; 30; 40] [false; true; true; true]).
Proof.
  apply (qc_unique_per_view (Ls := CertDemo.sigs_laws) (Lc := static_committee_laws)
    CertDemo.committee4 None CertDemo.table4 [] 3 UpgradeLock_new (fun _ => true)
    (CertDemo.cert [10; 20; 30] [true; true; true; false])
    (CertDemo.cert [20; 30; 40] [false; true; true; true]) (CertDemo.committee4_known None)).
  - repeat constructor.
  - reflexivity.
  - reflexivity.
  - discriminate.
  - vm_compute. reflexivity.
  - vm_compute. reflexivity.
  - intros k d1 d2 _ H1 H2. apply bool_decide_eq_true in H1, H2. congruence.
  - vm_compute. discriminate.
Defined.

Lemma is_valid_cert_without_signatures_witness :
  is_valid_cert (H := Ideal.open_signatures) (H0 := Ideal.committable)
    (D := TimeoutData2) (TH := SuccessThreshold)
    {| data := {| t2_view := 3; t2_epoch := None |}; vote_commitment := (Ideal.digest 1);
       view_number := 4; signatures := None |} Ideal.table3 3 UpgradeLock_new = Panic.
Proof.
  apply (is_valid_cert_without_signatures _ _ _ _ Base); [reflexivity|discriminate|reflexivity].
Defined.
