(* ===== verification/VoteAccumulator.v ===== *)
(** * Accumulating votes into certificates

    [VoteAccumulator::accumulate] of [types/src/vote.rs], for every pair of vote
    data and certificate.  The accumulator keeps, per vote commitment, the stake
    that voted with the votes by key, and a bit per stake table entry with the
    signatures in the order they arrived.

    The abstract accumulator is the set of keys that voted, per commitment
    ([voters]).  [accumulate_refines] gives the whole behaviour of [accumulate]
    in terms of it, on every branch; [accumulated_cert_valid] shows that a
    certificate it forms passes [is_valid_cert]. *)

From S2P Require Import Prelude Epochs Crypto Committee Votes Certificates.

Section Accumulator.
Context `{Sg : SignatureScheme} `{Cm : Committable} `{Vt : VidTypes} `{Vs : Versions}.

(** [VoteMap2] and [SignersMap]; [upgrade_lock] is shared with the node. *)
Record VoteAccumulator := {
  vote_outcomes : gmap Commitment (Z * gmap PubKey (Sig * Commitment));
  signers : gmap Commitment (list bool * list Sig);
}.

Definition VoteAccumulator_empty : VoteAccumulator :=
  {| vote_outcomes := ∅; signers := ∅ |}.

Definition set_outcome (acc : VoteAccumulator) (c : Commitment)
    (o : Z * gmap PubKey (Sig * Commitment)) : VoteAccumulator :=
  {| vote_outcomes := <[c := o]> (vote_outcomes acc); signers := signers acc |}.
Definition set_signers (acc : VoteAccumulator) (c : Commitment)
    (s : list bool * list Sig) : VoteAccumulator :=
  {| vote_outcomes := vote_outcomes acc; signers := <[c := s]> (signers acc) |}.

Context {D : Type} `{!Voteable D} `{!CertData D} (TH : Threshold).
Context {M : Type} `{Mb : !Membership M}.

(** [stake_table.iter().position(|x| *x == entry)] *)
Definition position (entry : StakeTableEntry) (t : list StakeTableEntry) : option nat :=
  fst <$> list_find (fun x => x = entry) t.

Definition accumulate (lock : UpgradeLock) (acc : VoteAccumulator) (vote : SimpleVote D)
    (membership : M) (epoch : option EpochNumber)
    : outcome Error (VoteAccumulator * option (SimpleCertificate D TH)) :=
  let key := signing_key vote in
  match VersionedVoteData_new (date vote) (vote_view vote) lock with
  | Err _ => Ok (acc, None)
  | Panic => Panic
  | Ok vd =>
    let vote_commitment := vvd_commit vd in
    if negb (validate key (vote_signature vote) (as_ref vote_commitment)) then Ok (acc, None)
    else
    stake_table_entry ← cert_stake_table_entry (D:=D) membership key epoch;
    match stake_table_entry with
    | None => Ok (acc, None)
    | Some stake_table_entry =>
      stake_table ← cert_stake_table (D:=D) membership epoch;
      total_nodes ← cert_total_nodes (D:=D) membership epoch;
      threshold ← cert_threshold (D:=D) (TH:=TH) membership epoch;
      match position stake_table_entry stake_table with
      | None => Ok (acc, None)
      | Some vote_node_id =>
        (* self.vote_outcomes.entry(vote_commitment).or_insert_with(..) *)
        let '(total_stake_casted, total_vote_map) :=
          default (0, ∅) (vote_outcomes acc !! vote_commitment) in
        let acc := set_outcome acc vote_commitment (total_stake_casted, total_vote_map) in
        if bool_decide (is_Some (total_vote_map !! key)) then Ok (acc, None)
        else
        (* self.signers.entry(vote_commitment).or_insert(..) *)
        let '(bits, sig_list) :=
          default (replicate (Z.to_nat total_nodes) false, []) (signers acc !! vote_commitment) in
        let acc := set_signers acc vote_commitment (bits, sig_list) in
        if bool_decide (bits !! vote_node_id = Some true) then Ok (acc, None)
        else
        bits ← index_set bits vote_node_id true;
        let sig_list := sig_list ++ [vote_signature vote] in
        total_stake_casted ← u256_add total_stake_casted (stake_amount stake_table_entry);
        let total_vote_map := <[key := (vote_signature vote, vote_commitment)]> total_vote_map in
        let acc := set_signers (set_outcome acc vote_commitment (total_stake_casted, total_vote_map))
                     vote_commitment (bits, sig_list) in
        if threshold <=? total_stake_casted then
          let real_qc_pp := public_parameter stake_table threshold in
          real_qc_sig ← assemble real_qc_pp bits sig_list;
          Ok (acc, Some (create_signed_certificate vote_commitment (date vote) real_qc_sig
                           (vote_view vote)))
        else Ok (acc, None)
      end
    end
  end.

(** ** Specification *)

(** What the accumulator holds for a commitment, entries not yet made included. *)
Definition outcome_at (acc : VoteAccumulator) (c : Commitment) : Z * gmap PubKey (Sig * Commitment) :=
  default (0, ∅) (vote_outcomes acc !! c).
Definition signers_at (n : nat) (acc : VoteAccumulator) (c : Commitment) : list bool * list Sig :=
  default (replicate n false, []) (signers acc !! c).

(** The keys that voted for a commitment. *)
Definition voters (acc : VoteAccumulator) (c : Commitment) : gset PubKey :=
  dom (outcome_at acc c).2.

(** The bits of a set of keys in the stake table, and their stake. *)
Definition bits_of (t : list StakeTableEntry) (ks : gset PubKey) : list bool :=
  map (fun e => bool_decide (stake_key e ∈ ks)) t.
Definition stake_of (t : list StakeTableEntry) (ks : gset PubKey) : Z := weight t (bits_of t ks).

(** The commitment a vote is counted under. *)
Definition commitment_of (vote : SimpleVote D) : Commitment :=
  vvd_commit {| vvd_data := date vote; vvd_view := vote_view vote; vvd_version := Base |}.

(** Votes that count: supported version, valid signature, key in the table. *)
Definition eligible (lock : UpgradeLock) (t : list StakeTableEntry) (vote : SimpleVote D) : bool :=
  is_ok (version lock (vote_view vote)) &&
  validate (signing_key vote) (vote_signature vote) (as_ref (commitment_of vote)) &&
  bool_decide (signing_key vote ∈ map stake_key t).

(** The representation invariant. *)
Definition entry_inv (t : list StakeTableEntry) (c : Commitment) (ks : gset PubKey)
    (total : Z) (s : list bool * list Sig) : Prop :=
  ks ⊆ list_to_set (map stake_key t) ∧ s.1 = bits_of t ks ∧ total = stake_of t ks ∧
  ∃ ss, Forall2 (fun k s => validate k s (as_ref c) = true) (ver_keys t (bits_of t ks)) ss ∧
        ss ≡ₚ s.2.

Definition acc_inv (t : list StakeTableEntry) (acc : VoteAccumulator) : Prop :=
  ∀ c, entry_inv t c (voters acc c) (outcome_at acc c).1 (signers_at (length t) acc c).
End Accumulator.

(** ** Lemmas about bits and keys *)

Section Bits.
Context `{Sg : SignatureScheme}.
Implicit Types (t : list StakeTableEntry) (ks : gset PubKey).

Lemma ver_keys_cons e t b bits :
  ver_keys (e :: t) (b :: bits) = (if b then [stake_key e] else []) ++ ver_keys t bits.
Proof.
  rewrite !ver_keys_filter. simpl.
  by destruct b; [rewrite filter_cons_True by done|rewrite filter_cons_False by done].
Qed.

Lemma ver_keys_insert t bits i e :
  t !! i = Some e → bits !! i = Some false →
  ∃ l1 l2, ver_keys t bits = l1 ++ l2 ∧ ver_keys t (<[i := true]> bits) = l1 ++ stake_key e :: l2.
Proof.
  revert bits i. induction t as [|x t IH]; intros [|b bits] [|i] Ht Hb; simplify_eq/=.
  - exists [], (ver_keys t bits). by rewrite !ver_keys_cons.
  - destruct (IH bits i Ht Hb) as (l1 & l2 & H1 & H2).
    exists ((if b then [stake_key x] else []) ++ l1), l2.
    rewrite !ver_keys_cons, H1, H2. by rewrite <-!app_assoc.
Qed.

Lemma weight_insert t bits i e :
  t !! i = Some e → bits !! i = Some false →
  weight t (<[i := true]> bits) = weight t bits + stake_amount e.
Proof.
  unfold weight. revert bits i.
  induction t as [|x t IH]; intros [|b bits] [|i] Ht Hb; simplify_eq/=; [lia|].
  rewrite (IH bits i) by done. lia.
Qed.

Lemma bits_of_lookup t ks i e :
  t !! i = Some e → bits_of t ks !! i = Some (bool_decide (stake_key e ∈ ks)).
Proof. intros Hi. unfold bits_of. by rewrite (list_lookup_fmap _ t i), Hi. Qed.

Lemma bits_of_length t ks : length (bits_of t ks) = length t.
Proof. apply length_map. Qed.

Lemma bits_of_empty t : bits_of t ∅ = replicate (length t) false.
Proof.
  apply list_eq. intros i. destruct (t !! i) as [e|] eqn:Hi.
  - rewrite (bits_of_lookup _ _ _ _ Hi), lookup_replicate_2 by by eapply lookup_lt_Some.
    f_equal.
  - apply lookup_ge_None in Hi.
    by rewrite !lookup_ge_None_2 by (rewrite ?length_replicate, ?bits_of_length; done).
Qed.

Lemma ver_keys_empty t : ver_keys t (bits_of t ∅) = [].
Proof. rewrite bits_of_empty. induction t; simpl; [done|]. by rewrite ver_keys_cons. Qed.

(** Adding the key of entry [i] sets bit [i]. *)
Lemma bits_of_insert t ks i e :
  NoDup (map stake_key t) → t !! i = Some e →
  bits_of t ({[stake_key e]} ∪ ks) = <[i := true]> (bits_of t ks).
Proof.
  intros Hnd Hi. apply list_eq. intros j.
  destruct (t !! j) as [x|] eqn:Hj.
  - rewrite (bits_of_lookup _ _ _ _ Hj). destruct (decide (i = j)) as [->|Hne].
    + simplify_eq. rewrite list_lookup_insert_eq.
      * f_equal. apply bool_decide_eq_true. set_solver.
      * rewrite bits_of_length. by eapply lookup_lt_Some.
    + rewrite list_lookup_insert_ne, (bits_of_lookup _ _ _ _ Hj) by done.
      f_equal. apply bool_decide_ext.
      enough (stake_key x ≠ stake_key e) by set_solver.
      intros Heq. apply Hne. eapply (NoDup_lookup (map stake_key t)); [done| |].
      * by rewrite (list_lookup_fmap stake_key), Hi.
      * by rewrite (list_lookup_fmap stake_key), Hj, <-Heq.
  - rewrite !lookup_ge_None_2; [done|..]; apply lookup_ge_None in Hj;
      rewrite ?length_insert, bits_of_length; done.
Qed.

Lemma position_spec t x :
  x ∈ t → ∃ i, position x t = Some i ∧ t !! i = Some x.
Proof.
  intros Hx. unfold position. destruct (list_find (fun y => y = x) t) as [[i y]|] eqn:Hf.
  - apply list_find_Some in Hf as (Hi & -> & _). by exists i.
  - apply list_find_None in Hf. rewrite Forall_forall in Hf. by destruct (Hf x Hx).
Qed.
End Bits.

(** ** [accumulate] refines the set of voters *)

Section Refinement.
Context `{Sg : SignatureScheme} `{Cm : Committable} `{Vt : VidTypes} `{Vs : Versions}.
Context {Lm : CommittableLaws Cm} {signed : PubKey → bytes → Prop} {Ls : SignatureLaws Sg signed}.
Context {D : Type} `{!Voteable D} `{!CertData D} {TH : Threshold}.
Context {M : Type} `{Mb : !Membership M}.

(** The committee a certificate over [D] reads in an epoch: its table and
    threshold. *)
Record cert_committee (m : M) (e : option EpochNumber) (t : list StakeTableEntry) (thr : Z) : Prop := {
  cc_table_ok : table_ok t;
  cc_stake_table : cert_stake_table (D:=D) m e = Ok t;
  cc_total_nodes : cert_total_nodes (D:=D) m e = Ok (Z.of_nat (length t));
  cc_threshold : cert_threshold (D:=D) (TH:=TH) m e = Ok thr;
  cc_positive : 0 < thr;
  cc_entry k : ∃ o, cert_stake_table_entry (D:=D) m k e = Ok o ∧ entry_of t k o;
}.

Lemma known_cert_committee {known} {Lc : CommitteeLaws Mb known} m e t td :
  known m e t td → t ≠ [] →
  ∃ tc thr, cert_committee m e tc thr ∧ tc = (if is_da (D:=D) then td else t).
Proof using Type.
  intros Hk Hne. destruct (known_tables _ _ _ _ Hk) as [Ht Htd].
  assert (∀ n, 0 <= n → 0 < two_thirds n ∧ 0 < one_third n) as Hpos.
  { unfold two_thirds, one_third. intros n Hn. Z.to_euclidean_division_equations. lia. }
  destruct (known_upgrade _ _ _ _ Hk Hne) as (u & Hu & Hub).
  destruct (is_da (D:=D)) eqn:Hda.
  - exists td, (two_thirds (Z.of_nat (length td))). split; [|done].
    constructor; unfold cert_stake_table, cert_total_nodes, cert_threshold, cert_stake_table_entry;
      rewrite ?Hda.
    + done.
    + by eapply known_da_stake_table.
    + by eapply known_da_total_nodes.
    + by eapply known_da_success.
    + apply Hpos. lia.
    + intros k. by eapply known_da_stake.
  - exists t, (match TH with SuccessThreshold => two_thirds (Z.of_nat (length t))
               | OneHonestThreshold => one_third (Z.of_nat (length t)) | UpgradeThreshold => u end).
    split; [|done].
    constructor; unfold cert_stake_table, cert_total_nodes, cert_threshold, cert_stake_table_entry;
      rewrite ?Hda.
    + done.
    + by eapply known_stake_table.
    + by eapply known_total_nodes.
    + unfold threshold_of. destruct TH; [by eapply known_success|by eapply known_failure|done].
    + destruct (Hpos (Z.of_nat (length t)) ltac:(lia)). destruct TH; lia.
    + intros k. by eapply known_stake.
Qed.

Context (m : M) (e : option EpochNumber) (t : list StakeTableEntry) (thr : Z).
Context (HC : cert_committee m e t thr).

Lemma cc_entry_spec k :
  (∃ x i, cert_stake_table_entry (D:=D) m k e = Ok (Some x) ∧ position x t = Some i ∧
          t !! i = Some x ∧ stake_key x = k) ∨
  (cert_stake_table_entry (D:=D) m k e = Ok None ∧ k ∉ map stake_key t).
Proof using HC.
  destruct (cc_entry _ _ _ _ HC k) as (o & Ho & He). destruct o as [x|].
  - left. destruct (proj1 (He x) eq_refl) as [Hx <-].
    destruct (position_spec _ _ Hx) as (i & ? & ?). eauto 10.
  - right. split; [done|]. intros (x & -> & Hx)%(list_elem_of_fmap stake_key).
    by specialize (proj2 (He x) (conj Hx eq_refl)).
Qed.

Lemma outcome_at_set acc c o c' :
  outcome_at (set_outcome acc c o) c' = if decide (c = c') then o else outcome_at acc c'.
Proof using Type.
  unfold outcome_at, set_outcome. simpl. case_decide; [subst; by rewrite lookup_insert_eq|].
  by rewrite lookup_insert_ne.
Qed.

Lemma signers_at_set n acc c s c' :
  signers_at n (set_signers acc c s) c' = if decide (c = c') then s else signers_at n acc c'.
Proof using Type.
  unfold signers_at, set_signers. simpl. case_decide; [subst; by rewrite lookup_insert_eq|].
  by rewrite lookup_insert_ne.
Qed.

(** Making the entries of a commitment changes nothing. *)
Lemma outcome_at_touch acc c c' : outcome_at (set_outcome acc c (outcome_at acc c)) c' = outcome_at acc c'.
Proof using Type. rewrite outcome_at_set. case_decide; by subst. Qed.

Lemma signers_at_touch n acc c c' :
  signers_at n (set_signers acc c (signers_at n acc c)) c' = signers_at n acc c'.
Proof using Type. rewrite signers_at_set. case_decide; by subst. Qed.

Lemma acc_inv_ext acc acc' :
  (∀ c, outcome_at acc' c = outcome_at acc c) →
  (∀ c, signers_at (length t) acc' c = signers_at (length t) acc c) →
  acc_inv t acc → acc_inv t acc'.
Proof using Type. intros Ho Hs Hi c. specialize (Hi c). unfold voters in *. by rewrite Ho, Hs. Qed.

Lemma acc_inv_empty : acc_inv t VoteAccumulator_empty.
Proof using Type.
  intros c. unfold entry_inv, voters, outcome_at, signers_at, stake_of. simpl.
  rewrite !lookup_empty. simpl.
  rewrite dom_empty_L, ver_keys_empty. split_and!; [apply empty_subseteq|by rewrite bits_of_empty| |by exists []].
  by rewrite weight_ver_keys_nil by apply ver_keys_empty.
Qed.

(** Adding the vote of the entry at index [i]. *)
Lemma entry_inv_add c ks total bits sigs i x s :
  t !! i = Some x → stake_key x ∉ ks → validate (stake_key x) s (as_ref c) = true →
  entry_inv t c ks total (bits, sigs) →
  bits !! i = Some false ∧ (i < length bits)%nat ∧
  entry_inv t c ({[stake_key x]} ∪ ks) (total + stake_amount x)
    (<[i := true]> bits, sigs ++ [s]).
Proof using HC.
  intros Hi Hn Hv (Hsub & Hb & Ht & ss & Hss & Hp). simpl in *. subst bits total.
  destruct (cc_table_ok _ _ _ _ HC) as (Hnd & _).
  assert (bits_of t ks !! i = Some false) as Hbi.
  { rewrite (bits_of_lookup _ _ _ _ Hi). f_equal. by apply bool_decide_eq_false. }
  split; [done|]. split; [by eapply lookup_lt_Some|].
  split_and!.
  - apply union_subseteq. split; [|done]. apply singleton_subseteq_l, elem_of_list_to_set.
    apply (list_elem_of_fmap_2 stake_key). by eapply list_elem_of_lookup_2.
  - simpl. by rewrite (bits_of_insert _ _ _ _ Hnd Hi).
  - unfold stake_of. by rewrite (bits_of_insert _ _ _ _ Hnd Hi), (weight_insert _ _ _ _ Hi Hbi).
  - rewrite (bits_of_insert _ _ _ _ Hnd Hi).
    destruct (ver_keys_insert _ _ _ _ Hi Hbi) as (l1 & l2 & H1 & ->). rewrite H1 in Hss.
    apply Forall2_app_inv_l in Hss as (s1 & s2 & F1 & F2 & ->).
    exists (s1 ++ s :: s2). split; [by apply Forall2_app; [|constructor]|].
    simpl. rewrite <-Hp. by rewrite <-Permutation_middle, (Permutation_app_comm _ [s]).
Qed.

Lemma version_no_panic lock v : version lock v ≠ Panic.
Proof using Type. unfold version. by repeat case_match. Qed.

(** The certificate assembled from the entry of a commitment is valid. *)
Lemma assemble_valid lock (vote : SimpleVote D) v ks total bits sigs :
  version lock (vote_view vote) = Ok v →
  entry_inv t (commitment_of vote) ks total (bits, sigs) → thr <= total →
  ∃ qc, assemble (E:=Error) (public_parameter t thr) bits sigs = Ok qc ∧
    is_valid_cert (create_signed_certificate (TH:=TH) (commitment_of vote) (date vote) qc (vote_view vote))
      t thr lock = Ok tt.
Proof using HC Lm Ls.
  intros Hv (_ & Hb & Ht & Hss) Hthr. simpl in Hb. subst bits total.
  destruct (assemble_then_check (public_parameter t thr) (as_ref (commitment_of vote))
    (bits_of t ks) sigs) as (qc & Ha & Hc & _).
  { split_and!; [apply (cc_table_ok _ _ _ _ HC)|by rewrite bits_of_length|
      apply (cc_positive _ _ _ _ HC)|done|done]. }
  exists qc. unfold assemble. rewrite Ha. split; [done|]. by eapply valid_cert_intro.
Qed.

Lemma stake_of_fits ks : 0 <= stake_of t ks < u256_modulus.
Proof using HC.
  destruct (cc_table_ok _ _ _ _ HC) as (_ & _ & [Hnn Hlt] & _).
  unfold stake_of. pose proof (weight_bounds t (bits_of t ks) Hnn). lia.
Qed.

(** Replacing the entries of one commitment. *)
Lemma acc_inv_set acc c o s :
  acc_inv t acc → entry_inv t c (dom o.2) o.1 s →
  let acc' := set_signers (set_outcome acc c o) c s in
  acc_inv t acc' ∧ ∀ c', voters acc' c' = if bool_decide (c' = c) then dom o.2 else voters acc c'.
Proof using Type.
  intros Hinv He acc'.
  assert (∀ c', outcome_at acc' c' = if decide (c = c') then o else outcome_at acc c') as Ho
    by apply (outcome_at_set acc).
  assert (∀ c', voters acc' c' = if bool_decide (c' = c) then dom o.2 else voters acc c') as Hv.
  { intros c'. unfold voters. rewrite Ho. case_decide; case_bool_decide; naive_solver. }
  split; [|done]. intros c'. rewrite Hv, Ho. unfold acc'. rewrite signers_at_set.
  case_decide; case_bool_decide; subst; try done.
Qed.

Lemma accumulate_spec lock acc (vote : SimpleVote D) :
  acc_inv t acc →
  let c := commitment_of vote in
  ∃ acc' r, accumulate TH lock acc vote m e = Ok (acc', r) ∧ acc_inv t acc' ∧
    (∀ c', voters acc' c' =
       if eligible lock t vote && bool_decide (c' = c) then {[signing_key vote]} ∪ voters acc c'
       else voters acc c') ∧
    match r with
    | Some cert =>
        eligible lock t vote = true ∧ signing_key vote ∉ voters acc c ∧
        thr <= stake_of t (voters acc' c) ∧
        data cert = date vote ∧ view_number cert = vote_view vote ∧
        is_valid_cert cert t thr lock = Ok tt
    | None =>
        eligible lock t vote = false ∨ signing_key vote ∈ voters acc c ∨
        stake_of t (voters acc' c) < thr
    end.
Proof using HC Lm Ls.
  intros Hinv c. unfold accumulate, VersionedVoteData_new, eligible.
  destruct (version lock (vote_view vote)) as [v| |] eqn:Hver; mon;
    [|exists acc, None; split_and!; [done|done|done|by left]|by apply version_no_panic in Hver].
  simpl. change (vvd_commit _) with c. fold c.
  destruct (validate (signing_key vote) (vote_signature vote) (as_ref c)) eqn:Hval; simpl;
    [|exists acc, None; split_and!; [done|done|done|by left]].
  destruct (cc_entry_spec (signing_key vote)) as [(x & i & -> & Hpos & Hi & Hkey)|[-> Hno]]; mon;
    [|rewrite bool_decide_eq_false_2 by done; exists acc, None; split_and!; [done|done|done|by left]].
  rewrite (cc_stake_table _ _ _ _ HC), (cc_total_nodes _ _ _ _ HC), (cc_threshold _ _ _ _ HC). mon.
  rewrite Hpos. rewrite bool_decide_eq_true_2 by
    (rewrite <-Hkey; apply (list_elem_of_fmap_2 stake_key); by eapply list_elem_of_lookup_2).
  fold (outcome_at acc c). destruct (outcome_at acc c) as [total vm] eqn:Ho.
  pose proof (Hinv c) as Hc. unfold voters in Hc. rewrite Ho in Hc. simpl in Hc.
  assert (voters acc c = dom vm) as Hvot by (unfold voters; by rewrite Ho).
  set (acc1 := set_outcome acc c (total, vm)).
  assert (∀ c', outcome_at acc1 c' = outcome_at acc c') as Ho1
    by (intros; unfold acc1; rewrite <-Ho; apply outcome_at_touch).
  destruct (decide (is_Some (vm !! signing_key vote))) as [Hdup|Hnew].
  { rewrite bool_decide_eq_true_2 by done. apply elem_of_dom in Hdup.
    exists acc1, None. split_and!; [done|by apply (acc_inv_ext acc)| |right; left; by rewrite Hvot].
    intros c'. unfold voters. rewrite Ho1. case_bool_decide; [subst c'|done]. rewrite Ho. set_solver. }
  rewrite bool_decide_eq_false_2 by done. mon. mon. rewrite Nat2Z.id.
  fold (signers_at (length t) acc c). destruct (signers_at (length t) acc c) as [bits sigs] eqn:Hs.
  assert (signing_key vote ∉ dom vm) as Hnin by (by rewrite elem_of_dom).
  rewrite <-Hkey in Hnin, Hval. rewrite <-Hkey.
  destruct (entry_inv_add c (dom vm) total bits sigs i x (vote_signature vote) Hi Hnin Hval Hc)
    as (Hbi & Hlt & Hadd).
  rewrite Hbi, bool_decide_eq_false_2 by done.
  unfold index_set. rewrite decide_True by done. mon.
  assert (total + stake_amount x = stake_of t ({[stake_key x]} ∪ dom vm)) as Hst by apply Hadd.
  unfold u256_add, u256_checked_add.
  rewrite decide_True by (rewrite Hst; apply stake_of_fits). simpl. mon.
  set (vm' := <[stake_key x := _]> vm). set (s' := (<[i := true]> bits, _)).
  assert (dom vm' = {[stake_key x]} ∪ dom vm) as Hdom by apply dom_insert_L.
  rewrite <-Hdom in Hadd, Hst.
  assert (acc_inv t (set_signers acc1 c (bits, sigs))) as Hinv2.
  { apply (acc_inv_ext acc); [done| |done]. intros c'. rewrite <-Hs. apply (signers_at_touch _ acc1). }
  destruct (acc_inv_set _ c (total + stake_amount x, vm') s' Hinv2 Hadd) as [Hinv' Hvot'].
  set (acc' := set_signers (set_outcome _ c _) c s') in *. simpl in Hvot'.
  assert (∀ c', voters acc' c' =
    (if bool_decide (c' = c) then {[stake_key x]} ∪ voters acc c' else voters acc c')) as Hvs.
  { intros c'. rewrite Hvot'. case_bool_decide; [subst c'; by rewrite Hdom, Hvot|].
    unfold voters. change (outcome_at (set_signers acc1 c (bits, sigs)) c') with (outcome_at acc1 c').
    by rewrite Ho1. }
  assert (stake_of t (voters acc' c) = total + stake_amount x) as Hst'.
  { rewrite Hvot', bool_decide_eq_true_2 by done. done. }
  destruct (Z.leb_spec thr (total + stake_amount x)) as [Hle|Hgt].
  - destruct (assemble_valid lock vote v (dom vm') _ _ _ Hver Hadd Hle) as (qc & -> & Hq). mon.
    eexists acc', (Some _). split_and!; [done|done|done|done|by rewrite Hvot|lia|done|done|done].
  - exists acc', None. split_and!; [done|done|done|]. right. right. lia.
Qed.

(** ** Sequences of votes *)

(** Votes arrive one by one until a certificate is formed. *)
Fixpoint run_votes (lock : UpgradeLock) (acc : VoteAccumulator) (votes : list (SimpleVote D))
    : outcome Error (VoteAccumulator * option (SimpleCertificate D TH)) :=
  match votes with
  | [] => Ok (acc, None)
  | vote :: votes =>
      '(acc, cert) ← accumulate TH lock acc vote m e;
      match cert with
      | Some cert => Ok (acc, Some cert)
      | None => run_votes lock acc votes
      end
  end.

(** The distinct keys with an eligible vote for a commitment. *)
Definition counted (lock : UpgradeLock) (votes : list (SimpleVote D)) (c : Commitment) : gset PubKey :=
  list_to_set (map signing_key
    (base.filter (fun v => eligible lock t v = true ∧ commitment_of v = c) votes)).

Lemma counted_snoc lock pre v c :
  counted lock (pre ++ [v]) c =
  if eligible lock t v && bool_decide (c = commitment_of v) then {[signing_key v]} ∪ counted lock pre c
  else counted lock pre c.
Proof using Type.
  clear HC Ls Lm signed. unfold counted. rewrite filter_app, map_app, list_to_set_app_L.
  destruct (eligible lock t v) eqn:He, (bool_decide (c = commitment_of v)) eqn:Hb; simpl; bool_facts.
  - rewrite filter_cons_True by done. simpl. set_solver.
  - rewrite filter_cons_False by (intros [? ?]; congruence). set_solver.
  - rewrite filter_cons_False by (intros [? ?]; congruence). set_solver.
  - rewrite filter_cons_False by (intros [? ?]; congruence). set_solver.
Qed.

(** The accumulator after the votes [pre], none of which formed a certificate. *)
Definition pending (lock : UpgradeLock) (pre : list (SimpleVote D)) (acc : VoteAccumulator) : Prop :=
  acc_inv t acc ∧ (∀ c, voters acc c = counted lock pre c) ∧
  (∀ c, stake_of t (counted lock pre c) < thr).

Lemma pending_empty lock : pending lock [] VoteAccumulator_empty.
Proof using HC.
  split; [apply acc_inv_empty|]. assert (∀ c, counted lock [] c = ∅) as Hc by done.
  split; intros c; [done|]. rewrite Hc. pose proof (acc_inv_empty c) as (_ & _ & Hz & _).
  unfold voters, outcome_at in Hz. simpl in Hz. rewrite lookup_empty in Hz. simpl in Hz.
  rewrite dom_empty_L in Hz. rewrite <-Hz. apply (cc_positive _ _ _ _ HC).
Qed.

Lemma pending_step lock pre acc vote :
  pending lock pre acc →
  ∃ acc' r, accumulate TH lock acc vote m e = Ok (acc', r) ∧
    match r with
    | None => pending lock (pre ++ [vote]) acc'
    | Some cert =>
        thr <= stake_of t (counted lock (pre ++ [vote]) (commitment_of vote)) ∧
        data cert = date vote ∧ view_number cert = vote_view vote ∧
        is_valid_cert cert t thr lock = Ok tt
    end.
Proof using HC Lm Ls.
  intros (Hinv & Hv & Hlt). destruct (accumulate_spec lock acc vote Hinv) as
    (acc' & r & Hacc & Hinv' & Hv' & Hr). exists acc', r. split; [done|].
  assert (∀ c, voters acc' c = counted lock (pre ++ [vote]) c) as Hv''.
  { intros c. by rewrite Hv', counted_snoc, Hv. }
  rewrite <-Hv''. destruct r as [cert|]; [naive_solver|].
  split; [done|]. split; [done|]. intros c. rewrite <-Hv''.
  destruct (decide (c = commitment_of vote)) as [->|Hne].
  - destruct Hr as [He|[Hin|Hlt']]; [..|done]; rewrite Hv'.
    + rewrite He. simpl. by rewrite Hv.
    + destruct (eligible lock t vote && _); [|by rewrite Hv].
      replace ({[signing_key vote]} ∪ voters acc (commitment_of vote))
        with (voters acc (commitment_of vote)) by set_solver. by rewrite Hv.
  - rewrite Hv', (bool_decide_eq_false_2 (c = _)), andb_false_r, Hv by done. done.
Qed.

Lemma run_votes_spec lock pre acc votes :
  pending lock pre acc →
  ∃ acc' r, run_votes lock acc votes = Ok (acc', r) ∧
    match r with
    | None => pending lock (pre ++ votes) acc'
    | Some cert => ∃ vs1 vote vs2, votes = vs1 ++ vote :: vs2 ∧
        thr <= stake_of t (counted lock (pre ++ vs1 ++ [vote]) (commitment_of vote)) ∧
        (∀ c, stake_of t (counted lock (pre ++ vs1) c) < thr) ∧
        data cert = date vote ∧ view_number cert = vote_view vote ∧
        is_valid_cert cert t thr lock = Ok tt
    end.
Proof using HC Lm Ls.
  revert pre acc. induction votes as [|vote votes IH]; intros pre acc Hp; simpl.
  - exists acc, None. rewrite app_nil_r. done.
  - destruct (pending_step lock pre acc vote Hp) as (acc1 & r1 & -> & Hr). mon.
    destruct r1 as [cert|].
    + exists acc1, (Some cert). split; [done|]. destruct Hr as (? & ? & ? & ?).
      exists [], vote, votes. rewrite app_nil_r. by destruct Hp as (_ & _ & ?).
    + destruct (IH _ _ Hr) as (acc' & r & -> & Hr'). exists acc', r. split; [done|].
      destruct r as [cert|].
      * destruct Hr' as (vs1 & v & vs2 & -> & Hq). exists (vote :: vs1), v, vs2.
        rewrite <-!app_assoc in Hq. done.
      * by rewrite <-app_assoc in Hr'.
Qed.
End Refinement.

(** ** Properties *)

Section Properties.
Context `{Sg : SignatureScheme} `{Cm : Committable} `{Vt : VidTypes} `{Vs : Versions}.
Context {Lm : CommittableLaws Cm} {signed : PubKey → bytes → Prop} {Ls : SignatureLaws Sg signed}.
Context {D : Type} `{!Voteable D} `{!CertData D} {TH : Threshold}.
Context {M : Type} `{Mb : !Membership M}.

(** One vote: for an accumulator that satisfies its invariant, [accumulate]
    never fails; a vote that is eligible (supported version, valid signature, a
    key of the stake table) adds its key to the voters of its commitment, any
    other vote changes nothing; a certificate is returned exactly when the vote
    is eligible, its key had not voted for the commitment, and the voters'
    stake now reaches the threshold; the certificate is for the vote's data and
    view and passes [is_valid_cert]. *)
Theorem accumulate_correct (m : M) e t thr lock acc (vote : SimpleVote D) :
  cert_committee (TH:=TH) (D:=D) m e t thr → acc_inv t acc →
  let c := commitment_of vote in
  ∃ acc' r, accumulate TH lock acc vote m e = Ok (acc', r) ∧ acc_inv t acc' ∧
    (∀ c', voters acc' c' =
       if eligible lock t vote && bool_decide (c' = c) then {[signing_key vote]} ∪ voters acc c'
       else voters acc c') ∧
    (is_Some r ↔ eligible lock t vote = true ∧ signing_key vote ∉ voters acc c ∧
       thr <= stake_of t (voters acc' c)) ∧
    (∀ cert, r = Some cert → data cert = date vote ∧ view_number cert = vote_view vote ∧
       is_valid_cert cert t thr lock = Ok tt).
Proof using Lm Ls.
  intros HC Hinv c. destruct (accumulate_spec _ _ _ _ HC lock acc vote Hinv)
    as (acc' & r & ? & ? & ? & Hr). exists acc', r. split_and!; [done..| |].
  - destruct r as [cert|]; split; [naive_solver|naive_solver|by intros []|].
    intros (He & Hn & Hle). destruct Hr as [?|[?|?]]; [congruence|done|]. fold c in H2. lia.
  - intros cert ->. naive_solver.
Qed.

(** C8. A certificate is formed as soon as there is a quorum, and only then: of
    a sequence of votes offered to an empty accumulator, the first vote that
    brings the stake of the distinct eligible voters for its commitment to the
    threshold yields a valid certificate for its data and view; when no
    certificate is returned, no commitment has the votes. *)
Theorem certificate_iff_quorum (m : M) e t thr lock (votes : list (SimpleVote D)) :
  cert_committee (TH:=TH) (D:=D) m e t thr →
  ∃ acc r, run_votes m e lock VoteAccumulator_empty votes = Ok (acc, r) ∧
    match r with
    | Some cert => ∃ vs1 vote vs2, votes = vs1 ++ vote :: vs2 ∧
        thr <= stake_of t (counted t lock (vs1 ++ [vote]) (commitment_of vote)) ∧
        (∀ c, stake_of t (counted t lock vs1 c) < thr) ∧
        data cert = date vote ∧ view_number cert = vote_view vote ∧
        is_valid_cert (TH:=TH) cert t thr lock = Ok tt
    | None => ∀ c, stake_of t (counted t lock votes c) < thr
    end.
Proof using Lm Ls.
  intros HC. destruct (run_votes_spec _ _ _ _ HC lock [] _ votes (pending_empty _ _ _ _ HC lock))
    as (acc & r & Hrun & Hr). exists acc, r. split; [done|]. destruct r; [done|apply Hr].
Qed.
End Properties.

(** ** Witnesses *)

Module AccDemo.
#[local] Existing Instance CertDemo.sigs.
#[local] Existing Instance StaticCommittee.

Lemma committee4_cert :
  cert_committee (D:=QuorumData2) (TH:=SuccessThreshold) CertDemo.committee4 None CertDemo.table4 3.
Proof.
  destruct (known_cert_committee (D:=QuorumData2) (TH:=SuccessThreshold) (Lc := static_committee_laws)
    _ _ _ _ (CertDemo.committee4_known None)) as (tc & thr & HC & ->); [done|].
  pose proof (cc_threshold _ _ _ _ HC) as Hthr. vm_compute in Hthr. injection Hthr as <-. done.
Qed.

Definition vote (k : Z) : SimpleVote QuorumData2 :=
  {| signature := (k, [(k, vote_message CertDemo.qdata 5)]); vote_data := CertDemo.qdata; vote_view := 5 |}.
End AccDemo.

Lemma accumulate_correct_witness :
  ∃ acc r, accumulate (Sg := CertDemo.sigs) (Mb := StaticCommittee) SuccessThreshold UpgradeLock_new
    VoteAccumulator_empty (AccDemo.vote 10) CertDemo.committee4 None = Ok (acc, r).
Proof.
  destruct (accumulate_correct (Ls := CertDemo.sigs_laws) _ _ _ _ UpgradeLock_new
    VoteAccumulator_empty (AccDemo.vote 10) AccDemo.committee4_cert (acc_inv_empty _))
    as (acc & r & Ha & _). exists acc, r. exact Ha.
Defined.

Lemma certificate_iff_quorum_witness :
  ∃ acc r, run_votes (Sg := CertDemo.sigs) (Mb := StaticCommittee) (TH := SuccessThreshold)
    CertDemo.committee4 None UpgradeLock_new VoteAccumulator_empty
    (map AccDemo.vote [10; 10; 20; 40]) = Ok (acc, r).
Proof.
  destruct (certificate_iff_quorum (Ls := CertDemo.sigs_laws) _ _ _ _ UpgradeLock_new
    (map AccDemo.vote [10; 10; 20; 40]) AccDemo.committee4_cert) as (acc & r & Hr & _).
  exists acc, r. exact Hr.
Defined.
