(* ===== verification/VoteCollection.v ===== *)
(** * Vote collection tasks

    [task-impls/src/vote_collection.rs]: one collector per view, created by the
    first vote of the view, that feeds an accumulator until it forms a
    certificate.  A handler returns the events it broadcasts with its result;
    it returns early with an error only before it changes any state, so an
    error leaves the collectors as they were. *)

From S2P Require Import Prelude Epochs Crypto Committee Votes Certificates VoteAccumulator.

Section Collection.
Context `{Sg : SignatureScheme} `{Cm : Committable} `{Vt : VidTypes} `{Vs : Versions}.
Context {M : Type} `{Mb : !Membership M}.

(** The events votes arrive with and certificates leave with. *)
Inductive HotShotEvent :=
  | QuorumVoteRecv (v : SimpleVote QuorumData2)
  | DaVoteRecv (v : SimpleVote DaData2)
  | TimeoutVoteRecv (v : SimpleVote TimeoutData2)
  | UpgradeVoteRecv (v : SimpleVote UpgradeProposalData)
  | ViewSyncPreCommitVoteRecv (v : SimpleVote ViewSyncPreCommitData2)
  | ViewSyncCommitVoteRecv (v : SimpleVote ViewSyncCommitData2)
  | ViewSyncFinalizeVoteRecv (v : SimpleVote ViewSyncFinalizeData2)
  | QcFormed (c : QuorumCertificate)
  | Qc2Formed (c : QuorumCertificate2 + TimeoutCertificate2)
  | NextEpochQc2Formed (c : NextEpochQuorumCertificate2)
  | UpgradeCertificateFormed (c : UpgradeCertificate)
  | DacSend (c : DaCertificate2) (key : PubKey)
  | ViewSyncPreCommitCertificateSend (c : ViewSyncPreCommitCertificate2) (key : PubKey)
  | ViewSyncCommitCertificateSend (c : ViewSyncCommitCertificate2) (key : PubKey)
  | ViewSyncFinalizeCertificateSend (c : ViewSyncFinalizeCertificate2) (key : PubKey).

Inductive EpochTransitionIndicator := InTransition | NotInTransition.

(** [AggregatableVote]: who collects the vote, and the event of its certificate. *)
Class AggregatableVote (D : Type) (TH : Threshold) := {
  vote_leader : SimpleVote D → M → option EpochNumber → outcome Error PubKey;
  make_cert_event : SimpleCertificate D TH → PubKey → HotShotEvent;
}.

#[global] Instance agg_quorum : AggregatableVote QuorumData SuccessThreshold := {|
  vote_leader v m e := leader m (wrapper_add (vote_view v) 1) e;
  make_cert_event c _ := QcFormed c |}.
#[global] Instance agg_quorum2 : AggregatableVote QuorumData2 SuccessThreshold := {|
  vote_leader v m e := leader m (wrapper_add (vote_view v) 1) e;
  make_cert_event c _ := Qc2Formed (inl c) |}.
#[global] Instance agg_next_epoch_quorum2 : AggregatableVote NextEpochQuorumData2 SuccessThreshold := {|
  vote_leader v m e := leader m (wrapper_add (vote_view v) 1) e;
  make_cert_event c _ := NextEpochQc2Formed c |}.
#[global] Instance agg_upgrade : AggregatableVote UpgradeProposalData UpgradeThreshold := {|
  vote_leader v m e := leader m (vote_view v) e;
  make_cert_event c _ := UpgradeCertificateFormed c |}.
#[global] Instance agg_da2 : AggregatableVote DaData2 SuccessThreshold := {|
  vote_leader v m e := leader m (vote_view v) e;
  make_cert_event c key := DacSend c key |}.
#[global] Instance agg_timeout2 : AggregatableVote TimeoutData2 SuccessThreshold := {|
  vote_leader v m e := leader m (wrapper_add (vote_view v) 1) e;
  make_cert_event c _ := Qc2Formed (inr c) |}.
#[global] Instance agg_vs_commit2 : AggregatableVote ViewSyncCommitData2 SuccessThreshold := {|
  vote_leader v m e := leader m (wrapper_add (vsc2_round (date v)) (vsc2_relay (date v))) e;
  make_cert_event c key := ViewSyncCommitCertificateSend c key |}.
#[global] Instance agg_vs_pre_commit2 : AggregatableVote ViewSyncPreCommitData2 OneHonestThreshold := {|
  vote_leader v m e := leader m (wrapper_add (vsp2_round (date v)) (vsp2_relay (date v))) e;
  make_cert_event c key := ViewSyncPreCommitCertificateSend c key |}.
#[global] Instance agg_vs_finalize2 : AggregatableVote ViewSyncFinalizeData2 SuccessThreshold := {|
  vote_leader v m e := leader m (wrapper_add (vsf2_round (date v)) (vsf2_relay (date v))) e;
  make_cert_event c key := ViewSyncFinalizeCertificateSend c key |}.

(** [HandleVoteEvent]: the vote an event carries, if it is one for this
    collector, and the epoch whose stake table the vote is counted against,
    from the epoch of the collector. *)
Class HandleVoteEvent (D : Type) := {
  event_vote : HotShotEvent → option (SimpleVote D);
  vote_epoch : option EpochNumber → outcome Error (option EpochNumber);
}.

#[global] Instance handle_quorum2 : HandleVoteEvent QuorumData2 := {|
  event_vote ev := match ev with QuorumVoteRecv v => Some v | _ => None end;
  vote_epoch e := Ok e |}.
#[global] Instance handle_next_epoch_quorum2 : HandleVoteEvent NextEpochQuorumData2 := {|
  event_vote ev := match ev with QuorumVoteRecv v => Some (next_epoch_vote v) | _ => None end;
  vote_epoch e :=
    next_epoch ← ok_or ((fun x => wrapper_add x 1) <$> e)
                   "epoch should not be none in handle_vote_event";
    Ok (Some next_epoch) |}.
#[global] Instance handle_upgrade : HandleVoteEvent UpgradeProposalData := {|
  event_vote ev := match ev with UpgradeVoteRecv v => Some v | _ => None end;
  vote_epoch e := Ok e |}.
#[global] Instance handle_da2 : HandleVoteEvent DaData2 := {|
  event_vote ev := match ev with DaVoteRecv v => Some v | _ => None end;
  vote_epoch e := Ok e |}.
#[global] Instance handle_timeout2 : HandleVoteEvent TimeoutData2 := {|
  event_vote ev := match ev with TimeoutVoteRecv v => Some v | _ => None end;
  vote_epoch e := Ok e |}.
#[global] Instance handle_vs_pre_commit2 : HandleVoteEvent ViewSyncPreCommitData2 := {|
  event_vote ev := match ev with ViewSyncPreCommitVoteRecv v => Some v | _ => None end;
  vote_epoch e := Ok e |}.
#[global] Instance handle_vs_commit2 : HandleVoteEvent ViewSyncCommitData2 := {|
  event_vote ev := match ev with ViewSyncCommitVoteRecv v => Some v | _ => None end;
  vote_epoch e := Ok e |}.
#[global] Instance handle_vs_finalize2 : HandleVoteEvent ViewSyncFinalizeData2 := {|
  event_vote ev := match ev with ViewSyncFinalizeVoteRecv v => Some v | _ => None end;
  vote_epoch e := Ok e |}.

(** ** The collector *)

(** The membership and the upgrade lock are shared with the rest of the node. *)
Record VoteCollectionTaskState := {
  vc_public_key : PubKey;
  vc_accumulator : option VoteAccumulator;
  vc_view : ViewNumber;
  vc_epoch : option EpochNumber;
  vc_id : Z;
  vc_transition_indicator : EpochTransitionIndicator;
}.

Definition set_accumulator (st : VoteCollectionTaskState) (a : option VoteAccumulator)
    : VoteCollectionTaskState :=
  {| vc_public_key := vc_public_key st; vc_accumulator := a; vc_view := vc_view st;
     vc_epoch := vc_epoch st; vc_id := vc_id st;
     vc_transition_indicator := vc_transition_indicator st |}.

Context {D : Type} `{!Voteable D} `{!CertData D} {TH : Threshold}.
Context `{!AggregatableVote D TH} `{!HandleVoteEvent D}.

(** [matches!(.., InTransition) || vote.leader(..)? == self.public_key] *)
Definition collects (st : VoteCollectionTaskState) (vote : SimpleVote D) (membership : M)
    : outcome Error bool :=
  match vc_transition_indicator st with
  | InTransition => Ok true
  | NotInTransition =>
      k ← vote_leader (TH:=TH) vote membership (vc_epoch st); Ok (bool_decide (k = vc_public_key st))
  end.

Definition accumulate_vote (lock : UpgradeLock) (membership : M) (st : VoteCollectionTaskState)
    (vote : SimpleVote D) (sender_epoch : option EpochNumber)
    : outcome Error (VoteCollectionTaskState * list HotShotEvent * option (SimpleCertificate D TH)) :=
  leads ← collects st vote membership;
  _ ← ensure leads "Received vote for a view in which we were not the leader.";
  _ ← ensure (vote_view vote =? vc_view st) "Vote view does not match!";
  accumulator ← ok_or (vc_accumulator st) "No accumulator to handle vote with.";
  '(accumulator, cert) ← accumulate TH lock accumulator vote membership sender_epoch;
  match cert with
  | None => Ok (set_accumulator st (Some accumulator), [], None)
  | Some cert =>
      Ok (set_accumulator st None, [make_cert_event cert (vc_public_key st)], Some cert)
  end.

Definition handle_vote_event (lock : UpgradeLock) (membership : M) (st : VoteCollectionTaskState)
    (event : HotShotEvent)
    : outcome Error (VoteCollectionTaskState * list HotShotEvent * option (SimpleCertificate D TH)) :=
  match event_vote (D:=D) event with
  | Some vote =>
      sender_epoch ← vote_epoch (D:=D) (vc_epoch st);
      accumulate_vote lock membership st vote sender_epoch
  | None => Ok (st, [], None)
  end.

(** [AccumulatorInfo] is the arguments from [public_key] to [id]. *)
Definition create_vote_accumulator (lock : UpgradeLock) (membership : M) (public_key : PubKey)
    (view : ViewNumber) (epoch : option EpochNumber) (id : Z) (event : HotShotEvent)
    (transition_indicator : EpochTransitionIndicator)
    : outcome Error (VoteCollectionTaskState * list HotShotEvent) :=
  let new_accumulator := VoteAccumulator_empty in
  let state := {| vc_public_key := public_key; vc_accumulator := Some new_accumulator;
                  vc_view := view; vc_epoch := epoch; vc_id := id;
                  vc_transition_indicator := transition_indicator |} in
  '(state, events, _) ← handle_vote_event lock membership state event;
  Ok (state, events).

(** [VoteCollectorsMap] *)
Abbreviation VoteCollectorsMap := (gmap ViewNumber VoteCollectionTaskState).

Definition handle_vote (lock : UpgradeLock) (membership : M) (collectors : VoteCollectorsMap)
    (vote : SimpleVote D) (public_key : PubKey) (epoch : option EpochNumber) (id : Z)
    (event : HotShotEvent) (transition_indicator : EpochTransitionIndicator)
    : outcome Error (VoteCollectorsMap * list HotShotEvent) :=
  match collectors !! vote_view vote with
  | None =>
      '(collector, events) ←
        create_vote_accumulator lock membership public_key (vote_view vote) epoch id event
          transition_indicator;
      Ok (<[vote_view vote := collector]> collectors, events)
  | Some collector =>
      '(collector, events, cert) ← handle_vote_event lock membership collector event;
      match cert with
      | Some _ =>
          let collectors := delete (vote_view vote) (<[vote_view vote := collector]> collectors) in
          Ok (split_off collectors (vote_view vote), events)
      | None => Ok (<[vote_view vote := collector]> collectors, events)
      end
  end.
End Collection.

(** ** Properties *)

Section Properties.
Context `{Sg : SignatureScheme} `{Cm : Committable} `{Vt : VidTypes} `{Vs : Versions}.
Context {Lm : CommittableLaws Cm} {signed : PubKey → bytes → Prop} {Ls : SignatureLaws Sg signed}.
Context {M : Type} `{Mb : !Membership M}.
Context {D : Type} `{!Voteable D} `{!CertData D} {TH : Threshold}.
Context `{Ag : !AggregatableVote (M:=M) D TH} `{Hv : !HandleVoteEvent D}.
Context (m : M) (e : option EpochNumber) (t : list StakeTableEntry) (thr : Z).

(** The collector of a view: it is in epoch [e] and its accumulator, while it
    has one, satisfies its invariant. *)
Definition collector_inv (view : ViewNumber) (st : VoteCollectionTaskState) : Prop :=
  vc_view st = view ∧ vc_epoch st = e ∧
  ∀ acc, vc_accumulator st = Some acc → acc_inv t acc.

(** At most one event, and then it is the event of a valid certificate. *)
Definition events_ok (lock : UpgradeLock) (key : PubKey) (view : ViewNumber)
    (events : list HotShotEvent) (cert : option (SimpleCertificate D TH)) : Prop :=
  match cert with
  | None => events = []
  | Some c => events = [make_cert_event c key] ∧ view_number c = view ∧
              is_valid_cert c t thr lock = Ok tt
  end.

Section Step.
Context (se : option EpochNumber) (Hse : vote_epoch (D:=D) e = Ok se)
  (HC : cert_committee (D:=D) (TH:=TH) m se t thr).

Lemma handle_vote_event_spec lock view st event vote :
  event_vote event = Some vote → collector_inv view st →
  match handle_vote_event (TH:=TH) (D:=D) lock m st event with
  | Ok (st', events, cert) =>
      vote_view vote = view ∧ collector_inv view st' ∧ vc_public_key st' = vc_public_key st ∧
      events_ok lock (vc_public_key st) view events cert ∧
      (is_Some cert → vc_accumulator st' = None)
  | Err _ => True
  | Panic => vote_leader (TH:=TH) vote m e = Panic
  end.
Proof using Hse HC Lm Ls.
  intros Hev (Hview & Hep & Hacc). unfold handle_vote_event. rewrite Hev, Hep, Hse. mon.
  unfold accumulate_vote, collects. rewrite Hep.
  destruct (vc_transition_indicator st).
  2: destruct (vote_leader vote m e) as [k| |]; mon; [destruct (bool_decide _); [|done]|done..].
  all: mon; simpl; mon; rewrite Hview; destruct (Z.eqb_spec (vote_view vote) view) as [Hvv|]; [|done];
    simpl; mon; destruct (vc_accumulator st) as [acc|]; [|done]; simpl; mon;
    destruct (accumulate_spec _ _ _ _ HC lock acc vote (Hacc _ eq_refl)) as
      (acc' & r & -> & Hinv & _ & Hr); mon;
    destruct r as [c|]; [destruct Hr as (_ & _ & _ & _ & ? & ?)|]; split_and!; try done; simpl;
    [by split_and!; congruence|split_and!; [done|done|by intros ? [= <-]]].
Qed.

End Step.

(** C20. Collectors emit only valid certificates and forget finished views: for votes counted
    against one committee, [handle_vote] keeps every collector in its invariant; it broadcasts
    nothing, or the event of one certificate for the vote's view that passes
    [is_valid_cert]; when a collector that was already there forms the certificate, no
    collector of this or an earlier view remains (one that the vote itself has created stays,
    and removes none); and the only panic is that of the leader lookup. *)
Theorem handle_vote_correct se lock collectors vote key id event ti :
  vote_epoch (D:=D) e = Ok se → cert_committee (D:=D) (TH:=TH) m se t thr →
  event_vote event = Some vote → map_Forall collector_inv collectors →
  match handle_vote (TH:=TH) lock m collectors vote key e id event ti with
  | Ok (collectors', events) =>
      map_Forall collector_inv collectors' ∧
      ∃ cert k, events_ok lock k (vote_view vote) events cert ∧
        (is_Some cert → is_Some (collectors !! vote_view vote) →
           ∀ v, is_Some (collectors' !! v) → vote_view vote < v)
  | Err _ => True
  | Panic => vote_leader (TH:=TH) vote m e = Panic
  end.
Proof using Lm Ls.
  intros Hse HC Hev Hinv. unfold handle_vote.
  destruct (collectors !! vote_view vote) as [st|] eqn:Hst.
  - pose proof (handle_vote_event_spec se Hse HC lock (vote_view vote) st event vote Hev
      (Hinv _ _ Hst)) as Hspec.
    destruct (handle_vote_event lock m st event) as [[[st' events] cert]| |]; mon; [|done..].
    destruct Hspec as (_ & Hc & _ & Hok & _). destruct cert as [c|].
    + rewrite delete_insert_eq. split.
      * intros v x [Hx _]%split_off_Some. apply lookup_delete_Some in Hx. naive_solver.
      * exists (Some c), (vc_public_key st). split; [done|]. intros _ _ v [x [Hx Hle]%split_off_Some].
        apply lookup_delete_Some in Hx as [? ?]. lia.
    + split; [by apply map_Forall_insert_2|]. exists None, (vc_public_key st). split; [done|]. by intros [? ?].
  - unfold create_vote_accumulator. set (st := {| vc_public_key := key |}).
    assert (collector_inv (vote_view vote) st) as Hst0
      by (split_and!; [done|done|intros acc [= <-]; apply acc_inv_empty]).
    pose proof (handle_vote_event_spec se Hse HC lock (vote_view vote) st event vote Hev Hst0) as Hspec.
    destruct (handle_vote_event lock m st event) as [[[st' events] cert]| |]; mon; [|done..].
    destruct Hspec as (_ & Hc & _ & Hok & _). split; [by apply map_Forall_insert_2|].
    exists cert, key. split; [done|]. by intros _ [? ?].
Qed.
End Properties.

(** ** Witness *)

Module CollDemo.
#[local] Existing Instance CertDemo.sigs.
#[local] Existing Instance StaticCommittee.

Definition inv : ViewNumber → VoteCollectionTaskState → Prop := collector_inv None CertDemo.table4.
Definition empty_collectors : gmap ViewNumber VoteCollectionTaskState := ∅.

(** The first vote of view 5 reaches the leader of view 6. *)
Definition first_vote :=
  handle_vote (D := QuorumData2) (TH := SuccessThreshold) UpgradeLock_new CertDemo.committee4
    empty_collectors (AccDemo.vote 10) 30 None 0 (QuorumVoteRecv (AccDemo.vote 10)) NotInTransition.
End CollDemo.

Lemma handle_vote_correct_witness :
  match CollDemo.first_vote with
  | Ok (cs, _) => map_Forall CollDemo.inv cs
  | _ => False
  end.
Proof.
  pose proof (handle_vote_correct (Ls := CertDemo.sigs_laws) (Mb := StaticCommittee)
    (Ag := agg_quorum2 (Mb := StaticCommittee)) (Hv := handle_quorum2) CertDemo.committee4 None CertDemo.table4 3 None UpgradeLock_new CollDemo.empty_collectors
    (AccDemo.vote 10) 30 0 (QuorumVoteRecv (AccDemo.vote 10)) NotInTransition
    eq_refl AccDemo.committee4_cert eq_refl (map_Forall_empty _)) as H.
  fold CollDemo.first_vote in H.
  assert (is_ok CollDemo.first_vote = true) as Hok by (vm_compute; reflexivity).
  destruct CollDemo.first_vote as [[cs ev]| |]; [exact (proj1 H)|discriminate Hok|discriminate Hok].
Defined.
