(* ===== verification/Data.v ===== *)
(** * Leaves and proposals

    [Leaf], [Leaf2], the quorum proposals and the view change evidence of
    [types/src/data.rs], their conversions and commitments, and the signed
    [Proposal] of [types/src/message.rs].

    The block header, the payload and the application state are type
    parameters of the node ([NodeType]); the class [BlockTypes] has the methods
    of these traits that the protocol calls. *)

From S2P Require Import Prelude Epochs Crypto Committee Votes Certificates.

(** The application's types, the VID scheme ([advz_scheme(n).commit_only], [None]
    for an error) and the [bincode] serialization of an assembled signature. *)
Class BlockTypes `{Sg : SignatureScheme} `{Cm : Committable} `{Vt : VidTypes} := {
  BlockHeader : Type;
  BlockPayload : Type;
  Metadata : Type;
  BuilderCommitment : Type;
  ValidatedState : Type;
  Delta : Type;
  InstanceState : Type;
  #[global] BlockHeader_eq_dec :: EqDecision BlockHeader;
  #[global] BlockPayload_eq_dec :: EqDecision BlockPayload;
  block_number : BlockHeader → Z;
  header_payload_commitment : BlockHeader → VidCommitment;
  header_commit : BlockHeader → Commitment;
  header_metadata : BlockHeader → Metadata;
  header_genesis : InstanceState → VidCommitment → BuilderCommitment → Metadata → BlockHeader;
  payload_encode : BlockPayload → bytes;
  transaction_commitments : BlockPayload → Metadata → list Commitment;
  (** [ValidatedState::from_header] *)
  from_header : BlockHeader → ValidatedState;
  payload_empty : ValidatedState → InstanceState → option (BlockPayload * Metadata);
  builder_commitment : BlockPayload → Metadata → BuilderCommitment;
  vid_commit_only : Z → bytes → option VidCommitment;
  bincode_bits : list bool → bytes;
  bincode_sig : Sig → bytes;
}.

Abbreviation DrbResult := bytes (only parsing).

Section Data.
Context `{Sg : SignatureScheme} `{Cm : Committable} `{Vt : VidTypes} `{Vs : Versions}.
Context `{Bt : !BlockTypes}.

(** [vid_commitment]: panics when the VID computation fails; the version is
    unused. *)
Definition vid_commitment {E} (encoded_transactions : bytes) (num_storage_nodes : Z)
    (_version : Version) : outcome E VidCommitment :=
  unwrap (vid_commit_only num_storage_nodes encoded_transactions).

Definition GENESIS_VID_NUM_STORAGE_NODES : Z := 1.

(** ** Commitments of certificates *)

Definition str_bytes (s : string) : bytes :=
  map (fun a => Z.of_N (Ascii.N_of_ascii a)) (String.list_ascii_of_string s).

Definition serialize_signature2 (qc : QcType) : bytes :=
  let '(sig, proof) := qc in
  str_bytes "Yes" ++ str_bytes "bitvec proof" ++ bincode_bits proof ++
  str_bytes "aggregated signature" ++ bincode_sig sig.

Definition view_commit (v : ViewNumber) : Commitment :=
  finalize "View Number Commitment" [CbU64 v].

Definition cert_commit {D TH} `{!Voteable D} (c : SimpleCertificate D TH) : Commitment :=
  let signature_bytes :=
    match signatures c with Some sigs => serialize_signature2 sigs | None => [] end in
  finalize "Certificate"
    [CbField "data" (commit (data c)); CbField "vote_commitment" (vote_commitment c);
     CbField "view number" (view_commit (view_number c));
     CbVarSizeField "signatures" signature_bytes].

(** ** View change evidence *)

Inductive ViewChangeEvidence :=
  | Timeout (c : TimeoutCertificate)
  | ViewSync (c : ViewSyncFinalizeCertificate).

Inductive ViewChangeEvidence2 :=
  | Timeout2 (c : TimeoutCertificate2)
  | ViewSync2 (c : ViewSyncFinalizeCertificate2).

#[global] Instance ViewChangeEvidence2_eq_dec : EqDecision ViewChangeEvidence2.
Proof. solve_decision. Defined.

Definition is_valid_for_view (e : ViewChangeEvidence) (view : ViewNumber) : bool :=
  match e with
  | Timeout c => t_view (data c) =? wrapper_sub view 1
  | ViewSync c => view_number c =? view
  end.

Definition is_valid_for_view2 (e : ViewChangeEvidence2) (view : ViewNumber) : bool :=
  match e with
  | Timeout2 c => t2_view (data c) =? wrapper_sub view 1
  | ViewSync2 c => view_number c =? view
  end.

Definition to_evidence2 (e : ViewChangeEvidence) : ViewChangeEvidence2 :=
  match e with
  | Timeout c => Timeout2 (to_tc2 c)
  | ViewSync c => ViewSync2 (finalize_to_vsc2 c)
  end.

Definition to_evidence (e : ViewChangeEvidence2) : ViewChangeEvidence :=
  match e with
  | Timeout2 c => Timeout (to_tc c)
  | ViewSync2 c => ViewSync (finalize_to_vsc c)
  end.

(** ** Proposals *)

Record QuorumProposal := {
  qp_block_header : BlockHeader;
  qp_view_number : ViewNumber;
  qp_justify_qc : QuorumCertificate;
  qp_upgrade_certificate : option UpgradeCertificate;
  qp_proposal_certificate : option ViewChangeEvidence;
}.

(** [QuorumProposalWrapper] has this record as its only field. *)
Record QuorumProposal2 := {
  p_block_header : BlockHeader;
  p_view_number : ViewNumber;
  p_epoch : option EpochNumber;
  p_justify_qc : QuorumCertificate2;
  p_next_epoch_justify_qc : option NextEpochQuorumCertificate2;
  p_upgrade_certificate : option UpgradeCertificate;
  p_view_change_evidence : option ViewChangeEvidence2;
  p_next_drb_result : option DrbResult;
}.

#[global] Instance QuorumProposal2_eq_dec : EqDecision QuorumProposal2.
Proof. solve_decision. Defined.

Definition quorum_proposal2 (p : QuorumProposal) : QuorumProposal2 :=
  {| p_block_header := qp_block_header p;
     p_view_number := qp_view_number p;
     p_epoch := None;
     p_justify_qc := to_qc2 (qp_justify_qc p);
     p_next_epoch_justify_qc := None;
     p_upgrade_certificate := qp_upgrade_certificate p;
     p_view_change_evidence := to_evidence2 <$> qp_proposal_certificate p;
     p_next_drb_result := None |}.

Definition quorum_proposal (p : QuorumProposal2) : QuorumProposal :=
  {| qp_block_header := p_block_header p;
     qp_view_number := p_view_number p;
     qp_justify_qc := to_qc (p_justify_qc p);
     qp_upgrade_certificate := p_upgrade_certificate p;
     qp_proposal_certificate := to_evidence <$> p_view_change_evidence p |}.

(** [QuorumProposal2::validate_epoch] *)
Definition validate_epoch (p : QuorumProposal2) (lock : UpgradeLock) (epoch_height : Z)
    : outcome Error unit :=
  let calculated_epoch :=
    option_epoch_from_block_number (epochs_enabled lock (p_view_number p))
      (block_number (p_block_header p)) epoch_height in
  ensure (bool_decide (calculated_epoch = p_epoch p)) "Quorum proposal invalid: inconsistent epoch.".

(** ** Leaves *)

Record Leaf := {
  l_view_number : ViewNumber;
  l_justify_qc : QuorumCertificate;
  l_parent_commitment : Commitment;
  l_block_header : BlockHeader;
  l_upgrade_certificate : option UpgradeCertificate;
  l_block_payload : option BlockPayload;
}.

Record Leaf2 := {
  leaf_view : ViewNumber;
  justify_qc : QuorumCertificate2;
  next_epoch_justify_qc : option NextEpochQuorumCertificate2;
  parent_commitment : Commitment;
  block_header : BlockHeader;
  upgrade_certificate : option UpgradeCertificate;
  block_payload : option BlockPayload;
  view_change_evidence : option ViewChangeEvidence2;
  next_drb_result : option DrbResult;
  with_epoch : bool;
}.

(** [Leaf2::eq] compares every field but the payload. *)
Definition leaf_eq (a b : Leaf2) : bool :=
  (leaf_view a =? leaf_view b) && bool_decide (justify_qc a = justify_qc b) &&
  bool_decide (next_epoch_justify_qc a = next_epoch_justify_qc b) &&
  bool_decide (parent_commitment a = parent_commitment b) &&
  bool_decide (block_header a = block_header b) &&
  bool_decide (upgrade_certificate a = upgrade_certificate b) &&
  bool_decide (view_change_evidence a = view_change_evidence b) &&
  bool_decide (next_drb_result a = next_drb_result b) && eqb (with_epoch a) (with_epoch b).

Definition height (l : Leaf2) : Z := block_number (block_header l).
Definition leaf_epoch (l : Leaf2) (epoch_height : Z) : option EpochNumber :=
  option_epoch_from_block_number (with_epoch l) (block_number (block_header l)) epoch_height.
Definition payload_commitment (l : Leaf2) : VidCommitment := header_payload_commitment (block_header l).

Definition set_block_payload (l : Leaf2) (p : option BlockPayload) : Leaf2 :=
  {| leaf_view := leaf_view l; justify_qc := justify_qc l;
     next_epoch_justify_qc := next_epoch_justify_qc l; parent_commitment := parent_commitment l;
     block_header := block_header l; upgrade_certificate := upgrade_certificate l;
     block_payload := p; view_change_evidence := view_change_evidence l;
     next_drb_result := next_drb_result l; with_epoch := with_epoch l |}.

Inductive BlockError := InconsistentPayloadCommitment.

Definition fill_block_payload (l : Leaf2) (p : BlockPayload) (num_storage_nodes : Z)
    (version : Version) : outcome BlockError Leaf2 :=
  let encoded_txns := payload_encode p in
  commitment ← vid_commitment encoded_txns num_storage_nodes version;
  if negb (bool_decide (commitment = header_payload_commitment (block_header l))) then
    Err InconsistentPayloadCommitment
  else Ok (set_block_payload l (Some p)).

Definition fill_block_payload_unchecked (l : Leaf2) (p : BlockPayload) : Leaf2 :=
  set_block_payload l (Some p).

(** [self.block_payload.take()] *)
Definition unfill_block_payload (l : Leaf2) : Leaf2 * option BlockPayload :=
  (set_block_payload l None, block_payload l).

(** [Leaf2::extends_upgrade] *)
Definition extends_upgrade (l parent : Leaf2) (decided : option UpgradeCertificate)
    : outcome Error unit :=
  match upgrade_certificate l, upgrade_certificate parent with
  | _, None => Ok tt
  | None, Some parent_cert =>
      ensure ((new_version_first_view (data parent_cert) <? leaf_view l) ||
              ((decide_by (data parent_cert) <? leaf_view l) && bool_decide (decided = None)))
        "The new leaf is missing an upgrade certificate that was present in its parent, and should still be live."
  | Some cert, Some parent_cert =>
      ensure (bool_decide (cert = parent_cert))
        "The new leaf does not extend the parent leaf, because it has attached a different upgrade certificate."
  end.

Definition to_leaf_unsafe (l : Leaf2) : Leaf :=
  {| l_view_number := leaf_view l; l_justify_qc := to_qc (justify_qc l);
     l_parent_commitment := parent_commitment l; l_block_header := block_header l;
     l_upgrade_certificate := upgrade_certificate l; l_block_payload := block_payload l |}.

(** [impl From<Leaf> for Leaf2] *)
Definition leaf2_from_leaf (l : Leaf) : Leaf2 :=
  {| leaf_view := l_view_number l; justify_qc := to_qc2 (l_justify_qc l);
     next_epoch_justify_qc := None; parent_commitment := l_parent_commitment l;
     block_header := l_block_header l; upgrade_certificate := l_upgrade_certificate l;
     block_payload := l_block_payload l; view_change_evidence := None;
     next_drb_result := None; with_epoch := false |}.

Definition leaf2_items (l : Leaf2) : list (cb_item Commitment) :=
  [CbU64Field "view number" (leaf_view l);
   CbField "parent leaf commitment" (parent_commitment l);
   CbField "block header" (header_commit (block_header l));
   CbField "justify qc" (cert_commit (justify_qc l));
   CbOptional "upgrade certificate" (cert_commit <$> upgrade_certificate l)] ++
  (if with_epoch l then
     [CbConstantStr "with_epoch";
      CbOptional "next_epoch_justify_qc" (cert_commit <$> next_epoch_justify_qc l)] ++
     match next_drb_result l with
     | Some d => [CbConstantStr "next_drb_result"; CbFixedSizeBytes d]
     | None => []
     end
   else []).

(** [impl Committable for Leaf2] *)
Definition leaf2_commit (l : Leaf2) : Commitment := finalize "leaf commitment" (leaf2_items l).

(** [impl Committable for Leaf] *)
Definition leaf1_commit (l : Leaf) : Commitment :=
  finalize "leaf commitment"
    [CbU64Field "view number" (l_view_number l);
     CbField "parent leaf commitment" (l_parent_commitment l);
     CbField "block header" (header_commit (l_block_header l));
     CbField "justify qc" (cert_commit (l_justify_qc l));
     CbOptional "upgrade certificate" (cert_commit <$> l_upgrade_certificate l)].

Definition leaf2_from_quorum_proposal (p : QuorumProposal2) : Leaf2 :=
  {| leaf_view := p_view_number p; justify_qc := p_justify_qc p;
     next_epoch_justify_qc := p_next_epoch_justify_qc p;
     parent_commitment := leaf_commit (data (p_justify_qc p));
     block_header := p_block_header p; upgrade_certificate := p_upgrade_certificate p;
     block_payload := None; view_change_evidence := p_view_change_evidence p;
     next_drb_result := p_next_drb_result p; with_epoch := bool_decide (is_Some (p_epoch p)) |}.

Definition leaf1_from_quorum_proposal (p : QuorumProposal) : Leaf :=
  {| l_view_number := qp_view_number p; l_justify_qc := qp_justify_qc p;
     l_parent_commitment := q_leaf_commit (data (qp_justify_qc p));
     l_block_header := qp_block_header p; l_upgrade_certificate := qp_upgrade_certificate p;
     l_block_payload := None |}.

(** [Leaf2::genesis] *)
Definition leaf2_genesis {E} (validated_state : ValidatedState) (instance_state : InstanceState)
    : outcome E Leaf2 :=
  let epoch := genesis_epoch_from_version in
  '(payload, metadata) ← unwrap (payload_empty validated_state instance_state);
  let builder_commitment := builder_commitment payload metadata in
  let payload_bytes := payload_encode payload in
  let genesis_version := version_infallible UpgradeLock_new genesis_view in
  payload_commitment ← vid_commitment payload_bytes GENESIS_VID_NUM_STORAGE_NODES genesis_version;
  let block_header := header_genesis instance_state payload_commitment builder_commitment metadata in
  let null_quorum_data :=
    {| leaf_commit := default_commitment_no_preimage; q2_epoch := epoch |} in
  Ok {| leaf_view := genesis_view;
        justify_qc := {| data := null_quorum_data; vote_commitment := commit null_quorum_data;
                         view_number := genesis_view; signatures := None |};
        next_epoch_justify_qc := None;
        parent_commitment := leaf_commit null_quorum_data;
        block_header := block_header;
        upgrade_certificate := None;
        block_payload := Some payload;
        view_change_evidence := None;
        next_drb_result := None;
        with_epoch := bool_decide (is_Some epoch) |}.

(** [QuorumCertificate2::genesis] *)
Definition qc2_genesis {E} (validated_state : ValidatedState) (instance_state : InstanceState)
    : outcome E QuorumCertificate2 :=
  genesis_leaf ← leaf2_genesis validated_state instance_state;
  let data := {| leaf_commit := leaf2_commit genesis_leaf; q2_epoch := genesis_epoch_from_version |} in
  let versioned_data := VersionedVoteData_new_infallible data genesis_view UpgradeLock_new in
  Ok {| data := data; vote_commitment := vvd_commit versioned_data;
        view_number := genesis_view; signatures := None |}.

(** ** Leaves of the first generation *)

Definition leaf1_set_block_payload (l : Leaf) (p : option BlockPayload) : Leaf :=
  {| l_view_number := l_view_number l; l_justify_qc := l_justify_qc l; l_parent_commitment := l_parent_commitment l;
     l_block_header := l_block_header l; l_upgrade_certificate := l_upgrade_certificate l; l_block_payload := p |}.

Definition leaf1_height (l : Leaf) : Z := block_number (l_block_header l).
Definition leaf1_payload_commitment (l : Leaf) : VidCommitment := header_payload_commitment (l_block_header l).

Definition leaf1_fill_block_payload (l : Leaf) (p : BlockPayload) (num_storage_nodes : Z) (version : Version)
    : outcome BlockError Leaf :=
  let encoded_txns := payload_encode p in
  commitment ← vid_commitment encoded_txns num_storage_nodes version;
  if negb (bool_decide (commitment = header_payload_commitment (l_block_header l))) then
    Err InconsistentPayloadCommitment
  else Ok (leaf1_set_block_payload l (Some p)).

Definition leaf1_fill_block_payload_unchecked (l : Leaf) (p : BlockPayload) : Leaf := leaf1_set_block_payload l (Some p).
Definition leaf1_unfill_block_payload (l : Leaf) : Leaf * option BlockPayload :=
  (leaf1_set_block_payload l None, l_block_payload l).

(** [Leaf::extends_upgrade] *)
Definition leaf1_extends_upgrade (l parent : Leaf) (decided : option UpgradeCertificate) : outcome Error unit :=
  match l_upgrade_certificate l, l_upgrade_certificate parent with
  | _, None => Ok tt
  | None, Some parent_cert =>
      ensure ((new_version_first_view (data parent_cert) <? l_view_number l) ||
              ((decide_by (data parent_cert) <? l_view_number l) && bool_decide (decided = None)))
        "The new leaf is missing an upgrade certificate that was present in its parent, and should still be live."
  | Some cert, Some parent_cert =>
      ensure (bool_decide (cert = parent_cert))
        "The new leaf does not extend the parent leaf, because it has attached a different upgrade certificate."
  end.

(** [Leaf::genesis] *)
Definition leaf1_genesis {E} (validated_state : ValidatedState) (instance_state : InstanceState) : outcome E Leaf :=
  '(payload, metadata) ← unwrap (payload_empty validated_state instance_state);
  let builder_commitment := builder_commitment payload metadata in
  let payload_bytes := payload_encode payload in
  let genesis_version := version_infallible UpgradeLock_new genesis_view in
  payload_commitment ← vid_commitment payload_bytes GENESIS_VID_NUM_STORAGE_NODES genesis_version;
  let block_header := header_genesis instance_state payload_commitment builder_commitment metadata in
  let null_quorum_data := {| q_leaf_commit := default_commitment_no_preimage |} in
  Ok {| l_view_number := genesis_view;
        l_justify_qc := {| data := null_quorum_data; vote_commitment := commit null_quorum_data;
                           view_number := genesis_view; signatures := None |};
        l_parent_commitment := q_leaf_commit null_quorum_data;
        l_block_header := block_header;
        l_upgrade_certificate := None;
        l_block_payload := Some payload |}.

(** [QuorumCertificate::genesis] *)
Definition qc1_genesis {E} (validated_state : ValidatedState) (instance_state : InstanceState)
    : outcome E QuorumCertificate :=
  genesis_leaf ← leaf1_genesis validated_state instance_state;
  let data := {| q_leaf_commit := leaf1_commit genesis_leaf |} in
  let versioned_data := VersionedVoteData_new_infallible data genesis_view UpgradeLock_new in
  Ok {| data := data; vote_commitment := vvd_commit versioned_data;
        view_number := genesis_view; signatures := None |}.

(** ** Signed proposals *)

Record Proposal (P : Type) := { proposal_data : P; proposal_signature : Sig }.

(** [Proposal<_, QuorumProposalWrapper>::validate_signature] *)
Definition validate_signature {M : Type} `{!Membership M} (p : Proposal QuorumProposal2)
    (membership : M) (epoch_height : Z) : outcome Error unit :=
  let view_number := p_view_number (proposal_data _ p) in
  let proposal_epoch :=
    option_epoch_from_block_number (bool_decide (is_Some (p_epoch (proposal_data _ p))))
      (block_number (p_block_header (proposal_data _ p))) epoch_height in
  view_leader_key ← leader membership view_number proposal_epoch;
  let proposed_leaf := leaf2_from_quorum_proposal (proposal_data _ p) in
  ensure (validate view_leader_key (proposal_signature _ p) (as_ref (leaf2_commit proposed_leaf)))
    "Proposal signature is invalid.".
End Data.
Arguments proposal_data {_ P} p.
Arguments proposal_signature {_ P} p.

(** ** Lemmas *)

Section Lemmas.
Context `{Sg : SignatureScheme} `{Cm : Committable} `{Vt : VidTypes} `{Vs : Versions}.
Context `{Bt : !BlockTypes} {Lm : CommittableLaws Cm}.

(** The shape of a DRB result is its length, 32 bytes in every leaf. *)
Definition leaf_wf (l : Leaf2) : Prop :=
  match next_drb_result l with Some d => length d = 32%nat | None => True end.

Lemma leaf2_items_comparable l1 l2 :
  leaf_wf l1 → leaf_wf l2 → comparable (leaf2_items l1) (leaf2_items l2).
Proof using Type.
  unfold leaf_wf, leaf2_items, comparable. intros H1 H2.
  destruct (with_epoch l1), (with_epoch l2), (next_drb_result l1) as [d1|], (next_drb_result l2) as [d2|];
    simpl; rewrite ?H1, ?H2;
    first [left; by eexists []|left; by eexists [_; _]|left; by eexists [_; _; _; _]
          |right; by eexists [_; _]|right; by eexists [_; _; _; _]].
Qed.

(** What a leaf commitment binds. *)
Lemma leaf2_commit_inv l1 l2 :
  leaf_wf l1 → leaf_wf l2 → leaf2_commit l1 = leaf2_commit l2 →
  leaf_view l1 = leaf_view l2 ∧ parent_commitment l1 = parent_commitment l2 ∧
  header_commit (block_header l1) = header_commit (block_header l2) ∧
  cert_commit (justify_qc l1) = cert_commit (justify_qc l2) ∧
  cert_commit <$> upgrade_certificate l1 = cert_commit <$> upgrade_certificate l2 ∧
  with_epoch l1 = with_epoch l2 ∧
  (with_epoch l1 = true →
    cert_commit <$> next_epoch_justify_qc l1 = cert_commit <$> next_epoch_justify_qc l2 ∧
    next_drb_result l1 = next_drb_result l2).
Proof using Lm.
  intros H1 H2 Hc%finalize_inj; [|by apply leaf2_items_comparable].
  unfold leaf2_items in Hc. simpl in Hc.
  injection Hc as Hv Hp Hh Hj Hu Hrest. split_and!; try done.
  - destruct (with_epoch l1), (with_epoch l2); try done.
  - intros Hw. rewrite Hw in Hrest. destruct (with_epoch l2); [|done].
    injection Hrest as Hn Hd. split; [done|].
    destruct (next_drb_result l1), (next_drb_result l2); naive_solver.
Qed.

Lemma cert_commit_inv {D TH} `{!Voteable D} (c1 c2 : SimpleCertificate D TH) :
  cert_commit c1 = cert_commit c2 →
  commit (data c1) = commit (data c2) ∧ vote_commitment c1 = vote_commitment c2 ∧
  view_number c1 = view_number c2.
Proof using Lm.
  intros Hc%finalize_inj; [|left; by exists []]. injection Hc as Hd Hv Hn _. split_and!; [done|done|].
  apply finalize_inj in Hn; [by injection Hn|left; by exists []].
Qed.

(** A conversion that keeps the commitment of the data keeps that of the
    certificate. *)
Lemma map_cert_commit {D D' TH} `{!Voteable D} `{!Voteable D'} (f : D → D')
    (c : SimpleCertificate D TH) :
  commit (f (data c)) = commit (data c) → cert_commit (map_cert f c) = cert_commit c.
Proof using Type. intros Hf. unfold cert_commit. simpl. by rewrite Hf. Qed.

Lemma evidence_roundtrip e : to_evidence (to_evidence2 e) = e.
Proof using Type. destruct e as [[[] ? ? ?]|[[] ? ? ?]]; done. Qed.

Lemma extends_upgrade_inv l parent decided c :
  extends_upgrade l parent decided = Ok tt → upgrade_certificate parent = Some c →
  upgrade_certificate l = Some c ∨
  (upgrade_certificate l = None ∧
   (new_version_first_view (data c) < leaf_view l ∨ (decide_by (data c) < leaf_view l ∧ decided = None))).
Proof using Type.
  unfold extends_upgrade. intros He Hp. rewrite Hp in He.
  destruct (upgrade_certificate l); apply ensure_ok_inv in He; bool_facts; [left; congruence|].
  right. split; [done|]. destruct He; bool_facts; eauto.
Qed.
End Lemmas.

(** ** Properties *)

Section DataProperties.
Context `{Sg : SignatureScheme} `{Cm : Committable} `{Vt : VidTypes} `{Vs : Versions}.
Context `{Bt : !BlockTypes} {Lm : CommittableLaws Cm}.

(** A leaf commitment is binding: two leaves with the same commitment have
    the same view, parent, header commitment, justifying certificate, upgrade
    certificate and epoch flag, and with epochs the same next-epoch certificate
    and DRB result.  A commitment does not cover the payload or the view change
    evidence. *)
Theorem leaf_commitment_binding (l1 l2 : Leaf2) :
  leaf_wf l1 → leaf_wf l2 → leaf2_commit l1 = leaf2_commit l2 →
  (leaf_view l1 = leaf_view l2 ∧ parent_commitment l1 = parent_commitment l2 ∧
   header_commit (block_header l1) = header_commit (block_header l2) ∧
   view_number (justify_qc l1) = view_number (justify_qc l2) ∧
   data (justify_qc l1) = data (justify_qc l2) ∧ with_epoch l1 = with_epoch l2 ∧
   (with_epoch l1 = true → next_drb_result l1 = next_drb_result l2)) ∧
  ∀ p, leaf2_commit (set_block_payload l1 p) = leaf2_commit l1.
Proof using Lm.
  intros H1 H2 Hc. destruct (leaf2_commit_inv _ _ H1 H2 Hc) as (? & ? & ? & Hj & ? & ? & ?).
  apply cert_commit_inv in Hj as (Hd%quorum_data2_commit_inj & _ & ?). split; [|done].
  split_and!; try done. naive_solver.
Qed.

Lemma leaf2_from_leaf_commit (l : Leaf) : leaf2_commit (leaf2_from_leaf l) = leaf1_commit l.
Proof using Type. unfold leaf2_commit, leaf1_commit, leaf2_items. simpl. unfold to_qc2. by rewrite map_cert_commit. Qed.

(** The two generations agree on commitments: the leaf of a first-generation
    proposal and the second-generation leaf of the converted proposal have the
    same commitment, as have a leaf and its conversion, so votes and
    certificates for one are for the other; and converting a proposal there and
    back is the identity. *)
Theorem generations_agree (p : QuorumProposal) (l : Leaf) :
  leaf2_commit (leaf2_from_quorum_proposal (quorum_proposal2 p)) =
    leaf1_commit (leaf1_from_quorum_proposal p) ∧
  leaf2_commit (leaf2_from_leaf l) = leaf1_commit l ∧
  to_leaf_unsafe (leaf2_from_leaf l) = l ∧
  quorum_proposal (quorum_proposal2 p) = p.
Proof using Type.
  split_and!.
  - unfold leaf2_commit, leaf1_commit, leaf2_items. simpl. unfold to_qc2. by rewrite map_cert_commit.
  - apply leaf2_from_leaf_commit.
  - destruct l as [? [[] ? ? ?] ? ? ? ?]. done.
  - destruct p as [? ? [[] ? ? ?] ? [e|]]; [|done]. unfold quorum_proposal. simpl.
    by rewrite evidence_roundtrip.
Qed.

(** The first generation and the second agree on their other operations: the checks of
    upgrade certificates and of payloads answer the same for a leaf and its conversion, and
    while epochs are not enabled the two start from the same genesis leaf and certificate. *)
Lemma generations_behave_alike (l parent : Leaf) decided p n v vs i :
  leaf1_extends_upgrade l parent decided = extends_upgrade (leaf2_from_leaf l) (leaf2_from_leaf parent) decided ∧
  (leaf2_from_leaf <$> leaf1_fill_block_payload l p n v) = fill_block_payload (leaf2_from_leaf l) p n v ∧
  (genesis_epoch_from_version = None →
    (leaf2_from_leaf <$> leaf1_genesis vs i) = leaf2_genesis (E := Error) vs i ∧
    (to_qc2 <$> qc1_genesis vs i) = qc2_genesis (E := Error) vs i).
Proof using Type.
  split_and!; [done| |].
  - unfold leaf1_fill_block_payload, fill_block_payload. simpl. destruct (vid_commitment _ _ _); [|done|done]. mon.
    by destruct (negb _).
  - intros Hg. assert ((leaf2_from_leaf <$> leaf1_genesis vs i) = leaf2_genesis (E := Error) vs i) as Hl.
    { unfold leaf1_genesis, leaf2_genesis. rewrite Hg. destruct (payload_empty vs i) as [[pl md]|]; [|done]. simpl. mon.
      by destruct (vid_commitment _ _ _). }
    split; [done|]. unfold qc1_genesis, qc2_genesis. rewrite <-Hl, Hg.
    destruct (leaf1_genesis vs i) as [l0|e|]; [|done|done]. simpl. mon. simpl. by rewrite (leaf2_from_leaf_commit l0).
Qed.

(** An upgrade certificate stays on the chain: along a chain of leaves each
    of which passes [extends_upgrade] from its parent, once a leaf carries a
    certificate, every later leaf up to the certificate's [decide_by] view
    carries the same certificate; and when the certificate is already decided,
    every later leaf up to [new_version_first_view] does. *)
Theorem upgrade_certificate_persists (decided : option UpgradeCertificate)
    (first : Leaf2) (rest : list Leaf2) (c : UpgradeCertificate) :
  upgrade_certificate first = Some c →
  (∀ i child parent, (first :: rest) !! i = Some parent → rest !! i = Some child →
     extends_upgrade child parent decided = Ok tt) →
  let last_view := if decided then new_version_first_view (data c)
                   else Z.min (decide_by (data c)) (new_version_first_view (data c)) in
  Forall (fun l => leaf_view l <= last_view) rest →
  Forall (fun l => upgrade_certificate l = Some c) rest.
Proof using Type.
  intros Hc Hchain last_view Hv. revert first Hc Hchain.
  induction Hv as [|l rest Hl Hv IH]; intros first Hc Hchain; constructor.
  - destruct (extends_upgrade_inv l first decided c (Hchain 0%nat l first eq_refl eq_refl) Hc)
      as [?|[_ Hd]]; [done|]. unfold last_view in Hl. destruct decided; naive_solver lia.
  - apply (IH l).
    + destruct (extends_upgrade_inv l first decided c (Hchain 0%nat l first eq_refl eq_refl) Hc)
        as [?|[_ Hd]]; [done|]. unfold last_view in Hl. destruct decided; naive_solver lia.
    + intros i child parent Hp Hch. by apply (Hchain (S i)).
Qed.
End DataProperties.

(** ** Witnesses *)

Module DataDemo.
#[local] Existing Instance Ideal.open_signatures.

(** A header is a block number and the payload commitment; a payload is its
    bytes and its own commitment. *)
#[global] Instance blocks `{Sg : SignatureScheme} : BlockTypes (Sg := Sg) := {|
  BlockHeader := Z * bytes;
  BlockPayload := bytes;
  Metadata := unit;
  BuilderCommitment := unit;
  ValidatedState := Z;
  Delta := unit;
  InstanceState := unit;
  block_number h := h.1;
  header_payload_commitment h := h.2;
  header_commit h := finalize "header" [CbU64 h.1; CbVarSizeBytes h.2];
  header_metadata _ := tt;
  header_genesis _ c _ _ := (0, c);
  transaction_commitments p _ := map Ideal.digest p;
  from_header h := h.1;
  payload_encode p := p;
  payload_empty _ _ := Some ([], tt);
  builder_commitment _ _ := tt;
  vid_commit_only _ b := Some b;
  bincode_bits bs := map (fun b : bool => if b then 1 else 0) bs;
  bincode_sig _ := [];
|}.

Definition qc (view : ViewNumber) (c : Commitment) : QuorumCertificate2 :=
  {| data := {| leaf_commit := c; q2_epoch := None |}; vote_commitment := Ideal.digest 1;
     view_number := view; signatures := None |}.

Definition upgrade : UpgradeCertificate :=
  {| data := {| old_version := Base; new_version := Upgrade; decide_by := 20;
                new_version_hash := UPGRADE_HASH; old_version_last_view := 25;
                new_version_first_view := 30 |};
     vote_commitment := (Ideal.digest 1); view_number := 3; signatures := None |}.

Definition leaf (view number : Z) (parent : Commitment) (u : option UpgradeCertificate) : Leaf2 :=
  {| leaf_view := view; justify_qc := qc (view - 1) parent; next_epoch_justify_qc := None;
     parent_commitment := parent; block_header := (number, []); upgrade_certificate := u;
     block_payload := None; view_change_evidence := None; next_drb_result := None;
     with_epoch := false |}.
End DataDemo.

Lemma leaf_commitment_binding_witness :
  leaf2_commit (set_block_payload (DataDemo.leaf 4 2 (Ideal.digest 1) None) (Some [9])) =
  leaf2_commit (DataDemo.leaf 4 2 (Ideal.digest 1) None).
Proof.
  apply (leaf_commitment_binding (DataDemo.leaf 4 2 (Ideal.digest 1) None) (DataDemo.leaf 4 2 (Ideal.digest 1) None));
  [exact I|exact I|reflexivity].
Defined.

Lemma upgrade_certificate_persists_witness :
  Forall (fun l => upgrade_certificate l = Some DataDemo.upgrade)
    [DataDemo.leaf 5 3 (Ideal.digest 1) (Some DataDemo.upgrade);
     DataDemo.leaf 20 4 (Ideal.digest 1) (Some DataDemo.upgrade)].
Proof.
  apply (upgrade_certificate_persists None (DataDemo.leaf 4 2 (Ideal.digest 1) (Some DataDemo.upgrade))).
  - reflexivity.
  - intros [|[|[|i]]] child parent Hp Hc; simplify_eq/=; vm_compute; reflexivity.
  - repeat constructor; vm_compute; discriminate.
Defined.
