(* ===== verification/Vid.v ===== *)
(** * VID dispersal

    [types/src/data/vid_disperse.rs] and the [VidDisperse] and
    [VidDisperseShare] enums of [types/src/data.rs]: a payload is encoded into
    one share per member of a committee, sent to the members as signed share
    proposals, and may be gathered again from shares.

    The erasure code and its proofs ([jf_vid]) are the class [VidScheme].  The
    iteration order of a [BTreeSet] or [BTreeMap] is the order in which
    [elements] and [map_to_list] list a set or map: a function of the set or map
    alone. *)

From S2P Require Import Prelude Epochs Crypto Committee Votes Certificates Data.

(** [advz_scheme(n).disperse(payload)] returns the shares, the common data and
    the commitment; [verify_share(..).unwrap_or(Err(()))] is a boolean. *)
Class VidScheme `{VidTypes} := {
  VidShare : Type;
  VidCommon : Type;
  advz_disperse : Z → bytes → option (list VidShare * VidCommon * VidCommitment);
  advz_verify_share : Z → VidShare → VidCommon → VidCommitment → bool;
}.

Section Vid.
Context `{Sg : SignatureScheme} `{Cm : Committable} `{Vt : VidTypes} `{Vs : Versions}.
Context `{Bt : !BlockTypes} `{Vd : !VidScheme}.

Record ADVZDisperse := {
  ad_view_number : ViewNumber;
  ad_epoch : option EpochNumber;
  ad_target_epoch : option EpochNumber;
  ad_payload_commitment : VidCommitment;
  ad_data_epoch_payload_commitment : option VidCommitment;
  ad_shares : gmap PubKey VidShare;
  ad_common : VidCommon;
}.

Record ADVZDisperseShare := {
  as_view_number : ViewNumber;
  as_payload_commitment : VidCommitment;
  as_share : VidShare;
  as_common : VidCommon;
  as_recipient_key : PubKey;
}.

Record VidDisperseShare2 := {
  vs_view_number : ViewNumber;
  vs_epoch : option EpochNumber;
  vs_target_epoch : option EpochNumber;
  vs_payload_commitment : VidCommitment;
  vs_data_epoch_payload_commitment : option VidCommitment;
  vs_share : VidShare;
  vs_common : VidCommon;
  vs_recipient_key : PubKey;
}.

(** ** Dispersal *)

(** [.map(|node| (node.clone(), shares.remove(0))).collect()]: [remove] panics
    on an empty vector. *)
Fixpoint deal {E} (nodes : list PubKey) (shares : list VidShare)
    : outcome E (gmap PubKey VidShare) :=
  match nodes, shares with
  | [], _ => Ok ∅
  | _ :: _, [] => Panic
  | node :: nodes, share :: shares => m ← deal nodes shares; Ok (<[node := share]> m)
  end.

Definition advz_from_membership {M : Type} `{!Membership M} (view_number : ViewNumber)
    (disperse : list VidShare * VidCommon * VidCommitment) (membership : M)
    (target_epoch data_epoch : option EpochNumber)
    (data_epoch_payload_commitment : option VidCommitment) : outcome Error ADVZDisperse :=
  let '(shares, common, commit) := disperse in
  members ← committee_members membership view_number target_epoch;
  shares ← deal (elements members) shares;
  Ok {| ad_view_number := view_number;
        ad_shares := shares;
        ad_common := common;
        ad_payload_commitment := commit;
        ad_data_epoch_payload_commitment := data_epoch_payload_commitment;
        ad_epoch := data_epoch;
        ad_target_epoch := target_epoch |}.

Definition advz_calculate_vid_disperse {M : Type} `{!Membership M} (payload : BlockPayload)
    (membership : M) (view : ViewNumber) (target_epoch data_epoch : option EpochNumber)
    : outcome Error ADVZDisperse :=
  num_nodes ← total_nodes membership target_epoch;
  let txns := payload_encode payload in
  vid_disperse ← ok_or (advz_disperse num_nodes txns) "Failed to calculate VID disperse.";
  payload_commitment ←
    (if bool_decide (target_epoch = data_epoch) then Ok None
     else
       num_nodes ← total_nodes membership data_epoch;
       c ← ok_or (vid_commit_only num_nodes txns) "Failed to calculate VID commitment";
       Ok (Some c));
  advz_from_membership view vid_disperse membership target_epoch data_epoch payload_commitment.

(** ** Shares *)

Definition share_of_disperse (d : ADVZDisperse) (kv : PubKey * VidShare) : ADVZDisperseShare :=
  {| as_share := kv.2; as_recipient_key := kv.1; as_view_number := ad_view_number d;
     as_common := ad_common d; as_payload_commitment := ad_payload_commitment d |}.

Definition from_advz_disperse (d : ADVZDisperse) : list ADVZDisperseShare :=
  map (share_of_disperse d) (map_to_list (ad_shares d)).

Definition advz_to_proposal (s : ADVZDisperseShare) (private_key : PrivKey)
    : option (Proposal ADVZDisperseShare) :=
  match sign private_key (vid_as_ref (as_payload_commitment s)) with
  | Some sig => Some {| proposal_data := s; proposal_signature := sig |}
  | None => None
  end.

(** The iterator [it.map(..)] that would insert the other shares is bound to
    [_]: iterators are lazy, so it inserts nothing. *)
Definition to_advz_disperse (it : list ADVZDisperseShare) : option ADVZDisperse :=
  match it with
  | [] => None
  | first :: _ =>
      let share_map := {[as_recipient_key first := as_share first]} in
      Some {| ad_view_number := as_view_number first;
              ad_epoch := None;
              ad_target_epoch := None;
              ad_payload_commitment := as_payload_commitment first;
              ad_data_epoch_payload_commitment := None;
              ad_common := as_common first;
              ad_shares := share_map |}
  end.

Definition advz_to_vid_share_proposals (d : ADVZDisperse) (signature : Sig)
    : list (Proposal ADVZDisperseShare) :=
  map (fun kv => {| proposal_data := share_of_disperse d kv; proposal_signature := signature |})
    (map_to_list (ad_shares d)).

Definition advz_verify (s : ADVZDisperseShare) (total_nodes : Z) : bool :=
  advz_verify_share total_nodes (as_share s) (as_common s) (as_payload_commitment s).

Definition share2_of_disperse (d : ADVZDisperse) (kv : PubKey * VidShare) : VidDisperseShare2 :=
  {| vs_share := kv.2; vs_recipient_key := kv.1; vs_view_number := ad_view_number d;
     vs_common := ad_common d; vs_payload_commitment := ad_payload_commitment d;
     vs_data_epoch_payload_commitment := ad_data_epoch_payload_commitment d;
     vs_epoch := ad_epoch d; vs_target_epoch := ad_target_epoch d |}.

Definition from_vid_disperse2 (d : ADVZDisperse) : list VidDisperseShare2 :=
  map (share2_of_disperse d) (map_to_list (ad_shares d)).

Definition share2_to_proposal (s : VidDisperseShare2) (private_key : PrivKey)
    : option (Proposal VidDisperseShare2) :=
  match sign private_key (vid_as_ref (vs_payload_commitment s)) with
  | Some sig => Some {| proposal_data := s; proposal_signature := sig |}
  | None => None
  end.

Definition to_vid_disperse (it : list VidDisperseShare2) : option ADVZDisperse :=
  match it with
  | [] => None
  | first :: _ =>
      let share_map := {[vs_recipient_key first := vs_share first]} in
      Some {| ad_view_number := vs_view_number first;
              ad_epoch := vs_epoch first;
              ad_target_epoch := vs_target_epoch first;
              ad_payload_commitment := vs_payload_commitment first;
              ad_data_epoch_payload_commitment := vs_data_epoch_payload_commitment first;
              ad_common := vs_common first;
              ad_shares := share_map |}
  end.

Definition share2_to_vid_share_proposals (d : ADVZDisperse) (signature : Sig)
    : list (Proposal VidDisperseShare2) :=
  map (fun kv => {| proposal_data := share2_of_disperse d kv; proposal_signature := signature |})
    (map_to_list (ad_shares d)).

Definition share2_verify (s : VidDisperseShare2) (total_nodes : Z) : bool :=
  advz_verify_share total_nodes (vs_share s) (vs_common s) (vs_payload_commitment s).

Definition advz_of_share2 (s : VidDisperseShare2) : ADVZDisperseShare :=
  {| as_view_number := vs_view_number s; as_payload_commitment := vs_payload_commitment s;
     as_share := vs_share s; as_common := vs_common s; as_recipient_key := vs_recipient_key s |}.

Definition share2_of_advz (s : ADVZDisperseShare) : VidDisperseShare2 :=
  {| vs_view_number := as_view_number s; vs_epoch := None; vs_target_epoch := None;
     vs_payload_commitment := as_payload_commitment s; vs_data_epoch_payload_commitment := None;
     vs_share := as_share s; vs_common := as_common s; vs_recipient_key := as_recipient_key s |}.

(** ** The versioned enums of [data.rs] *)

Inductive VidDisperse := DisperseV0 (d : ADVZDisperse) | DisperseV1 (d : ADVZDisperse).
Inductive VidDisperseShare := ShareV0 (s : ADVZDisperseShare) | ShareV1 (s : VidDisperseShare2).

Definition calculate_vid_disperse {M : Type} `{!Membership M} (payload : BlockPayload)
    (membership : M) (view : ViewNumber) (target_epoch data_epoch : option EpochNumber)
    : outcome Error VidDisperse :=
  result ← advz_calculate_vid_disperse payload membership view target_epoch data_epoch;
  Ok (match data_epoch with None => DisperseV0 result | Some _ => DisperseV1 result end).

Definition from_vid_disperse (d : VidDisperse) : list VidDisperseShare :=
  match d with
  | DisperseV0 d => map ShareV0 (from_advz_disperse d)
  | DisperseV1 d => map ShareV1 (from_vid_disperse2 d)
  end.

Definition share_payload_commitment (s : VidDisperseShare) : VidCommitment :=
  match s with ShareV0 s => as_payload_commitment s | ShareV1 s => vs_payload_commitment s end.

Definition to_proposal (s : VidDisperseShare) (private_key : PrivKey)
    : option (Proposal VidDisperseShare) :=
  match sign private_key (vid_as_ref (share_payload_commitment s)) with
  | Some sig => Some {| proposal_data := s; proposal_signature := sig |}
  | None => None
  end.

Definition to_vid_share_proposals (p : Proposal VidDisperse) : list (Proposal VidDisperseShare) :=
  match proposal_data p with
  | DisperseV0 d =>
      map (fun q => {| proposal_data := ShareV0 (proposal_data q);
                       proposal_signature := proposal_signature q |})
        (advz_to_vid_share_proposals d (proposal_signature p))
  | DisperseV1 d =>
      map (fun q => {| proposal_data := ShareV1 (proposal_data q);
                       proposal_signature := proposal_signature q |})
        (share2_to_vid_share_proposals d (proposal_signature p))
  end.

Definition recipient_key (s : VidDisperseShare) : PubKey :=
  match s with ShareV0 s => as_recipient_key s | ShareV1 s => vs_recipient_key s end.

Definition data_epoch_payload_commitment (s : VidDisperseShare) : option VidCommitment :=
  match s with ShareV0 _ => None | ShareV1 s => vs_data_epoch_payload_commitment s end.

Definition vid_common_ref (s : VidDisperseShare) : VidCommon :=
  match s with ShareV0 s => as_common s | ShareV1 s => vs_common s end.

Definition target_epoch (s : VidDisperseShare) : option EpochNumber :=
  match s with ShareV0 _ => None | ShareV1 s => vs_target_epoch s end.

Definition verify_share (s : VidDisperseShare) (total_nodes : Z) : bool :=
  match s with
  | ShareV0 s => advz_verify s total_nodes
  | ShareV1 s => share2_verify s total_nodes
  end.

Definition share_view (s : VidDisperseShare) : ViewNumber :=
  match s with ShareV0 s => as_view_number s | ShareV1 s => vs_view_number s end.

Definition share_epoch (s : VidDisperseShare) : option EpochNumber :=
  match s with ShareV0 _ => None | ShareV1 s => vs_epoch s end.

Definition set_view_number (s : VidDisperseShare) (v : ViewNumber) : VidDisperseShare :=
  match s with
  | ShareV0 s =>
      ShareV0 {| as_view_number := v; as_payload_commitment := as_payload_commitment s;
                 as_share := as_share s; as_common := as_common s;
                 as_recipient_key := as_recipient_key s |}
  | ShareV1 s =>
      ShareV1 {| vs_view_number := v; vs_epoch := vs_epoch s; vs_target_epoch := vs_target_epoch s;
                 vs_payload_commitment := vs_payload_commitment s;
                 vs_data_epoch_payload_commitment := vs_data_epoch_payload_commitment s;
                 vs_share := vs_share s; vs_common := vs_common s;
                 vs_recipient_key := vs_recipient_key s |}
  end.

(** [impl From<VidDisperseShare> for VidDisperseShare2] *)
Definition share2_of_share (s : VidDisperseShare) : VidDisperseShare2 :=
  match s with ShareV0 s => share2_of_advz s | ShareV1 s => s end.
End Vid.

(** ** Properties *)

Section Properties.
Context `{Sg : SignatureScheme} `{Cm : Committable} `{Vt : VidTypes} `{Vs : Versions}.
Context `{Bt : !BlockTypes} `{Vd : !VidScheme}.

Lemma deal_ok {E} nodes shares :
  NoDup nodes → (length nodes <= length shares)%nat →
  ∃ m, deal (E:=E) nodes shares = Ok m ∧ dom m = list_to_set nodes ∧
    ∀ i k, nodes !! i = Some k → m !! k = shares !! i.
Proof.
  intros Hnd. revert shares. induction Hnd as [|k nodes Hk Hnd IH]; intros shares Hlen; simpl in *.
  - exists ∅. split_and!; [done|by rewrite dom_empty_L|done].
  - destruct shares as [|s shares]; simpl in *; [lia|].
    destruct (IH shares) as (m & -> & Hdom & Hm); [lia|]. mon. exists (<[k := s]> m).
    split_and!; [done|by rewrite dom_insert_L, Hdom|].
    intros [|i] k' Hi; simplify_eq/=; [by rewrite lookup_insert_eq|].
    rewrite lookup_insert_ne; [by apply Hm|]. intros ->. apply Hk. by eapply list_elem_of_lookup_2.
Qed.

Lemma deal_short {E} nodes shares :
  (length shares < length nodes)%nat → deal (E:=E) nodes shares = Panic.
Proof.
  revert shares. induction nodes as [|k nodes IH]; intros [|s shares] Hlen; simpl in *; [lia..|done|].
  by rewrite IH by lia.
Qed.

Lemma map_to_list_keys {A} (m : gmap PubKey A) : map fst (map_to_list m) ≡ₚ elements (dom m).
Proof.
  apply NoDup_Permutation; [apply NoDup_fst_map_to_list|apply NoDup_elements|].
  intros k. rewrite elem_of_elements, elem_of_dom. split.
  - intros ([k' a] & -> & Ha%elem_of_map_to_list)%list_elem_of_fmap. by exists a.
  - intros [a Ha%elem_of_map_to_list]. apply (list_elem_of_fmap_2 fst) in Ha. done.
Qed.

(** Every committee member gets its share: with at least as many shares as
    members, [from_membership] gives the i-th member (in the set's order) the
    i-th share, and splitting the signed dispersal yields exactly one proposal
    per member, with the member's share, the common commitment and the
    disperser's signature; with fewer shares it panics. *)
Theorem dispersal_reaches_committee {M} `{!Membership M} (m : M) view te de dc shares common c members sig :
  committee_members m view te = Ok members →
  ((length shares < size members)%nat →
     advz_from_membership view (shares, common, c) m te de dc = Panic) ∧
  ((size members <= length shares)%nat →
     ∃ d, advz_from_membership view (shares, common, c) m te de dc = Ok d ∧
       (∀ i k, elements members !! i = Some k → ad_shares d !! k = shares !! i) ∧
       let out := to_vid_share_proposals {| proposal_data := DisperseV1 d; proposal_signature := sig |} in
       map (fun q => recipient_key (proposal_data q)) out ≡ₚ elements members ∧
       Forall (fun q => proposal_signature q = sig ∧ share_payload_commitment (proposal_data q) = c ∧
                        share_view (proposal_data q) = view ∧
                        ∃ s, proposal_data q = ShareV1 s ∧
                             ad_shares d !! vs_recipient_key s = Some (vs_share s)) out).
Proof.
  intros Hm. unfold advz_from_membership. rewrite Hm. mon.
  assert (length (elements members) = size members) as Hsz by done. split; intros Hlen.
  - rewrite deal_short by lia. done.
  - destruct (deal_ok (E:=Error) (elements members) shares) as (sh & -> & Hdom & Hsh);
      [apply NoDup_elements|lia|]. mon. eexists. split; [done|]. split; [done|].
    unfold to_vid_share_proposals, share2_to_vid_share_proposals. simpl. split.
    + rewrite !map_map. simpl. change (map (fun x => x.1) ?l) with (map fst l).
      rewrite map_to_list_keys, Hdom, list_to_set_elements_L. done.
    + apply Forall_forall. intros q (q' & -> & Hq)%list_elem_of_fmap.
      apply list_elem_of_fmap in Hq as ([k s] & -> & Hks%elem_of_map_to_list). simpl.
      split_and!; [done|done|done|]. eexists. split; [done|]. done.
Qed.

(** Gathering shares keeps only the first one: [to_vid_disperse] and
    [to_advz_disperse] applied to the shares of a dispersal with more than one
    recipient return a dispersal with a single share, not the original. *)
Theorem gather_keeps_only_first (d : ADVZDisperse) :
  (2 <= size (ad_shares d))%nat →
  (∃ d', to_vid_disperse (from_vid_disperse2 d) = Some d' ∧ size (ad_shares d') = 1%nat) ∧
  (∃ d', to_advz_disperse (from_advz_disperse d) = Some d' ∧ size (ad_shares d') = 1%nat).
Proof.
  intros Hs. unfold from_vid_disperse2, from_advz_disperse.
  assert (length (map_to_list (ad_shares d)) = size (ad_shares d)) as Hl by apply length_map_to_list.
  destruct (map_to_list (ad_shares d)) as [|[k s] l]; simpl in *; [lia|].
  split; eexists; (split; [done|]); simpl; apply map_size_singleton.
Qed.
End Properties.

(** ** Witnesses *)

Module VidDemo.
#[global] Instance scheme : VidScheme := {|
  VidShare := Z;
  VidCommon := unit;
  advz_disperse n b := Some (map Z.of_nat (seq 0 (Z.to_nat n)), tt, b);
  advz_verify_share _ _ _ _ := true;
|}.

#[local] Existing Instance Ideal.open_signatures.

Definition shares3 : list (@VidShare CertDemo.vid scheme) := [7; 8; 9].
Definition no_common : @VidCommon CertDemo.vid scheme := tt.

Definition dispersal : ADVZDisperse :=
  {| ad_view_number := 3; ad_epoch := None; ad_target_epoch := None; ad_payload_commitment := [1];
     ad_data_epoch_payload_commitment := None;
     ad_shares := <[10 := 0]> (<[20 := 1]> ∅) : gmap Z Z; ad_common := tt |}.
End VidDemo.

#[local] Existing Instance Ideal.open_signatures.

Lemma dispersal_reaches_committee_witness :
  ∃ d, advz_from_membership (Membership0 := StaticCommittee) 3 (VidDemo.shares3, VidDemo.no_common, [1])
    Demo.committee None None None = Ok d.
Proof.
  destruct (dispersal_reaches_committee (Membership0 := StaticCommittee) Demo.committee 3 None None None
    VidDemo.shares3 VidDemo.no_common [1] _ [] eq_refl) as [_ Hd].
  destruct Hd as (d & Hd & _); [|by exists d]. apply (bool_decide_unpack _). vm_compute. exact I.
Defined.

Lemma gather_keeps_only_first_witness :
  ∃ d', to_vid_disperse (from_vid_disperse2 VidDemo.dispersal) = Some d' ∧ size (ad_shares d') = 1%nat.
Proof. apply (gather_keeps_only_first VidDemo.dispersal). apply (bool_decide_unpack _). vm_compute. exact I. Defined.
