(* ===== verification/Consensus.v ===== *)
(** * The consensus state

    [Consensus] of [types/src/consensus.rs]: what a node knows of the views in
    flight, and every operation that reads or changes it.  Tasks share the state
    behind a read-write lock; an operation here is one critical section.

    - [ViewInner]: what is known of a view ([types/src/utils.rs]).
    - The [update_*] operations, which refuse to move backwards.
    - [visit_leaf_ancestors]: the walk along the chain of saved leaves.  The
      walk is a [while let] loop; [visit_loop] has fuel, and
      [visit_loop_total] shows that one more than the number of saved leaves is
      enough when parents have smaller views.
    - [collect_garbage], [decided_leaf], and the eQC tests of the epoch
      transition.

    Metrics are left out. *)

From S2P Require Import Prelude Epochs Crypto Committee Votes Certificates VoteCollection Data Vid.

Section Consensus.
Context `{Sg : SignatureScheme} `{Cm : Committable} `{Vt : VidTypes} `{Vs : Versions}.
Context `{Bt : !BlockTypes} `{Vd : !VidScheme}.

(** ** Views *)

Inductive ViewInner :=
  | Da (payload_commitment : VidCommitment) (epoch : option EpochNumber)
  | LeafView (leaf : Commitment) (state : ValidatedState) (delta : option Delta)
      (epoch : option EpochNumber)
  | Failed.

Definition leaf_and_state (v : ViewInner) : option (Commitment * ValidatedState) :=
  match v with LeafView leaf state _ _ => Some (leaf, state) | _ => None end.
Definition leaf_commitment (v : ViewInner) : option Commitment :=
  match v with LeafView leaf _ _ _ => Some leaf | _ => None end.
Definition view_state (v : ViewInner) : option ValidatedState :=
  match v with LeafView _ state _ _ => Some state | _ => None end.
Definition view_state_and_delta (v : ViewInner) : option ValidatedState * option Delta :=
  match v with LeafView _ state delta _ => (Some state, delta) | _ => (None, None) end.
Definition view_payload_commitment (v : ViewInner) : option VidCommitment :=
  match v with Da c _ => Some c | _ => None end.
Definition view_epoch (v : ViewInner) : option (option EpochNumber) :=
  match v with Da _ e | LeafView _ _ _ e => Some e | Failed => None end.

Inductive Terminator := Exclusive (v : ViewNumber) | Inclusive (v : ViewNumber).

(** ** DRB seeds and results: [types/src/drb.rs] *)

Record DrbSeedsAndResults := {
  seeds : gmap EpochNumber bytes;
  results : gmap EpochNumber bytes;
}.

Definition INITIAL_DRB_SEED_INPUT : bytes := replicate 32 0.
Definition INITIAL_DRB_RESULT : bytes := replicate 32 0.
Definition KEEP_PREVIOUS_RESULT_COUNT : Z := 8.

Definition drb_new : DrbSeedsAndResults :=
  {| seeds := <[1 := INITIAL_DRB_SEED_INPUT]> (<[2 := INITIAL_DRB_SEED_INPUT]> ∅);
     results := <[1 := INITIAL_DRB_RESULT]> (<[2 := INITIAL_DRB_RESULT]> ∅) |}.

Definition store_seed (d : DrbSeedsAndResults) (epoch : EpochNumber) (seed : bytes)
    : DrbSeedsAndResults :=
  {| seeds := <[epoch := seed]> (seeds d); results := results d |}.

Definition garbage_collect (d : DrbSeedsAndResults) (epoch : EpochNumber) : DrbSeedsAndResults :=
  if epoch <? KEEP_PREVIOUS_RESULT_COUNT then d
  else
    let retain_epoch := wrapper_sub epoch KEEP_PREVIOUS_RESULT_COUNT in
    {| results := split_off (results d) retain_epoch;
       seeds := split_off (seeds d) (wrapper_add retain_epoch 1) |}.

(** ** The state *)

Record HotShotActionViews := {
  proposed : ViewNumber;
  voted : ViewNumber;
  da_proposed : ViewNumber;
  da_vote : ViewNumber;
}.

Definition action_views_from_view (view : ViewNumber) : HotShotActionViews :=
  {| proposed := view; voted := view; da_proposed := view; da_vote := view |}.
Definition action_views_default : HotShotActionViews := action_views_from_view genesis_view.

Inductive HotShotAction :=
  | Vote | ViewSyncVote | Propose | DaPropose | DaVote | DaCert | VidDisperse_ | UpgradeVote
  | UpgradePropose.

Record Consensus := {
  validated_state_map : gmap ViewNumber ViewInner;
  vid_shares : gmap ViewNumber (gmap PubKey (Proposal VidDisperseShare));
  saved_da_certs : gmap ViewNumber DaCertificate2;
  cur_view : ViewNumber;
  cur_epoch : option EpochNumber;
  last_proposals : gmap ViewNumber (Proposal QuorumProposal2);
  last_decided_view : ViewNumber;
  locked_view : ViewNumber;
  saved_leaves : gmap Commitment Leaf2;
  last_actions : HotShotActionViews;
  saved_payloads : gmap ViewNumber BlockPayload;
  high_qc : QuorumCertificate2;
  next_epoch_high_qc : option NextEpochQuorumCertificate2;
  epoch_height : Z;
  drb_seeds_and_results : DrbSeedsAndResults;
}.

Definition set_validated_state_map (c : Consensus) (x : gmap ViewNumber ViewInner) : Consensus :=
  {| validated_state_map := x; vid_shares := vid_shares c; saved_da_certs := saved_da_certs c;
     cur_view := cur_view c; cur_epoch := cur_epoch c; last_proposals := last_proposals c;
     last_decided_view := last_decided_view c; locked_view := locked_view c; saved_leaves :=
     saved_leaves c; last_actions := last_actions c; saved_payloads := saved_payloads c; high_qc
     := high_qc c; next_epoch_high_qc := next_epoch_high_qc c; epoch_height := epoch_height c;
     drb_seeds_and_results := drb_seeds_and_results c |}.
Definition set_vid_shares (c : Consensus) (x : gmap ViewNumber (gmap PubKey (Proposal VidDisperseShare))) : Consensus :=
  {| validated_state_map := validated_state_map c; vid_shares := x; saved_da_certs :=
     saved_da_certs c; cur_view := cur_view c; cur_epoch := cur_epoch c; last_proposals :=
     last_proposals c; last_decided_view := last_decided_view c; locked_view := locked_view c;
     saved_leaves := saved_leaves c; last_actions := last_actions c; saved_payloads :=
     saved_payloads c; high_qc := high_qc c; next_epoch_high_qc := next_epoch_high_qc c;
     epoch_height := epoch_height c; drb_seeds_and_results := drb_seeds_and_results c |}.
Definition set_saved_da_certs (c : Consensus) (x : gmap ViewNumber DaCertificate2) : Consensus :=
  {| validated_state_map := validated_state_map c; vid_shares := vid_shares c; saved_da_certs :=
     x; cur_view := cur_view c; cur_epoch := cur_epoch c; last_proposals := last_proposals c;
     last_decided_view := last_decided_view c; locked_view := locked_view c; saved_leaves :=
     saved_leaves c; last_actions := last_actions c; saved_payloads := saved_payloads c; high_qc
     := high_qc c; next_epoch_high_qc := next_epoch_high_qc c; epoch_height := epoch_height c;
     drb_seeds_and_results := drb_seeds_and_results c |}.
Definition set_cur_view (c : Consensus) (x : ViewNumber) : Consensus :=
  {| validated_state_map := validated_state_map c; vid_shares := vid_shares c; saved_da_certs :=
     saved_da_certs c; cur_view := x; cur_epoch := cur_epoch c; last_proposals := last_proposals
     c; last_decided_view := last_decided_view c; locked_view := locked_view c; saved_leaves :=
     saved_leaves c; last_actions := last_actions c; saved_payloads := saved_payloads c; high_qc
     := high_qc c; next_epoch_high_qc := next_epoch_high_qc c; epoch_height := epoch_height c;
     drb_seeds_and_results := drb_seeds_and_results c |}.
Definition set_cur_epoch (c : Consensus) (x : option EpochNumber) : Consensus :=
  {| validated_state_map := validated_state_map c; vid_shares := vid_shares c; saved_da_certs :=
     saved_da_certs c; cur_view := cur_view c; cur_epoch := x; last_proposals := last_proposals
     c; last_decided_view := last_decided_view c; locked_view := locked_view c; saved_leaves :=
     saved_leaves c; last_actions := last_actions c; saved_payloads := saved_payloads c; high_qc
     := high_qc c; next_epoch_high_qc := next_epoch_high_qc c; epoch_height := epoch_height c;
     drb_seeds_and_results := drb_seeds_and_results c |}.
Definition set_last_proposals (c : Consensus) (x : gmap ViewNumber (Proposal QuorumProposal2)) : Consensus :=
  {| validated_state_map := validated_state_map c; vid_shares := vid_shares c; saved_da_certs :=
     saved_da_certs c; cur_view := cur_view c; cur_epoch := cur_epoch c; last_proposals := x;
     last_decided_view := last_decided_view c; locked_view := locked_view c; saved_leaves :=
     saved_leaves c; last_actions := last_actions c; saved_payloads := saved_payloads c; high_qc
     := high_qc c; next_epoch_high_qc := next_epoch_high_qc c; epoch_height := epoch_height c;
     drb_seeds_and_results := drb_seeds_and_results c |}.
Definition set_last_decided_view (c : Consensus) (x : ViewNumber) : Consensus :=
  {| validated_state_map := validated_state_map c; vid_shares := vid_shares c; saved_da_certs :=
     saved_da_certs c; cur_view := cur_view c; cur_epoch := cur_epoch c; last_proposals :=
     last_proposals c; last_decided_view := x; locked_view := locked_view c; saved_leaves :=
     saved_leaves c; last_actions := last_actions c; saved_payloads := saved_payloads c; high_qc
     := high_qc c; next_epoch_high_qc := next_epoch_high_qc c; epoch_height := epoch_height c;
     drb_seeds_and_results := drb_seeds_and_results c |}.
Definition set_locked_view (c : Consensus) (x : ViewNumber) : Consensus :=
  {| validated_state_map := validated_state_map c; vid_shares := vid_shares c; saved_da_certs :=
     saved_da_certs c; cur_view := cur_view c; cur_epoch := cur_epoch c; last_proposals :=
     last_proposals c; last_decided_view := last_decided_view c; locked_view := x; saved_leaves
     := saved_leaves c; last_actions := last_actions c; saved_payloads := saved_payloads c;
     high_qc := high_qc c; next_epoch_high_qc := next_epoch_high_qc c; epoch_height :=
     epoch_height c; drb_seeds_and_results := drb_seeds_and_results c |}.
Definition set_saved_leaves (c : Consensus) (x : gmap Commitment Leaf2) : Consensus :=
  {| validated_state_map := validated_state_map c; vid_shares := vid_shares c; saved_da_certs :=
     saved_da_certs c; cur_view := cur_view c; cur_epoch := cur_epoch c; last_proposals :=
     last_proposals c; last_decided_view := last_decided_view c; locked_view := locked_view c;
     saved_leaves := x; last_actions := last_actions c; saved_payloads := saved_payloads c;
     high_qc := high_qc c; next_epoch_high_qc := next_epoch_high_qc c; epoch_height :=
     epoch_height c; drb_seeds_and_results := drb_seeds_and_results c |}.
Definition set_last_actions (c : Consensus) (x : HotShotActionViews) : Consensus :=
  {| validated_state_map := validated_state_map c; vid_shares := vid_shares c; saved_da_certs :=
     saved_da_certs c; cur_view := cur_view c; cur_epoch := cur_epoch c; last_proposals :=
     last_proposals c; last_decided_view := last_decided_view c; locked_view := locked_view c;
     saved_leaves := saved_leaves c; last_actions := x; saved_payloads := saved_payloads c;
     high_qc := high_qc c; next_epoch_high_qc := next_epoch_high_qc c; epoch_height :=
     epoch_height c; drb_seeds_and_results := drb_seeds_and_results c |}.
Definition set_saved_payloads (c : Consensus) (x : gmap ViewNumber BlockPayload) : Consensus :=
  {| validated_state_map := validated_state_map c; vid_shares := vid_shares c; saved_da_certs :=
     saved_da_certs c; cur_view := cur_view c; cur_epoch := cur_epoch c; last_proposals :=
     last_proposals c; last_decided_view := last_decided_view c; locked_view := locked_view c;
     saved_leaves := saved_leaves c; last_actions := last_actions c; saved_payloads := x;
     high_qc := high_qc c; next_epoch_high_qc := next_epoch_high_qc c; epoch_height :=
     epoch_height c; drb_seeds_and_results := drb_seeds_and_results c |}.
Definition set_high_qc (c : Consensus) (x : QuorumCertificate2) : Consensus :=
  {| validated_state_map := validated_state_map c; vid_shares := vid_shares c; saved_da_certs :=
     saved_da_certs c; cur_view := cur_view c; cur_epoch := cur_epoch c; last_proposals :=
     last_proposals c; last_decided_view := last_decided_view c; locked_view := locked_view c;
     saved_leaves := saved_leaves c; last_actions := last_actions c; saved_payloads :=
     saved_payloads c; high_qc := x; next_epoch_high_qc := next_epoch_high_qc c; epoch_height :=
     epoch_height c; drb_seeds_and_results := drb_seeds_and_results c |}.
Definition set_next_epoch_high_qc (c : Consensus) (x : option NextEpochQuorumCertificate2) : Consensus :=
  {| validated_state_map := validated_state_map c; vid_shares := vid_shares c; saved_da_certs :=
     saved_da_certs c; cur_view := cur_view c; cur_epoch := cur_epoch c; last_proposals :=
     last_proposals c; last_decided_view := last_decided_view c; locked_view := locked_view c;
     saved_leaves := saved_leaves c; last_actions := last_actions c; saved_payloads :=
     saved_payloads c; high_qc := high_qc c; next_epoch_high_qc := x; epoch_height :=
     epoch_height c; drb_seeds_and_results := drb_seeds_and_results c |}.
Definition set_drb_seeds_and_results (c : Consensus) (x : DrbSeedsAndResults) : Consensus :=
  {| validated_state_map := validated_state_map c; vid_shares := vid_shares c; saved_da_certs :=
     saved_da_certs c; cur_view := cur_view c; cur_epoch := cur_epoch c; last_proposals :=
     last_proposals c; last_decided_view := last_decided_view c; locked_view := locked_view c;
     saved_leaves := saved_leaves c; last_actions := last_actions c; saved_payloads :=
     saved_payloads c; high_qc := high_qc c; next_epoch_high_qc := next_epoch_high_qc c;
     epoch_height := epoch_height c; drb_seeds_and_results := x |}.

Definition Consensus_new (validated_state_map : gmap ViewNumber ViewInner)
    (vid_shares : option (gmap ViewNumber (gmap PubKey (Proposal VidDisperseShare))))
    (cur_view : ViewNumber) (cur_epoch : option EpochNumber) (locked_view last_decided_view
    last_actioned_view : ViewNumber) (last_proposals : gmap ViewNumber (Proposal QuorumProposal2))
    (saved_leaves : gmap Commitment Leaf2) (saved_payloads : gmap ViewNumber BlockPayload)
    (high_qc : QuorumCertificate2) (next_epoch_high_qc : option NextEpochQuorumCertificate2)
    (epoch_height : Z) : Consensus :=
  {| validated_state_map := validated_state_map; vid_shares := default ∅ vid_shares;
     saved_da_certs := ∅; cur_view := cur_view; cur_epoch := cur_epoch;
     last_decided_view := last_decided_view; last_proposals := last_proposals;
     last_actions := action_views_from_view last_actioned_view; locked_view := locked_view;
     saved_leaves := saved_leaves; saved_payloads := saved_payloads; high_qc := high_qc;
     next_epoch_high_qc := next_epoch_high_qc; epoch_height := epoch_height;
     drb_seeds_and_results := drb_new |}.

(** ** Updates *)

Definition update_view (c : Consensus) (view_number : ViewNumber) : outcome Error Consensus :=
  _ ← ensure (cur_view c <? view_number) "New view isn't newer than the current view.";
  Ok (set_cur_view c view_number).

(** [Some(epoch_number) > self.cur_epoch]: [None] is below every epoch. *)
Definition update_epoch (c : Consensus) (epoch_number : EpochNumber) : outcome Error Consensus :=
  _ ← ensure (match cur_epoch c with None => true | Some e => e <? epoch_number end)
        "New epoch isn't newer than the current epoch.";
  Ok (set_cur_epoch c (Some epoch_number)).

Definition update_action (c : Consensus) (action : HotShotAction) (view : ViewNumber)
    : Consensus * bool :=
  let a := last_actions c in
  match action with
  | Vote =>
      if voted a <? view then
        (set_last_actions c {| proposed := proposed a; voted := view;
                               da_proposed := da_proposed a; da_vote := da_vote a |}, true)
      else (c, false)
  | Propose =>
      if proposed a <? view then
        (set_last_actions c {| proposed := view; voted := voted a;
                               da_proposed := da_proposed a; da_vote := da_vote a |}, true)
      else (c, false)
  | DaPropose =>
      if da_proposed a <? view then
        (set_last_actions c {| proposed := proposed a; voted := voted a;
                               da_proposed := view; da_vote := da_vote a |}, true)
      else (c, false)
  | DaVote =>
      if da_vote a <? view then
        (set_last_actions c {| proposed := proposed a; voted := voted a;
                               da_proposed := da_proposed a; da_vote := view |}, true)
      else (c, true)
  | _ => (c, true)
  end.

Definition reset_actions (c : Consensus) : Consensus := set_last_actions c action_views_default.

Definition update_proposed_view (c : Consensus) (proposal : Proposal QuorumProposal2)
    : outcome Error Consensus :=
  let view := p_view_number (proposal_data proposal) in
  _ ← ensure (default genesis_view (last_key (last_proposals c)) <? view)
        "New view isn't newer than the previously proposed view.";
  Ok (set_last_proposals c (<[view := proposal]> (last_proposals c))).

Definition update_last_decided_view (c : Consensus) (view_number : ViewNumber)
    : outcome Error Consensus :=
  _ ← ensure (last_decided_view c <? view_number)
        "New view isn't newer than the previously decided view.";
  Ok (set_last_decided_view c view_number).

Definition update_locked_view (c : Consensus) (view_number : ViewNumber) : outcome Error Consensus :=
  _ ← ensure (locked_view c <? view_number)
        "New view isn't newer than the previously locked view.";
  Ok (set_locked_view c view_number).

Definition update_validated_state_map (c : Consensus) (view_number : ViewNumber)
    (new_view : ViewInner) : outcome Error Consensus :=
  _ ← match validated_state_map c !! view_number with
      | Some (LeafView _ _ existing_delta _) =>
          match new_view with
          | LeafView _ _ new_delta _ =>
              ensure (bool_decide (is_Some new_delta) || negb (bool_decide (is_Some existing_delta)))
                "Skipping the state update to not override a Leaf view with Some state delta."
          | _ => Err "Skipping the state update to not override a Leaf view with a non-Leaf view."
          end
      | _ => Ok tt
      end;
  Ok (set_validated_state_map c (<[view_number := new_view]> (validated_state_map c))).

Definition update_saved_leaves (c : Consensus) (leaf : Leaf2) : Consensus :=
  set_saved_leaves c (<[leaf2_commit leaf := leaf]> (saved_leaves c)).

Definition update_da_view (c : Consensus) (view_number : ViewNumber) (epoch : option EpochNumber)
    (payload_commitment : VidCommitment) : outcome Error Consensus :=
  update_validated_state_map c view_number (Da payload_commitment epoch).

Definition update_leaf (c : Consensus) (leaf : Leaf2) (state : ValidatedState)
    (delta : option Delta) : outcome Error Consensus :=
  let view_number := leaf_view leaf in
  let epoch := option_epoch_from_block_number (with_epoch leaf) (height leaf) (epoch_height c) in
  let view := LeafView (leaf2_commit leaf) state delta epoch in
  c ← update_validated_state_map c view_number view;
  Ok (update_saved_leaves c leaf).

Definition update_saved_payloads (c : Consensus) (view_number : ViewNumber) (payload : BlockPayload)
    : outcome Error Consensus :=
  _ ← ensure (negb (bool_decide (is_Some (saved_payloads c !! view_number))))
        "Payload with the same view already exists.";
  Ok (set_saved_payloads c (<[view_number := payload]> (saved_payloads c))).

Definition update_high_qc (c : Consensus) (qc : QuorumCertificate2) : outcome Error Consensus :=
  _ ← ensure ((view_number (high_qc c) <? view_number qc) || bool_decide (qc = high_qc c))
        "High QC with an equal or higher view exists.";
  Ok (set_high_qc c qc).

Definition update_next_epoch_high_qc (c : Consensus) (qc : NextEpochQuorumCertificate2)
    : outcome Error Consensus :=
  _ ← match next_epoch_high_qc c with
      | Some q => ensure ((view_number q <? view_number qc) || bool_decide (qc = q))
                    "Next epoch high QC with an equal or higher view exists."
      | None => Ok tt
      end;
  Ok (set_next_epoch_high_qc c (Some qc)).

Definition update_vid_shares (c : Consensus) (view_number : ViewNumber)
    (disperse : Proposal VidDisperseShare) : Consensus :=
  let m := default ∅ (vid_shares c !! view_number) in
  set_vid_shares c
    (<[view_number := <[recipient_key (proposal_data disperse) := disperse]> m]> (vid_shares c)).

Definition update_saved_da_certs (c : Consensus) (view_number : ViewNumber) (cert : DaCertificate2)
    : Consensus :=
  set_saved_da_certs c (<[view_number := cert]> (saved_da_certs c)).

(** ** Reading *)

Definition state (c : Consensus) (view_number : ViewNumber) : option ValidatedState :=
  validated_state_map c !! view_number ≫= view_state.

Definition state_and_delta (c : Consensus) (view_number : ViewNumber)
    : option ValidatedState * option Delta :=
  match validated_state_map c !! view_number with
  | Some view => view_state_and_delta view
  | None => (None, None)
  end.

Record LeafInfo := {
  li_leaf : Leaf2;
  li_state : ValidatedState;
  li_delta : option Delta;
  li_vid_share : option VidDisperseShare;
}.

Definition vid_share_of (c : Consensus) (view : ViewNumber) (public_key : PubKey)
    : option VidDisperseShare :=
  inner ← vid_shares c !! view; p ← inner !! public_key; Some (proposal_data p).

Definition parent_leaf_info (c : Consensus) (leaf : Leaf2) (public_key : PubKey)
    : option LeafInfo :=
  let parent_view_number := view_number (justify_qc leaf) in
  parent_leaf ← saved_leaves c !! leaf_commit (data (justify_qc leaf));
  match state_and_delta c parent_view_number with
  | (Some state, delta) =>
      Some {| li_leaf := parent_leaf; li_state := state; li_delta := delta;
              li_vid_share := vid_share_of c parent_view_number public_key |}
  | (None, _) => None
  end.

Definition decided_leaf {E} (c : Consensus) : outcome E Leaf2 :=
  view ← unwrap (validated_state_map c !! last_decided_view c);
  leaf ← unwrap (leaf_commitment view);
  unwrap (saved_leaves c !! leaf).

Definition decided_state {E} (c : Consensus) : outcome E ValidatedState :=
  unwrap (state_and_delta c (last_decided_view c)).1.

(** ** The walk along the chain of saved leaves

    The closure [f] of the source captures variables by mutable reference: [S]
    is their type, and [f] returns whether to go on and their new values. *)

Inductive HotShotError := InvalidState | MissingLeaf (c : Commitment).

Definition stop_before (terminator : Terminator) (view : ViewNumber) : bool :=
  match terminator with Exclusive v => v =? view | Inclusive _ => false end.
Definition stop_after (terminator : Terminator) (view : ViewNumber) : bool :=
  match terminator with Inclusive v => v =? view | Exclusive _ => false end.

(** The [while let] loop; [None] when the fuel runs out. *)
Fixpoint visit_loop {S} (fuel : nat) (c : Consensus) (terminator : Terminator)
    (ok_when_finished : bool) (f : Leaf2 → ValidatedState → option Delta → S → bool * S)
    (next_leaf : Commitment) (s : S) : option (outcome HotShotError unit * S) :=
  match fuel with
  | O => None
  | Datatypes.S fuel =>
      match saved_leaves c !! next_leaf with
      | None => Some (Err (MissingLeaf next_leaf), s)
      | Some leaf =>
          let view := leaf_view leaf in
          match state_and_delta c view with
          | (Some state, delta) =>
              if stop_before terminator view then
                Some (if ok_when_finished then Ok tt else Err (MissingLeaf next_leaf), s)
              else
                let next_leaf := parent_commitment leaf in
                let '(continue, s) := f leaf state delta s in
                if negb continue then Some (Ok tt, s)
                else if stop_after terminator view then
                  Some (if ok_when_finished then Ok tt else Err (MissingLeaf next_leaf), s)
                else visit_loop fuel c terminator ok_when_finished f next_leaf s
          | (None, _) => Some (Err InvalidState, s)
          end
      end
  end.

Definition visit_fuel (c : Consensus) : nat := Datatypes.S (size (saved_leaves c)).

Definition visit_leaf_ancestors {S} (c : Consensus) (start_from : ViewNumber)
    (terminator : Terminator) (ok_when_finished : bool)
    (f : Leaf2 → ValidatedState → option Delta → S → bool * S) (s : S)
    : option (outcome HotShotError unit * S) :=
  match validated_state_map c !! start_from with
  | None => Some (Err InvalidState, s)
  | Some view =>
      match leaf_commitment view with
      | None => Some (Err InvalidState, s)
      | Some next_leaf => visit_loop (visit_fuel c) c terminator ok_when_finished f next_leaf s
      end
  end.

(** ** Garbage collection *)

(** [validated_state_map.range(old_anchor_view..gc_view)], its leaf commitments. *)
Definition gc_leaves (c : Consensus) (old_anchor_view gc_view : ViewNumber) : list Commitment :=
  omap (fun kv : ViewNumber * ViewInner => leaf_commitment kv.2)
    (map_to_list (base.filter (fun kv => old_anchor_view <= kv.1 < gc_view) (validated_state_map c))).

(** Panics ([expect]) when there is no entry in the state map; the check of the
    first entry only logs. *)
Definition collect_garbage {E} (c : Consensus) (old_anchor_view new_anchor_view : ViewNumber)
    : outcome E Consensus :=
  if new_anchor_view <=? old_anchor_view then Ok c
  else
    let gc_view := saturating_sub new_anchor_view 1 in
    if bool_decide (validated_state_map c = ∅) then Panic
    else
      let c := set_saved_da_certs c
                 (base.filter (fun kv => old_anchor_view <= kv.1) (saved_da_certs c)) in
      let c := set_saved_leaves c
                 (foldl (fun m leaf => delete leaf m) (saved_leaves c)
                    (gc_leaves c old_anchor_view gc_view)) in
      let c := set_validated_state_map c (split_off (validated_state_map c) gc_view) in
      let c := set_saved_payloads c (split_off (saved_payloads c) gc_view) in
      let c := set_vid_shares c (split_off (vid_shares c) gc_view) in
      Ok (set_last_proposals c (split_off (last_proposals c) gc_view)).

(** The writes of [handle_quorum_proposal_validated] when a view is decided, under
    one lock. *)
Definition decide_view (c : Consensus) (decided_view_number : ViewNumber) : outcome Error Consensus :=
  let old_decided_view := last_decided_view c in
  c ← collect_garbage c old_decided_view decided_view_number;
  update_last_decided_view c decided_view_number.

(** ** VID shares of an own payload

    The lock is taken three times: for the payload, for the view's epoch, and
    for writing; the state may differ between them. *)

Definition store_vid_shares (c : Consensus) (view : ViewNumber) (shares : list VidDisperseShare)
    (private_key : PrivKey) : Consensus :=
  foldl (fun c share => match to_proposal share private_key with
                        | Some prop => update_vid_shares c view prop
                        | None => c
                        end) c shares.

(** [Ok None]: the early returns of [?] on an [Option]. *)
Definition calculate_and_update_vid {E M : Type} `{!Membership M} (c_payload c_epoch c : Consensus)
    (view : ViewNumber) (target_epoch : option EpochNumber) (membership : M)
    (private_key : PrivKey) : outcome E (option Consensus) :=
  match saved_payloads c_payload !! view, validated_state_map c_epoch !! view ≫= view_epoch with
  | Some payload, Some epoch =>
      match calculate_vid_disperse payload membership view target_epoch epoch with
      | Ok vid => Ok (Some (store_vid_shares c view (from_vid_disperse vid) private_key))
      | Err _ => Ok None
      | Panic => Panic
      end
  | _, _ => Ok None
  end.

(** ** Epoch transition: the extended QC *)

Definition is_leaf_for_last_block (c : Consensus) (leaf_commit : Commitment) : bool :=
  match saved_leaves c !! leaf_commit with
  | None => false
  | Some leaf => is_last_block_in_epoch (height leaf) (epoch_height c)
  end.

Definition is_high_qc_for_last_block (c : Consensus) : bool :=
  match saved_leaves c !! leaf_commit (data (high_qc c)) with
  | None => false
  | Some leaf => is_last_block_in_epoch (height leaf) (epoch_height c)
  end.

(** The closure of [is_leaf_extended]; it captures [last_visited_view_number] and
    [is_leaf_extended]. *)
Definition extended_step (start_view : ViewNumber) (leaf_block_number : Z) (leaf : Leaf2)
    (_ : ValidatedState) (_ : option Delta) (s : ViewNumber * bool) : bool * (ViewNumber * bool) :=
  let '(last_visited_view_number, is_leaf_extended) := s in
  if leaf_view leaf =? start_view then (true, s)
  else if negb (wrapper_sub last_visited_view_number 1 =? leaf_view leaf) then
    (false, (last_visited_view_number, false))
  else if negb (leaf_block_number =? height leaf) then (false, (last_visited_view_number, false))
  else (true, (leaf_view leaf, is_leaf_extended)).

(** [None] when the walk does not end. *)
Definition is_leaf_extended (c : Consensus) (leaf_commit : Commitment) : option bool :=
  if negb (is_leaf_for_last_block c leaf_commit) then Some false
  else
    match saved_leaves c !! leaf_commit with
    | None => Some false
    | Some leaf =>
        let view := leaf_view leaf in
        '(result, (_, extended)) ←
          visit_leaf_ancestors c view (Inclusive (wrapper_sub view 2)) true
            (extended_step view (height leaf)) (view, true);
        Some (if is_ok result then extended else false)
    end.

Definition is_qc_forming_eqc (c : Consensus) (qc : QuorumCertificate2) : option bool :=
  let high_qc_leaf_commit := leaf_commit (data qc) in
  is_high_qc_extended ← is_leaf_extended c high_qc_leaf_commit;
  Some (is_leaf_for_last_block c high_qc_leaf_commit && negb is_high_qc_extended).

Definition is_high_qc_forming_eqc (c : Consensus) : option bool := is_qc_forming_eqc c (high_qc c).

Definition is_leaf_forming_eqc (c : Consensus) (leaf_commit : Commitment) : option bool :=
  if is_leaf_for_last_block c leaf_commit then negb <$> is_leaf_extended c leaf_commit
  else Some false.

Definition check_eqc (c : Consensus) (proposed_leaf parent_leaf : Leaf2) : option bool :=
  if leaf_view parent_leaf =? genesis_view then Some true
  else
    let new_epoch := epoch_from_block_number (height proposed_leaf) (epoch_height c) in
    let old_epoch := epoch_from_block_number (height parent_leaf) (epoch_height c) in
    if u64_sub new_epoch 1 =? old_epoch then is_leaf_extended c (leaf2_commit parent_leaf)
    else Some false.
End Consensus.
