(* ===== verification/ConsensusProofs.v ===== *)
(** * What the consensus state guarantees

    Theorems about [Consensus]:

    - [cons_inv], the invariant that ties the state map to the saved leaves, and
      [step], one critical section of a task: every reachable state satisfies the
      invariant, views never go back, and the decided leaf can always be read.
    - The walk [visit_leaf_ancestors] ends, because hashes have no cycles.
    - Actions: a node does not vote or propose twice in a view.
    - Garbage collection: what it keeps, what it drops, and what it forgets.
    - The extended QC: three leaves in consecutive views for one block. *)

From S2P Require Import Prelude Epochs Crypto Committee Votes Certificates VoteCollection Data Vid Consensus.

Section ConsensusProofs.
Context `{Sg : SignatureScheme} `{Cm : Committable} `{Vt : VidTypes} `{Vs : Versions}.
Context `{Bt : !BlockTypes} `{Vd : !VidScheme}.
Context {Lm : CommittableLaws Cm} {Rk : CommitmentRank Cm}.
Implicit Types (c : Consensus) (leaf : Leaf2).

(** ** The invariant *)

(** Leaves come from proposals: the parent is the leaf that the justifying
    certificate is for. *)
Definition leaf_ok leaf : Prop :=
  leaf_wf leaf ∧ parent_commitment leaf = leaf_commit (data (justify_qc leaf)).

Record cons_inv c : Prop := {
  (** The saved leaves are keyed by their commitments. *)
  inv_keys h leaf : saved_leaves c !! h = Some leaf → h = leaf2_commit leaf ∧ leaf_ok leaf;
  (** A view with a leaf has that leaf saved, and the leaf is for that view. *)
  inv_views v h s d e :
    validated_state_map c !! v = Some (LeafView h s d e) →
    ∃ leaf, saved_leaves c !! h = Some leaf ∧ leaf_view leaf = v;
  (** The decided view has a leaf. *)
  inv_decided : is_Some (validated_state_map c !! last_decided_view c ≫= leaf_commitment);
}.

Lemma leaf_commitment_Some (v : ViewInner) h :
  leaf_commitment v = Some h ↔ ∃ s d e, v = LeafView h s d e.
Proof using Type. destruct v; naive_solver. Qed.

Lemma inv_views' c v x h :
  cons_inv c → validated_state_map c !! v = Some x → leaf_commitment x = Some h →
  ∃ leaf, saved_leaves c !! h = Some leaf ∧ leaf_view leaf = v.
Proof using Type. intros Hc Hx (s & d & e & ->)%leaf_commitment_Some. by eapply inv_views. Qed.

(** The invariant only looks at three fields. *)
Lemma cons_inv_ext c c' :
  saved_leaves c' = saved_leaves c → validated_state_map c' = validated_state_map c →
  last_decided_view c' = last_decided_view c → cons_inv c → cons_inv c'.
Proof using Type. intros H1 H2 H3 [? ? ?]. split; rewrite ?H1, ?H2, ?H3; auto. Qed.

(** [update_validated_state_map] never turns a view with a leaf into one
    without. *)
Lemma update_map_ok c v x c' :
  update_validated_state_map c v x = Ok c' →
  c' = set_validated_state_map c (<[v := x]> (validated_state_map c)) ∧
  ∀ h s d e, validated_state_map c !! v = Some (LeafView h s d e) →
    ∃ h' s' d' e', x = LeafView h' s' d' e' ∧ (is_Some d → is_Some d').
Proof using Type.
  unfold update_validated_state_map. intros H. apply bind_ok_inv in H as ([] & Hg & [= <-]).
  split; [done|]. intros h s d e Hv. rewrite Hv in Hg. destruct x as [| h' s' d' e'|]; try done.
  apply ensure_ok_inv in Hg. do 4 eexists. split; [done|]. intros Hd.
  apply orb_true_iff in Hg as [Hg|Hg]; bool_facts; done.
Qed.

Lemma update_map_decided c v x c' :
  update_validated_state_map c v x = Ok c' →
  is_Some (validated_state_map c !! last_decided_view c ≫= leaf_commitment) →
  is_Some (validated_state_map c' !! last_decided_view c' ≫= leaf_commitment).
Proof using Type.
  intros [-> Hx]%update_map_ok Hd. simpl. destruct (decide (v = last_decided_view c)) as [->|Hn].
  - rewrite lookup_insert_eq. simpl. destruct Hd as [h Hd].
    destruct (validated_state_map c !! last_decided_view c) as [y|] eqn:Hy; [|done].
    simpl in Hd. apply leaf_commitment_Some in Hd as (s & d & e & ->).
    destruct (Hx _ _ _ _ eq_refl) as (? & ? & ? & ? & -> & _). by eexists.
  - by rewrite lookup_insert_ne.
Qed.

Lemma cons_inv_da c v e pc c' : update_da_view c v e pc = Ok c' → cons_inv c → cons_inv c'.
Proof using Type.
  intros Hu Hc. pose proof (update_map_decided _ _ _ _ Hu (inv_decided _ Hc)) as Hd.
  apply update_map_ok in Hu as [-> _]. split; simpl; [apply (inv_keys _ Hc)| |done].
  intros v' h s d e' Hv. apply lookup_insert_Some in Hv as [[_ ?]|[_ Hv]]; [done|].
  by eapply inv_views.
Qed.

Lemma cons_inv_leaf c leaf s d c' :
  leaf_ok leaf → update_leaf c leaf s d = Ok c' → cons_inv c → cons_inv c'.
Proof using Lm.
  intros Hwf Hu Hc. apply bind_ok_inv in Hu as (c1 & Hm & [= <-]).
  pose proof (update_map_decided _ _ _ _ Hm (inv_decided _ Hc)) as Hd.
  apply update_map_ok in Hm as [-> _]. split; simpl; [| |done].
  - intros h l Hl. apply lookup_insert_Some in Hl as [[<- <-]|[_ Hl]]; [done|].
    by apply (inv_keys _ Hc).
  - intros v h s' d' e Hv. apply lookup_insert_Some in Hv as [[<- [= <- _ _ _]]|[Hn Hv]].
    + exists leaf. by rewrite lookup_insert_eq.
    + destruct (inv_views _ Hc _ _ _ _ _ Hv) as (l & Hl & <-).
      destruct (decide (leaf2_commit leaf = h)) as [<-|Hne].
      * exists leaf. rewrite lookup_insert_eq. split; [done|].
        apply (inv_keys _ Hc) in Hl as [Hk [Hl _]].
        by destruct (leaf2_commit_inv _ _ (proj1 Hwf) Hl Hk) as [? _].
      * exists l. by rewrite lookup_insert_ne.
Qed.

(** ** Garbage collection *)

Lemma elem_of_gc_leaves c old gc h :
  h ∈ gc_leaves c old gc ↔
  ∃ v x, validated_state_map c !! v = Some x ∧ old <= v < gc ∧ leaf_commitment x = Some h.
Proof using Type.
  unfold gc_leaves. rewrite list_elem_of_omap. split.
  - intros ([v x] & Hx%elem_of_map_to_list & Hh). apply map_lookup_filter_Some in Hx as [Hx Hv]. eauto.
  - intros (v & x & Hx & Hv & Hh). exists (v, x). split; [|done].
    by apply elem_of_map_to_list, map_lookup_filter_Some.
Qed.

(** What a collection that does something leaves behind. *)
Record collected c (old new : ViewNumber) c' : Prop := {
  col_views v : validated_state_map c' !! v = split_off (validated_state_map c) (saturating_sub new 1) !! v;
  col_leaves h leaf : saved_leaves c' !! h = Some leaf ↔
    saved_leaves c !! h = Some leaf ∧ h ∉ gc_leaves c old (saturating_sub new 1);
  col_payloads : saved_payloads c' = split_off (saved_payloads c) (saturating_sub new 1);
  col_shares : vid_shares c' = split_off (vid_shares c) (saturating_sub new 1);
  col_proposals : last_proposals c' = split_off (last_proposals c) (saturating_sub new 1);
  col_certs v : saved_da_certs c' !! v = base.filter (fun kv => old <= kv.1) (saved_da_certs c) !! v;
  col_same : cur_view c' = cur_view c ∧ locked_view c' = locked_view c ∧ high_qc c' = high_qc c ∧
    last_actions c' = last_actions c ∧ cur_epoch c' = cur_epoch c ∧
    last_decided_view c' = last_decided_view c;
}.

Lemma collect_garbage_inv {E} c old new c' :
  collect_garbage (E:=E) c old new = Ok c' →
  (new <= old ∧ c' = c) ∨ (old < new ∧ collected c old new c').
Proof using Type.
  unfold collect_garbage. intros H. destruct (new <=? old) eqn:Hn; bool_facts.
  { left. by inversion H. }
  right. split; [done|]. case_bool_decide; [done|]. injection H as <-.
  split; simpl; try done. intros h leaf. apply foldl_delete_Some.
Qed.

(** It panics only without any view. *)
Lemma collect_garbage_ok {E} c old new :
  validated_state_map c ≠ ∅ → ∃ c', collect_garbage (E:=E) c old new = Ok c'.
Proof using Type.
  intros Hne. unfold collect_garbage. destruct (new <=? old); [by eexists|].
  rewrite bool_decide_eq_false_2 by done. by eexists.
Qed.

(** A leaf of a surviving view survives: a removed leaf is for a removed view. *)
Lemma collected_keeps c old new c' v x h leaf :
  cons_inv c → collected c old new c' → saturating_sub new 1 <= v →
  validated_state_map c !! v = Some x → leaf_commitment x = Some h →
  saved_leaves c !! h = Some leaf → saved_leaves c' !! h = Some leaf.
Proof using Type.
  intros Hc Hcol Hv Hx Hh Hl. apply (col_leaves _ _ _ _ Hcol). split; [done|].
  intros (w & y & Hy & Hw & Hyh)%elem_of_gc_leaves.
  destruct (inv_views' _ _ _ _ Hc Hx Hh) as (l1 & Hl1 & ?).
  destruct (inv_views' _ _ _ _ Hc Hy Hyh) as (l2 & Hl2 & ?). simplify_eq. lia.
Qed.

Lemma cons_inv_collected c old new c' :
  cons_inv c → collected c old new c' →
  (∀ h leaf, saved_leaves c' !! h = Some leaf → h = leaf2_commit leaf ∧ leaf_ok leaf) ∧
  (∀ v h s d e, validated_state_map c' !! v = Some (LeafView h s d e) →
     ∃ leaf, saved_leaves c' !! h = Some leaf ∧ leaf_view leaf = v).
Proof using Type.
  intros Hc Hcol. split.
  - intros h leaf [Hl _]%(col_leaves _ _ _ _ Hcol). by apply (inv_keys _ Hc).
  - intros v h s d e Hv. rewrite (col_views _ _ _ _ Hcol) in Hv. apply split_off_Some in Hv as [Hv Hge].
    destruct (inv_views _ Hc _ _ _ _ _ Hv) as (leaf & Hl & <-). exists leaf. split; [|done].
    by eapply collected_keeps.
Qed.

Lemma decide_view_inv c v c' :
  decide_view c v = Ok c' →
  last_decided_view c < v ∧
  ∃ c1, collected c (last_decided_view c) v c1 ∧ c' = set_last_decided_view c1 v.
Proof using Type.
  intros H. apply bind_ok_inv in H as (c1 & Hg & Hu).
  apply bind_ok_inv in Hu as ([] & Hlt%ensure_ok_inv & [= <-]). bool_facts.
  apply collect_garbage_inv in Hg as [[? ->]|[? Hcol]]; [lia|]. split; [done|]. eauto.
Qed.

Lemma decide_view_ok c v :
  cons_inv c → last_decided_view c < v → ∃ c', decide_view c v = Ok c'.
Proof using Type.
  intros Hc Hlt. destruct (inv_decided _ Hc) as [h Hh]. unfold decide_view.
  destruct (collect_garbage_ok (E:=Error) c (last_decided_view c) v) as [c1 Hg].
  { intros He. by rewrite He, lookup_empty in Hh. }
  rewrite Hg. mon. apply collect_garbage_inv in Hg as [[? _]|[_ Hcol]]; [lia|].
  destruct (col_same _ _ _ _ Hcol) as (_ & _ & _ & _ & _ & Hd).
  unfold update_last_decided_view. rewrite Hd, (proj2 (Z.ltb_lt _ _) Hlt). by eexists.
Qed.

Lemma cons_inv_decide c v c' :
  0 <= v → is_Some (validated_state_map c !! v ≫= leaf_commitment) →
  decide_view c v = Ok c' → cons_inv c → cons_inv c'.
Proof using Type.
  intros Hv0 Hv (Hlt & c1 & Hcol & ->)%decide_view_inv Hc.
  destruct (cons_inv_collected _ _ _ _ Hc Hcol) as [Hk Hvs]. split; simpl; [done|done|].
  rewrite (col_views _ _ _ _ Hcol), split_off_lookup; [done|]. unfold saturating_sub. lia.
Qed.

(** ** Critical sections

    A failed update leaves the state as it was, so only the successful ones are
    steps.  Tasks record well-formed leaves, and decide a view that has a leaf. *)

Inductive step c : Consensus → Prop :=
  | step_view v c' : update_view c v = Ok c' → step c c'
  | step_epoch e c' : update_epoch c e = Ok c' → step c c'
  | step_action a v : step c (update_action c a v).1
  | step_proposed p c' : update_proposed_view c p = Ok c' → step c c'
  | step_locked v c' : update_locked_view c v = Ok c' → step c c'
  | step_da v e pc c' : update_da_view c v e pc = Ok c' → step c c'
  | step_leaf leaf s d c' : leaf_ok leaf → update_leaf c leaf s d = Ok c' → step c c'
  | step_payload v p c' : update_saved_payloads c v p = Ok c' → step c c'
  | step_high_qc qc c' : update_high_qc c qc = Ok c' → step c c'
  | step_next_epoch_high_qc qc c' : update_next_epoch_high_qc c qc = Ok c' → step c c'
  | step_vid_share v p : step c (update_vid_shares c v p)
  | step_da_cert v cert : step c (update_saved_da_certs c v cert)
  | step_drb d : step c (set_drb_seeds_and_results c d)
  | step_decide v c' : 0 <= v → is_Some (validated_state_map c !! v ≫= leaf_commitment) →
      decide_view c v = Ok c' → step c c'.

Lemma bind_ensure_inv {E A} (b : bool) (e : E) (m : outcome E A) a :
  (_ ← ensure b e; m) = Ok a → b = true ∧ m = Ok a.
Proof using Type. by destruct b. Qed.

Lemma update_action_fields c a v :
  let c' := (update_action c a v).1 in
  saved_leaves c' = saved_leaves c ∧ validated_state_map c' = validated_state_map c ∧
  last_decided_view c' = last_decided_view c ∧ cur_view c' = cur_view c ∧
  locked_view c' = locked_view c ∧ high_qc c' = high_qc c ∧ cur_epoch c' = cur_epoch c ∧
  proposed (last_actions c) <= proposed (last_actions c') ∧
  voted (last_actions c) <= voted (last_actions c') ∧
  da_proposed (last_actions c) <= da_proposed (last_actions c') ∧
  da_vote (last_actions c) <= da_vote (last_actions c').
Proof using Type. destruct a; simpl; repeat case_match; simpl; bool_facts; split_and!; (done || lia). Qed.

Ltac inv_ensure :=
  repeat match goal with
  | H : (_ ← ensure _ _; _) = Ok _ |- _ => apply bind_ensure_inv in H as [? H]
  end.

Lemma step_inv c c' : step c c' → cons_inv c → cons_inv c'.
Proof using Lm.
  intros Hs Hc. destruct Hs as
    [v c' H|e c' H|a v|p c' H|v c' H|v e pc c' H|leaf s d c' Hwf H|v p c' H|qc c' H|qc c' H
    |v p|v cert|d|v c' H0 Hv H].
  6: by eapply cons_inv_da.
  6: by eapply cons_inv_leaf.
  12: by eapply cons_inv_decide.
  3: destruct (update_action_fields c a v) as (? & ? & ? & _); by eapply cons_inv_ext.
  all: try (by apply (cons_inv_ext c)).
  7: unfold update_next_epoch_high_qc in H; apply bind_ok_inv in H as ([] & _ & [= <-]);
     by apply (cons_inv_ext c).
  all: apply bind_ensure_inv in H as [_ [= <-]]; by apply (cons_inv_ext c).
Qed.

(** ** Progress *)

Definition epoch_le (a b : option EpochNumber) : Prop :=
  match a, b with None, _ => True | Some _, None => False | Some x, Some y => x <= y end.

Definition has_leaf (x : ViewInner) : bool := bool_decide (is_Some (leaf_commitment x)).
Definition has_delta (x : ViewInner) : bool := bool_decide (is_Some (view_state_and_delta x).2).

Record progress c c' : Prop := {
  pr_view : cur_view c <= cur_view c';
  pr_locked : locked_view c <= locked_view c';
  pr_decided : last_decided_view c <= last_decided_view c';
  pr_high_qc : view_number (high_qc c) <= view_number (high_qc c');
  pr_epoch : epoch_le (cur_epoch c) (cur_epoch c');
  pr_proposed : proposed (last_actions c) <= proposed (last_actions c');
  pr_voted : voted (last_actions c) <= voted (last_actions c');
  pr_da_proposed : da_proposed (last_actions c) <= da_proposed (last_actions c');
  pr_da_vote : da_vote (last_actions c) <= da_vote (last_actions c');
  (** A leaf, and its delta, stay until the view is older than the one before
      the decided view. *)
  pr_views v x : 0 <= v → last_decided_view c' - 1 <= v → validated_state_map c !! v = Some x →
    has_leaf x = true →
    ∃ x', validated_state_map c' !! v = Some x' ∧ has_leaf x' = true ∧
          (has_delta x = true → has_delta x' = true);
}.

#[global] Instance epoch_le_preorder : PreOrder epoch_le.
Proof using Type. split; [intros [x|]; simpl; lia|intros [x|] [y|] [z|]; simpl; try done; lia]. Qed.

#[global] Instance progress_preorder : PreOrder progress.
Proof using Type.
  split.
  - intros c. split; try done. intros v x _ _ ? ?. eauto.
  - intros c1 c2 c3 H1 H2. pose proof (pr_epoch _ _ H1) as He1. pose proof (pr_epoch _ _ H2) as He2.
    split; try (by etrans); try (destruct H1, H2; lia).
    intros v x Hv0 Hv Hx Hl. pose proof (pr_decided _ _ H2).
    destruct (pr_views _ _ H1 v x) as (y & Hy & Hyl & Hyd); [done|lia|done|done|].
    destruct (pr_views _ _ H2 v y) as (z & ? & ? & Hz); [done..|]. exists z. auto.
Qed.

Lemma progress_map c v x c' : update_validated_state_map c v x = Ok c' → progress c c'.
Proof using Type.
  intros [-> Hx]%update_map_ok. split; simpl; try lia; [done|].
  intros w y _ _ Hy Hyl. destruct (decide (v = w)) as [<-|Hn].
  - rewrite lookup_insert_eq. exists x. split; [done|]. unfold has_leaf, has_delta in *. bool_facts.
    destruct Hyl as [h (s & d & e & ->)%leaf_commitment_Some].
    destruct (Hx _ _ _ _ Hy) as (h' & s' & d' & e' & -> & Hd). simpl. split; [done|].
    intros Hd'%bool_decide_eq_true. by apply bool_decide_eq_true, Hd.
  - rewrite lookup_insert_ne by done. eauto.
Qed.

(** Updates that leave the state map alone. *)
Lemma progress_same c c' :
  validated_state_map c' = validated_state_map c → cur_view c <= cur_view c' →
  locked_view c <= locked_view c' → last_decided_view c <= last_decided_view c' →
  view_number (high_qc c) <= view_number (high_qc c') → epoch_le (cur_epoch c) (cur_epoch c') →
  last_actions c' = last_actions c → progress c c'.
Proof using Type. intros Hm ? ? ? ? ? Ha. split; rewrite ?Ha, ?Hm; try done; try lia. eauto. Qed.

Lemma progress_decide c v c' : decide_view c v = Ok c' → progress c c'.
Proof using Type.
  intros (Hlt & c1 & Hcol & ->)%decide_view_inv.
  destruct (col_same _ _ _ _ Hcol) as (H1 & H2 & H3 & H4 & H5 & _).
  split; simpl; rewrite ?H1, ?H2, ?H3, ?H4, ?H5; try lia; [done|].
  intros w x Hw0 Hw Hx Hl. rewrite (col_views _ _ _ _ Hcol). exists x.
  rewrite split_off_lookup; [done|]. unfold saturating_sub. lia.
Qed.

Lemma step_progress c c' : step c c' → progress c c'.
Proof using Type.
  intros Hs. destruct Hs as
    [v c' H|e c' H|a v|p c' H|v c' H|v e pc c' H|leaf s d c' Hwf H|v p c' H|qc c' H|qc c' H
    |v p|v cert|d|v c' H0 Hv H].
  6: by eapply progress_map.
  6: { apply bind_ok_inv in H as (c1 & Hm%progress_map & [= <-]). etrans; [done|by apply progress_same]. }
  12: by eapply progress_decide.
  3: { destruct (update_action_fields c a v) as (? & Hm & H3 & H4 & H5 & H6 & H7 & ? & ? & ? & ?).
       split; rewrite ?H3, ?H4, ?H5, ?H6, ?H7, ?Hm; try done; eauto. }
  7: unfold update_next_epoch_high_qc in H; apply bind_ok_inv in H as ([] & _ & [= <-]).
  1-6: apply bind_ensure_inv in H as [Hg [= <-]]; bool_facts.
  all: apply progress_same; simpl; try done; try lia.
  - by destruct (cur_epoch c); bool_facts; [simpl; lia|].
  - destruct Hg as [?|?]; bool_facts; [lia|by subst].
Qed.

(** ** The walk *)

Lemma parent_rank leaf : (rank (parent_commitment leaf) < rank (leaf2_commit leaf))%nat.
Proof using Type.
  apply (finalize_rank _ _ "parent leaf commitment"). unfold leaf2_items. simpl. right. left.
Qed.

Section Walk.
Context {S : Type} (c : Consensus) (t : Terminator) (ok : bool).
Context (f : Leaf2 → ValidatedState → option Delta → S → bool * S).

(** The saved leaves that a walk from [h] can still meet. *)
Definition below (h : Commitment) : gmap Commitment Leaf2 :=
  base.filter (fun kv => (rank kv.1 <= rank h)%nat) (saved_leaves c).

Lemma below_parent h leaf :
  cons_inv c → saved_leaves c !! h = Some leaf →
  (size (below (parent_commitment leaf)) < size (below h))%nat.
Proof using Type.
  intros Hc Hl. pose proof (proj1 (inv_keys _ Hc _ _ Hl)) as Hh. pose proof (parent_rank leaf) as Hr.
  rewrite <-Hh in Hr. apply map_subset_size. apply map_subset_alt. split.
  - apply map_subseteq_spec. intros k l [Hk Hle]%map_lookup_filter_Some.
    apply map_lookup_filter_Some. simpl in *. split; [done|lia].
  - exists h. split.
    + apply map_lookup_filter_None. right. intros l _. simpl. lia.
    + exists leaf. apply map_lookup_filter_Some. done.
Qed.

Lemma visit_loop_enough fuel h s :
  cons_inv c → (size (below h) < fuel)%nat → is_Some (visit_loop fuel c t ok f h s).
Proof using Type.
  intros Hc. revert h s. induction fuel as [|fuel IH]; intros h s Hf; [lia|]. simpl.
  destruct (saved_leaves c !! h) as [leaf|] eqn:Hl; [|done].
  destruct (state_and_delta c (leaf_view leaf)) as [[st|] d]; [|done].
  destruct (stop_before _ _); [done|]. destruct (f leaf st d s) as [[] s']; simpl; [|done].
  destruct (stop_after _ _); [done|]. apply IH. pose proof (below_parent h leaf Hc Hl). lia.
Qed.

(** More fuel does not change the result. *)
Lemma visit_loop_mono fuel k h s r :
  visit_loop fuel c t ok f h s = Some r → visit_loop (k + fuel) c t ok f h s = Some r.
Proof using Type.
  revert h s. induction fuel as [|fuel IH]; intros h s H; [done|].
  rewrite Nat.add_succ_r. simpl in *. repeat case_match; try done. by apply IH.
Qed.

Lemma visit_loop_total h s : cons_inv c → is_Some (visit_loop (visit_fuel c) c t ok f h s).
Proof using Rk.
  intros Hc. apply visit_loop_enough; [done|]. unfold visit_fuel, below.
  apply Nat.lt_succ_r, map_subseteq_size, map_filter_subseteq.
Qed.

(** The walk with some steps to unfold. *)
Lemma visit_loop_more k h s :
  cons_inv c → visit_loop (visit_fuel c) c t ok f h s = visit_loop (k + visit_fuel c) c t ok f h s.
Proof using Rk.
  intros Hc. destruct (visit_loop_total h s Hc) as [r Hr]. rewrite Hr. symmetry.
  by apply visit_loop_mono.
Qed.
End Walk.

Lemma visit_total {S} c v t ok (f : Leaf2 → ValidatedState → option Delta → S → bool * S) s :
  cons_inv c → is_Some (visit_leaf_ancestors c v t ok f s).
Proof using Rk.
  intros Hc. unfold visit_leaf_ancestors. repeat case_match; try done. by apply visit_loop_total.
Qed.

(** ** The extended QC *)

Definition parents_older c : Prop :=
  ∀ h leaf parent, saved_leaves c !! h = Some leaf →
    saved_leaves c !! parent_commitment leaf = Some parent → 0 <= leaf_view parent < leaf_view leaf.

(** Three saved leaves, from [l0] down, in consecutive views, for one block, with
    a state each. *)
Definition extended_chain c (l0 : Leaf2) : Prop :=
  is_last_block_in_epoch (height l0) (epoch_height c) = true ∧ is_Some (state c (leaf_view l0)) ∧
  ∃ l1 l2, saved_leaves c !! parent_commitment l0 = Some l1 ∧
    saved_leaves c !! parent_commitment l1 = Some l2 ∧
    leaf_view l1 = leaf_view l0 - 1 ∧ leaf_view l2 = leaf_view l0 - 2 ∧
    height l1 = height l0 ∧ height l2 = height l0 ∧
    is_Some (state c (leaf_view l1)) ∧ is_Some (state c (leaf_view l2)).

Lemma state_and_delta_state c v : (state_and_delta c v).1 = state c v.
Proof using Type. unfold state_and_delta, state. destruct (_ !! _) as [[]|]; done. Qed.

Lemma wrapper_sub_small v k : 0 <= k <= v → is_u64 v → wrapper_sub v k = v - k.
Proof using Type.
  unfold wrapper_sub, u64_sub, is_u64, u64_modulus. intros. apply Z.mod_small. lia.
Qed.

Lemma wrapper_sub_wraps v k : 0 <= v < k → k < u64_modulus → v < wrapper_sub v k.
Proof using Type.
  unfold wrapper_sub, u64_sub, u64_modulus. intros.
  replace ((v - k) mod 2 ^ 64) with (v - k + 2 ^ 64); [lia|].
  apply (Z.mod_unique_pos _ _ (-1)); lia.
Qed.

Lemma wrapper_sub_ne v k : is_u64 v → 0 < k < u64_modulus → wrapper_sub v k ≠ v.
Proof using Type.
  intros Hv Hk. destruct (decide (k <= v)).
  - rewrite wrapper_sub_small by (done || lia). lia.
  - unfold is_u64 in Hv. pose proof (wrapper_sub_wraps v k). lia.
Qed.

Lemma stop_below v w : is_u64 v → v - 1 = w → wrapper_sub v 2 ≠ w.
Proof using Type.
  intros Hv <-. unfold is_u64, u64_modulus in Hv. destruct (decide (2 <= v)).
  - rewrite wrapper_sub_small by (done || lia). lia.
  - pose proof (wrapper_sub_wraps v 2). unfold u64_modulus in *. lia.
Qed.

(** One round of the walk of [is_leaf_extended] at a leaf below the first. *)
Lemma extended_round fuel c stop start number h leaf last :
  saved_leaves c !! h = Some leaf → leaf_view leaf ≠ start →
  visit_loop (S fuel) c (Inclusive stop) true (extended_step start number) h (last, true) =
  match state c (leaf_view leaf) with
  | None => Some (Err InvalidState, (last, true))
  | Some _ =>
      if negb (wrapper_sub last 1 =? leaf_view leaf) || negb (number =? height leaf) then
        Some (Ok tt, (last, false))
      else if stop =? leaf_view leaf then Some (Ok tt, (leaf_view leaf, true))
      else visit_loop fuel c (Inclusive stop) true (extended_step start number)
             (parent_commitment leaf) (leaf_view leaf, true)
  end.
Proof using Type.
  intros Hl Hv. simpl. rewrite Hl, <-state_and_delta_state.
  destruct (state_and_delta c (leaf_view leaf)) as [[st|] d]; [|done]. simpl.
  destruct (Z.eqb_spec (leaf_view leaf) start); [done|].
  destruct (wrapper_sub last 1 =? leaf_view leaf); [|done].
  destruct (number =? height leaf); [|done]. simpl. done.
Qed.

Lemma missing_round fuel c t ok {S} (f : Leaf2 → ValidatedState → option Delta → S → bool * S) h s :
  saved_leaves c !! h = None → visit_loop (Datatypes.S fuel) c t ok f h s = Some (Err (MissingLeaf h), s).
Proof using Type. intros Hl. simpl. by rewrite Hl. Qed.

Lemma first_round fuel c stop number h leaf s :
  saved_leaves c !! h = Some leaf → is_Some (state c (leaf_view leaf)) → stop ≠ leaf_view leaf →
  visit_loop (S fuel) c (Inclusive stop) true (extended_step (leaf_view leaf) number) h s =
  visit_loop fuel c (Inclusive stop) true (extended_step (leaf_view leaf) number)
    (parent_commitment leaf) s.
Proof using Type.
  intros Hl Hst Hstop. simpl. rewrite Hl. rewrite <-state_and_delta_state in Hst.
  destruct (state_and_delta c (leaf_view leaf)) as [[st|] d]; [|by destruct Hst]. destruct s as [l b].
  simpl. rewrite Z.eqb_refl. simpl. destruct (Z.eqb_spec stop (leaf_view leaf)); done.
Qed.

(** [Some true] exactly on [Q]. *)
Definition decides (r : option bool) (Q : Prop) : Prop := ∃ b, r = Some b ∧ (b = true ↔ Q).

(** A branch on which the walk fails. *)
Ltac not_extended :=
  exists false; split; [done|]; split; [done|];
  intros (? & ? & ? & ? & ? & ? & ? & ? & ? & ? & ? & ?); simplify_eq;
  repeat match goal with H : is_Some _ |- _ => destruct H end; first [congruence|lia].

Lemma is_leaf_extended_iff c h l0 x :
  cons_inv c → parents_older c → is_u64 (leaf_view l0) → saved_leaves c !! h = Some l0 →
  validated_state_map c !! leaf_view l0 = Some x → leaf_commitment x = Some h →
  decides (is_leaf_extended c h) (extended_chain c l0).
Proof using Rk.
  intros Hc Hold Hu Hl Hx Hh. unfold is_leaf_extended, is_leaf_for_last_block, extended_chain, decides.
  rewrite Hl. destruct (is_last_block_in_epoch _ _); cbn [negb orb]; [|not_extended].
  assert (is_Some (state c (leaf_view l0))) as Hst.
  { apply leaf_commitment_Some in Hh as (st & d & e & ->). unfold state. rewrite Hx. by eexists. }
  unfold visit_leaf_ancestors. rewrite Hx, Hh, (visit_loop_more _ _ _ _ 3) by done.
  change (3 + visit_fuel c)%nat with (S (S (S (visit_fuel c)))).
  assert (wrapper_sub (leaf_view l0) 2 ≠ leaf_view l0) as Hs0 by (by apply wrapper_sub_ne).
  rewrite first_round by done.
  destruct (saved_leaves c !! parent_commitment l0) as [l1|] eqn:Hl1;
    [|rewrite missing_round by done; not_extended].
  pose proof (Hold _ _ _ Hl Hl1) as Hlt1. rewrite (extended_round _ _ _ _ _ _ l1) by (done || lia).
  destruct (state c (leaf_view l1)) as [st1|] eqn:Hst1; [|not_extended].
  rewrite (wrapper_sub_small (leaf_view l0) 1) by (done || lia).
  destruct (Z.eqb_spec (leaf_view l0 - 1) (leaf_view l1)) as [Hv1|Hv1]; cbn [negb orb]; [|not_extended].
  destruct (Z.eqb_spec (height l0) (height l1)) as [Hh1|Hh1]; cbn [negb orb]; [|not_extended].
  rewrite (proj2 (Z.eqb_neq _ _)) by (by apply stop_below).
  destruct (saved_leaves c !! parent_commitment l1) as [l2|] eqn:Hl2;
    [|rewrite missing_round by done; not_extended].
  pose proof (Hold _ _ _ Hl1 Hl2) as Hlt2. rewrite (extended_round _ _ _ _ _ _ l2) by (done || lia).
  destruct (state c (leaf_view l2)) as [st2|] eqn:Hst2; [|not_extended].
  unfold is_u64 in Hu. rewrite !wrapper_sub_small by (unfold is_u64; lia).
  destruct (Z.eqb_spec (leaf_view l1 - 1) (leaf_view l2)) as [Hv2|Hv2]; cbn [negb orb]; [|not_extended].
  destruct (Z.eqb_spec (height l0) (height l2)) as [Hh2|Hh2]; cbn [negb orb]; [|not_extended].
  rewrite (proj2 (Z.eqb_eq _ _)) by lia. exists true. split; [done|]. split; [|done]. intros _.
  do 2 (split; [done|]). exists l1, l2. rewrite Hst1, Hst2. split_and!; done || lia || by eexists.
Qed.

(** ** Helpers of the properties *)

Lemma steps_inv c c' : rtc step c c' → cons_inv c → cons_inv c' ∧ progress c c'.
Proof using Lm.
  induction 1 as [c|c1 c2 c3 Hs _ IH]; intros Hc; [done|].
  destruct IH as [? ?]; [by eapply step_inv|]. split; [done|]. etrans; [by apply step_progress|done].
Qed.

Lemma decided_leaf_ok {E} c :
  cons_inv c →
  ∃ leaf s, decided_leaf (E:=E) c = Ok leaf ∧ decided_state (E:=E) c = Ok s ∧
    leaf_view leaf = last_decided_view c.
Proof using Type.
  intros Hc. destruct (inv_decided _ Hc) as [h Hh]. unfold decided_leaf, decided_state, state_and_delta.
  destruct (validated_state_map c !! last_decided_view c) as [x|] eqn:Hx; [|done]. simpl in Hh.
  destruct (inv_views' _ _ _ _ Hc Hx Hh) as (leaf & Hl & Hv).
  apply leaf_commitment_Some in Hh as (s & d & e & ->). exists leaf, s. simpl. by rewrite Hl.
Qed.

(** The actions that [update_action] guards. *)
Definition guarded_view (a : HotShotAction) (views : HotShotActionViews) : option ViewNumber :=
  match a with
  | Vote => Some (voted views) | Propose => Some (proposed views)
  | DaPropose => Some (da_proposed views) | _ => None
  end.

Lemma update_action_guarded c a v w :
  guarded_view a (last_actions c) = Some w →
  (update_action c a v).2 = (w <? v) ∧
  ((update_action c a v).2 = true → guarded_view a (last_actions (update_action c a v).1) = Some v).
Proof using Type. destruct a; simpl; intros; simplify_eq; repeat case_match; done. Qed.

Lemma guarded_view_progress c c' a w :
  progress c c' → guarded_view a (last_actions c) = Some w →
  ∃ w', guarded_view a (last_actions c') = Some w' ∧ w <= w'.
Proof using Type. intros [] H. destruct a; simplify_eq/=; eauto. Qed.

(** A saved leaf that no view refers to. *)
Definition leaked c (h : Commitment) : Prop :=
  is_Some (saved_leaves c !! h) ∧
  ∀ v x, validated_state_map c !! v = Some x → leaf_commitment x ≠ Some h.

Lemma leaked_collect {E} c old new c' h :
  collect_garbage (E:=E) c old new = Ok c' → leaked c h → leaked c' h.
Proof using Type.
  intros [[_ ->]|[_ Hcol]]%collect_garbage_inv [[leaf Hl] Hno]; [by split; [eexists|]|]. split.
  - exists leaf. apply (col_leaves _ _ _ _ Hcol). split; [done|].
    intros (v & x & Hx & _ & Hh)%elem_of_gc_leaves. by eapply Hno.
  - intros v x Hx. rewrite (col_views _ _ _ _ Hcol) in Hx. apply split_off_Some in Hx as [Hx _].
    by eapply Hno.
Qed.
End ConsensusProofs.

(** ** Properties *)

Section ConsensusProperties.
Context `{Sg : SignatureScheme} `{Cm : Committable} `{Vt : VidTypes} `{Vs : Versions}.
Context `{Bt : !BlockTypes} `{Vd : !VidScheme}.
Context {Lm : CommittableLaws Cm} {Rk : CommitmentRank Cm}.
Implicit Types (c : Consensus) (leaf : Leaf2).

(** C9. Every state reachable by the critical sections of the tasks keeps the
    consensus invariant; the current, locked, decided and high-QC views, the
    epoch and the action views never decrease; a leaf and its state delta are
    kept until a later view is decided; and reading the decided leaf and state
    never panics and gives the leaf of the decided view. *)
Theorem consensus_state_safe c c' :
  cons_inv c → rtc step c c' →
  cons_inv c' ∧ progress c c' ∧
  ∃ leaf s, decided_leaf (E:=Error) c' = Ok leaf ∧ decided_state (E:=Error) c' = Ok s ∧
    leaf_view leaf = last_decided_view c'.
Proof using Lm.
  intros Hc Hs. destruct (steps_inv c c' Hs Hc) as [Hc' Hp].
  split; [done|]. split; [done|]. by apply decided_leaf_ok.
Qed.

(** A node never acts twice: when [update_action] permits a vote (a proposal,
    a DA proposal) for view [v], and after any further steps of the tasks permits
    one for view [w], then [v < w]; in particular never twice for one view. *)
Theorem no_double_action c c' a v w :
  (a = Vote ∨ a = Propose ∨ a = DaPropose) →
  (update_action c a v).2 = true → rtc step (update_action c a v).1 c' →
  (update_action c' a w).2 = true → v < w.
Proof using Type.
  intros Ha Hv Hs Hw.
  assert (∃ u, guarded_view a (last_actions c) = Some u) as [u Hu] by (destruct Ha as [->|[->| ->]]; by eexists).
  destruct (update_action_guarded c a v u Hu) as [_ Hg]. specialize (Hg Hv).
  assert (progress (update_action c a v).1 c') as Hp.
  { clear -Hs. induction Hs as [|c1 c2 c3 H _ IH]; [done|]. etrans; [by apply step_progress|done]. }
  destruct (guarded_view_progress _ _ _ _ Hp Hg) as (u' & Hu' & Hle).
  destruct (update_action_guarded c' a w u' Hu') as [Hr _]. rewrite Hr in Hw. bool_facts. lia.
Qed.

(** C21. The walk along the ancestors ends: with the leaves keyed by their
    commitments, [visit_leaf_ancestors] returns within one round more than the
    number of saved leaves, whatever the terminator and the closure, and more
    rounds give the same result. *)
Theorem visit_leaf_ancestors_terminates {S} c v t ok
    (f : Leaf2 → ValidatedState → option Delta → S → bool * S) (s : S) h k :
  cons_inv c →
  is_Some (visit_leaf_ancestors c v t ok f s) ∧
  visit_loop (k + visit_fuel c) c t ok f h s = visit_loop (visit_fuel c) c t ok f h s.
Proof using Rk. intros Hc. split; [by apply visit_total|]. symmetry. by apply visit_loop_more. Qed.

(** Extended QCs: on the leaf of its view, [is_leaf_extended] answers, and
    answers true exactly when the leaf, its parent and its grandparent are saved
    with a state, are for the same block, the last of an epoch, and are in three
    consecutive views. *)
Theorem leaf_extended_iff c h leaf x :
  cons_inv c → parents_older c → is_u64 (leaf_view leaf) → saved_leaves c !! h = Some leaf →
  validated_state_map c !! leaf_view leaf = Some x → leaf_commitment x = Some h →
  ∃ b, is_leaf_extended c h = Some b ∧
    (b = true ↔
       is_last_block_in_epoch (height leaf) (epoch_height c) = true ∧ is_Some (state c (leaf_view leaf)) ∧
       ∃ l1 l2, saved_leaves c !! parent_commitment leaf = Some l1 ∧
         saved_leaves c !! parent_commitment l1 = Some l2 ∧
         leaf_view l1 = leaf_view leaf - 1 ∧ leaf_view l2 = leaf_view leaf - 2 ∧
         height l1 = height leaf ∧ height l2 = height leaf ∧
         is_Some (state c (leaf_view l1)) ∧ is_Some (state c (leaf_view l2))).
Proof using Rk. intros. by eapply is_leaf_extended_iff. Qed.

(** Garbage collection is exact on views and keeps what is needed: after
    deciding [new], the views, payloads, VID shares and proposals from [new - 1]
    on are unchanged and the older ones gone, and every leaf of a surviving view
    is still saved. *)
Theorem decide_view_collects c new c' :
  cons_inv c → 0 < new → decide_view c new = Ok c' →
  last_decided_view c' = new ∧
  (∀ v, validated_state_map c' !! v = if new - 1 <=? v then validated_state_map c !! v else None) ∧
  (∀ v, saved_payloads c' !! v = if new - 1 <=? v then saved_payloads c !! v else None) ∧
  (∀ v, vid_shares c' !! v = if new - 1 <=? v then vid_shares c !! v else None) ∧
  (∀ v, last_proposals c' !! v = if new - 1 <=? v then last_proposals c !! v else None) ∧
  (∀ v x h, validated_state_map c' !! v = Some x → leaf_commitment x = Some h →
     is_Some (saved_leaves c !! h) ∧ saved_leaves c' !! h = saved_leaves c !! h).
Proof using Type.
  intros Hc Hpos (Hlt & c1 & Hcol & ->)%decide_view_inv. simpl.
  assert (saturating_sub new 1 = new - 1) as Hgc by (unfold saturating_sub; lia).
  assert (∀ A (m : gmap Z A) v, split_off m (saturating_sub new 1) !! v =
            if new - 1 <=? v then m !! v else None) as Hso.
  { intros A m v. rewrite Hgc. destruct (Z.leb_spec (new - 1) v);
      [by apply split_off_lookup|by apply split_off_None]. }
  split; [done|]. rewrite (col_payloads _ _ _ _ Hcol), (col_shares _ _ _ _ Hcol), (col_proposals _ _ _ _ Hcol).
  split_and!; try done; [intros v; rewrite (col_views _ _ _ _ Hcol); apply Hso|].
  intros v x h Hx Hh. rewrite (col_views _ _ _ _ Hcol) in Hx. apply split_off_Some in Hx as [Hx Hv].
  destruct (inv_views' _ _ _ _ Hc Hx Hh) as (leaf & Hl & _). rewrite Hl. split; [by eexists|].
  by eapply collected_keeps.
Qed.

(** Garbage collection forgets a leaf: the leaf of a view below the previous
    anchor, in particular of the view just before it, which the previous
    collection kept, loses its view but stays in [saved_leaves], and no later
    collection removes it. *)
Theorem collect_garbage_leaks {E} c old new c' v x h :
  cons_inv c → validated_state_map c !! v = Some x → leaf_commitment x = Some h →
  v < old → old < new → collect_garbage (E:=E) c old new = Ok c' →
  is_Some (saved_leaves c' !! h) ∧ validated_state_map c' !! v = None ∧
  ∀ old' new' c'', collect_garbage (E:=E) c' old' new' = Ok c'' → is_Some (saved_leaves c'' !! h).
Proof using Type.
  intros Hc Hx Hh Hv Hn Hg. pose proof Hg as [[? _]|[_ Hcol]]%collect_garbage_inv; [lia|].
  assert (v < saturating_sub new 1) as Hvg by (unfold saturating_sub; lia).
  destruct (inv_views' _ _ _ _ Hc Hx Hh) as (leaf & Hl & Hlv).
  assert (leaked c' h) as Hlk.
  { split.
    - exists leaf. apply (col_leaves _ _ _ _ Hcol). split; [done|].
      intros (w & y & Hy & Hw & Hyh)%elem_of_gc_leaves.
      destruct (inv_views' _ _ _ _ Hc Hy Hyh) as (leaf' & ? & ?). simplify_eq. lia.
    - intros w y Hy Hyh. rewrite (col_views _ _ _ _ Hcol) in Hy. apply split_off_Some in Hy as [Hy Hw].
      destruct (inv_views' _ _ _ _ Hc Hy Hyh) as (leaf' & ? & ?). simplify_eq. lia. }
  split; [apply Hlk|]. split; [rewrite (col_views _ _ _ _ Hcol); by apply split_off_None|].
  intros old' new' c'' Hg2. by apply (leaked_collect _ _ _ _ _ Hg2 Hlk).
Qed.
End ConsensusProperties.

(** ** Witnesses

    Epochs of ten blocks; view 0 has block 9, and views 4, 5 and 6 block 10. *)

Module ConsDemo.
#[global] Existing Instance Ideal.open_signatures.

Definition l0 : Leaf2 := DataDemo.leaf 0 9 (Ideal.digest 0) None.
Definition l4 : Leaf2 := DataDemo.leaf 4 10 (leaf2_commit l0) None.
Definition l5 : Leaf2 := DataDemo.leaf 5 10 (leaf2_commit l4) None.
Definition l6 : Leaf2 := DataDemo.leaf 6 10 (leaf2_commit l5) None.

Definition start : Consensus :=
  Consensus_new {[0 := LeafView (leaf2_commit l0) 0 None None]} None 1 None 0 0 0 ∅
    {[leaf2_commit l0 := l0]} ∅ (DataDemo.qc 0 (leaf2_commit l0)) None 10.

(** Record a leaf with its view as the state. *)
Definition add (c : Consensus) (l : Leaf2) : Consensus :=
  match update_leaf c l (leaf_view l) (Some tt) with Ok c' => c' | _ => c end.

Definition view_of (l : Leaf2) : ViewInner := LeafView (leaf2_commit l) (leaf_view l) (Some tt) None.

Definition chain : Consensus := foldl add start [l4; l5; l6].

Lemma demo_leaf_ok view number parent u : leaf_ok (DataDemo.leaf view number parent u).
Proof. split; [exact I|reflexivity]. Qed.

Lemma start_inv : cons_inv start.
Proof.
  split.
  - intros h l Hl. cbn in Hl. apply lookup_singleton_Some in Hl as [<- <-].
    split; [reflexivity|apply demo_leaf_ok].
  - intros v h s d e Hv. cbn in Hv. apply lookup_singleton_Some in Hv as [<- [= <- _ _ _]]. exists l0.
    split; [apply lookup_singleton_eq|done].
  - by eexists.
Qed.

Lemma add_step c l : leaf_ok l → rtc step c (add c l).
Proof.
  intros Hl. unfold add. destruct (update_leaf _ _ _ _) as [c'|e|] eqn:Hu; [|done|done].
  apply rtc_once. by eapply (step_leaf c l).
Qed.

Lemma chain_steps : rtc step start chain.
Proof.
  unfold chain. generalize start. assert (Forall leaf_ok [l4; l5; l6]) as Hwf
    by (repeat constructor; apply demo_leaf_ok).
  induction Hwf as [|l ls Hl _ IH]; intros c; simpl; [done|]. etrans; [by apply add_step|apply IH].
Qed.

Lemma chain_inv : cons_inv chain.
Proof. by apply (steps_inv start chain chain_steps start_inv). Qed.

Lemma chain_saved l : l ∈ [l6; l5; l4; l0] → saved_leaves chain !! leaf2_commit l = Some l.
Proof.
  assert (∀ l l', leaf_wf l → leaf_wf l' → leaf_view l ≠ leaf_view l' → leaf2_commit l ≠ leaf2_commit l') as Hne.
  { intros a b Ha Hb Hv He. by destruct (leaf2_commit_inv a b Ha Hb He) as [? _]. }
  change (saved_leaves chain) with
    (<[leaf2_commit l6 := l6]> (<[leaf2_commit l5 := l5]> (<[leaf2_commit l4 := l4]>
      ({[leaf2_commit l0 := l0]} : gmap Commitment Leaf2)))).
  rewrite !elem_of_cons, elem_of_nil. intros [->|[->|[->|[->|[]]]]];
    repeat (rewrite lookup_insert_ne by (by apply Hne)); rewrite ?lookup_insert_eq, ?lookup_singleton_eq; done.
Qed.

Lemma chain_leaves h l :
  saved_leaves chain !! h = Some l →
  (h = leaf2_commit l6 ∧ l = l6) ∨ (h = leaf2_commit l5 ∧ l = l5) ∨
  (h = leaf2_commit l4 ∧ l = l4) ∨ (h = leaf2_commit l0 ∧ l = l0).
Proof.
  change (saved_leaves chain) with
    (<[leaf2_commit l6 := l6]> (<[leaf2_commit l5 := l5]> (<[leaf2_commit l4 := l4]>
      ({[leaf2_commit l0 := l0]} : gmap Commitment Leaf2)))).
  rewrite !lookup_insert_Some, lookup_singleton_Some. naive_solver.
Qed.

Lemma chain_older : parents_older chain.
Proof.
  assert (∀ l p, leaf_ok l → saved_leaves chain !! leaf2_commit l = Some p → leaf_view p = leaf_view l) as Hv.
  { intros l p Hl Hp. apply (inv_keys _ chain_inv) in Hp as [Hk Hp].
    by destruct (leaf2_commit_inv l p (proj1 Hl) (proj1 Hp) Hk) as [? _]. }
  intros h l p [[-> ->]|[[-> ->]|[[-> ->]|[-> ->]]]]%chain_leaves Hp.
  - apply (Hv l5 p (demo_leaf_ok _ _ _ _)) in Hp. rewrite Hp. split; [discriminate|reflexivity].
  - apply (Hv l4 p (demo_leaf_ok _ _ _ _)) in Hp. rewrite Hp. split; [discriminate|reflexivity].
  - apply (Hv l0 p (demo_leaf_ok _ _ _ _)) in Hp. rewrite Hp. split; [discriminate|reflexivity].
  - apply (inv_keys _ chain_inv) in Hp as [Hp _]. discriminate Hp.
Qed.
End ConsDemo.

Lemma consensus_state_safe_witness :
  ∃ leaf s, decided_leaf (E:=Error) ConsDemo.chain = Ok leaf ∧
    decided_state (E:=Error) ConsDemo.chain = Ok s ∧
    leaf_view leaf = last_decided_view ConsDemo.chain.
Proof.
  apply (consensus_state_safe ConsDemo.start ConsDemo.chain ConsDemo.start_inv ConsDemo.chain_steps).
Defined.

Lemma no_double_action_witness :
  (update_action (update_action ConsDemo.chain Vote 3).1 Vote 4).2 = true ∧ 3 < 4.
Proof.
  split; [reflexivity|].
  apply (no_double_action ConsDemo.chain (update_action ConsDemo.chain Vote 3).1 Vote 3 4);
    [by left|reflexivity|apply rtc_refl|reflexivity].
Defined.

Lemma visit_leaf_ancestors_terminates_witness :
  is_Some (visit_leaf_ancestors ConsDemo.chain 6 (Exclusive 0) true
    (fun l _ _ seen => (true, leaf_view l :: seen)) []).
Proof.
  apply (visit_leaf_ancestors_terminates ConsDemo.chain 6 (Exclusive 0) true
    (fun l _ _ seen => (true, leaf_view l :: seen)) [] (leaf2_commit ConsDemo.l6) 0).
  exact ConsDemo.chain_inv.
Defined.

Lemma leaf_extended_iff_witness :
  is_leaf_extended ConsDemo.chain (leaf2_commit ConsDemo.l6) = Some true.
Proof.
  destruct (leaf_extended_iff ConsDemo.chain (leaf2_commit ConsDemo.l6) ConsDemo.l6
    (ConsDemo.view_of ConsDemo.l6)) as (b & Hb & Hiff).
  - exact ConsDemo.chain_inv.
  - exact ConsDemo.chain_older.
  - split; [discriminate|reflexivity].
  - apply ConsDemo.chain_saved. left.
  - reflexivity.
  - reflexivity.
  - rewrite Hb. f_equal. apply Hiff. split; [reflexivity|]. split; [by eexists|].
    exists ConsDemo.l5, ConsDemo.l4.
    split; [apply (ConsDemo.chain_saved ConsDemo.l5); right; left|].
    split; [apply (ConsDemo.chain_saved ConsDemo.l4); right; right; left|].
    split_and!; try reflexivity; by eexists.
Defined.

Lemma decide_view_collects_witness : ∃ c, decide_view ConsDemo.chain 5 = Ok c ∧ last_decided_view c = 5.
Proof.
  destruct (decide_view_ok ConsDemo.chain 5 ConsDemo.chain_inv) as [c Hc]; [reflexivity|].
  exists c. split; [exact Hc|]. apply (decide_view_collects ConsDemo.chain 5 c ConsDemo.chain_inv); [lia|exact Hc].
Defined.

Lemma collect_garbage_leaks_witness :
  ∃ c, collect_garbage (E:=Error) ConsDemo.chain 5 6 = Ok c ∧
    is_Some (saved_leaves c !! leaf2_commit ConsDemo.l4).
Proof.
  destruct (collect_garbage_ok (E:=Error) ConsDemo.chain 5 6) as [c Hc].
  { intros He. apply (f_equal (lookup 6)) in He. discriminate He. }
  exists c. split; [exact Hc|].
  apply (collect_garbage_leaks (E:=Error) ConsDemo.chain 5 6 c 4
    (ConsDemo.view_of ConsDemo.l4) (leaf2_commit ConsDemo.l4) ConsDemo.chain_inv);
  [reflexivity|reflexivity|lia|lia|exact Hc].
Defined.
