(* ===== verification/Decide.v ===== *)
(** * Deciding leaves

    The leaf chain traversals of [task-impls/src/helpers.rs]: when a validated
    proposal arrives, which view to lock, which view to decide, and which leaves
    to report.  [decide_from_proposal_2] is the rule of HotStuff-2 (two
    consecutive views), used from the epochs version on; [decide_from_proposal]
    is the chained HotStuff rule (three consecutive views).

    The loops follow hash links between saved leaves; fuel and termination are as
    for [visit_leaf_ancestors]. *)

From S2P Require Import Prelude Epochs Crypto Committee Votes Certificates VoteCollection Data Vid Consensus ConsensusProofs.

(** The callbacks of [Membership] at an epoch root. *)
Class EpochRoots `{Bt : BlockTypes} (M : Type) := {
  add_epoch_root : M → EpochNumber → BlockHeader → option (M → M);
  sync_l1 : M → option (M → M);
}.

Section Decide.
Context `{Sg : SignatureScheme} `{Cm : Committable} `{Vt : VidTypes} `{Vs : Versions}.
Context `{Bt : !BlockTypes} `{Vd : !VidScheme}.
Context {M : Type} `{Er : !EpochRoots M}.

Definition decide_epoch_root (decided_leaf : Leaf2) (epoch_height : Z) (membership : M) : M :=
  let decided_block_number := block_number (block_header decided_leaf) in
  if negb (epoch_height =? 0) && is_epoch_root decided_block_number epoch_height then
    let next_epoch_number := u64_add (epoch_from_block_number decided_block_number epoch_height) 1 in
    match add_epoch_root membership next_epoch_number (block_header decided_leaf) with
    | None => membership
    | Some write_callback =>
        let membership := write_callback membership in
        match sync_l1 membership with
        | Some write_callback => write_callback membership
        | None => membership
        end
    end
  else membership.

Record LeafChainTraversalOutcome := {
  new_locked_view_number : option ViewNumber;
  new_decided_view_number : option ViewNumber;
  new_decide_qc : option QuorumCertificate2;
  leaf_views : list LeafInfo;
  included_txns : option (gset Commitment);
  decided_upgrade_cert : option UpgradeCertificate;
}.

Definition outcome_default : LeafChainTraversalOutcome :=
  {| new_locked_view_number := None; new_decided_view_number := None; new_decide_qc := None;
     leaf_views := []; included_txns := None; decided_upgrade_cert := None |}.

(** [if with_epochs && res.new_decided_view_number.is_some() { .. }] *)
Definition decide_epochs (with_epochs : bool) (epoch_height : Z) (membership : M)
    (res : LeafChainTraversalOutcome) : M :=
  if with_epochs && bool_decide (is_Some (new_decided_view_number res)) then
    match last (leaf_views res) with
    | Some decided_leaf_info => decide_epoch_root (li_leaf decided_leaf_info) epoch_height membership
    | None => membership
    end
  else membership.

(** A certificate that is new and in time replaces the one found so far. *)
Definition decided_cert (leaf : Leaf2) (existing : option UpgradeCertificate) (deadline : ViewNumber)
    (found : option UpgradeCertificate) : option UpgradeCertificate :=
  match upgrade_certificate leaf with
  | None => found
  | Some cert =>
      if bool_decide (Some cert = existing) then found
      else if decide_by (data cert) <? deadline then found
      else Some cert
  end.

(** ** HotStuff-2 *)

(** What the [while] loop accumulates: [res.leaf_views],
    [res.decided_upgrade_cert] and [txns]. *)
Record walk2 := {
  w_leaf_views : list LeafInfo;
  w_cert : option UpgradeCertificate;
  w_txns : gset Commitment;
}.

Definition set_li_leaf (i : LeafInfo) (leaf : Leaf2) : LeafInfo :=
  {| li_leaf := leaf; li_state := li_state i; li_delta := li_delta i;
     li_vid_share := li_vid_share i |}.

(** [if let Some(payload) = consensus_reader.saved_payloads().get(&view)] *)
Definition fill_saved (c : Consensus) (leaf : Leaf2) : Leaf2 :=
  match saved_payloads c !! leaf_view leaf with
  | Some payload => fill_block_payload_unchecked leaf payload
  | None => leaf
  end.

Definition leaf_txns (leaf : Leaf2) : list Commitment :=
  match block_payload leaf with
  | Some payload => transaction_commitments payload (header_metadata (block_header leaf))
  | None => []
  end.

(** The body of the loop: the entry is pushed before its payload is filled. *)
Definition walk2_body (c : Consensus) (existing : option UpgradeCertificate)
    (decided_view_number : ViewNumber) (info : LeafInfo) (w : walk2) : LeafInfo * walk2 :=
  let cert := decided_cert (li_leaf info) existing decided_view_number (w_cert w) in
  let views := w_leaf_views w ++ [info] in
  let info := set_li_leaf info (fill_saved c (li_leaf info)) in
  (info, {| w_leaf_views := views; w_cert := cert;
            w_txns := w_txns w ∪ list_to_set (leaf_txns (li_leaf info)) |}).

(** [None] when the fuel runs out. *)
Fixpoint walk2_loop (fuel : nat) (c : Consensus) (public_key : PubKey)
    (existing : option UpgradeCertificate) (old_anchor_view decided_view_number : ViewNumber)
    (current_leaf_info : option LeafInfo) (w : walk2) : option walk2 :=
  match current_leaf_info with
  | None => Some w
  | Some info =>
      if old_anchor_view <? leaf_view (li_leaf info) then
        match fuel with
        | O => None
        | S fuel =>
            let '(info, w) := walk2_body c existing decided_view_number info w in
            walk2_loop fuel c public_key existing old_anchor_view decided_view_number
              (parent_leaf_info c (li_leaf info) public_key) w
        end
      else Some w
  end.

Definition decide_from_proposal_2 (proposal : QuorumProposal2) (c : Consensus)
    (existing_upgrade_cert : option UpgradeCertificate) (public_key : PubKey) (with_epochs : bool)
    (membership : M) : option (LeafChainTraversalOutcome * M) :=
  let proposed_leaf := leaf2_from_quorum_proposal proposal in
  let locked := Some (view_number (justify_qc proposed_leaf)) in
  let res := {| new_locked_view_number := locked; new_decided_view_number := None;
                new_decide_qc := None; leaf_views := []; included_txns := None;
                decided_upgrade_cert := None |} in
  match parent_leaf_info c proposed_leaf public_key with
  | None => Some (res, membership)
  | Some parent_info =>
      match parent_leaf_info c (li_leaf parent_info) public_key with
      | None => Some (res, membership)
      | Some grand_parent_info =>
          if negb (wrapper_add (leaf_view (li_leaf grand_parent_info)) 1 =?
                   leaf_view (li_leaf parent_info)) then Some (res, membership)
          else
            let decided_view_number := leaf_view (li_leaf grand_parent_info) in
            w ← walk2_loop (visit_fuel c) c public_key existing_upgrade_cert (last_decided_view c)
                  decided_view_number (Some grand_parent_info)
                  {| w_leaf_views := []; w_cert := None; w_txns := ∅ |};
            let res := {| new_locked_view_number := locked;
                          new_decided_view_number := Some decided_view_number;
                          new_decide_qc := Some (justify_qc (li_leaf parent_info));
                          leaf_views := w_leaf_views w;
                          included_txns := if bool_decide (w_txns w = ∅) then None
                                           else Some (w_txns w);
                          decided_upgrade_cert := w_cert w |} in
            Some (res, decide_epochs with_epochs (epoch_height c) membership res)
      end
  end.

(** ** Chained HotStuff *)

(** The variables captured by the closure of [decide_from_proposal]. *)
Record walk3 := {
  last_view_number_visited : ViewNumber;
  current_chain_length : nat;
  w_res : LeafChainTraversalOutcome;
}.

Definition set_chain (r : LeafChainTraversalOutcome) (locked decided : option ViewNumber)
    (qc : option QuorumCertificate2) : LeafChainTraversalOutcome :=
  {| new_locked_view_number := locked; new_decided_view_number := decided; new_decide_qc := qc;
     leaf_views := leaf_views r; included_txns := included_txns r;
     decided_upgrade_cert := decided_upgrade_cert r |}.

(** The first part: extend the chain while nothing is decided.  [None]: the
    closure returns [false]. *)
Definition extend_chain (leaf : Leaf2) (s : walk3) : option walk3 :=
  match new_decided_view_number (w_res s) with
  | Some _ => Some s
  | None =>
      if last_view_number_visited s =? wrapper_add (leaf_view leaf) 1 then
        let len := S (current_chain_length s) in
        let r := w_res s in
        let r :=
          if (len =? 2)%nat then
            set_chain r (Some (leaf_view leaf)) (new_decided_view_number r) (Some (justify_qc leaf))
          else if (len =? 3)%nat then
            set_chain r (new_locked_view_number r) (Some (leaf_view leaf)) (new_decide_qc r)
          else r in
        Some {| last_view_number_visited := leaf_view leaf; current_chain_length := len; w_res := r |}
      else None
  end.

(** The second part: record a decided leaf. *)
Definition record_decided (c : Consensus) (public_key : PubKey) (existing : option UpgradeCertificate)
    (proposal_view : ViewNumber) (leaf : Leaf2) (state : ValidatedState) (delta : option Delta)
    (r : LeafChainTraversalOutcome) : LeafChainTraversalOutcome :=
  let cert := decided_cert leaf existing proposal_view (decided_upgrade_cert r) in
  let leaf := fill_saved c leaf in
  let info := {| li_leaf := leaf; li_state := state; li_delta := delta;
                 li_vid_share := vid_share_of c (leaf_view leaf) public_key |} in
  {| new_locked_view_number := new_locked_view_number r;
     new_decided_view_number := new_decided_view_number r;
     new_decide_qc := new_decide_qc r;
     leaf_views := leaf_views r ++ [info];
     included_txns := match block_payload leaf with
                      | Some _ => Some (list_to_set (leaf_txns leaf))
                      | None => included_txns r
                      end;
     decided_upgrade_cert := cert |}.

(** The closure. *)
Definition decide_step (c : Consensus) (public_key : PubKey) (existing : option UpgradeCertificate)
    (proposal_view : ViewNumber) (leaf : Leaf2) (state : ValidatedState) (delta : option Delta)
    (s : walk3) : bool * walk3 :=
  match extend_chain leaf s with
  | None => (false, s)
  | Some s =>
      match new_decided_view_number (w_res s) with
      | None => (true, s)
      | Some _ =>
          (true, {| last_view_number_visited := last_view_number_visited s;
                    current_chain_length := current_chain_length s;
                    w_res := record_decided c public_key existing proposal_view leaf state delta
                               (w_res s) |})
      end
  end.

Definition decide_from_proposal (proposal : QuorumProposal2) (c : Consensus)
    (existing_upgrade_cert : option UpgradeCertificate) (public_key : PubKey) (with_epochs : bool)
    (membership : M) : option (LeafChainTraversalOutcome * M) :=
  let view_number := p_view_number proposal in
  let parent_view_number := Votes.view_number (p_justify_qc proposal) in
  '(_, s) ← visit_leaf_ancestors c parent_view_number (Exclusive (last_decided_view c)) true
              (decide_step c public_key existing_upgrade_cert view_number)
              {| last_view_number_visited := view_number; current_chain_length := 0;
                 w_res := outcome_default |};
  Some (w_res s, decide_epochs with_epochs (epoch_height c) membership (w_res s)).
End Decide.

(** ** Lemmas *)

Section DecideLemmas.
Context `{Sg : SignatureScheme} `{Cm : Committable} `{Vt : VidTypes} `{Vs : Versions}.
Context `{Bt : !BlockTypes} `{Vd : !VidScheme}.
Context {M : Type} `{Er : !EpochRoots M}.
Context {Lm : CommittableLaws Cm} {Rk : CommitmentRank Cm}.
Implicit Types (c : Consensus) (leaf : Leaf2) (info : LeafInfo).

Lemma parent_leaf_info_inv c leaf key info :
  parent_leaf_info c leaf key = Some info →
  saved_leaves c !! leaf_commit (data (justify_qc leaf)) = Some (li_leaf info) ∧
  state c (view_number (justify_qc leaf)) = Some (li_state info) ∧
  li_vid_share info = vid_share_of c (view_number (justify_qc leaf)) key.
Proof using Type.
  unfold parent_leaf_info. rewrite <-state_and_delta_state. intros H.
  destruct (saved_leaves c !! _) as [l|]; simpl in H; [|done].
  destruct (state_and_delta _ _) as [[st|] d]; [|done]. injection H as <-. done.
Qed.

Lemma fill_saved_qc c leaf : justify_qc (fill_saved c leaf) = justify_qc leaf.
Proof using Type. unfold fill_saved. by destruct (_ !! _). Qed.
Lemma fill_saved_view c leaf : leaf_view (fill_saved c leaf) = leaf_view leaf.
Proof using Type. unfold fill_saved. by destruct (_ !! _). Qed.
Lemma fill_saved_commit c leaf : leaf2_commit (fill_saved c leaf) = leaf2_commit leaf.
Proof using Type. unfold fill_saved. by destruct (_ !! _). Qed.
Lemma fill_saved_parent c leaf : parent_commitment (fill_saved c leaf) = parent_commitment leaf.
Proof using Type. unfold fill_saved. by destruct (_ !! _). Qed.

Lemma parent_leaf_info_ext c leaf leaf' key :
  justify_qc leaf = justify_qc leaf' → parent_leaf_info c leaf key = parent_leaf_info c leaf' key.
Proof using Type. unfold parent_leaf_info. by intros ->. Qed.

(** A saved leaf is followed by the leaf of its parent commitment. *)
Lemma parent_saved c h leaf key info :
  cons_inv c → saved_leaves c !! h = Some leaf → parent_leaf_info c leaf key = Some info →
  saved_leaves c !! parent_commitment leaf = Some (li_leaf info).
Proof using Type.
  intros Hc Hl [Hp _]%parent_leaf_info_inv. by rewrite (proj2 (proj2 (inv_keys _ Hc _ _ Hl))).
Qed.

(** The leaves that the HotStuff-2 loop collects from an entry. *)
Inductive back_chain c (key : PubKey) (anchor : ViewNumber) : option LeafInfo → list LeafInfo → Prop :=
  | bc_none : back_chain c key anchor None []
  | bc_stop info : leaf_view (li_leaf info) <= anchor → back_chain c key anchor (Some info) []
  | bc_step info l :
      anchor < leaf_view (li_leaf info) →
      back_chain c key anchor (parent_leaf_info c (li_leaf info) key) l →
      back_chain c key anchor (Some info) (info :: l).

Lemma walk2_chain fuel c key ex anchor v cur w w' :
  walk2_loop fuel c key ex anchor v cur w = Some w' →
  ∃ l, w_leaf_views w' = w_leaf_views w ++ l ∧ back_chain c key anchor cur l.
Proof using Type.
  revert cur w. induction fuel as [|fuel IH]; intros [info|] w H; simpl in H.
  1,3: destruct (anchor <? _) eqn:Hv; bool_facts.
  - done.
  - injection H as <-. exists []. rewrite app_nil_r. by split; [|constructor].
  - apply IH in H as (l & Hl & Hb). simpl in Hl. exists (info :: l). rewrite Hl, <-app_assoc.
    split; [done|]. constructor; [done|].
    by rewrite (parent_leaf_info_ext c (li_leaf info) (fill_saved c (li_leaf info)))
      by (by rewrite fill_saved_qc).
  - injection H as <-. exists []. rewrite app_nil_r. by split; [|constructor].
  - injection H as <-. exists []. rewrite app_nil_r. split; [done|constructor].
  - injection H as <-. exists []. rewrite app_nil_r. split; [done|constructor].
Qed.

(** The loop ends: each round goes down in the order of the hashes. *)
Lemma walk2_enough fuel c key ex anchor v cur w :
  cons_inv c →
  (∀ info, cur = Some info →
     ∃ h, saved_leaves c !! h = Some (li_leaf info) ∧ (size (below c h) <= fuel)%nat) →
  is_Some (walk2_loop fuel c key ex anchor v cur w).
Proof using Type.
  intros Hc. revert cur w. induction fuel as [|fuel IH]; intros [info|] w Hcur; simpl; try done;
    destruct (anchor <? _); try done.
  - destruct (Hcur _ eq_refl) as (h & Hl & Hsz). exfalso.
    assert (size (below c h) ≠ 0%nat); [|lia]. apply (map_size_ne_0_lookup_2 _ h).
    exists (li_leaf info). by apply map_lookup_filter_Some.
  - apply IH. intros i2 Hi2. destruct (Hcur _ eq_refl) as (h & Hl & Hsz). simpl in Hi2.
    rewrite (parent_leaf_info_ext c _ (li_leaf info)) in Hi2 by (by rewrite fill_saved_qc).
    exists (parent_commitment (li_leaf info)). split; [by eapply parent_saved|].
    pose proof (below_parent c h (li_leaf info) Hc Hl). lia.
Qed.

(** A list of decided leaves: saved, above the anchor, each followed by its
    parent, down to a leaf whose parent is not available or not above the
    anchor. *)
Record leaf_chain c (key : PubKey) (anchor : ViewNumber) (l : list LeafInfo) : Prop := {
  lc_saved info : info ∈ l → ∃ h, saved_leaves c !! h = Some (li_leaf info);
  lc_above info : info ∈ l → anchor < leaf_view (li_leaf info);
  lc_linked i a b : l !! i = Some a → l !! S i = Some b →
    parent_commitment (li_leaf a) = leaf2_commit (li_leaf b);
  lc_end info : last l = Some info →
    ∀ parent, parent_leaf_info c (li_leaf info) key = Some parent →
      leaf_view (li_leaf parent) <= anchor;
}.

Lemma leaf_chain_nil c key anchor : leaf_chain c key anchor [].
Proof using Type. split; [intros ? []%elem_of_nil|intros ? []%elem_of_nil|done|done]. Qed.

Lemma back_chain_spec c key anchor cur l :
  cons_inv c → (∀ info, cur = Some info → ∃ h, saved_leaves c !! h = Some (li_leaf info)) →
  back_chain c key anchor cur l →
  leaf_chain c key anchor l ∧
  ∀ info, cur = Some info → anchor < leaf_view (li_leaf info) → head l = Some info.
Proof using Type.
  intros Hc Hcur Hb. induction Hb as [|info Hv|info l Hv Hb IH].
  - split; [apply leaf_chain_nil|done].
  - split; [apply leaf_chain_nil|intros ? [= <-]; lia].
  - destruct (Hcur _ eq_refl) as [h Hl].
    destruct IH as [[Hs Ha Hk He] Hh].
    { intros parent Hp. exists (parent_commitment (li_leaf info)). by eapply parent_saved. }
    split; [|by intros ? [= <-]]. split.
    + intros i [->|Hi]%elem_of_cons; [by exists h|auto].
    + intros i [->|Hi]%elem_of_cons; [done|auto].
    + intros [|i] a b Hia Hib; simpl in *; [|by eapply Hk]. injection Hia as <-.
      inversion Hb as [Hn|p Hpv Hp|p l' Hpv Hb' Hp]; subst; [done|done|]. injection Hib as <-.
      eapply parent_saved in Hl; [|done|by symmetry]. by apply (inv_keys _ Hc) in Hl as [? _].
    + intros i Hi. destruct l as [|b l]; [|apply He; by rewrite <-Hi].
      injection Hi as <-. intros parent Hp. destruct (decide (anchor < leaf_view (li_leaf parent))); [|lia].
      by specialize (Hh _ Hp ltac:(done)).
Qed.

Lemma visit_fuel_below c h : (size (below c h) <= visit_fuel c)%nat.
Proof using Type. unfold visit_fuel, below. apply le_S, map_subseteq_size, map_filter_subseteq. Qed.

(** ** The chained HotStuff walk *)

(** A leaf that the walk hands to the closure. *)
Definition visitable c (anchor : ViewNumber) (h : Commitment) leaf : Prop :=
  saved_leaves c !! h = Some leaf ∧ is_Some (state c (leaf_view leaf)) ∧ leaf_view leaf ≠ anchor.

(** The entries reported from a commitment upwards. *)
Inductive up_chain c (key : PubKey) (anchor : ViewNumber) : Commitment → list LeafInfo → Prop :=
  | uc_end h : (∀ leaf, ¬ visitable c anchor h leaf) → up_chain c key anchor h []
  | uc_step h leaf st d l :
      visitable c anchor h leaf → state_and_delta c (leaf_view leaf) = (Some st, d) →
      up_chain c key anchor (parent_commitment leaf) l →
      up_chain c key anchor h
        ({| li_leaf := fill_saved c leaf; li_state := st; li_delta := d;
            li_vid_share := vid_share_of c (leaf_view leaf) key |} :: l).

Section Walk3.
Context (c : Consensus) (key : PubKey) (ex : option UpgradeCertificate) (pv anchor : ViewNumber).

Abbreviation walk fuel := (visit_loop fuel c (Exclusive anchor) true (decide_step c key ex pv)).

(** A round on a leaf that cannot be visited ends the walk. *)
Lemma walk_stops fuel h s :
  (∀ leaf, ¬ visitable c anchor h leaf) → ∃ r, walk (S fuel) h s = Some (r, s).
Proof using Type.
  intros Hno. simpl. destruct (saved_leaves c !! h) as [leaf|] eqn:Hl; [|by eexists].
  pose proof (state_and_delta_state c (leaf_view leaf)) as Hst.
  destruct (state_and_delta c (leaf_view leaf)) as [[st|] d]; simpl in *; [|by eexists].
  destruct (Z.eqb_spec anchor (leaf_view leaf)); [by eexists|]. exfalso. apply (Hno leaf).
  split; [done|]. rewrite <-Hst. split; [by eexists|done].
Qed.

(** A round on a leaf that can be visited runs the closure. *)
Lemma walk_round fuel h s leaf :
  visitable c anchor h leaf →
  ∃ st d, state_and_delta c (leaf_view leaf) = (Some st, d) ∧
    walk (S fuel) h s =
      let '(continue, s') := decide_step c key ex pv leaf st d s in
      if continue then walk fuel (parent_commitment leaf) s' else Some (Ok tt, s').
Proof using Type.
  intros (Hl & Hst & Hv). rewrite <-state_and_delta_state in Hst. simpl. rewrite Hl.
  destruct (state_and_delta c (leaf_view leaf)) as [[st|] d]; [|by destruct Hst]. exists st, d.
  split; [done|]. simpl. destruct (Z.eqb_spec anchor (leaf_view leaf)); [done|].
  destruct (decide_step _ _ _ _ _ _ _ _) as [[] s']; done.
Qed.

Lemma visitable_dec h : (∃ leaf, visitable c anchor h leaf) ∨ (∀ leaf, ¬ visitable c anchor h leaf).
Proof using Type.
  unfold visitable. destruct (saved_leaves c !! h) as [leaf|]; [|naive_solver].
  destruct (state c (leaf_view leaf)) as [st|] eqn:Hst; [|right; intros ? ([= <-] & [? ?] & _); congruence].
  destruct (decide (leaf_view leaf = anchor)); naive_solver.
Qed.

(** Once a view is decided, every visited leaf is reported. *)
Lemma walk_reports fuel h s r s' :
  is_Some (new_decided_view_number (w_res s)) → walk fuel h s = Some (r, s') →
  new_locked_view_number (w_res s') = new_locked_view_number (w_res s) ∧
  new_decided_view_number (w_res s') = new_decided_view_number (w_res s) ∧
  new_decide_qc (w_res s') = new_decide_qc (w_res s) ∧
  ∃ l, leaf_views (w_res s') = leaf_views (w_res s) ++ l ∧ up_chain c key anchor h l.
Proof using Type.
  revert h s. induction fuel as [|fuel IH]; intros h s [v Hd] H; [done|].
  destruct (visitable_dec h) as [[leaf Hv]|Hno].
  - destruct (walk_round fuel h s leaf Hv) as (st & d & Hst & Hr). rewrite Hr in H.
    unfold decide_step, extend_chain in H. rewrite Hd in H. simpl in H. rewrite Hd in H.
    apply IH in H as (H1 & H2 & H3 & l & Hl & Hu); [|by exists v]. simpl in *.
    rewrite H1, H2, H3, Hl, <-app_assoc, fill_saved_view. split_and!; try done.
    eexists. split; [done|]. by econstructor.
  - destruct (walk_stops fuel h s Hno) as [r' Hr]. rewrite Hr in H. injection H as <- <-.
    split_and!; try done. exists []. rewrite app_nil_r. by split; [|constructor].
Qed.

(** A leaf in the view just before [last]. *)
Definition link (last : ViewNumber) (h : Commitment) leaf : Prop :=
  visitable c anchor h leaf ∧ last = wrapper_add (leaf_view leaf) 1.

Lemma link_dec last h : (∃ leaf, link last h leaf) ∨ (∀ leaf, ¬ link last h leaf).
Proof using Type.
  destruct (visitable_dec h) as [[leaf Hv]|Hno]; [|right; intros leaf [Hv _]; by apply (Hno leaf)].
  destruct (decide (last = wrapper_add (leaf_view leaf) 1)) as [Hl|Hl]; [left; by exists leaf|].
  right. intros leaf' [[? _] Hl']. destruct Hv as [? _]. by simplify_eq.
Qed.

Lemma walk_no_link fuel h s :
  new_decided_view_number (w_res s) = None → (∀ leaf, ¬ link (last_view_number_visited s) h leaf) →
  ∃ r, walk (S fuel) h s = Some (r, s).
Proof using Type.
  intros Hd Hno. destruct (visitable_dec h) as [[leaf Hv]|Hno']; [|by apply walk_stops].
  destruct (walk_round fuel h s leaf Hv) as (st & d & _ & ->). exists (Ok tt).
  unfold decide_step, extend_chain. rewrite Hd.
  destruct (Z.eqb_spec (last_view_number_visited s) (wrapper_add (leaf_view leaf) 1)); [|done].
  exfalso. by apply (Hno leaf).
Qed.

(** What the first part of the closure does on a link. *)
Definition chain_next (s : walk3) leaf : walk3 :=
  {| last_view_number_visited := leaf_view leaf;
     current_chain_length := S (current_chain_length s);
     w_res := match current_chain_length s with
              | 1%nat => set_chain (w_res s) (Some (leaf_view leaf))
                           (new_decided_view_number (w_res s)) (Some (justify_qc leaf))
              | 2%nat => set_chain (w_res s) (new_locked_view_number (w_res s))
                           (Some (leaf_view leaf)) (new_decide_qc (w_res s))
              | _ => w_res s
              end |}.

Lemma extend_link h s leaf :
  new_decided_view_number (w_res s) = None → link (last_view_number_visited s) h leaf →
  extend_chain leaf s = Some (chain_next s leaf).
Proof using Type.
  intros Hd [_ Hl]. unfold extend_chain, chain_next. rewrite Hd, (proj2 (Z.eqb_eq _ _) Hl).
  by destruct (current_chain_length s) as [|[|[|n]]].
Qed.

(** A link that does not complete the chain. *)
Lemma walk_link fuel h s leaf :
  new_decided_view_number (w_res s) = None → link (last_view_number_visited s) h leaf →
  new_decided_view_number (w_res (chain_next s leaf)) = None →
  walk (S fuel) h s = walk fuel (parent_commitment leaf) (chain_next s leaf).
Proof using Type.
  intros Hd Hl Hn. destruct (walk_round fuel h s leaf (proj1 Hl)) as (st & d & Hst & ->).
  unfold decide_step. by rewrite (extend_link h), Hn.
Qed.

(** The link that completes it. *)
Lemma walk_decides fuel h s leaf r s' :
  new_decided_view_number (w_res s) = None → link (last_view_number_visited s) h leaf →
  current_chain_length s = 2%nat → walk (S fuel) h s = Some (r, s') →
  new_locked_view_number (w_res s') = new_locked_view_number (w_res s) ∧
  new_decided_view_number (w_res s') = Some (leaf_view leaf) ∧
  new_decide_qc (w_res s') = new_decide_qc (w_res s) ∧
  ∃ l, leaf_views (w_res s') = leaf_views (w_res s) ++ l ∧ up_chain c key anchor h l.
Proof using Type.
  intros Hd Hl Hn H. destruct (walk_round fuel h s leaf (proj1 Hl)) as (st & d & Hst & Hr).
  rewrite Hr in H. unfold decide_step in H. rewrite (extend_link h) in H by done.
  unfold chain_next in H. rewrite Hn in H. simpl in H.
  apply walk_reports in H as (H1 & H2 & H3 & l & Hlv & Hu); [|by eexists]. simpl in *.
  rewrite H1, H2, H3, Hlv, <-app_assoc, fill_saved_view. split_and!; try done.
  eexists. split; [done|]. econstructor; [apply Hl|done|done].
Qed.

Definition walk_start : walk3 :=
  {| last_view_number_visited := pv; current_chain_length := 0; w_res := outcome_default |}.

Definition three_chain h l1 l2 l3 : Prop :=
  link pv h l1 ∧ link (leaf_view l1) (parent_commitment l1) l2 ∧
  link (leaf_view l2) (parent_commitment l2) l3.

Lemma link_unique last h l l' : link last h l → link last h l' → l = l'.
Proof using Type. intros [[? _] _] [[? _] _]. by simplify_eq. Qed.

(** The whole walk, by the length of the chain of consecutive views. *)
Lemma walk_outcome fuel h r s :
  walk (S (S (S fuel))) h walk_start = Some (r, s) →
  (∃ l1 l2 l3, three_chain h l1 l2 l3 ∧
     new_locked_view_number (w_res s) = Some (leaf_view l2) ∧
     new_decided_view_number (w_res s) = Some (leaf_view l3) ∧
     new_decide_qc (w_res s) = Some (justify_qc l2) ∧
     up_chain c key anchor (parent_commitment l2) (leaf_views (w_res s)))
  ∨ (new_decided_view_number (w_res s) = None ∧ leaf_views (w_res s) = [] ∧
     (∀ l1 l2 l3, ¬ three_chain h l1 l2 l3)).
Proof using Type.
  intros H. destruct (link_dec pv h) as [[l1 H1]|Hno]; cycle 1.
  { destruct (walk_no_link (S (S fuel)) h walk_start eq_refl Hno) as [r' Hr]. rewrite Hr in H.
    injection H as <- <-. right. split_and!; try done. intros l1 l2 l3 [? _]. by eapply Hno. }
  rewrite (walk_link _ h walk_start l1) in H by done.
  destruct (link_dec (leaf_view l1) (parent_commitment l1)) as [[l2 H2]|Hno]; cycle 1.
  { destruct (walk_no_link (S fuel) _ (chain_next walk_start l1) eq_refl Hno) as [r' Hr].
    rewrite Hr in H. injection H as <- <-. right. split_and!; try done.
    intros l1' l2 l3 (H1' & H2 & _). pose proof (link_unique _ _ _ _ H1 H1') as <-. by eapply Hno. }
  rewrite (walk_link _ _ (chain_next walk_start l1) l2) in H by done.
  destruct (link_dec (leaf_view l2) (parent_commitment l2)) as [[l3 H3]|Hno]; cycle 1.
  { destruct (walk_no_link fuel _ (chain_next (chain_next walk_start l1) l2) eq_refl Hno) as [r' Hr].
    rewrite Hr in H. injection H as <- <-. right. split_and!; try done.
    intros l1' l2' l3 (H1' & H2' & H3). pose proof (link_unique _ _ _ _ H1 H1') as <-.
    pose proof (link_unique _ _ _ _ H2 H2') as <-. by eapply Hno. }
  left. exists l1, l2, l3. apply walk_decides with (leaf := l3) in H as (? & ? & ? & l & Hl & ?); [|done..].
  rewrite Hl. by split_and!.
Qed.
End Walk3.

Lemma decide_2_total (p : QuorumProposal2) c ex key we (m : M) :
  cons_inv c → is_Some (decide_from_proposal_2 p c ex key we m).
Proof using Rk.
  intros Hc. unfold decide_from_proposal_2.
  destruct (parent_leaf_info c (leaf2_from_quorum_proposal p) key) as [parent|]; [|done].
  destruct (parent_leaf_info c (li_leaf parent) key) as [grand|] eqn:Hg; [|done].
  destruct (negb _); [done|]. apply parent_leaf_info_inv in Hg as [Hg _].
  destruct (walk2_enough (visit_fuel c) c key ex (last_decided_view c) (leaf_view (li_leaf grand))
    (Some grand) {| w_leaf_views := []; w_cert := None; w_txns := ∅ |} Hc) as [w ->]; [|done].
  intros info [= <-]. eexists. split; [done|apply visit_fuel_below].
Qed.

Lemma decide_3_total (p : QuorumProposal2) c ex key we (m : M) :
  cons_inv c → is_Some (decide_from_proposal p c ex key we m).
Proof using Rk.
  intros Hc. unfold decide_from_proposal.
  destruct (visit_total c (view_number (p_justify_qc p)) (Exclusive (last_decided_view c)) true
    (decide_step c key ex (p_view_number p))
    {| last_view_number_visited := p_view_number p; current_chain_length := 0;
       w_res := outcome_default |} Hc) as [[r s] ->]. by eexists.
Qed.

Lemma decide_2_chain (p : QuorumProposal2) c ex key we (m : M) res m' :
  cons_inv c → decide_from_proposal_2 p c ex key we m = Some (res, m') →
  leaf_chain c key (last_decided_view c) (leaf_views res).
Proof using Type.
  intros Hc H. unfold decide_from_proposal_2 in H.
  destruct (parent_leaf_info c (leaf2_from_quorum_proposal p) key) as [parent|];
    [|injection H as <- <-; apply leaf_chain_nil].
  destruct (parent_leaf_info c (li_leaf parent) key) as [grand|] eqn:Hg;
    [|injection H as <- <-; apply leaf_chain_nil].
  destruct (negb _); [injection H as <- <-; apply leaf_chain_nil|].
  destruct (walk2_loop _ _ _ _ _ _ _ _) as [w|] eqn:Hw; [|done]. injection H as <- <-.
  apply walk2_chain in Hw as (l & Hl & Hb). simpl in *. rewrite Hl.
  apply parent_leaf_info_inv in Hg as [Hg _]. apply back_chain_spec in Hb as [? _]; [done|done|naive_solver].
Qed.

Lemma decide_3_chain (p : QuorumProposal2) c ex key we (m : M) res m' :
  cons_inv c → decide_from_proposal p c ex key we m = Some (res, m') →
  leaf_views res = [] ∨ ∃ h, up_chain c key (last_decided_view c) h (leaf_views res).
Proof using Rk.
  intros Hc H. unfold decide_from_proposal, visit_leaf_ancestors in H.
  destruct (validated_state_map c !! _) as [x|]; [|injection H as <- <-; by left].
  destruct (leaf_commitment x) as [h|]; [|injection H as <- <-; by left].
  rewrite (visit_loop_more _ _ _ _ 3) in H by done.
  destruct (visit_loop _ _ _ _ _ _ _) as [[r s]|] eqn:Hw; [|done]. injection H as <- <-.
  apply walk_outcome in Hw as [(l1 & l2 & l3 & _ & _ & _ & _ & Hu)|(_ & Hv & _)]; eauto.
Qed.

(** What a decision of either rule comes from. *)
Lemma decide_2_decided (p : QuorumProposal2) c ex key we (m : M) res m' v :
  cons_inv c → decide_from_proposal_2 p c ex key we m = Some (res, m') →
  new_decided_view_number res = Some v →
  ∃ parent grand, parent_leaf_info c (leaf2_from_quorum_proposal p) key = Some parent ∧
    parent_leaf_info c (li_leaf parent) key = Some grand ∧ v = leaf_view (li_leaf grand) ∧
    new_decide_qc res = Some (justify_qc (li_leaf parent)) ∧
    (last_decided_view c < v → head (leaf_views res) = Some grand).
Proof using Type.
  intros Hc H Hd. unfold decide_from_proposal_2 in H.
  destruct (parent_leaf_info c (leaf2_from_quorum_proposal p) key) as [parent|]; [|by injection H as <- <-].
  destruct (parent_leaf_info c (li_leaf parent) key) as [grand|] eqn:Hg; [|by injection H as <- <-].
  destruct (negb _); [by injection H as <- <-|].
  destruct (walk2_loop _ _ _ _ _ _ _ _) as [w|] eqn:Hw; [|done]. injection H as <- <-.
  injection Hd as <-. apply walk2_chain in Hw as (l & Hl & Hb). simpl in *. rewrite Hl.
  exists parent, grand. split_and!; try done. intros Hlt.
  apply parent_leaf_info_inv in Hg as [Hg _]. apply back_chain_spec in Hb as [_ Hh]; [|done|naive_solver].
  by apply Hh.
Qed.

Lemma decide_3_decided (p : QuorumProposal2) c ex key we (m : M) res m' v :
  cons_inv c → decide_from_proposal p c ex key we m = Some (res, m') →
  new_decided_view_number res = Some v →
  ∃ h2 l2 l3 info, saved_leaves c !! h2 = Some l2 ∧
    visitable c (last_decided_view c) (parent_commitment l2) l3 ∧ v = leaf_view l3 ∧ new_decide_qc res = Some (justify_qc l2) ∧
    head (leaf_views res) = Some info ∧ li_leaf info = fill_saved c l3.
Proof using Rk.
  intros Hc H Hd. unfold decide_from_proposal, visit_leaf_ancestors in H.
  destruct (validated_state_map c !! _) as [x|]; [|by injection H as <- <-].
  destruct (leaf_commitment x) as [h|]; [|by injection H as <- <-].
  rewrite (visit_loop_more _ _ _ _ 3) in H by done.
  destruct (visit_loop _ _ _ _ _ _ _) as [[r s]|] eqn:Hw; [|done]. injection H as <- <-.
  apply walk_outcome in Hw as [(l1 & l2 & l3 & (H1 & H2 & H3) & _ & Hd' & Hq & Hu)|(? & _)]; [|congruence].
  rewrite Hd' in Hd. injection Hd as <-. destruct H3 as [H3 _]. destruct H2 as [[Hl2 _] _].
  inversion Hu as [? Hno Hh Hn|? leaf st d l Hv Hst Hu' Hh Hn]; [exfalso; by eapply Hno|].
  assert (leaf = l3) as -> by (destruct Hv as [? _], H3 as [? _]; congruence).
  exists (parent_commitment l1), l2, l3. eexists. by split_and!.
Qed.
End DecideLemmas.

(** ** Properties *)

Section DecideProperties.
Context `{Sg : SignatureScheme} `{Cm : Committable} `{Vt : VidTypes} `{Vs : Versions}.
Context `{Bt : !BlockTypes} `{Vd : !VidScheme}.
Context {M : Type} `{Er : !EpochRoots M}.
Context {Lm : CommittableLaws Cm} {Rk : CommitmentRank Cm}.
Implicit Types (c : Consensus) (leaf : Leaf2) (info : LeafInfo).

(** C13. The HotStuff-2 decide rule: the traversal ends; it always proposes to lock
    the view of the justifying certificate; it decides exactly when the parent
    and the grandparent of the proposal are available and in consecutive views,
    and then decides the grandparent, reports a certificate for exactly that
    leaf, and reports the chain of leaves from the decided one back to the last
    decided view. *)
Theorem decide_from_proposal_2_correct (p : QuorumProposal2) c ex key we (m : M) :
  cons_inv c →
  ∃ res m', decide_from_proposal_2 p c ex key we m = Some (res, m') ∧
    new_locked_view_number res = Some (view_number (p_justify_qc p)) ∧
    ((∃ parent grand, parent_leaf_info c (leaf2_from_quorum_proposal p) key = Some parent ∧
        parent_leaf_info c (li_leaf parent) key = Some grand ∧
        wrapper_add (leaf_view (li_leaf grand)) 1 = leaf_view (li_leaf parent) ∧
        new_decided_view_number res = Some (leaf_view (li_leaf grand)) ∧
        new_decide_qc res = Some (justify_qc (li_leaf parent)) ∧
        leaf_commit (data (justify_qc (li_leaf parent))) = leaf2_commit (li_leaf grand) ∧
        leaf_chain c key (last_decided_view c) (leaf_views res) ∧
        (last_decided_view c < leaf_view (li_leaf grand) → head (leaf_views res) = Some grand))
     ∨ (new_decided_view_number res = None ∧ new_decide_qc res = None ∧ leaf_views res = [] ∧ m' = m ∧
        ∀ parent grand, parent_leaf_info c (leaf2_from_quorum_proposal p) key = Some parent →
          parent_leaf_info c (li_leaf parent) key = Some grand →
          wrapper_add (leaf_view (li_leaf grand)) 1 ≠ leaf_view (li_leaf parent))).
Proof using Rk.
  intros Hc. unfold decide_from_proposal_2.
  destruct (parent_leaf_info c (leaf2_from_quorum_proposal p) key) as [parent|] eqn:Hp;
    [|do 2 eexists; split; [done|]; split; [done|]; right; naive_solver].
  destruct (parent_leaf_info c (li_leaf parent) key) as [grand|] eqn:Hg;
    [|do 2 eexists; split; [done|]; split; [done|]; right; naive_solver].
  destruct (Z.eqb_spec (wrapper_add (leaf_view (li_leaf grand)) 1) (leaf_view (li_leaf parent))) as [Hv|Hv];
    cbn [negb]; [|do 2 eexists; split; [done|]; split; [done|]; right; naive_solver].
  pose proof (parent_leaf_info_inv _ _ _ _ Hg) as [Hgs _].
  destruct (decide_2_total p c ex key we m Hc) as [x Hx]. unfold decide_from_proposal_2 in Hx.
  rewrite Hp, Hg, (proj2 (Z.eqb_eq _ _) Hv) in Hx.
  destruct (walk2_loop _ _ _ _ _ _ _ _) as [w|] eqn:Hw; [|done]. do 2 eexists. split; [done|]. split; [done|]. left. exists parent, grand.
  apply walk2_chain in Hw as (l & Hl & Hb). simpl in Hl. rewrite Hl.
  apply back_chain_spec in Hb as [Hch Hh]; [|done|naive_solver].
  split_and!; try done; [by apply (inv_keys _ Hc) in Hgs as [? _]|]. intros. by apply Hh.
Qed.

(** C15. The chained HotStuff decide rule: the traversal ends; it decides exactly
    when the proposal heads three saved leaves in consecutive views below it,
    none of them the last decided one; then it decides the third, locks the
    second, reports the second's certificate, which is for the decided leaf, and
    reports every leaf from the decided one up to the last decided view or the
    end of what is saved, with its payload and VID share. *)
Theorem decide_from_proposal_correct (p : QuorumProposal2) c ex key we (m : M) :
  cons_inv c →
  ∃ res m', decide_from_proposal p c ex key we m = Some (res, m') ∧
    ((∃ h l1 l2 l3,
        validated_state_map c !! view_number (p_justify_qc p) ≫= leaf_commitment = Some h ∧
        three_chain c (p_view_number p) (last_decided_view c) h l1 l2 l3 ∧
        new_locked_view_number res = Some (leaf_view l2) ∧
        new_decided_view_number res = Some (leaf_view l3) ∧
        new_decide_qc res = Some (justify_qc l2) ∧
        leaf_commit (data (justify_qc l2)) = leaf2_commit l3 ∧
        up_chain c key (last_decided_view c) (leaf2_commit l3) (leaf_views res))
     ∨ (new_decided_view_number res = None ∧ leaf_views res = [] ∧ m' = m ∧
        ∀ h l1 l2 l3,
          validated_state_map c !! view_number (p_justify_qc p) ≫= leaf_commitment = Some h →
          ¬ three_chain c (p_view_number p) (last_decided_view c) h l1 l2 l3)).
Proof using Rk.
  intros Hc. unfold decide_from_proposal, visit_leaf_ancestors.
  destruct (validated_state_map c !! view_number (p_justify_qc p)) as [x|];
    [|do 2 eexists; split; [done|]; right; unfold decide_epochs; rewrite andb_false_r; naive_solver].
  destruct (leaf_commitment x) as [h|] eqn:Hh;
    [|do 2 eexists; split; [done|]; right; unfold decide_epochs; rewrite andb_false_r; naive_solver].
  rewrite (visit_loop_more _ _ _ _ 3) by done.
  destruct (visit_loop _ _ _ _ _ _ _) as [[r s]|] eqn:Hw; cycle 1.
  { rewrite <-visit_loop_more in Hw by done.
    destruct (visit_loop_total c (Exclusive (last_decided_view c)) true
      (decide_step c key ex (p_view_number p)) h
      {| last_view_number_visited := p_view_number p; current_chain_length := 0;
         w_res := outcome_default |} Hc) as [? ?]. congruence. }
  do 2 eexists. split; [done|].
  apply walk_outcome in Hw as [(l1 & l2 & l3 & H3 & Hl & Hd & Hq & Hu)|(Hd & Hv & Hno)].
  - left. exists h, l1, l2, l3. destruct (proj1 (proj2 (proj2 H3))) as [Hs3 _].
    pose proof (proj1 (proj1 (proj1 (proj2 H3)))) as Hs2.
    destruct (inv_keys _ Hc _ _ Hs2) as [_ [_ Hp2]]. destruct (inv_keys _ Hc _ _ Hs3) as [Hk3 _].
    rewrite <-Hk3, <-Hp2. by split_and!.
  - right. unfold decide_epochs. rewrite Hd, andb_false_r. split_and!; try done. naive_solver.
Qed.

(** Only the chained rule reports payloads: with leaves saved without payload,
    as proposals create them, every leaf that [decide_from_proposal_2] reports
    has no payload, although one may be saved for its view, whereas every leaf
    that [decide_from_proposal] reports carries the payload saved for its view. *)
Theorem decide_2_drops_payloads (p : QuorumProposal2) c ex key we (m : M) res2 m2 res3 m3 :
  cons_inv c → (∀ h leaf, saved_leaves c !! h = Some leaf → block_payload leaf = None) →
  decide_from_proposal_2 p c ex key we m = Some (res2, m2) →
  decide_from_proposal p c ex key we m = Some (res3, m3) →
  Forall (fun info => block_payload (li_leaf info) = None) (leaf_views res2) ∧
  Forall (fun info => block_payload (li_leaf info) = saved_payloads c !! leaf_view (li_leaf info))
    (leaf_views res3).
Proof using Rk.
  intros Hc Hno H2 H3. split.
  - destruct (decide_2_chain p c ex key we m res2 m2 Hc H2) as [Hs _ _ _].
    apply Forall_forall. intros info [h Hh]%Hs. by eapply Hno.
  - destruct (decide_3_chain p c ex key we m res3 m3 Hc H3) as [->|[h Hu]]; [done|].
    induction Hu as [|h leaf st d l Hv Hst Hu IH]; constructor; [|done]. simpl.
    destruct Hv as [Hl _]. unfold fill_saved. destruct (saved_payloads c !! leaf_view leaf) eqn:Hp; simpl.
    + by rewrite Hp.
    + by rewrite Hp, (Hno _ _ Hl).
Qed.
End DecideProperties.

(** ** Witnesses: a proposal in view 7 on top of the demonstration chain *)

Module DecideDemo.
#[global] Instance no_roots : EpochRoots unit := {| add_epoch_root _ _ _ := None; sync_l1 _ := None |}.

Definition proposal : QuorumProposal2 :=
  {| p_block_header := (11, []) : BlockHeader; p_view_number := 7; p_epoch := None;
     p_justify_qc := DataDemo.qc 6 (leaf2_commit ConsDemo.l6); p_next_epoch_justify_qc := None;
     p_upgrade_certificate := None; p_view_change_evidence := None; p_next_drb_result := None |}.

Definition key : PubKey := 10.

Lemma parent_info leaf l :
  l ∈ [ConsDemo.l6; ConsDemo.l5] → justify_qc leaf = DataDemo.qc (leaf_view l) (leaf2_commit l) →
  ∃ info, parent_leaf_info ConsDemo.chain leaf key = Some info ∧ li_leaf info = l.
Proof.
  intros Hl Hq. unfold parent_leaf_info. rewrite Hq. cbn [DataDemo.qc data leaf_commit view_number].
  rewrite (ConsDemo.chain_saved l).
  - apply elem_of_cons in Hl as [->|[->|[]%elem_of_nil]%elem_of_cons]; eexists; by split.
  - apply elem_of_cons in Hl as [->|[->|[]%elem_of_nil]%elem_of_cons]; [left|right; left].
Qed.

Lemma chain_no_payload h leaf : saved_leaves ConsDemo.chain !! h = Some leaf → block_payload leaf = None.
Proof. by intros [[_ ->]|[[_ ->]|[[_ ->]|[_ ->]]]]%ConsDemo.chain_leaves. Qed.
End DecideDemo.

Lemma decide_from_proposal_2_correct_witness :
  ∃ res m', decide_from_proposal_2 DecideDemo.proposal ConsDemo.chain None DecideDemo.key false tt =
    Some (res, m') ∧ new_locked_view_number res = Some 6 ∧ new_decided_view_number res = Some 5.
Proof.
  destruct (decide_from_proposal_2_correct DecideDemo.proposal ConsDemo.chain None DecideDemo.key
    false tt ConsDemo.chain_inv) as (res & m' & Hr & Hl & Hd).
  exists res, m'. split; [exact Hr|]. split; [exact Hl|].
  destruct (DecideDemo.parent_info (leaf2_from_quorum_proposal DecideDemo.proposal) ConsDemo.l6)
    as (i6 & Hp & H6); [left|reflexivity|].
  destruct (DecideDemo.parent_info ConsDemo.l6 ConsDemo.l5) as (i5 & Hg & H5); [right; left|reflexivity|].
  rewrite <-H6 in Hg.
  destruct Hd as [(pa & gr & Hp' & Hg' & _ & -> & _)|(_ & _ & _ & _ & Hno)].
  - rewrite Hp in Hp'. injection Hp' as <-. rewrite Hg in Hg'. injection Hg' as <-. rewrite H5. reflexivity.
  - exfalso. apply (Hno _ _ Hp Hg). rewrite H5, H6. reflexivity.
Defined.

Lemma decide_from_proposal_correct_witness :
  ∃ res m', decide_from_proposal DecideDemo.proposal ConsDemo.chain None DecideDemo.key false tt =
    Some (res, m').
Proof.
  destruct (decide_from_proposal_correct DecideDemo.proposal ConsDemo.chain None DecideDemo.key
    false tt ConsDemo.chain_inv) as (res & m' & Hr & _).
  exists res, m'. exact Hr.
Defined.

Lemma decide_2_drops_payloads_witness :
  ∃ res m', decide_from_proposal_2 DecideDemo.proposal ConsDemo.chain None DecideDemo.key false tt =
    Some (res, m') ∧ Forall (fun info => block_payload (li_leaf info) = None) (leaf_views res).
Proof.
  destruct (decide_2_total DecideDemo.proposal ConsDemo.chain None DecideDemo.key false tt
    ConsDemo.chain_inv) as [[res2 m2] H2].
  destruct (decide_3_total DecideDemo.proposal ConsDemo.chain None DecideDemo.key false tt
    ConsDemo.chain_inv) as [[res3 m3] H3].
  exists res2, m2. split; [exact H2|].
  apply (decide_2_drops_payloads DecideDemo.proposal ConsDemo.chain None DecideDemo.key false tt
    res2 m2 res3 m3 ConsDemo.chain_inv DecideDemo.chain_no_payload H2 H3).
Defined.
