(* ===== verification/Task.v ===== *)
(** * Tasks

    An event handler reads and writes shared state, broadcasts events and may
    fail part way, keeping the writes and the broadcasts it has made.  [task] is
    the monad of such handlers: state, output and [outcome].  A handler is run
    without interruption; the critical sections it consists of are the steps of
    [ConsensusProofs]. *)

From S2P Require Import Prelude.

Definition task (St Ev E A : Type) : Type := St → outcome E A * St * list Ev.

#[global] Instance task_ret {St Ev E} : MRet (task St Ev E) := fun A a s => (Ok a, s, []).
#[global] Instance task_bind {St Ev E} : MBind (task St Ev E) := fun A B f m s =>
  let '(r, s1, ev1) := m s in
  match r with
  | Ok a => let '(r2, s2, ev2) := f a s1 in (r2, s2, ev1 ++ ev2)
  | Err e => (Err e, s1, ev1)
  | Panic => (Panic, s1, ev1)
  end.

Section Operations.
Context {St Ev E : Type}.

(** Read the state. *)
Definition get : task St Ev E St := fun s => (Ok s, s, []).
Definition gets {A} (f : St → A) : task St Ev E A := fun s => (Ok (f s), s, []).
(** Write the state. *)
Definition modify (f : St → St) : task St Ev E unit := fun s => (Ok tt, f s, []).
(** [broadcast_event] *)
Definition emit (e : Ev) : task St Ev E unit := fun s => (Ok tt, s, [e]).
(** The broadcasts of a callee. *)
Definition emit_all (l : list Ev) : task St Ev E unit := fun s => (Ok tt, s, l).
(** [?] on a [Result] *)
Definition lift {A} (o : outcome E A) : task St Ev E A := fun s => (o, s, []).
Definition require (b : bool) (e : E) : task St Ev E unit := lift (ensure b e).
Definition bail {A} (e : E) : task St Ev E A := lift (Err e).
(** [self.update(..)?] *)
Definition update (f : St → outcome E St) : task St Ev E unit := fun s =>
  match f s with
  | Ok s' => (Ok tt, s', [])
  | Err e => (Err e, s, [])
  | Panic => (Panic, s, [])
  end.
(** [if let Err(e) = self.update(..) { log }] *)
Definition swallow (f : St → outcome E St) : task St Ev E unit := fun s =>
  match f s with
  | Ok s' => (Ok tt, s', [])
  | Err _ => (Ok tt, s, [])
  | Panic => (Panic, s, [])
  end.
(** [if let Err(e) = handler(..).await { log }] *)
Definition logged (m : task St Ev E unit) : task St Ev E unit := fun s =>
  match m s with
  | (Err _, s', ev) => (Ok tt, s', ev)
  | r => r
  end.
(** [handler(..).await.ok()] *)
Definition ok_result {A} (m : task St Ev E A) : task St Ev E (option A) := fun s =>
  match m s with
  | (Ok a, s', ev) => (Ok (Some a), s', ev)
  | (Err _, s', ev) => (Ok None, s', ev)
  | (Panic, s', ev) => (Panic, s', ev)
  end.
(** [.context(e)?] *)
Definition with_context {A} (o : outcome E A) (e : E) : task St Ev E A :=
  lift (match o with Ok a => Ok a | Err _ => Err e | Panic => Panic end).
(** A walk that would not end is no result; [visit_total] excludes it. *)
Definition finish {A} (o : option A) : task St Ev E A := lift (unwrap o).
End Operations.

(** ** Reasoning *)

Section Runs.
Context {St Ev E : Type}.

Lemma bind_run {A B} (m : task St Ev E A) (f : A → task St Ev E B) s r s' ev :
  (m ≫= f) s = (Ok r, s', ev) →
  ∃ a s1 ev1 ev2, m s = (Ok a, s1, ev1) ∧ f a s1 = (Ok r, s', ev2) ∧ ev = ev1 ++ ev2.
Proof.
  unfold mbind, task_bind. destruct (m s) as [[[a|e|] s1] ev1]; [|done|done].
  destruct (f a s1) as [[r2 s2] ev2] eqn:Hf. intros [= -> -> <-]. eauto 10.
Qed.

Lemma bind_cases {A B} (m : task St Ev E A) (f : A → task St Ev E B) s r s' ev :
  (m ≫= f) s = (r, s', ev) →
  (∃ a s1 ev1 ev2, m s = (Ok a, s1, ev1) ∧ f a s1 = (r, s', ev2) ∧ ev = ev1 ++ ev2) ∨
  (∃ e, m s = (Err e, s', ev) ∧ r = Err e) ∨ (m s = (Panic, s', ev) ∧ r = Panic).
Proof.
  unfold mbind, task_bind. destruct (m s) as [[[a|e|] s1] ev1].
  - destruct (f a s1) as [[r2 s2] ev2] eqn:Hf. intros [= <- <- <-]. left. eauto 10.
  - intros [= <- <- <-]. eauto.
  - intros [= <- <- <-]. eauto.
Qed.

(** Run an operation that succeeds without output. *)
Lemma bind_ok {A B} (m : task St Ev E A) (f : A → task St Ev E B) s a s1 :
  m s = (Ok a, s1, []) → (m ≫= f) s = f a s1.
Proof. unfold mbind, task_bind. intros ->. by destruct (f a s1) as [[]]. Qed.

Lemma ret_bind {A B} (a : A) (f : A → task St Ev E B) s : (mret a ≫= f) s = f a s.
Proof. unfold mbind, task_bind. simpl. by destruct (f a s) as [[]]. Qed.

(** Where an event of a handler comes from. *)
Definition emits {A} (m : task St Ev E A) (s : St) (e : Ev) : Prop := e ∈ (m s).2.

Lemma emits_bind {A B} (m : task St Ev E A) (f : A → task St Ev E B) s e :
  emits (m ≫= f) s e →
  emits m s e ∨ ∃ a s1 ev1, m s = (Ok a, s1, ev1) ∧ emits (f a) s1 e.
Proof.
  unfold emits, mbind, task_bind. destruct (m s) as [[[a|e'|] s1] ev1]; simpl; [|by left|by left].
  destruct (f a s1) as [[r2 s2] ev2] eqn:Hf. simpl. rewrite elem_of_app. intros [?|?]; [by left|].
  right. exists a, s1, ev1. split; [done|]. by rewrite Hf.
Qed.

Lemma emits_after {A B} (m : task St Ev E A) (f : A → task St Ev E B) s a s1 ev1 e :
  m s = (Ok a, s1, ev1) → emits (f a) s1 e → emits (m ≫= f) s e.
Proof.
  unfold emits, mbind, task_bind. intros ->. destruct (f a s1) as [[r2 s2] ev2]. simpl.
  intros He. apply elem_of_app. by right.
Qed.

Lemma emits_before {A B} (m : task St Ev E A) (f : A → task St Ev E B) s e :
  emits m s e → emits (m ≫= f) s e.
Proof.
  unfold emits, mbind, task_bind. destruct (m s) as [[[a|e'|] s1] ev1]; [|done|done].
  destruct (f a s1) as [[r2 s2] ev2]. simpl. intros He. apply elem_of_app. by left.
Qed.

(** Operations without output. *)
Definition silent {A} (m : task St Ev E A) : Prop := ∀ s, (m s).2 = [].

Lemma emits_silent {A B} (m : task St Ev E A) (f : A → task St Ev E B) s e :
  silent m → emits (m ≫= f) s e → ∃ a s1, m s = (Ok a, s1, []) ∧ emits (f a) s1 e.
Proof.
  intros Hm [He|(a & s1 & ev1 & Hr & He)]%emits_bind; [unfold emits in He; by rewrite Hm in He; apply elem_of_nil in He|].
  specialize (Hm s). rewrite Hr in Hm. simpl in Hm. subst. eauto.
Qed.

Lemma silent_get : silent get.
Proof. by intros s. Qed.
Lemma silent_gets {A} (f : St → A) : silent (gets f).
Proof. by intros s. Qed.
Lemma silent_ret {A} (a : A) : silent (mret a).
Proof. by intros s. Qed.
Lemma silent_lift {A} (o : outcome E A) : silent (lift o).
Proof. by intros s. Qed.
Lemma silent_update f : silent (update f).
Proof. intros s. unfold update. by destruct (f s). Qed.
Lemma silent_swallow f : silent (swallow f).
Proof. intros s. unfold swallow. by destruct (f s). Qed.

Lemma silent_require b e : silent (require b e).
Proof. by intros s. Qed.
Lemma silent_with_context {A} (o : outcome E A) e : silent (with_context o e).
Proof. by intros s. Qed.
Lemma silent_finish {A} (o : option A) : silent (finish o).
Proof. by intros s. Qed.
Lemma silent_bail {A} (e : E) : silent (bail (A:=A) e).
Proof. by intros s. Qed.

Lemma silent_bind {A B} (m : task St Ev E A) (f : A → task St Ev E B) :
  silent m → (∀ a, silent (f a)) → silent (m ≫= f).
Proof.
  intros Hm Hf s. specialize (Hm s). unfold mbind, task_bind.
  destruct (m s) as [[[a|e|] s1] ev1]; simpl in *; [|done|done]. subst.
  specialize (Hf a s1). by destruct (f a s1) as [[r2 s2] ev2].
Qed.

Lemma lift_run {A} (o : outcome E A) (s : St) a (s1 : St) (ev : list Ev) :
  lift o s = (Ok a, s1, ev) → o = Ok a ∧ s1 = s.
Proof. unfold lift. intros [= -> <- <-]. done. Qed.
Lemma require_run (b : bool) (e : E) (s : St) a (s1 : St) (ev : list Ev) :
  require b e s = (Ok a, s1, ev) → b = true ∧ s1 = s.
Proof. intros [Hb ->]%lift_run. by apply ensure_ok_inv in Hb. Qed.
Lemma with_context_run {A} (o : outcome E A) e (s : St) a (s1 : St) (ev : list Ev) :
  with_context o e s = (Ok a, s1, ev) → o = Ok a ∧ s1 = s.
Proof. intros [Hb ->]%lift_run. destruct o; naive_solver. Qed.
Lemma finish_run {A} (o : option A) (s : St) a (s1 : St) (ev : list Ev) :
  finish (E:=E) o s = (Ok a, s1, ev) → o = Some a ∧ s1 = s.
Proof. intros [Hb ->]%lift_run. destruct o; naive_solver. Qed.

Definition swallowed (f : St → outcome E St) (s : St) : St :=
  match f s with Ok s' => s' | _ => s end.
Lemma swallow_run (f : St → outcome E St) (s : St) a (s1 : St) (ev : list Ev) :
  swallow f s = (Ok a, s1, ev) → f s ≠ Panic ∧ s1 = swallowed f s.
Proof. unfold swallow, swallowed. destruct (f s); naive_solver. Qed.
Lemma swallow_ok (f : St → outcome E St) s :
  f s ≠ Panic → swallow f s = (Ok tt, swallowed f s, [] : list Ev).
Proof. unfold swallow, swallowed. by destruct (f s). Qed.
Lemma update_run (f : St → outcome E St) (s : St) a (s1 : St) (ev : list Ev) :
  update f s = (Ok a, s1, ev) → f s = Ok s1 ∧ True.
Proof. unfold update. destruct (f s); naive_solver. Qed.
Lemma get_run (s : St) a (s1 : St) (ev : list Ev) :
  get (E:=E) s = (Ok a, s1, ev) → a = s ∧ s1 = s.
Proof. by intros [= <- <- <-]. Qed.
Lemma gets_run {A} (f : St → A) (s : St) a (s1 : St) (ev : list Ev) :
  gets (E:=E) f s = (Ok a, s1, ev) → a = f s ∧ s1 = s.
Proof. by intros [= <- <- <-]. Qed.
Lemma ret_run {A} (x : A) (s : St) a (s1 : St) (ev : list Ev) :
  mret (M:=task St Ev E) x s = (Ok a, s1, ev) → a = x ∧ s1 = s.
Proof. by intros [= <- <- <-]. Qed.

(** An invariant of the state kept by every operation is kept by the whole. *)
Definition keeps {A} (I : St → Prop) (m : task St Ev E A) : Prop :=
  ∀ s, I s → I (m s).1.2.

Lemma keeps_ret {A} I (a : A) : keeps I (mret a).
Proof. by intros s. Qed.
Lemma keeps_bind {A B} I (m : task St Ev E A) (f : A → task St Ev E B) :
  keeps I m → (∀ a, keeps I (f a)) → keeps I (m ≫= f).
Proof.
  intros Hm Hf s Hs. specialize (Hm s Hs). unfold mbind, task_bind.
  destruct (m s) as [[[a|e|] s1] ev1]; simpl in *; [|done|done].
  specialize (Hf a s1 Hm). by destruct (f a s1) as [[r2 s2] ev2].
Qed.
Lemma keeps_get I : keeps I get.
Proof. by intros s. Qed.
Lemma keeps_gets {A} I (f : St → A) : keeps I (gets f).
Proof. by intros s. Qed.
Lemma keeps_emit I e : keeps I (emit e).
Proof. by intros s. Qed.
Lemma keeps_emit_all I l : keeps I (emit_all l).
Proof. by intros s. Qed.
Lemma keeps_lift {A} I (o : outcome E A) : keeps I (lift o).
Proof. by intros s. Qed.
Lemma keeps_require I b e : keeps I (require b e).
Proof. by intros s. Qed.
Lemma keeps_with_context {A} I (o : outcome E A) e : keeps I (with_context o e).
Proof. by intros s. Qed.
Lemma keeps_finish {A} I (o : option A) : keeps I (finish o).
Proof. by intros s. Qed.
Lemma keeps_bail {A} I (e : E) : keeps I (bail (A:=A) e).
Proof. by intros s. Qed.
Lemma keeps_modify (I : St → Prop) f : (∀ s, I s → I (f s)) → keeps I (modify f).
Proof. intros Hf s Hs. by apply Hf. Qed.
Lemma keeps_update (I : St → Prop) f : (∀ s s', I s → f s = Ok s' → I s') → keeps I (update f).
Proof. intros Hf s Hs. unfold update. destruct (f s) eqn:Hfs; simpl; eauto. Qed.
Lemma keeps_swallow (I : St → Prop) f : (∀ s s', I s → f s = Ok s' → I s') → keeps I (swallow f).
Proof. intros Hf s Hs. unfold swallow. destruct (f s) eqn:Hfs; simpl; eauto. Qed.
Lemma keeps_logged (I : St → Prop) m : keeps I m → keeps I (logged m).
Proof. intros Hm s Hs. specialize (Hm s Hs). unfold logged. by destruct (m s) as [[[]]]. Qed.
Lemma keeps_ok_result {A} (I : St → Prop) (m : task St Ev E A) : keeps I m → keeps I (ok_result m).
Proof. intros Hm s Hs. specialize (Hm s Hs). unfold ok_result. by destruct (m s) as [[[]]]. Qed.
Lemma keeps_run {A} (I : St → Prop) (m : task St Ev E A) s r s' ev :
  keeps I m → I s → m s = (r, s', ev) → I s'.
Proof. intros Hm Hs Hr. specialize (Hm s Hs). by rewrite Hr in Hm. Qed.

(** The same, and no panic. *)
Definition sound {A} (I : St → Prop) (m : task St Ev E A) : Prop :=
  ∀ s, I s → (m s).1.1 ≠ Panic ∧ I (m s).1.2.

Lemma sound_bind {A B} I (m : task St Ev E A) (f : A → task St Ev E B) :
  sound I m → (∀ a, sound I (f a)) → sound I (m ≫= f).
Proof.
  intros Hm Hf s Hs. specialize (Hm s Hs). unfold mbind, task_bind.
  destruct (m s) as [[[a|e|] s1] ev1]; simpl in *;
    [|split; [done|apply Hm]|by destruct Hm].
  specialize (Hf a s1 (proj2 Hm)). by destruct (f a s1) as [[r2 s2] ev2].
Qed.
Lemma sound_ret {A} I (a : A) : sound I (mret a).
Proof. by intros s. Qed.
Lemma sound_get I : sound I get.
Proof. by intros s. Qed.
Lemma sound_get_bind {A} (I : St → Prop) (f : St → task St Ev E A) :
  (∀ s, I s → sound I (f s)) → sound I (get ≫= f).
Proof.
  intros Hf s Hs. specialize (Hf s Hs s Hs). unfold mbind, task_bind. simpl. by destruct (f s s) as [[]].
Qed.
Lemma sound_lift_bind {A B} (I : St → Prop) a (f : A → task St Ev E B) :
  sound I (f a) → sound I (lift (Ok a) ≫= f).
Proof. intros Hf s Hs. specialize (Hf s Hs). by rewrite (bind_ok _ _ s a s). Qed.
Lemma sound_require I b e : sound I (require b e).
Proof. intros s. by destruct b. Qed.
Lemma sound_bail {A} I (e : E) : sound I (bail (A:=A) e).
Proof. by intros s. Qed.
Lemma sound_emit I e : sound I (emit e).
Proof. by intros s. Qed.
Lemma sound_emit_all I l : sound I (emit_all l).
Proof. by intros s. Qed.
Lemma sound_lift {A} I (o : outcome E A) : o ≠ Panic → sound I (lift o).
Proof. by intros Ho s Hs. Qed.
Lemma sound_ok_or {A} I (o : option A) e : sound I (lift (ok_or o e)).
Proof. intros s. by destruct o. Qed.
Lemma sound_modify (I : St → Prop) f : (∀ s, I s → I (f s)) → sound I (modify f).
Proof. intros Hf s Hs. split; [done|by apply Hf]. Qed.
Lemma sound_update (I : St → Prop) f :
  (∀ s, I s → f s ≠ Panic) → (∀ s s', I s → f s = Ok s' → I s') → sound I (update f).
Proof.
  intros Hp Hf s Hs. specialize (Hp s Hs). unfold update. destruct (f s) eqn:Hfs; simpl; eauto.
Qed.

(** Every event sent satisfies [P]. *)
Definition only {A} (P : Ev → Prop) (m : task St Ev E A) : Prop := ∀ s e, emits m s e → P e.

Lemma only_silent {A} P (m : task St Ev E A) : silent m → only P m.
Proof. intros Hm s e. unfold emits. rewrite Hm. by intros []%elem_of_nil. Qed.
Lemma only_emit (P : Ev → Prop) e : P e → only P (emit e).
Proof. by intros He s e' ->%list_elem_of_singleton. Qed.
Lemma only_emit_all (P : Ev → Prop) l : Forall P l → only P (emit_all l).
Proof. intros Hl s e He. by apply (proj1 (Forall_forall P l) Hl e). Qed.
Lemma only_bind {A B} P (m : task St Ev E A) (f : A → task St Ev E B) :
  only P m → (∀ a, only P (f a)) → only P (m ≫= f).
Proof. intros Hm Hf s e [He|(a & s1 & _ & _ & He)]%emits_bind; [by eapply Hm|by eapply Hf]. Qed.
Lemma only_logged P (m : task St Ev E unit) : only P m → only P (logged m).
Proof. intros Hm s e He. apply (Hm s). unfold emits, logged in *. by destruct (m s) as [[[]]]. Qed.
Lemma only_ok_result {A} P (m : task St Ev E A) : only P m → only P (ok_result m).
Proof. intros Hm s e He. apply (Hm s). unfold emits, ok_result in *. by destruct (m s) as [[[]]]. Qed.
Lemma only_impl {A} (P Q : Ev → Prop) (m : task St Ev E A) : only P m → (∀ e, P e → Q e) → only Q m.
Proof. unfold only. eauto. Qed.
Lemma emits_ret {A} (a : A) s e : emits (mret a) s e → False.
Proof. by intros []%elem_of_nil. Qed.
Lemma silent_modify f : silent (modify f).
Proof. by intros s. Qed.
Lemma ok_result_run {A} (m : task St Ev E A) s r s' ev :
  ok_result m s = (r, s', ev) →
  match r with
  | Ok (Some a) => m s = (Ok a, s', ev)
  | Ok None => ∃ e, m s = (Err e, s', ev)
  | Err _ => False
  | Panic => m s = (Panic, s', ev)
  end.
Proof. unfold ok_result. destruct (m s) as [[[]]]; intros [= <- <- <-]; eauto. Qed.
End Runs.

#[export] Hint Resolve sound_ret sound_get sound_require sound_bail sound_emit sound_emit_all sound_ok_or : hotshot.

Ltac sound_step :=
  repeat first
    [ progress intros
    | solve [auto with hotshot]
    | apply sound_bind
    | match goal with |- sound _ (match ?x with _ => _ end) => destruct x end ].

#[export] Hint Resolve silent_get silent_gets silent_ret silent_lift silent_update silent_swallow
  silent_require silent_with_context silent_finish silent_bail silent_modify : hotshot.
#[export] Hint Resolve only_silent only_emit only_logged only_ok_result : hotshot.
#[export] Hint Resolve keeps_ret keeps_get keeps_gets keeps_emit keeps_emit_all keeps_lift keeps_logged keeps_ok_result keeps_require
  keeps_with_context keeps_finish keeps_bail : hotshot.

(** Split a handler into its operations. *)
Ltac keeps_step :=
  repeat first
    [ progress intros
    | solve [auto with hotshot]
    | apply keeps_bind
    | apply keeps_logged | apply keeps_ok_result
    | match goal with |- keeps _ (match ?x with _ => _ end) => destruct x end ].

Ltac only_step :=
  repeat first
    [ progress intros
    | solve [auto with hotshot]
    | apply only_bind
    | apply only_emit; simpl; solve [auto with hotshot]
    | apply only_logged | apply only_ok_result
    | match goal with |- only _ (match ?x with _ => _ end) => destruct x end ].

Ltac solve_silent :=
  repeat first
    [ progress intros
    | solve [auto with hotshot]
    | apply silent_bind
    | match goal with |- silent (match ?x with _ => _ end) => destruct x end ].

(** Follow an event backwards through the silent operations before it: one
    equation for each operation run. *)
Ltac peel H :=
  let a := fresh "a" in let s := fresh "s" in let Hr := fresh "Hrun" in
  apply emits_silent in H as (a & s & Hr & H); [|solve_silent];
  first
    [ let Hb := fresh "Hb" in apply require_run in Hr as [Hb ->]
    | let Hb := fresh "Hb" in apply with_context_run in Hr as [Hb ->]
    | let Hb := fresh "Hb" in apply finish_run in Hr as [Hb ->]
    | let Hb := fresh "Hb" in apply swallow_run in Hr as [Hb ->]
    | apply get_run in Hr as [-> ->]
    | apply gets_run in Hr as [-> ->]
    | apply ret_run in Hr as [-> ->]
    | let Hb := fresh "Hb" in apply lift_run in Hr as [Hb ->]
    | idtac ].
