(* ===== verification/TaskLoop.v ===== *)
(** * The loop of a task

    [task/src/task.rs]: a [Task] receives events and passes them to the handler of its
    state until it receives the shutdown event or its channel is closed; the registries
    wait for their tasks to end.  A channel that has overflowed gives an error and goes
    on with the events that are left. *)

From S2P Require Import Prelude Task.

(** The traits [TaskState] and [TaskEvent]. *)
Class TaskState (S Ev E : Type) := {
  #[global] Ev_eq_dec :: EqDecision Ev;
  shutdown_event : Ev;
  handle_event : Ev → task S Ev E unit;
  cancel_subtasks : S → S;
}.

(** What [recv_direct] gives. *)
Inductive Recv (Ev : Type) := Received (input : Ev) | Closed | Overflowed.
Arguments Received {Ev}.
Arguments Closed {Ev}.
Arguments Overflowed {Ev}.

Section Loop.
Context {S Ev E : Type} `{Ts : !TaskState S Ev E}.

(** A task that waits for more, has ended with its state, or has panicked. *)
Inductive TaskRun := Waiting (s : S) | Ended (s : S) | Panicked.

(** [Task::run], with what the handler broadcasts. *)
Fixpoint run (s : S) (inputs : list (Recv Ev)) : TaskRun * list Ev :=
  match inputs with
  | [] => (Waiting s, [])
  | Received input :: inputs =>
      if decide (input = shutdown_event) then (Ended (cancel_subtasks s), [])
      else
        match handle_event input s with
        | (Panic, _, out) => (Panicked, out)
        | (_, s, out) => let '(r, out') := run s inputs in (r, out ++ out')
        end
  | Closed :: _ => (Ended s, [])
  | Overflowed :: inputs => run s inputs
  end.

(** ** Registries *)

(** [ConsensusTaskRegistry::shutdown]: the tasks are awaited from the last to the first,
    and the subtasks of each are cancelled; one that has panicked is passed over.
    [None] while a task is still running. *)
Fixpoint registry_shutdown (handles : list TaskRun) : option (list S) :=
  match handles with
  | [] => Some []
  | h :: handles =>
      rest ← registry_shutdown handles;
      match h with
      | Waiting _ => None
      | Ended s => Some (cancel_subtasks s :: rest)
      | Panicked => Some rest
      end
  end.

(** [join_all]: a task that has panicked makes it panic. *)
Fixpoint join_all (handles : list TaskRun) : option (outcome E (list S)) :=
  match handles with
  | [] => Some (Ok [])
  | h :: handles =>
      match h with
      | Waiting _ => None
      | Ended s => (fun r => states ← r; Ok (s :: states)) <$> join_all handles
      | Panicked => Some Panic
      end
  end.

(** ** Properties *)

(** The handler never panics. *)
Definition no_panic : Prop := ∀ e s, (handle_event e s).1.1 ≠ Panic.

(** The state after a list of events, also of those whose handling fails. *)
Fixpoint handle_all (s : S) (events : list Ev) : S :=
  match events with [] => s | e :: events => handle_all (handle_event e s).1.2 events end.

Definition events_of (inputs : list (Recv Ev)) : list Ev :=
  omap (fun i => match i with Received e => Some e | _ => None end) inputs.

Lemma run_until_shutdown s inputs rest :
  no_panic → Closed ∉ inputs → shutdown_event ∉ events_of inputs →
  (run s (inputs ++ Received shutdown_event :: rest)).1 = Ended (cancel_subtasks (handle_all s (events_of inputs))).
Proof using Type.
  intros Hp. revert s. induction inputs as [|i inputs IH]; intros s Hc Hs; simpl.
  { by rewrite decide_True. }
  apply not_elem_of_cons in Hc as [Hi Hc]. destruct i as [e| |]; simpl in *; [|done|by apply IH].
  apply not_elem_of_cons in Hs as [He Hs]. rewrite decide_False by done.
  specialize (Hp e s). destruct (handle_event e s) as [[r s1] out]. simpl in *.
  specialize (IH s1 Hc Hs). destruct (run s1 _) as [t out']. by destruct r.
Qed.

(** A task handles every event that comes before the shutdown event, in order and
    whether or not handling it fails, and then ends with its subtasks cancelled, whatever
    comes after; an invariant that the handler keeps and cancelling keeps holds at the
    end; and a registry all of whose tasks have received the shutdown event shuts down,
    with every task's subtasks cancelled. *)
Theorem tasks_end_at_shutdown (runs : list (S * list (Recv Ev) * list (Recv Ev))) (I : S → Prop) :
  no_panic → (∀ e s, I s → I (handle_event e s).1.2) → (∀ s, I s → I (cancel_subtasks s)) →
  Forall (fun '(s, inputs, rest) => I s ∧ Closed ∉ inputs ∧ shutdown_event ∉ events_of inputs) runs →
  let ends := map (fun '(s, inputs, rest) => handle_all s (events_of inputs)) runs in
  map (fun '(s, inputs, rest) => (run s (inputs ++ Received shutdown_event :: rest)).1) runs =
    map (fun s => Ended (cancel_subtasks s)) ends ∧
  registry_shutdown (map (fun s => Ended (cancel_subtasks s)) ends) =
    Some (map (fun s => cancel_subtasks (cancel_subtasks s)) ends) ∧
  Forall (fun s => I (cancel_subtasks s)) ends.
Proof using Type.
  intros Hp Hh Hc Hruns ends. assert (∀ events s, I s → I (handle_all s events)) as Hall.
  { induction events as [|e events IH]; intros s Hs; simpl; [done|]. by apply IH, Hh. }
  split_and!.
  - subst ends. rewrite map_map. apply map_ext_in. intros [[s inputs] rest] Hin%list_elem_of_In.
    rewrite Forall_forall in Hruns. destruct (Hruns _ Hin) as (_ & ? & ?). by apply run_until_shutdown.
  - clear. induction ends as [|s ends IH]; simpl; [done|]. by rewrite IH.
  - subst ends. apply Forall_map. eapply Forall_impl; [exact Hruns|]. intros [[s inputs] rest] (Hs & _). simpl. auto.
Qed.
End Loop.

Module LoopWitnesses.
(** A task that adds up what it receives and refuses negative numbers; [None] is the
    shutdown event. *)
#[local] Instance adder : TaskState Z (option Z) string := {|
  shutdown_event := None;
  handle_event e s :=
    match e with
    | Some x => if x <? 0 then (Err "negative", s, []) else (Ok tt, s + x, [Some (s + x)])
    | None => (Ok tt, s, [])
    end;
  cancel_subtasks s := s;
|}.

Lemma adder_never_panics : no_panic.
Proof. intros [x|] s; simpl; [by destruct (x <? 0)|done]. Qed.

Definition adder_inputs : list (Recv (option Z)) := [Received (Some 1); Overflowed; Received (Some (-5)); Received (Some 2)].

Lemma tasks_end_at_shutdown_witness :
  map (fun '(s, inputs, rest) => (run s (inputs ++ Received shutdown_event :: rest)).1) [(0, adder_inputs, [Received (Some 9)])]
    = [Ended 3].
Proof.
  refine (proj1 (tasks_end_at_shutdown [(0, adder_inputs, [Received (Some 9)])] (fun s => 0 <= s) adder_never_panics _ _ _)).
  - intros [x|] s Hs; simpl; [|done]. destruct (Z.ltb_spec x 0); simpl; lia.
  - done.
  - constructor; [|constructor]. split_and!; [done|..]; vm_compute; set_solver.
Defined.
End LoopWitnesses.
