(* ===== verification/Dependency.v ===== *)
(** * Dependencies

    [task/src/dependency.rs] and [dependency_task.rs]: waiting for events.  A
    dependency is polled against what its receiver has delivered so far, a list of
    results of [recv_direct]; [Pending] is a future that is still waiting.

    [FuturesUnordered] delivers the results of its futures in the order in which
    they complete: [yields] relates the futures to any such order. *)

From S2P Require Import Prelude.

(** What a channel delivers. *)
Inductive recv_result (T : Type) := Received (e : T) | Overflowed (n : nat) | Closed.
Arguments Received {T}. Arguments Overflowed {T}. Arguments Closed {T}.

Inductive poll (A : Type) := Pending | Ready (a : A).
Arguments Pending {A}. Arguments Ready {A}.

Section Dependencies.
Context {T : Type}.

(** ** Events *)

Record EventDependency := {
  match_fn : T → bool;
  completed_dependency : option T;
}.

Definition EventDependency_new (match_fn : T → bool) : EventDependency :=
  {| match_fn := match_fn; completed_dependency := None |}.

Definition mark_as_completed (d : EventDependency) (dependency : T) : EventDependency :=
  {| match_fn := match_fn d; completed_dependency := Some dependency |}.

Fixpoint event_loop (match_fn : T → bool) (event_rx : list (recv_result T)) : poll (option T) :=
  match event_rx with
  | [] => Pending
  | Received event :: event_rx =>
      if match_fn event then Ready (Some event) else event_loop match_fn event_rx
  | Overflowed _ :: event_rx => event_loop match_fn event_rx
  | Closed :: _ => Ready None
  end.

Definition event_completed (d : EventDependency) (event_rx : list (recv_result T)) : poll (option T) :=
  match completed_dependency d with
  | Some dependency => Ready (Some dependency)
  | None => event_loop (match_fn d) event_rx
  end.

(** ** Combinations *)

(** The results delivered first, in order, and the futures that are left. *)
Definition yields {A} (futures : list (poll A)) (done : list A) (rest : list (poll A)) : Prop :=
  futures ≡ₚ map Ready done ++ rest.

(** All of them: [collect::<Vec<Option<T>>>().await.into_iter().collect()]. *)
Inductive and_completed (deps : list (poll (option T))) : option (list T) → Prop :=
  | and_all done : yields deps done [] → and_completed deps (mapM id done).

(** The first one with a value; [None] once the stream is empty. *)
Fixpoint or_loop (done : list (option T)) : option T :=
  match done with
  | [] => None
  | Some v :: _ => Some v
  | None :: done => or_loop done
  end.
Inductive or_completed (deps : list (poll (option T))) : option T → Prop :=
  | or_some done rest v : yields deps done rest → or_loop done = Some v → or_completed deps (Some v)
  | or_none done : yields deps done [] → or_loop done = None → or_completed deps None.

(** [DependencyTask::run]: the handler runs once, on a result. *)
Definition run_dependency {A R} (completed : option A) (handle_dep_result : A → R) (skip : R) : R :=
  match completed with
  | Some completed => handle_dep_result completed
  | None => skip
  end.

(** ** Lemmas *)

Lemma eq_Permutation {A} (l k : list A) : l = k → l ≡ₚ k.
Proof. by intros ->. Qed.

(** An event dependency completes with its first matching event. *)
Lemma event_loop_some f rx e :
  event_loop f rx = Ready (Some e) ↔
  ∃ past rest, rx = past ++ Received e :: rest ∧ f e = true ∧
    (∀ x, Received x ∈ past → f x = false) ∧ Closed ∉ past.
Proof.
  split.
  - induction rx as [|[x|n|] rx IH]; simpl; [done| | |done].
    + destruct (f x) eqn:Hf; [intros [= ->]; exists [], rx; set_solver|].
      intros (past & rest & -> & He & Hp & Hc)%IH. exists (Received x :: past), rest. set_solver.
    + intros (past & rest & -> & He & Hp & Hc)%IH. exists (Overflowed n :: past), rest. set_solver.
  - intros (past & rest & -> & He & Hp & Hc). induction past as [|[x|n|] past IH]; simpl.
    + by rewrite He.
    + rewrite Hp by set_solver. apply IH; set_solver.
    + apply IH; set_solver.
    + set_solver.
Qed.

Lemma event_completed_match d rx e :
  event_completed d rx = Ready (Some e) →
  completed_dependency d = Some e ∨ (completed_dependency d = None ∧ match_fn d e = true ∧ Received e ∈ rx).
Proof.
  unfold event_completed. destruct (completed_dependency d); [intros [= ->]; by left|].
  intros (past & rest & -> & ? & _)%event_loop_some. right. set_solver.
Qed.

(** The result of a conjunction is a permutation of the results of its parts. *)
Lemma and_completed_some deps res :
  and_completed deps (Some res) ↔ deps ≡ₚ map (fun e => Ready (Some e)) res.
Proof.
  split.
  - inversion 1 as [done Hy Hr]. unfold yields in Hy. rewrite app_nil_r in Hy.
    rewrite Hy. apply mapM_Some_1 in Hr. apply eq_Permutation.
    clear H Hy. induction Hr as [|x y l k Hxy _ IH]; simpl; [done|]. unfold id in Hxy. by rewrite Hxy, IH.
  - intros H. assert (mapM id (map Some res) = Some res) as <-.
    { apply mapM_Some_2. apply Forall2_fmap_l. by apply Forall_Forall2_diag, Forall_true. }
    constructor. unfold yields. by rewrite app_nil_r, map_map.
Qed.

Lemma or_loop_some done v : or_loop done = Some v → Some v ∈ done.
Proof. induction done as [|[x|] done IH]; simpl; [done|intros [= ->]; by left|intros ?; right; auto]. Qed.

Lemma or_loop_none done : or_loop done = None ↔ ∀ x, x ∈ done → x = None.
Proof.
  induction done as [|[x|] done IH]; simpl.
  - set_solver.
  - split; [done|]. intros H. specialize (H (Some x)). set_solver.
  - rewrite IH. set_solver.
Qed.

(** A disjunction completes with a value of one of its parts, and with nothing
    only if no part has a value. *)
Lemma or_completed_iff deps r :
  or_completed deps r ↔
  match r with
  | Some v => Ready (Some v) ∈ deps
  | None => ∀ x, x ∈ deps → x = Ready None
  end.
Proof.
  split.
  - intros [done rest v Hy Hv|done Hy Hn]; unfold yields in Hy.
    + rewrite Hy. apply elem_of_app. left. apply list_elem_of_fmap_2. by apply or_loop_some.
    + intros x. rewrite Hy, app_nil_r. intros (y & -> & Hin)%list_elem_of_fmap. f_equal.
      by apply or_loop_none with (done := done).
  - destruct r as [v|].
    + intros (l1 & l2 & ->)%list_elem_of_split. apply (or_some _ [Some v] (l1 ++ l2)); [|done].
      unfold yields. simpl. by rewrite Permutation_middle.
    + intros H. apply (or_none _ (replicate (length deps) None)).
      * unfold yields. rewrite app_nil_r. apply eq_Permutation. clear - H.
        induction deps as [|x deps IH]; simpl; [done|]. rewrite (H x) by left. f_equal. apply IH. set_solver.
      * apply or_loop_none. intros x Hx. by apply elem_of_replicate in Hx as [-> _].
Qed.
End Dependencies.
Arguments EventDependency : clear implicits.
