(* ===== verification/ProposalValidation.v ===== *)
(** * Validating quorum proposals

    [validate_proposal_view_and_certs], [validate_proposal_safety_and_liveness],
    [fetch_proposal] and [parent_leaf_and_state] of [task-impls/src/helpers.rs],
    and the handler of [task-impls/src/quorum_proposal_recv/handlers.rs].

    The handlers are [task]s over the consensus state.  What the storage answers
    and which proposals peers send back to a request are arguments. *)

From S2P Require Import Prelude Epochs Crypto Committee Votes Certificates VoteCollection Data Vid Consensus ConsensusProofs Task.

(** The answers of the node's storage: whether each write succeeds. *)
Record StorageAnswers := {
  undecided_stored : bool;
  high_qc_stored : bool;
  next_epoch_high_qc_stored : bool;
  proposal_stored : bool;
  vid_stored : bool;
}.

Section ProposalValidation.
Context `{Sg : SignatureScheme} `{Cm : Committable} `{Vt : VidTypes} `{Vs : Versions}.
Context `{Bt : !BlockTypes} `{Vd : !VidScheme}.
Context {M : Type} `{Mb : !Membership M}.
(** [SignatureKey::to_bytes] *)
Context (key_to_bytes : PubKey → bytes).

(** What the handlers send: to the other tasks, to the application, and the
    background task [spawn_fetch_proposal]. *)
Inductive ProposalEvent :=
  | SpawnFetchProposal (view : ViewNumber)
  | QuorumProposalRequestSend (view : ViewNumber) (key : PubKey) (sig : Sig)
  | QuorumProposalPreliminarilyValidated (p : Proposal QuorumProposal2)
  | QuorumProposalValidated (p : Proposal QuorumProposal2) (parent : Leaf2)
  | ViewChange (view : ViewNumber) (epoch : option EpochNumber)
  | AppQuorumProposal (view : ViewNumber) (p : Proposal QuorumProposal2) (sender : PubKey)
  | AppError (view : ViewNumber) (e : HotShotError).

Record ValidationInfo := {
  vi_public_key : PubKey;
  vi_private_key : PrivKey;
  vi_membership : M;
  vi_upgrade_lock : UpgradeLock;
  vi_epoch_height : Z;
  vi_storage : StorageAnswers;
}.

Abbreviation handler := (task Consensus ProposalEvent Error).

(** ** Fetching a proposal *)

Definition proposal_request_commit (view : ViewNumber) (key : PubKey) : Commitment :=
  finalize "signed proposal request commitment"
    [CbU64Field "view number" view; CbVarSizeBytes (key_to_bytes key)].

(** The responses that arrive before the timeout, in order: the first one for
    the view with a valid signature is taken. *)
Fixpoint await_proposal (view : ViewNumber) (responses : list (Proposal QuorumProposal2))
    (membership : M) (epoch_height : Z) : outcome Error (Proposal QuorumProposal2) :=
  match responses with
  | [] => Err "Request for proposal failed"
  | p :: responses =>
      if p_view_number (proposal_data p) =? view then
        match validate_signature p membership epoch_height with
        | Ok _ => Ok p
        | Err _ => await_proposal view responses membership epoch_height
        | Panic => Panic
        end
      else await_proposal view responses membership epoch_height
  end.

(** A certificate against the stake table and success threshold of an epoch. *)
Definition valid_cert_in {D TH} `{!Voteable D} (cert : SimpleCertificate D TH) (membership : M)
    (epoch : option EpochNumber) (lock : UpgradeLock) : outcome Error unit :=
  membership_stake_table ← stake_table membership epoch;
  membership_success_threshold ← success_threshold membership epoch;
  is_valid_cert cert membership_stake_table membership_success_threshold lock.

Definition fetch_proposal (view : ViewNumber) (responses : list (Proposal QuorumProposal2))
    (membership : M) (public_key : PubKey) (private_key : PrivKey) (lock : UpgradeLock)
    (epoch_height : Z) : handler (Leaf2 * ViewInner) :=
  signature ← lift (ok_or (sign private_key (as_ref (proposal_request_commit view public_key)))
                      "Failed to sign proposal. This should never happen.");
  _ ← emit (QuorumProposalRequestSend view public_key signature);
  proposal ← lift (await_proposal view responses membership epoch_height);
  let justify_qc := p_justify_qc (proposal_data proposal) in
  let justify_qc_epoch := q2_epoch (data justify_qc) in
  _ ← with_context (valid_cert_in justify_qc membership justify_qc_epoch lock)
        "Invalid justify_qc in proposal for view";
  let leaf := leaf2_from_quorum_proposal (proposal_data proposal) in
  let state := from_header (p_block_header (proposal_data proposal)) in
  _ ← swallow (fun c => update_leaf c leaf state None);
  mret (leaf, LeafView (leaf2_commit leaf) state None (leaf_epoch leaf epoch_height)).

Definition parent_leaf_and_state (responses : list (Proposal QuorumProposal2)) (membership : M)
    (public_key : PubKey) (private_key : PrivKey) (lock : UpgradeLock)
    (parent_view_number : ViewNumber) (epoch_height : Z) : handler (Leaf2 * ValidatedState) :=
  c ← get;
  let vsm_contains_parent_view := bool_decide (is_Some (validated_state_map c !! parent_view_number)) in
  _ ← (if vsm_contains_parent_view then mret tt
       else _ ← fetch_proposal parent_view_number responses membership public_key private_key lock
                  epoch_height; mret tt);
  c ← get;
  parent_view ← lift (ok_or (validated_state_map c !! parent_view_number)
                        "Couldn't find parent view in state map, waiting for replica to see proposal");
  '(leaf_commitment, state) ← lift (ok_or (leaf_and_state parent_view)
                                "Parent of high QC points to a view without a proposal");
  leaf ← lift (ok_or (saved_leaves c !! leaf_commitment) "Failed to find high QC of parent");
  mret (leaf, state).

(** ** The view and the certificates of a proposal *)

Definition validate_view_change_evidence (evidence : option ViewChangeEvidence2)
    (view_number : ViewNumber) (membership : M) (lock : UpgradeLock) : outcome Error unit :=
  received_proposal_cert ← ok_or evidence
    "Quorum proposal needed a timeout or view sync certificate, but did not have one";
  match received_proposal_cert with
  | Timeout2 timeout_cert =>
      _ ← ensure (t2_view (data timeout_cert) =? wrapper_sub view_number 1)
            "Timeout certificate was not for the immediately preceding view";
      let timeout_cert_epoch := t2_epoch (data timeout_cert) in
      valid_cert_in timeout_cert membership timeout_cert_epoch lock
  | ViewSync2 view_sync_cert =>
      _ ← ensure (Votes.view_number view_sync_cert =? view_number)
            "View sync cert view number does not match proposal view number";
      let view_sync_cert_epoch := vsf2_epoch (data view_sync_cert) in
      valid_cert_in view_sync_cert membership view_sync_cert_epoch lock
  end.

Definition validate_proposal_view_and_certs (c : Consensus) (proposal : Proposal QuorumProposal2)
    (info : ValidationInfo) : outcome Error unit :=
  let p := proposal_data proposal in
  let view_number := p_view_number p in
  _ ← ensure (cur_view c <=? view_number) "Proposal is from an older view";
  _ ← validate_signature proposal (vi_membership info) (vi_epoch_height info);
  _ ← (if negb (Votes.view_number (p_justify_qc p) =? wrapper_sub view_number 1) then
         validate_view_change_evidence (p_view_change_evidence p) view_number
           (vi_membership info) (vi_upgrade_lock info)
       else Ok tt);
  let epoch := option_epoch_from_block_number (bool_decide (is_Some (p_epoch p)))
                 (block_number (p_block_header p)) (vi_epoch_height info) in
  validate_upgrade_certificate (p_upgrade_certificate p) (vi_membership info) epoch
    (vi_upgrade_lock info).

(** ** Safety and liveness *)

(** The closure of the safety check: stop at the locked view. *)
Definition not_locked (locked : ViewNumber) (leaf : Leaf2) (_ : ValidatedState) (_ : option Delta)
    (s : unit) : bool * unit := (negb (leaf_view leaf =? locked), s).

Definition safety_walk (c : Consensus) (justify_view : ViewNumber)
    : option (outcome HotShotError unit * unit) :=
  visit_leaf_ancestors c justify_view (Inclusive (locked_view c)) false (not_locked (locked_view c)) tt.

(** The epoch safety check: same epoch, or the parent formed the extended QC of
    the previous epoch. *)
Definition epoch_safe (c : Consensus) (proposed_leaf parent_leaf : Leaf2) (epoch_height : Z)
    : option bool :=
  let proposal_epoch := epoch_from_block_number (height proposed_leaf) epoch_height in
  let justify_qc_epoch := epoch_from_block_number (height parent_leaf) epoch_height in
  if proposal_epoch =? justify_qc_epoch then Some true else check_eqc c proposed_leaf parent_leaf.

Definition validate_proposal_safety_and_liveness (proposal : Proposal QuorumProposal2)
    (parent_leaf : Leaf2) (info : ValidationInfo) (sender : PubKey) : handler unit :=
  let p := proposal_data proposal in
  let view_number := p_view_number p in
  let proposed_leaf := leaf2_from_quorum_proposal p in
  _ ← require (bool_decide (parent_commitment proposed_leaf = leaf2_commit parent_leaf))
        "Proposed leaf does not extend the parent leaf.";
  let proposal_epoch := epoch_from_block_number (height proposed_leaf) (vi_epoch_height info) in
  let state := from_header (p_block_header p) in
  _ ← swallow (fun c => update_leaf c proposed_leaf state None);
  _ ← swallow (fun c => update_proposed_view c proposal);
  _ ← lift (validate_upgrade_certificate (p_upgrade_certificate p) (vi_membership info)
              (if with_epoch proposed_leaf then Some proposal_epoch else None) (vi_upgrade_lock info));
  _ ← lift (extends_upgrade proposed_leaf parent_leaf
              (decided_upgrade_certificate (vi_upgrade_lock info)));
  let justify_qc := p_justify_qc p in
  c ← get;
  safe ← finish (epoch_safe c proposed_leaf parent_leaf (vi_epoch_height info));
  _ ← require safe "Failed epoch safety check";
  _ ← (if is_last_block_in_epoch (height parent_leaf) (vi_epoch_height info) then
         require (bool_decide (is_Some (p_next_epoch_justify_qc p)))
           "Epoch transition proposal does not include the next epoch justify QC. Do not vote!"
       else mret tt);
  let liveness_check := locked_view c <? Votes.view_number justify_qc in
  '(result, _) ← finish (safety_walk c (Votes.view_number justify_qc));
  let safety_check := is_ok result in
  _ ← (if safety_check || liveness_check then mret tt
       else
         _ ← match result with Err e => emit (AppError view_number e) | _ => mret tt end;
         bail "Failed safety and liveness check");
  _ ← emit (AppQuorumProposal view_number proposal sender);
  emit (QuorumProposalValidated proposal parent_leaf).

(** ** [quorum_proposal_recv/handlers.rs] *)

Definition validate_proposal_liveness (proposal : Proposal QuorumProposal2) (info : ValidationInfo)
    : handler unit :=
  let p := proposal_data proposal in
  let leaf := leaf2_from_quorum_proposal p in
  let state := from_header (p_block_header p) in
  _ ← swallow (fun c => update_leaf c leaf state None);
  c ← get;
  let liveness_check := locked_view c <? Votes.view_number (p_justify_qc p) in
  _ ← (if liveness_check &&
          match version (vi_upgrade_lock info) (leaf_view leaf) with
          | Ok v => version_ge v Epochs
          | _ => false
          end
       then update (fun c => update_locked_view c (Votes.view_number (p_justify_qc p)))
       else mret tt);
  if negb liveness_check then bail "Quorum Proposal failed the liveness check" else mret tt.

(** The next-epoch certificate, when there is one, is for the same leaf, view and
    epoch, and valid in the next epoch. *)
Definition validate_next_epoch_justify_qc (justify_qc : QuorumCertificate2)
    (maybe_next_epoch_justify_qc : option NextEpochQuorumCertificate2) (info : ValidationInfo)
    : outcome Error unit :=
  match maybe_next_epoch_justify_qc with
  | None => Ok tt
  | Some next_epoch_justify_qc =>
      let d := next_epoch_data (data next_epoch_justify_qc) in
      if negb (Votes.view_number justify_qc =? Votes.view_number next_epoch_justify_qc) ||
         negb (bool_decide (q2_epoch (data justify_qc) = q2_epoch d)) ||
         negb (bool_decide (leaf_commit (data justify_qc) = leaf_commit d)) then
        Err "Next epoch justify qc exists but it's not equal with justify qc."
      else
        match valid_cert_in next_epoch_justify_qc (vi_membership info)
                ((fun x => wrapper_add x 1) <$> q2_epoch (data justify_qc)) (vi_upgrade_lock info) with
        | Ok _ => Ok tt
        | Err _ => Err "Invalid certificate for view"
        | Panic => Panic
        end
  end.

(** Storing a newer high QC must succeed. *)
Definition store_high_qc (c : Consensus) (justify_qc : QuorumCertificate2)
    (maybe_next_epoch_justify_qc : option NextEpochQuorumCertificate2) (info : ValidationInfo)
    : outcome Error unit :=
  if Votes.view_number (high_qc c) <? Votes.view_number justify_qc then
    _ ← ensure (high_qc_stored (vi_storage info)) "Failed to store High QC, not voting";
    match maybe_next_epoch_justify_qc with
    | Some _ => ensure (next_epoch_high_qc_stored (vi_storage info))
                  "Failed to store next epoch High QC, not voting"
    | None => Ok tt
    end
  else Ok tt.

Definition handle_quorum_proposal_recv (proposal : Proposal QuorumProposal2) (sender : PubKey)
    (info : ValidationInfo) : handler unit :=
  let p := proposal_data proposal in
  _ ← lift (validate_epoch p (vi_upgrade_lock info) (vi_epoch_height info));
  c ← get;
  _ ← with_context (validate_proposal_view_and_certs c proposal info)
        "Failed to validate proposal view or attached certs";
  let view_number := p_view_number p in
  let justify_qc := p_justify_qc p in
  let maybe_next_epoch_justify_qc := p_next_epoch_justify_qc p in
  let proposal_epoch := option_epoch_from_block_number (bool_decide (is_Some (p_epoch p)))
                          (block_number (p_block_header p)) (vi_epoch_height info) in
  _ ← with_context (valid_cert_in justify_qc (vi_membership info) (q2_epoch (data justify_qc))
                      (vi_upgrade_lock info)) "Invalid certificate for view";
  _ ← lift (validate_next_epoch_justify_qc justify_qc maybe_next_epoch_justify_qc info);
  _ ← emit (QuorumProposalPreliminarilyValidated proposal);
  parent_leaf ← gets (fun c => saved_leaves c !! leaf_commit (data justify_qc));
  _ ← match parent_leaf with
      | None => emit (SpawnFetchProposal (Votes.view_number justify_qc))
      | Some _ => mret tt
      end;
  c ← get;
  parent ← match parent_leaf with
           | Some leaf =>
               match (state_and_delta c (leaf_view leaf)).1 with
               | Some state => mret (Some (leaf, state))
               | None => bail "Parent state not found! Consensus internally inconsistent"
               end
           | None => mret None
           end;
  _ ← lift (store_high_qc c justify_qc maybe_next_epoch_justify_qc info);
  _ ← swallow (fun c => update_high_qc c justify_qc);
  _ ← match maybe_next_epoch_justify_qc with
      | Some qc => swallow (fun c => update_next_epoch_high_qc c qc)
      | None => mret tt
      end;
  match parent with
  | None =>
      _ ← validate_proposal_liveness proposal info;
      emit (ViewChange view_number proposal_epoch)
  | Some (parent_leaf, _) =>
      _ ← validate_proposal_safety_and_liveness proposal parent_leaf info sender;
      emit (ViewChange view_number proposal_epoch)
  end.

(** ** The task: [QuorumProposalRecvTaskState::handle] *)

Record QuorumProposalRecvTaskState := {
  qr_cur_view : ViewNumber;
  qr_cur_epoch : option EpochNumber;
}.

Definition recv_handle_proposal (t : QuorumProposalRecvTaskState) (proposal : Proposal QuorumProposal2)
    (sender : PubKey) (info : ValidationInfo) : handler unit :=
  c ← get;
  if (p_view_number (proposal_data proposal) <? cur_view c) ||
     (p_view_number (proposal_data proposal) <? qr_cur_view t) then mret tt
  else logged (handle_quorum_proposal_recv proposal sender info).

Definition recv_handle_view_change (t : QuorumProposalRecvTaskState) (view : ViewNumber)
    (epoch : option EpochNumber) : QuorumProposalRecvTaskState :=
  let cur_epoch := if epoch_gt epoch (qr_cur_epoch t) then epoch else qr_cur_epoch t in
  {| qr_cur_view := if view <=? qr_cur_view t then qr_cur_view t else view;
     qr_cur_epoch := cur_epoch |}.
End ProposalValidation.

(** ** Lemmas *)

Section ValidationLemmas.
Context `{Sg : SignatureScheme} `{Cm : Committable} `{Vt : VidTypes} `{Vs : Versions}.
Context `{Bt : !BlockTypes} `{Vd : !VidScheme}.
Context {M : Type} `{Mb : !Membership M}.
Context {Lm : CommittableLaws Cm} {Rk : CommitmentRank Cm}.
Implicit Types (c : Consensus) (leaf parent : Leaf2) (p : Proposal QuorumProposal2) (info : ValidationInfo (M := M)).

(** [h] leads, from a saved leaf to its parent and so on, each with a state, to a
    leaf of view [v]. *)
Inductive reaches c (v : ViewNumber) : Commitment → Prop :=
  | reaches_here h leaf :
      saved_leaves c !! h = Some leaf → is_Some (state c (leaf_view leaf)) → leaf_view leaf = v →
      reaches c v h
  | reaches_parent h leaf :
      saved_leaves c !! h = Some leaf → is_Some (state c (leaf_view leaf)) →
      reaches c v (parent_commitment leaf) → reaches c v h.

Lemma safety_loop_iff fuel c h r s :
  visit_loop fuel c (Inclusive (locked_view c)) false (not_locked (locked_view c)) h tt = Some (r, s) →
  is_ok r = true ↔ reaches c (locked_view c) h.
Proof using Type.
  revert h. induction fuel as [|fuel IH]; intros h H; [done|]. simpl in H.
  destruct (saved_leaves c !! h) as [leaf|] eqn:Hl;
    [|injection H as <- <-; split; [done|]; intros Hr; inversion Hr; congruence].
  pose proof (state_and_delta_state c (leaf_view leaf)) as Hst.
  destruct (state_and_delta c (leaf_view leaf)) as [[st|] d]; simpl in *;
    [|injection H as <- <-; split; [done|]; intros Hr; inversion Hr as [? ? ? [? ?]|? ? ? [? ?]]; congruence].
  destruct (Z.eqb_spec (leaf_view leaf) (locked_view c)) as [Hv|Hv]; simpl in H.
  { injection H as <- <-. split; [intros _|done]. eapply reaches_here; [done| |done]. rewrite <-Hst. by eexists. }
  destruct (Z.eqb_spec (locked_view c) (leaf_view leaf)); [congruence|].
  rewrite (IH _ H). split; intros Hr.
  - eapply reaches_parent; [done| |done]. rewrite <-Hst. by eexists.
  - inversion Hr; simplify_eq; done.
Qed.

(** The safety check: the locked view has a leaf on the chain of the justifying
    certificate's view. *)
Lemma safety_walk_iff c v r s :
  safety_walk c v = Some (r, s) →
  is_ok r = true ↔ ∃ h, validated_state_map c !! v ≫= leaf_commitment = Some h ∧ reaches c (locked_view c) h.
Proof using Type.
  unfold safety_walk, visit_leaf_ancestors.
  destruct (validated_state_map c !! v) as [x|]; [|intros [= <- <-]; naive_solver].
  change (Some x ≫= leaf_commitment) with (leaf_commitment x).
  destruct (leaf_commitment x) as [h|]; [|intros [= <- <-]; naive_solver].
  intros H%safety_loop_iff. rewrite H. naive_solver.
Qed.

(** The state after a proposal is recorded. *)
Definition record_proposal c p : Consensus :=
  let leaf := leaf2_from_quorum_proposal (proposal_data p) in
  swallowed (fun c => update_proposed_view c p)
    (swallowed (fun c => update_leaf c leaf (from_header (p_block_header (proposal_data p))) None) c).

(** What must hold for a proposal to be voted for, given its parent leaf. *)
Record safe_to_vote c p parent info : Prop := {
  sv_parent : leaf_commit (data (p_justify_qc (proposal_data p))) = leaf2_commit parent;
  sv_upgrade : extends_upgrade (leaf2_from_quorum_proposal (proposal_data p)) parent
    (decided_upgrade_certificate (vi_upgrade_lock info)) = Ok tt;
  sv_epoch : epoch_safe c (leaf2_from_quorum_proposal (proposal_data p)) parent (vi_epoch_height info) = Some true;
  sv_next_epoch : is_last_block_in_epoch (height parent) (vi_epoch_height info) = true →
    is_Some (p_next_epoch_justify_qc (proposal_data p));
  sv_lock : locked_view c < view_number (p_justify_qc (proposal_data p)) ∨
    ∃ h, validated_state_map c !! view_number (p_justify_qc (proposal_data p)) ≫= leaf_commitment = Some h ∧
         reaches c (locked_view c) h;
}.

Lemma validated_inv p parent info sender c q par :
  emits (validate_proposal_safety_and_liveness p parent info sender) c (QuorumProposalValidated q par) →
  q = p ∧ par = parent ∧ safe_to_vote (record_proposal c p) p parent info.
Proof using Type.
  unfold validate_proposal_safety_and_liveness. intros H. cbn zeta in H. do 5 peel H.
  match type of H with emits _ ?x _ => change x with (record_proposal c p) in H end.
  do 3 peel H. apply emits_silent in H as (u & c1 & Hnext & H); [|solve_silent].
  assert (c1 = record_proposal c p ∧
    (is_last_block_in_epoch (height parent) (vi_epoch_height info) = true →
     is_Some (p_next_epoch_justify_qc (proposal_data p)))) as [-> Hne].
  { destruct (is_last_block_in_epoch _ _); [apply require_run in Hnext as [? ->]|
      apply ret_run in Hnext as [_ ->]]; bool_facts; done. }
  peel H. destruct a6 as [r []]. destruct (is_ok r || _) eqn:Hor; cycle 1.
  { exfalso. apply emits_bind in H as [H|(? & ? & ? & Hr & _)].
    - apply emits_bind in H as [H|(? & ? & ? & _ & H)];
        [destruct r; by apply list_elem_of_singleton in H || by apply elem_of_nil in H|
         by apply elem_of_nil in H].
    - apply bind_run in Hr as (? & ? & ? & ? & _ & Hr & _). done. }
  peel H. apply emits_bind in H as [H|(? & ? & ? & _ & H)];
    apply list_elem_of_singleton in H; [done|]. injection H as -> ->.
  split; [done|]. split; [done|]. bool_facts. subst. split; try done; [by destruct a3|].
  destruct Hor as [Hs|Hl]; bool_facts; [right|by left]. by apply (safety_walk_iff _ _ r tt).
Qed.

(** The certificate of the evidence for entering a view without a QC of the view
    before it. *)
Definition evidence_valid (e : ViewChangeEvidence2) (info : ValidationInfo (M := M)) : Prop :=
  match e with
  | Timeout2 t => valid_cert_in t (vi_membership info) (t2_epoch (data t)) (vi_upgrade_lock info) = Ok tt
  | ViewSync2 v => valid_cert_in v (vi_membership info) (vsf2_epoch (data v)) (vi_upgrade_lock info) = Ok tt
  end.

Record entered_properly c p info : Prop := {
  ep_view : cur_view c <= p_view_number (proposal_data p);
  ep_signed : validate_signature p (vi_membership info) (vi_epoch_height info) = Ok tt;
  ep_evidence : view_number (p_justify_qc (proposal_data p)) = wrapper_sub (p_view_number (proposal_data p)) 1 ∨
    ∃ e, p_view_change_evidence (proposal_data p) = Some e ∧
      is_valid_for_view2 e (p_view_number (proposal_data p)) = true ∧ evidence_valid e info;
}.

Lemma bind_unit_inv {A} (m : outcome Error unit) (k : unit → outcome Error A) a :
  (x ← m; k x) = Ok a → m = Ok tt ∧ k tt = Ok a.
Proof using Type. by destruct m as [[]|e|]. Qed.

Lemma view_and_certs_inv c p info :
  validate_proposal_view_and_certs c p info = Ok tt → entered_properly c p info.
Proof using Type.
  unfold validate_proposal_view_and_certs. intros H.
  apply bind_unit_inv in H as [Hv%ensure_ok_inv H]. apply bind_unit_inv in H as [Hs H].
  apply bind_unit_inv in H as [He _]. bool_facts. split; [done|done|].
  destruct (Z.eqb_spec (view_number (p_justify_qc (proposal_data p)))
    (wrapper_sub (p_view_number (proposal_data p)) 1)); [by left|]. right. simpl in He.
  unfold validate_view_change_evidence in He.
  destruct (p_view_change_evidence (proposal_data p)) as [[t|v]|]; [|..|done];
    apply bind_unit_inv in He as [Hb%ensure_ok_inv Hc]; eexists; done.
Qed.

Lemma emits_emit {A} (e e' : ProposalEvent) (k : unit → task Consensus ProposalEvent Error A) c :
  e' ≠ e → emits (x ← emit e'; k x) c e → emits (k tt) c e.
Proof using Type.
  intros Hne [H|([] & s1 & ev1 & Hr & H)]%emits_bind; [|by injection Hr as <- <-].
  apply list_elem_of_singleton in H. congruence.
Qed.

(** The consensus state in which the safety check of a proposal runs. *)
Definition checked_state c p : Consensus :=
  let qc := p_justify_qc (proposal_data p) in
  let c := swallowed (fun c => update_high_qc c qc) c in
  let c := match p_next_epoch_justify_qc (proposal_data p) with
           | Some q => swallowed (fun c => update_next_epoch_high_qc c q) c
           | None => c
           end in
  record_proposal c p.

Lemma checked_state_locked c p : locked_view (checked_state c p) = locked_view c.
Proof using Type.
  assert (∀ (f : Consensus → outcome Error Consensus) c,
    (∀ c', f c = Ok c' → locked_view c' = locked_view c) → locked_view (swallowed f c) = locked_view c) as Hs.
  { intros f c0 Hf. unfold swallowed. destruct (f c0); eauto. }
  unfold checked_state, record_proposal. rewrite !Hs; [destruct (p_next_epoch_justify_qc _); rewrite ?Hs; try done|..].
  all: try (intros c' Hu; apply bind_ok_inv in Hu as ([] & _ & [= <-]); done).
  intros c' Hu. apply bind_ok_inv in Hu as (c1 & Hm & [= <-]). by apply update_map_ok in Hm as [-> _].
Qed.

(** ** The handler accepts *)

Lemma update_leaf_no_panic c leaf s d : update_leaf c leaf s d ≠ Panic.
Proof using Type.
  unfold update_leaf, update_validated_state_map.
  destruct (validated_state_map c !! leaf_view leaf) as [[| |]|]; simpl; try done. by destruct (ensure _ _) eqn:He;
    unfold ensure in He; destruct (_ || _).
Qed.

Lemma ensure_no_panic {A} b (e : Error) (m : outcome Error A) :
  m ≠ Panic → (_ ← ensure b e; m) ≠ Panic.
Proof using Type. by destruct b. Qed.

Lemma next_epoch_no_panic c qc : update_next_epoch_high_qc c qc ≠ Panic.
Proof using Type.
  unfold update_next_epoch_high_qc. destruct (next_epoch_high_qc c); [by apply ensure_no_panic|done].
Qed.

Lemma safe_emits c p parent info sender :
  cons_inv (record_proposal c p) →
  validate_upgrade_certificate (p_upgrade_certificate (proposal_data p)) (vi_membership info)
    (if with_epoch (leaf2_from_quorum_proposal (proposal_data p)) then
       Some (epoch_from_block_number (height (leaf2_from_quorum_proposal (proposal_data p)))
               (vi_epoch_height info))
     else None) (vi_upgrade_lock info) = Ok tt →
  safe_to_vote (record_proposal c p) p parent info →
  emits (validate_proposal_safety_and_liveness p parent info sender) c (QuorumProposalValidated p parent).
Proof using Rk.
  intros Hinv Hup [Hp Hext He Hn Hlock]. unfold validate_proposal_safety_and_liveness. cbn zeta.
  eapply emits_after; [unfold require; by rewrite bool_decide_eq_true_2|].
  eapply emits_after; [apply swallow_ok, update_leaf_no_panic|].
  eapply emits_after; [apply swallow_ok; by apply ensure_no_panic|].
  change (swallowed _ (swallowed _ c)) with (record_proposal c p).
  eapply emits_after; [unfold lift; by rewrite Hup|]. eapply emits_after; [unfold lift; by rewrite Hext|].
  eapply emits_after; [done|]. eapply emits_after; [unfold finish, lift; by rewrite He|].
  eapply emits_after; [done|].
  eapply (emits_after _ _ _ tt (record_proposal c p) []).
  { destruct (is_last_block_in_epoch _ _); [|done]. unfold require. by rewrite bool_decide_eq_true_2 by auto. }
  destruct (visit_total (record_proposal c p) (view_number (p_justify_qc (proposal_data p)))
    (Inclusive (locked_view (record_proposal c p))) false
    (not_locked (locked_view (record_proposal c p))) tt Hinv) as [[r []] Hw].
  eapply emits_after; [unfold finish, lift, safety_walk; by rewrite Hw|].
  eapply (emits_after _ _ _ tt (record_proposal c p) []).
  { destruct (is_ok r) eqn:Hr; [done|]. destruct Hlock as [Hl|Hl].
    - by rewrite (proj2 (Z.ltb_lt _ _) Hl).
    - apply (safety_walk_iff _ _ _ _ Hw) in Hl. congruence. }
  eapply emits_after; [done|]. by apply list_elem_of_singleton.
Qed.

(** ** The handlers keep the invariant *)

Definition later c0 c : Prop := cons_inv c ∧ progress c0 c.

Lemma later_step c0 c c' : later c0 c → step c c' → later c0 c'.
Proof using Lm.
  intros [Hc Hp] Hs. split; [by eapply step_inv|]. etrans; [done|by apply step_progress].
Qed.

Lemma proposal_leaf_ok p :
  leaf_wf (leaf2_from_quorum_proposal (proposal_data p)) → leaf_ok (leaf2_from_quorum_proposal (proposal_data p)).
Proof using Type. by split. Qed.

Lemma safety_keeps c0 p parent info sender :
  leaf_wf (leaf2_from_quorum_proposal (proposal_data p)) →
  keeps (later c0) (validate_proposal_safety_and_liveness p parent info sender).
Proof using Lm.
  intros Hwf. unfold validate_proposal_safety_and_liveness. cbn zeta.
  keeps_step; apply keeps_swallow; intros c c' Hl Hu; (eapply later_step; [done|]).
  - eapply step_leaf; [by apply proposal_leaf_ok|done].
  - by eapply step_proposed.
Qed.

Lemma liveness_keeps c0 p info :
  leaf_wf (leaf2_from_quorum_proposal (proposal_data p)) →
  keeps (later c0) (validate_proposal_liveness p info).
Proof using Lm.
  intros Hwf. unfold validate_proposal_liveness. cbn zeta.
  keeps_step; [apply keeps_swallow|apply keeps_update]; intros c c' Hl Hu; (eapply later_step; [done|]).
  - eapply step_leaf; [by apply proposal_leaf_ok|done].
  - by eapply step_locked.
Qed.

Lemma handle_keeps c0 p sender info :
  leaf_wf (leaf2_from_quorum_proposal (proposal_data p)) →
  keeps (later c0) (handle_quorum_proposal_recv p sender info).
Proof using Lm.
  intros Hwf. unfold handle_quorum_proposal_recv. cbn zeta.
  assert (∀ qc, keeps (later c0) (swallow (Ev:=ProposalEvent) (fun c => update_high_qc c qc))) as H1.
  { intros qc. apply keeps_swallow. intros. eapply later_step; [done|by eapply step_high_qc]. }
  assert (∀ qc, keeps (later c0) (swallow (Ev:=ProposalEvent) (fun c => update_next_epoch_high_qc c qc))) as H2.
  { intros qc. apply keeps_swallow. intros. eapply later_step; [done|by eapply step_next_epoch_high_qc]. }
  pose proof (fun parent => safety_keeps c0 p parent info sender Hwf) as H3.
  pose proof (liveness_keeps c0 p info Hwf) as H4. keeps_step.
Qed.

(** Everything the handler checks. *)
Record acceptable c p parent info : Prop := {
  ac_epoch : validate_epoch (proposal_data p) (vi_upgrade_lock info) (vi_epoch_height info) = Ok tt;
  ac_certs : validate_proposal_view_and_certs c p info = Ok tt;
  ac_justify : valid_cert_in (p_justify_qc (proposal_data p)) (vi_membership info)
    (q2_epoch (data (p_justify_qc (proposal_data p)))) (vi_upgrade_lock info) = Ok tt;
  ac_next : validate_next_epoch_justify_qc (p_justify_qc (proposal_data p))
    (p_next_epoch_justify_qc (proposal_data p)) info = Ok tt;
  ac_parent : saved_leaves c !! leaf_commit (data (p_justify_qc (proposal_data p))) = Some parent;
  ac_state : is_Some (state c (leaf_view parent));
  ac_stored : store_high_qc c (p_justify_qc (proposal_data p))
    (p_next_epoch_justify_qc (proposal_data p)) info = Ok tt;
  ac_upgrade : validate_upgrade_certificate (p_upgrade_certificate (proposal_data p)) (vi_membership info)
    (if with_epoch (leaf2_from_quorum_proposal (proposal_data p)) then
       Some (epoch_from_block_number (height (leaf2_from_quorum_proposal (proposal_data p)))
               (vi_epoch_height info))
     else None) (vi_upgrade_lock info) = Ok tt;
  ac_safe : safe_to_vote (checked_state c p) p parent info;
}.

Lemma later_swallowed c0 c (f : Consensus → outcome Error Consensus) :
  (∀ c', f c = Ok c' → step c c') → later c0 c → later c0 (swallowed f c).
Proof using Lm.
  intros Hf Hl. unfold swallowed. destruct (f c) as [c'|e|]; try done. eapply later_step; eauto.
Qed.

Lemma checked_state_later c p :
  leaf_wf (leaf2_from_quorum_proposal (proposal_data p)) → cons_inv c → later c (checked_state c p).
Proof using Lm.
  intros Hwf Hc. unfold checked_state, record_proposal. cbn zeta.
  apply later_swallowed; [by apply step_proposed|].
  apply later_swallowed; [intros c' Hu; by eapply step_leaf; [apply proposal_leaf_ok|]|].
  destruct (p_next_epoch_justify_qc _) as [q|]; [apply later_swallowed; [by apply step_next_epoch_high_qc|]|];
    (apply later_swallowed; [by apply step_high_qc|done]).
Qed.

Lemma acceptable_emits c p parent info sender :
  leaf_wf (leaf2_from_quorum_proposal (proposal_data p)) → cons_inv c → acceptable c p parent info →
  emits (handle_quorum_proposal_recv p sender info) c (QuorumProposalValidated p parent).
Proof using Lm Rk.
  intros Hwf Hc [H1 H2 H3 H4 H5 [st H6] H7 H8 H9]. unfold handle_quorum_proposal_recv. cbn zeta.
  eapply emits_after; [unfold lift; by rewrite H1|]. eapply emits_after; [done|].
  eapply emits_after; [unfold with_context, lift; by rewrite H2|].
  eapply emits_after; [unfold with_context, lift; by rewrite H3|].
  eapply emits_after; [unfold lift; by rewrite H4|]. eapply emits_after; [done|].
  eapply emits_after; [done|]. rewrite H5. eapply emits_after; [done|]. eapply emits_after; [done|].
  rewrite state_and_delta_state, H6. eapply emits_after; [done|].
  eapply emits_after; [unfold lift; by rewrite H7|].
  eapply emits_after; [apply swallow_ok; by apply ensure_no_panic|].
  pose proof (proj1 (checked_state_later c p Hwf Hc)) as Hinv.
  assert (∀ c1, record_proposal c1 p = checked_state c p →
    emits (_ ← validate_proposal_safety_and_liveness p parent info sender;
           emit (ViewChange (p_view_number (proposal_data p))
             (option_epoch_from_block_number (bool_decide (is_Some (p_epoch (proposal_data p))))
               (block_number (p_block_header (proposal_data p))) (vi_epoch_height info)))) c1
      (QuorumProposalValidated p parent)) as Hend.
  { intros c1 Hc1. apply emits_before, safe_emits; [by rewrite Hc1|done|by rewrite Hc1]. }
  unfold checked_state in Hend. destruct (p_next_epoch_justify_qc (proposal_data p)) as [q|].
  - eapply emits_after; [apply swallow_ok, next_epoch_no_panic|]. by apply Hend.
  - eapply emits_after; [done|]. by apply Hend.
Qed.
End ValidationLemmas.

(** ** Properties *)

Section ValidationProperties.
Context `{Sg : SignatureScheme} `{Cm : Committable} `{Vt : VidTypes} `{Vs : Versions}.
Context `{Bt : !BlockTypes} `{Vd : !VidScheme}.
Context {M : Type} `{Mb : !Membership M}.
Context {Lm : CommittableLaws Cm} {Rk : CommitmentRank Cm}.
Implicit Types (c : Consensus) (leaf parent : Leaf2) (p : Proposal QuorumProposal2) (info : ValidationInfo (M := M)).

(** What is known when a proposal has been validated. *)
Lemma recv_validated c p sender info q par :
  emits (handle_quorum_proposal_recv p sender info) c (QuorumProposalValidated q par) →
  q = p ∧
  validate_epoch (proposal_data p) (vi_upgrade_lock info) (vi_epoch_height info) = Ok tt ∧
  entered_properly c p info ∧
  valid_cert_in (p_justify_qc (proposal_data p)) (vi_membership info)
    (q2_epoch (data (p_justify_qc (proposal_data p)))) (vi_upgrade_lock info) = Ok tt ∧
  saved_leaves c !! leaf_commit (data (p_justify_qc (proposal_data p))) = Some par ∧
  safe_to_vote (checked_state c p) p par info ∧ locked_view (checked_state c p) = locked_view c.
Proof using Type.
  unfold handle_quorum_proposal_recv. intros H. cbn zeta in H.
  do 5 peel H. apply emits_emit in H; [|done]. peel H.
  destruct (saved_leaves c !! _) as [leaf|] eqn:Hl; cycle 1.
  { exfalso. apply emits_emit in H; [|done]. do 4 peel H. apply emits_silent in H as (u & c1 & _ & H); [|solve_silent].
    apply emits_silent in H as (? & ? & _ & H); [|unfold validate_proposal_liveness; solve_silent].
    by apply list_elem_of_singleton in H. }
  do 2 peel H. destruct (state_and_delta c (leaf_view leaf)).1 as [st|]; [|by peel H].
  do 3 peel H. apply emits_silent in H as (u & c1 & Hn & H); [|solve_silent].
  apply emits_bind in H as [H|(? & ? & ? & _ & H)]; [|by apply list_elem_of_singleton in H].
  apply validated_inv in H as (-> & -> & Hsafe).
  assert (record_proposal c1 p = checked_state c p) as Hc1.
  { unfold checked_state. f_equal. destruct (p_next_epoch_justify_qc (proposal_data p));
      [by apply swallow_run in Hn as [_ ->]|by apply ret_run in Hn as [_ ->]]. }
  rewrite Hc1 in Hsafe. destruct a, a0, a1. rewrite (sv_parent _ _ _ _ Hsafe) in Hl.
  split; [done|]. split; [unfold validate_epoch; by rewrite Hb|].
  split; [by apply view_and_certs_inv|]. split_and!; try done. apply checked_state_locked.
Qed.

(** C4. A proposal is passed on for voting only if it is valid and safe: when the
    handler of received proposals emits [QuorumProposalValidated], the proposal
    states its own epoch, is not for an old view, is signed by the leader of its
    view, has a valid justifying certificate, follows the certificate's view
    directly or has valid evidence for changing to its view, extends the saved
    leaf that the certificate is for, and, in the state in which the check ran,
    whose lock is that of the start, either its certificate is newer than the
    lock or its chain contains the locked view; at the end of an epoch it also
    satisfies the epoch rules. *)
Theorem validated_proposals_are_safe c p sender info q par :
  emits (handle_quorum_proposal_recv p sender info) c (QuorumProposalValidated q par) →
  q = p ∧
  validate_epoch (proposal_data p) (vi_upgrade_lock info) (vi_epoch_height info) = Ok tt ∧
  entered_properly c p info ∧
  valid_cert_in (p_justify_qc (proposal_data p)) (vi_membership info)
    (q2_epoch (data (p_justify_qc (proposal_data p)))) (vi_upgrade_lock info) = Ok tt ∧
  saved_leaves c !! leaf_commit (data (p_justify_qc (proposal_data p))) = Some par ∧
  safe_to_vote (checked_state c p) p par info ∧ locked_view (checked_state c p) = locked_view c.
Proof using Type. apply recv_validated. Qed.

(** Whatever it answers, the handler of received proposals keeps the
    consensus invariant and never moves the state backwards; in particular a
    proposal that is rejected half way leaves a consistent state. *)
Theorem proposals_keep_consensus c p sender info :
  leaf_wf (leaf2_from_quorum_proposal (proposal_data p)) → cons_inv c →
  let c' := (handle_quorum_proposal_recv p sender info c).1.2 in cons_inv c' ∧ progress c c'.
Proof using Lm.
  intros Hwf Hc. cbn zeta. apply (handle_keeps c); done.
Qed.

(** C22. The handler accepts every proposal that satisfies its conditions: in a
    consistent state, a proposal that is well signed and certified, whose parent
    and its state are at hand, and that passes the voting rule, is passed on for
    voting, with its parent. *)
Theorem acceptable_proposals_are_validated c p parent sender info :
  leaf_wf (leaf2_from_quorum_proposal (proposal_data p)) → cons_inv c → acceptable c p parent info →
  emits (handle_quorum_proposal_recv p sender info) c (QuorumProposalValidated p parent).
Proof using Lm Rk. apply acceptable_emits. Qed.
End ValidationProperties.

(** ** Witness: a proposal in view 1 on top of the first leaf *)

Module ValidationDemo.
#[local] Existing Instance Ideal.open_signatures.

Definition proposal_data1 : QuorumProposal2 :=
  {| p_block_header := (10, []) : BlockHeader; p_view_number := 1; p_epoch := None;
     p_justify_qc := DataDemo.qc 0 (leaf2_commit ConsDemo.l0); p_next_epoch_justify_qc := None;
     p_upgrade_certificate := None; p_view_change_evidence := None; p_next_drb_result := None |}.

Definition info : ValidationInfo (M := Committee) :=
  {| vi_public_key := 20 : PubKey; vi_private_key := 20 : PrivKey; vi_membership := Demo.committee;
     vi_upgrade_lock := UpgradeLock_new; vi_epoch_height := 10;
     vi_storage := {| undecided_stored := true; high_qc_stored := true;
                      next_epoch_high_qc_stored := true; proposal_stored := true;
                      vid_stored := true |} |}.

Definition sender : PubKey := 20.

Definition proposal (leader : Z) : Proposal QuorumProposal2 :=
  {| proposal_data := proposal_data1;
     proposal_signature :=
       [(leader, as_ref (leaf2_commit (leaf2_from_quorum_proposal proposal_data1)))] : Sig |}.
End ValidationDemo.

#[local] Existing Instance Ideal.open_signatures.

Lemma demo_signature :
  validate_signature (Membership0 := StaticCommittee) (ValidationDemo.proposal 20)
    (vi_membership ValidationDemo.info) (vi_epoch_height ValidationDemo.info) = Ok tt.
Proof.
  unfold validate_signature. change (leader _ _ _) with (Ok (E:=Error) ValidationDemo.sender). mon.
  assert (∀ (k : Z) m, validate (k : PubKey) ([(k, m)] : Sig) m = true) as Hv.
  { intros k m. apply andb_true_iff. split; [by apply bool_decide_eq_true|reflexivity]. }
  unfold ensure.
  match goal with |- (if validate _ _ ?m then _ else _) = _ =>
    change (validate _ _ m) with (validate (20 : PubKey) ([(20, m)] : Sig) m) end.
  rewrite Hv. reflexivity.
Qed.

Lemma demo_checked_inv :
  cons_inv (checked_state ConsDemo.start (ValidationDemo.proposal 20)).
Proof. apply checked_state_later; [exact I|exact ConsDemo.start_inv]. Qed.

Lemma demo_safe :
  safe_to_vote (checked_state ConsDemo.start (ValidationDemo.proposal 20)) (ValidationDemo.proposal 20)
    ConsDemo.l0 ValidationDemo.info.
Proof.
  assert (validated_state_map (checked_state ConsDemo.start (ValidationDemo.proposal 20)) !! 0 =
          Some (LeafView (leaf2_commit ConsDemo.l0) 0 None None)) as Hm by reflexivity.
  split; [reflexivity|reflexivity|reflexivity|discriminate|]. right. exists (leaf2_commit ConsDemo.l0).
  split; [reflexivity|].
  destruct (inv_views _ demo_checked_inv _ _ _ _ _ Hm) as (leaf & Hl & Hv).
  apply (reaches_here _ _ _ leaf Hl); rewrite Hv; [by eexists|reflexivity].
Qed.

Lemma demo_acceptable :
  acceptable (Mb := StaticCommittee) ConsDemo.start (ValidationDemo.proposal 20) ConsDemo.l0 ValidationDemo.info.
Proof.
  split.
  - reflexivity.
  - unfold validate_proposal_view_and_certs. rewrite demo_signature. reflexivity.
  - reflexivity.
  - reflexivity.
  - apply lookup_singleton_eq.
  - by eexists.
  - reflexivity.
  - reflexivity.
  - exact demo_safe.
Qed.

Lemma validated_proposals_are_safe_witness :
  safe_to_vote (checked_state ConsDemo.start (ValidationDemo.proposal 20)) (ValidationDemo.proposal 20)
    ConsDemo.l0 ValidationDemo.info.
Proof.
  apply (validated_proposals_are_safe (Mb := StaticCommittee) ConsDemo.start (ValidationDemo.proposal 20)
    ValidationDemo.sender ValidationDemo.info (ValidationDemo.proposal 20) ConsDemo.l0).
  apply acceptable_emits; [exact I|exact ConsDemo.start_inv|exact demo_acceptable].
Defined.

Lemma acceptable_proposals_are_validated_witness :
  emits (handle_quorum_proposal_recv (Mb := StaticCommittee) (ValidationDemo.proposal 20)
    ValidationDemo.sender ValidationDemo.info) ConsDemo.start
    (QuorumProposalValidated (ValidationDemo.proposal 20) ConsDemo.l0).
Proof.
  apply (acceptable_proposals_are_validated (Mb := StaticCommittee) ConsDemo.start
    (ValidationDemo.proposal 20) ConsDemo.l0 ValidationDemo.sender ValidationDemo.info);
    [exact I|exact ConsDemo.start_inv|exact demo_acceptable].
Defined.

Lemma proposals_keep_consensus_witness :
  cons_inv (handle_quorum_proposal_recv (Mb := StaticCommittee) (ValidationDemo.proposal 20) ValidationDemo.sender
    ValidationDemo.info ConsDemo.start).1.2.
Proof.
  apply (proposals_keep_consensus (Mb := StaticCommittee) ConsDemo.start (ValidationDemo.proposal 20)
    ValidationDemo.sender ValidationDemo.info); [exact I|exact ConsDemo.start_inv].
Defined.
