(* ===== verification/QuorumVote.v ===== *)
(** * The quorum vote task

    [task-impls/src/quorum_vote/mod.rs] and [handlers.rs]: what happens when a
    proposal is validated (decide, lock, collect garbage, the DRB bookkeeping),
    when the three dependencies of a vote have arrived, and when a vote is
    sent.

    A dependency task waits for the proposal, the DA certificate and the VID
    share of a view; [vote_dependencies] is the set of views that have one, and
    [handle_dep_result] is what the task does at the end.  The DRB computation is
    a background task whose handle is [drb_computation]. *)

From S2P Require Import Prelude Epochs Crypto Committee Votes Certificates VoteCollection Data Vid Consensus ConsensusProofs Decide Task Dependency ProposalValidation.

Section QuorumVote.
Context `{Sg : SignatureScheme} `{Cm : Committable} `{Vt : VidTypes} `{Vs : Versions}.
Context `{Bt : !BlockTypes} `{Vd : !VidScheme}.
Context {M : Type} `{Mb : !Membership M} `{Er : !EpochRoots M}.
(** [SignatureKey::to_bytes], [bincode::serialize] of the signatures of a
    certificate, and [ValidatedState::validate_and_apply_header]. *)
Context (key_to_bytes : PubKey → bytes).
Context (bincode_signatures : option QcType → option bytes).
Context (validate_and_apply_header :
  ValidatedState → InstanceState → Leaf2 → BlockHeader → VidCommon → Version → Z →
  option (ValidatedState * Delta)).

(** The handle of the DRB computation of an epoch.  A handle that has been awaited
    is [DrbJoined]; awaiting it again panics. *)
Inductive DrbStatus := DrbRunning (seed : bytes) | DrbFinished (result : bytes) | DrbFailed | DrbJoined.

(** The task's state, with the shared objects it refers to. *)
Record QuorumVoteTaskState := {
  qv_consensus : Consensus;
  qv_upgrade_lock : UpgradeLock;
  qv_membership : M;
  drb_computation : option (EpochNumber * DrbStatus);
  latest_voted_view : ViewNumber;
  vote_dependencies : gset ViewNumber;
}.

(** What does not change. *)
Record VoteConfig := {
  vc_public_key : PubKey;
  vc_private_key : PrivKey;
  vc_epoch_height : Z;
  vc_instance_state : InstanceState;
  vc_storage : StorageAnswers;
}.
Context (cfg : VoteConfig).

Inductive VoteEvent :=
  | FromProposal (e : ProposalEvent)
  | Decide (view : ViewNumber) (leaf_chain : list LeafInfo) (qc : QuorumCertificate2)
      (block_size : option nat)
  | DaCertificateValidated (c : DaCertificate2)
  | VidShareValidated (p : Proposal VidDisperseShare)
  | QuorumVoteSend (v : SimpleVote QuorumData2)
  | ExtendedQuorumVoteSend (v : SimpleVote QuorumData2).

Abbreviation voter := (task QuorumVoteTaskState VoteEvent Error).

Definition set_qv_consensus (s : QuorumVoteTaskState) (c : Consensus) : QuorumVoteTaskState :=
  {| qv_consensus := c; qv_upgrade_lock := qv_upgrade_lock s; qv_membership := qv_membership s;
     drb_computation := drb_computation s; latest_voted_view := latest_voted_view s;
     vote_dependencies := vote_dependencies s |}.
Definition set_qv_upgrade_lock (s : QuorumVoteTaskState) (l : UpgradeLock) : QuorumVoteTaskState :=
  {| qv_consensus := qv_consensus s; qv_upgrade_lock := l; qv_membership := qv_membership s;
     drb_computation := drb_computation s; latest_voted_view := latest_voted_view s;
     vote_dependencies := vote_dependencies s |}.
Definition set_qv_membership (s : QuorumVoteTaskState) (m : M) : QuorumVoteTaskState :=
  {| qv_consensus := qv_consensus s; qv_upgrade_lock := qv_upgrade_lock s; qv_membership := m;
     drb_computation := drb_computation s; latest_voted_view := latest_voted_view s;
     vote_dependencies := vote_dependencies s |}.
Definition set_drb_computation (s : QuorumVoteTaskState) (d : option (EpochNumber * DrbStatus))
    : QuorumVoteTaskState :=
  {| qv_consensus := qv_consensus s; qv_upgrade_lock := qv_upgrade_lock s;
     qv_membership := qv_membership s; drb_computation := d;
     latest_voted_view := latest_voted_view s; vote_dependencies := vote_dependencies s |}.
Definition set_latest_voted_view (s : QuorumVoteTaskState) (v : ViewNumber) : QuorumVoteTaskState :=
  {| qv_consensus := qv_consensus s; qv_upgrade_lock := qv_upgrade_lock s;
     qv_membership := qv_membership s; drb_computation := drb_computation s;
     latest_voted_view := v; vote_dependencies := vote_dependencies s |}.
Definition set_vote_dependencies (s : QuorumVoteTaskState) (d : gset ViewNumber) : QuorumVoteTaskState :=
  {| qv_consensus := qv_consensus s; qv_upgrade_lock := qv_upgrade_lock s;
     qv_membership := qv_membership s; drb_computation := drb_computation s;
     latest_voted_view := latest_voted_view s; vote_dependencies := d |}.

(** A handler over the consensus state alone. *)
Definition on_consensus {A} (m : task Consensus ProposalEvent Error A) : voter A := fun s =>
  let '(r, c, ev) := m (qv_consensus s) in (r, set_qv_consensus s c, map FromProposal ev).

(** An update of the consensus state, with [?]. *)
Definition write_consensus (f : Consensus → outcome Error Consensus) : voter unit :=
  update (fun s => c ← f (qv_consensus s); Ok (set_qv_consensus s c)).

Definition with_drb (c : Consensus) (f : DrbSeedsAndResults → DrbSeedsAndResults) : Consensus :=
  set_drb_seeds_and_results c (f (drb_seeds_and_results c)).
Definition insert_result (d : DrbSeedsAndResults) (epoch : EpochNumber) (result : bytes)
    : DrbSeedsAndResults :=
  {| seeds := seeds d; results := <[epoch := result]> (results d) |}.
Definition remove_seed (d : DrbSeedsAndResults) (epoch : EpochNumber) : DrbSeedsAndResults :=
  {| seeds := delete epoch (seeds d); results := results d |}.
Definition write_drb (f : DrbSeedsAndResults → DrbSeedsAndResults) : voter unit :=
  modify (fun s => set_qv_consensus s (with_drb (qv_consensus s) f)).

(** ** DRB *)

Definition store_and_get_computed_drb_result (epoch_number : EpochNumber) : voter bytes :=
  s ← get;
  match results (drb_seeds_and_results (qv_consensus s)) !! epoch_number with
  | Some computed_result => mret computed_result
  | None =>
      '(task_epoch, computation) ← lift (ok_or (drb_computation s) "DRB computation task doesn't exist.");
      _ ← require (task_epoch =? epoch_number) "DRB computation is not for the next epoch.";
      match computation with
      | DrbRunning _ => bail "DRB computation has not yet finished."
      | DrbFinished result =>
          _ ← write_drb (fun d => insert_result d epoch_number result);
          _ ← modify (fun s => set_drb_computation s None);
          mret result
      | DrbFailed =>
          _ ← modify (fun s => set_drb_computation s (Some (task_epoch, DrbJoined)));
          bail "Error in DRB calculation"
      | DrbJoined => lift Panic
      end
  end.

Definition verify_drb_result (p : QuorumProposal2) : voter unit :=
  let number := block_number (p_block_header p) in
  if (vc_epoch_height cfg =? 0) || negb (is_last_block_in_epoch number (vc_epoch_height cfg)) then
    mret tt
  else
    s ← get;
    let epoch := option_epoch_from_block_number (epochs_enabled (qv_upgrade_lock s) (p_view_number p))
                   number (vc_epoch_height cfg) in
    proposal_result ← lift (ok_or (p_next_drb_result p) "Proposal is missing the DRB result.");
    match epoch with
    | None => bail "Epochs are not available"
    | Some epoch_val =>
        has_stake_current_epoch ← lift (has_stake (qv_membership s) (vc_public_key cfg) (Some epoch_val));
        if has_stake_current_epoch : bool then
          computed_result ← store_and_get_computed_drb_result (wrapper_add epoch_val 1);
          require (bool_decide (proposal_result = computed_result))
            "Our calculated DRB result does not match the proposed DRB result"
        else mret tt
    end.

(** Join a computation that is over, drop one for another epoch; [false]: the
    computation of the epoch is still running. *)
Definition settle_drb_task (new_epoch_number : EpochNumber) : voter bool :=
  s ← get;
  match drb_computation s with
  | None => mret true
  | Some (task_epoch, DrbFinished result) =>
      _ ← write_drb (fun d => insert_result d task_epoch result);
      _ ← modify (fun s => set_drb_computation s None);
      mret true
  | Some (task_epoch, DrbFailed) =>
      _ ← modify (fun s => set_drb_computation s (Some (task_epoch, DrbJoined))); mret true
  | Some (_, DrbJoined) => lift Panic
  | Some (task_epoch, DrbRunning _) =>
      if task_epoch =? new_epoch_number then mret false
      else _ ← modify (fun s => set_drb_computation s None); mret true
  end.

Definition start_drb_task (p : QuorumProposal2) : voter unit :=
  match p_epoch p with
  | None => mret tt
  | Some _ =>
      let current_epoch_number :=
        epoch_from_block_number (block_number (p_block_header p)) (vc_epoch_height cfg) in
      s ← get;
      in_committee ← lift (has_stake (qv_membership s) (vc_public_key cfg) (Some current_epoch_number));
      if in_committee : bool then
        let new_epoch_number := wrapper_add current_epoch_number 1 in
        go ← settle_drb_task new_epoch_number;
        if go : bool then
          s ← get;
          let drb := drb_seeds_and_results (qv_consensus s) in
          if bool_decide (is_Some (results drb !! new_epoch_number)) then mret tt
          else
            match seeds drb !! new_epoch_number with
            | None => mret tt
            | Some drb_seed_input =>
                _ ← modify (fun s => set_drb_computation s (Some (new_epoch_number, DrbRunning drb_seed_input)));
                write_drb (fun d => remove_seed d new_epoch_number)
            end
        else mret tt
      else mret tt
  end.

Definition store_drb_seed_and_result (decided_leaf : Leaf2) : voter unit :=
  if vc_epoch_height cfg =? 0 then mret tt
  else
    let decided_block_number := block_number (block_header decided_leaf) in
    let current_epoch_number := epoch_from_block_number decided_block_number (vc_epoch_height cfg) in
    if is_epoch_root decided_block_number (vc_epoch_height cfg) then
      _ ← write_drb (fun d => garbage_collect d current_epoch_number);
      _ ← store_and_get_computed_drb_result (wrapper_add current_epoch_number 1);
      drb_seed_input_vec ← lift (ok_or (bincode_signatures (signatures (justify_qc decided_leaf)))
                              "Failed to serialize the QC signature.");
      _ ← require (length drb_seed_input_vec =? 32)%nat
            "Failed to convert the serialized QC signature into a DRB seed input.";
      write_drb (fun d => store_seed d (wrapper_add current_epoch_number 2) drb_seed_input_vec)
    else if is_last_block_in_epoch decided_block_number (vc_epoch_height cfg) then
      match next_drb_result decided_leaf with
      | Some result => write_drb (fun d => insert_result d (wrapper_add current_epoch_number 1) result)
      | None => bail "The last block of the epoch is decided but doesn't contain a DRB result."
      end
    else mret tt.

(** ** A validated proposal *)

(** The writes and the event of a decision. *)
Definition announce_decide (with_epochs : bool) (res : LeafChainTraversalOutcome) : voter unit :=
  match new_decided_view_number res with
  | None => mret tt
  | Some decided_view_number =>
      _ ← write_consensus (fun c => decide_view c decided_view_number);
      qc ← lift (unwrap (new_decide_qc res));
      _ ← emit (Decide decided_view_number (leaf_views res) qc ((fun t => size t) <$> included_txns res));
      if with_epochs then
        decided_leaf_info ← lift (unwrap (last (leaf_views res)));
        store_drb_seed_and_result (li_leaf decided_leaf_info)
      else mret tt
  end.

Definition handle_quorum_proposal_validated (p : QuorumProposal2) : voter unit :=
  s ← get;
  version ← lift (version (qv_upgrade_lock s) (p_view_number p));
  let with_epochs := version_ge version Epochs in
  _ ← (if with_epochs then _ ← verify_drb_result p; start_drb_task p else mret tt);
  s ← get;
  '(res, membership) ← finish
    ((if with_epochs then decide_from_proposal_2 else decide_from_proposal) p (qv_consensus s)
       (decided_upgrade_certificate (qv_upgrade_lock s)) (vc_public_key cfg) with_epochs
       (qv_membership s));
  _ ← modify (fun s => set_qv_membership s membership);
  _ ← match decided_upgrade_cert res with
      | Some cert => modify (fun s => set_qv_upgrade_lock s (UpgradeLock_from_certificate (Some cert)))
      | None => mret tt
      end;
  _ ← match new_locked_view_number res with
      | Some locked_view_number => write_consensus (fun c => update_locked_view c locked_view_number)
      | None => mret tt
      end;
  announce_decide with_epochs res.

(** ** Recording what is voted for *)

Definition update_shared_state (responses : list (Proposal QuorumProposal2)) (view_number : ViewNumber)
    (proposed_leaf : Leaf2) (vid_share : Proposal VidDisperseShare)
    (parent_view_number : option ViewNumber) : voter unit :=
  let justify_qc := justify_qc proposed_leaf in
  s ← get;
  let c := qv_consensus s in
  let maybe_validated_view := parent_view_number ≫= (fun v => validated_state_map c !! v) in
  '(maybe_parent, maybe_validated_view) ←
    match saved_leaves c !! leaf_commit (data justify_qc) with
    | Some p => mret (Some p, maybe_validated_view)
    | None =>
        fetched ← on_consensus (ok_result
          (fetch_proposal key_to_bytes (Votes.view_number justify_qc) responses (qv_membership s)
             (vc_public_key cfg) (vc_private_key cfg) (qv_upgrade_lock s) (vc_epoch_height cfg)));
        match fetched with
        | Some (leaf, view) => mret (Some leaf, Some view)
        | None => mret (None, maybe_validated_view)
        end
    end;
  parent ← lift (ok_or maybe_parent "Proposal's parent missing from storage");
  validated_view ← lift (ok_or maybe_validated_view "Failed to fetch view for parent");
  parent_state ← lift (ok_or (view_state_and_delta validated_view).1
                         "Parent state not found! Consensus internally inconsistent");
  version ← lift (version (qv_upgrade_lock s) view_number);
  '(validated_state, state_delta) ←
    lift (ok_or (validate_and_apply_header parent_state (vc_instance_state cfg) parent
                   (block_header proposed_leaf) (vid_common_ref (proposal_data vid_share))
                   version view_number) "Block header doesn't extend the proposal!");
  _ ← on_consensus (swallow (fun c => update_leaf c proposed_leaf validated_state (Some state_delta)));
  require (undecided_stored (vc_storage cfg)) "Failed to update undecided state".

Definition submit_vote (view_number : ViewNumber) (leaf : Leaf2) (extended_vote : bool) : voter unit :=
  let epoch_number := option_epoch_from_block_number (with_epoch leaf)
                        (block_number (block_header leaf)) (vc_epoch_height cfg) in
  s ← get;
  committee_member_in_current_epoch ← lift (has_stake (qv_membership s) (vc_public_key cfg) epoch_number);
  committee_member_in_next_epoch ←
    (if with_epoch leaf && is_last_block_in_epoch (height leaf) (vc_epoch_height cfg) then
       lift (has_stake (qv_membership s) (vc_public_key cfg) ((fun x => wrapper_add x 1) <$> epoch_number))
     else mret false);
  _ ← require (committee_member_in_current_epoch || committee_member_in_next_epoch)
        "We were not chosen for quorum committee";
  vote ← with_context
    (create_signed_vote {| leaf_commit := leaf2_commit leaf; q2_epoch := epoch_number |} view_number
       (vc_public_key cfg) (vc_private_key cfg) (qv_upgrade_lock s))
    "Failed to sign vote. This should never happen.";
  _ ← require (vid_stored (vc_storage cfg)) "Failed to store VID share";
  emit (if extended_vote then ExtendedQuorumVoteSend vote else QuorumVoteSend vote).

(** ** The end of a dependency task *)

Inductive DependencyEvent :=
  | DepProposal (p : Proposal QuorumProposal2) (parent_leaf : Leaf2)
  | DepDac (cert : DaCertificate2)
  | DepVid (share : Proposal VidDisperseShare)
  | DepOther.

(** The local variables of the loop over the events. *)
Record dep_state := {
  d_payload_commitment : option VidCommitment;
  d_leaf : option Leaf2;
  d_vid_share : option (Proposal VidDisperseShare);
  d_parent_view_number : option ViewNumber;
}.

(** The first commitment seen is kept; every other must equal it.  [None]: the
    handler returns without voting. *)
Definition agree_payload (seen : option VidCommitment) (comm : VidCommitment) : option VidCommitment :=
  match seen with
  | Some c => if bool_decide (comm = c) then Some c else None
  | None => Some comm
  end.

(** The commitment that a share must agree on. *)
Definition vid_payload_commitment (share : VidDisperseShare) : VidCommitment :=
  default (share_payload_commitment share) (data_epoch_payload_commitment share).

Definition dep_event (view_number : ViewNumber) (event : DependencyEvent) (d : dep_state)
    : voter (option dep_state) :=
  match event with
  | DepProposal p parent_leaf =>
      s ← get;
      match version (qv_upgrade_lock s) view_number with
      | Panic => lift Panic
      | Err _ => mret None
      | Ok version =>
          let proposed_leaf := leaf2_from_quorum_proposal (proposal_data p) in
          forming ← (if version_ge version Epochs then
                       finish (is_leaf_forming_eqc (qv_consensus s)
                                 (leaf_commit (data (p_justify_qc (proposal_data p)))))
                     else mret false);
          if forming : bool then mret None
          else
            match agree_payload (d_payload_commitment d)
                    (header_payload_commitment (p_block_header (proposal_data p))) with
            | None => mret None
            | Some comm =>
                if negb (bool_decide (parent_commitment proposed_leaf = leaf2_commit parent_leaf)) then
                  mret None
                else if negb (proposal_stored (vc_storage cfg)) then mret None
                else mret (Some {| d_payload_commitment := Some comm; d_leaf := Some proposed_leaf;
                                   d_vid_share := d_vid_share d;
                                   d_parent_view_number := Some (leaf_view parent_leaf) |})
            end
      end
  | DepDac cert =>
      mret (match agree_payload (d_payload_commitment d) (payload_commit (data cert)) with
            | None => None
            | Some comm => Some {| d_payload_commitment := Some comm; d_leaf := d_leaf d;
                                   d_vid_share := d_vid_share d;
                                   d_parent_view_number := d_parent_view_number d |}
            end)
  | DepVid share =>
      mret (match agree_payload (d_payload_commitment d) (vid_payload_commitment (proposal_data share)) with
            | None => None
            | Some comm => Some {| d_payload_commitment := Some comm; d_leaf := d_leaf d;
                                   d_vid_share := Some share;
                                   d_parent_view_number := d_parent_view_number d |}
            end)
  | DepOther => mret (Some d)
  end.

Fixpoint dep_events (view_number : ViewNumber) (events : list DependencyEvent) (d : dep_state)
    : voter (option dep_state) :=
  match events with
  | [] => mret (Some d)
  | event :: events =>
      d ← dep_event view_number event d;
      match d with
      | Some d => dep_events view_number events d
      | None => mret None
      end
  end.

Definition handle_dep_result (view_number : ViewNumber) (responses : list (Proposal QuorumProposal2))
    (res : list DependencyEvent) : voter unit :=
  d ← dep_events view_number res
        {| d_payload_commitment := None; d_leaf := None; d_vid_share := None;
           d_parent_view_number := None |};
  match d with
  | None => mret tt
  | Some d =>
      match d_vid_share d, d_leaf d with
      | Some vid_share, Some leaf =>
          ok ← ok_result (update_shared_state responses view_number leaf vid_share
                            (d_parent_view_number d));
          match ok with
          | None => mret tt
          | Some _ =>
              let cur_epoch := option_epoch_from_block_number (with_epoch leaf) (height leaf)
                                 (vc_epoch_height cfg) in
              _ ← emit (FromProposal (ViewChange (wrapper_add view_number 1) cur_epoch));
              logged (submit_vote view_number leaf false)
          end
      | _, _ => mret tt
      end
  end.

(** ** The task *)

Inductive VoteDependency := QuorumProposalDep | DacDep | VidDep.

(** The events that complete a dependency of a view. *)
Definition vote_dependency_match (dependency_type : VoteDependency) (view_number : ViewNumber)
    (event : DependencyEvent) : bool :=
  match dependency_type, event with
  | QuorumProposalDep, DepProposal p _ => p_view_number (proposal_data p) =? view_number
  | DacDep, DepDac cert => Votes.view_number cert =? view_number
  | VidDep, DepVid share => share_view (proposal_data share) =? view_number
  | _, _ => false
  end.

Definition create_event_dependency (dependency_type : VoteDependency) (view_number : ViewNumber)
    : EventDependency DependencyEvent :=
  EventDependency_new (vote_dependency_match dependency_type view_number).

(** The three dependencies of a vote, created on [event]. *)
Definition vote_deps (view_number : ViewNumber) (event : DependencyEvent)
    : list (EventDependency DependencyEvent) :=
  let quorum_proposal_dependency := create_event_dependency QuorumProposalDep view_number in
  [match event with
   | DepProposal _ _ => mark_as_completed quorum_proposal_dependency event
   | _ => quorum_proposal_dependency
   end; create_event_dependency DacDep view_number; create_event_dependency VidDep view_number].

(** A view gets one dependency task. *)
Definition create_dependency_task_if_new (view_number : ViewNumber) : voter unit :=
  modify (fun s => set_vote_dependencies s ({[view_number]} ∪ vote_dependencies s)).

(** Drop the dependency tasks of the views before [view]: [split_off] and abort. *)
Definition cancel_dependencies (s : QuorumVoteTaskState) (view : ViewNumber) : QuorumVoteTaskState :=
  set_vote_dependencies s (base.filter (fun v => view <= v) (vote_dependencies s)).

Definition update_latest_voted_view (s : QuorumVoteTaskState) (new_view : ViewNumber)
    : QuorumVoteTaskState * bool :=
  if latest_voted_view s <? new_view then
    let s' := set_vote_dependencies s
                (base.filter (fun v => ¬ (latest_voted_view s <= v < new_view)) (vote_dependencies s)) in
    (set_latest_voted_view s' new_view, true)
  else (s, false).

(** Voting for the repeated last block of an epoch. *)
Definition handle_eqc_voting (p : Proposal QuorumProposal2) (parent_leaf : Leaf2)
    (responses : list (Proposal QuorumProposal2)) : voter unit :=
  let view_number := p_view_number (proposal_data p) in
  let proposed_leaf := leaf2_from_quorum_proposal (proposal_data p) in
  _ ← require ((height proposed_leaf =? height parent_leaf) &&
               bool_decide (payload_commitment proposed_leaf = payload_commitment parent_leaf))
        "Justify QC is for the last block but it's not extended and a new block is proposed. Not voting!";
  s ← get;
  vid_shares ← lift (ok_or (vid_shares (qv_consensus s) !! leaf_view parent_leaf)
                       "Proposed leaf is the same as its parent but we don't have our VID for it");
  vid ← lift (ok_or (vid_shares !! vc_public_key cfg)
                "Proposed leaf is the same as its parent but we don't have our VID for it");
  let updated_vid := {| proposal_data := set_view_number (proposal_data vid) view_number;
                        proposal_signature := proposal_signature vid |} in
  _ ← on_consensus (modify (fun c => update_vid_shares c (share_view (proposal_data updated_vid)) updated_vid));
  _ ← require (bool_decide (parent_commitment proposed_leaf = leaf2_commit parent_leaf))
        "Proposed leaf parent commitment does not match parent leaf payload commitment. Aborting vote.";
  _ ← require (proposal_stored (vc_storage cfg)) "failed to store proposal, not voting.";
  _ ← update_shared_state responses view_number proposed_leaf updated_vid (Some (leaf_view parent_leaf));
  let current_epoch := epoch_from_block_number (height proposed_leaf) (vc_epoch_height cfg) in
  s ← get;
  is_vote_leaf_extended ← finish (is_leaf_extended (qv_consensus s) (leaf2_commit proposed_leaf));
  _ ← (if negb is_vote_leaf_extended then
         emit (FromProposal (ViewChange (wrapper_add view_number 1) (Some current_epoch)))
       else mret tt);
  submit_vote view_number proposed_leaf is_vote_leaf_extended.

Inductive VoteInput :=
  | InQuorumProposalValidated (p : Proposal QuorumProposal2) (parent_leaf : Leaf2)
  | InDaCertificateRecv (cert : DaCertificate2)
  | InVidShareRecv (sender : PubKey) (share : Proposal VidDisperseShare)
  | InTimeout (view : ViewNumber)
  | InViewChange (view : ViewNumber).

Definition handle_proposal (p : Proposal QuorumProposal2) (parent_leaf : Leaf2)
    (responses : list (Proposal QuorumProposal2)) : voter unit :=
  let view_number := p_view_number (proposal_data p) in
  _ ← logged (handle_quorum_proposal_validated (proposal_data p));
  s ← get;
  _ ← require (latest_voted_view s <? view_number) "We have already voted for this view";
  version ← lift (version (qv_upgrade_lock s) view_number);
  is_justify_qc_forming_eqc ←
    finish (is_leaf_forming_eqc (qv_consensus s) (leaf_commit (data (p_justify_qc (proposal_data p)))));
  if version_ge version Epochs && is_justify_qc_forming_eqc then
    logged (handle_eqc_voting p parent_leaf responses)
  else create_dependency_task_if_new view_number.

Definition handle_da_cert (cert : DaCertificate2) : voter unit :=
  let view := view_number cert in
  s ← get;
  _ ← require (latest_voted_view s <? view) "Received DAC for an older view.";
  let cert_epoch := da2_epoch (data cert) in
  membership_da_stake_table ← lift (da_stake_table (qv_membership s) cert_epoch);
  membership_da_success_threshold ← lift (da_success_threshold (qv_membership s) cert_epoch);
  _ ← with_context (is_valid_cert cert membership_da_stake_table membership_da_success_threshold
                      (qv_upgrade_lock s)) "Invalid DAC";
  _ ← on_consensus (modify (fun c => update_saved_da_certs c view cert));
  _ ← emit (DaCertificateValidated cert);
  create_dependency_task_if_new view.

Definition handle_vid_share (sender : PubKey) (share : Proposal VidDisperseShare) : voter unit :=
  let view := share_view (proposal_data share) in
  s ← get;
  _ ← require (latest_voted_view s <? view) "Received VID share for an older view.";
  _ ← require (validate sender (proposal_signature share)
                 (vid_as_ref (share_payload_commitment (proposal_data share))))
        "VID share signature is invalid";
  let vid_epoch := share_epoch (proposal_data share) in
  let target := target_epoch (proposal_data share) in
  da_members ← lift (da_committee_members (qv_membership s) view vid_epoch);
  by_member ← (if bool_decide (sender ∈ da_members) then mret true
               else leader ← lift (leader (qv_membership s) view vid_epoch);
                    mret (bool_decide (sender = leader)));
  _ ← require by_member "VID share was not sent by a DA member or the view leader.";
  membership_total_nodes ← lift (total_nodes (qv_membership s) target);
  _ ← require (verify_share (proposal_data share) membership_total_nodes) "Failed to verify VID share";
  _ ← on_consensus (modify (fun c => update_vid_shares c view share));
  _ ← require (bool_decide (recipient_key (proposal_data share) = vc_public_key cfg))
        "Got a Valid VID share but it's not for our key";
  _ ← emit (VidShareValidated share);
  create_dependency_task_if_new view.

Definition vote_handle (event : VoteInput) (responses : list (Proposal QuorumProposal2)) : voter unit :=
  match event with
  | InQuorumProposalValidated p parent_leaf => handle_proposal p parent_leaf responses
  | InDaCertificateRecv cert => handle_da_cert cert
  | InVidShareRecv sender share => handle_vid_share sender share
  | InTimeout view => modify (fun s => cancel_dependencies s (saturating_sub view 1))
  | InViewChange view =>
      modify (fun s => cancel_dependencies (update_latest_voted_view s (saturating_sub view 1)).1
                         (saturating_sub view 1))
  end.
End QuorumVote.

(** ** Lemmas *)

Section VoteLemmas.
Context `{Sg : SignatureScheme} `{Cm : Committable} `{Vt : VidTypes} `{Vs : Versions}.
Context `{Bt : !BlockTypes} `{Vd : !VidScheme}.
Context {M : Type} `{Mb : !Membership M} `{Er : !EpochRoots M}.
Context {Lm : CommittableLaws Cm} {Rk : CommitmentRank Cm}.
Context (bincode_signatures : option QcType → option bytes).
Context (cfg : VoteConfig).
Implicit Types (s : QuorumVoteTaskState (M := M)) (c : Consensus) (p : QuorumProposal2).

(** The membership answers whether a key has stake. *)
Definition stake_answers : Prop := ∀ (m : M) k e, ∃ b, has_stake m k e = Ok b.

(** Certificates are for the view of their leaf. *)
Definition certs_match c : Prop :=
  ∀ h leaf parent, saved_leaves c !! h = Some leaf →
    saved_leaves c !! leaf_commit (data (justify_qc leaf)) = Some parent →
    view_number (justify_qc leaf) = leaf_view parent ∧ 0 <= leaf_view parent.

(** Two states of which the second is later, as far as decisions are concerned. *)
Definition same_chain c c' : Prop :=
  saved_leaves c' = saved_leaves c ∧ validated_state_map c' = validated_state_map c ∧
  last_decided_view c' = last_decided_view c ∧ saved_payloads c' = saved_payloads c ∧
  vid_shares c' = vid_shares c.

(** No DRB computation has failed. *)
Definition drb_healthy s : Prop :=
  match drb_computation s with Some (_, DrbFailed) | Some (_, DrbJoined) => False | _ => True end.

(** The DRB bookkeeping leaves the rest of the state alone. *)
Definition drb_only (c0 : Consensus) s : Prop :=
  drb_healthy s ∧ ∃ d, qv_consensus s = set_drb_seeds_and_results c0 d.

Lemma write_drb_sound c0 f : sound (drb_only c0) (write_drb (M := M) f).
Proof using Type.
  apply sound_modify. intros s [Hh [d Hd]]. split; [done|]. eexists. unfold with_drb. simpl. rewrite Hd. reflexivity.
Qed.

Lemma set_drb_sound c0 d :
  match d with Some (_, DrbFailed) | Some (_, DrbJoined) => False | _ => True end →
  sound (drb_only c0) (modify (fun s => set_drb_computation s d) : task _ VoteEvent Error unit).
Proof using Type. intros Hh. apply sound_modify. intros s [_ [d' Hd]]. split; [done|by exists d']. Qed.

Lemma clear_drb_sound c0 :
  sound (drb_only c0) (modify (fun s => set_drb_computation s None) : task _ VoteEvent Error unit).
Proof using Type. by apply set_drb_sound. Qed.

Lemma run_drb_sound c0 e seed :
  sound (drb_only c0) (modify (fun s => set_drb_computation s (Some (e, DrbRunning seed))) : task _ VoteEvent Error unit).
Proof using Type. by apply set_drb_sound. Qed.

#[local] Hint Resolve write_drb_sound clear_drb_sound run_drb_sound : hotshot.

Lemma store_and_get_sound c0 e : sound (drb_only c0) (store_and_get_computed_drb_result (M := M) e).
Proof using Type.
  unfold store_and_get_computed_drb_result. apply sound_get_bind. intros s [Hh _]. unfold drb_healthy in Hh.
  destruct (results _ !! e); [auto with hotshot|].
  destruct (drb_computation s) as [[task_epoch []]|]; simpl; try done;
    apply sound_lift_bind; sound_step.
Qed.

Lemma settle_drb_sound c0 e : sound (drb_only c0) (settle_drb_task (M := M) e).
Proof using Type.
  unfold settle_drb_task. apply sound_get_bind. intros s [Hh _]. unfold drb_healthy in Hh.
  destruct (drb_computation s) as [[task_epoch []]|]; simpl; try done; sound_step.
Qed.
#[local] Hint Resolve store_and_get_sound settle_drb_sound : hotshot.

Lemma has_stake_sound c0 m k e :
  stake_answers → sound (drb_only c0) (lift (Ev:=VoteEvent) (has_stake m k e)).
Proof using Type. intros Hs. apply sound_lift. by destruct (Hs m k e) as [b ->]. Qed.

Lemma verify_drb_sound c0 p : stake_answers → sound (drb_only c0) (verify_drb_result cfg (M := M) p).
Proof using Type.
  intros Hst. unfold verify_drb_result. cbn zeta.
  sound_step; by apply has_stake_sound.
Qed.

Lemma start_drb_sound c0 p : stake_answers → sound (drb_only c0) (start_drb_task cfg (M := M) p).
Proof using Type.
  intros Hst. unfold start_drb_task. cbn zeta.
  sound_step; by apply has_stake_sound.
Qed.

Lemma store_drb_sound c0 leaf :
  sound (drb_only c0) (store_drb_seed_and_result bincode_signatures cfg (M := M) leaf).
Proof using Type.
  unfold store_drb_seed_and_result. cbn zeta.
  sound_step.
Qed.

Lemma drb_only_later c0 s : cons_inv c0 → drb_only c0 s → later c0 (qv_consensus s).
Proof using Lm.
  intros Hc [_ [d Hd]]. rewrite Hd. eapply later_step; [by split; [|reflexivity]|constructor].
Qed.

Lemma decide_view_no_panic c v : cons_inv c → decide_view c v ≠ Panic.
Proof using Type.
  intros Hc. destruct (decide (last_decided_view c < v)) as [Hlt|Hle].
  - by destruct (decide_view_ok c v Hc Hlt) as [c' ->].
  - unfold decide_view, collect_garbage. rewrite (proj2 (Z.leb_le _ _)) by lia. simpl.
    by apply ensure_no_panic.
Qed.

(** What a traversal outcome must offer for the announcement. *)
Record announceable c (res : LeafChainTraversalOutcome) (v : ViewNumber) (info : LeafInfo)
    (qc : QuorumCertificate2) : Prop := {
  an_view : 0 <= v ∧ leaf_view (li_leaf info) = v;
  an_leaf : is_Some (validated_state_map c !! v ≫= leaf_commitment);
  an_qc : new_decide_qc res = Some qc ∧ leaf_commit (data qc) = leaf2_commit (li_leaf info);
  an_head : last_decided_view c < v → head (leaf_views res) = Some info;
}.

Lemma write_decide_run s v :
  cons_inv (qv_consensus s) →
  (last_decided_view (qv_consensus s) < v ∧
   ∃ c', decide_view (qv_consensus s) v = Ok c' ∧
     write_consensus (fun c => decide_view c v) s = (Ok tt, set_qv_consensus s c', [])) ∨
  (v <= last_decided_view (qv_consensus s) ∧
   ∃ e, write_consensus (fun c => decide_view c v) s = (Err e, s, [])).
Proof using Type.
  intros Hc. unfold write_consensus, update. destruct (decide_view (qv_consensus s) v) as [c'|e|] eqn:Hd.
  - left. split; [by apply decide_view_inv in Hd as [? _]|]. eauto.
  - right. split; [|eauto]. destruct (decide (last_decided_view (qv_consensus s) < v)); [|lia].
    destruct (decide_view_ok _ v Hc) as [c' ?]; [done|]. congruence.
  - by destruct (decide_view_no_panic _ v Hc).
Qed.

(** What follows the decide event. *)
Definition announce_end (we : bool) (li : LeafInfo) : task (QuorumVoteTaskState (M := M)) VoteEvent Error unit :=
  if we then store_drb_seed_and_result bincode_signatures cfg (li_leaf li) else mret tt.

Lemma write_drb_silent f : silent (write_drb (M := M) f).
Proof using Type. by intros s. Qed.
#[local] Hint Resolve write_drb_silent : hotshot.

Lemma announce_tail we li s c' :
  drb_healthy s → qv_consensus s = c' →
  let '(r2, s2, ev2) := announce_end we li s in r2 ≠ Panic ∧ drb_only c' s2 ∧ ev2 = [].
Proof using Type.
  intros Hh Hs.
  assert (drb_only c' s) as Hd by (split; [done|]; exists (drb_seeds_and_results c'); rewrite Hs; by destruct c').
  assert (sound (drb_only c') (announce_end we li)) as Hso
    by (unfold announce_end; destruct we; [apply store_drb_sound|by auto with hotshot]).
  assert (silent (announce_end we li)) as Hsi.
  { unfold announce_end, store_drb_seed_and_result, store_and_get_computed_drb_result. cbn zeta. solve_silent. }
  specialize (Hso s Hd). specialize (Hsi s). destruct (announce_end we li s) as [[r2 s2] ev2]. naive_solver.
Qed.

(** The announcement does not panic, keeps the invariant, and announces what was
    decided. *)
Lemma announce_spec we res s :
  drb_healthy s → cons_inv (qv_consensus s) →
  (∀ v, new_decided_view_number res = Some v → ∃ info qc, announceable (qv_consensus s) res v info qc) →
  ∀ r s' ev, announce_decide bincode_signatures cfg we res s = (r, s', ev) →
  r ≠ Panic ∧ later (qv_consensus s) (qv_consensus s') ∧
  ∀ v chain qc n, Decide v chain qc n ∈ ev →
    last_decided_view (qv_consensus s) < v ∧ last_decided_view (qv_consensus s') = v ∧
    ∃ info, head chain = Some info ∧ leaf_view (li_leaf info) = v ∧
            leaf_commit (data qc) = leaf2_commit (li_leaf info).
Proof using Lm.
  intros Hh Hc Hres r s' ev Hrun. unfold announce_decide in Hrun.
  destruct (new_decided_view_number res) as [v|]; cycle 1.
  { injection Hrun as <- <- <-. split_and!; [done|by split|by intros ? ? ? ? []%elem_of_nil]. }
  destruct (Hres v eq_refl) as (info & qc & [[Hv0 Hv] Hleaf [Hqc Hqc'] Hhead]).
  destruct (write_decide_run s v Hc) as [(Hlt & c' & Hd & Hw)|(Hle & e & Hw)]; cycle 1.
  { unfold mbind, task_bind in Hrun. rewrite Hw in Hrun. injection Hrun as <- <- <-.
    split_and!; [done|by split|by intros ? ? ? ? []%elem_of_nil]. }
  specialize (Hhead Hlt). unfold mbind, task_bind in Hrun. rewrite Hw, Hqc in Hrun. simpl in Hrun.
  assert (is_Some (last (leaf_views res))) as [li Hli].
  { apply last_is_Some. intros He. by rewrite He in Hhead. }
  rewrite Hli in Hrun. simpl in Hrun.
  pose proof (announce_tail we li (set_qv_consensus s c') c' Hh eq_refl) as Htail.
  assert (later (qv_consensus s) (qv_consensus s') ∧ last_decided_view (qv_consensus s') = v ∧ r ≠ Panic ∧
          ev = [Decide v (leaf_views res) qc ((fun t => size t) <$> included_txns res)]) as (Hlat & Hld & Hr & ->).
  { destruct (announce_end we li (set_qv_consensus s c')) as [[r2 s2] ev2] eqn:He.
    assert ((r, s', ev) = (r2, s2, Decide v (leaf_views res) qc ((fun t => size t) <$> included_txns res) :: ev2)) as [= -> -> ->].
    { rewrite <-Hrun. unfold announce_end in He. destruct we; [|by injection He as <- <- <-].
      destruct (store_drb_seed_and_result _ _ _ _) as [[]]. by injection He as -> -> ->. }
    destruct Htail as (Hnp & [_ [d Hdrb]] & ->). rewrite Hdrb. split_and!; [|by apply decide_view_inv in Hd as (_ & c1 & _ & ->)|done|done].
    eapply later_step; [|apply step_drb]. eapply later_step; [by split; [|reflexivity]|].
    by eapply step_decide. }
  split_and!; [done|done|]. intros v' chain qc' n [= -> -> -> ->]%list_elem_of_singleton. eauto 10.
Qed.

Lemma state_has_leaf c v st :
  state c v = Some st → is_Some (validated_state_map c !! v ≫= leaf_commitment).
Proof using Type. unfold state. destruct (_ !! _) as [[]|]; simpl; by eauto. Qed.

Lemma decide_2_announceable p c ex key we (m : M) res m' v :
  cons_inv c → certs_match c → decide_from_proposal_2 p c ex key we m = Some (res, m') →
  new_decided_view_number res = Some v → ∃ info qc, announceable c res v info qc.
Proof using Type.
  intros Hc Hcm H Hd. destruct (decide_2_decided _ _ _ _ _ _ _ _ _ Hc H Hd) as (pa & gr & Hp & Hg & -> & Hq & Hh).
  apply parent_leaf_info_inv in Hp as [Hp _]. apply parent_leaf_info_inv in Hg as (Hg & Hst & _).
  destruct (Hcm _ _ _ Hp Hg) as [Hv Hv0]. rewrite Hv in Hst. exists gr, (justify_qc (li_leaf pa)).
  split; [done|by eapply state_has_leaf| |done]. split; [done|]. by apply (inv_keys _ Hc) in Hg as [? _].
Qed.

Lemma decide_3_announceable p c ex key we (m : M) res m' v :
  cons_inv c → certs_match c → decide_from_proposal p c ex key we m = Some (res, m') →
  new_decided_view_number res = Some v → ∃ info qc, announceable c res v info qc.
Proof using Rk.
  intros Hc Hcm H Hd.
  destruct (decide_3_decided _ _ _ _ _ _ _ _ _ Hc H Hd)
    as (h2 & l2 & l3 & info & Hl2 & (Hl3 & [st Hst] & _) & -> & Hq & Hh & Hi).
  pose proof (proj2 (proj2 (inv_keys _ Hc _ _ Hl2))) as Hp2.
  destruct (Hcm h2 l2 l3 Hl2) as [_ Hv0]; [by rewrite <-Hp2|].
  exists info, (justify_qc l2).
  split; rewrite ?Hi, ?fill_saved_view, ?fill_saved_commit; [done|by eapply state_has_leaf| |done].
  split; [done|]. rewrite <-Hp2. by apply (inv_keys _ Hc) in Hl3 as [? _].
Qed.

(** ** The whole handler *)

(** What the handler may end with, from the consensus state [c]. *)
Definition decide_result c (r : outcome Error unit) s' (ev : list VoteEvent) : Prop :=
  r ≠ Panic ∧ later c (qv_consensus s') ∧
  ∀ v chain qc n, Decide v chain qc n ∈ ev →
    last_decided_view c < v ∧ last_decided_view (qv_consensus s') = v ∧
    ∃ info, head chain = Some info ∧ leaf_view (li_leaf info) = v ∧
            leaf_commit (data qc) = leaf2_commit (li_leaf info).

Lemma decide_result_err c s' e : later c (qv_consensus s') → decide_result c (Err e) s' [].
Proof using Type. intros Hl. split_and!; [done|done|]. by intros ? ? ? ? []%elem_of_nil. Qed.

(** From the traversal on. *)
Lemma locked_announce we res s r s' ev :
  drb_healthy s → cons_inv (qv_consensus s) →
  (∀ v, new_decided_view_number res = Some v → ∃ info qc, announceable (qv_consensus s) res v info qc) →
  (_ ← match new_locked_view_number res with
       | Some v => write_consensus (fun c => update_locked_view c v)
       | None => mret tt
       end; announce_decide bincode_signatures cfg we res) s = (r, s', ev) →
  decide_result (qv_consensus s) r s' ev.
Proof using Lm.
  intros Hh Hc Hres Hrun.
  assert (∀ s1, drb_healthy s1 → later (qv_consensus s) (qv_consensus s1) →
    last_decided_view (qv_consensus s1) = last_decided_view (qv_consensus s) →
    validated_state_map (qv_consensus s1) = validated_state_map (qv_consensus s) →
    announce_decide bincode_signatures cfg we res s1 = (r, s', ev) →
    decide_result (qv_consensus s) r s' ev) as Hend.
  { intros s1 Hh1 [Hc1 Hp1] Hd1 Hm1 H.
    assert (∀ v, new_decided_view_number res = Some v →
              ∃ info qc, announceable (qv_consensus s1) res v info qc) as Hres1.
    { intros v Hv. destruct (Hres v Hv) as (info & qc & [? ? ? ?]). exists info, qc.
      split; rewrite ?Hd1, ?Hm1; done. }
    destruct (announce_spec we res s1 Hh1 Hc1 Hres1 r s' ev H) as (Hr & [? ?] & He).
    split_and!; [done|split; [done|by etrans]|]. by rewrite <-Hd1. }
  destruct (new_locked_view_number res) as [lv|]; cycle 1.
  { apply (Hend s); [done|by split|done|done|]. unfold mbind, task_bind in Hrun. simpl in Hrun.
    by destruct (announce_decide _ _ _ _ s) as [[]]. }
  unfold write_consensus, mbind, task_bind, update in Hrun.
  destruct (update_locked_view (qv_consensus s) lv) as [c1|e|] eqn:Hu; simpl in Hrun.
  - apply (Hend (set_qv_consensus s c1)); [done| |by apply bind_ensure_inv in Hu as [_ [= <-]]..|].
    + eapply later_step; [by split; [|reflexivity]|]. by eapply step_locked.
    + by destruct (announce_decide _ _ _ _ _) as [[]].
  - injection Hrun as <- <- <-. apply decide_result_err. by split.
  - by destruct (ensure_no_panic (locked_view (qv_consensus s) <? lv)
      "New view isn't newer than the previously locked view." (Ok (set_locked_view (qv_consensus s) lv))).
Qed.

(** The DRB part before the traversal. *)
Lemma drb_part_sound c0 we p :
  stake_answers →
  sound (drb_only c0) (if we : bool then _ ← verify_drb_result cfg (M := M) p; start_drb_task cfg p else mret tt).
Proof using Type.
  intros Hst. destruct we; [|auto with hotshot].
  apply sound_bind; [by apply verify_drb_sound|]. intros _. by apply start_drb_sound.
Qed.

Lemma drb_part_silent we p :
  silent (if we : bool then _ ← verify_drb_result cfg (M := M) p; start_drb_task cfg p else mret tt).
Proof using Type.
  unfold verify_drb_result, start_drb_task, settle_drb_task, store_and_get_computed_drb_result. cbn zeta.
  solve_silent.
Qed.

Lemma drb_only_refl s : drb_healthy s → drb_only (qv_consensus s) s.
Proof using Type. intros Hh. split; [done|]. exists (drb_seeds_and_results (qv_consensus s)). by destruct (qv_consensus s). Qed.

Lemma traversal_announce (we : bool) p s1 r s' ev :
  drb_healthy s1 → cons_inv (qv_consensus s1) → certs_match (qv_consensus s1) →
  ('(res, membership) ← finish
     ((if we then decide_from_proposal_2 else decide_from_proposal) p (qv_consensus s1)
        (decided_upgrade_certificate (qv_upgrade_lock s1)) (vc_public_key cfg) we (qv_membership s1));
   _ ← modify (fun s => set_qv_membership s membership);
   _ ← match decided_upgrade_cert res with
       | Some cert => modify (fun s => set_qv_upgrade_lock s (UpgradeLock_from_certificate (Some cert)))
       | None => mret tt
       end;
   _ ← match new_locked_view_number res with
       | Some v => write_consensus (fun c => update_locked_view c v)
       | None => mret tt
       end;
   announce_decide bincode_signatures cfg we res) s1 = (r, s', ev) →
  decide_result (qv_consensus s1) r s' ev.
Proof using Lm Rk.
  intros Hh Hc Hcm H.
  assert (∃ res m', (if we then decide_from_proposal_2 else decide_from_proposal) p (qv_consensus s1)
     (decided_upgrade_certificate (qv_upgrade_lock s1)) (vc_public_key cfg) we (qv_membership s1) =
     Some (res, m') ∧
     ∀ v, new_decided_view_number res = Some v → ∃ info qc, announceable (qv_consensus s1) res v info qc)
    as (res & m' & Hres & Hann).
  { destruct we.
    - destruct (decide_2_total p (qv_consensus s1) (decided_upgrade_certificate (qv_upgrade_lock s1))
        (vc_public_key cfg) true (qv_membership s1) Hc) as [[res m'] Hr].
      exists res, m'. split; [done|]. intros v Hv. by eapply decide_2_announceable.
    - destruct (decide_3_total p (qv_consensus s1) (decided_upgrade_certificate (qv_upgrade_lock s1))
        (vc_public_key cfg) false (qv_membership s1) Hc) as [[res m'] Hr].
      exists res, m'. split; [done|]. intros v Hv. by eapply decide_3_announceable. }
  rewrite Hres in H. unfold finish, lift, unwrap in H.
  apply bind_cases in H as [([res' mm] & s2 & e1 & e2 & [= <- <- <- <-] & H & ->)|[(? & [=] & _)|([=] & _)]].
  apply bind_cases in H as [(u & s3 & e3 & e4 & [= <- <- <-] & H & ->)|[(? & [=] & _)|([=] & _)]].
  apply bind_cases in H as [(u' & s4 & e5 & e6 & Hs4 & H & ->)|[(? & Hs4 & _)|(Hs4 & _)]];
    [|by destruct (decided_upgrade_cert res)..].
  assert (qv_consensus s4 = qv_consensus s1 ∧ drb_healthy s4 ∧ e5 = []) as (Hq & Hh4 & ->)
    by (destruct (decided_upgrade_cert res); by injection Hs4 as <- <- <-).
  rewrite <-Hq. apply (locked_announce we res s4); [done|by rewrite Hq|by rewrite Hq|done].
Qed.

Lemma later_trans c0 c1 c2 : later c0 c1 → later c1 c2 → later c0 c2.
Proof using Type. intros [? ?] [? ?]. split; [done|by etrans]. Qed.

Lemma validated_handler p s r s' ev :
  stake_answers → drb_healthy s → cons_inv (qv_consensus s) → certs_match (qv_consensus s) →
  handle_quorum_proposal_validated bincode_signatures cfg p s = (r, s', ev) →
  decide_result (qv_consensus s) r s' ev.
Proof using Lm Rk.
  intros Hst Hh Hc Hcm H. unfold handle_quorum_proposal_validated in H. cbn zeta in H.
  apply bind_cases in H as [(s0 & s1 & e1 & e2 & [= <- <- <-] & H & ->)|[(? & [=] & _)|([=] & _)]].
  apply bind_cases in H as [(v & s1 & e1' & e2' & Hv & H & ->)|[(? & [= _ <- <-] & ->)|(Hv & _)]];
    [|by apply decide_result_err|].
  2:{ unfold lift, version in Hv. by repeat case_match. }
  apply lift_run in Hv as Hvv. destruct Hvv as [_ ->]. injection Hv as _ <-.
  pose proof (drb_part_sound (qv_consensus s) (version_ge v Epochs) p Hst s (drb_only_refl s Hh)) as Hso.
  pose proof (drb_part_silent (version_ge v Epochs) p s) as Hsi.
  apply bind_cases in H as [(u & s2 & e3 & e4 & Hu & H & ->)|[(e & Hu & ->)|(Hu & _)]];
    rewrite Hu in Hso, Hsi; simpl in Hso, Hsi; destruct Hso as [Hnp Hdrb]; subst.
  - pose proof (drb_only_later _ _ Hc Hdrb) as Hl2. destruct Hdrb as [Hh2 [d Hd]].
    apply bind_cases in H as [(s0 & s3 & e1 & e2 & [= <- <- <-] & H & ->)|[(? & [=] & _)|([=] & _)]].
    apply traversal_announce in H as (Hr & Hl & He); [|done|apply Hl2|by rewrite Hd].
    split_and!; [done|by eapply later_trans|]. intros v' ch qc n Hdec. destruct (He _ _ _ _ Hdec) as (Hlt & ? & ?).
    split; [|done]. by rewrite Hd in Hlt.
  - apply decide_result_err. by apply drb_only_later.
  - done.
Qed.

(** ** Votes *)

(** The payload commitment that an event of a dependency states. *)
Definition event_commitment (e : DependencyEvent) : option VidCommitment :=
  match e with
  | DepProposal p _ => Some (header_payload_commitment (p_block_header (proposal_data p)))
  | DepDac cert => Some (payload_commit (data cert))
  | DepVid share => Some (vid_payload_commitment (proposal_data share))
  | DepOther => None
  end.

(** Where the local variables of the loop come from. *)
Record dep_result (events : list DependencyEvent) (d : dep_state) : Prop := {
  dr_agree e : e ∈ events → event_commitment e = None ∨ event_commitment e = d_payload_commitment d;
  dr_leaf leaf : d_leaf d = Some leaf →
    ∃ (p : Proposal QuorumProposal2) parent, DepProposal p parent ∈ events ∧ leaf = leaf2_from_quorum_proposal (proposal_data p) ∧
      leaf_commit (data (p_justify_qc (proposal_data p))) = leaf2_commit parent ∧
      d_parent_view_number d = Some (leaf_view parent);
  dr_share share : d_vid_share d = Some share → DepVid share ∈ events;
}.

Lemma agree_payload_inv seen comm (x : VidCommitment) :
  agree_payload seen comm = Some x → comm = x ∧ (seen = None ∨ seen = Some x).
Proof using Type.
  unfold agree_payload. destruct seen; [case_bool_decide|]; naive_solver.
Qed.

Lemma dep_result_nil :
  dep_result [] {| d_payload_commitment := None; d_leaf := None; d_vid_share := None; d_parent_view_number := None |}.
Proof using Type. split; simpl; [by intros e []%elem_of_nil|done|done]. Qed.

(** One more event. *)
Lemma dep_result_snoc past e d d' :
  dep_result past d →
  (event_commitment e = None ∧ d_payload_commitment d' = d_payload_commitment d) ∨
  (∃ x, event_commitment e = Some x ∧ d_payload_commitment d' = Some x ∧
     (d_payload_commitment d = None ∨ d_payload_commitment d = Some x)) →
  (∀ leaf, d_leaf d' = Some leaf →
     (d_leaf d = Some leaf ∧ d_parent_view_number d' = d_parent_view_number d) ∨
     ∃ (p : Proposal QuorumProposal2) parent, e = DepProposal p parent ∧
       leaf = leaf2_from_quorum_proposal (proposal_data p) ∧
       leaf_commit (data (p_justify_qc (proposal_data p))) = leaf2_commit parent ∧
       d_parent_view_number d' = Some (leaf_view parent)) →
  (∀ share, d_vid_share d' = Some share → d_vid_share d = Some share ∨ e = DepVid share) →
  dep_result (past ++ [e]) d'.
Proof using Type.
  intros [Ha Hl Hs] Hc Hl' Hs'. split.
  - intros e' [He|He%list_elem_of_singleton]%elem_of_app.
    + destruct (Ha e' He) as [?|Heq]; [by left|]. destruct Hc as [[_ ->]|(x & _ & -> & [Hn|Hn])]; [by right|..];
        rewrite Hn in Heq; auto.
    + subst e'. destruct Hc as [[? _]|(x & -> & -> & _)]; auto.
  - intros leaf [[Hlf Hpv]|(p & parent & -> & ? & ?)]%Hl'.
    + destruct (Hl leaf Hlf) as (p & parent & ? & ?). exists p, parent. rewrite Hpv.
      split; [|done]. apply elem_of_app. by left.
    + exists p, parent. split; [|done]. apply elem_of_app. right. left.
  - intros share [Hsh| ->]%Hs'; apply elem_of_app; [left; by apply Hs|right; left].
Qed.

(** A DA certificate or a share: nothing but the commitment is tested. *)
Lemma agree_mret d comm s (k : VidCommitment → dep_state) d' s' (ev : list VoteEvent) :
  (mret (match agree_payload (d_payload_commitment d) comm with
         | None => None | Some x => Some (k x) end) : task (QuorumVoteTaskState (M := M)) VoteEvent Error _) s
    = (Ok (Some d'), s', ev) →
  d' = k comm ∧ (d_payload_commitment d = None ∨ d_payload_commitment d = Some comm).
Proof using Type.
  intros [= H _ _]. destruct (agree_payload _ _) as [x|] eqn:Ha; [|done]. injection H as <-.
  apply agree_payload_inv in Ha as [-> ?]. done.
Qed.

Lemma dep_event_result view e past d s d' s' ev :
  dep_result past d → dep_event cfg (M := M) view e d s = (Ok (Some d'), s', ev) →
  dep_result (past ++ [e]) d'.
Proof using Type.
  intros Hd H. destruct e as [p parent|cert|share|]; simpl in H.
  - apply bind_run in H as (s0 & s1 & ? & ? & [= <- <- <-] & H & _).
    destruct (version _ _) as [v|e|]; [|done|done].
    apply bind_run in H as (fo & s2 & ? & ? & _ & H & _). destruct fo; [done|].
    destruct (agree_payload _ _) as [comm|] eqn:Hag; [|done].
    apply agree_payload_inv in Hag as [Hcomm Hseen].
    destruct (bool_decide _) eqn:Hp; [|done]. destruct (proposal_stored _); [|done].
    injection H as <- _ _. apply bool_decide_eq_true in Hp. apply (dep_result_snoc _ _ d); simpl; naive_solver.
  - apply agree_mret in H as [-> H]. apply (dep_result_snoc _ _ d); simpl; naive_solver.
  - apply agree_mret in H as [-> H]. apply (dep_result_snoc _ _ d); simpl; naive_solver.
  - injection H as <- _ _. apply (dep_result_snoc _ _ d); simpl; naive_solver.
Qed.

Lemma dep_events_result view events past d s d' s' ev :
  dep_result past d → dep_events cfg (M := M) view events d s = (Ok (Some d'), s', ev) →
  dep_result (past ++ events) d'.
Proof using Type.
  revert past d s ev. induction events as [|e events IH]; intros past d s ev Hd H; simpl in H.
  - injection H as <- _ _. by rewrite app_nil_r.
  - apply bind_run in H as ([d1|] & s1 & ? & ? & H1 & H & _); [|done].
    apply dep_event_result with (past := past) in H1; [|done]. apply IH with (past := past ++ [e]) in H; [|done].
    by rewrite <-app_assoc in H.
Qed.

Lemma dep_events_silent view events d : silent (dep_events cfg (M := M) view events d).
Proof using Type.
  revert d. induction events as [|e events IH]; intros d; simpl; [auto with hotshot|].
  apply silent_bind; [unfold dep_event; cbn zeta; solve_silent|]. intros [d'|]; auto with hotshot.
Qed.

(** ** What the handlers send *)

(** Events that are not votes, and votes of a view. *)
Definition no_vote (e : VoteEvent) : Prop :=
  match e with QuorumVoteSend _ | ExtendedQuorumVoteSend _ => False | _ => True end.
Definition voted_in (P : ViewNumber → Prop) (e : VoteEvent) : Prop :=
  match e with QuorumVoteSend v | ExtendedQuorumVoteSend v => P (vote_view v) | _ => True end.

Lemma no_vote_in P e : no_vote e → voted_in P e.
Proof using Type. by destruct e. Qed.

Lemma on_consensus_only {A} (m : task Consensus ProposalEvent Error A) :
  only no_vote (on_consensus (M := M) m).
Proof using Type.
  intros s e. unfold emits, on_consensus. destruct (m _) as [[r c] ev]. simpl.
  by intros (x & -> & _)%list_elem_of_fmap.
Qed.

Context (key_to_bytes : PubKey → bytes).
Context (validate_and_apply_header :
  ValidatedState → InstanceState → Leaf2 → BlockHeader → VidCommon → Version → Z →
  option (ValidatedState * Delta)).

Lemma update_shared_only responses view leaf share parent :
  only no_vote (update_shared_state key_to_bytes validate_and_apply_header cfg (M := M) responses view leaf share parent).
Proof using Type.
  unfold update_shared_state. cbn zeta. pose proof @on_consensus_only. only_step.
Qed.

(** The node is in the committee of the leaf's epoch, or in the next one and the
    leaf is the last of its epoch. *)
Definition vote_epoch (leaf : Leaf2) : option EpochNumber :=
  option_epoch_from_block_number (with_epoch leaf) (block_number (block_header leaf)) (vc_epoch_height cfg).
Definition entitled (m : M) (leaf : Leaf2) : Prop :=
  has_stake m (vc_public_key cfg) (vote_epoch leaf) = Ok true ∨
  (with_epoch leaf = true ∧ is_last_block_in_epoch (height leaf) (vc_epoch_height cfg) = true ∧
   has_stake m (vc_public_key cfg) ((fun x => wrapper_add x 1) <$> vote_epoch leaf) = Ok true).

(** A vote of this node for [leaf]. *)
Record vote_for (view : ViewNumber) (leaf : Leaf2) (vote : SimpleVote QuorumData2) : Prop := {
  vf_view : vote_view vote = view;
  vf_data : vote_data vote = {| leaf_commit := leaf2_commit leaf; q2_epoch := vote_epoch leaf |};
  vf_key : (signature vote).1 = vc_public_key cfg;
}.

Lemma submit_vote_emits view leaf ext s e :
  emits (submit_vote cfg view leaf ext) s e →
  ∃ vote, e = (if ext then ExtendedQuorumVoteSend vote else QuorumVoteSend vote) ∧
    vote_for view leaf vote ∧ entitled (qv_membership s) leaf.
Proof using Type.
  intros H. unfold submit_vote in H. cbn zeta in H. do 6 peel H.
  apply create_signed_vote_ok in Hb1 as (? & ? & ?). apply list_elem_of_singleton in H.
  exists a2. split; [done|]. split; [done|]. unfold entitled, vote_epoch.
  apply orb_true_iff in Hb0 as [->| ->]; [by left|]. right.
  destruct (with_epoch leaf && _) eqn:Hwe; [|by apply ret_run in Hrun as [? _]].
  apply andb_true_iff in Hwe as [Hw Hl]. apply lift_run in Hrun as [Hr _]. done.
Qed.

(** What the three dependencies of a view resolve to. *)
Lemma vote_deps_result view seed rx res :
  (∀ (p : Proposal QuorumProposal2) parent, seed = DepProposal p parent → p_view_number (proposal_data p) = view) →
  and_completed ((fun d => event_completed d rx) <$> vote_deps view seed) (Some res) →
  ∃ (p : Proposal QuorumProposal2) parent cert share,
    res ≡ₚ [DepProposal p parent; DepDac cert; DepVid share] ∧
    p_view_number (proposal_data p) = view ∧ view_number cert = view ∧ share_view (proposal_data share) = view.
Proof using Type.
  intros Hseed H%and_completed_some. simpl in H.
  assert (∃ x y z, res ≡ₚ [x; y; z] ∧ event_completed (hd (create_event_dependency DacDep view) (vote_deps view seed)) rx = Ready (Some x) ∧
    event_completed (create_event_dependency DacDep view) rx = Ready (Some y) ∧
    event_completed (create_event_dependency VidDep view) rx = Ready (Some z)) as (x & y & z & Hp & Hx & Hy & Hz).
  { apply Permutation_map_inv in H as (l & Hl & Hp). destruct l as [|x [|y [|z [|]]]]; try done.
    injection Hl as Hx Hy Hz. exists x, y, z. by rewrite Hp. }
  apply event_completed_match in Hy as [?|(_ & Hy & _)]; [done|].
  apply event_completed_match in Hz as [?|(_ & Hz & _)]; [done|].
  destruct y as [| cert | |]; try done. destruct z as [| |share|]; try done. simpl in Hy, Hz. apply Z.eqb_eq in Hy, Hz.
  assert (∃ (p : Proposal QuorumProposal2) parent, x = DepProposal p parent ∧ p_view_number (proposal_data p) = view)
    as (p & parent & -> & Hv).
  { apply event_completed_match in Hx as [Hx|(_ & Hx & _)].
    - destruct seed as [p parent| | |]; simpl in Hx; try done. injection Hx as <-. eauto.
    - destruct seed as [p0 parent0| | |]; destruct x as [p parent| | |]; try done; simpl in Hx; apply Z.eqb_eq in Hx; eauto. }
  by exists p, parent, cert, share.
Qed.

(** ** The end of a dependency task *)

(** The parts of the task's state that the vote handler does not touch. *)
Definition same_task s0 s : Prop :=
  qv_membership s = qv_membership s0 ∧ qv_upgrade_lock s = qv_upgrade_lock s0 ∧
  latest_voted_view s = latest_voted_view s0 ∧ vote_dependencies s = vote_dependencies s0.

Lemma on_consensus_keeps {A} s0 (m : task Consensus ProposalEvent Error A) :
  keeps (same_task s0) (on_consensus (M := M) m).
Proof using Type. intros s Hs. unfold on_consensus. by destruct (m _) as [[]]. Qed.
#[local] Hint Resolve on_consensus_keeps : hotshot.

Lemma update_shared_keeps s0 responses view leaf share parent :
  keeps (same_task s0)
    (update_shared_state key_to_bytes validate_and_apply_header cfg (M := M) responses view leaf share parent).
Proof using Type. unfold update_shared_state. cbn zeta. keeps_step. Qed.

Lemma dep_events_keeps s0 view events d : keeps (same_task s0) (dep_events cfg (M := M) view events d).
Proof using Type.
  revert d. induction events as [|e events IH]; intros d; simpl; [keeps_step|].
  apply keeps_bind; [unfold dep_event; cbn zeta; keeps_step|]. intros [d'|]; keeps_step.
Qed.

Lemma handle_dep_result_emits view responses res s vote :
  emits (handle_dep_result key_to_bytes validate_and_apply_header cfg view responses res) s (QuorumVoteSend vote) →
  ∃ d leaf share, dep_result res d ∧ d_leaf d = Some leaf ∧ d_vid_share d = Some share ∧ vote_for view leaf vote ∧
    entitled (qv_membership s) leaf.
Proof using Lm.
  intros H. unfold handle_dep_result in H.
  apply emits_silent in H as (d & s1 & Hd & H); [|apply dep_events_silent].
  assert (same_task s s1) as Hk by (eapply keeps_run, Hd; [apply dep_events_keeps|done]).
  destruct d as [d|]; [|by apply emits_ret in H].
  apply dep_events_result with (past := []) in Hd; [|apply dep_result_nil].
  destruct (d_vid_share d) as [share|] eqn:Hs; [|by apply emits_ret in H].
  destruct (d_leaf d) as [leaf|] eqn:Hl; [|by apply emits_ret in H].
  apply emits_bind in H as [H|(ok & s2 & ev & Hok & H)].
  { apply (only_ok_result no_vote) in H; [done|]. apply update_shared_only. }
  assert (same_task s s2) as Hk2 by (eapply keeps_run, Hok; [apply keeps_ok_result, update_shared_keeps|done]).
  destruct ok; [|by apply emits_ret in H].
  apply emits_bind in H as [H|(? & s3 & ev' & [= <- <- <-] & H)]; [by apply list_elem_of_singleton in H|].
  assert (emits (submit_vote cfg view leaf false) s2 (QuorumVoteSend vote)) as Hsub.
  { unfold emits, logged in *. by destruct (submit_vote _ _ _ _ s2) as [[[]]]. }
  destruct (submit_vote_emits _ _ _ _ _ Hsub) as (vote' & [= <-] & ? & He).
  destruct Hk2 as [Hm _]. rewrite Hm in He. eauto 10.
Qed.

(** ** The task and its dependency tasks *)

(** The task's state and the dependency tasks that have not finished.  A task is
    aborted when its handle is dropped from [vote_dependencies]. *)
Definition spawned s s' (pending : gset ViewNumber) : gset ViewNumber :=
  (pending ∪ (vote_dependencies s' ∖ vote_dependencies s)) ∩ vote_dependencies s'.

Inductive vote_step : QuorumVoteTaskState (M := M) * gset ViewNumber → list VoteEvent →
    QuorumVoteTaskState (M := M) * gset ViewNumber → Prop :=
  | vote_step_handle s pending input responses r s' ev :
      vote_handle key_to_bytes bincode_signatures validate_and_apply_header cfg input responses s = (r, s', ev) →
      vote_step (s, pending) ev (s', spawned s s' pending)
  | vote_step_dep s pending view responses res r s' ev :
      view ∈ pending →
      handle_dep_result key_to_bytes validate_and_apply_header cfg view responses res s = (r, s', ev) →
      vote_step (s, pending) ev (s', pending ∖ {[view]}).

(** Tasks are for views not before the latest one voted in. *)
Definition tasks_current (sp : QuorumVoteTaskState (M := M) * gset ViewNumber) : Prop :=
  sp.2 ⊆ vote_dependencies sp.1 ∧ ∀ v, v ∈ vote_dependencies sp.1 → latest_voted_view sp.1 <= v.

(** The voted view does not go back, and tasks stay current. *)
Definition advances s0 s : Prop :=
  latest_voted_view s0 <= latest_voted_view s ∧ ∀ v, v ∈ vote_dependencies s → latest_voted_view s <= v.

(** What only the task's own operations write. *)
Definition same_votes s0 s : Prop :=
  latest_voted_view s = latest_voted_view s0 ∧ vote_dependencies s = vote_dependencies s0.

Lemma advances_same s0 s s' : advances s0 s → same_votes s s' → advances s0 s'.
Proof using Type. intros [? Hv] [Hl Hd]. unfold advances. by rewrite Hl, Hd. Qed.

Lemma on_consensus_votes {A} s0 (m : task Consensus ProposalEvent Error A) :
  keeps (same_votes s0) (on_consensus (M := M) m).
Proof using Type. intros s Hs. unfold on_consensus. by destruct (m _) as [[]]. Qed.
Lemma write_consensus_votes s0 f : keeps (same_votes s0) (write_consensus (M := M) f).
Proof using Type. intros s Hs. unfold write_consensus, update. by destruct (f _). Qed.
Lemma write_drb_votes s0 f : keeps (same_votes s0) (write_drb (M := M) f).
Proof using Type. by intros s Hs. Qed.
Lemma set_drb_votes s0 d : keeps (same_votes s0) (modify (fun s => set_drb_computation s d) : task _ VoteEvent Error unit).
Proof using Type. by intros s Hs. Qed.
Lemma set_membership_votes s0 m : keeps (same_votes s0) (modify (fun s => set_qv_membership s m) : task _ VoteEvent Error unit).
Proof using Type. by intros s Hs. Qed.
Lemma set_lock_votes s0 l : keeps (same_votes s0) (modify (fun s => set_qv_upgrade_lock s l) : task _ VoteEvent Error unit).
Proof using Type. by intros s Hs. Qed.
#[local] Hint Resolve on_consensus_votes write_consensus_votes write_drb_votes set_drb_votes
  set_membership_votes set_lock_votes : hotshot.

Lemma validated_votes s0 p :
  keeps (same_votes s0) (handle_quorum_proposal_validated bincode_signatures cfg (M := M) p).
Proof using Type.
  unfold handle_quorum_proposal_validated, announce_decide, verify_drb_result, start_drb_task, settle_drb_task,
    store_drb_seed_and_result, store_and_get_computed_drb_result. cbn zeta. keeps_step.
Qed.

Lemma validated_only p :
  only no_vote (handle_quorum_proposal_validated bincode_signatures cfg (M := M) p).
Proof using Type.
  unfold handle_quorum_proposal_validated, announce_decide, verify_drb_result, start_drb_task, settle_drb_task,
    store_drb_seed_and_result, store_and_get_computed_drb_result, write_consensus. cbn zeta. only_step.
Qed.

Lemma submit_vote_only view leaf ext : only (voted_in (.= view)) (submit_vote cfg (M := M) view leaf ext).
Proof using Type. intros s e (vote & -> & [Hv _ _] & _)%submit_vote_emits. by destruct ext. Qed.

Lemma eqc_voting_only (p : Proposal QuorumProposal2) parent responses :
  only (voted_in (.= p_view_number (proposal_data p)))
    (handle_eqc_voting key_to_bytes validate_and_apply_header cfg (M := M) p parent responses).
Proof using Type.
  unfold handle_eqc_voting. cbn zeta.
  pose proof (fun A m => only_impl _ (voted_in (.= p_view_number (proposal_data p))) _ (on_consensus_only (A := A) m) (no_vote_in _)).
  pose proof (fun rs v l sh pa => only_impl _ (voted_in (.= p_view_number (proposal_data p))) _
    (update_shared_only rs v l sh pa) (no_vote_in _)).
  pose proof submit_vote_only. only_step.
Qed.

Lemma eqc_voting_votes s0 (p : Proposal QuorumProposal2) parent responses :
  keeps (same_votes s0) (handle_eqc_voting key_to_bytes validate_and_apply_header cfg (M := M) p parent responses).
Proof using Type. unfold handle_eqc_voting, update_shared_state, submit_vote. cbn zeta. keeps_step. Qed.

(** One event of the task. *)
Record handled s (input : VoteInput) s' (ev : list VoteEvent) : Prop := {
  h_advances : advances s s';
  h_votes e : e ∈ ev → voted_in (fun v => latest_voted_view s < v) e;
  h_created v : v ∈ vote_dependencies s' → v ∉ vote_dependencies s → latest_voted_view s < v;
  h_view w : input = InViewChange w → saturating_sub w 1 <= latest_voted_view s';
}.

Lemma update_latest_spec s v :
  (∀ w, w ∈ vote_dependencies s → latest_voted_view s <= w) →
  let s' := cancel_dependencies (update_latest_voted_view s v).1 v in
  latest_voted_view s' = latest_voted_view s `max` v ∧
  ∀ w, w ∈ vote_dependencies s' → w ∈ vote_dependencies s ∧ latest_voted_view s' <= w.
Proof using Type.
  intros Hw. unfold update_latest_voted_view. cbn zeta. destruct (Z.ltb_spec (latest_voted_view s) v); simpl.
  - split; [lia|]. intros w. rewrite !elem_of_filter. intuition lia.
  - split; [lia|]. intros w. rewrite !elem_of_filter. intros [? Hin]. specialize (Hw w Hin). intuition lia.
Qed.

(** At most one new task, for [v]. *)
Definition one_task v s0 s : Prop :=
  latest_voted_view s = latest_voted_view s0 ∧
  (vote_dependencies s = vote_dependencies s0 ∨ vote_dependencies s = {[v]} ∪ vote_dependencies s0).

Lemma one_task_keeps {A} v s0 (m : task _ VoteEvent Error A) :
  (∀ s1, keeps (same_votes s1) m) → keeps (one_task v s0) m.
Proof using Type.
  intros Hm s [Hl Hd]. destruct (Hm s s) as [Hl' Hd']; [by split|]. unfold one_task. by rewrite Hl', Hd'.
Qed.

Lemma create_task_keeps v s0 : keeps (one_task v s0) (create_dependency_task_if_new (M := M) v).
Proof using Type.
  intros s [Hl [Hd|Hd]]; (split; [done|right]); simpl; rewrite Hd; [done|].
  apply leibniz_equiv. intros w. rewrite !elem_of_union. tauto.
Qed.

Lemma one_task_handled s s' (ev : list VoteEvent) v input :
  (∀ w, w ∈ vote_dependencies s → latest_voted_view s <= w) →
  one_task v s s' → latest_voted_view s < v →
  (∀ e, e ∈ ev → voted_in (.= v) e) → (∀ w, input ≠ InViewChange w) → handled s input s' ev.
Proof using Type.
  intros Hw [Hl Hd] Hv Hev Hi. split.
  - split; [lia|]. intros w. destruct Hd as [-> | ->]; [intros ?%Hw; lia|].
    rewrite elem_of_union, elem_of_singleton. intros [-> | ?%Hw]; lia.
  - intros e He%Hev. destruct e; simpl in *; lia.
  - intros w. destruct Hd as [-> | ->]; [done|].
    rewrite elem_of_union, elem_of_singleton. by intros [-> | ?].
  - intros w Heq. by destruct (Hi w).
Qed.

(** Nothing but the rest of the state has changed. *)
Lemma same_handled s s' (ev : list VoteEvent) input :
  (∀ w, w ∈ vote_dependencies s → latest_voted_view s <= w) → same_votes s s' →
  (∀ e, e ∈ ev → no_vote e) → (∀ w, input ≠ InViewChange w) → handled s input s' ev.
Proof using Type.
  intros Hw [Hl Hd] Hev Hi. split.
  - split; [lia|]. rewrite Hd, Hl. done.
  - intros e He. by apply no_vote_in, Hev.
  - intros w. by rewrite Hd.
  - intros w Heq. by destruct (Hi w).
Qed.

(** The handlers that test the view first. *)
Lemma guarded_handled (pre : task _ VoteEvent Error unit) v err (m : QuorumVoteTaskState (M := M) → task _ VoteEvent Error unit) input s r s' ev :
  (∀ w, w ∈ vote_dependencies s → latest_voted_view s <= w) → (∀ w, input ≠ InViewChange w) →
  (∀ s0, keeps (same_votes s0) pre) → only no_vote pre →
  (∀ s0 s1, keeps (one_task v s0) (m s1)) → (∀ s1, only (voted_in (.= v)) (m s1)) →
  (_ ← pre; s0 ← get; _ ← require (latest_voted_view s0 <? v) err; m s0) s = (r, s', ev) →
  handled s input s' ev.
Proof using Type.
  intros Hw Hi Hpre Hpo Hk Ho H.
  assert (∀ s1, same_votes s s1 → one_task v s s1) as Hone by (intros ? []; by split; [|left]).
  apply bind_cases in H as [(u & s1 & e1 & e2 & Hp & H & ->)|[(e & Hp & ->)|[Hp ->]]];
    pose proof (keeps_run _ _ _ _ _ _ (Hpre s) ltac:(done) Hp) as Hs1;
    pose proof (fun e => Hpo s e) as He1; unfold emits in He1; rewrite Hp in He1; simpl in He1;
    [|by apply same_handled..].
  apply bind_cases in H as [(s0 & s2 & e3 & e4 & [= <- <- <-] & H & ->)|[(? & [=] & _)|([=] & _)]].
  apply bind_cases in H as [([] & s2 & e3 & e5 & Hr & H & ->)|[(e & [= _ <- <-] & ->)|[[= _ <- <-] ->]]].
  - pose proof Hr as Hr'. apply require_run in Hr' as [Hv%Z.ltb_lt ->]. injection Hr as _ <-.
    destruct Hs1 as [Hl1 Hd1]. apply (one_task_handled _ _ _ v); [done| |lia| |done].
    + eapply keeps_run, H; [apply Hk|by split; [|left]].
    + intros e. rewrite !elem_of_app. intros [He|[He|[He|He]]]; [by apply no_vote_in, He1|by apply elem_of_nil in He..|].
      apply (Ho s1 s1). unfold emits. by rewrite H.
  - apply same_handled; [done|done| |done]. intros x. rewrite ?app_nil_r. auto.
  - apply same_handled; [done|done| |done]. intros x. rewrite ?app_nil_r. auto.
Qed.

#[local] Hint Resolve create_task_keeps validated_votes validated_only eqc_voting_votes : hotshot.

Lemma vote_handle_spec input responses s r s' ev :
  (∀ w, w ∈ vote_dependencies s → latest_voted_view s <= w) →
  vote_handle key_to_bytes bincode_signatures validate_and_apply_header cfg input responses s = (r, s', ev) →
  handled s input s' ev.
Proof using Type.
  intros Hw H. destruct input as [p parent|cert|sender share|view|view]; simpl in H.
  - eapply (guarded_handled (logged (handle_quorum_proposal_validated bincode_signatures cfg (proposal_data p)))), H;
      [done|done|auto with hotshot|auto with hotshot|..].
    + intros s0 s1. keeps_step; try (apply one_task_keeps; auto with hotshot).
    + intros s1. pose proof eqc_voting_only. unfold create_dependency_task_if_new. only_step.
  - rewrite <-(ret_bind tt (fun _ => handle_da_cert cert)) in H.
    eapply (guarded_handled (mret tt) (view_number cert)), H; [done|done|auto with hotshot|auto with hotshot|..].
    + intros s0 s1. keeps_step; apply one_task_keeps; auto with hotshot.
    + intros s1. pose proof (fun A m => only_impl _ (voted_in (.= view_number cert)) _ (on_consensus_only (A := A) m) (no_vote_in _)).
      unfold create_dependency_task_if_new. only_step.
  - rewrite <-(ret_bind tt (fun _ => handle_vid_share cfg sender share)) in H.
    eapply (guarded_handled (mret tt) (share_view (proposal_data share))), H; [done|done|auto with hotshot|auto with hotshot|..].
    + intros s0 s1. keeps_step; apply one_task_keeps; auto with hotshot.
    + intros s1. pose proof (fun A m => only_impl _ (voted_in (.= share_view (proposal_data share))) _ (on_consensus_only (A := A) m) (no_vote_in _)).
      unfold create_dependency_task_if_new. only_step.
  - injection H as <- <- <-. split; [| |by intros w [_ ?]%elem_of_filter|done].
    + split; [done|]. by intros w [_ ?%Hw]%elem_of_filter.
    + by intros e []%elem_of_nil.
  - injection H as <- <- <-. destruct (update_latest_spec s (saturating_sub view 1) Hw) as [Hl Hd]. split.
    + split; [rewrite Hl; lia|]. by intros w [_ ?]%Hd.
    + by intros e []%elem_of_nil.
    + by intros w [? _]%Hd.
    + intros w [= <-]. rewrite Hl. lia.
Qed.

Lemma handle_dep_result_votes s0 view responses res :
  keeps (same_votes s0) (handle_dep_result key_to_bytes validate_and_apply_header cfg (M := M) view responses res).
Proof using Type.
  unfold handle_dep_result, submit_vote. cbn zeta.
  apply keeps_bind.
  { intros s1 Hs1. destruct (dep_events_keeps s1 view res {| d_payload_commitment := None; d_leaf := None;
      d_vid_share := None; d_parent_view_number := None |} s1) as (_ & _ & ? & ?); [done|].
    destruct Hs1. split; congruence. }
  unfold update_shared_state. cbn zeta. keeps_step.
Qed.

Lemma handle_dep_result_only view responses res :
  only (voted_in (.= view)) (handle_dep_result key_to_bytes validate_and_apply_header cfg (M := M) view responses res).
Proof using Type.
  pose proof (dep_events_silent view res). pose proof submit_vote_only.
  pose proof (fun rs v l sh pa => only_impl _ (voted_in (.= view)) _ (update_shared_only rs v l sh pa) (no_vote_in _)).
  unfold handle_dep_result. cbn zeta. only_step.
Qed.

(** ** When a vote is sent *)

(** Everything a vote needs: the three events agree, the storage answers, the
    parent and its state are known, and the header applies. *)
Record vote_ready s (view : ViewNumber) (pr : Proposal QuorumProposal2) (parent : Leaf2)
    (cert : DaCertificate2) (share : Proposal VidDisperseShare) (vote : SimpleVote QuorumData2) : Prop := {
  vr_version : ∃ v, version (qv_upgrade_lock s) view = Ok v ∧
    (version_ge v Epochs = true →
     is_leaf_forming_eqc (qv_consensus s) (leaf_commit (data (p_justify_qc (proposal_data pr)))) = Some false) ∧
    ∃ inner st st' d, validated_state_map (qv_consensus s) !! leaf_view parent = Some inner ∧
      (view_state_and_delta inner).1 = Some st ∧
      validate_and_apply_header st (vc_instance_state cfg) parent (p_block_header (proposal_data pr))
        (vid_common_ref (proposal_data share)) v view = Some (st', d);
  vr_cert : payload_commit (data cert) = header_payload_commitment (p_block_header (proposal_data pr));
  vr_share : vid_payload_commitment (proposal_data share) = header_payload_commitment (p_block_header (proposal_data pr));
  vr_parent : leaf_commit (data (p_justify_qc (proposal_data pr))) = leaf2_commit parent;
  vr_saved : saved_leaves (qv_consensus s) !! leaf2_commit parent = Some parent;
  vr_storage : proposal_stored (vc_storage cfg) = true ∧ undecided_stored (vc_storage cfg) = true ∧
    vid_stored (vc_storage cfg) = true;
  vr_entitled : entitled (qv_membership s) (leaf2_from_quorum_proposal (proposal_data pr));
  vr_vote : create_signed_vote {| leaf_commit := leaf2_commit (leaf2_from_quorum_proposal (proposal_data pr));
                                  q2_epoch := vote_epoch (leaf2_from_quorum_proposal (proposal_data pr)) |} view
              (vc_public_key cfg) (vc_private_key cfg) (qv_upgrade_lock s) = Ok vote;
}.

(** One event that agrees with the rest. *)
Lemma dep_event_ok s view pr parent cert share vote e d :
  vote_ready s view pr parent cert share vote → e ∈ [DepProposal pr parent; DepDac cert; DepVid share] →
  d_payload_commitment d = None ∨
    d_payload_commitment d = Some (header_payload_commitment (p_block_header (proposal_data pr))) →
  ∃ d', dep_event cfg view e d s = (Ok (Some d'), s, []) ∧
    d_payload_commitment d' = Some (header_payload_commitment (p_block_header (proposal_data pr))) ∧
    (is_Some (d_leaf d) ∨ e = DepProposal pr parent → is_Some (d_leaf d')) ∧
    (is_Some (d_vid_share d) ∨ e = DepVid share → is_Some (d_vid_share d')).
Proof using Type.
  intros [(v & Hv & Hf & _) Hc Hs Hp Hsv (Hst & _) _ _] He Hd.
  assert (∀ comm : VidCommitment, d_payload_commitment d = None ∨ d_payload_commitment d = Some comm →
    agree_payload (d_payload_commitment d) comm = Some comm) as Hag.
  { intros comm [-> | ->]; simpl; [done|]. by rewrite bool_decide_eq_true_2. }
  rewrite !elem_of_cons, elem_of_nil in He. destruct He as [->|[->|[->|[]]]]; simpl.
  - unfold mbind, task_bind. simpl. rewrite Hv.
    assert ((if version_ge v Epochs then finish (is_leaf_forming_eqc (qv_consensus s)
       (leaf_commit (data (p_justify_qc (proposal_data pr))))) else mret false) s = (Ok false, s, [] : list VoteEvent)) as ->.
    { destruct (version_ge v Epochs); [by rewrite Hf|done]. }
    rewrite Hag by done. rewrite bool_decide_eq_true_2 by done. rewrite Hst. simpl. eexists. split; [done|]. simpl. split_and!; eauto.
    intros [?|?]; done.
  - rewrite Hc, Hag by done. simpl. eexists. split; [done|]. simpl. split_and!; [done|intros [?|?]; done..].
  - rewrite Hs, Hag by done. simpl. eexists. split; [done|]. simpl. split_and!; [done|intros [?|?]; done|eauto].
Qed.

Lemma dep_events_ok s view pr parent cert share vote events d :
  vote_ready s view pr parent cert share vote → Forall (.∈ [DepProposal pr parent; DepDac cert; DepVid share]) events →
  d_payload_commitment d = None ∨
    d_payload_commitment d = Some (header_payload_commitment (p_block_header (proposal_data pr))) →
  ∃ d', dep_events cfg view events d s = (Ok (Some d'), s, []) ∧
    (is_Some (d_leaf d) ∨ DepProposal pr parent ∈ events → is_Some (d_leaf d')) ∧
    (is_Some (d_vid_share d) ∨ DepVid share ∈ events → is_Some (d_vid_share d')).
Proof using Type.
  intros Hr Hev. revert d. induction Hev as [|e events He _ IH]; intros d Hd; simpl.
  - exists d. split; [done|]. split; by intros [?|[]%elem_of_nil].
  - destruct (dep_event_ok _ _ _ _ _ _ _ _ d Hr He Hd) as (d1 & Hrun & Hc1 & Hl1 & Hs1).
    destruct (IH d1 (or_intror Hc1)) as (d2 & Hrun2 & Hl2 & Hs2). exists d2.
    unfold mbind, task_bind. rewrite Hrun. simpl. rewrite Hrun2. split; [done|].
    split; intros [?|[?|?]%elem_of_cons]; auto.
Qed.
Lemma update_shared_ok s view pr parent cert share vote responses :
  vote_ready s view pr parent cert share vote →
  ∃ c', update_shared_state key_to_bytes validate_and_apply_header cfg responses view
    (leaf2_from_quorum_proposal (proposal_data pr)) share (Some (leaf_view parent)) s = (Ok tt, set_qv_consensus s c', []).
Proof using Type.
  intros [(v & Hv & _ & inner & st & st' & d & Hi & Hst & Ha) _ _ Hp Hsv (_ & Hu & _) _ _].
  unfold update_shared_state. cbn zeta. unfold mbind, task_bind. simpl. rewrite Hp, Hsv. simpl. rewrite Hi. simpl. rewrite Hst. simpl.
  unfold lift. rewrite Hv. simpl. rewrite Ha. simpl. unfold on_consensus.
  rewrite swallow_ok by apply update_leaf_no_panic. simpl. unfold require, lift. rewrite Hu. simpl. by eexists.
Qed.

Lemma submit_vote_ok s view leaf vote :
  (∀ m k e, ∃ b, has_stake (M := M) m k e = Ok b) → entitled (qv_membership s) leaf →
  create_signed_vote {| leaf_commit := leaf2_commit leaf; q2_epoch := vote_epoch leaf |} view
    (vc_public_key cfg) (vc_private_key cfg) (qv_upgrade_lock s) = Ok vote →
  vid_stored (vc_storage cfg) = true →
  submit_vote cfg view leaf false s = (Ok tt, s, [QuorumVoteSend vote]).
Proof using Type.
  intros Hst He Hv Hs. unfold submit_vote. cbn zeta. fold (vote_epoch leaf).
  destruct (Hst (qv_membership s) (vc_public_key cfg) (vote_epoch leaf)) as [b1 Hb1].
  destruct (Hst (qv_membership s) (vc_public_key cfg) ((fun x => wrapper_add x 1) <$> vote_epoch leaf)) as [b2 Hb2].
  rewrite (bind_ok _ _ s s s), (bind_ok _ _ s b1 s) by (done || (unfold lift; by rewrite Hb1)).
  assert (∃ b, (if with_epoch leaf && is_last_block_in_epoch (height leaf) (vc_epoch_height cfg)
     then lift (has_stake (qv_membership s) (vc_public_key cfg) ((fun x => wrapper_add x 1) <$> vote_epoch leaf))
     else mret false) s = (Ok b, s, [] : list VoteEvent) ∧ b1 || b = true) as (b & Hif & Hb).
  { unfold lift. destruct He as [He|(Hw & Hl & He)].
    - rewrite He in Hb1. injection Hb1 as <-. rewrite Hb2. destruct (_ && _); by eexists.
    - rewrite Hw, Hl. simpl. exists true. rewrite He. split; [done|by destruct b1]. }
  rewrite (bind_ok _ _ _ _ _ Hif), (bind_ok _ _ s tt s), (bind_ok _ _ s vote s), (bind_ok _ _ s tt s); [done|..];
    unfold require, with_context, lift; by rewrite ?Hb, ?Hv, ?Hs.
Qed.

Lemma vote_ready_sends s view pr parent cert share vote responses res :
  (∀ m k e, ∃ b, has_stake (M := M) m k e = Ok b) → vote_ready s view pr parent cert share vote →
  res ≡ₚ [DepProposal pr parent; DepDac cert; DepVid share] →
  emits (handle_dep_result key_to_bytes validate_and_apply_header cfg view responses res) s (QuorumVoteSend vote).
Proof using Lm.
  intros Hst Hr Hres. unfold handle_dep_result.
  destruct (dep_events_ok s view pr parent cert share vote res {| d_payload_commitment := None; d_leaf := None;
    d_vid_share := None; d_parent_view_number := None |} Hr) as (d & Hrun & Hl & Hs); [|by left|].
  { rewrite Hres. by apply Forall_forall. }
  destruct Hl as [leaf Hl]; [right; rewrite Hres; left|]. destruct Hs as [sh Hs]; [right; rewrite Hres; right; right; left|].
  pose proof (dep_events_result _ _ [] _ _ _ _ _ dep_result_nil Hrun) as [_ Hdl Hdsh].
  simpl in Hdl, Hdsh.
  destruct (Hdl leaf Hl) as (p' & parent' & Hin & -> & _ & Hpv). specialize (Hdsh sh Hs).
  rewrite Hres in Hin, Hdsh. assert (p' = pr ∧ parent' = parent ∧ sh = share) as (-> & -> & ->) by set_solver.
  eapply emits_after; [exact Hrun|]. cbv beta iota. rewrite Hs, Hl, Hpv. cbv beta iota.
  destruct (update_shared_ok _ _ _ _ _ _ _ responses Hr) as [c' Hu].
  eapply emits_after; [unfold ok_result; by rewrite Hu|]. simpl.
  eapply emits_after; [done|]. unfold emits, logged.
  destruct Hr. erewrite submit_vote_ok; [by left|done|done|done|by destruct vr_storage0 as (_ & _ & ?)].
Qed.

Inductive vote_steps : QuorumVoteTaskState (M := M) * gset ViewNumber → list VoteEvent →
    QuorumVoteTaskState (M := M) * gset ViewNumber → Prop :=
  | vote_steps_refl sp : vote_steps sp [] sp
  | vote_steps_next sp ev1 sp1 ev2 sp2 :
      vote_step sp ev1 sp1 → vote_steps sp1 ev2 sp2 → vote_steps sp (ev1 ++ ev2) sp2.

(** Later than [l], or a task of [pending] for [l]. *)
Definition due (l : ViewNumber) (pending : gset ViewNumber) (v : ViewNumber) : Prop :=
  l <= v ∧ (v = l → v ∈ pending).

Lemma vote_step_spec l pending0 sp ev sp' :
  tasks_current sp → l <= latest_voted_view sp.1 → (∀ v, v ∈ sp.2 → due l pending0 v) → vote_step sp ev sp' →
  tasks_current sp' ∧ latest_voted_view sp.1 <= latest_voted_view sp'.1 ∧ (∀ v, v ∈ sp'.2 → due l pending0 v) ∧
  ∀ e, e ∈ ev → voted_in (due l pending0) e.
Proof using Type.
  intros [Hp Hc] Hl Hdue Hstep. inversion Hstep as [s pending input responses r s' ev' H|s pending view responses res r s' ev' Hin H]; subst; simpl in *.
  - apply vote_handle_spec in H as [[Ha1 Ha2] Hv Hcr _]; [|done]. split_and!.
    + split; simpl; [|done]. unfold spawned. intros v. rewrite elem_of_intersection. by intros [_ ?].
    + done.
    + intros v. unfold spawned. rewrite elem_of_intersection, elem_of_union, elem_of_difference.
      intros [[?|[_ Hnew]] Hin]; [by apply Hdue|]. specialize (Hcr v Hin Hnew). split; lia.
    + intros e He%Hv. destruct e; simpl in *; unfold due; lia.
  - pose proof (keeps_run _ _ _ _ _ _ (handle_dep_result_votes s view responses res) ltac:(done) H) as [Hl1 Hd1].
    split_and!.
    + split; simpl; [|by rewrite Hl1, Hd1]. rewrite Hd1. intros v. rewrite elem_of_difference. intros [? _]. auto.
    + lia.
    + intros v. rewrite elem_of_difference. intros [? _]. auto.
    + intros e He. pose proof (handle_dep_result_only view responses res s e) as Ho. unfold emits in Ho. rewrite H in Ho.
      specialize (Ho He). destruct e; simpl in *; subst; auto.
Qed.

Lemma vote_steps_spec l pending0 sp ev sp' :
  vote_steps sp ev sp' → tasks_current sp → l <= latest_voted_view sp.1 → (∀ v, v ∈ sp.2 → due l pending0 v) →
  tasks_current sp' ∧ latest_voted_view sp.1 <= latest_voted_view sp'.1 ∧ ∀ e, e ∈ ev → voted_in (due l pending0) e.
Proof using Type.
  induction 1 as [sp|sp ev1 sp1 ev2 sp2 Hstep _ IH]; intros Hc Hl Hp.
  - split_and!; [done|lia|]. by intros e []%elem_of_nil.
  - destruct (vote_step_spec _ _ _ _ _ Hc Hl Hp Hstep) as (Hc1 & Hl1 & Hp1 & He1).
    destruct IH as (Hc2 & Hl2 & He2); [done|lia|done|]. split_and!; [done|lia|].
    intros e [?|?]%elem_of_app; auto.
Qed.
End VoteLemmas.

(** ** Properties *)

Section VoteProperties.
Context `{Sg : SignatureScheme} `{Cm : Committable} `{Vt : VidTypes} `{Vs : Versions}.
Context `{Bt : !BlockTypes} `{Vd : !VidScheme}.
Context {M : Type} `{Mb : !Membership M} `{Er : !EpochRoots M}.
Context {Lm : CommittableLaws Cm} {Rk : CommitmentRank Cm}.
Context (bincode_signatures : option QcType → option bytes).
Context (cfg : VoteConfig).

(** C10. Handling a validated proposal is safe on every path, from a state with the consensus
    invariant in which no DRB computation has failed and the saved certificates are for the
    views of their leaves ([certs_match]; initial states satisfy it, [initial_certs] of
    [System]), with a committee that answers whether a key has stake ([stake_answers]).  It
    does not panic (the certificate and the last leaf of a decision are always there), keeps
    the consensus invariant and never moves the state backwards; and a decide event
    announces a view newer than the last decided one, which becomes the decided view, with a
    chain that starts at the leaf of that view and a certificate for exactly that leaf. *)
Theorem decide_handler_safe (p : QuorumProposal2) (s : QuorumVoteTaskState (M := M)) r s' ev :
  stake_answers (M := M) → drb_healthy s → cons_inv (qv_consensus s) → certs_match (qv_consensus s) →
  handle_quorum_proposal_validated bincode_signatures cfg p s = (r, s', ev) →
  r ≠ Panic ∧ cons_inv (qv_consensus s') ∧ progress (qv_consensus s) (qv_consensus s') ∧
  ∀ v chain qc n, Decide v chain qc n ∈ ev →
    last_decided_view (qv_consensus s) < v ∧ last_decided_view (qv_consensus s') = v ∧
    ∃ info, head chain = Some info ∧ leaf_view (li_leaf info) = v ∧
            leaf_commit (data qc) = leaf2_commit (li_leaf info).
Proof using Lm Rk.
  intros Hst Hh Hc Hcm H. destruct (validated_handler _ _ _ _ _ _ _ Hst Hh Hc Hcm H) as (? & [? ?] & ?).
  by split_and!.
Qed.

(** C5. A vote is backed by the three things it waits for.  When the dependency
    task of a view has completed and its handler sends a vote, the events it has
    are a validated proposal, a DA certificate and a VID share of that view, all
    for the same payload; the proposal extends its parent; the vote is this node's
    vote in that view for the proposal's leaf and epoch; and the node has stake in
    that epoch, or in the next one if the leaf ends the epoch. *)
Theorem votes_are_backed (key_to_bytes : PubKey → bytes) apply_header view seed rx res responses
    (s : QuorumVoteTaskState (M := M)) (vote : SimpleVote QuorumData2) :
  (∀ (p : Proposal QuorumProposal2) parent, seed = DepProposal p parent → p_view_number (proposal_data p) = view) →
  and_completed ((fun d => event_completed d rx) <$> vote_deps view seed) (Some res) →
  emits (handle_dep_result key_to_bytes apply_header cfg view responses res) s (QuorumVoteSend vote) →
  ∃ (p : Proposal QuorumProposal2) parent cert share,
    let leaf := leaf2_from_quorum_proposal (proposal_data p) in
    res ≡ₚ [DepProposal p parent; DepDac cert; DepVid share] ∧
    p_view_number (proposal_data p) = view ∧ view_number cert = view ∧ share_view (proposal_data share) = view ∧
    payload_commit (data cert) = payload_commitment leaf ∧
    vid_payload_commitment (proposal_data share) = payload_commitment leaf ∧
    parent_commitment leaf = leaf2_commit parent ∧
    vote_for cfg view leaf vote ∧ entitled cfg (qv_membership s) leaf.
Proof using Lm.
  intros Hseed Hand Hvote.
  destruct (vote_deps_result _ _ _ _ Hseed Hand) as (p & parent & cert & share & Hres & Hp & Hc & Hs).
  destruct (handle_dep_result_emits _ _ _ _ _ _ _ _ Hvote) as (d & leaf & sh & [Ha Hl Hsh] & Hdl & Hds & Hv & He).
  exists p, parent, cert, share. destruct (Hl leaf Hdl) as (p' & parent' & Hin & -> & Hpar & _).
  rewrite Hres in Hin. assert (p' = p ∧ parent' = parent) as [-> ->] by set_solver.
  pose proof (Ha (DepProposal p parent)) as Hap. pose proof (Ha (DepDac cert)) as Hac.
  pose proof (Ha (DepVid share)) as Has. rewrite Hres in Hap, Hac, Has. simpl in Hap, Hac, Has.
  destruct Hap as [?|Hap]; [set_solver|done|]. destruct Hac as [?|Hac]; [set_solver|done|].
  destruct Has as [?|Has]; [set_solver|done|]. rewrite <-Hap in Hac, Has. split_and!; try done; by simplify_eq.
Qed.

(** C24. Votes are sent.  When everything a vote needs is there ([vote_ready]: the three events
    agree on the payload, the storage answers, the parent and its state are known, the
    header applies, the vote can be signed, the node has stake in the epoch of the leaf, or in
    the next one if the leaf ends the epoch, and, in a version with epochs, the proposal's
    certificate is not part of an extended QC, whose votes are another event), the handler
    sends the signed vote, in whatever order the three events arrived. *)
Theorem ready_votes_are_sent (key_to_bytes : PubKey → bytes) apply_header
    (s : QuorumVoteTaskState (M := M)) view (pr : Proposal QuorumProposal2) parent cert share vote responses res :
  stake_answers (M := M) → vote_ready cfg apply_header s view pr parent cert share vote →
  res ≡ₚ [DepProposal pr parent; DepDac cert; DepVid share] →
  emits (handle_dep_result key_to_bytes apply_header cfg view responses res) s (QuorumVoteSend vote).
Proof using Lm. apply vote_ready_sends. Qed.

(** A proposal whose DRB result does not verify is still voted for: when the
    handler of validated proposals fails (for instance in [verify_drb_result]),
    the task goes on and creates the dependency task that will vote. *)
Theorem drb_failure_still_votes (key_to_bytes : PubKey → bytes) apply_header
    (pr : Proposal QuorumProposal2) parent responses (s s1 : QuorumVoteTaskState (M := M)) e ev v b :
  handle_quorum_proposal_validated bincode_signatures cfg (proposal_data pr) s = (Err e, s1, ev) →
  latest_voted_view s1 < p_view_number (proposal_data pr) →
  version (qv_upgrade_lock s1) (p_view_number (proposal_data pr)) = Ok v →
  is_leaf_forming_eqc (qv_consensus s1) (leaf_commit (data (p_justify_qc (proposal_data pr)))) = Some b →
  version_ge v Epochs && b = false →
  ∃ s2, handle_proposal key_to_bytes bincode_signatures apply_header cfg pr parent responses s = (Ok tt, s2, ev) ∧
    p_view_number (proposal_data pr) ∈ vote_dependencies s2.
Proof using Type.
  intros Hv Hl Hver Hb Hf. unfold handle_proposal. cbn zeta. unfold mbind at 1, task_bind at 1, logged. rewrite Hv.
  rewrite (bind_ok _ _ s1 s1 s1) by done. unfold require.
  apply Z.ltb_lt in Hl. rewrite Hl.
  rewrite (bind_ok _ _ s1 tt s1), (bind_ok _ _ s1 v s1), (bind_ok _ _ s1 b s1);
    [|by unfold finish, lift; rewrite Hb|by unfold lift; rewrite Hver|done].
  rewrite Hf. simpl. rewrite app_nil_r. eexists. split; [done|]. simpl. apply elem_of_union. left. by apply elem_of_singleton.
Qed.

(** C17. Votes never go back.  Once the task has handled the change to view [w], every
    vote it or one of its dependency tasks sends afterwards, in any interleaving,
    is for view [w - 1] or later; for [w - 1] itself only if the dependency task
    of that view was already waiting.  Dependency tasks are never for views
    before the latest voted one, which never decreases. *)
Theorem votes_never_go_back (key_to_bytes : PubKey → bytes) apply_header w responses
    (s s1 : QuorumVoteTaskState (M := M)) pending r ev1 ev sp :
  tasks_current (s, pending) →
  vote_handle key_to_bytes bincode_signatures apply_header cfg (InViewChange w) responses s = (r, s1, ev1) →
  vote_steps bincode_signatures cfg key_to_bytes apply_header (s1, spawned s s1 pending) ev sp →
  tasks_current sp ∧ saturating_sub w 1 <= latest_voted_view s1 <= latest_voted_view sp.1 ∧
  ∀ vote, QuorumVoteSend vote ∈ ev ∨ ExtendedQuorumVoteSend vote ∈ ev →
    saturating_sub w 1 <= vote_view vote ∧ (vote_view vote = saturating_sub w 1 → saturating_sub w 1 ∈ pending).
Proof using Type.
  intros [Hp Hc] [= _ <- _] Hsteps.
  destruct (update_latest_spec s (saturating_sub w 1) Hc) as [Hl1 Hd1].
  destruct (vote_steps_spec _ _ _ _ (saturating_sub w 1) pending _ _ _ Hsteps) as (Hc' & Hl & He).
  - split; [|by intros v [_ ?]%Hd1]. intros v Hv. unfold snd, spawned in Hv. by apply elem_of_intersection in Hv as [_ ?].
  - simpl in *. lia.
  - intros v Hv. unfold snd, spawned in Hv. apply elem_of_intersection in Hv as [[?|[Hin Hnew]%elem_of_difference]%elem_of_union Hin'];
      apply Hd1 in Hin' as [? ?]; [|done]. split; [lia|done].
  - split_and!; [done|lia|done|]. intros vote [H|H]; specialize (He _ H); destruct He as [? Hq]; (split; [done|]);
      intros Heq; rewrite <-Heq; auto.
Qed.
End VoteProperties.

(** ** Witnesses *)

#[local] Existing Instance Ideal.open_signatures.
#[local] Existing Instance StaticCommittee.

Module VoteDemo.
#[global] Instance no_roots : EpochRoots Committee := {| add_epoch_root _ _ _ := None; sync_l1 _ := None |}.

Definition cfg : VoteConfig :=
  {| vc_public_key := 20 : PubKey; vc_private_key := 20 : PrivKey; vc_epoch_height := 10;
     vc_instance_state := tt : InstanceState; vc_storage := vi_storage ValidationDemo.info |}.

Definition start (c : Consensus) (lock : UpgradeLock) (deps : gset ViewNumber) : QuorumVoteTaskState (M := Committee) :=
  {| qv_consensus := c; qv_upgrade_lock := lock; qv_membership := Demo.committee; drb_computation := None;
     latest_voted_view := 0; vote_dependencies := deps |}.

Definition key_bytes (k : PubKey) : bytes := [].
Definition no_seed (q : option QcType) : option bytes := None.
Definition apply_header (st : ValidatedState) (i : InstanceState) (l : Leaf2) (h : BlockHeader) (c : VidCommon)
    (v : Version) (view : Z) : option (ValidatedState * Delta) := Some (st, tt).

Definition dac : DaCertificate2 :=
  {| data := {| payload_commit := [] : VidCommitment; da2_epoch := None |}; vote_commitment := Ideal.digest 1;
     view_number := 1; signatures := None |}.
Definition vid_share : Proposal VidDisperseShare :=
  {| proposal_data := ShareV0 {| as_view_number := 1; as_payload_commitment := [] : VidCommitment;
       as_share := 1 : VidShare; as_common := tt : VidCommon; as_recipient_key := 20 : PubKey |};
     proposal_signature := [] |}.
Definition pr : Proposal QuorumProposal2 := ValidationDemo.proposal 20.

Lemma stake_ok : stake_answers (M := Committee).
Proof. intros m k e. by eexists. Qed.

Lemma ready deps : ∃ vote, vote_ready cfg apply_header (start ConsDemo.start UpgradeLock_new deps) 1 pr ConsDemo.l0 dac vid_share vote.
Proof.
  eexists. split; try reflexivity.
  - exists Base. split; [reflexivity|]. split; [discriminate|].
    eexists _, 0, 0, tt. split; [reflexivity|]. split; reflexivity.
  - split_and!; reflexivity.
  - left. reflexivity.
Qed.
End VoteDemo.

Lemma ready_votes_are_sent_witness :
  ∃ vote, emits (handle_dep_result VoteDemo.key_bytes VoteDemo.apply_header VoteDemo.cfg 1 []
      [DepVid VoteDemo.vid_share; DepProposal VoteDemo.pr ConsDemo.l0; DepDac VoteDemo.dac])
    (VoteDemo.start ConsDemo.start UpgradeLock_new ∅) (QuorumVoteSend vote).
Proof.
  destruct (VoteDemo.ready ∅) as [vote Hr]. exists vote.
  apply (ready_votes_are_sent VoteDemo.cfg VoteDemo.key_bytes VoteDemo.apply_header _ 1 VoteDemo.pr ConsDemo.l0
    VoteDemo.dac VoteDemo.vid_share vote [] _ VoteDemo.stake_ok Hr).
  etrans; [apply perm_swap|]. apply perm_skip. apply perm_swap.
Defined.

Lemma votes_are_backed_witness :
  ∃ (vote : SimpleVote QuorumData2) (p : Proposal QuorumProposal2) parent cert share,
    [DepProposal VoteDemo.pr ConsDemo.l0; DepDac VoteDemo.dac; DepVid VoteDemo.vid_share] ≡ₚ
    [DepProposal p parent; DepDac cert; DepVid share] ∧
    vote_for VoteDemo.cfg 1 (leaf2_from_quorum_proposal (proposal_data p)) vote.
Proof.
  destruct (VoteDemo.ready ∅) as [vote Hr]. exists vote.
  destruct (votes_are_backed (Mb := StaticCommittee) VoteDemo.cfg VoteDemo.key_bytes VoteDemo.apply_header 1 DepOther
    [Received (DepDac VoteDemo.dac); Overflowed 3; Received (DepProposal VoteDemo.pr ConsDemo.l0);
     Received (DepVid VoteDemo.vid_share)]
    [DepProposal VoteDemo.pr ConsDemo.l0; DepDac VoteDemo.dac; DepVid VoteDemo.vid_share] []
    (VoteDemo.start ConsDemo.start UpgradeLock_new ∅) vote)
    as (p & parent & cert & share & Hres & _ & _ & _ & _ & _ & _ & Hv & _).
  - discriminate.
  - apply and_completed_some. reflexivity.
  - by apply (vote_ready_sends _ _ _ _ _ _ _ _ _ _ _ _ VoteDemo.stake_ok Hr).
  - exists p, parent, cert, share. split; [exact Hres|exact Hv].
Defined.

(** The change to view 2 while the task of view 1 waits, then its vote. *)
Lemma votes_never_go_back_witness :
  ∃ (vote : SimpleVote QuorumData2) (ev : list VoteEvent),
    QuorumVoteSend vote ∈ ev ∧ saturating_sub 2 1 <= vote_view vote.
Proof.
  pose (s := VoteDemo.start ConsDemo.start UpgradeLock_new {[1]}).
  destruct (vote_handle VoteDemo.key_bytes VoteDemo.no_seed VoteDemo.apply_header VoteDemo.cfg (InViewChange 2) [] s)
    as [[r s1] ev1] eqn:Hh.
  pose (s1' := set_latest_voted_view s 1).
  assert (s1 = s1') as -> by (by injection Hh as _ <- _).
  destruct (VoteDemo.ready {[1]}) as [vote Hr].
  assert (vote_ready VoteDemo.cfg VoteDemo.apply_header s1' 1 VoteDemo.pr ConsDemo.l0 VoteDemo.dac VoteDemo.vid_share vote) as Hr1
    by (destruct Hr; by split).
  pose (res := [DepProposal VoteDemo.pr ConsDemo.l0; DepDac VoteDemo.dac; DepVid VoteDemo.vid_share]).
  pose proof (vote_ready_sends VoteDemo.cfg VoteDemo.key_bytes VoteDemo.apply_header s1' 1 _ _ _ _ vote [] res
    VoteDemo.stake_ok Hr1 ltac:(reflexivity)) as He. unfold emits in He.
  destruct (handle_dep_result VoteDemo.key_bytes VoteDemo.apply_header VoteDemo.cfg 1 [] res s1') as [[r2 s2] ev2] eqn:Hd.
  exists vote, (ev2 ++ []). split; [apply elem_of_app; by left|].
  destruct (votes_never_go_back VoteDemo.no_seed VoteDemo.cfg VoteDemo.key_bytes VoteDemo.apply_header 2 [] s s1' {[1]} r ev1
    (ev2 ++ []) (s2, spawned s s1' {[1]} ∖ {[1]})) as (_ & _ & Hv).
  - split; simpl; [done|]. intros v Hv. apply elem_of_singleton in Hv as ->. discriminate.
  - exact Hh.
  - eapply vote_steps_next; [|apply vote_steps_refl]. eapply vote_step_dep, Hd. by apply elem_of_intersection; split; [apply elem_of_union; left|]; apply elem_of_singleton.
  - apply Hv. left. apply elem_of_app. by left.
Defined.

Module ChainDemo.
Definition k1 : Leaf2 := DataDemo.leaf 1 10 (leaf2_commit ConsDemo.l0) None.
Definition k2 : Leaf2 := DataDemo.leaf 2 11 (leaf2_commit k1) None.
Definition k3 : Leaf2 := DataDemo.leaf 3 12 (leaf2_commit k2) None.

(** Three leaves in consecutive views. *)
Definition consecutive : Consensus := foldl ConsDemo.add ConsDemo.start [k1; k2; k3].

Definition pr4 : QuorumProposal2 :=
  {| p_block_header := (13, []) : BlockHeader; p_view_number := 4; p_epoch := None;
     p_justify_qc := DataDemo.qc 3 (leaf2_commit k3); p_next_epoch_justify_qc := None;
     p_upgrade_certificate := None; p_view_change_evidence := None; p_next_drb_result := None |}.

Lemma consecutive_inv : cons_inv consecutive.
Proof.
  assert (∀ ls c, Forall leaf_ok ls → rtc step c (foldl ConsDemo.add c ls)) as Hs.
  { intros ls. induction ls as [|l ls IH]; intros c Hf; simpl; [done|].
    apply Forall_cons in Hf as [Hl Hf]. etrans; [by apply ConsDemo.add_step|by apply IH]. }
  apply (steps_inv ConsDemo.start); [|exact ConsDemo.start_inv].
  apply Hs. repeat constructor; apply ConsDemo.demo_leaf_ok.
Qed.

Lemma consecutive_leaves h l :
  saved_leaves consecutive !! h = Some l → l = k3 ∨ l = k2 ∨ l = k1 ∨ l = ConsDemo.l0.
Proof.
  change (saved_leaves consecutive) with
    (<[leaf2_commit k3 := k3]> (<[leaf2_commit k2 := k2]> (<[leaf2_commit k1 := k1]>
      ({[leaf2_commit ConsDemo.l0 := ConsDemo.l0]} : gmap Commitment Leaf2)))).
  rewrite !lookup_insert_Some, lookup_singleton_Some. naive_solver.
Qed.

Lemma consecutive_certs : certs_match consecutive.
Proof.
  assert (∀ l p, leaf_ok l → saved_leaves consecutive !! leaf2_commit l = Some p → leaf_view p = leaf_view l) as Hv.
  { intros l p Hl Hp. apply (inv_keys _ consecutive_inv) in Hp as [Hk Hp].
    by destruct (leaf2_commit_inv l p (proj1 Hl) (proj1 Hp) Hk) as [? _]. }
  intros h l p [->|[->|[->| ->]]]%consecutive_leaves Hp.
  - apply (Hv k2 p (ConsDemo.demo_leaf_ok _ _ _ _)) in Hp. rewrite Hp. split; [reflexivity|discriminate].
  - apply (Hv k1 p (ConsDemo.demo_leaf_ok _ _ _ _)) in Hp. rewrite Hp. split; [reflexivity|discriminate].
  - apply (Hv ConsDemo.l0 p (ConsDemo.demo_leaf_ok _ _ _ _)) in Hp. rewrite Hp. split; [reflexivity|discriminate].
  - apply (inv_keys _ consecutive_inv) in Hp as [Hp _]. discriminate Hp.
Qed.
End ChainDemo.

Lemma decide_handler_safe_witness :
  ∃ r s' ev, handle_quorum_proposal_validated VoteDemo.no_seed VoteDemo.cfg ChainDemo.pr4
      (VoteDemo.start ChainDemo.consecutive UpgradeLock_new ∅) = (r, s', ev) ∧
    r ≠ Panic ∧ cons_inv (qv_consensus s').
Proof.
  destruct (handle_quorum_proposal_validated VoteDemo.no_seed VoteDemo.cfg ChainDemo.pr4
      (VoteDemo.start ChainDemo.consecutive UpgradeLock_new ∅)) as [[r s'] ev] eqn:Hr.
  destruct (decide_handler_safe VoteDemo.no_seed VoteDemo.cfg ChainDemo.pr4
    (VoteDemo.start ChainDemo.consecutive UpgradeLock_new ∅) r s' ev VoteDemo.stake_ok I
    ChainDemo.consecutive_inv ChainDemo.consecutive_certs Hr) as (Hnp & Hc & _).
  exists r, s', ev. split; [reflexivity|]. split; [exact Hnp|exact Hc].
Defined.

Module DrbDemo.
(** Block 10 is the last of its epoch; no DRB result is known. *)
Definition pr31 : Proposal QuorumProposal2 :=
  {| proposal_data := {| p_block_header := (10, []) : BlockHeader; p_view_number := 31; p_epoch := Some 1;
       p_justify_qc := DataDemo.qc 30 (Ideal.digest 5); p_next_epoch_justify_qc := None;
       p_upgrade_certificate := None; p_view_change_evidence := None; p_next_drb_result := None |};
     proposal_signature := [] |}.
Definition state : QuorumVoteTaskState (M := Committee) :=
  VoteDemo.start ConsDemo.start (UpgradeLock_from_certificate (Some DataDemo.upgrade)) ∅.
End DrbDemo.

Lemma drb_failure_still_votes_witness :
  ∃ s2, handle_proposal VoteDemo.key_bytes VoteDemo.no_seed VoteDemo.apply_header VoteDemo.cfg DrbDemo.pr31 ConsDemo.l0 []
      DrbDemo.state = (Ok tt, s2, []) ∧ 31 ∈ vote_dependencies s2.
Proof.
  apply (drb_failure_still_votes VoteDemo.no_seed VoteDemo.cfg VoteDemo.key_bytes VoteDemo.apply_header DrbDemo.pr31
    ConsDemo.l0 [] DrbDemo.state DrbDemo.state "Proposal is missing the DRB result." [] Upgrade false).
  - reflexivity.
  - reflexivity.
  - reflexivity.
  - reflexivity.
  - reflexivity.
Defined.
