(* ===== verification/Safety.v ===== *)
(** * Agreement

    Nodes that decide with the rule of HotStuff-2 (the versions with epochs) agree: of two
    decided leaves one extends the other.  This puts together the check of received
    proposals ([quorum_proposal_recv]), the update of the lock and the decide rule
    ([quorum_vote], [helpers.rs]) and the validity of certificates.

    The theorem is about one committee, without restarts, and about nodes that handle a
    proposal they vote for before they check the next one they vote for.  The code does not
    promise the last: the check and the update of the lock are made by different tasks. *)

From S2P Require Import Prelude Epochs Crypto Committee Votes Certificates Data Vid Consensus ConsensusProofs Decide Task ProposalValidation QuorumVote.

(** ** Locks *)

Section Locks.
Context `{Sg : SignatureScheme} `{Cm : Committable} `{Vt : VidTypes} `{Vs : Versions}.
Context `{Bt : !BlockTypes} `{Vd : !VidScheme}.
Context {M : Type} `{Mb : !Membership M} `{Er : !EpochRoots M}.
Context {Lm : CommittableLaws Cm} {Rk : CommitmentRank Cm}.
Context (bincode_signatures : option QcType → option bytes) (cfg : VoteConfig).
Implicit Types (c : Consensus) (p : QuorumProposal2) (s : QuorumVoteTaskState (M := M)).

(** The part of the handler that comes before the lock, in a version with epochs. *)
Definition drb_passes p s : Prop :=
  (∃ v, version (qv_upgrade_lock s) (p_view_number p) = Ok v ∧ version_ge v Epochs = true) ∧
  ((_ ← verify_drb_result cfg (M := M) p; start_drb_task cfg p) s).1.1 = Ok tt.

(** What the handler runs once that part has passed. *)
Definition decide_part p : task (QuorumVoteTaskState (M := M)) VoteEvent Error unit :=
  s ← get;
  '(res, membership) ← finish
    (decide_from_proposal_2 p (qv_consensus s) (decided_upgrade_certificate (qv_upgrade_lock s)) (vc_public_key cfg) true
       (qv_membership s));
  _ ← modify (fun s => set_qv_membership s membership);
  _ ← match decided_upgrade_cert res with
      | Some cert => modify (fun s => set_qv_upgrade_lock s (UpgradeLock_from_certificate (Some cert)))
      | None => mret tt
      end;
  _ ← match new_locked_view_number res with
      | Some locked_view_number => write_consensus (fun c => update_locked_view c locked_view_number)
      | None => mret tt
      end;
  announce_decide bincode_signatures cfg true res.

(** The healthy state in which the decide rule runs. *)
Definition healthy s : Prop := drb_healthy s ∧ cons_inv (qv_consensus s) ∧ certs_match (qv_consensus s).

Lemma handler_splits p s r s' ev :
  stake_answers (M := M) → healthy s → drb_passes p s →
  handle_quorum_proposal_validated bincode_signatures cfg p s = (r, s', ev) →
  ∃ s2, drb_only (qv_consensus s) s2 ∧ decide_part p s2 = (r, s', ev).
Proof using Type.
  intros Hst (Hh & Hc & Hcm) [(v & Hv & Hge) Hdrb] H. unfold handle_quorum_proposal_validated in H. cbn zeta in H.
  apply bind_cases in H as [(s0 & s1 & e1 & e2 & [= <- <- <-] & H & ->)|[(? & [=] & _)|([=] & _)]].
  rewrite Hv in H. unfold lift in H.
  apply bind_cases in H as [(v' & s1 & e1 & e2' & [= <- <- <-] & H & ->)|[(? & [=] & _)|([=] & _)]].
  rewrite Hge in H.
  pose proof (drb_part_sound cfg (qv_consensus s) true p Hst s (drb_only_refl s Hh)) as Hso.
  pose proof (drb_part_silent cfg true p s) as Hsi. cbn beta iota in Hso, Hsi.
  apply bind_cases in H as [(u & s2 & e3 & e4 & Hu & H & ->)|[(e & Hu & ->)|(Hu & _)]];
    rewrite Hu in Hso, Hsi, Hdrb; simpl in Hso, Hsi, Hdrb; [|done|done].
  destruct Hso as [_ Hd]. subst. exists s2. split; [done|]. exact H.
Qed.

Lemma decide_2_cases p c ex key we (m : M) res m' :
  decide_from_proposal_2 p c ex key we m = Some (res, m') →
  new_locked_view_number res = Some (view_number (p_justify_qc p)) ∧
  ∀ v, new_decided_view_number res = Some v →
    ∃ parent grand, parent_leaf_info c (leaf2_from_quorum_proposal p) key = Some parent ∧
      parent_leaf_info c (li_leaf parent) key = Some grand ∧
      wrapper_add (leaf_view (li_leaf grand)) 1 = leaf_view (li_leaf parent) ∧ v = leaf_view (li_leaf grand).
Proof using Type.
  unfold decide_from_proposal_2. intros H.
  destruct (parent_leaf_info c (leaf2_from_quorum_proposal p) key) as [parent|] eqn:Hp; [|simplify_eq/=; by split].
  destruct (parent_leaf_info c (li_leaf parent) key) as [grand|] eqn:Hg; [|simplify_eq/=; by split].
  destruct (Z.eqb_spec (wrapper_add (leaf_view (li_leaf grand)) 1) (leaf_view (li_leaf parent))); [|simplify_eq/=; by split].
  cbn [negb] in H. destruct (walk2_loop _ _ _ _ _ _ _ _); [|done]. simplify_eq/=. split; [done|]. intros v [= <-]. exists parent, grand. done.
Qed.

#[local] Hint Resolve write_drb_silent : hotshot.

(** The only events of the announcement. *)
Lemma announce_emits we res s v chain qc n :
  emits (announce_decide bincode_signatures cfg (M := M) we res) s (Decide v chain qc n) →
  new_decided_view_number res = Some v ∧ leaf_views res = chain.
Proof using Type.
  unfold announce_decide. destruct (new_decided_view_number res) as [w|]; [|by intros []%elem_of_nil]. intros H.
  apply emits_silent in H as (u & s1 & _ & H); [|intros x; unfold write_consensus, update; by destruct (decide_view _ w)].
  apply emits_silent in H as (q & s2 & _ & H); [|apply silent_lift].
  apply emits_bind in H as [[= -> -> _ _]%list_elem_of_singleton|(? & ? & ? & _ & H)]; [done|].
  exfalso. revert H. refine (only_silent (fun _ => False) _ _ _ _).
  unfold store_drb_seed_and_result, store_and_get_computed_drb_result. cbn zeta. solve_silent.
Qed.

(** The decide part raises the lock to the view of the justifying certificate, and a
    decision is of the grandparent, in the view before the parent. *)
Lemma decide_part_run p s r s' ev :
  healthy s → decide_part p s = (r, s', ev) →
  view_number (p_justify_qc p) <= locked_view (qv_consensus s') ∧
  later (qv_consensus s) (qv_consensus s') ∧
  ∀ v chain qc n, Decide v chain qc n ∈ ev →
    ∃ parent grand, parent_leaf_info (qv_consensus s) (leaf2_from_quorum_proposal p) (vc_public_key cfg) = Some parent ∧
      parent_leaf_info (qv_consensus s) (li_leaf parent) (vc_public_key cfg) = Some grand ∧
      wrapper_add (leaf_view (li_leaf grand)) 1 = leaf_view (li_leaf parent) ∧ head chain = Some grand.
Proof using Lm Rk.
  intros (Hh & Hc & Hcm) H. unfold decide_part in H.
  apply bind_cases in H as [(s0 & s1 & e1 & e2 & [= <- <- <-] & H & ->)|[(? & [=] & _)|([=] & _)]].
  destruct (decide_2_total p (qv_consensus s) (decided_upgrade_certificate (qv_upgrade_lock s))
        (vc_public_key cfg) true (qv_membership s) Hc) as [[res m'] Hres].
  pose proof (fun v => decide_2_announceable p _ _ _ _ _ res m' v Hc Hcm Hres) as Hann.
  destruct (decide_2_cases _ _ _ _ _ _ _ _ Hres) as [Hlock Hdec].
  rewrite Hres in H. unfold finish, lift, unwrap in H.
  apply bind_cases in H as [([res' mm] & s2 & e3 & e4 & [= <- <- <- <-] & H & ->)|[(? & [=] & _)|([=] & _)]].
  apply bind_cases in H as [(u & s3 & e5 & e6 & [= <- <- <-] & H & ->)|[(? & [=] & _)|([=] & _)]].
  apply bind_cases in H as [(u' & s4 & e7 & e8 & Hs4 & H & ->)|[(? & Hs4 & _)|(Hs4 & _)]];
    [|by destruct (decided_upgrade_cert res)..].
  assert (qv_consensus s4 = qv_consensus s ∧ drb_healthy s4 ∧ e7 = []) as (Hq & Hh4 & ->)
    by (destruct (decided_upgrade_cert res); by injection Hs4 as <- <- <-).
  rewrite Hlock in H. unfold write_consensus, update in H.
  apply bind_cases in H as [(u2 & s5 & e9 & e10 & Hs5 & H & ->)|[(e & Hs5 & ->)|(Hs5 & _)]]; rewrite Hq in Hs5.
  - destruct (update_locked_view (qv_consensus s) _) as [c1|e|] eqn:Hu; simplify_eq/=.
    assert (later (qv_consensus s) c1) as Hl1 by (eapply later_step; [by split; [|reflexivity]|by eapply step_locked]).
    assert (locked_view c1 = view_number (p_justify_qc p) ∧ last_decided_view c1 = last_decided_view (qv_consensus s) ∧
      validated_state_map c1 = validated_state_map (qv_consensus s)) as (Hlk & Hd1 & Hm1)
      by (by apply bind_ensure_inv in Hu as [_ [= <-]]).
    assert (∀ v, new_decided_view_number res = Some v → ∃ info qc, announceable c1 res v info qc) as Hann1.
    { intros v Hv. destruct (Hann v Hv) as (info & q & [? ? ? ?]). exists info, q. split; rewrite ?Hd1, ?Hm1; done. }
    destruct (announce_spec bincode_signatures cfg true res (set_qv_consensus s4 c1) Hh4 (proj1 Hl1) Hann1 _ _ _ H) as (_ & Hl2 & Hev).
    simpl in Hl2, Hev.
    split_and!; [rewrite <-Hlk; apply (pr_locked _ _ (proj2 Hl2))|by eapply later_trans|].
    intros v chain qc n Hin. destruct (announce_emits true res (set_qv_consensus s4 c1) v chain qc n) as [Hv <-];
      [unfold emits; by rewrite H|].
    destruct (Hdec v Hv) as (parent & grand & Hp & Hg & Hw & _). exists parent, grand. split_and!; try done.
    destruct (decide_2_decided _ _ _ _ _ _ _ _ _ Hc Hres Hv) as (pa & gr & Hp' & Hg' & _ & _ & Hhead). simplify_eq.
    apply Hhead. rewrite <-Hd1. by eapply Hev.
  - destruct (update_locked_view (qv_consensus s) _) as [c1|e'|] eqn:Hu; simplify_eq/=.
    split_and!; [|rewrite Hq; by split|by intros ? ? ? ? []%elem_of_nil].
    unfold update_locked_view in Hu. destruct (Z.ltb_spec (locked_view (qv_consensus s)) (view_number (p_justify_qc p))); [done|].
    by rewrite Hq.
  - unfold update_locked_view in Hs5. by destruct (_ <? _).
Qed.

(** Two leaves in consecutive views below the proposal: the first is decided. *)
Lemma decide_2_two_chain p c ex key we (m : M) parent grand :
  cons_inv c → parent_leaf_info c (leaf2_from_quorum_proposal p) key = Some parent →
  parent_leaf_info c (li_leaf parent) key = Some grand →
  wrapper_add (leaf_view (li_leaf grand)) 1 = leaf_view (li_leaf parent) →
  ∃ res m', decide_from_proposal_2 p c ex key we m = Some (res, m') ∧
    new_locked_view_number res = Some (view_number (p_justify_qc p)) ∧
    new_decided_view_number res = Some (leaf_view (li_leaf grand)).
Proof using Rk.
  intros Hc Hp Hg Hv. destruct (decide_2_total p c ex key we m Hc) as [[res m'] H]. exists res, m'. split; [done|].
  unfold decide_from_proposal_2 in H. rewrite Hp, Hg, Hv, Z.eqb_refl in H. cbn [negb] in H.
  destruct (walk2_loop _ _ _ _ _ _ _ _); [|done]. by injection H as <- <-.
Qed.

Lemma decide_part_emits p s parent grand :
  healthy s → parent_leaf_info (qv_consensus s) (leaf2_from_quorum_proposal p) (vc_public_key cfg) = Some parent →
  parent_leaf_info (qv_consensus s) (li_leaf parent) (vc_public_key cfg) = Some grand →
  wrapper_add (leaf_view (li_leaf grand)) 1 = leaf_view (li_leaf parent) →
  last_decided_view (qv_consensus s) < leaf_view (li_leaf grand) →
  locked_view (qv_consensus s) < view_number (p_justify_qc p) →
  ∃ chain qc n, emits (decide_part p) s (Decide (leaf_view (li_leaf grand)) chain qc n) ∧ head chain = Some grand.
Proof using Lm Rk.
  intros (Hh & Hc & Hcm) Hp Hg Hv Hlast Hlock.
  destruct (decide_2_two_chain p _ (decided_upgrade_certificate (qv_upgrade_lock s)) (vc_public_key cfg) true
    (qv_membership s) parent grand Hc Hp Hg Hv) as (res & m' & Hres & Hl & Hd).
  destruct (decide_2_decided _ _ _ _ _ _ _ _ _ Hc Hres Hd) as (pa & gr & Hp' & Hg' & _ & Hqc & Hhead). simplify_eq.
  set (s1 := match decided_upgrade_cert res with
    | Some cert => set_qv_upgrade_lock (set_qv_membership s m') (UpgradeLock_from_certificate (Some cert))
    | None => set_qv_membership s m' end).
  assert (qv_consensus s1 = qv_consensus s) as Hs1 by (subst s1; by destruct (decided_upgrade_cert res)).
  assert (update_locked_view (qv_consensus s) (view_number (p_justify_qc p)) =
    Ok (set_locked_view (qv_consensus s) (view_number (p_justify_qc p)))) as Hu
    by (unfold update_locked_view; by rewrite (proj2 (Z.ltb_lt _ _) Hlock)).
  exists (leaf_views res), (justify_qc (li_leaf parent)), ((fun t => size t) <$> included_txns res). split; [|by apply Hhead].
  unfold decide_part. eapply emits_after; [done|]. eapply (emits_after _ _ _ (res, m')); [by rewrite Hres|].
  eapply emits_after; [done|]. apply (emits_after _ _ _ tt s1 []); [by subst s1; destruct (decided_upgrade_cert res)|].
  rewrite Hl. unfold write_consensus.
  eapply (emits_after _ _ _ tt (set_qv_consensus s1 (set_locked_view (qv_consensus s) _)) []);
    [unfold update; by rewrite Hs1, Hu|].
  unfold announce_decide. rewrite Hd, Hqc.
  destruct (decide_view_ok (set_locked_view (qv_consensus s) (view_number (p_justify_qc p))) (leaf_view (li_leaf grand)))
    as [c' Hc']; [by apply (cons_inv_ext (qv_consensus s))|done|].
  eapply (emits_after _ _ _ tt _ []); [unfold write_consensus, update; simpl; by rewrite Hc'|].
  eapply emits_after; [done|]. apply emits_before. by left.
Qed.

Lemma two_chain_decides p s parent grand :
  stake_answers (M := M) → healthy s → drb_passes p s →
  parent_leaf_info (qv_consensus s) (leaf2_from_quorum_proposal p) (vc_public_key cfg) = Some parent →
  parent_leaf_info (qv_consensus s) (li_leaf parent) (vc_public_key cfg) = Some grand →
  wrapper_add (leaf_view (li_leaf grand)) 1 = leaf_view (li_leaf parent) →
  last_decided_view (qv_consensus s) < leaf_view (li_leaf grand) →
  locked_view (qv_consensus s) < view_number (p_justify_qc p) →
  ∃ chain qc n, emits (handle_quorum_proposal_validated bincode_signatures cfg p) s
    (Decide (leaf_view (li_leaf grand)) chain qc n) ∧ head chain = Some grand.
Proof using Lm Rk.
  intros Hst Hh Hdrb Hp Hg Hv Hlast Hlock.
  destruct (handle_quorum_proposal_validated bincode_signatures cfg p s) as [[r s'] ev] eqn:H.
  destruct (handler_splits p s r s' ev Hst Hh Hdrb H) as (s2 & [Hd2 [d Hd]] & Hpart).
  destruct Hh as (_ & Hc & Hcm).
  destruct (decide_part_emits p s2 parent grand) as (chain & qc & n & He & Hhd); rewrite ?Hd; try done.
  { split_and!; [done|rewrite Hd; by apply (cons_inv_ext (qv_consensus s))|by rewrite Hd]. }
  exists chain, qc, n. split; [|done]. unfold emits in *. rewrite Hpart in He. by rewrite H.
Qed.

(** C23. Progress of decisions.  In a version with epochs, with the DRB part passed, in a
    healthy state (no DRB computation has failed, the consensus invariant holds, certificates
    match the views of their leaves) and with a committee that answers whether a key has
    stake: a proposal on top of two known leaves in consecutive views, of which the first is
    newer than the last decision, with a certificate newer than the lock, makes its handler
    decide the first of them. *)
Theorem two_chains_are_decided p s parent grand :
  stake_answers (M := M) → healthy s → drb_passes p s →
  parent_leaf_info (qv_consensus s) (leaf2_from_quorum_proposal p) (vc_public_key cfg) = Some parent →
  parent_leaf_info (qv_consensus s) (li_leaf parent) (vc_public_key cfg) = Some grand →
  wrapper_add (leaf_view (li_leaf grand)) 1 = leaf_view (li_leaf parent) →
  last_decided_view (qv_consensus s) < leaf_view (li_leaf grand) →
  locked_view (qv_consensus s) < view_number (p_justify_qc p) →
  ∃ chain qc n, emits (handle_quorum_proposal_validated bincode_signatures cfg p) s
    (Decide (leaf_view (li_leaf grand)) chain qc n) ∧ head chain = Some grand.
Proof using Lm Rk. apply two_chain_decides. Qed.
End Locks.

(** ** Voting *)

Section Voting.
Context `{Sg : SignatureScheme} `{Cm : Committable} `{Vt : VidTypes} `{Vs : Versions}.
Context `{Bt : !BlockTypes} `{Vd : !VidScheme}.
Context {M : Type} `{Mb : !Membership M} `{Er : !EpochRoots M} {known} {Lc : CommitteeLaws Mb known}.
Context {Lm : CommittableLaws Cm} {Rk : CommitmentRank Cm}.
Context (bincode_signatures : option QcType → option bytes).
(** One committee and one upgrade lock. *)
Context (m : M) (t td : list StakeTableEntry) (lock : UpgradeLock).
Implicit Types (c : Consensus) (p q : Proposal QuorumProposal2) (leaf : Leaf2).

Abbreviation view_of p := (p_view_number (proposal_data p)).
Abbreviation justify p := (p_justify_qc (proposal_data p)).
Abbreviation leaf_of p := (leaf2_from_quorum_proposal (proposal_data p)).

(** A certificate of the committee. *)
Definition valid (qc : QuorumCertificate2) : Prop :=
  is_valid_cert qc t (two_thirds (Z.of_nat (length t))) lock = Ok tt.

(** The proposals that a node has voted for, the last one first, and its state.  Between
    the votes other tasks change the state.  A proposal that is voted for has passed the
    check of received proposals, and has been handled, up to the update of the lock, before
    the next one is checked; the views of the votes increase. *)
Inductive voting_run : list (Proposal QuorumProposal2) → Consensus → Prop :=
  | run_start c : cons_inv c → voting_run [] c
  | run_step l c c' : voting_run l c → step c c' → voting_run l c'
  | run_vote l c info cfg p sender parent (s s' : QuorumVoteTaskState (M := M)) r ev :
      voting_run l c →
      (∀ q, q ∈ l → view_of q < view_of p) →
      vi_membership info = m → vi_upgrade_lock info = lock →
      leaf_wf (leaf_of p) → parents_older (checked_state c p) →
      emits (handle_quorum_proposal_recv p sender info) c (QuorumProposalValidated p parent) →
      rtc step c (qv_consensus s) → stake_answers (M := M) → healthy s → drb_passes cfg (proposal_data p) s →
      handle_quorum_proposal_validated bincode_signatures cfg (proposal_data p) s = (r, s', ev) →
      voting_run (p :: l) (qv_consensus s').

Lemma reaches_older c v h leaf :
  parents_older c → reaches c v h → saved_leaves c !! h = Some leaf → v <= leaf_view leaf.
Proof using Type.
  intros Hold Hr. revert leaf. induction Hr as [h leaf Hl _ <-|h leaf Hl _ Hr IH]; intros leaf' Hl';
    (assert (leaf' = leaf) as -> by congruence); [done|].
  assert (∃ parent, saved_leaves c !! parent_commitment leaf = Some parent) as [parent Hp] by (inversion Hr; eauto).
  specialize (IH parent Hp). specialize (Hold _ _ _ Hl Hp). lia.
Qed.

(** The check of the lock, with parents in earlier views: the justifying certificate is
    not older than the lock. *)
Lemma safe_not_older c p parent (info : ValidationInfo (M := M)) :
  cons_inv c → parents_older c → safe_to_vote c p parent info → locked_view c <= view_number (justify p).
Proof using Type.
  intros Hc Hold [_ _ _ _ [?|(h & Hh & Hr)]]; [lia|].
  destruct (validated_state_map c !! view_number (justify p)) as [x|] eqn:Hx; [|done]. simpl in Hh.
  destruct (inv_views' c _ x h Hc Hx Hh) as (leaf & Hl & <-). by eapply reaches_older.
Qed.

Lemma valid_in qc (e : option EpochNumber) :
  known m e t td → valid_cert_in qc m e lock = Ok tt → valid qc.
Proof using Lc.
  intros Hk H. unfold valid_cert_in in H. rewrite (known_stake_table _ _ _ _ Hk) in H.
  apply bind_ok_inv in H as (t' & <-%Ok_inj & H). rewrite (known_success _ _ _ _ Hk) in H.
  by apply bind_ok_inv in H as (thr & <-%Ok_inj & H).
Qed.

(** What a run guarantees: votes are for proposals with valid certificates, one in a view,
    and a later vote never has an older certificate. *)
Record voted_well (l : list (Proposal QuorumProposal2)) c : Prop := {
  vw_inv : cons_inv c;
  vw_lock p : p ∈ l → view_number (justify p) <= locked_view c;
  vw_valid p : p ∈ l → valid (justify p) ∧ leaf_wf (leaf_of p);
  vw_mono p q : p ∈ l → q ∈ l → view_of p < view_of q → view_number (justify p) <= view_number (justify q);
  vw_once p q : p ∈ l → q ∈ l → view_of p = view_of q → p = q;
}.

Lemma voting_run_well l c : (∀ e, known m e t td) → voting_run l c → voted_well l c.
Proof using Lm Rk Lc.
  intros Hk. induction 1 as [c Hc|l c c' Hrun IH Hs|l c info cfg p sender parent s s' r ev Hrun IH Hlt Hm Hlk Hwf Hold Hem Hsteps Hst Hh Hdrb Hhand].
  - split; [done|..]; [by intros p ?%elem_of_nil..|by intros p q ?%elem_of_nil|by intros p q ?%elem_of_nil].
  - destruct IH as [Hc Hl Hv Hmo Ho]. split; [by eapply step_inv| |done|done|done].
    intros p Hp. etrans; [by apply Hl|]. apply (pr_locked _ _ (step_progress _ _ Hs)).
  - destruct IH as [Hc Hl Hv Hmo Ho].
    destruct (recv_validated _ _ _ _ _ _ Hem) as (_ & _ & _ & Hcert & _ & Hsafe & Hlocked).
    rewrite Hm, Hlk in Hcert. apply valid_in in Hcert; [|done].
    apply safe_not_older in Hsafe; [|by apply (checked_state_later c p Hwf Hc)|done]. rewrite Hlocked in Hsafe.
    destruct (handler_splits _ _ _ _ _ _ _ Hst Hh Hdrb Hhand) as (s2 & Hd2 & Hpart).
    assert (healthy s2 ∧ locked_view (qv_consensus s2) = locked_view (qv_consensus s)) as [Hh2 Hlk2].
    { destruct Hh as (_ & Hcs & Hcm). destruct Hd2 as [Hh2 [d Hd]]. unfold healthy. rewrite Hd. split_and!; try done.
      by apply (cons_inv_ext (qv_consensus s)). }
    destruct (decide_part_run _ _ _ _ _ _ _ Hh2 Hpart) as (Hjust & [Hc' Hpr] & _).
    assert (locked_view c <= locked_view (qv_consensus s')) as Hcs.
    { destruct (steps_inv _ _ Hsteps Hc) as [_ Hp]. pose proof (pr_locked _ _ Hp). pose proof (pr_locked _ _ Hpr). lia. }
    split; [done|..].
    + intros q [->|Hq]%elem_of_cons; [done|]. specialize (Hl q Hq). lia.
    + intros q [->|Hq]%elem_of_cons; [done|by apply Hv].
    + intros q q' [->|Hq]%elem_of_cons [->|Hq']%elem_of_cons Hvw; [done| | |by apply Hmo].
      * specialize (Hlt q' Hq'). lia.
      * specialize (Hl q Hq). lia.
    + intros q q' [->|Hq]%elem_of_cons [->|Hq']%elem_of_cons Hvw; [done| | |by apply Ho].
      * specialize (Hlt q' Hq'). lia.
      * specialize (Hlt q Hq). lia.
Qed.

(** ** Agreement *)

(** One commitment is reached from the other by going from leaves to their parents. *)
Inductive extends (a : Commitment) : Commitment → Prop :=
  | extends_refl : extends a a
  | extends_child leaf : leaf_ok leaf → extends a (parent_commitment leaf) → extends a (leaf2_commit leaf).

Section Agreement.
Context {signed : PubKey → bytes → Prop} {Ls : SignatureLaws Sg signed}.
Context (honest : PubKey → bool) (votes : PubKey → list (Proposal QuorumProposal2)) (genesis : Leaf2).

(** A certificate of the genesis view, which is accepted without signatures, is for the
    genesis leaf. *)
Definition genesis_cert (qc : QuorumCertificate2) : Prop :=
  view_number qc = genesis_view → leaf_commit (data qc) = leaf2_commit genesis.

Record network_ok : Prop := {
  no_committee e : known m e t td;
  no_unit : unit_stakes t;
  no_faulty : Z.of_nat (length (base.filter (fun k => honest k = false) (map stake_key t))) <= Z.of_nat (length t) / 3;
  no_genesis : leaf_wf genesis ∧ leaf_view genesis = genesis_view;
  (** Honest nodes vote as the tasks do, and sign nothing but their votes. *)
  no_votes k : honest k = true → ∃ c, voting_run (votes k) c;
  no_signed k (d : QuorumData2) v : honest k = true → signed k (vote_message d v) →
    ∃ p, p ∈ votes k ∧ leaf_commit d = leaf2_commit (leaf_of p) ∧ v = view_of p;
  no_genesis_certs k p : honest k = true → p ∈ votes k → genesis_cert (justify p);
}.
Context (Hok : network_ok).

Lemma honest_well k : honest k = true → ∃ c, voted_well (votes k) c.
Proof using Lc Lm Rk Hok. intros [c Hc]%(no_votes Hok). exists c. apply voting_run_well; [apply (no_committee Hok)|done]. Qed.

(** Some honest node has voted for both leaves that two certificates are for. *)
Lemma common_voter qc1 qc2 :
  valid qc1 → valid qc2 → view_number qc1 ≠ genesis_view → view_number qc2 ≠ genesis_view →
  ∃ k p1 p2 c, voted_well (votes k) c ∧ honest k = true ∧ p1 ∈ votes k ∧ p2 ∈ votes k ∧
    leaf_commit (data qc1) = leaf2_commit (leaf_of p1) ∧ view_number qc1 = view_of p1 ∧
    leaf_commit (data qc2) = leaf2_commit (leaf_of p2) ∧ view_number qc2 = view_of p2.
Proof using Lc Lm Rk Hok Ls.
  intros H1 H2 Hg1 Hg2.
  destruct (valid_certs_overlap m None t td (two_thirds (Z.of_nat (length t))) lock honest qc1 qc2) as (k & Hk & Hs1 & Hs2);
    try done; [apply (no_committee Hok)|apply (no_unit Hok)|apply (known_success _ _ _ _ (no_committee Hok None))|apply (no_faulty Hok)|].
  destruct (no_signed Hok k _ _ Hk Hs1) as (p1 & Hp1 & ? & ?). destruct (no_signed Hok k _ _ Hk Hs2) as (p2 & Hp2 & ? & ?).
  destruct (honest_well k Hk) as [c Hc]. by exists k, p1, p2, c.
Qed.

(** A leaf that is certified in a view. *)
Definition certified (h : Commitment) (v : ViewNumber) : Prop :=
  ∃ qc, valid qc ∧ view_number qc = v ∧ v ≠ genesis_view ∧ leaf_commit (data qc) = h.

Lemma certified_unique h h' v : certified h v → certified h' v → h = h'.
Proof using Lc Lm Rk Hok Ls.
  intros (qc & Hv & Hw & Hg & <-) (qc' & Hv' & Hw' & Hg' & <-).
  destruct (common_voter qc qc') as (k & p1 & p2 & c & Hwell & _ & Hp1 & Hp2 & -> & E1 & -> & E2); try congruence.
  rewrite (vw_once _ _ Hwell p1 p2 Hp1 Hp2); congruence.
Qed.

(** What the parent of a leaf in a vote is. *)
Lemma vote_parent k p :
  honest k = true → p ∈ votes k →
  certified (leaf_commit (data (justify p))) (view_number (justify p)) ∨
  view_number (justify p) = genesis_view ∧ leaf_commit (data (justify p)) = leaf2_commit genesis.
Proof using Lc Lm Rk Hok.
  intros Hk Hp. destruct (honest_well k Hk) as [c Hc]. destruct (vw_valid _ _ Hc p Hp) as [Hv _].
  destruct (decide (view_number (justify p) = genesis_view)) as [Hg|Hg].
  - right. split; [done|]. by apply (no_genesis_certs Hok k p Hk Hp).
  - left. by exists (justify p).
Qed.

(** A certified leaf has a voter, whose vote fixes its view and its parent. *)
Lemma certified_leaf leaf v :
  leaf_ok leaf → certified (leaf2_commit leaf) v →
  ∃ k p, honest k = true ∧ p ∈ votes k ∧ view_of p = v ∧ leaf_view leaf = v ∧
    leaf2_commit (leaf_of p) = leaf2_commit leaf ∧ leaf_commit (data (justify p)) = parent_commitment leaf.
Proof using Lc Lm Rk Hok Ls.
  intros [Hwf _] (qc & Hv & <- & Hg & Hd).
  destruct (common_voter qc qc) as (k & p & _ & c & Hwell & Hk & Hp & _ & E & Ev & _); try done.
  destruct (vw_valid _ _ Hwell p Hp) as [_ Hwf']. rewrite Hd in E.
  destruct (leaf2_commit_inv _ _ Hwf Hwf' E) as (Hview & Hpar & _).
  exists k, p. split_and!; try done; simpl in *; congruence.
Qed.

Lemma vote_leaf_ok k p : honest k = true → p ∈ votes k → leaf_ok (leaf_of p).
Proof using Lc Lm Rk Hok. intros Hk Hp. destruct (honest_well k Hk) as [c Hc]. split; [by apply (vw_valid _ _ Hc)|done]. Qed.

(** Every certified leaf extends the genesis leaf. *)
Lemma certified_extends_genesis h v : certified h v → extends (leaf2_commit genesis) h.
Proof using Lc Lm Rk Hok Ls.
  revert v. induction (Wf_nat.well_founded_ltof _ rank h) as [h _ IH]. intros v (qc & Hv & Hw & Hg & <-).
  destruct (common_voter qc qc) as (k & p & _ & c & Hwell & Hk & Hp & _ & E & _); try congruence.
  rewrite E. apply extends_child; [by eapply vote_leaf_ok|]. simpl.
  destruct (vote_parent k p Hk Hp) as [Hc|[_ ->]]; [|constructor].
  eapply IH; [|exact Hc]. rewrite E. apply (parent_rank (leaf_of p)).
Qed.

(** A leaf [grand] that is certified in view [v] by the certificate in its child [parent],
    which is certified in the view after. *)
Record two_chain (grand parent : Leaf2) : Prop := {
  tc_grand : leaf_ok grand;
  tc_parent : leaf_ok parent;
  tc_link : parent_commitment parent = leaf2_commit grand;
  tc_views : leaf_view parent = leaf_view grand + 1;
  tc_cert : certified (leaf2_commit parent) (leaf_view parent);
}.

(** The voters of the parent have locked the view of the grandparent. *)
Lemma two_chain_lock grand parent k p :
  two_chain grand parent → leaf_view grand ≠ genesis_view → honest k = true → p ∈ votes k →
  leaf2_commit (leaf_of p) = leaf2_commit parent →
  certified (leaf2_commit grand) (leaf_view grand) ∧ view_number (justify p) = leaf_view grand.
Proof using Lc Lm Rk Hok Ls.
  intros [Hg Hp Hlink _ _] Hne Hk Hin E.
  assert (leaf_commit (data (justify p)) = leaf2_commit grand) as Hd.
  { rewrite <-Hlink. destruct (vote_leaf_ok k p Hk Hin) as [Hwf _]. by destruct (leaf2_commit_inv _ _ Hwf (proj1 Hp) E) as (_ & Hpar & _). }
  destruct (vote_parent k p Hk Hin) as [Hc|[_ Hgen]]; rewrite Hd in *.
  - destruct (certified_leaf grand _ Hg Hc) as (_ & _ & _ & _ & _ & Hv & _). by rewrite Hv.
  - exfalso. apply Hne. destruct (no_genesis Hok) as [Hwf <-]. by destruct (leaf2_commit_inv _ _ (proj1 Hg) Hwf Hgen) as [? _].
Qed.

(** Everything that is certified in the view of the grandparent or later extends it. *)
Lemma certified_extends grand parent h v :
  two_chain grand parent → leaf_view grand ≠ genesis_view → 0 <= leaf_view grand →
  certified h v → leaf_view grand <= v → extends (leaf2_commit grand) h.
Proof using Lc Lm Rk Hok Ls.
  intros Htc Hne Hnn. revert v. induction (Wf_nat.well_founded_ltof _ rank h) as [h _ IH]. intros v Hc Hv.
  pose proof (tc_cert _ _ Htc) as Hpc. pose proof (tc_views _ _ Htc) as Hpv.
  destruct (Hpc) as (qcp & Hvp & Hwp & Hgp & Hdp). destruct (Hc) as (qc & Hvq & Hwq & Hgq & Hdq).
  destruct (common_voter qcp qc) as (k & p1 & p2 & c & Hwell & Hk & Hp1 & Hp2 & E1 & V1 & E2 & V2); try congruence.
  destruct (two_chain_lock grand parent k p1 Htc Hne Hk Hp1) as [Hgc Hj1]; [congruence|].
  destruct (decide (v = leaf_view grand)) as [->|Hvg]; [rewrite (certified_unique _ _ _ Hc Hgc); constructor|].
  destruct (decide (v = leaf_view parent)) as [->|Hvp'].
  { rewrite (certified_unique _ _ _ Hc Hpc). apply extends_child; [apply (tc_parent _ _ Htc)|]. rewrite (tc_link _ _ Htc). constructor. }
  assert (leaf_view grand <= view_number (justify p2)) as Hle.
  { rewrite <-Hj1. apply (vw_mono _ _ Hwell p1 p2 Hp1 Hp2). lia. }
  rewrite <-Hdq, E2. apply extends_child; [by eapply vote_leaf_ok|]. simpl.
  destruct (vote_parent k p2 Hk Hp2) as [Hpar|[Hgen _]]; [|unfold genesis_view in *; lia].
  eapply IH; [|exact Hpar|done]. unfold Wf_nat.ltof. rewrite <-Hdq, E2. apply (parent_rank (leaf_of p2)).
Qed.

Lemma two_chain_head grand parent :
  two_chain grand parent →
  leaf_view grand ≠ genesis_view ∧ certified (leaf2_commit grand) (leaf_view grand) ∨
  leaf_view grand = genesis_view ∧ leaf2_commit grand = leaf2_commit genesis.
Proof using Lc Lm Rk Hok Ls.
  intros Htc. destruct (certified_leaf _ _ (tc_parent _ _ Htc) (tc_cert _ _ Htc)) as (k & p & Hk & Hp & _ & _ & E & Hd).
  rewrite (tc_link _ _ Htc) in Hd. destruct (decide (leaf_view grand = genesis_view)) as [Hg|Hg].
  - right. split; [done|]. destruct (vote_parent k p Hk Hp) as [Hc|[_ Hgen]]; rewrite Hd in *; [|done].
    destruct (certified_leaf _ _ (tc_grand _ _ Htc) Hc) as (_ & _ & _ & _ & _ & Hv & _). exfalso.
    destruct Hc as (qc & _ & _ & Hne & _). congruence.
  - left. split; [done|]. by eapply two_chain_lock.
Qed.

Lemma two_chains_ordered (l1 child1 l2 child2 : Leaf2) :
  two_chain l1 child1 → two_chain l2 child2 → 0 <= leaf_view l1 <= leaf_view l2 → extends (leaf2_commit l1) (leaf2_commit l2).
Proof using Lc Lm Rk Hok Ls.
  intros H1 H2 Hle. destruct (two_chain_head _ _ H1) as [[Hg1 _]|[Hg1 ->]].
  - destruct (two_chain_head _ _ H2) as [[_ Hc2]|[Hg2 _]]; [|unfold genesis_view in *; lia].
    eapply certified_extends; [exact H1|done|lia|exact Hc2|lia].
  - destruct (two_chain_head _ _ H2) as [[_ Hc2]|[_ ->]]; [by eapply certified_extends_genesis|constructor].
Qed.

(** A node decides a leaf when it handles a proposal that has passed the check.  Views stay
    below the last one. *)
Inductive decided : Leaf2 → Prop :=
  | decided_by info cfg p sender parent c (s s' : QuorumVoteTaskState (M := M)) r ev v chain qc n g :
      vi_membership info = m → vi_upgrade_lock info = lock →
      emits (handle_quorum_proposal_recv p sender info) c (QuorumProposalValidated p parent) → genesis_cert (justify p) →
      stake_answers (M := M) → healthy s → drb_passes cfg (proposal_data p) s →
      handle_quorum_proposal_validated bincode_signatures cfg (proposal_data p) s = (r, s', ev) →
      Decide v chain qc n ∈ ev → head chain = Some g → 0 <= leaf_view (li_leaf g) < u64_modulus - 1 →
      decided (li_leaf g).

Lemma decided_chain leaf : decided leaf → ∃ parent, two_chain leaf parent.
Proof using Lc Lm Rk Hok Ls.
  destruct 1 as [info cfg p sender par c s s' r ev v chain qc n g Hm Hlk Hem Hgc Hst Hh Hdrb Hhand Hin Hg Hview].
  destruct (recv_validated _ _ _ _ _ _ Hem) as (_ & _ & _ & Hcert & _). rewrite Hm, Hlk in Hcert.
  apply valid_in in Hcert; [|apply (no_committee Hok)].
  destruct (handler_splits _ _ _ _ _ _ _ Hst Hh Hdrb Hhand) as (s2 & Hd2 & Hpart).
  assert (healthy s2) as Hh2.
  { destruct Hh as (_ & Hcs & Hcm). destruct Hd2 as [Hh2 [d Hd]]. unfold healthy. rewrite Hd. split_and!; try done.
    by apply (cons_inv_ext (qv_consensus s)). }
  destruct (decide_part_run _ _ _ _ _ _ _ Hh2 Hpart) as (_ & _ & Hdec).
  destruct (Hdec _ _ _ _ Hin) as (parent & grand & [Hp _]%parent_leaf_info_inv & [Hgr _]%parent_leaf_info_inv & Hw & Hhead).
  rewrite Hhead in Hg. injection Hg as ->. destruct Hh2 as (_ & Hc2 & _).
  destruct (inv_keys _ Hc2 _ _ Hp) as [Hpk Hpok]. destruct (inv_keys _ Hc2 _ _ Hgr) as [Hgk Hgok]. simpl in Hpk.
  assert (leaf_view (li_leaf parent) = leaf_view (li_leaf g) + 1) as Hviews.
  { rewrite <-Hw. unfold wrapper_add, u64_add. rewrite Z.mod_small by lia. done. }
  exists (li_leaf parent). split; [done|done|by rewrite (proj2 Hpok), Hgk|done|].
  assert (view_number (justify p) ≠ genesis_view) as Hne.
  { intros Hge. specialize (Hgc Hge). rewrite Hpk in Hgc. destruct (no_genesis Hok) as [Hwf Hgv].
    destruct (leaf2_commit_inv _ _ (proj1 Hpok) Hwf Hgc) as [Heq _]. unfold genesis_view in *. lia. }
  assert (certified (leaf2_commit (li_leaf parent)) (view_number (justify p))) as Hc by by exists (justify p).
  by destruct (certified_leaf _ _ Hpok Hc) as (_ & _ & _ & _ & _ & -> & _).
Qed.

(** C1. Agreement.  Let one committee, the same in every epoch, have members with stake one of
    whom at most a third are faulty ([network_ok]).  Let the honest nodes vote as their
    tasks do, without a restart ([voting_run]): check each proposal they vote for against
    their lock, and raise the lock by the rule of HotStuff-2, before they check the next, in a
    version with epochs and with a passing DRB part; in the states in which they do so leaves
    are newer than their parents and certificates match the views of their leaves, which the
    code does not enforce; and certificates of the genesis view, which are accepted without
    signatures, name the genesis leaf.  Then of any two leaves that are decided by that rule
    one extends the other, whatever the other nodes propose and sign and however messages
    are delayed. *)
Theorem decided_leaves_agree l1 l2 :
  decided l1 → decided l2 →
  extends (leaf2_commit l1) (leaf2_commit l2) ∨ extends (leaf2_commit l2) (leaf2_commit l1).
Proof using Lc Lm Rk Hok Ls.
  intros H1 H2. assert (∀ l, decided l → 0 <= leaf_view l) as Hnn by (destruct 1; lia).
  pose proof (Hnn _ H1). pose proof (Hnn _ H2).
  destruct (decided_chain _ H1) as [p1 Hc1], (decided_chain _ H2) as [p2 Hc2].
  destruct (Z.le_ge_cases (leaf_view l1) (leaf_view l2)); [left|right]; eapply two_chains_ordered; eauto; lia.
Qed.
End Agreement.
End Voting.

(** ** Witness: four nodes, one of them faulty, and three proposals *)

Module AgreementDemo.
Section Demo.
(** Votes and leaves are hashed with different tags. *)
Context `{Cm : Committable} {Lm : CommittableLaws Cm} {Rk : CommitmentRank Cm} `{Vd : !VidScheme} (no_hash : Commitment).
Context (tags : ∀ l l' : list (cb_item Commitment), finalize "Vote" l ≠ finalize "leaf commitment" l').

#[local] Instance demo_blocks `{Sg : SignatureScheme} : BlockTypes (Sg := Sg) := {|
  BlockHeader := Z; BlockPayload := unit; Metadata := unit; BuilderCommitment := unit; ValidatedState := unit;
  Delta := unit; InstanceState := unit;
  block_number h := h; header_payload_commitment _ := []; header_commit h := finalize "header" [CbU64 h];
  header_metadata _ := tt; header_genesis _ _ _ _ := 0; payload_encode _ := []; transaction_commitments _ _ := [];
  from_header _ := tt; payload_empty _ _ := Some (tt, tt); builder_commitment _ _ := tt; vid_commit_only _ b := Some b;
  bincode_bits bs := map (fun b : bool => if b then 1 else 0) bs; bincode_sig _ := [];
|}.

Definition demo_vote (h : Commitment) : QuorumData2 := {| leaf_commit := h; q2_epoch := Some 1 |}.

(** What is proposed does not depend on who agrees to sign what. *)
Section Proposals.
Context (registry : Z → bytes → bool).
#[local] Instance sigs_of : SignatureScheme := Ideal.signatures registry.

Definition demo_qc (v : ViewNumber) (h : Commitment) : QuorumCertificate2 :=
  {| data := demo_vote h; vote_commitment := no_hash; view_number := v;
     signatures := Some ((map (fun k => (k, vote_message (demo_vote h) v)) [10; 20; 30] : Sig), [true; true; true; false]) |}.

Definition demo_genesis : Leaf2 :=
  {| leaf_view := 0; justify_qc := demo_qc 0 no_hash; next_epoch_justify_qc := None; parent_commitment := no_hash;
     block_header := 1 : BlockHeader; upgrade_certificate := None; block_payload := None; view_change_evidence := None;
     next_drb_result := None; with_epoch := true |}.

Definition demo_proposal (leader v : Z) (parent : Leaf2) : Proposal QuorumProposal2 :=
  let d := {| p_block_header := v + 1 : BlockHeader; p_view_number := v; p_epoch := Some 1;
    p_justify_qc := demo_qc (v - 1) (leaf2_commit parent); p_next_epoch_justify_qc := None;
    p_upgrade_certificate := None; p_view_change_evidence := None; p_next_drb_result := None |} in
  {| proposal_data := d; proposal_signature := [(leader, as_ref (leaf2_commit (leaf2_from_quorum_proposal d)))] : Sig |}.

Definition demo_leaf (p : Proposal QuorumProposal2) : Leaf2 := leaf2_from_quorum_proposal (proposal_data p).
Definition demo_p1 : Proposal QuorumProposal2 := demo_proposal 20 1 demo_genesis.
Definition demo_p2 : Proposal QuorumProposal2 := demo_proposal 30 2 (demo_leaf demo_p1).
Definition demo_p3 : Proposal QuorumProposal2 := demo_proposal 40 3 (demo_leaf demo_p2).
End Proposals.

(** The votes for the first two leaves, and the three proposals. *)
Definition demo_hashes : list Commitment :=
  map (fun p => leaf2_commit (demo_leaf Ideal.all_sign p)) [demo_p1 Ideal.all_sign; demo_p2 Ideal.all_sign; demo_p3 Ideal.all_sign].
Definition demo_messages : list bytes :=
  zip_with (fun h v => vote_message (demo_vote h) v) demo_hashes [1; 2] ++ map as_ref demo_hashes.
Definition demo_registry (_ : Z) (m : bytes) : bool := bool_decide (m ∈ demo_messages).
#[local] Instance demo_sigs : SignatureScheme := Ideal.signatures demo_registry.
#[local] Existing Instance StaticCommittee.
#[local] Instance demo_roots : EpochRoots Committee := {| add_epoch_root _ _ _ := None; sync_l1 _ := None |}.

Definition demo_table : list StakeTableEntry :=
  map (fun k => {| stake_key := k : PubKey; stake_amount := 1 |}) [10; 20; 30; 40].
Definition demo_committee : Committee := committee_new (map (Build_PeerConfig demo_sigs) demo_table) [].
Definition demo_lock : UpgradeLock :=
  UpgradeLock_from_certificate (Some
    {| data := {| old_version := Base; new_version := Upgrade; decide_by := 0; new_version_hash := UPGRADE_HASH;
                  old_version_last_view := 0; new_version_first_view := 0 |};
       vote_commitment := no_hash; view_number := 0; signatures := None |}).

Definition demo_storage : StorageAnswers :=
  {| undecided_stored := true; high_qc_stored := true; next_epoch_high_qc_stored := true; proposal_stored := true;
     vid_stored := true |}.
Definition demo_info : ValidationInfo (M := Committee) :=
  {| vi_public_key := 20 : PubKey; vi_private_key := 20 : PrivKey; vi_membership := demo_committee;
     vi_upgrade_lock := demo_lock; vi_epoch_height := 10; vi_storage := demo_storage |}.
Definition demo_sender : PubKey := 20.
Definition demo_cfg : VoteConfig :=
  {| vc_public_key := 20 : PubKey; vc_private_key := 20 : PrivKey; vc_epoch_height := 10;
     vc_instance_state := tt : InstanceState; vc_storage := demo_storage |}.

Definition g0 : Leaf2 := demo_genesis demo_registry.
Definition p1 : Proposal QuorumProposal2 := demo_p1 demo_registry.
Definition p2 : Proposal QuorumProposal2 := demo_p2 demo_registry.
Definition p3 : Proposal QuorumProposal2 := demo_p3 demo_registry.
Definition g1 : Leaf2 := leaf2_from_quorum_proposal (proposal_data p1).
Definition g2 : Leaf2 := leaf2_from_quorum_proposal (proposal_data p2).

(** The state at the start, and after each of the two leaves has been recorded. *)
Definition demo_start : Consensus :=
  Consensus_new {[0 := LeafView (leaf2_commit g0) tt None (Some 1)]} None 1 (Some 1) 0 0 0 ∅
    {[leaf2_commit g0 := g0]} ∅ (demo_qc demo_registry 0 (leaf2_commit g0)) None 10.
Definition demo_add (c : Consensus) (l : Leaf2) : Consensus :=
  match update_leaf c l tt (Some tt) with Ok c' => c' | _ => c end.
Definition demo_c1 : Consensus := demo_add demo_start g1.
Definition demo_c2 : Consensus := demo_add demo_c1 g2.
Definition demo_task (c : Consensus) : QuorumVoteTaskState (M := Committee) :=
  {| qv_consensus := c; qv_upgrade_lock := demo_lock; qv_membership := demo_committee; drb_computation := None;
     latest_voted_view := 0; vote_dependencies := ∅ |}.
Definition demo_leaf_info (l : Leaf2) : LeafInfo :=
  {| li_leaf := l; li_state := tt; li_delta := Some tt; li_vid_share := None |}.
Definition no_seed (q : option QcType) : option bytes := None.

Lemma demo_table_ok : table_ok demo_table.
Proof.
  split_and!; [|repeat constructor|split; [repeat constructor; done|by compute]|by compute].
  apply (bool_decide_unpack _). by vm_compute.
Qed.

Lemma demo_known e : single_known demo_committee e demo_table [].
Proof.
  split_and!; [apply demo_table_ok| |done].
  split_and!; [constructor|constructor|split; [constructor|by compute]|by compute].
Qed.

Lemma demo_start_inv : cons_inv demo_start.
Proof.
  split.
  - intros h l Hl. cbn in Hl. apply lookup_singleton_Some in Hl as [<- <-]. done.
  - intros v h s d e Hv. cbn in Hv. apply lookup_singleton_Some in Hv as [<- [= <- _ _ _]]. exists g0.
    split; [apply lookup_singleton_eq|done].
  - by eexists.
Qed.

Lemma demo_c1_step : step demo_start demo_c1.
Proof. by apply (step_leaf demo_start g1 tt (Some tt)). Qed.
Lemma demo_c2_step : step demo_c1 demo_c2.
Proof. by apply (step_leaf demo_c1 g2 tt (Some tt)). Qed.
Lemma demo_c1_inv : cons_inv demo_c1.
Proof using Lm. eapply step_inv, demo_start_inv. apply demo_c1_step. Qed.
Lemma demo_c2_inv : cons_inv demo_c2.
Proof using Lm. eapply step_inv, demo_c1_inv. apply demo_c2_step. Qed.

(** Hashes of later leaves are larger. *)
Lemma demo_ranks : (rank no_hash < rank (leaf2_commit g0) < rank (leaf2_commit g1))%nat ∧ (rank (leaf2_commit g1) < rank (leaf2_commit g2))%nat.
Proof using Type. split_and!; [apply (parent_rank g0)|apply (parent_rank g1)|apply (parent_rank g2)]. Qed.

(** In states with these leaves only, certificates and parents are as they should be. *)
Lemma demo_family c :
  cons_inv c → (∀ h l, saved_leaves c !! h = Some l → l = g2 ∨ l = g1 ∨ l = g0) → parents_older c ∧ certs_match c.
Proof using Lm Rk.
  intros Hc Hl. pose proof demo_ranks as [[? ?] ?].
  assert (∀ g p, leaf_ok g → saved_leaves c !! leaf2_commit g = Some p → leaf_view p = leaf_view g) as Hv.
  { intros g p Hg Hp. apply (inv_keys _ Hc) in Hp as [Hk Hp]. by destruct (leaf2_commit_inv g p (proj1 Hg) (proj1 Hp) Hk) as [? _]. }
  assert (∀ p, saved_leaves c !! no_hash = Some p → False) as Hno.
  { intros p Hp. pose proof (inv_keys _ Hc _ _ Hp) as [Hk _]. apply Hl in Hp as [->|[->| ->]]; rewrite <-Hk in *; lia. }
  split.
  - intros h l p [->|[->| ->]]%Hl Hp; [apply (Hv g1) in Hp; [|done]|apply (Hv g0) in Hp; [|done]|by destruct (Hno p)];
      rewrite Hp; done.
  - intros h l p [->|[->| ->]]%Hl Hp; [apply (Hv g1) in Hp; [|done]|apply (Hv g0) in Hp; [|done]|by destruct (Hno p)];
      rewrite Hp; done.
Qed.

Lemma demo_saved c h l :
  saved_leaves c = <[leaf2_commit g2 := g2]> (<[leaf2_commit g1 := g1]> ({[leaf2_commit g0 := g0]} : gmap Commitment Leaf2)) ∨
  saved_leaves c = <[leaf2_commit g1 := g1]> ({[leaf2_commit g0 := g0]} : gmap Commitment Leaf2) ∨
  saved_leaves c = ({[leaf2_commit g0 := g0]} : gmap Commitment Leaf2) →
  saved_leaves c !! h = Some l → l = g2 ∨ l = g1 ∨ l = g0.
Proof using Type.
  intros [->|[->| ->]]; rewrite ?lookup_insert_Some, lookup_singleton_Some; naive_solver.
Qed.

Lemma demo_c1_family : parents_older demo_c1 ∧ certs_match demo_c1.
Proof using Lm Rk. apply demo_family; [apply demo_c1_inv|]. intros h l. apply demo_saved. right; left; reflexivity. Qed.
Lemma demo_c2_family : parents_older demo_c2 ∧ certs_match demo_c2.
Proof using Lm Rk. apply demo_family; [apply demo_c2_inv|]. intros h l. apply demo_saved. left. reflexivity. Qed.
Lemma demo_start_family : parents_older demo_start ∧ certs_match demo_start.
Proof using Lm Rk. apply demo_family; [apply demo_start_inv|]. intros h l. apply demo_saved. right; right; reflexivity. Qed.
Lemma demo_checked1_state : checked_state demo_start p1 = record_proposal demo_start p1.
Proof using Type.
  assert (update_high_qc demo_start (p_justify_qc (proposal_data p1)) = Ok demo_start) as Hu
    by (unfold update_high_qc; by rewrite bool_decide_true, orb_true_r).
  unfold checked_state, swallowed. cbv zeta. rewrite Hu. reflexivity.
Qed.
Lemma demo_checked1 : parents_older (checked_state demo_start p1).
Proof using Lm Rk.
  apply demo_family; [by apply checked_state_later; [|apply demo_start_inv]|]. intros h l. apply demo_saved. rewrite demo_checked1_state. right; left; reflexivity.
Qed.
Lemma demo_checked2 : parents_older (checked_state demo_c1 p2).
Proof using Lm Rk.
  apply demo_family; [by apply checked_state_later; [|apply demo_c1_inv]|]. intros h l. apply demo_saved. left. reflexivity.
Qed.

(** ** The proposals pass the checks *)

Lemma demo_signed k m : m ∈ demo_messages → A_verify (k : PubKey) m ([(k, m)] : Sig) = true.
Proof using Type. intros Hm. apply andb_true_iff. split; by apply bool_decide_eq_true. Qed.

Lemma demo_cert_checks v h :
  0 <= v → vote_message (demo_vote h) v ∈ demo_messages →
  is_valid_cert (demo_qc demo_registry v h) demo_table 3 demo_lock = Ok tt.
Proof using Lm.
  intros Hv Hm. eapply (valid_cert_intro _ _ _ _ _ 3 Upgrade); [|done|].
  - unfold version. simpl. by rewrite (proj2 (Z.leb_le 0 v) Hv).
  - simpl. set (m := vote_message _ _) in *. unfold check_qc. change (total_weight _ _) with (Ok (E := SignatureError) 3). mon.
    assert (A_multi_sig_verify (ver_keys (stake_entries (public_parameter demo_table 3)) [true; true; true; false]) m
      ([(10, m); (20, m); (30, m)] : Sig) = true) as Hs.
    { apply forallb_forall. intros k Hk. apply andb_true_iff. split; [|by apply bool_decide_eq_true].
      apply bool_decide_eq_true. change (In k [10; 20; 30]) in Hk.
      destruct Hk as [<-|[<-|[<-|[]]]]; rewrite !elem_of_cons; auto. }
    change (qc_threshold _) with 3. simpl in *. by rewrite Hs.
Qed.

Lemma demo_messages_elem :
  vote_message (demo_vote (leaf2_commit g1)) 1 ∈ demo_messages ∧ vote_message (demo_vote (leaf2_commit g2)) 2 ∈ demo_messages ∧
  Forall (fun p => as_ref (leaf2_commit (leaf2_from_quorum_proposal (proposal_data p))) ∈ demo_messages) [p1; p2; p3].
Proof using Type. unfold demo_messages. simpl. rewrite !Forall_cons, Forall_nil, !elem_of_cons. split_and!; auto 10. Qed.

Lemma agreement_signature p :
  p ∈ [p1; p2; p3] → validate_signature p demo_committee 10 = Ok tt.
Proof using Type.
  intros Hp. pose proof (proj2 (proj2 demo_messages_elem)) as Hm.
  assert (∃ k : PubKey, leader demo_committee (p_view_number (proposal_data p))
    (option_epoch_from_block_number (bool_decide (is_Some (p_epoch (proposal_data p)))) (block_number (p_block_header (proposal_data p))) 10)
    = Ok (E := Error) k ∧
    proposal_signature p = [(k, as_ref (leaf2_commit (leaf2_from_quorum_proposal (proposal_data p))))]) as (k & Hk & Hs).
  { rewrite !elem_of_cons, elem_of_nil in Hp. destruct Hp as [->|[->|[->|[]]]]; eexists; by split. }
  unfold validate_signature. rewrite Hk, Hs. mon. unfold ensure, validate. rewrite demo_signed; [done|].
  by apply (proj1 (Forall_forall _ _) Hm).
Qed.

(** What the checks read from the state; the rest of them hold by computation. *)
Lemma agreement_acceptable c p parent v :
  (p = p1 ∧ parent = g0 ∧ v = 0) ∨ (p = p2 ∧ parent = g1 ∧ v = 1) ∨ (p = p3 ∧ parent = g2 ∧ v = 2) →
  cur_view c <= v + 1 → is_Some (state c v) → saved_leaves c !! leaf2_commit parent = Some parent →
  safe_to_vote (checked_state c p) p parent demo_info → acceptable c p parent demo_info.
Proof using Lm.
  intros Hp Hcur Hst Hsaved Hsafe. pose proof demo_messages_elem as (Hm1 & Hm2 & _).
  assert (valid_cert_in (p_justify_qc (proposal_data p)) demo_committee (q2_epoch (data (p_justify_qc (proposal_data p))))
    demo_lock = Ok tt) as Hcert.
  { destruct Hp as [(-> & -> & ->)|[(-> & -> & ->)|(-> & -> & ->)]]; [done|..];
      unfold valid_cert_in; change (success_threshold _ _) with (Ok (E := Error) 3); mon; by apply demo_cert_checks. }
  assert (validate_proposal_view_and_certs c p demo_info = Ok tt) as Hviews.
  { unfold validate_proposal_view_and_certs. change (vi_membership demo_info) with demo_committee.
    change (vi_epoch_height demo_info) with 10. rewrite agreement_signature by (destruct Hp as [[-> _]|[[-> _]|[-> _]]]; [left|right; left|right; right; left]).
    destruct Hp as [(-> & -> & ->)|[(-> & -> & ->)|(-> & -> & ->)]]; by rewrite (proj2 (Z.leb_le (cur_view c) _)). }
  assert (store_high_qc c (p_justify_qc (proposal_data p)) (p_next_epoch_justify_qc (proposal_data p)) demo_info = Ok tt) as Hstore
    by (unfold store_high_qc; destruct (_ <? _); destruct Hp as [(-> & -> & ->)|[(-> & -> & ->)|(-> & -> & ->)]]; done).
  destruct Hp as [(-> & -> & ->)|[(-> & -> & ->)|(-> & -> & ->)]]; by split.
Qed.

Lemma demo_distinct : leaf2_commit g1 ≠ leaf2_commit g0 ∧ leaf2_commit g2 ≠ leaf2_commit g1.
Proof using Rk. pose proof demo_ranks as [[? ?] ?]. split; intros He; rewrite He in *; lia. Qed.

Lemma demo_saved_leaves :
  saved_leaves demo_start !! leaf2_commit g0 = Some g0 ∧
  saved_leaves demo_c1 !! leaf2_commit g1 = Some g1 ∧
  saved_leaves demo_c2 !! leaf2_commit g2 = Some g2 ∧ saved_leaves demo_c2 !! leaf2_commit g1 = Some g1.
Proof using Rk.
  split_and!; [apply lookup_singleton_eq|apply lookup_insert_eq|apply lookup_insert_eq|].
  apply lookup_insert_Some. right. split; [apply demo_distinct|apply lookup_insert_eq].
Qed.

(** The lock of the first proposal is the view of the genesis leaf. *)
Lemma demo_safe1 : safe_to_vote (checked_state demo_start p1) p1 g0 demo_info.
Proof using Lm Rk.
  rewrite demo_checked1_state. split; try done. right. exists (leaf2_commit g0). split; [done|].
  apply (reaches_here _ _ _ g0); [|by eexists|done].
  apply lookup_insert_Some. right. split; [apply demo_distinct|apply lookup_singleton_eq].
Qed.

Lemma demo_safe2 : safe_to_vote (checked_state demo_c1 p2) p2 g1 demo_info.
Proof using Type. split; try done. by left. Qed.

Lemma demo_safe3 : safe_to_vote (checked_state demo_c2 p3) p3 g2 demo_info.
Proof using Type. split; try done. by left. Qed.

Lemma demo_received1 : emits (handle_quorum_proposal_recv p1 demo_sender demo_info) demo_start (QuorumProposalValidated p1 g0).
Proof using Lm Rk.
  apply acceptable_emits; [done|apply demo_start_inv|]. apply (agreement_acceptable _ _ _ 0); [auto|done|by eexists|apply demo_saved_leaves|apply demo_safe1].
Qed.
Lemma demo_received2 : emits (handle_quorum_proposal_recv p2 demo_sender demo_info) demo_c1 (QuorumProposalValidated p2 g1).
Proof using Lm Rk.
  apply acceptable_emits; [done|apply demo_c1_inv|]. apply (agreement_acceptable _ _ _ 1); [auto|done|by eexists|apply demo_saved_leaves|apply demo_safe2].
Qed.
Lemma demo_received3 : emits (handle_quorum_proposal_recv p3 demo_sender demo_info) demo_c2 (QuorumProposalValidated p3 g2).
Proof using Lm Rk.
  apply acceptable_emits; [done|apply demo_c2_inv|]. apply (agreement_acceptable _ _ _ 2); [auto|done|by eexists|apply demo_saved_leaves|apply demo_safe3].
Qed.

(** ** The run and the decision *)

Lemma demo_stake : stake_answers (M := Committee).
Proof using Type. intros m k e. by eexists. Qed.

Lemma demo_drb p c :
  (p, c) = (p1, demo_start) ∨ (p, c) = (p2, demo_c1) ∨ (p, c) = (p3, demo_c2) →
  drb_passes demo_cfg (proposal_data p) (demo_task c).
Proof using Type. intros [[= -> ->]|[[= -> ->]|[= -> ->]]]; (split; [by exists Upgrade|reflexivity]). Qed.

Lemma demo_parent1 : parent_leaf_info demo_start (leaf2_from_quorum_proposal (proposal_data p1)) (vc_public_key demo_cfg) =
  Some {| li_leaf := g0; li_state := tt; li_delta := None; li_vid_share := None |}.
Proof using Rk. destruct demo_saved_leaves as [H0 _]. unfold parent_leaf_info.
  change (leaf_commit _) with (leaf2_commit g0). by rewrite H0.
Qed.

Lemma demo_parent0 : parent_leaf_info demo_start g0 (vc_public_key demo_cfg) = None.
Proof using Rk.
  unfold parent_leaf_info. destruct (saved_leaves demo_start !! leaf_commit (data (justify_qc g0))) as [l|] eqn:Hl; [|done].
  cbn in Hl. apply lookup_singleton_Some in Hl as [He _]. pose proof demo_ranks as [[Hr _] _].
  change (leaf2_commit g0 = no_hash) in He. rewrite He in Hr. lia.
Qed.

(** The first proposal leaves the lock at the genesis view, and decides nothing. *)
Lemma demo_handled1 :
  ∃ r ev, handle_quorum_proposal_validated no_seed demo_cfg (proposal_data p1) (demo_task demo_start) = (r, demo_task demo_start, ev).
Proof using Rk.
  assert (decide_from_proposal_2 (proposal_data p1) demo_start (decided_upgrade_certificate demo_lock) (vc_public_key demo_cfg)
    true demo_committee = Some ({| new_locked_view_number := Some 0; new_decided_view_number := None; new_decide_qc := None;
      leaf_views := []; included_txns := None; decided_upgrade_cert := None |}, demo_committee)) as Hd
    by (unfold decide_from_proposal_2; rewrite demo_parent1; cbn [li_leaf]; by rewrite demo_parent0).
  unfold handle_quorum_proposal_validated. do 2 eexists.
  rewrite (bind_ok _ _ _ (demo_task demo_start) (demo_task demo_start)) by reflexivity.
  rewrite (bind_ok _ _ _ Upgrade (demo_task demo_start)) by reflexivity. cbv zeta. change (version_ge Upgrade Epochs) with true. cbv iota.
  rewrite (bind_ok _ _ _ tt (demo_task demo_start)) by reflexivity.
  rewrite (bind_ok _ _ _ (demo_task demo_start) (demo_task demo_start)) by reflexivity.
  change (qv_consensus (demo_task demo_start)) with demo_start. change (qv_upgrade_lock (demo_task demo_start)) with demo_lock.
  change (qv_membership (demo_task demo_start)) with demo_committee. rewrite Hd. reflexivity.
Qed.

Lemma agreement_run : ∃ c, voting_run no_seed demo_committee demo_lock [p2; p1] c.
Proof using Lm Rk.
  destruct demo_handled1 as (r & ev & Hh).
  assert (voting_run no_seed demo_committee demo_lock [p1] demo_start) as H1.
  { eapply (run_vote no_seed demo_committee demo_lock [] demo_start demo_info demo_cfg p1 demo_sender g0
      (demo_task demo_start) (demo_task demo_start)); try done.
    - constructor. apply demo_start_inv.
    - by intros q ?%elem_of_nil.
    - apply demo_checked1.
    - apply demo_received1.
    - apply demo_stake.
    - split_and!; [done|apply demo_start_inv|apply demo_start_family].
    - by apply demo_drb; left. }
  destruct (handle_quorum_proposal_validated no_seed demo_cfg (proposal_data p2) (demo_task demo_c1)) as [[r2 s2] ev2] eqn:Hh2.
  eexists. eapply (run_vote no_seed demo_committee demo_lock [p1] demo_c1 demo_info demo_cfg p2 demo_sender g1 (demo_task demo_c1)); try done.
  - eapply run_step, demo_c1_step. done.
  - by intros q ->%list_elem_of_singleton.
  - apply demo_checked2.
  - apply demo_received2.
  - apply demo_stake.
  - split_and!; [done|apply demo_c1_inv|apply demo_c1_family].
  - by apply demo_drb; right; left.
Qed.

Lemma demo_network :
  network_ok (known := single_known) (signed := fun k m => demo_registry k m = true) no_seed demo_committee demo_table [] demo_lock
    (fun k => negb (k =? 40)) (fun _ => [p2; p1]) g0.
Proof using Lm Rk tags.
  split.
  - apply demo_known.
  - repeat constructor.
  - by vm_compute.
  - done.
  - intros k _. apply agreement_run.
  - intros k d v _ Hs%bool_decide_eq_true. unfold demo_messages in Hs.
    apply elem_of_app in Hs as [Hs|Hs].
    + simpl in Hs. rewrite !elem_of_cons, elem_of_nil in Hs.
      destruct Hs as [[Hd ->]%vote_message_inj|[[Hd ->]%vote_message_inj|[]]]; apply quorum_data2_commit_inj in Hd as ->;
        [exists p1|exists p2]; by split_and!; [rewrite !elem_of_cons; auto|..].
    + apply list_elem_of_fmap in Hs as (h & Hh & Hin). apply as_ref_inj in Hh. exfalso.
      apply list_elem_of_fmap in Hin as (p & -> & _). by eapply tags.
  - intros k p _ Hp. rewrite !elem_of_cons, elem_of_nil in Hp. by destruct Hp as [->|[->|[]]].
Qed.

Lemma demo_parents3 :
  parent_leaf_info demo_c2 (leaf2_from_quorum_proposal (proposal_data p3)) (vc_public_key demo_cfg) = Some (demo_leaf_info g2) ∧
  parent_leaf_info demo_c2 g2 (vc_public_key demo_cfg) = Some (demo_leaf_info g1).
Proof using Rk.
  destruct demo_saved_leaves as (_ & _ & H2 & H1). unfold parent_leaf_info.
  split; [change (leaf_commit _) with (leaf2_commit g2); by rewrite H2|change (leaf_commit _) with (leaf2_commit g1); by rewrite H1].
Qed.

Lemma demo_healthy : healthy (demo_task demo_c2).
Proof using Lm Rk. split_and!; [done|apply demo_c2_inv|apply demo_c2_family]. Qed.

Lemma demo_decided : decided no_seed demo_committee demo_lock g0 g1.
Proof using Lm Rk.
  destruct (two_chain_decides no_seed demo_cfg (proposal_data p3) (demo_task demo_c2) (demo_leaf_info g2) (demo_leaf_info g1))
    as (chain & qc & n & He & Hhd); try done; [apply demo_stake|apply demo_healthy|by apply demo_drb; right; right|apply demo_parents3..|].
  destruct (handle_quorum_proposal_validated no_seed demo_cfg (proposal_data p3) (demo_task demo_c2)) as [[r s'] ev] eqn:Hh.
  unfold emits in He. rewrite Hh in He.
  apply (decided_by no_seed demo_committee demo_lock g0 demo_info demo_cfg p3 demo_sender g2 demo_c2 (demo_task demo_c2) s' r ev
    1 chain qc n (demo_leaf_info g1)); try done; [apply demo_received3|apply demo_stake|apply demo_healthy|by apply demo_drb; right; right].
Qed.
End Demo.

Definition h0 : Commitment := Ideal.digest 0.

Lemma tags_differ (l l' : list (cb_item Commitment)) : finalize "Vote" l ≠ finalize "leaf commitment" l'.
Proof. done. Qed.

Definition signatures : SignatureScheme := demo_sigs h0.
Definition signature_laws : SignatureLaws signatures (fun k m => demo_registry h0 k m = true) :=
  Ideal.signature_laws (demo_registry h0).
Definition leaf1 : Leaf2 (Sg := signatures) (Bt := demo_blocks) := g1 h0.
End AgreementDemo.

(** One faulty node of four; the leaf of the first proposal is decided. *)
Lemma decided_leaves_agree_witness :
  leaf_view AgreementDemo.leaf1 = 1 ∧
  extends (Sg := AgreementDemo.signatures) (Bt := AgreementDemo.demo_blocks)
    (leaf2_commit AgreementDemo.leaf1) (leaf2_commit AgreementDemo.leaf1).
Proof.
  split; [reflexivity|].
  destruct (decided_leaves_agree (Ls := AgreementDemo.signature_laws) (Lc := static_committee_laws)
    (AgreementDemo.no_seed AgreementDemo.h0) (AgreementDemo.demo_committee AgreementDemo.h0) (AgreementDemo.demo_table AgreementDemo.h0) []
    (AgreementDemo.demo_lock AgreementDemo.h0) (fun k => negb (k =? 40))
    (fun _ => [AgreementDemo.p2 AgreementDemo.h0; AgreementDemo.p1 AgreementDemo.h0]) (AgreementDemo.g0 AgreementDemo.h0)
    (AgreementDemo.demo_network AgreementDemo.h0 AgreementDemo.tags_differ) AgreementDemo.leaf1 AgreementDemo.leaf1
    (AgreementDemo.demo_decided AgreementDemo.h0) (AgreementDemo.demo_decided AgreementDemo.h0)) as [H|H]; exact H.
Defined.

Lemma two_chains_are_decided_witness :
  ∃ chain qc n, emits (handle_quorum_proposal_validated (Mb := StaticCommittee) (Er := AgreementDemo.demo_roots AgreementDemo.h0)
      (AgreementDemo.no_seed AgreementDemo.h0)
      (AgreementDemo.demo_cfg AgreementDemo.h0) (proposal_data (AgreementDemo.p3 AgreementDemo.h0)))
    (AgreementDemo.demo_task AgreementDemo.h0 (AgreementDemo.demo_c2 AgreementDemo.h0)) (Decide 1 chain qc n) ∧
    head chain = Some (AgreementDemo.demo_leaf_info AgreementDemo.h0 AgreementDemo.leaf1).
Proof.
  apply (two_chains_are_decided (AgreementDemo.no_seed AgreementDemo.h0) (AgreementDemo.demo_cfg AgreementDemo.h0)
    (proposal_data (AgreementDemo.p3 AgreementDemo.h0))
    (AgreementDemo.demo_task AgreementDemo.h0 (AgreementDemo.demo_c2 AgreementDemo.h0))
    (AgreementDemo.demo_leaf_info AgreementDemo.h0 (AgreementDemo.g2 AgreementDemo.h0))
    (AgreementDemo.demo_leaf_info AgreementDemo.h0 AgreementDemo.leaf1)).
  - exact (AgreementDemo.demo_stake AgreementDemo.h0).
  - exact (AgreementDemo.demo_healthy AgreementDemo.h0).
  - exact (AgreementDemo.demo_drb AgreementDemo.h0 _ _ (or_intror (or_intror eq_refl))).
  - exact (proj1 (AgreementDemo.demo_parents3 AgreementDemo.h0)).
  - exact (proj2 (AgreementDemo.demo_parents3 AgreementDemo.h0)).
  - reflexivity.
  - reflexivity.
  - reflexivity.
Defined.
