(* ===== verification/ConsistencyTask.v ===== *)
(** * The consistency check of the test harness

    [testing/src/consistency_task.rs]: a task of the test harness that records the leaves
    each node reports as decided, and at the end of a test checks that the nodes agree.
    [passing_networks_agree] shows that the check, when it passes, gives the conclusion of
    the agreement theorem of [Safety] for the leaves it has seen.

    The function that validates the number of transactions in the blocks is given by the
    test, and is an argument.  A [BTreeMap] is iterated in the order of its keys. *)

From S2P Require Import Prelude Epochs Crypto Committee Votes Certificates Data Vid Consensus ConsensusProofs Safety.

(** [Vec::dedup_by]: an element that is the same as the last one kept is removed. *)
Fixpoint dedup_after {A} (same : A → A → bool) (kept : A) (l : list A) : list A :=
  match l with
  | [] => []
  | x :: l => if same x kept then dedup_after same kept l else x :: dedup_after same x l
  end.
Definition dedup_by {A} (same : A → A → bool) (l : list A) : list A :=
  match l with [] => [] | x :: l => x :: dedup_after same x l end.

(** At most one element is left exactly if all are the same as the first. *)
Lemma dedup_by_single {A} (same : A → A → bool) l x :
  dedup_by same l = [x] ↔ head l = Some x ∧ Forall (fun y => same y x = true) (tail l).
Proof.
  destruct l as [|y l]; simpl; [naive_solver|].
  assert (dedup_after same y l = [] ↔ Forall (fun z => same z y = true) l) as Hd.
  { induction l as [|z l IH]; simpl; [done|]. rewrite Forall_cons. destruct (same z y); naive_solver. }
  split; [intros [= -> H]|intros [[= ->] H]]; [split; [done|by apply Hd]|by f_equal; apply Hd].
Qed.

Lemma dedup_by_nil {A} (same : A → A → bool) l : dedup_by same l = [] ↔ l = [].
Proof. by destruct l. Qed.

Section Consistency.
Context `{Sg : SignatureScheme} `{Cm : Committable} `{Vt : VidTypes} `{Vs : Versions}.
Context `{Bt : !BlockTypes} `{Vd : !VidScheme}.
(** The number of transactions in a header's metadata, and the test's function for it. *)
Context (num_transactions : BlockHeader → Z) (validate_transactions : list (ViewNumber * Z) → outcome Error unit).

Abbreviation NodeMap := (gmap ViewNumber (list Leaf2)).
Abbreviation NodeMapSanitized := (gmap ViewNumber Leaf2).
Abbreviation NetworkMap := (gmap Z NodeMap).
Abbreviation NetworkMapSanitized := (gmap Z NodeMapSanitized).
Abbreviation ViewMap := (gmap ViewNumber (gmap Z Leaf2)).
Abbreviation ViewMapSanitized := (gmap ViewNumber Leaf2).

Definition context {A} (o : outcome Error A) (e : Error) : outcome Error A :=
  match o with Err _ => Err e | o => o end.

(** ** One node *)

Fixpoint sanitize_leaves (l : list (ViewNumber * list Leaf2)) (result : NodeMapSanitized)
    : outcome Error NodeMapSanitized :=
  match l with
  | [] => Ok result
  | (view, leaves) :: l =>
      match dedup_by leaf_eq leaves with
      | [] => sanitize_leaves l result
      | [leaf] => sanitize_leaves l (<[view := leaf]> result)
      | _ => Err "We have received inconsistent leaves for view"
      end
  end.

Definition sanitize_node_map (node_map : NodeMap) : outcome Error NodeMapSanitized :=
  sanitize_leaves (btree_iter node_map) ∅.

(** The first upgrade certificate that is decided in a chain of three, and the view. *)
Fixpoint find_decided_upgrade (triples : list (Leaf2 * Leaf2 * Leaf2)) : option UpgradeCertificate * ViewNumber :=
  match triples with
  | [] => (None, 0)
  | (grandparent, _, child) :: triples =>
      match upgrade_certificate grandparent with
      | Some cert =>
          if decide_by (data cert) <=? leaf_view child then (Some cert, leaf_view child) else find_decided_upgrade triples
      | None => find_decided_upgrade triples
      end
  end.

Fixpoint validate_pairs (cert : option UpgradeCertificate) (view_decided : ViewNumber) (lock : option UpgradeCertificate)
    (pairs : list (Leaf2 * Leaf2)) : outcome Error unit :=
  match pairs with
  | [] => Ok tt
  | (parent, child) :: pairs =>
      _ ← ensure (leaf_view parent <=? view_number (justify_qc child))
            "its quorum certificate points to a view before the most recent leaf";
      _ ← context (extends_upgrade child parent lock) "Leaf {child} does not extend its parent {parent}";
      _ ← (if (view_number (justify_qc child) =? leaf_view parent) &&
              negb (bool_decide (leaf_commit (data (justify_qc child)) = leaf2_commit parent))
           then Err "but the commits do not match."
           else Ok tt);
      validate_pairs cert view_decided (if leaf_view child =? view_decided then cert else lock) pairs
  end.

Definition validate_node_map (node_map : NodeMapSanitized) : outcome Error unit :=
  let values := btree_values node_map in
  let leaf_triples := zip (zip values (drop 1 values)) (drop 2 values) in
  let '(decided_upgrade_certificate, view_decided) := find_decided_upgrade leaf_triples in
  validate_pairs decided_upgrade_certificate view_decided None (zip values (drop 1 values)).

(** ** The network *)

Fixpoint sanitize_nodes (l : list (Z * NodeMap)) (result : NetworkMapSanitized) : outcome Error NetworkMapSanitized :=
  match l with
  | [] => Ok result
  | (node, node_map) :: l =>
      m ← context (sanitize_node_map node_map) "Node produced inconsistent leaves.";
      sanitize_nodes l (<[node := m]> result)
  end.
Definition sanitize_network_map (network_map : NetworkMap) : outcome Error NetworkMapSanitized :=
  sanitize_nodes (btree_iter network_map) ∅.

Definition insert_view (node_id : Z) (inverted_map : ViewMap) (entry : ViewNumber * Leaf2) : ViewMap :=
  <[entry.1 := <[node_id := entry.2]> (default ∅ (inverted_map !! entry.1))]> inverted_map.

Fixpoint invert_nodes (l : list (Z * NodeMapSanitized)) (inverted_map : ViewMap) : outcome Error ViewMap :=
  match l with
  | [] => Ok inverted_map
  | (node_id, node_map) :: l =>
      _ ← context (validate_node_map node_map) "Node has an invalid leaf history";
      invert_nodes l (foldl (insert_view node_id) inverted_map (btree_iter node_map))
  end.
Definition invert_network_map (network_map : NetworkMapSanitized) : outcome Error ViewMap :=
  invert_nodes (btree_iter network_map) ∅.

Fixpoint sanitize_views (l : list (ViewNumber * gmap Z Leaf2)) (result : ViewMapSanitized)
    : outcome Error ViewMapSanitized :=
  match l with
  | [] => Ok result
  | (view, leaf_map) :: l =>
      let node_leaves := dedup_by (fun a b => leaf_eq a.2 b.2) (btree_iter leaf_map) in
      _ ← ensure (length node_leaves <=? 1)%nat "The network does not agree on view";
      sanitize_views l (match node_leaves with (_, leaf) :: _ => <[view := leaf]> result | [] => result end)
  end.

Definition linked (pair : Leaf2 * Leaf2) : bool :=
  bool_decide (leaf_commit (data (justify_qc pair.2)) = leaf2_commit pair.1).

Definition sanitize_view_map (view_map : ViewMap) : outcome Error ViewMapSanitized :=
  result ← sanitize_views (btree_iter view_map) ∅;
  _ ← ensure (forallb linked (zip (btree_values result) (drop 1 (btree_values result))))
        "The network has decided leaves that do not succeed each other. Did we miss an intermediate leaf?";
  Ok result.

(** ** The task *)

Record ConsistencyTask := { consensus_leaves : NetworkMap; ensure_upgrade : bool }.

Definition consistency_validate (t : ConsistencyTask) : outcome Error unit :=
  sanitized_network_map ← sanitize_network_map (consensus_leaves t);
  inverted_map ← invert_network_map sanitized_network_map;
  sanitized_view_map ← sanitize_view_map inverted_map;
  let actual_upgrade := existsb (fun leaf => bool_decide (is_Some (upgrade_certificate leaf))) (btree_values sanitized_view_map) in
  let transactions := map (fun e => (e.1, num_transactions (block_header e.2))) (btree_iter sanitized_view_map) in
  _ ← validate_transactions transactions;
  ensure (eqb (ensure_upgrade t) actual_upgrade) "Mismatch between expected and actual upgrade.".

(** The events of nodes: a decide with its leaves, newest first, or another event. *)
Inductive NodeEvent := DecideEvent (leaf_chain : list LeafInfo) | OtherEvent.

Definition record_leaf (m : NodeMap) (info : LeafInfo) : NodeMap :=
  let view := leaf_view (li_leaf info) in
  <[view := default [] (m !! view) ++ [li_leaf info]]> m.

Definition handle_event (t : ConsistencyTask) (e : NodeEvent * Z) : ConsistencyTask :=
  match e.1 with
  | DecideEvent leaf_chain =>
      let m := default ∅ (consensus_leaves t !! e.2) in
      {| consensus_leaves := <[e.2 := foldl record_leaf m leaf_chain]> (consensus_leaves t);
         ensure_upgrade := ensure_upgrade t |}
  | OtherEvent => t
  end.

Inductive TestResult := Pass | Fail (e : Error).
Definition consistency_check (t : ConsistencyTask) : outcome Error TestResult :=
  match consistency_validate t with Ok _ => Ok Pass | Err e => Ok (Fail e) | Panic => Panic end.
End Consistency.

(** ** What the check guarantees *)

Section Sound.
Context `{Sg : SignatureScheme} `{Cm : Committable} `{Vt : VidTypes} `{Vs : Versions}.
Context `{Bt : !BlockTypes} `{Vd : !VidScheme}.
Implicit Types (l leaf : Leaf2) (t : ConsistencyTask).

Lemma leaf_eq_iff l l' : leaf_eq l l' = true ↔ set_block_payload l None = set_block_payload l' None.
Proof.
  unfold leaf_eq. rewrite !andb_true_iff, !bool_decide_eq_true, Z.eqb_eq, eqb_true_iff.
  destruct l, l'; simpl. split; [naive_solver|by intros [= ? ? ? ? ? ? ? ? ?]].
Qed.

Lemma leaf_eq_commit l l' : leaf_eq l l' = true → leaf2_commit l = leaf2_commit l'.
Proof.
  intros H%leaf_eq_iff. change (leaf2_commit (set_block_payload l None) = leaf2_commit (set_block_payload l' None)). by rewrite H.
Qed.

Lemma leaf_eq_trans l1 l2 l3 : leaf_eq l1 l2 = true → leaf_eq l2 l3 = true → leaf_eq l1 l3 = true.
Proof. rewrite !leaf_eq_iff. congruence. Qed.
Lemma leaf_eq_refl l : leaf_eq l l = true.
Proof. by apply leaf_eq_iff. Qed.

(** A list whose elements are all the same as its first. *)
Lemma dedup_all_same {A} (f : A → Leaf2) (l : list A) x y :
  dedup_by (fun a b => leaf_eq (f a) (f b)) l = [x] → y ∈ l → leaf_eq (f y) (f x) = true.
Proof.
  intros [Hx Ht]%dedup_by_single Hy. destruct l as [|z l]; [done|]. simpl in *. injection Hx as ->.
  apply elem_of_cons in Hy as [->|Hy]; [apply leaf_eq_refl|]. by apply (proj1 (Forall_forall _ _) Ht).
Qed.

Lemma dedup_first {A} (same : A → A → bool) (l : list A) x : dedup_by same l = [x] → x ∈ l.
Proof. intros [Hx _]%dedup_by_single. destruct l; [done|]. injection Hx as ->. left. Qed.

(** *** The map of a node *)

Lemma sanitize_leaves_inv es res r :
  sanitize_leaves es res = Ok r →
  ∀ view leaf, r !! view = Some leaf → res !! view = Some leaf ∨ ∃ leaves, (view, leaves) ∈ es ∧ leaf ∈ leaves.
Proof.
  revert res. induction es as [|[v ls] es IH]; intros res; simpl; [intros [= ->]; by left|].
  destruct (dedup_by leaf_eq ls) as [|x [|]] eqn:Hd; [|intros H view leaf Hr|done];
    [intros H view leaf Hr; apply (IH _ H) in Hr as [?|(? & ? & ?)]; [by left|right; eexists; split; [by right|done]]|].
  apply (IH _ H) in Hr as [[[-> ->]|[_ ?]]%lookup_insert_Some|(? & ? & ?)]; [|by left|right; eexists; split; [by right|done]].
  right. exists ls. split; [left|by eapply dedup_first].
Qed.

Lemma sanitize_leaves_keep es res r view :
  sanitize_leaves es res = Ok r → view ∉ es.*1 → r !! view = res !! view.
Proof.
  revert res. induction es as [|[v ls] es IH]; intros res; simpl; [by intros [= ->]|].
  rewrite not_elem_of_cons. destruct (dedup_by leaf_eq ls) as [|x [|]]; intros H [Hne Hni]; [by apply IH| |done].
  rewrite (IH _ H Hni). by apply lookup_insert_ne.
Qed.

Lemma sanitize_leaves_all es res r view leaves leaf :
  NoDup es.*1 → sanitize_leaves es res = Ok r → (view, leaves) ∈ es → leaf ∈ leaves →
  ∃ leaf', r !! view = Some leaf' ∧ leaf_eq leaf leaf' = true.
Proof.
  revert res. induction es as [|[v ls] es IH]; intros res; simpl; [by intros _ _ []%elem_of_nil|].
  intros [Hni Hnd]%NoDup_cons H Hin Hl. apply elem_of_cons in Hin as [[= -> ->]|Hin].
  - destruct (dedup_by leaf_eq ls) as [|x [|]] eqn:Hd; [apply dedup_by_nil in Hd as ->; by apply elem_of_nil in Hl| |done].
    exists x. rewrite (sanitize_leaves_keep _ _ _ _ H Hni). split; [apply lookup_insert_eq|].
    by apply (dedup_all_same (fun x => x) ls).
  - destruct (dedup_by leaf_eq ls) as [|x [|]]; [by eapply IH..|done].
Qed.

(** *** The network *)

Lemma context_ok {A} (o : outcome Error A) e a : context o e = Ok a → o = Ok a.
Proof. by destruct o. Qed.

Lemma sanitize_nodes_inv ns res r :
  sanitize_nodes ns res = Ok r →
  ∀ i m, r !! i = Some m → res !! i = Some m ∨ ∃ nm, (i, nm) ∈ ns ∧ sanitize_node_map nm = Ok m.
Proof.
  revert res. induction ns as [|[j nm] ns IH]; intros res; simpl; [intros [= ->]; by left|].
  intros (m0 & Hm%context_ok & H)%bind_ok_inv i m Hr.
  apply (IH _ H) in Hr as [[[-> ->]|[_ ?]]%lookup_insert_Some|(? & ? & ?)]; [|by left|right; eexists; split; [by right|done]].
  right. exists nm. split; [left|done].
Qed.

Lemma sanitize_nodes_keep ns res r i : sanitize_nodes ns res = Ok r → i ∉ ns.*1 → r !! i = res !! i.
Proof.
  revert res. induction ns as [|[j nm] ns IH]; intros res; simpl; [by intros [= ->]|].
  rewrite not_elem_of_cons. intros (m0 & _ & H)%bind_ok_inv [Hne Hni]. rewrite (IH _ H Hni). by apply lookup_insert_ne.
Qed.

Lemma sanitize_nodes_all ns res r i nm :
  NoDup ns.*1 → sanitize_nodes ns res = Ok r → (i, nm) ∈ ns → ∃ m, r !! i = Some m ∧ sanitize_node_map nm = Ok m.
Proof.
  revert res. induction ns as [|[j nm'] ns IH]; intros res; simpl; [by intros _ _ []%elem_of_nil|].
  intros [Hni Hnd]%NoDup_cons (m0 & Hm%context_ok & H)%bind_ok_inv [[= -> ->]|Hin]%elem_of_cons; [|by eapply IH].
  exists m0. rewrite (sanitize_nodes_keep _ _ _ _ H Hni). split; [apply lookup_insert_eq|done].
Qed.

(** *** By views *)

Definition at_view (vm : gmap ViewNumber (gmap Z Leaf2)) (v : ViewNumber) (i : Z) leaf : Prop := ∃ lm, vm !! v = Some lm ∧ lm !! i = Some leaf.

Lemma insert_view_at j vm v leaf w i leaf' :
  at_view (insert_view j vm (v, leaf)) w i leaf' ↔
  (w = v ∧ i = j ∧ leaf' = leaf) ∨ ((w ≠ v ∨ i ≠ j) ∧ at_view vm w i leaf').
Proof.
  unfold at_view, insert_view. simpl. destruct (decide (w = v)) as [->|Hw]; cycle 1.
  { rewrite lookup_insert_ne by done. naive_solver. }
  setoid_rewrite lookup_insert_eq. destruct (decide (i = j)) as [->|Hi].
  - split; [intros (lm & [= <-] & Hl); rewrite lookup_insert_eq in Hl; naive_solver|].
    intros [(_ & _ & ->)|[[?|?] _]]; [|done|done]. eexists. split; [done|apply lookup_insert_eq].
  - split.
    + intros (lm & [= <-] & Hl). rewrite lookup_insert_ne in Hl by done. right. split; [by right|].
      destruct (vm !! v) as [lm|]; [by exists lm|done].
    + intros [(_ & ? & _)|[_ (lm & -> & Hl)]]; [done|]. eexists. split; [done|]. simpl. by rewrite lookup_insert_ne.
Qed.

Lemma insert_views_at j es vm w i leaf :
  NoDup es.*1 →
  at_view (foldl (insert_view j) vm es) w i leaf ↔
  (i = j ∧ (w, leaf) ∈ es) ∨ ((i ≠ j ∨ w ∉ es.*1) ∧ at_view vm w i leaf).
Proof.
  revert vm. induction es as [|[v l] es IH]; intros vm; simpl.
  { intros _. pose proof (not_elem_of_nil w). rewrite elem_of_nil. naive_solver. }
  intros [Hni Hnd]%NoDup_cons. rewrite IH, insert_view_at, elem_of_cons, not_elem_of_cons by done.
  destruct (decide (i = j)) as [->|Hi]; [|naive_solver].
  assert (∀ l', (w, l') ∈ es → w ∈ es.*1) as Hes by (intros l' Hl'; apply list_elem_of_fmap; by exists (w, l')).
  destruct (decide (w ∈ es.*1)); naive_solver.
Qed.

Lemma invert_nodes_inv ns vm r w i leaf :
  invert_nodes ns vm = Ok r → at_view r w i leaf →
  (∃ m, (i, m) ∈ ns ∧ m !! w = Some leaf) ∨ at_view vm w i leaf.
Proof.
  revert vm. induction ns as [|[j m] ns IH]; intros vm; simpl; [intros [= ->]; by right|].
  intros (u & _ & H)%bind_ok_inv Hat. destruct (IH _ H Hat) as [(m' & ? & ?)|Hvm]; [left; exists m'; split; [by right|done]|].
  apply insert_views_at in Hvm as [[-> Hin%elem_of_btree_iter]|[_ ?]]; [|by right|apply btree_iter_keys].
  left. exists m. split; [left|done].
Qed.

Lemma invert_nodes_keep ns vm r w i leaf :
  invert_nodes ns vm = Ok r → i ∉ ns.*1 → at_view vm w i leaf → at_view r w i leaf.
Proof.
  revert vm. induction ns as [|[j m] ns IH]; intros vm; simpl; [by intros [= ->]|].
  rewrite not_elem_of_cons. intros (u & _ & H)%bind_ok_inv [Hne Hni] Hat. apply (IH _ H Hni).
  apply insert_views_at; [apply btree_iter_keys|]. right. split; [by left|done].
Qed.

Lemma invert_nodes_all ns vm r w i m leaf :
  NoDup ns.*1 → invert_nodes ns vm = Ok r → (i, m) ∈ ns → m !! w = Some leaf → at_view r w i leaf.
Proof.
  revert vm. induction ns as [|[j m'] ns IH]; intros vm; simpl; [by intros _ _ []%elem_of_nil|].
  intros [Hni Hnd]%NoDup_cons (u & _ & H)%bind_ok_inv [[= -> ->]|Hin]%elem_of_cons Hw; [|by eapply IH].
  apply (invert_nodes_keep _ _ _ _ _ _ H Hni). apply insert_views_at; [apply btree_iter_keys|].
  left. split; [done|]. by apply elem_of_btree_iter.
Qed.

Lemma sanitize_views_inv vs res r :
  sanitize_views vs res = Ok r →
  ∀ v leaf, r !! v = Some leaf → res !! v = Some leaf ∨ ∃ lm i, (v, lm) ∈ vs ∧ lm !! i = Some leaf.
Proof.
  revert res. induction vs as [|[w lm] vs IH]; intros res; simpl; [intros [= ->]; by left|].
  intros (u & _ & H)%bind_ok_inv v leaf Hr. apply (IH _ H) in Hr as [Hr|(lm' & i & ? & ?)]; cycle 1.
  { right. exists lm', i. split; [by right|done]. }
  destruct (btree_iter lm) as [|[i x] es] eqn:Hi; simpl in Hr; [by left|].
  apply lookup_insert_Some in Hr as [[-> ->]|[_ ?]]; [|by left].
  right. exists lm, i. split; [left|]. apply elem_of_btree_iter. rewrite Hi. left.
Qed.

Lemma sanitize_views_keep vs res r v : sanitize_views vs res = Ok r → v ∉ vs.*1 → r !! v = res !! v.
Proof.
  revert res. induction vs as [|[w lm] vs IH]; intros res; simpl; [by intros [= ->]|].
  rewrite not_elem_of_cons. intros (u & _ & H)%bind_ok_inv [Hne Hni]. rewrite (IH _ H Hni).
  destruct (dedup_by _ _) as [|[i x] es]; [done|by apply lookup_insert_ne].
Qed.

Lemma sanitize_views_all vs res r v lm i leaf :
  NoDup vs.*1 → sanitize_views vs res = Ok r → (v, lm) ∈ vs → lm !! i = Some leaf →
  ∃ leaf', r !! v = Some leaf' ∧ leaf_eq leaf leaf' = true.
Proof.
  revert res. induction vs as [|[w lm'] vs IH]; intros res; simpl; [by intros _ _ []%elem_of_nil|].
  intros [Hni Hnd]%NoDup_cons (u & He%ensure_ok_inv & H)%bind_ok_inv Hin Hl.
  apply elem_of_cons in Hin as [[= -> ->]|Hin]; [|by eapply IH].
  apply elem_of_btree_iter in Hl.
  destruct (dedup_by _ (btree_iter lm')) as [|[j x] [|]] eqn:Hd; simpl in He; [|clear He|done].
  { apply dedup_by_nil in Hd. rewrite Hd in Hl. by apply elem_of_nil in Hl. }
  exists x. rewrite (sanitize_views_keep _ _ _ _ H Hni). split; [apply lookup_insert_eq|].
  by apply (dedup_all_same snd (btree_iter lm') (j, x) (i, leaf)).
Qed.
(** *** Chains *)

(** A node has reported a leaf under a view. *)
Definition recorded t (i : Z) (v : ViewNumber) leaf : Prop :=
  ∃ m leaves, consensus_leaves t !! i = Some m ∧ m !! v = Some leaves ∧ leaf ∈ leaves.

Lemma linked_extends (vs : list Leaf2) :
  forallb linked (zip vs (drop 1 vs)) = true → Forall leaf_ok vs →
  ∀ i j a b, vs !! i = Some a → vs !! j = Some b → (i <= j)%nat → extends (leaf2_commit a) (leaf2_commit b).
Proof.
  intros Hl Hok i j a b Ha Hb Hij. revert b Hb. induction Hij as [|j Hij IH]; intros b Hb.
  { assert (b = a) as -> by congruence. constructor. }
  destruct (vs !! j) as [c|] eqn:Hc; [|apply lookup_ge_None in Hc; apply lookup_lt_Some in Hb; lia].
  assert (leaf_ok b) as Hbok by (apply (proj1 (Forall_forall _ _) Hok); by eapply list_elem_of_lookup_2).
  apply extends_child; [done|]. rewrite (proj2 Hbok).
  assert (linked (c, b) = true) as Hlink%bool_decide_eq_true; [|simpl in Hlink; rewrite Hlink; by apply IH].
  apply (proj1 (forallb_forall _ _) Hl). apply list_elem_of_In, (list_elem_of_lookup_2 _ j).
  rewrite lookup_zip_with, Hc, lookup_drop. simpl. by rewrite Hb.
Qed.

Lemma validate_chain nt vt t :
  consistency_validate nt vt t = Ok tt →
  ∃ r : gmap ViewNumber Leaf2, forallb linked (zip (btree_values r) (drop 1 (btree_values r))) = true ∧
    (∀ v leaf, r !! v = Some leaf → ∃ i, recorded t i v leaf) ∧
    (∀ i v leaf, recorded t i v leaf → ∃ leaf', r !! v = Some leaf' ∧ leaf_eq leaf leaf' = true).
Proof.
  unfold consistency_validate. intros (net & Hnet & H)%bind_ok_inv. apply bind_ok_inv in H as (inv & Hinv & H).
  apply bind_ok_inv in H as (r & Hr & _). unfold sanitize_view_map in Hr.
  apply bind_ok_inv in Hr as (r' & Hr & H). apply bind_ok_inv in H as (u & Hl%ensure_ok_inv & [= ->]).
  exists r. split_and!; [done|..].
  - intros v leaf [?|(lm & i & Hlm%elem_of_btree_iter & Hi)]%(sanitize_views_inv _ _ _ Hr); [done|].
    assert (at_view inv v i leaf) as Hat by by exists lm.
    apply (invert_nodes_inv _ _ _ _ _ _ Hinv) in Hat as [(m & Hm%elem_of_btree_iter & Hv)|(? & ? & _)]; [|done].
    apply (sanitize_nodes_inv _ _ _ Hnet) in Hm as [?|(nm & Hnm%elem_of_btree_iter & Hs)]; [done|].
    apply (sanitize_leaves_inv _ _ _ Hs) in Hv as [?|(ls & Hls%elem_of_btree_iter & Hin)]; [done|].
    by exists i, nm, ls.
  - intros i v leaf (nm & ls & Hnm & Hls & Hin).
    destruct (sanitize_nodes_all _ _ _ i nm (btree_iter_keys _) Hnet) as (m & Hm & Hs); [by apply elem_of_btree_iter|].
    destruct (sanitize_leaves_all _ _ _ v ls leaf (btree_iter_keys _) Hs) as (leaf1 & Hl1 & He1); [by apply elem_of_btree_iter|done|].
    destruct (invert_nodes_all _ _ _ v i m leaf1 (btree_iter_keys _) Hinv) as (lm & Hlm & Hi); [by apply elem_of_btree_iter|done|].
    destruct (sanitize_views_all _ _ _ v lm i leaf1 (btree_iter_keys _) Hr) as (leaf2 & Hl2 & He2); [by apply elem_of_btree_iter|done|].
    exists leaf2. split; [done|by eapply leaf_eq_trans].
Qed.

(** *** Runs *)

Lemma record_leaves_at (m : gmap ViewNumber (list Leaf2)) chain v leaf :
  (∃ ls, foldl record_leaf m chain !! v = Some ls ∧ leaf ∈ ls) ↔
  (∃ ls, m !! v = Some ls ∧ leaf ∈ ls) ∨ (v = leaf_view leaf ∧ ∃ info, info ∈ chain ∧ li_leaf info = leaf).
Proof.
  revert m. induction chain as [|info chain IH]; intros m; simpl.
  { split; [by left|intros [?|(_ & info & []%elem_of_nil & _)]; done]. }
  rewrite IH. unfold record_leaf. cbv zeta. setoid_rewrite elem_of_cons.
  destruct (decide (v = leaf_view (li_leaf info))) as [->|Hne].
  - setoid_rewrite lookup_insert_eq. split.
    + intros [(ls & [= <-] & [Hin|Hin%list_elem_of_singleton]%elem_of_app)|(Hv & info' & ? & ?)]; [|right; subst; eauto|right; eauto].
      destruct (m !! leaf_view (li_leaf info)) as [ls|]; [left; by exists ls|by apply elem_of_nil in Hin].
    + intros [(ls & Hls & Hin)|(Hv & info' & [->|?] & <-)]; [| |right; eauto].
      * left. eexists. split; [done|]. rewrite Hls. apply elem_of_app. by left.
      * left. eexists. split; [done|]. apply elem_of_app. right. left.
  - setoid_rewrite lookup_insert_ne; [|done]. naive_solver.
Qed.

(** A leaf is recorded exactly if it was in a decide event. *)
Lemma recorded_run ens events i v leaf :
  recorded (foldl handle_event {| consensus_leaves := ∅; ensure_upgrade := ens |} events) i v leaf ↔
  v = leaf_view leaf ∧ ∃ chain info, (DecideEvent chain, i) ∈ events ∧ info ∈ chain ∧ li_leaf info = leaf.
Proof.
  set (t0 := {| consensus_leaves := ∅; ensure_upgrade := ens |}).
  assert (∀ t, recorded (foldl handle_event t events) i v leaf ↔ recorded t i v leaf ∨
    (v = leaf_view leaf ∧ ∃ chain info, (DecideEvent chain, i) ∈ events ∧ info ∈ chain ∧ li_leaf info = leaf)) as Hrun; cycle 1.
  { rewrite Hrun. split; [intros [(m & ls & ? & _)|?]; done|by right]. }
  clear t0. induction events as [|[e j] events IH]; intros t; simpl.
  { split; [by left|]. intros [?|(_ & c & info & []%elem_of_nil & _)]; done. }
  rewrite IH. setoid_rewrite elem_of_cons.
  destruct e as [chain|]; [|unfold handle_event; simpl; naive_solver].
  assert (recorded (handle_event t (DecideEvent chain, j)) i v leaf ↔
    recorded t i v leaf ∨ (i = j ∧ v = leaf_view leaf ∧ ∃ info, info ∈ chain ∧ li_leaf info = leaf)) as ->; [|naive_solver].
  unfold handle_event, recorded. simpl. destruct (decide (i = j)) as [->|Hne].
  - setoid_rewrite lookup_insert_eq. pose proof (record_leaves_at (default ∅ (consensus_leaves t !! j)) chain v leaf) as Hr. split.
    + intros (m & ls & [= <-] & Hls & Hin). destruct (proj1 Hr ltac:(eauto)) as [(ls' & ? & ?)|?]; [left|by right].
      destruct (consensus_leaves t !! j) as [m|]; [by exists m, ls'|done].
    + intros H. destruct (proj2 Hr) as (ls & ? & ?); [|by do 2 eexists].
      destruct H as [(m & ls & -> & ? & ?)|(_ & ? & ?)]; [left; by exists ls|by right].
  - setoid_rewrite lookup_insert_ne; [|done]. naive_solver.
Qed.

(** C31. The check of the test harness is sound: when it passes at the end of a run, any two
    leaves that nodes have reported as decided are on one chain, and equal up to their
    payload if they are of the same view. *)
Theorem passing_networks_agree nt vt ens events i1 i2 chain1 chain2 info1 info2 :
  consistency_check nt vt (foldl handle_event {| consensus_leaves := ∅; ensure_upgrade := ens |} events) = Ok Pass →
  (∀ i chain info, (DecideEvent chain, i) ∈ events → info ∈ chain → leaf_ok (li_leaf info)) →
  (DecideEvent chain1, i1) ∈ events → info1 ∈ chain1 → (DecideEvent chain2, i2) ∈ events → info2 ∈ chain2 →
  let l1 := li_leaf info1 in let l2 := li_leaf info2 in
  (extends (leaf2_commit l1) (leaf2_commit l2) ∨ extends (leaf2_commit l2) (leaf2_commit l1)) ∧
  (leaf_view l1 = leaf_view l2 → leaf_eq l1 l2 = true).
Proof.
  set (t := foldl _ _ _). intros Hc Hok H1 Hi1 H2 Hi2 l1 l2.
  assert (consistency_validate nt vt t = Ok tt) as (r & Hlink & Hback & Hforth)%validate_chain
    by (unfold consistency_check in Hc; by destruct (consistency_validate nt vt t) as [[]| |]).
  assert (Forall leaf_ok (btree_values r)) as Hoks.
  { apply Forall_forall. intros l [v Hv]%elem_of_btree_values. destruct (Hback _ _ Hv) as [i Hr].
    apply recorded_run in Hr as (_ & chain & info & ? & ? & <-). by eapply Hok. }
  destruct (Hforth i1 (leaf_view l1) l1) as (l1' & Hl1 & He1); [apply recorded_run; eauto 10|].
  destruct (Hforth i2 (leaf_view l2) l2) as (l2' & Hl2 & He2); [apply recorded_run; eauto 10|].
  rewrite (leaf_eq_commit _ _ He1), (leaf_eq_commit _ _ He2). split.
  - assert (l1' ∈ btree_values r) as [n1 Hn1]%list_elem_of_lookup by (apply elem_of_btree_values; eauto).
    assert (l2' ∈ btree_values r) as [n2 Hn2]%list_elem_of_lookup by (apply elem_of_btree_values; eauto).
    destruct (Nat.le_ge_cases n1 n2); [left|right]; by eapply linked_extends.
  - intros Hv. rewrite Hv in Hl1. assert (l1' = l2') as -> by congruence. apply leaf_eq_iff in He1, He2. apply leaf_eq_iff. congruence.
Qed.
End Sound.

(** ** Witness: two nodes of which the first has decided one leaf more *)

Module ConsistencyDemo.
#[local] Existing Instance Ideal.open_signatures.
Definition l1 : Leaf2 := DataDemo.leaf 1 10 (Ideal.digest 0) None.
Definition l2 : Leaf2 := DataDemo.leaf 2 11 (leaf2_commit l1) None.
Definition other : Leaf2 := DataDemo.leaf 1 12 (Ideal.digest 0) None.
Definition info (l : Leaf2) : LeafInfo := {| li_leaf := l; li_state := 0 : ValidatedState; li_delta := None; li_vid_share := None |}.
Definition no_txns (h : BlockHeader) : Z := 0.
Definition accept (_ : list (ViewNumber * Z)) : outcome Error unit := Ok tt.
Definition run (second : Leaf2) : ConsistencyTask :=
  foldl handle_event {| consensus_leaves := ∅; ensure_upgrade := false |}
    [(DecideEvent [info l1], 0); (OtherEvent, 1); (DecideEvent [info second], 1); (DecideEvent [info l2], 0)].

Lemma agreeing_run_passes : consistency_check no_txns accept (run l1) = Ok Pass.
Proof. by vm_compute. Qed.

(** The second node reports another leaf in the same view. *)
Lemma disagreeing_run_fails : consistency_check no_txns accept (run other) = Ok (Fail "The network does not agree on view").
Proof. by vm_compute. Qed.
End ConsistencyDemo.

Lemma passing_networks_agree_witness :
  extends (leaf2_commit ConsistencyDemo.l1) (leaf2_commit ConsistencyDemo.l2) ∨
  extends (leaf2_commit ConsistencyDemo.l2) (leaf2_commit ConsistencyDemo.l1).
Proof.
  refine (proj1 (passing_networks_agree ConsistencyDemo.no_txns ConsistencyDemo.accept false
    [(DecideEvent [ConsistencyDemo.info ConsistencyDemo.l1], 0); (OtherEvent, 1);
     (DecideEvent [ConsistencyDemo.info ConsistencyDemo.l1], 1); (DecideEvent [ConsistencyDemo.info ConsistencyDemo.l2], 0)]
    1 0 [ConsistencyDemo.info ConsistencyDemo.l1] [ConsistencyDemo.info ConsistencyDemo.l2]
    (ConsistencyDemo.info ConsistencyDemo.l1) (ConsistencyDemo.info ConsistencyDemo.l2)
    ConsistencyDemo.agreeing_run_passes _ _ _ _ _)).
  - intros i chain inf Hin Hi. rewrite !elem_of_cons, elem_of_nil in Hin.
    destruct Hin as [[= -> ->]|[[=]|[[= -> ->]|[[= -> ->]|[]]]]]; apply list_elem_of_singleton in Hi as ->; exact (ConsDemo.demo_leaf_ok _ _ _ _).
  - right. right. left.
  - left.
  - right. right. right. left.
  - left.
Defined.
