(* ===== verification/OverallSafetyTask.v ===== *)
(** * The overall safety check of the test harness

    [testing/src/overall_safety_task.rs]: a task of the test harness that follows the
    decisions, errors and timeouts of all nodes, gives every view a status, and at the end of
    a test says whether it has passed.

    A [HashMap] whose keys are leaves or payload commitments is an association list, in the
    order in which the map would be iterated.  An event comes with the number of its node;
    the node's key is a parameter, and its epoch at that time is part of the event.
    Arithmetic is that of a build with overflow checks, as tests are. *)

From S2P Require Import Prelude Epochs Crypto Committee Votes Certificates Data Vid Consensus ConsensusProofs Safety ConsistencyTask.

(** ** Counters: [entry], then add one or insert one *)

Section Counter.
Context {A : Type} (same : A → A → bool).

Fixpoint bump (x : A) (m : list (A * nat)) : list (A * nat) :=
  match m with
  | [] => [(x, 1%nat)]
  | (y, n) :: m => if same y x then (y, S n) :: m else (y, n) :: bump x m
  end.

Fixpoint counter_get (x : A) (m : list (A * nat)) : option nat :=
  match m with
  | [] => None
  | (y, n) :: m => if same y x then Some n else counter_get x m
  end.

(** [iter().max_by(count)]: the last of the largest. *)
Definition max_by_count (m : list (A * nat)) : option (A * nat) :=
  foldl (fun best e => match best with Some b => if (e.2 <? b.2)%nat then Some b else Some e | None => Some e end) None m.
End Counter.

Lemma elem_of_bump {A} (same : A → A → bool) x mp y n :
  (y, n) ∈ bump same x mp → (y, n) ∈ mp ∨ (y = x ∧ n = 1%nat) ∨ ∃ k, n = S k ∧ (y, k) ∈ mp ∧ same y x = true.
Proof.
  induction mp as [|[z k] mp IH]; simpl; [intros [= -> ->]%list_elem_of_singleton; auto|].
  destruct (same z x) eqn:Hs; intros [[= -> ->]|H]%elem_of_cons.
  - right. right. exists k. set_solver.
  - set_solver.
  - set_solver.
  - destruct (IH H) as [?|[?|(k' & ? & ? & ?)]]; [set_solver|auto|]. right. right. exists k'. set_solver.
Qed.

Lemma counter_get_elem {A} (same : A → A → bool) x mp n : counter_get same x mp = Some n → ∃ y, (y, n) ∈ mp ∧ same y x = true.
Proof.
  induction mp as [|[z k] mp IH]; simpl; [done|]. destruct (same z x) eqn:Hs; [intros [= ->]; exists z; set_solver|].
  intros (y & ? & ?)%IH. exists y. set_solver.
Qed.

Lemma max_by_count_elem {A} (mp : list (A * nat)) e : max_by_count mp = Some e → e ∈ mp.
Proof.
  unfold max_by_count. assert (∀ best, foldl (fun (best : option (A * nat)) (e : A * nat) => match best with Some b => if (e.2 <? b.2)%nat then Some b else Some e | None => Some e end) best mp = Some e →
    best = Some e ∨ e ∈ mp) as H; [|by intros [|?]%H].
  induction mp as [|x mp IH]; intros best; simpl; [auto|]. intros [H|H]%IH; [|right; by right].
  destruct best as [b|]; [|injection H as ->; right; left]. destruct (x.2 <? b.2)%nat; injection H as ->; [by left|right; left].
Qed.

Section OverallSafety.
Context `{Sg : SignatureScheme} `{Cm : Committable} `{Vt : VidTypes} `{Vs : Versions}.
Context `{Bt : !BlockTypes} `{Vd : !VidScheme}.
Context {M : Type} `{Mb : !Membership M} (membership : M) (epoch_height : Z) (public_key : Z → PubKey).

Inductive HotShotError := ViewTimedOut (view : ViewNumber) | OtherHotShotError (text : string).

Inductive OverallSafetyTaskErr :=
  | MismatchedLeaf
  | InconsistentBlocks
  | InconsistentTxnsNum (map : list (Z * nat))
  | NotEnoughDecides (got expected : nat)
  | TooManyFailures (views : gset ViewNumber)
  | InconsistentFailedViews (expected_failed_views actual_failed_views : gset ViewNumber)
  | NotEnoughRoundResults (results_count views_count : nat)
  | ViewTimeout.

Inductive ViewStatus := StatusOk | StatusFailed | StatusErr (e : OverallSafetyTaskErr) | StatusInProgress.

Record RoundResult := {
  success_nodes : gmap Z (list LeafInfo * QuorumCertificate2);
  failed_nodes : gmap Z HotShotError;
  status : ViewStatus;
  leaf_map : list (Leaf2 * nat);
  block_map : list (VidCommitment * nat);
  num_txns_map : list (Z * nat);
}.

Definition RoundResult_default : RoundResult :=
  {| success_nodes := ∅; failed_nodes := ∅; status := StatusInProgress; leaf_map := []; block_map := []; num_txns_map := [] |}.

Record RoundCtx := {
  round_results : gmap ViewNumber RoundResult;
  failed_views : gset ViewNumber;
  successful_views : gset ViewNumber;
}.
Definition RoundCtx_default : RoundCtx := {| round_results := ∅; failed_views := ∅; successful_views := ∅ |}.

(** Without [threshold_calculator], which nothing calls. *)
Record OverallSafetyProperties := {
  num_successful_views : nat;
  check_leaf : bool;
  check_block : bool;
  transaction_threshold : Z;
  num_failed_views : nat;
  expected_views_to_fail : gmap ViewNumber bool;
}.
Definition OverallSafetyProperties_default : OverallSafetyProperties :=
  {| num_successful_views := 50; check_leaf := false; check_block := true; transaction_threshold := 0; num_failed_views := 0;
     expected_views_to_fail := ∅ |}.

Record OverallSafetyTask := {
  ctx : RoundCtx;
  properties : OverallSafetyProperties;
  error : option OverallSafetyTaskErr;
  (** A [TestEvent::Shutdown] has been sent. *)
  shutdown_sent : bool;
}.

Definition with_status (r : RoundResult) (s : ViewStatus) : RoundResult :=
  {| success_nodes := success_nodes r; failed_nodes := failed_nodes r; status := s; leaf_map := leaf_map r;
     block_map := block_map r; num_txns_map := num_txns_map r |}.
Definition with_results (c : RoundCtx) (m : gmap ViewNumber RoundResult) : RoundCtx :=
  {| round_results := m; failed_views := failed_views c; successful_views := successful_views c |}.
Definition with_views (c : RoundCtx) (failed successful : gset ViewNumber) : RoundCtx :=
  {| round_results := round_results c; failed_views := failed; successful_views := successful |}.
Definition with_ctx (t : OverallSafetyTask) (c : RoundCtx) : OverallSafetyTask :=
  {| ctx := c; properties := properties t; error := error t; shutdown_sent := shutdown_sent t |}.
Definition shut (t : OverallSafetyTask) (e : option OverallSafetyTaskErr) : OverallSafetyTask :=
  {| ctx := ctx t; properties := properties t; error := e; shutdown_sent := true |}.

(** ** A view *)

Definition checked_usize_sub {E} (a b : Z) : outcome E Z := if a <? b then Panic else Ok (a - b).

Definition insert_error_to_context (c : RoundCtx) (view : ViewNumber) (idx : Z) (e : HotShotError) : RoundCtx :=
  let r := default RoundResult_default (round_results c !! view) in
  with_results c (<[view := {| success_nodes := success_nodes r; failed_nodes := <[idx := e]> (failed_nodes r); status := status r;
                               leaf_map := leaf_map r; block_map := block_map r; num_txns_map := num_txns_map r |}]> (round_results c)).

Definition insert_into_result (r : RoundResult) (idx : Z) (chain : list LeafInfo) (qc : QuorumCertificate2)
    (maybe_block_size : option Z) : outcome Error (RoundResult * option Leaf2) :=
  match chain with
  | [] => Ok (r, None)
  | leaf_info :: _ =>
      let leaf := li_leaf leaf_info in
      has ← has_stake membership (public_key idx) (leaf_epoch leaf epoch_height);
      if negb has then Ok (r, None)
      else if decide (is_Some (success_nodes r !! idx)) then Ok (r, None)
      else
        Ok ({| success_nodes := <[idx := (chain, qc)]> (success_nodes r); failed_nodes := failed_nodes r; status := status r;
               leaf_map := bump leaf_eq leaf (leaf_map r);
               block_map := bump (fun a b => bool_decide (a = b)) (payload_commitment leaf) (block_map r);
               num_txns_map := match maybe_block_size with Some n => bump Z.eqb n (num_txns_map r) | None => num_txns_map r end |},
            Some leaf)
  end.

Definition check_if_failed (r : RoundResult) (threshold total_num_nodes : Z) : outcome Error bool :=
  live ← checked_usize_sub total_num_nodes (Z.of_nat (size (failed_nodes r)));
  Ok (live <? threshold).

(** A leaf with a larger view than the one that a quorum has decided. *)
Definition leaves_mismatch (r : RoundResult) (threshold : Z) (check : bool) : outcome Error bool :=
  if check && negb (length (leaf_map r) =? 1)%nat then
    '(quorum_leaf, count) ← unwrap (max_by_count (leaf_map r));
    Ok ((threshold <=? Z.of_nat count) && existsb (fun e => leaf_view quorum_leaf <? leaf_view e.1) (leaf_map r))
  else Ok false.

Definition too_few_transactions (r : RoundResult) (threshold : Z) : option ViewStatus :=
  if 1 <=? threshold then
    if (1 <? length (num_txns_map r))%nat then Some (StatusErr (InconsistentTxnsNum (num_txns_map r)))
    else match last (num_txns_map r) with
         | Some (n_txn, _) => if n_txn <? threshold then Some StatusFailed else None
         | None => None
         end
  else None.

Definition update_status (r : RoundResult) (threshold total_num_nodes : Z) (key : Leaf2) (p : OverallSafetyProperties)
    : outcome Error RoundResult :=
  mismatch ← leaves_mismatch r threshold (check_leaf p);
  if (mismatch : bool) then Ok (with_status r (StatusErr MismatchedLeaf))
  else if check_block p && negb (length (block_map r) =? 1)%nat then Ok (with_status r (StatusErr InconsistentBlocks))
  else
    match too_few_transactions r (transaction_threshold p) with
    | Some s => Ok (with_status r s)
    | None =>
        success ←
          (if threshold <=? Z.of_nat (size (success_nodes r)) then
             blocks ← unwrap (counter_get (fun a b => bool_decide (a = b)) (payload_commitment key) (block_map r));
             if negb (Z.of_nat blocks =? threshold) then Ok false
             else leaves ← unwrap (counter_get leaf_eq key (leaf_map r)); Ok (Z.of_nat leaves =? threshold)
           else Ok false);
        if (success : bool) then Ok (with_status r StatusOk)
        else
          live ← checked_usize_sub total_num_nodes (Z.of_nat (size (failed_nodes r)));
          Ok (if threshold <=? live then r else with_status r StatusFailed)
    end.

(** ** The task *)

Definition handle_view_failure (t : OverallSafetyTask) (view : ViewNumber) : OverallSafetyTask :=
  let c := with_views (ctx t) ({[view]} ∪ failed_views (ctx t)) (successful_views (ctx t)) in
  let p := properties t in
  let t := with_ctx t c in
  if (num_failed_views p <? size (failed_views c))%nat then shut t (Some (TooManyFailures (failed_views c)))
  else if decide (expected_views_to_fail p = ∅) then t
  else
    match expected_views_to_fail p !! view with
    | Some _ =>
        {| ctx := c; error := error t; shutdown_sent := shutdown_sent t;
           properties := {| num_successful_views := num_successful_views p; check_leaf := check_leaf p;
             check_block := check_block p; transaction_threshold := transaction_threshold p;
             num_failed_views := num_failed_views p; expected_views_to_fail := <[view := true]> (expected_views_to_fail p) |} |}
    | None => shut t (Some (InconsistentFailedViews (dom (expected_views_to_fail p)) (failed_views c)))
    end.

(** The leaves of a decide, each with the chain below it and the certificate for it. *)
Fixpoint record_chain (results : gmap ViewNumber RoundResult) (id : Z) (chain : list LeafInfo) (qc : QuorumCertificate2)
    : outcome Error (gmap ViewNumber RoundResult * list Leaf2) :=
  match chain with
  | [] => Ok (results, [])
  | leaf_info :: rest =>
      let leaf := li_leaf leaf_info in
      let txns := remove_dups (match block_payload leaf with
                               | Some payload => transaction_commitments payload (header_metadata (block_header leaf))
                               | None => []
                               end) in
      let maybe_block_size := match txns with [] => None | _ => Some (Z.of_nat (length txns)) end in
      let r := default RoundResult_default (results !! leaf_view leaf) in
      '(r, key) ← insert_into_result r id chain qc maybe_block_size;
      let results :=
        match results !! leaf_view leaf, key with
        | None, None => results
        | _, _ => <[leaf_view leaf := r]> results
        end in
      '(results, keys) ← record_chain results id rest (justify_qc leaf);
      Ok (results, option_list key ++ keys)
  end.

Fixpoint update_keys (t : OverallSafetyTask) (p : OverallSafetyProperties) (keys : list Leaf2) : outcome Error OverallSafetyTask :=
  match keys with
  | [] => Ok t
  | key :: keys =>
      let epoch := leaf_epoch key epoch_height in
      len ← total_nodes membership epoch;
      threshold ← success_threshold membership epoch;
      let view := leaf_view key in
      r ← unwrap (round_results (ctx t) !! view);
      r ← update_status r threshold len key p;
      let t := with_ctx t (with_results (ctx t) (<[view := r]> (round_results (ctx t)))) in
      match status r with
      | StatusOk =>
          let c := with_views (ctx t) (failed_views (ctx t) ∖ {[view]}) ({[view]} ∪ successful_views (ctx t)) in
          let t := with_ctx t c in
          update_keys (if (num_successful_views p <=? size (successful_views c))%nat then shut t (error t) else t) p keys
      | StatusFailed => update_keys (handle_view_failure t view) p keys
      | StatusErr e => Ok (shut t (Some e))
      | StatusInProgress => update_keys t p keys
      end
  end.

Inductive EventType :=
  | ErrorEvent (e : HotShotError)
  | DecideEvent (leaf_chain : list LeafInfo) (qc : QuorumCertificate2)
  | ReplicaViewTimeout (view : ViewNumber)
  | OtherEventType.

Record TestMessage := { tm_view_number : ViewNumber; tm_event : EventType; tm_id : Z; tm_cur_epoch : option EpochNumber }.

(** After an error or a timeout of a node. *)
Definition after_error (t : OverallSafetyTask) (msg : TestMessage) (view : ViewNumber) (e : HotShotError)
    : outcome Error OverallSafetyTask :=
  has ← has_stake membership (public_key (tm_id msg)) (tm_cur_epoch msg);
  if negb has then Ok t
  else
    let t := with_ctx t (insert_error_to_context (ctx t) view (tm_id msg) e) in
    match round_results (ctx t) !! tm_view_number msg with
    | None => Ok t
    | Some r =>
        len ← total_nodes membership (tm_cur_epoch msg);
        threshold ← success_threshold membership (tm_cur_epoch msg);
        failed ← check_if_failed r threshold len;
        Ok (if (failed : bool) then
              handle_view_failure
                (with_ctx t (with_results (ctx t) (<[tm_view_number msg := with_status r StatusFailed]> (round_results (ctx t)))))
                (tm_view_number msg)
            else t)
    end.

Definition overall_handle_event (t : OverallSafetyTask) (msg : TestMessage) : outcome Error OverallSafetyTask :=
  match tm_event msg with
  | ErrorEvent e => after_error t msg (tm_view_number msg) e
  | DecideEvent leaf_chain qc =>
      last_leaf ← unwrap (last leaf_chain);
      if leaf_view (li_leaf last_leaf) =? genesis_view then Ok t
      else
        '(results, keys) ← record_chain (round_results (ctx t)) (tm_id msg) leaf_chain qc;
        update_keys (with_ctx t (with_results (ctx t) results)) (properties t) keys
  | ReplicaViewTimeout view => after_error t msg view (ViewTimedOut view)
  | OtherEventType => Ok t
  end.

Definition overall_check (t : OverallSafetyTask) : option OverallSafetyTaskErr :=
  match error t with
  | Some e => Some e
  | None =>
      let p := properties t in
      let failed := size (failed_views (ctx t)) in
      let successful := size (successful_views (ctx t)) in
      let results_count := size (round_results (ctx t)) in
      if (results_count <? failed + successful)%nat then Some (NotEnoughRoundResults results_count (failed + successful))
      else
        let num_incomplete_views := (results_count - (failed + successful))%nat in
        if (successful <? num_successful_views p)%nat then Some (NotEnoughDecides successful (num_successful_views p))
        else if (num_failed_views p <? failed + num_incomplete_views)%nat then Some (TooManyFailures (failed_views (ctx t)))
        else if negb (forallb snd (map_to_list (expected_views_to_fail p))) then
          Some (InconsistentFailedViews (dom (expected_views_to_fail p)) (failed_views (ctx t)))
        else None
  end.

Fixpoint overall_run (t : OverallSafetyTask) (msgs : list TestMessage) : outcome Error OverallSafetyTask :=
  match msgs with
  | [] => Ok t
  | msg :: msgs => t ← overall_handle_event t msg; overall_run t msgs
  end.

Definition overall_start (p : OverallSafetyProperties) : OverallSafetyTask :=
  {| ctx := RoundCtx_default; properties := p; error := None; shutdown_sent := false |}.
End OverallSafety.

(** ** What the check guarantees *)

Section Guarantees.
Context `{Sg : SignatureScheme} `{Cm : Committable} `{Vt : VidTypes} `{Vs : Versions}.
Context `{Bt : !BlockTypes} `{Vd : !VidScheme}.
Context {M : Type} `{Mb : !Membership M} (membership : M) (epoch_height : Z) (public_key : Z → PubKey).
Implicit Types (r : RoundResult) (v : ViewNumber) (l : Leaf2) (t : OverallSafetyTask) (m : gmap ViewNumber RoundResult).

Definition reports l (e : list LeafInfo * QuorumCertificate2) : Prop :=
  match head e.1 with Some li => leaf_eq l (li_leaf li) = true | None => False end.
#[local] Instance reports_dec l e : Decision (reports l e).
Proof. unfold reports. destruct (head e.1); apply _. Defined.

(** The nodes that have reported a decision of a leaf. *)
Definition reporters r l : gset Z := dom (base.filter (fun x => reports l x.2) (success_nodes r)).

Lemma elem_of_reporters r l id :
  id ∈ reporters r l ↔ ∃ chain qc, success_nodes r !! id = Some (chain, qc) ∧ reports l (chain, qc).
Proof using Type.
  unfold reporters. rewrite elem_of_dom. split.
  - intros [[chain qc] [H1 H2]%map_lookup_filter_Some]. by exists chain, qc.
  - intros (chain & qc & H1 & H2). exists (chain, qc). by apply map_lookup_filter_Some.
Qed.

Lemma reporters_mono r r' l : success_nodes r ⊆ success_nodes r' → (size (reporters r l) <= size (reporters r' l))%nat.
Proof using Type.
  intros Hs. apply subseteq_size. intros id (chain & qc & H & Hr)%elem_of_reporters. apply elem_of_reporters.
  exists chain, qc. split; [by eapply lookup_weaken|done].
Qed.

Lemma reporters_same r l l' : leaf_eq l l' = true → (size (reporters r l) <= size (reporters r l'))%nat.
Proof using Type.
  intros Heq. apply subseteq_size. intros id (chain & qc & H & Hr)%elem_of_reporters. apply elem_of_reporters.
  exists chain, qc. split; [done|]. unfold reports in *. destruct (head _); [|done].
  rewrite leaf_eq_iff in *. congruence.
Qed.

(** As many nodes as the threshold of the leaf's epoch have decided one leaf of the view. *)
Definition quorate v r : Prop :=
  ∃ l thr, leaf_view l = v ∧ success_threshold membership (leaf_epoch l epoch_height) = Ok thr ∧
    thr <= Z.of_nat (size (reporters r l)).

Record round_ok v r : Prop := {
  ro_leaves l n : (l, n) ∈ leaf_map r → leaf_view l = v ∧ (n <= size (reporters r l))%nat;
  ro_stake id chain qc : success_nodes r !! id = Some (chain, qc) →
    ∃ li rest, chain = li :: rest ∧ leaf_view (li_leaf li) = v ∧
      has_stake membership (public_key id) (leaf_epoch (li_leaf li) epoch_height) = Ok true;
  ro_status : status r ≠ StatusErr MismatchedLeaf;
  ro_quorate : status r = StatusOk → quorate v r;
}.
Definition results_ok m : Prop := ∀ v r, m !! v = Some r → round_ok v r.
Definition results_le m m' : Prop := ∀ v r, m !! v = Some r → ∃ r', m' !! v = Some r' ∧ success_nodes r ⊆ success_nodes r'.

Lemma quorate_mono v r r' : success_nodes r ⊆ success_nodes r' → quorate v r → quorate v r'.
Proof using Type. intros Hs (l & thr & ? & ? & ?). exists l, thr. pose proof (reporters_mono _ _ l Hs). split_and!; [done..|lia]. Qed.

Lemma round_ok_default v : round_ok v RoundResult_default.
Proof using Type. split; simpl; try done; intros *; first [by intros ?%elem_of_nil|by rewrite lookup_empty]. Qed.

Lemma round_ok_status v r st :
  round_ok v r → st ≠ StatusErr MismatchedLeaf → (st = StatusOk → quorate v r) → round_ok v (with_status r st).
Proof using Type. intros [] Hst Hq. by split. Qed.

Lemma results_le_refl m : results_le m m.
Proof using Type. intros v r H. by exists r. Qed.
Lemma results_le_trans m1 m2 m3 : results_le m1 m2 → results_le m2 m3 → results_le m1 m3.
Proof using Type.
  intros H1 H2 v r H. destruct (H1 _ _ H) as (r2 & H' & ?). destruct (H2 _ _ H') as (r3 & ? & ?).
  exists r3. split; [done|]. by etrans.
Qed.
Lemma results_le_insert m v r' :
  (∀ r, m !! v = Some r → success_nodes r ⊆ success_nodes r') → results_le m (<[v := r']> m).
Proof using Type.
  intros Hr v' r H. destruct (decide (v' = v)) as [->|?]; [exists r'; rewrite lookup_insert_eq; auto|].
  exists r. by rewrite lookup_insert_ne.
Qed.
Lemma results_ok_insert m v r : results_ok m → round_ok v r → results_ok (<[v := r]> m).
Proof using Type. intros Hm Hr v' r'. destruct (decide (v' = v)) as [->|?]; [rewrite lookup_insert_eq; by intros [= <-]|rewrite lookup_insert_ne by done; apply Hm]. Qed.
Lemma results_ok_default m v : results_ok m → round_ok v (default RoundResult_default (m !! v)).
Proof using Type. intros Hm. destruct (m !! v) eqn:H; [by apply Hm|apply round_ok_default]. Qed.

Lemma insert_into_result_ok v r idx chain qc size_ r' key :
  round_ok v r → (∀ li, head chain = Some li → leaf_view (li_leaf li) = v) →
  insert_into_result membership epoch_height public_key r idx chain qc size_ = Ok (r', key) →
  round_ok v r' ∧ success_nodes r ⊆ success_nodes r'.
Proof using Type.
  intros Hok Hv. destruct chain as [|li rest]; simpl; [intros [= <- _]; auto|]. specialize (Hv _ eq_refl).
  intros (has & Hhas & H)%bind_ok_inv. destruct has; simpl in H; [|injection H as <- _; auto].
  case_decide as Hin; [injection H as <- _; auto|]. apply eq_None_not_Some in Hin.
  assert (success_nodes r' = <[idx := (li :: rest, qc)]> (success_nodes r) ∧ leaf_map r' = bump leaf_eq (li_leaf li) (leaf_map r) ∧
    status r' = status r) as (Hsn & Hlm & Hst') by by injection H as <- _. clear H.
  assert (success_nodes r ⊆ success_nodes r') as Hsub by (rewrite Hsn; by apply insert_subseteq).
  split; [|exact Hsub]. destruct Hok as [Hl Hs Hst Hq].
  assert (∀ l, leaf_eq l (li_leaf li) = true → {[idx]} ∪ reporters r l ⊆ reporters r' l) as Hnew.
  { intros l Heq id [->%elem_of_singleton|(c & q & Hid & Hr)%elem_of_reporters]%elem_of_union; apply elem_of_reporters.
    - exists (li :: rest), qc. by rewrite Hsn, lookup_insert_eq.
    - exists c, q. split; [by eapply lookup_weaken|done]. }
  assert (∀ l, size ({[idx]} ∪ reporters r l) = S (size (reporters r l))) as Hsz.
  { intros l. rewrite size_union, size_singleton; [done|]. intros id ->%elem_of_singleton (? & ? & Hid & _)%elem_of_reporters. congruence. }
  split.
  - rewrite Hlm. intros l n [H|[[-> ->]|(k & -> & H & Heq)]]%elem_of_bump.
    + destruct (Hl _ _ H). split; [done|]. pose proof (reporters_mono _ _ l Hsub). lia.
    + split; [done|]. pose proof (subseteq_size _ _ (Hnew _ (leaf_eq_refl _))). rewrite Hsz in *. lia.
    + destruct (Hl _ _ H) as [? Hk]. split; [done|]. pose proof (subseteq_size _ _ (Hnew _ Heq)). rewrite Hsz in *. lia.
  - rewrite Hsn. intros id c q. destruct (decide (id = idx)) as [->|?]; [|rewrite lookup_insert_ne by done; apply Hs].
    rewrite lookup_insert_eq. intros [= <- <-]. by exists li, rest.
  - by rewrite Hst'.
  - rewrite Hst'. intros Ho. eapply quorate_mono; [done|by apply Hq].
Qed.

Lemma record_chain_ok m id chain qc m' keys :
  results_ok m → record_chain membership epoch_height public_key m id chain qc = Ok (m', keys) → results_ok m' ∧ results_le m m'.
Proof using Type.
  revert m qc m' keys. induction chain as [|li rest IH]; intros m qc m' keys Hm; cbn [record_chain].
  { intros [= <- _]. split; [done|apply results_le_refl]. }
  intros ([r key] & Hi & H)%bind_ok_inv. apply bind_ok_inv in H as ([m2 keys2] & Hc & Heq). apply Ok_inj in Heq. injection Heq as <- _.
  apply (insert_into_result_ok (leaf_view (li_leaf li))) in Hi as [Hr Hsub]; [|by apply results_ok_default|by intros ? [= <-]].
  apply IH in Hc as [Hm2 Hle]; [split; [done|]; eapply results_le_trans; [|done]|].
  - destruct (m !! leaf_view (li_leaf li)) eqn:Hl; [|destruct key; [|apply results_le_refl]];
      apply results_le_insert; rewrite Hl; intros ? [=]; subst; done.
  - destruct (m !! leaf_view (li_leaf li)); [|destruct key; [|done]]; by apply results_ok_insert.
Qed.

(** All leaves of a round are of its view: none is newer than another. *)
Lemma leaves_never_mismatch v r threshold check b : round_ok v r → leaves_mismatch r threshold check = Ok b → b = false.
Proof using Type.
  intros [Hl _ _ _]. unfold leaves_mismatch. destruct (check && _); [|by intros [= <-]].
  intros ([ql count] & Hm & Heq)%bind_ok_inv. apply Ok_inj in Heq. subst b. unfold unwrap in Hm.
  destruct (max_by_count (leaf_map r)) as [e|] eqn:He; [|done]. injection Hm as ->. apply max_by_count_elem in He.
  apply andb_false_iff. right. apply not_true_iff_false. intros (x & Hx & Hlt)%existsb_exists. apply Z.ltb_lt in Hlt.
  destruct x as [l n]. apply list_elem_of_In in Hx. destruct (Hl _ _ Hx), (Hl _ _ He). simpl in *. lia.
Qed.

Lemma update_status_ok v r thr len key p r' :
  round_ok v r → leaf_view key = v → success_threshold membership (leaf_epoch key epoch_height) = Ok thr →
  update_status r thr len key p = Ok r' → round_ok v r' ∧ success_nodes r' = success_nodes r.
Proof using Type.
  intros Hok Hv Hthr. unfold update_status. intros (mm & Hmm & H)%bind_ok_inv.
  apply (leaves_never_mismatch v) in Hmm as ->; [|done]. simpl in H.
  destruct (check_block p && _); [injection H as <-; split; [by apply round_ok_status|done]|].
  destruct (too_few_transactions r (transaction_threshold p)) as [st|] eqn:Ht.
  { injection H as <-. split; [|done]. unfold too_few_transactions in Ht. repeat (case_match; try done); injection Ht as <-; by apply round_ok_status. }
  apply bind_ok_inv in H as (success & Hs & H). destruct success.
  - injection H as <-. split; [|done]. apply round_ok_status; [done|done|]. intros _.
    destruct (thr <=? _); [|done]. apply bind_ok_inv in Hs as (blocks & _ & Hs). destruct (negb _); [done|].
    apply bind_ok_inv in Hs as (leaves & Hg & Heq). unfold unwrap in Hg. destruct (counter_get _ _ _) as [n|] eqn:Hn; [|done].
    injection Hg as ->. injection Heq as Heq. apply Z.eqb_eq in Heq. apply counter_get_elem in Hn as (l & Hin & Hl).
    destruct Hok as [Hlm _ _ _]. destruct (Hlm _ _ Hin) as [_ Hle]. pose proof (reporters_same r _ _ Hl).
    exists key, thr. split_and!; [done..|lia].
  - apply bind_ok_inv in H as (live & _ & H). apply Ok_inj in H. subst r'. destruct (thr <=? live); [done|].
    split; [by apply round_ok_status|done].
Qed.

Definition views_ok (c : RoundCtx) : Prop :=
  ∀ v, v ∈ successful_views c → ∃ r, round_results c !! v = Some r ∧ quorate v r.

Record task_ok (p : OverallSafetyProperties) t : Prop := {
  to_results : results_ok (round_results (ctx t));
  to_views : views_ok (ctx t);
  to_error : error t ≠ Some MismatchedLeaf;
  to_wanted : num_successful_views (properties t) = num_successful_views p;
}.

Lemma views_ok_le c m : views_ok c → results_le (round_results c) m → views_ok (with_results c m).
Proof using Type.
  intros Hc Hm v Hv. destruct (Hc v Hv) as (r & Hr & Hq). destruct (Hm _ _ Hr) as (r' & Hr' & Hs).
  exists r'. split; [done|]. by eapply quorate_mono.
Qed.

Lemma task_ok_results p t m :
  task_ok p t → results_ok m → results_le (round_results (ctx t)) m → task_ok p (with_ctx t (with_results (ctx t) m)).
Proof using Type. intros [] Hm Hle. split; try done. by apply views_ok_le. Qed.

Lemma task_ok_shut p t e : task_ok p t → e ≠ Some MismatchedLeaf → task_ok p (shut t e).
Proof using Type. intros [] He. by split. Qed.

Lemma task_ok_failure p t v : task_ok p t → task_ok p (handle_view_failure t v).
Proof using Type.
  intros []. unfold handle_view_failure. repeat case_match; by split.
Qed.

Lemma update_keys_ok p0 p t keys t' :
  task_ok p0 t → update_keys membership epoch_height t p keys = Ok t' → task_ok p0 t'.
Proof using Type.
  revert t. induction keys as [|key keys IH]; intros t Hok; cbn [update_keys]; [by intros [= <-]|].
  intros (len & _ & H)%bind_ok_inv. apply bind_ok_inv in H as (thr & Hthr & H). apply bind_ok_inv in H as (r & Hr & H).
  apply bind_ok_inv in H as (r' & Hu & H). unfold unwrap in Hr. destruct (round_results (ctx t) !! leaf_view key) as [r0|] eqn:Hl; [|done].
  injection Hr as ->. pose proof (to_results _ _ Hok _ _ Hl) as Hr.
  destruct (update_status_ok _ _ _ _ _ _ _ Hr eq_refl Hthr Hu) as [Hr' Hs].
  set (m := <[leaf_view key := r']> (round_results (ctx t))) in *.
  assert (task_ok p0 (with_ctx t (with_results (ctx t) m))) as Ht.
  { apply task_ok_results; [done|apply results_ok_insert; [apply Hok|done]|]. apply results_le_insert. intros r1 Hr1.
    rewrite Hl in Hr1. injection Hr1 as <-. by rewrite Hs. }
  destruct (status r') as [| |e|] eqn:Hst.
  - apply IH in H; [done|]. assert (task_ok p0 (with_ctx (with_ctx t (with_results (ctx t) m))
      (with_views (with_results (ctx t) m) (failed_views (ctx t) ∖ {[leaf_view key]}) ({[leaf_view key]} ∪ successful_views (ctx t))))) as Ht'.
    { destruct Ht as [? Hviews ? ?]. split; try done. intros v Hv. simpl in Hv. apply elem_of_union in Hv as [->%elem_of_singleton|Hv]; [|by apply Hviews].
      exists r'. simpl. unfold m. rewrite lookup_insert_eq. split; [done|]. by apply Hr'. }
    case_match; [|done]. apply task_ok_shut; [done|]. by destruct Ht'.
  - eapply IH; [|done]. by apply task_ok_failure.
  - injection H as <-. apply task_ok_shut; [done|]. intros [= ->]. by destruct Hr'.
  - by eapply IH.
Qed.

Lemma after_error_ok p t msg v e t' :
  task_ok p t → after_error membership public_key t msg v e = Ok t' → task_ok p t'.
Proof using Type.
  intros Hok. unfold after_error. intros (has & _ & H)%bind_ok_inv. destruct has; simpl in H; [|by injection H as <-].
  assert (task_ok p (with_ctx t (insert_error_to_context (ctx t) v (tm_id msg) e))) as Ht.
  { apply task_ok_results; [done| |].
    - apply results_ok_insert; [apply Hok|]. destruct (results_ok_default _ v (to_results _ _ Hok)). by split.
    - apply results_le_insert. intros r Hr. by rewrite Hr. }
  unfold insert_error_to_context in Ht, H. simpl in Ht, H. set (m := <[v := _]> _) in *.
  destruct (m !! tm_view_number msg) as [r|] eqn:Hr; [|by injection H as <-].
  apply bind_ok_inv in H as (len & _ & H). apply bind_ok_inv in H as (thr & _ & H). apply bind_ok_inv in H as (failed & _ & H).
  apply Ok_inj in H. subst t'. destruct failed; [|done]. apply task_ok_failure.
  apply (task_ok_results p (with_ctx t (with_results (ctx t) m))); [done| |].
  - apply results_ok_insert; [apply Ht|]. apply round_ok_status; [by apply (to_results _ _ Ht)|done|done].
  - apply results_le_insert. simpl. intros r1. rewrite Hr. by intros [= <-].
Qed.

Lemma overall_handle_event_ok p t msg t' :
  task_ok p t → overall_handle_event membership epoch_height public_key t msg = Ok t' → task_ok p t'.
Proof using Type.
  intros Hok. unfold overall_handle_event. destruct (tm_event msg) as [e|chain qc|v|]; [by apply after_error_ok| |by apply after_error_ok|by intros [= <-]].
  intros (ll & _ & H)%bind_ok_inv. destruct (_ =? _); [by injection H as <-|].
  apply bind_ok_inv in H as ([m keys] & Hc & H). apply record_chain_ok in Hc as [Hm Hle]; [|apply Hok].
  eapply update_keys_ok; [|done]. by apply task_ok_results.
Qed.

Lemma overall_run_ok p msgs t t' :
  task_ok p t → overall_run membership epoch_height public_key t msgs = Ok t' → task_ok p t'.
Proof using Type.
  revert t. induction msgs as [|msg msgs IH]; intros t Hok; simpl; [by intros [= <-]|].
  intros (t1 & Hh & H)%bind_ok_inv. eapply IH; [|done]. by eapply overall_handle_event_ok.
Qed.

Lemma overall_start_ok p : task_ok p (overall_start p).
Proof using Type. by split. Qed.

(** When the check passes, enough views were successful, and in each of them as many nodes as
    the threshold of the epoch asks for, all with stake in it, have reported the decision of
    one and the same leaf of that view. *)
Theorem passing_tests_decide p msgs t :
  overall_run membership epoch_height public_key (overall_start p) msgs = Ok t → overall_check t = None →
  (num_successful_views p <= size (successful_views (ctx t)))%nat ∧
  ∀ v, v ∈ successful_views (ctx t) → ∃ l thr (ids : gset Z) r,
    leaf_view l = v ∧ success_threshold membership (leaf_epoch l epoch_height) = Ok thr ∧ thr <= Z.of_nat (size ids) ∧
    round_results (ctx t) !! v = Some r ∧
    ∀ id, id ∈ ids → has_stake membership (public_key id) (leaf_epoch l epoch_height) = Ok true ∧
      ∃ li rest qc, success_nodes r !! id = Some (li :: rest, qc) ∧ leaf_eq l (li_leaf li) = true.
Proof using Type.
  intros Hrun Hcheck. apply (overall_run_ok p) in Hrun as [Hres Hviews Herr Hwant]; [|apply overall_start_ok]. split.
  - unfold overall_check in Hcheck. destruct (error t); [done|]. rewrite Hwant in Hcheck.
    destruct (size (round_results (ctx t)) <? _)%nat; [done|].
    destruct (Nat.ltb_spec (size (successful_views (ctx t))) (num_successful_views p)); [done|lia].
  - intros v Hv. destruct (Hviews v Hv) as (r & Hr & l & thr & Hl & Hthr & Hle).
    exists l, thr, (reporters r l), r. split_and!; [done..|]. intros id (chain & qc & Hid & Hrep)%elem_of_reporters.
    destruct (ro_stake _ _ (Hres _ _ Hr) _ _ _ Hid) as (li & rest & -> & _ & Hst). unfold reports in Hrep. simpl in Hrep.
    split; [|by exists li, rest, qc]. apply leaf_eq_iff in Hrep.
    apply (f_equal (fun x => leaf_epoch x epoch_height)) in Hrep.
    change (leaf_epoch l epoch_height = leaf_epoch (li_leaf li) epoch_height) in Hrep. by rewrite Hrep.
Qed.

(** The check of leaves finds nothing: whatever nodes report, no test fails with
    [MismatchedLeaf].  Two different leaves of a view are only found if their payloads differ,
    by the check of blocks. *)
Theorem leaf_check_finds_nothing p msgs t :
  overall_run membership epoch_height public_key (overall_start p) msgs = Ok t → overall_check t ≠ Some MismatchedLeaf.
Proof using Type.
  intros Hrun. apply (overall_run_ok p) in Hrun as [_ _ Herr _]; [|apply overall_start_ok].
  unfold overall_check. destruct (error t); [done|]. repeat case_match; done.
Qed.
End Guarantees.
