(* ===== verification/ViewSync.v ===== *)
(** * View synchronization

    [task-impls/src/view_sync.rs].  The main task counts timeouts and keeps one
    replica task for each view that is being synchronized, and the vote
    collectors for which this node is the relay.  A replica moves through the
    phases of the protocol on certificates and, when a phase times out, asks the
    next relay.

    [timeout_task] holds the event that a replica's sleeping timeout task will
    broadcast; aborting the task is clearing it.  The membership, the keys and the
    upgrade lock are shared and do not change while an event is handled. *)

From S2P Require Import Prelude Epochs Crypto Committee Votes Certificates VoteAccumulator VoteCollection Task.

Section ViewSync.
Context `{Sg : SignatureScheme} `{Cm : Committable} `{Vt : VidTypes} `{Vs : Versions}.
Context {M : Type} `{Mb : !Membership M}.

Inductive ViewSyncPhase := PhaseNone | PhasePreCommit | PhaseCommit | PhaseFinalize.

Record ViewSyncConfig := {
  vs_public_key : PubKey;
  vs_private_key : PrivKey;
  vs_membership : M;
  vs_upgrade_lock : UpgradeLock;
  vs_id : Z;
}.
Context (cfg : ViewSyncConfig).

(** The events the task handles, and those it broadcasts. *)
Inductive ViewSyncInput :=
  | ViewSyncPreCommitCertificateRecv (c : ViewSyncPreCommitCertificate2)
  | ViewSyncCommitCertificateRecv (c : ViewSyncCommitCertificate2)
  | ViewSyncFinalizeCertificateRecv (c : ViewSyncFinalizeCertificate2)
  | ViewSyncTrigger (view : ViewNumber)
  | ViewSyncTimeout (view : ViewNumber) (relay : Z) (last_seen_certificate : ViewSyncPhase)
  | ViewSyncVoteRecv (e : HotShotEvent)
  | VsViewChange (view : ViewNumber) (epoch : option EpochNumber)
  | VsTimeout (view : ViewNumber).

Inductive ViewSyncEvent :=
  | ViewSyncPreCommitVoteSend (v : SimpleVote ViewSyncPreCommitData2)
  | ViewSyncCommitVoteSend (v : SimpleVote ViewSyncCommitData2)
  | ViewSyncFinalizeVoteSend (v : SimpleVote ViewSyncFinalizeData2)
  | VsViewChangeSend (view : ViewNumber) (epoch : option EpochNumber)
  | VsCertificateSend (e : HotShotEvent).

(** ** The replica *)

Record ViewSyncReplicaTaskState := {
  r_cur_view : ViewNumber;
  r_next_view : ViewNumber;
  r_cur_epoch : option EpochNumber;
  r_relay : Z;
  r_finalized : bool;
  r_sent_view_change_event : bool;
  r_timeout_task : option (ViewNumber * Z * ViewSyncPhase);
}.

Definition set_r_relay (s : ViewSyncReplicaTaskState) (relay : Z) : ViewSyncReplicaTaskState :=
  {| r_cur_view := r_cur_view s; r_next_view := r_next_view s; r_cur_epoch := r_cur_epoch s;
     r_relay := relay; r_finalized := r_finalized s;
     r_sent_view_change_event := r_sent_view_change_event s; r_timeout_task := r_timeout_task s |}.
Definition set_r_timeout_task (s : ViewSyncReplicaTaskState) (t : option (ViewNumber * Z * ViewSyncPhase))
    : ViewSyncReplicaTaskState :=
  {| r_cur_view := r_cur_view s; r_next_view := r_next_view s; r_cur_epoch := r_cur_epoch s;
     r_relay := r_relay s; r_finalized := r_finalized s;
     r_sent_view_change_event := r_sent_view_change_event s; r_timeout_task := t |}.

Abbreviation replica := (task ViewSyncReplicaTaskState ViewSyncEvent Error).

(** What a handler of certificates does after its tests: return (whether the
    task has completed), or go on. *)
Inductive cert_check := Return (completed : bool) | GoOn.

Definition check_certificate {D : Type} `{!Voteable D} {TH : Threshold} (certificate : SimpleCertificate D TH)
    (cert_relay : Z) (threshold : M → option EpochNumber → outcome Error Z) : replica cert_check :=
  s ← get;
  if view_number certificate <? r_next_view s then mret (Return false)
  else
    membership_stake_table ← lift (stake_table (vs_membership cfg) (r_cur_epoch s));
    membership_threshold ← lift (threshold (vs_membership cfg) (r_cur_epoch s));
    match is_valid_cert certificate membership_stake_table membership_threshold (vs_upgrade_lock cfg) with
    | Panic => lift Panic
    | Err _ => mret (Return false)
    | Ok _ =>
        if r_next_view s <? view_number certificate then mret (Return true)
        else
          _ ← (if r_relay s <? cert_relay then modify (fun s => set_r_relay s cert_relay) else mret tt);
          mret GoOn
    end.

(** [timeout_task.take()] and [abort] *)
Definition abort_timeout : replica unit := modify (fun s => set_r_timeout_task s None).

(** [self.timeout_task = Some(spawn(..))].  Dropping the handle of an earlier timeout does
    not abort it: the runs below keep it among the timeouts that may still expire. *)
Definition spawn_timeout (phase : ViewSyncPhase) : replica unit :=
  modify (fun s => set_r_timeout_task s (Some (r_next_view s, r_relay s, phase))).

Definition sign_vote {D : Type} `{!Voteable D} (d : D) (view : ViewNumber) : outcome Error (SimpleVote D) :=
  create_signed_vote d view (vs_public_key cfg) (vs_private_key cfg) (vs_upgrade_lock cfg).

Definition on_pre_commit_certificate (certificate : ViewSyncPreCommitCertificate2) : replica bool :=
  check ← check_certificate certificate (vsp2_relay (data certificate)) failure_threshold;
  match check with
  | Return completed => mret completed
  | GoOn =>
      s ← get;
      match sign_vote {| vsc2_relay := vsp2_relay (data certificate); vsc2_round := r_next_view s;
                         vsc2_epoch := vsp2_epoch (data certificate) |} (r_next_view s) with
      | Panic => lift Panic
      | Err _ => mret false
      | Ok vote =>
          _ ← emit (ViewSyncCommitVoteSend vote);
          _ ← abort_timeout;
          _ ← spawn_timeout PhasePreCommit;
          mret false
      end
  end.

Definition on_commit_certificate (certificate : ViewSyncCommitCertificate2) : replica bool :=
  check ← check_certificate certificate (vsc2_relay (data certificate)) success_threshold;
  match check with
  | Return completed => mret completed
  | GoOn =>
      s ← get;
      match sign_vote {| vsf2_relay := vsc2_relay (data certificate); vsf2_round := r_next_view s;
                         vsf2_epoch := vsc2_epoch (data certificate) |} (r_next_view s) with
      | Panic => lift Panic
      | Err _ => mret false
      | Ok vote =>
          _ ← emit (ViewSyncFinalizeVoteSend vote);
          _ ← emit (VsViewChangeSend (r_next_view s) (r_cur_epoch s));
          _ ← abort_timeout;
          _ ← spawn_timeout PhaseCommit;
          mret false
      end
  end.

Definition on_finalize_certificate (certificate : ViewSyncFinalizeCertificate2) : replica bool :=
  check ← check_certificate certificate (vsf2_relay (data certificate)) success_threshold;
  match check with
  | Return completed => mret completed
  | GoOn =>
      _ ← abort_timeout;
      s ← get;
      _ ← emit (VsViewChangeSend (r_next_view s) (r_cur_epoch s));
      mret true
  end.

Definition on_trigger (view_number : ViewNumber) : replica bool :=
  s ← get;
  if negb (r_next_view s =? view_number) then mret false
  else
    match sign_vote {| vsp2_relay := 0; vsp2_round := view_number; vsp2_epoch := r_cur_epoch s |} view_number with
    | Panic => lift Panic
    | Err _ => mret false
    | Ok vote =>
        _ ← emit (ViewSyncPreCommitVoteSend vote);
        _ ← spawn_timeout PhaseNone;
        mret false
    end.

Definition on_timeout (round : ViewNumber) (relay : Z) (last_seen_certificate : ViewSyncPhase) : replica bool :=
  s ← get;
  if (round =? r_next_view s) && (relay =? r_relay s) then
    _ ← abort_timeout;
    _ ← modify (fun s => set_r_relay s (u64_add (r_relay s) 1));
    match last_seen_certificate with
    | PhaseFinalize => lift Panic
    | _ =>
        s ← get;
        match sign_vote {| vsp2_relay := r_relay s; vsp2_round := r_next_view s; vsp2_epoch := r_cur_epoch s |}
                (r_next_view s) with
        | Panic => lift Panic
        | Err _ => mret false
        | Ok vote =>
            _ ← emit (ViewSyncPreCommitVoteSend vote);
            _ ← spawn_timeout last_seen_certificate;
            mret false
        end
    end
  else mret false.

(** [true]: [Some(HotShotTaskCompleted)] *)
Definition replica_handle (event : ViewSyncInput) : replica bool :=
  match event with
  | ViewSyncPreCommitCertificateRecv certificate => on_pre_commit_certificate certificate
  | ViewSyncCommitCertificateRecv certificate => on_commit_certificate certificate
  | ViewSyncFinalizeCertificateRecv certificate => on_finalize_certificate certificate
  | ViewSyncTrigger view_number => on_trigger view_number
  | ViewSyncTimeout round relay last_seen_certificate => on_timeout round relay last_seen_certificate
  | _ => mret false
  end.

(** ** The main task *)

(** A collector for each relay of a view. *)
Abbreviation RelayMap := (gmap ViewNumber (gmap Z VoteCollectionTaskState)).

Record ViewSyncTaskState := {
  vs_cur_view : ViewNumber;
  vs_next_view : ViewNumber;
  vs_cur_epoch : option EpochNumber;
  num_timeouts_tracked : Z;
  replica_task_map : gmap ViewNumber ViewSyncReplicaTaskState;
  pre_commit_relay_map : RelayMap;
  commit_relay_map : RelayMap;
  finalize_relay_map : RelayMap;
  last_garbage_collected_view : ViewNumber;
}.

Abbreviation syncer := (task ViewSyncTaskState ViewSyncEvent Error).

Definition set_replica_task_map (s : ViewSyncTaskState) (m : gmap ViewNumber ViewSyncReplicaTaskState)
    : ViewSyncTaskState :=
  {| vs_cur_view := vs_cur_view s; vs_next_view := vs_next_view s; vs_cur_epoch := vs_cur_epoch s;
     num_timeouts_tracked := num_timeouts_tracked s; replica_task_map := m;
     pre_commit_relay_map := pre_commit_relay_map s; commit_relay_map := commit_relay_map s;
     finalize_relay_map := finalize_relay_map s;
     last_garbage_collected_view := last_garbage_collected_view s |}.
Definition set_pre_commit_relay_map (s : ViewSyncTaskState) (m : RelayMap) : ViewSyncTaskState :=
  {| vs_cur_view := vs_cur_view s; vs_next_view := vs_next_view s; vs_cur_epoch := vs_cur_epoch s;
     num_timeouts_tracked := num_timeouts_tracked s; replica_task_map := replica_task_map s;
     pre_commit_relay_map := m; commit_relay_map := commit_relay_map s;
     finalize_relay_map := finalize_relay_map s;
     last_garbage_collected_view := last_garbage_collected_view s |}.
Definition set_commit_relay_map (s : ViewSyncTaskState) (m : RelayMap) : ViewSyncTaskState :=
  {| vs_cur_view := vs_cur_view s; vs_next_view := vs_next_view s; vs_cur_epoch := vs_cur_epoch s;
     num_timeouts_tracked := num_timeouts_tracked s; replica_task_map := replica_task_map s;
     pre_commit_relay_map := pre_commit_relay_map s; commit_relay_map := m;
     finalize_relay_map := finalize_relay_map s;
     last_garbage_collected_view := last_garbage_collected_view s |}.
Definition set_finalize_relay_map (s : ViewSyncTaskState) (m : RelayMap) : ViewSyncTaskState :=
  {| vs_cur_view := vs_cur_view s; vs_next_view := vs_next_view s; vs_cur_epoch := vs_cur_epoch s;
     num_timeouts_tracked := num_timeouts_tracked s; replica_task_map := replica_task_map s;
     pre_commit_relay_map := pre_commit_relay_map s; commit_relay_map := commit_relay_map s;
     finalize_relay_map := m; last_garbage_collected_view := last_garbage_collected_view s |}.

(** Run a replica's handler and keep or drop the replica. *)
Definition run_replica (view : ViewNumber) (r : ViewSyncReplicaTaskState) (event : ViewSyncInput)
    : syncer unit := fun s =>
  let '(result, r', ev) := replica_handle event r in
  match result with
  | Ok completed =>
      let m := if completed : bool then delete view (replica_task_map s)
               else <[view := r']> (replica_task_map s) in
      (Ok tt, set_replica_task_map s m, ev)
  | Err e => (Err e, s, ev)
  | Panic => (Panic, s, ev)
  end.

Definition new_replica (s : ViewSyncTaskState) (view : ViewNumber) : ViewSyncReplicaTaskState :=
  {| r_cur_view := view; r_next_view := view; r_cur_epoch := vs_cur_epoch s; r_relay := 0;
     r_finalized := false; r_sent_view_change_event := false; r_timeout_task := None |}.

Definition send_to_or_create_replica (event : ViewSyncInput) (view : ViewNumber) : syncer unit :=
  s ← get;
  if view <? vs_cur_view s then mret tt
  else run_replica view (default (new_replica s view) (replica_task_map s !! view)) event.

(** A vote for this node as relay.  [strict]: an error of a new collector is
    returned; otherwise it is dropped. *)
Definition relay_vote {D : Type} `{!Voteable D} `{!CertData D} (TH : Threshold)
    `{!AggregatableVote (M := M) D TH} `{!HandleVoteEvent D}
    (map_of : ViewSyncTaskState → RelayMap) (set_map : ViewSyncTaskState → RelayMap → ViewSyncTaskState)
    (event : HotShotEvent) (vote_view : ViewNumber) (relay : Z) (epoch : option EpochNumber) (strict : bool)
    : syncer unit :=
  _ ← modify (fun s => set_map s (<[vote_view := default ∅ (map_of s !! vote_view)]> (map_of s)));
  s ← get;
  let relay_map := default ∅ (map_of s !! vote_view) in
  match relay_map !! relay with
  | Some relay_task =>
      '(relay_task, events, cert) ←
        lift (handle_vote_event (D := D) (TH := TH) (vs_upgrade_lock cfg) (vs_membership cfg) relay_task event);
      _ ← modify (fun s => set_map s (<[vote_view := <[relay := relay_task]> relay_map]> (map_of s)));
      _ ← (fun s => (Ok tt, s, map VsCertificateSend events) : outcome Error unit * _ * _);
      if bool_decide (is_Some cert) then modify (fun s => set_map s (delete vote_view (map_of s)))
      else mret tt
  | None =>
      leader ← lift (leader (vs_membership cfg) (wrapper_add vote_view relay) (vs_cur_epoch s));
      _ ← require (bool_decide (leader = vs_public_key cfg)) "View sync vote sent to wrong leader";
      match create_vote_accumulator (D := D) (TH := TH) (vs_upgrade_lock cfg) (vs_membership cfg)
              (vs_public_key cfg) vote_view epoch (vs_id cfg) event NotInTransition with
      | Panic => lift Panic
      | Err e => if strict then lift (Err e) else mret tt
      | Ok (vote_collector, events) =>
          _ ← (fun s => (Ok tt, s, map VsCertificateSend events) : outcome Error unit * _ * _);
          modify (fun s => set_map s (<[vote_view := <[relay := vote_collector]> relay_map]> (map_of s)))
      end
  end.

Definition on_vote (event : HotShotEvent) : syncer unit :=
  match event with
  | ViewSyncPreCommitVoteRecv vote =>
      relay_vote (D := ViewSyncPreCommitData2) OneHonestThreshold pre_commit_relay_map set_pre_commit_relay_map event
        (vote_view vote) (vsp2_relay (date vote)) (vsp2_epoch (vote_data vote)) true
  | ViewSyncCommitVoteRecv vote =>
      relay_vote (D := ViewSyncCommitData2) SuccessThreshold commit_relay_map set_commit_relay_map event
        (vote_view vote) (vsc2_relay (date vote)) (vsc2_epoch (vote_data vote)) true
  | ViewSyncFinalizeVoteRecv vote =>
      relay_vote (D := ViewSyncFinalizeData2) SuccessThreshold finalize_relay_map set_finalize_relay_map event
        (vote_view vote) (vsf2_relay (date vote)) (vsf2_epoch (vote_data vote)) false
  | _ => mret tt
  end.

(** The garbage collection: the views from [from] up to [to] are removed. *)
Definition remove_views {A} (from to : ViewNumber) (m : gmap ViewNumber A) : gmap ViewNumber A :=
  base.filter (fun kv => ¬ (from <= kv.1 < to)) m.

Definition on_view_change (s : ViewSyncTaskState) (new_view : ViewNumber) (epoch : option EpochNumber)
    : ViewSyncTaskState :=
  let cur_epoch := if epoch_gt epoch (vs_cur_epoch s) then epoch else vs_cur_epoch s in
  if vs_cur_view s <? new_view then
    let gc {A} (m : gmap ViewNumber A) := remove_views (last_garbage_collected_view s) new_view m in
    {| vs_cur_view := new_view; vs_next_view := new_view; vs_cur_epoch := cur_epoch;
       num_timeouts_tracked := 0; replica_task_map := gc (replica_task_map s);
       pre_commit_relay_map := gc (pre_commit_relay_map s); commit_relay_map := gc (commit_relay_map s);
       finalize_relay_map := gc (finalize_relay_map s);
       last_garbage_collected_view := wrapper_sub new_view 1 |}
  else
    {| vs_cur_view := vs_cur_view s; vs_next_view := vs_next_view s; vs_cur_epoch := cur_epoch;
       num_timeouts_tracked := num_timeouts_tracked s; replica_task_map := replica_task_map s;
       pre_commit_relay_map := pre_commit_relay_map s; commit_relay_map := commit_relay_map s;
       finalize_relay_map := finalize_relay_map s;
       last_garbage_collected_view := last_garbage_collected_view s |}.

Definition set_num_timeouts (s : ViewSyncTaskState) (n : Z) : ViewSyncTaskState :=
  {| vs_cur_view := vs_cur_view s; vs_next_view := vs_next_view s; vs_cur_epoch := vs_cur_epoch s;
     num_timeouts_tracked := n; replica_task_map := replica_task_map s;
     pre_commit_relay_map := pre_commit_relay_map s; commit_relay_map := commit_relay_map s;
     finalize_relay_map := finalize_relay_map s;
     last_garbage_collected_view := last_garbage_collected_view s |}.
Definition set_vs_cur_view (s : ViewSyncTaskState) (v : ViewNumber) : ViewSyncTaskState :=
  {| vs_cur_view := v; vs_next_view := vs_next_view s; vs_cur_epoch := vs_cur_epoch s;
     num_timeouts_tracked := num_timeouts_tracked s; replica_task_map := replica_task_map s;
     pre_commit_relay_map := pre_commit_relay_map s; commit_relay_map := commit_relay_map s;
     finalize_relay_map := finalize_relay_map s;
     last_garbage_collected_view := last_garbage_collected_view s |}.

Definition on_view_timeout (view_number : ViewNumber) : syncer unit :=
  s ← get;
  _ ← require (vs_cur_view s <=? view_number) "Discarding old timeout vote.";
  _ ← modify (fun s => set_num_timeouts s (u64_add (num_timeouts_tracked s) 1));
  _ ← lift (leader (vs_membership cfg) view_number (vs_cur_epoch s));
  s ← get;
  if 2 <=? num_timeouts_tracked s then
    send_to_or_create_replica (ViewSyncTrigger (wrapper_add view_number 1)) (wrapper_add view_number 1)
  else
    _ ← modify (fun s => set_vs_cur_view s (wrapper_add view_number 1));
    s ← get;
    emit (VsViewChangeSend (vs_cur_view s) (vs_cur_epoch s)).

Definition view_sync_handle (event : ViewSyncInput) : syncer unit :=
  match event with
  | ViewSyncPreCommitCertificateRecv certificate => send_to_or_create_replica event (view_number certificate)
  | ViewSyncCommitCertificateRecv certificate => send_to_or_create_replica event (view_number certificate)
  | ViewSyncFinalizeCertificateRecv certificate => send_to_or_create_replica event (view_number certificate)
  | ViewSyncTimeout view _ _ => send_to_or_create_replica event view
  | ViewSyncVoteRecv e => on_vote e
  | VsViewChange new_view epoch => modify (fun s => on_view_change s new_view epoch)
  | VsTimeout view_number => on_view_timeout view_number
  | ViewSyncTrigger _ => mret tt
  end.
End ViewSync.

(** ** Lemmas *)

Section ViewSyncLemmas.
Context `{Sg : SignatureScheme} `{Cm : Committable} `{Vt : VidTypes} `{Vs : Versions}.
Context {M : Type} `{Mb : !Membership M}.
Context (cfg : ViewSyncConfig (M := M)).
Implicit Types (r : ViewSyncReplicaTaskState) (s : ViewSyncTaskState).

(** The membership answers for every epoch. *)
Definition tables_answer : Prop := ∀ e,
  (∃ t, stake_table (vs_membership cfg) e = Ok t) ∧ (∃ n, failure_threshold (vs_membership cfg) e = Ok n) ∧
  (∃ n, success_threshold (vs_membership cfg) e = Ok n) ∧ (∀ v, leader (vs_membership cfg) v e ≠ Panic).

(** A certificate validated against the committee of an epoch. *)
Definition certified {D : Type} `{!Voteable D} {TH : Threshold} (threshold : M → option EpochNumber → outcome Error Z)
    (c : SimpleCertificate D TH) : Prop :=
  ∃ e table n, stake_table (vs_membership cfg) e = Ok table ∧ threshold (vs_membership cfg) e = Ok n ∧
    is_valid_cert c table n (vs_upgrade_lock cfg) = Ok tt.

(** Validating the certificate does not panic: it carries signatures. *)
Definition checkable {D : Type} `{!Voteable D} {TH : Threshold} (c : SimpleCertificate D TH) : Prop :=
  ∀ table n, is_valid_cert c table n (vs_upgrade_lock cfg) ≠ Panic.

(** The replica after the tests: only its relay may have moved forward. *)
Definition relayed r r' : Prop :=
  r_next_view r' = r_next_view r ∧ r_cur_epoch r' = r_cur_epoch r ∧ r_relay r <= r_relay r' ∧
  r_timeout_task r' = r_timeout_task r.

Lemma check_certificate_run {D : Type} `{!Voteable D} {TH : Threshold} (c : SimpleCertificate D TH) relay threshold r o r' ev :
  tables_answer → (∀ e, ∃ n, threshold (vs_membership cfg) e = Ok n) → checkable c →
  check_certificate cfg c relay threshold r = (o, r', ev) →
  ev = [] ∧ relayed r r' ∧
  ((∃ b, o = Ok (Return b) ∧ (b = true → r_next_view r < view_number c)) ∨
   (o = Ok GoOn ∧ view_number c = r_next_view r ∧ certified threshold c)).
Proof using Type.
  intros Ht Hn Hc. unfold check_certificate. rewrite (bind_ok _ _ r r r) by done.
  destruct (Z.ltb_spec (view_number c) (r_next_view r)) as [Hlt|Hge].
  { intros [= <- <- <-]. split_and!; [done|done|]. left. by exists false. }
  destruct (Ht (r_cur_epoch r)) as ([table Htab] & _). destruct (Hn (r_cur_epoch r)) as [n Hthr].
  rewrite (bind_ok _ _ r table r), (bind_ok _ _ r n r) by (unfold lift; by rewrite ?Htab, ?Hthr).
  specialize (Hc table n). destruct (is_valid_cert _ _ _ _) as [[]|e|] eqn:Hv; [| |done].
  - destruct (Z.ltb_spec (r_next_view r) (view_number c)).
    { intros [= <- <- <-]. split_and!; [done|done|]. left. by exists true. }
    assert (∀ r0, relayed r r0 → view_number c = r_next_view r ∧ certified threshold c) as Hok.
    { intros _ _. split; [lia|]. by exists (r_cur_epoch r), table, n. }
    destruct (Z.ltb_spec (r_relay r) relay).
    + rewrite (bind_ok _ _ r tt (set_r_relay r relay)) by done. intros [= <- <- <-].
      assert (relayed r (set_r_relay r relay)) by (split_and!; simpl; done || lia). naive_solver.
    + rewrite (bind_ok _ _ r tt r) by done. intros [= <- <- <-]. assert (relayed r r) by (split_and!; done || lia). naive_solver.
  - intros [= <- <- <-]. split_and!; [done|done|]. left. by exists false.
Qed.

(** Signing does not panic. *)
Lemma sign_vote_no_panic {D : Type} `{!Voteable D} (d : D) view : sign_vote cfg d view ≠ Panic.
Proof using Type.
  unfold sign_vote, create_signed_vote, VersionedVoteData_new. pose proof (version_no_panic (vs_upgrade_lock cfg) view).
  destruct (version _ _); [|done|done]. simpl. by destruct (sign _ _).
Qed.

Lemma sign_vote_inv {D : Type} `{!Voteable D} (d : D) view v :
  sign_vote cfg d view = Ok v → vote_data v = d ∧ vote_view v = view ∧ (signature v).1 = vs_public_key cfg.
Proof using Type. apply create_signed_vote_ok. Qed.

(** What a replica for [view] may send, and why. *)
Definition replica_sends (view : ViewNumber) (input : ViewSyncInput) (e : ViewSyncEvent) : Prop :=
  match e with
  | ViewSyncPreCommitVoteSend v =>
      vote_view v = view ∧ vsp2_round (vote_data v) = view ∧
      ((input = ViewSyncTrigger view ∧ vsp2_relay (vote_data v) = 0) ∨
       ∃ relay p, input = ViewSyncTimeout view relay p ∧ vsp2_relay (vote_data v) = u64_add relay 1)
  | ViewSyncCommitVoteSend v => ∃ c, input = ViewSyncPreCommitCertificateRecv c ∧ view_number c = view ∧
      certified failure_threshold c ∧ vote_view v = view ∧
      vote_data v = {| vsc2_relay := vsp2_relay (data c); vsc2_round := view; vsc2_epoch := vsp2_epoch (data c) |}
  | ViewSyncFinalizeVoteSend v => ∃ c, input = ViewSyncCommitCertificateRecv c ∧ view_number c = view ∧
      certified success_threshold c ∧ vote_view v = view ∧
      vote_data v = {| vsf2_relay := vsc2_relay (data c); vsf2_round := view; vsf2_epoch := vsc2_epoch (data c) |}
  | VsViewChangeSend w _ => w = view ∧
      ((∃ c, input = ViewSyncCommitCertificateRecv c ∧ view_number c = view ∧ certified success_threshold c) ∨
       (∃ c, input = ViewSyncFinalizeCertificateRecv c ∧ view_number c = view ∧ certified success_threshold c))
  | VsCertificateSend _ => False
  end.

(** A replica for [view]; its timeout, if any, is for that view and a phase that
    the handler of timeouts knows. *)
Definition replica_ok (view : ViewNumber) r : Prop :=
  r_next_view r = view ∧ ∀ v rel p, r_timeout_task r = Some (v, rel, p) → v = view ∧ p ≠ PhaseFinalize.

(** Certificates that can be checked, timeouts that a replica set. *)
Definition input_ok (input : ViewSyncInput) : Prop :=
  match input with
  | ViewSyncPreCommitCertificateRecv c => checkable c
  | ViewSyncCommitCertificateRecv c => checkable c
  | ViewSyncFinalizeCertificateRecv c => checkable c
  | ViewSyncTimeout _ _ p => p ≠ PhaseFinalize
  | _ => True
  end.

(** A replica ends on a finalize certificate, or on a certificate for a later view. *)
Definition ends (view : ViewNumber) (input : ViewSyncInput) : Prop :=
  match input with
  | ViewSyncPreCommitCertificateRecv c => view < view_number c
  | ViewSyncCommitCertificateRecv c => view < view_number c
  | ViewSyncFinalizeCertificateRecv c =>
      view < view_number c ∨ (view_number c = view ∧ certified success_threshold c)
  | _ => False
  end.

Record replica_run (view : ViewNumber) (input : ViewSyncInput) r (o : outcome Error bool) r'
    (ev : list ViewSyncEvent) : Prop := {
  rr_ok : ∃ b, o = Ok b ∧ (b = true → ends view input);
  rr_inv : replica_ok view r';
  rr_sends e : e ∈ ev → replica_sends view input e;
}.

Lemma replica_quiet view input r b r' :
  (b = true → ends view input) → replica_ok view r' → replica_run view input r (Ok b) r' [].
Proof using Type. intros Hb Hr. split; [by exists b|done|by intros e []%elem_of_nil]. Qed.

Lemma relayed_ok view r r' : replica_ok view r → relayed r r' → replica_ok view r'.
Proof using Type. intros [Hv Ht] (Hv' & _ & _ & Ht'). split; [congruence|]. by rewrite Ht'. Qed.

Lemma set_timeout_ok view r p : replica_ok view r → p ≠ PhaseFinalize →
  replica_ok view (set_r_timeout_task r (Some (r_next_view r, r_relay r, p))).
Proof using Type. intros [Hv _] Hp. split; [done|]. by intros v rel p' [= <- <- <-]. Qed.

Lemma clear_timeout_ok view r : replica_ok view r → replica_ok view (set_r_timeout_task r None).
Proof using Type. by intros [Hv _]. Qed.

Lemma certificate_run {D : Type} `{!Voteable D} {TH : Threshold} (c : SimpleCertificate D TH) relay threshold
    view input (body : task _ ViewSyncEvent Error bool) r o r' ev :
  tables_answer → (∀ e, ∃ n, threshold (vs_membership cfg) e = Ok n) → checkable c → replica_ok view r →
  (view < view_number c → ends view input) →
  (∀ r1 o1 r2 ev2, replica_ok view r1 → view_number c = view → certified threshold c →
     body r1 = (o1, r2, ev2) → replica_run view input r o1 r2 ev2) →
  (check ← check_certificate cfg c relay threshold;
   match check with Return completed => mret completed | GoOn => body end) r = (o, r', ev) →
  replica_run view input r o r' ev.
Proof using Type.
  intros Ht Hn Hc Hr Hends Hbody H.
  destruct (check_certificate cfg c relay threshold r) as [[o1 r1] ev1] eqn:Hk.
  pose proof Hk as Hk'. apply check_certificate_run in Hk' as (-> & Hrel & Hres); [|done..].
  pose proof (relayed_ok _ _ _ Hr Hrel) as Hr1.
  destruct Hres as [(b & -> & Hb)|(-> & Hv & Hcert)]; rewrite (bind_ok _ _ _ _ _ Hk) in H.
  - injection H as <- <- <-. apply replica_quiet; [|done]. intros ->. apply Hends. destruct Hr as [<- _]. auto.
  - eapply (Hbody r1); [done|by destruct Hr as [<- _]|done|done].
Qed.

(** The signed vote, or no vote. *)
Lemma signed_run {D : Type} `{!Voteable D} (d : D) view input r0 (k : SimpleVote D → task _ ViewSyncEvent Error bool) r o r' ev :
  replica_ok view r →
  (∀ v, vote_data v = d → vote_view v = view → ∀ o1 r1 ev1, k v r = (o1, r1, ev1) → replica_run view input r0 o1 r1 ev1) →
  match sign_vote cfg d view with
  | Ok v => k v
  | Err _ => mret false
  | Panic => lift Panic
  end r = (o, r', ev) →
  replica_run view input r0 o r' ev.
Proof using Type.
  intros Hr Hk H. pose proof (sign_vote_no_panic d view). destruct (sign_vote cfg d view) as [v|e|] eqn:Hs; [| |done].
  - apply sign_vote_inv in Hs as (? & ? & _). by eapply Hk.
  - injection H as <- <- <-. by apply replica_quiet.
Qed.

Lemma replica_handle_run view input r o r' ev :
  tables_answer → replica_ok view r → input_ok input →
  replica_handle cfg input r = (o, r', ev) → replica_run view input r o r' ev.
Proof using Type.
  intros Ht Hr Hi H.
  assert ((∀ e, ∃ n, failure_threshold (vs_membership cfg) e = Ok n) ∧
          (∀ e, ∃ n, success_threshold (vs_membership cfg) e = Ok n)) as [Hf Hs] by (split; intros e; apply Ht).
  destruct input as [c|c|c|w|w rel p|e|w e|w]; simpl in H, Hi; try (injection H as <- <- <-; by apply replica_quiet).
  - eapply certificate_run in H; [exact H|done|done|done|done|done|].
    intros r1 o1 r2 ev2 Hr1 Hv Hc. rewrite (bind_ok _ _ r1 r1 r1) by done. pose proof Hr1 as [<- _]. apply signed_run; [done|].
    intros v Hd Hw o3 r3 ev3 [= <- <- <-]. split; [by exists false|apply (set_timeout_ok _ (set_r_timeout_task r1 None)); [by apply clear_timeout_ok|done]|].
    intros e ->%list_elem_of_singleton. simpl. by exists c.
  - eapply certificate_run in H; [exact H|done|done|done|done|done|].
    intros r1 o1 r2 ev2 Hr1 Hv Hc. rewrite (bind_ok _ _ r1 r1 r1) by done. pose proof Hr1 as [<- _]. apply signed_run; [done|].
    intros v Hd Hw o3 r3 ev3 [= <- <- <-]. split; [by exists false|apply (set_timeout_ok _ (set_r_timeout_task r1 None)); [by apply clear_timeout_ok|done]|].
    intros e [->|[->|[]%elem_of_nil]%elem_of_cons]%elem_of_cons; simpl; [by exists c|]. split; [done|]. left. by exists c.
  - eapply certificate_run in H; [exact H|done|done|done|done|by left|].
    intros r1 o1 r2 ev2 Hr1 Hv Hc [= <- <- <-]. pose proof Hr1 as [Hn _]. split; [exists true; split; [done|by right]| |].
    + by split.
    + intros e ->%list_elem_of_singleton. simpl. split; [done|]. right. by exists c.
  - unfold on_trigger in H. rewrite (bind_ok _ _ r r r) in H by done.
    destruct (Z.eqb_spec (r_next_view r) w) as [Heq|]; [|injection H as <- <- <-; by apply replica_quiet].
    destruct Hr as [Hv Ht'] eqn:Hr'. clear Hr'. rewrite <-Heq, Hv in H. eapply signed_run in H; [exact H|done|].
    intros v Hd Hw o3 r3 ev3 [= <- <- <-]. split; [by exists false|by apply set_timeout_ok|].
    intros e ->%list_elem_of_singleton. simpl. rewrite Hd. split_and!; [done|done|]. left. split; [|done]. by rewrite <-Hv, Heq.
  - unfold on_timeout in H. rewrite (bind_ok _ _ r r r) in H by done.
    destruct (Z.eqb_spec w (r_next_view r)) as [Hw|]; [|injection H as <- <- <-; by apply replica_quiet].
    destruct (Z.eqb_spec rel (r_relay r)) as [Hrel|]; [|injection H as <- <- <-; by apply replica_quiet].
    simpl in H. pose (r1 := set_r_relay (set_r_timeout_task r None) (u64_add (r_relay r) 1)).
    assert (replica_ok view r1) as Hr1 by (by destruct Hr).
    assert (match sign_vote cfg {| vsp2_relay := r_relay r1; vsp2_round := r_next_view r1; vsp2_epoch := r_cur_epoch r1 |} (r_next_view r1) with
      | Ok v => _ ← emit (ViewSyncPreCommitVoteSend v); _ ← spawn_timeout p; mret false
      | Err _ => mret false | Panic => lift Panic end r1 = (o, r', ev)) as H1.
    { rewrite <-H, (bind_ok _ _ r tt (set_r_timeout_task r None)), (bind_ok _ _ _ tt r1) by done.
      destruct p; [by rewrite (bind_ok _ _ r1 r1 r1) by done..|done]. }
    pose proof Hr1 as [Hv _]. rewrite Hv in H1. eapply signed_run in H1; [exact H1|done|].
    intros v Hd Hw' o3 r3 ev3 [= <- <- <-]. split; [by exists false|by apply (set_timeout_ok view r1)|].
    intros e ->%list_elem_of_singleton. simpl. rewrite Hd. split_and!; [done|done|]. right. exists rel, p. simpl in Hv. split; [congruence|].
    by rewrite Hrel.
Qed.

(** *** The main task *)

Record vs_inv s : Prop := {
  vi_replicas v r : replica_task_map s !! v = Some r → replica_ok v r ∧ last_garbage_collected_view s <= v;
  vi_gc : 0 <= last_garbage_collected_view s <= vs_cur_view s;
}.

(** Views stay below the largest [u64]; certificates can be checked. *)
Definition network_ok (input : ViewSyncInput) : Prop :=
  match input with
  | VsTimeout v => is_u64 (v + 1)
  | VsViewChange v _ => is_u64 v
  | ViewSyncTimeout _ _ _ => True
  | _ => input_ok input
  end.

(** Why the task sends an event. *)
Definition justified s (input : ViewSyncInput) (e : ViewSyncEvent) : Prop :=
  (∃ view, vs_cur_view s <= view ∧ replica_sends view input e) ∨
  (∃ v, input = VsTimeout v ∧ vs_cur_view s <= v ∧
     if 2 <=? u64_add (num_timeouts_tracked s) 1 then replica_sends (v + 1) (ViewSyncTrigger (v + 1)) e
     else e = VsViewChangeSend (v + 1) (vs_cur_epoch s)) ∨
  ((∃ h, input = ViewSyncVoteRecv h) ∧ ∃ h, e = VsCertificateSend h).

Record vs_run s (input : ViewSyncInput) (o : outcome Error unit) s' (ev : list ViewSyncEvent) : Prop := {
  vr_inv : vs_inv s';
  vr_view : vs_cur_view s <= vs_cur_view s';
  vr_no_panic : (∀ h, input ≠ ViewSyncVoteRecv h) → o ≠ Panic;
  vr_sends e : e ∈ ev → justified s input e;
  vr_collects w ep v : input = VsViewChange w ep → vs_cur_view s < w → is_Some (replica_task_map s' !! v) → w <= v;
}.

(** What votes do not touch. *)
Definition same_sync s0 s : Prop :=
  vs_cur_view s = vs_cur_view s0 ∧ replica_task_map s = replica_task_map s0 ∧
  last_garbage_collected_view s = last_garbage_collected_view s0 ∧
  num_timeouts_tracked s = num_timeouts_tracked s0 ∧ vs_cur_epoch s = vs_cur_epoch s0.

Lemma same_sync_inv s s' : vs_inv s → same_sync s s' → vs_inv s'.
Proof using Type. intros [Hr Hg] (Hv & Hm & Hl & _). split; rewrite ?Hv, ?Hm, ?Hl; done. Qed.

Lemma relay_vote_same {D : Type} `{!Voteable D} `{!CertData D} (TH : Threshold) `{!AggregatableVote (M := M) D TH}
    `{!HandleVoteEvent D} s0 map_of set_map event view relay epoch strict :
  (∀ s m, same_sync s0 s → same_sync s0 (set_map s m)) →
  keeps (same_sync s0) (relay_vote cfg (D := D) TH map_of set_map event view relay epoch strict).
Proof using Type.
  intros Hset. unfold relay_vote. cbn zeta.
  assert (∀ f, keeps (same_sync s0) (modify (fun s => set_map s (f s)) : task _ ViewSyncEvent Error unit)) as Hm
    by (intros f; apply keeps_modify; auto).
  assert (∀ evs : list ViewSyncEvent, keeps (same_sync s0) (fun s => (Ok tt, s, evs) : outcome Error unit * _ * _)) as He
    by (intros evs s Hs; exact Hs).
  keeps_step.
Qed.

Lemma relay_vote_only {D : Type} `{!Voteable D} `{!CertData D} (TH : Threshold) `{!AggregatableVote (M := M) D TH}
    `{!HandleVoteEvent D} map_of set_map event view relay epoch strict :
  only (fun e => ∃ h, e = VsCertificateSend h) (relay_vote cfg (D := D) TH map_of set_map event view relay epoch strict).
Proof using Type.
  unfold relay_vote. cbn zeta.
  assert (∀ evs, only (fun e => ∃ h, e = VsCertificateSend h)
    (fun s => (Ok tt, s, map VsCertificateSend evs) : outcome Error unit * ViewSyncTaskState * list ViewSyncEvent)) as He.
  { intros evs s e (h & -> & _)%list_elem_of_fmap. by exists h. }
  only_step.
Qed.

Lemma on_vote_run s h o s' ev :
  vs_inv s → on_vote cfg h s = (o, s', ev) → vs_run s (ViewSyncVoteRecv h) o s' ev.
Proof using Type.
  intros Hi H.
  assert (keeps (same_sync s) (on_vote cfg h)) as Hk
    by (destruct h; simpl; (apply relay_vote_same; by intros) || apply keeps_ret).
  assert (only (fun e => ∃ h, e = VsCertificateSend h) (on_vote cfg h)) as Ho
    by (destruct h; simpl; apply relay_vote_only || by apply only_silent, silent_ret).
  pose proof (keeps_run _ _ _ _ _ _ Hk ltac:(done) H) as Hs. split.
  - by eapply same_sync_inv.
  - destruct Hs as [-> _]. lia.
  - intros Hn. by destruct (Hn h).
  - intros e He. right. right. split; [by exists h|]. apply (Ho s). unfold emits. by rewrite H.
  - done.
Qed.

Lemma new_replica_ok s view : replica_ok view (new_replica s view).
Proof using Type. by split. Qed.

Lemma known_replica_ok s view :
  vs_inv s → replica_ok view (default (new_replica s view) (replica_task_map s !! view)).
Proof using Type.
  intros [Hr _]. destruct (replica_task_map s !! view) as [r|] eqn:Hm; [by apply Hr|apply new_replica_ok].
Qed.

(** Forwarding an event to the replica of its view. *)
Lemma send_run s (input : ViewSyncInput) view o s' ev :
  tables_answer → vs_inv s → input_ok input →
  send_to_or_create_replica cfg input view s = (o, s', ev) →
  vs_inv s' ∧ vs_cur_view s' = vs_cur_view s ∧ o ≠ Panic ∧
  ∀ e, e ∈ ev → vs_cur_view s <= view ∧ replica_sends view input e.
Proof using Type.
  intros Ht Hi Hin H. unfold send_to_or_create_replica in H. rewrite (bind_ok _ _ s s s) in H by done.
  destruct (Z.ltb_spec view (vs_cur_view s)).
  { injection H as <- <- <-. split_and!; [done|done|done|]. by intros e []%elem_of_nil. }
  unfold run_replica in H. destruct (replica_handle _ _ _) as [[o1 r1] ev1] eqn:Hr.
  apply (replica_handle_run view) in Hr as [(b & -> & _) Hok Hs]; [|done|by apply known_replica_ok|done].
  injection H as <- <- <-. destruct Hi as [Hreps Hg]. split_and!; [|done|done|by intros e ?%Hs].
  split; simpl; [|done]. intros v r. destruct b.
  - intros [_ ?]%lookup_delete_Some. auto.
  - intros [[<- <-]|[_ ?]]%lookup_insert_Some; [split; [done|lia]|auto].
Qed.

Lemma on_view_change_run s w ep :
  vs_inv s → is_u64 w → vs_run s (VsViewChange w ep) (Ok tt) (on_view_change s w ep) [].
Proof using Type.
  intros [Hr Hg] Hw. unfold on_view_change. cbn zeta. destruct (Z.ltb_spec (vs_cur_view s) w) as [Hlt|Hge].
  - assert (wrapper_sub w 1 = w - 1) as Hsub
      by (unfold wrapper_sub, u64_sub; apply Z.mod_small; unfold is_u64 in Hw; lia).
    split; simpl; [|lia|done|by intros e []%elem_of_nil|].
    + split; simpl; rewrite Hsub; [|lia]. intros v r [Hm Hn]%map_lookup_filter_Some. simpl in Hn.
      apply Hr in Hm as [? ?]. split; [done|lia].
    + intros w' ep' v [= <- <-] _ [r [Hm Hn]%map_lookup_filter_Some]. simpl in Hn. apply Hr in Hm as [_ ?]. lia.
  - split; [by split|done|done|by intros e []%elem_of_nil|]. intros w' ep' v [= <- <-]. lia.
Qed.

Lemma same_run s s1 input o ev :
  vs_inv s → same_sync s s1 → o ≠ Panic → (∀ w ep, input ≠ VsViewChange w ep) → (∀ e, e ∈ ev → justified s input e) →
  vs_run s input o s1 ev.
Proof using Type.
  intros Hi Hs Ho Hin He. split; [by eapply same_sync_inv|destruct Hs as [-> _]; lia|done|done|].
  intros w ep v Heq. by destruct (Hin w ep).
Qed.

Lemma on_view_timeout_run s v o s' ev :
  tables_answer → vs_inv s → is_u64 (v + 1) →
  on_view_timeout cfg v s = (o, s', ev) → vs_run s (VsTimeout v) o s' ev.
Proof using Type.
  intros Ht Hi Hv H. unfold on_view_timeout in H. rewrite (bind_ok _ _ s s s) in H by done.
  destruct (Z.leb_spec (vs_cur_view s) v) as [Hle|]; cycle 1.
  { unfold mbind, task_bind in H. injection H as <- <- <-. apply same_run; [done|done|done|done|by intros e []%elem_of_nil]. }
  rewrite (bind_ok _ _ s tt s) in H by done. set (n := u64_add (num_timeouts_tracked s) 1) in *.
  set (s1 := set_num_timeouts s n) in *. rewrite (bind_ok _ _ s tt s1) in H by done.
  destruct (Ht (vs_cur_epoch s)) as (_ & _ & _ & Hlead). specialize (Hlead v).
  destruct (leader _ v _) as [k|e|] eqn:Hl; [| |done]; cycle 1.
  { unfold mbind, task_bind in H. simpl in H. injection H as <- <- <-.
    split; [by destruct Hi|simpl; lia|done|by intros e' []%elem_of_nil|done]. }
  assert (wrapper_add v 1 = v + 1) as Hadd by (unfold wrapper_add, u64_add; by apply Z.mod_small).
  rewrite (bind_ok _ _ s1 k s1), (bind_ok _ _ s1 s1 s1), Hadd in H by (unfold lift; by rewrite ?Hl).
  change (num_timeouts_tracked s1) with n in H. destruct (2 <=? n) eqn:Hn.
  - apply send_run in H as (Hi' & Hc & Ho & He); [|done|by destruct Hi|done].
    split; [done|rewrite Hc; simpl; lia|done| |done].
    intros e [Hge Hsend]%He. right. left. exists v. split_and!; [done|done|]. fold n. by rewrite Hn.
  - injection H as <- <- <-. split; simpl; [|lia|done| |done].
    + destruct Hi as [Hr Hg]. split; simpl; [done|lia].
    + intros e ->%list_elem_of_singleton. right. left. exists v. split_and!; [done|done|]. fold n. by rewrite Hn.
Qed.

Lemma view_sync_handle_run s input o s' ev :
  tables_answer → vs_inv s → network_ok input → input_ok input →
  view_sync_handle cfg input s = (o, s', ev) → vs_run s input o s' ev.
Proof using Type.
  intros Ht Hi Hn Hin H.
  assert (∀ view, (∀ w ep, input ≠ VsViewChange w ep) →
    send_to_or_create_replica cfg input view s = (o, s', ev) → vs_run s input o s' ev) as Hsend.
  { intros view Hnv (Hi' & Hc & Ho & He)%send_run; [|done..]. split; [done|lia|done| |by intros w ep v ->; destruct (Hnv w ep)].
    intros e ?%He. left. by exists view. }
  destruct input as [c|c|c|w|w rel p|h|w ep|w]; simpl in H, Hn; try (by apply Hsend in H).
  - injection H as <- <- <-. apply same_run; [done|done|done|done|by intros e []%elem_of_nil].
  - by apply on_vote_run.
  - injection H as <- <- <-. by apply on_view_change_run.
  - by apply on_view_timeout_run.
Qed.

(** *** Reachable states

    Next to the state, the timeouts that replicas have set and that may still
    expire; an aborted timeout may be among them. *)

Definition timeout_of s (t : ViewNumber * Z * ViewSyncPhase) : Prop :=
  ∃ v r, replica_task_map s !! v = Some r ∧ r_timeout_task r = Some t.

Inductive vs_reachable : ViewSyncTaskState → list (ViewNumber * Z * ViewSyncPhase) → Prop :=
  | vs_start s : replica_task_map s = ∅ → 0 <= last_garbage_collected_view s <= vs_cur_view s → vs_reachable s []
  | vs_next s pool input o s' ev pool' :
      vs_reachable s pool → network_ok input →
      (∀ v rel p, input = ViewSyncTimeout v rel p → (v, rel, p) ∈ pool) →
      view_sync_handle cfg input s = (o, s', ev) →
      (∀ t, t ∈ pool' → t ∈ pool ∨ timeout_of s' t) → vs_reachable s' pool'.

Lemma pool_input_ok (pool : list (ViewNumber * Z * ViewSyncPhase)) input :
  network_ok input → (∀ v rel p, (v, rel, p) ∈ pool → p ≠ PhaseFinalize) →
  (∀ v rel p, input = ViewSyncTimeout v rel p → (v, rel, p) ∈ pool) → input_ok input.
Proof using Type. intros Hn Hp Hin. destruct input; simpl in *; try done. eapply Hp, Hin. done. Qed.

Lemma vs_reachable_inv s pool :
  tables_answer → vs_reachable s pool → vs_inv s ∧ ∀ v rel p, (v, rel, p) ∈ pool → p ≠ PhaseFinalize.
Proof using Type.
  intros Ht. induction 1 as [s Hm Hg|s pool input o s' ev pool' _ [Hi Hp] Hn Hin H Hpool].
  - split; [split; [|done]; intros v r; by rewrite Hm|by intros v rel p []%elem_of_nil].
  - apply view_sync_handle_run in H as [Hi' _ _ _ _]; [|done|done|done|by eapply pool_input_ok]. split; [done|].
    intros v rel p [Hold|(w & r & Hm & Hto)]%Hpool; [by eapply Hp|].
    apply Hi' in Hm as [[_ Hr] _]. by eapply Hr.
Qed.

(** *** Asking one relay after the other *)

(** The timeout of the replica expires [k] times in a row. *)
Fixpoint expire (k : nat) r : ViewSyncReplicaTaskState * list ViewSyncEvent :=
  match k, r_timeout_task r with
  | S k, Some (view, relay, phase) =>
      let '(_, r1, ev1) := replica_handle cfg (ViewSyncTimeout view relay phase) r in
      let '(r2, ev2) := expire k r1 in (r2, ev1 ++ ev2)
  | _, _ => (r, [])
  end.

(** Every vote can be signed. *)
Definition signs : Prop := ∀ (d : ViewSyncPreCommitData2) view, is_u64 view → ∃ v, sign_vote cfg d view = Ok v.

(** A replica that waits for [relay]. *)
Definition waiting (view relay : Z) r : Prop :=
  r_next_view r = view ∧ r_relay r = relay ∧ r_timeout_task r = Some (view, relay, PhaseNone).

(** A vote for a relay. *)
Definition asks (view : ViewNumber) (epoch : option EpochNumber) (relay : Z) (e : ViewSyncEvent) : Prop :=
  ∃ v, e = ViewSyncPreCommitVoteSend v ∧ vote_view v = view ∧
    vote_data v = {| vsp2_relay := relay; vsp2_round := view; vsp2_epoch := epoch |}.

Lemma timeout_asks view relay r :
  signs → is_u64 view → is_u64 (relay + 1) → waiting view relay r →
  ∃ r' e, replica_handle cfg (ViewSyncTimeout view relay PhaseNone) r = (Ok false, r', [e]) ∧
    waiting view (relay + 1) r' ∧ asks view (r_cur_epoch r) (relay + 1) e ∧ r_cur_epoch r' = r_cur_epoch r.
Proof using Type.
  intros Hs Hu Hrel (Hv & Hr & Ht). simpl. unfold on_timeout. rewrite (bind_ok _ _ r r r) by done.
  rewrite Hv, Hr, !Z.eqb_refl. simpl.
  assert (u64_add relay 1 = relay + 1) as Hadd by (by apply Z.mod_small).
  set (r1 := set_r_relay (set_r_timeout_task r None) (u64_add (r_relay r) 1)).
  rewrite (bind_ok _ _ r tt (set_r_timeout_task r None)), (bind_ok _ _ _ tt r1), (bind_ok _ _ r1 r1 r1) by done.
  destruct (Hs {| vsp2_relay := r_relay r1; vsp2_round := r_next_view r1; vsp2_epoch := r_cur_epoch r1 |} view Hu) as [v Hsv].
  change (r_next_view r1) with (r_next_view r). rewrite Hv. simpl in Hsv. rewrite Hv in Hsv. simpl. rewrite Hsv.
  pose proof (sign_vote_inv _ _ _ Hsv) as (Hd & Hw & _).
  eexists _, (ViewSyncPreCommitVoteSend v). split; [done|]. split; [|split; [|done]].
  - unfold waiting. simpl. by rewrite Hv, Hr, Hadd.
  - exists v. split_and!; [done|done|]. by rewrite Hd, Hr, Hadd.
Qed.

Lemma expire_asks k view relay r :
  signs → is_u64 view → 0 <= relay → is_u64 (relay + Z.of_nat k) → waiting view relay r →
  Forall2 (asks view (r_cur_epoch r)) (seqZ (relay + 1) (Z.of_nat k)) (expire k r).2.
Proof using Type.
  intros Hs Hu. revert relay r. induction k as [|k IH]; intros relay r H0 Hrel Hw; [constructor|].
  rewrite Nat2Z.inj_succ, seqZ_cons, Z.pred_succ by lia. unfold is_u64 in *.
  destruct (timeout_asks view relay r Hs Hu) as (r' & e & Hrun & Hw' & Ha & He); [unfold is_u64; lia|done|].
  assert (expire (S k) r = let '(r2, ev2) := expire k r' in (r2, [e] ++ ev2)) as ->.
  { simpl. destruct Hw as (_ & _ & ->). simpl in Hrun. by rewrite Hrun. }
  specialize (IH (relay + 1) r' ltac:(lia) ltac:(lia) Hw'). rewrite He in IH.
  destruct (expire k r') as [r2 ev2]. constructor; [done|]. by replace (Z.succ (relay + 1)) with (relay + 1 + 1) by lia.
Qed.

Lemma trigger_asks view s :
  signs → is_u64 view →
  ∃ r e, replica_handle cfg (ViewSyncTrigger view) (new_replica s view) = (Ok false, r, [e]) ∧
    waiting view 0 r ∧ asks view (vs_cur_epoch s) 0 e ∧ r_cur_epoch r = vs_cur_epoch s.
Proof using Type.
  intros Hs Hu. simpl. unfold on_trigger. rewrite (bind_ok _ _ (new_replica s view) (new_replica s view) (new_replica s view)) by done.
  simpl. rewrite Z.eqb_refl. simpl.
  destruct (Hs {| vsp2_relay := 0; vsp2_round := view; vsp2_epoch := vs_cur_epoch s |} view Hu) as [v Hv].
  rewrite Hv. pose proof (sign_vote_inv _ _ _ Hv) as (Hd & Hw & _).
  eexists _, (ViewSyncPreCommitVoteSend v). split_and!; [done|done|by exists v|done].
Qed.

(** A vote for another relay and a collected view is refused, but the entry of its
    view is made first, and no view change removes it. *)
Lemma relay_entries_leak (vote : SimpleVote ViewSyncPreCommitData2) s k o s' ev :
  vote_view vote < last_garbage_collected_view s → pre_commit_relay_map s !! vote_view vote = None →
  leader (vs_membership cfg) (wrapper_add (vote_view vote) (vsp2_relay (date vote))) (vs_cur_epoch s) = Ok k →
  k ≠ vs_public_key cfg → on_vote cfg (ViewSyncPreCommitVoteRecv vote) s = (o, s', ev) →
  o = Err "View sync vote sent to wrong leader" ∧
  ∀ w ep, is_Some (pre_commit_relay_map (on_view_change s' w ep) !! vote_view vote).
Proof using Type.
  intros Hold Hnone Hlead Hk H. simpl in H. unfold relay_vote in H.
  set (s1 := set_pre_commit_relay_map s (<[vote_view vote := ∅]> (pre_commit_relay_map s))).
  rewrite (bind_ok _ _ s tt s1), (bind_ok _ _ s1 s1 s1) in H by (unfold modify; rewrite ?Hnone; done).
  cbn zeta in H. assert (pre_commit_relay_map s1 !! vote_view vote = Some ∅) as Hs1 by apply lookup_insert_eq.
  rewrite Hs1 in H. simpl in H. rewrite lookup_empty in H.
  rewrite (bind_ok _ _ s1 k s1) in H by (unfold lift; simpl; by rewrite Hlead).
  rewrite bool_decide_eq_false_2 in H by done. injection H as <- <- <-. split; [done|].
  intros w ep. exists ∅. unfold on_view_change. cbn zeta. destruct (vs_cur_view s1 <? w); simpl; [|done].
  apply map_lookup_filter_Some. simpl. split; [done|]. lia.
Qed.
End ViewSyncLemmas.

(** ** Properties *)

Section ViewSyncProperties.
Context `{Sg : SignatureScheme} `{Cm : Committable} `{Vt : VidTypes} `{Vs : Versions}.

(** C11. View synchronization only acts on certificates and timeouts.  In every state that the
    task can reach, with a committee whose tables and thresholds answer and certificates whose
    check does not panic ([tables_answer], [network_ok]; the check of a certificate without
    signatures does), whatever event comes next: a commit vote is sent only for a pre-commit
    certificate valid for the failure threshold, a finalize vote only for a commit certificate
    valid for the success threshold, a change of view only for a commit or finalize certificate
    valid for the success threshold and for that view, or for the first timeout in a row;
    a pre-commit vote only for relay 0 on a trigger, which the second and later timeouts
    in a row are, or for the next relay when the timeout of a relay expires; the current
    view never decreases, a view change drops the replicas of earlier views, and handling
    anything but a vote does not panic: the phase that the handler of timeouts does not
    implement is never reached. *)
Theorem view_sync_safe {M : Type} `{Mb : !Membership M} (cfg : ViewSyncConfig (M := M)) s pool input o s' ev :
  tables_answer cfg → vs_reachable cfg s pool → network_ok cfg input →
  (∀ v rel p, input = ViewSyncTimeout v rel p → (v, rel, p) ∈ pool) →
  view_sync_handle cfg input s = (o, s', ev) →
  (∀ e, e ∈ ev → justified cfg s input e) ∧ vs_cur_view s <= vs_cur_view s' ∧
  ((∀ h, input ≠ ViewSyncVoteRecv h) → o ≠ Panic) ∧
  ∀ w ep v, input = VsViewChange w ep → vs_cur_view s < w → is_Some (replica_task_map s' !! v) → w <= v.
Proof.
  intros Ht Hr Hn Hp H. destruct (vs_reachable_inv cfg _ _ Ht Hr) as [Hi Hpool].
  apply view_sync_handle_run in H as [? ? ? ? ?]; [|done|done|done|by eapply pool_input_ok]. done.
Qed.

(** View synchronization asks every node.  When a replica for a view is
    triggered and its timeout expires once for each other member, it has sent
    pre-commit votes for the relays 0, 1, 2, ... in order, and every member of
    the committee was the relay of one of them. *)
Theorem view_sync_asks_every_relay (cfg : ViewSyncConfig (M := Committee)) s view t td key :
  signs cfg → single_known (vs_membership cfg) (vs_cur_epoch s) t td → key ∈ map stake_key t →
  is_u64 view → is_u64 (view + Z.of_nat (length t)) →
  let '(_, r, ev) := replica_handle (Mb := StaticCommittee) cfg (ViewSyncTrigger view) (new_replica s view) in
  let sent := ev ++ (expire (Mb := StaticCommittee) cfg (length t - 1) r).2 in
  Forall2 (asks view (vs_cur_epoch s)) (seqZ 0 (Z.of_nat (length t))) sent ∧
  ∃ vote, ViewSyncPreCommitVoteSend vote ∈ sent ∧
    vote_leader (AggregatableVote := agg_vs_pre_commit2 (Mb := StaticCommittee)) vote (vs_membership cfg) (vs_cur_epoch s) = Ok key.
Proof.
  intros Hs Hk Hkey Hv Hvn.
  destruct (static_leader_rotation (vs_membership cfg) (vs_cur_epoch s) t td view key Hk Hkey Hv Hvn) as (j & Hj & Hlead & _).
  destruct (trigger_asks (Mb := StaticCommittee) cfg view s Hs Hv) as (r & e & Hrun & Hw & Ha & He). rewrite Hrun. cbn zeta.
  assert (Forall2 (asks view (vs_cur_epoch s)) (seqZ 0 (Z.of_nat (length t))) ([e] ++ (expire (Mb := StaticCommittee) cfg (length t - 1) r).2)) as Hall.
  { rewrite seqZ_cons by lia. constructor; [done|]. replace (Z.pred (Z.of_nat (length t))) with (Z.of_nat (length t - 1)) by lia.
    change (Z.succ 0) with (0 + 1). rewrite <-He. apply expire_asks; [done|done|lia|unfold is_u64 in *; lia|done]. }
  split; [done|].
  destruct (Forall2_lookup_l _ _ _ (Z.to_nat j) j Hall) as (e' & Hl & v & -> & Hvv & Hd).
  { apply lookup_seqZ. lia. }
  exists v. split; [by eapply list_elem_of_lookup_2|]. simpl. unfold date. rewrite Hd. simpl.
  unfold leader, wrapper_add, u64_add. rewrite Z.mod_small by (unfold is_u64 in *; lia). by rewrite Hlead.
Qed.
End ViewSyncProperties.

(** ** Witnesses *)

#[local] Existing Instance Ideal.open_signatures.
#[local] Existing Instance StaticCommittee.

Module ViewSyncDemo.
Definition cfg : ViewSyncConfig (M := Committee) :=
  {| vs_public_key := 20 : PubKey; vs_private_key := 20 : PrivKey; vs_membership := Demo.committee;
     vs_upgrade_lock := UpgradeLock_new; vs_id := 1 |}.

Definition start : ViewSyncTaskState :=
  {| vs_cur_view := 5; vs_next_view := 5; vs_cur_epoch := None; num_timeouts_tracked := 1; replica_task_map := ∅;
     pre_commit_relay_map := ∅; commit_relay_map := ∅; finalize_relay_map := ∅; last_garbage_collected_view := 0 |}.

Lemma answers : tables_answer cfg.
Proof.
  intros e. split_and!; [by eexists..|]. intros v. unfold leader.
  change (lookup_leader _ v e) with (leader_at (E:=Error) Ideal.table3 v).
  by destruct (leader_at_ok (E:=Error) Ideal.table3 v) as (x & _ & ->).
Qed.

Lemma cfg_signs : signs cfg.
Proof. intros d view _. by eexists. Qed.
End ViewSyncDemo.

(** The second timeout in a row: a pre-commit vote for relay 0 of the next view. *)
Lemma view_sync_safe_witness :
  ∃ e, (view_sync_handle ViewSyncDemo.cfg (VsTimeout 5) ViewSyncDemo.start).2 = [e] ∧
    justified ViewSyncDemo.cfg ViewSyncDemo.start (VsTimeout 5) e.
Proof.
  destruct (view_sync_handle ViewSyncDemo.cfg (VsTimeout 5) ViewSyncDemo.start) as [[o s'] ev] eqn:H.
  destruct (view_sync_safe ViewSyncDemo.cfg ViewSyncDemo.start [] (VsTimeout 5) o s' ev ViewSyncDemo.answers)
    as (He & _); [by apply vs_start|by vm_compute|done|exact H|].
  assert (∃ e, ev = [e]) as [e ->] by (injection H as _ _ <-; by eexists).
  exists e. split; [reflexivity|]. apply He. by left.
Defined.

Lemma view_sync_asks_every_relay_witness :
  let '(_, r, ev) := replica_handle ViewSyncDemo.cfg (ViewSyncTrigger 6) (new_replica ViewSyncDemo.start 6) in
  ∃ vote, ViewSyncPreCommitVoteSend vote ∈ ev ++ (expire ViewSyncDemo.cfg 2 r).2 ∧
    vote_leader (AggregatableVote := agg_vs_pre_commit2) vote Demo.committee None = Ok (30 : PubKey).
Proof.
  pose proof (view_sync_asks_every_relay ViewSyncDemo.cfg ViewSyncDemo.start 6 Ideal.table3 Ideal.table3 (30 : PubKey)
    ViewSyncDemo.cfg_signs (Demo.committee_known None)) as H.
  destruct (replica_handle ViewSyncDemo.cfg (ViewSyncTrigger 6) (new_replica ViewSyncDemo.start 6)) as [[o r] ev].
  destruct H as [_ H]; [right; right; left|by vm_compute|by vm_compute|]. exact H.
Defined.
