(* ===== verification/Message.v ===== *)
(** * Network messages

    [types/src/message.rs]: the messages nodes exchange, in both generations, with
    their view and epoch; the DA and upgrade proposals of [types/src/data.rs] and
    the requests and responses of [types/src/traits/network.rs].  A
    [QuorumProposalWrapper] is the second-generation proposal it wraps. *)

From S2P Require Import Prelude Epochs Crypto Committee Votes Certificates Data Vid.

Section Message.
Context `{Sg : SignatureScheme} `{Cm : Committable} `{Vt : VidTypes} `{Vs : Versions}.
Context `{Bt : !BlockTypes} `{Vd : !VidScheme}.
Context {Transaction : Type}.

(** ** DA and upgrade proposals *)

Record DaProposal := {
  dp_encoded_transactions : bytes;
  dp_metadata : Metadata;
  dp_view_number : ViewNumber;
}.

Record DaProposal2 := {
  dp2_encoded_transactions : bytes;
  dp2_metadata : Metadata;
  dp2_view_number : ViewNumber;
  dp2_epoch : option EpochNumber;
}.

Definition da_proposal2 (p : DaProposal) : DaProposal2 :=
  {| dp2_encoded_transactions := dp_encoded_transactions p; dp2_metadata := dp_metadata p;
     dp2_view_number := dp_view_number p; dp2_epoch := None |}.
Definition da_proposal (p : DaProposal2) : DaProposal :=
  {| dp_encoded_transactions := dp2_encoded_transactions p; dp_metadata := dp2_metadata p;
     dp_view_number := dp2_view_number p |}.

Record UpgradeProposal := {
  upgrade_proposal : UpgradeProposalData;
  up_view_number : ViewNumber;
}.

(** [convert_proposal] *)
Definition convert_proposal {P P2 : Type} (into : P → P2) (proposal : Proposal P) : Proposal P2 :=
  {| proposal_data := into (proposal_data proposal); proposal_signature := proposal_signature proposal |}.

(** ** Requests and responses *)

Record ProposalRequestPayload := { req_view_number : ViewNumber; req_key : PubKey }.

Inductive RequestKind :=
  | RequestVid (view : ViewNumber) (key : PubKey)
  | RequestDaProposal (view : ViewNumber)
  | RequestProposal (view : ViewNumber).

Record DataRequest := { dr_request : RequestKind; dr_view : ViewNumber; dr_signature : Sig }.

(** ** Messages *)

Inductive GeneralConsensusMessage :=
  | MsgProposal (p : Proposal QuorumProposal)
  | MsgVote (v : SimpleVote QuorumData)
  | MsgViewSyncPreCommitVote (v : SimpleVote ViewSyncPreCommitData)
  | MsgViewSyncCommitVote (v : SimpleVote ViewSyncCommitData)
  | MsgViewSyncFinalizeVote (v : SimpleVote ViewSyncFinalizeData)
  | MsgViewSyncPreCommitCertificate (c : ViewSyncPreCommitCertificate)
  | MsgViewSyncCommitCertificate (c : ViewSyncCommitCertificate)
  | MsgViewSyncFinalizeCertificate (c : ViewSyncFinalizeCertificate)
  | MsgTimeoutVote (v : SimpleVote TimeoutData)
  | MsgUpgradeProposal (p : Proposal UpgradeProposal)
  | MsgUpgradeVote (v : SimpleVote UpgradeProposalData)
  | MsgProposalRequested (req : ProposalRequestPayload) (sig : Sig)
  | MsgProposalResponse (p : Proposal QuorumProposal)
  | MsgProposal2 (p : Proposal QuorumProposal2)
  | MsgVote2 (v : SimpleVote QuorumData2)
  | MsgProposalResponse2 (p : Proposal QuorumProposal2)
  | MsgHighQc (qc : QuorumCertificate2)
  | MsgViewSyncPreCommitVote2 (v : SimpleVote ViewSyncPreCommitData2)
  | MsgViewSyncCommitVote2 (v : SimpleVote ViewSyncCommitData2)
  | MsgViewSyncFinalizeVote2 (v : SimpleVote ViewSyncFinalizeData2)
  | MsgViewSyncPreCommitCertificate2 (c : ViewSyncPreCommitCertificate2)
  | MsgViewSyncCommitCertificate2 (c : ViewSyncCommitCertificate2)
  | MsgViewSyncFinalizeCertificate2 (c : ViewSyncFinalizeCertificate2)
  | MsgTimeoutVote2 (v : SimpleVote TimeoutData2).

Inductive DaConsensusMessage :=
  | MsgDaProposal (p : Proposal DaProposal)
  | MsgDaVote (v : SimpleVote DaData)
  | MsgDaCertificate (c : DaCertificate)
  | VidDisperseMsg (p : Proposal ADVZDisperseShare)
  | MsgDaProposal2 (p : Proposal DaProposal2)
  | MsgDaVote2 (v : SimpleVote DaData2)
  | MsgDaCertificate2 (c : DaCertificate2)
  | VidDisperseMsg2 (p : Proposal VidDisperseShare2).

Inductive SequencingMessage := General (m : GeneralConsensusMessage) | Da (m : DaConsensusMessage).

Inductive ResponseMessage := Found (m : SequencingMessage) | NotFound | Denied.

Inductive DataMessage :=
  | SubmitTransaction (transaction : Transaction) (view : ViewNumber)
  | RequestData (r : DataRequest)
  | DataResponse (r : ResponseMessage).

Inductive MessageKind :=
  | KConsensus (m : SequencingMessage)
  | KData (m : DataMessage)
  | KExternal (data : bytes).

Record Message := { msg_sender : PubKey; msg_kind : MessageKind }.

(** ** Views and epochs *)

Definition general_view_number (m : GeneralConsensusMessage) : ViewNumber :=
  match m with
  | MsgProposal p => qp_view_number (proposal_data p)
  | MsgProposal2 p => p_view_number (proposal_data p)
  | MsgProposalRequested req _ => req_view_number req
  | MsgProposalResponse p => qp_view_number (proposal_data p)
  | MsgProposalResponse2 p => p_view_number (proposal_data p)
  | MsgVote v => vote_view v
  | MsgVote2 v => vote_view v
  | MsgTimeoutVote v => vote_view v
  | MsgViewSyncPreCommitVote v => vote_view v
  | MsgViewSyncCommitVote v => vote_view v
  | MsgViewSyncFinalizeVote v => vote_view v
  | MsgViewSyncPreCommitCertificate c => view_number c
  | MsgViewSyncCommitCertificate c => view_number c
  | MsgViewSyncFinalizeCertificate c => view_number c
  | MsgTimeoutVote2 v => vote_view v
  | MsgViewSyncPreCommitVote2 v => vote_view v
  | MsgViewSyncCommitVote2 v => vote_view v
  | MsgViewSyncFinalizeVote2 v => vote_view v
  | MsgViewSyncPreCommitCertificate2 c => view_number c
  | MsgViewSyncCommitCertificate2 c => view_number c
  | MsgViewSyncFinalizeCertificate2 c => view_number c
  | MsgUpgradeProposal p => up_view_number (proposal_data p)
  | MsgUpgradeVote v => vote_view v
  | MsgHighQc qc => view_number qc
  end.

Definition da_view_number (m : DaConsensusMessage) : ViewNumber :=
  match m with
  | MsgDaProposal p => dp_view_number (proposal_data p)
  | MsgDaVote v => vote_view v
  | MsgDaCertificate c => view_number c
  | VidDisperseMsg p => as_view_number (proposal_data p)
  | MsgDaProposal2 p => dp2_view_number (proposal_data p)
  | MsgDaVote2 v => vote_view v
  | MsgDaCertificate2 c => view_number c
  | VidDisperseMsg2 p => vs_view_number (proposal_data p)
  end.

Definition sequencing_view_number (m : SequencingMessage) : ViewNumber :=
  match m with General m => general_view_number m | Da m => da_view_number m end.

Definition general_epoch_number (m : GeneralConsensusMessage) : option EpochNumber :=
  match m with
  | MsgProposal2 p | MsgProposalResponse2 p => p_epoch (proposal_data p)
  | MsgVote2 v => epoch (vote_data v)
  | MsgTimeoutVote2 v => epoch (vote_data v)
  | MsgViewSyncPreCommitVote2 v => epoch (vote_data v)
  | MsgViewSyncCommitVote2 v => epoch (vote_data v)
  | MsgViewSyncFinalizeVote2 v => epoch (vote_data v)
  | MsgViewSyncPreCommitCertificate2 c => epoch (data c)
  | MsgViewSyncCommitCertificate2 c => epoch (data c)
  | MsgViewSyncFinalizeCertificate2 c => epoch (data c)
  | MsgHighQc qc => epoch (data qc)
  (* first-generation data and upgrades have no epoch *)
  | _ => None
  end.

Definition da_epoch_number (m : DaConsensusMessage) : option EpochNumber :=
  match m with
  | VidDisperseMsg2 p => vs_epoch (proposal_data p)
  | MsgDaProposal2 p => dp2_epoch (proposal_data p)
  | MsgDaVote2 v => epoch (vote_data v)
  | MsgDaCertificate2 c => epoch (data c)
  | _ => None
  end.

Definition sequencing_epoch_number (m : SequencingMessage) : option EpochNumber :=
  match m with General m => general_epoch_number m | Da m => da_epoch_number m end.

Definition kind_view_number (k : MessageKind) : ViewNumber :=
  match k with
  | KConsensus m => sequencing_view_number m
  | KData (SubmitTransaction _ v) => v
  | KData (RequestData r) => dr_view r
  | KData (DataResponse (Found m)) => sequencing_view_number m
  | KData (DataResponse (NotFound | Denied)) => 1
  | KExternal _ => 1
  end.

Definition kind_epoch (k : MessageKind) : option EpochNumber :=
  match k with
  | KConsensus m => sequencing_epoch_number m
  | KData (DataResponse (Found m)) => sequencing_epoch_number m
  | _ => None
  end.
End Message.
Arguments DataMessage {_ _ _ _ _} Transaction.
Arguments MessageKind {_ _ _ _ _} Transaction.
Arguments Message {_ _ _ _ _} Transaction.
