(* ===== verification/Events.v ===== *)
(** * Internal events

    [task-impls/src/events.rs]: the events the tasks of a node exchange, with
    their view number; [PackedBundle] of [types/src/data.rs].  The handlers of
    [VoteCollection] use the part of the events that carries votes and
    certificates; [of_vote_event] embeds it. *)

From S2P Require Import Prelude Epochs Crypto Committee Votes Certificates VoteAccumulator VoteCollection Data Vid Message.

(** What the application provides besides blocks. *)
Class BuilderTypes `{Bt : BlockTypes} := {
  Transaction : Type;
  BuilderKey : Type;
  BuilderSignature : Type;
  AuctionResult : Type;
  (** [BlockPayload::from_bytes] *)
  from_bytes : bytes → Metadata → BlockPayload;
  (** [BlockPayload::empty] *)
  empty_block : BlockPayload * Metadata;
}.

(** [view_sync.rs]: the phase a timeout refers to. *)
Inductive TimeoutPhase := AfterNone | AfterPreCommit | AfterCommit | AfterFinalize.

Section Events.
Context `{Sg : SignatureScheme} `{Cm : Committable} `{Vt : VidTypes} `{Vs : Versions}.
Context `{Bt : !BlockTypes} `{Vd : !VidScheme} `{Bu : !BuilderTypes}.

Record BuilderFee := {
  fee_amount : Z;
  fee_account : BuilderKey;
  fee_signature : BuilderSignature;
}.

Record PackedBundle := {
  pb_encoded_transactions : bytes;
  pb_metadata : Metadata;
  pb_view_number : ViewNumber;
  pb_epoch_number : option EpochNumber;
  pb_sequencing_fees : list BuilderFee;
  pb_auction_result : option AuctionResult;
}.

Definition disperse_view (d : VidDisperse) : ViewNumber :=
  match d with DisperseV0 d | DisperseV1 d => ad_view_number d end.
Definition disperse_epoch (d : VidDisperse) : option EpochNumber :=
  match d with DisperseV0 d | DisperseV1 d => ad_epoch d end.
Definition disperse_payload_commitment (d : VidDisperse) : VidCommitment :=
  match d with DisperseV0 d | DisperseV1 d => ad_payload_commitment d end.
End Events.

Module Ev.
Section Ev.
Context `{Sg : SignatureScheme} `{Cm : Committable} `{Vt : VidTypes} `{Vs : Versions}.
Context `{Bt : !BlockTypes} `{Vd : !VidScheme} `{Bu : !BuilderTypes}.

(** [HotShotEvent] *)
Inductive Event :=
  | Shutdown
  | QuorumProposalRecv (p : Proposal QuorumProposal2) (sender : PubKey)
  | QuorumVoteRecv (v : SimpleVote QuorumData2)
  | TimeoutVoteRecv (v : SimpleVote TimeoutData2)
  | TimeoutVoteSend (v : SimpleVote TimeoutData2)
  | DaProposalRecv (p : Proposal DaProposal2) (sender : PubKey)
  | DaProposalValidated (p : Proposal DaProposal2) (sender : PubKey)
  | DaVoteRecv (v : SimpleVote DaData2)
  | DaCertificateRecv (c : DaCertificate2)
  | DaCertificateValidated (c : DaCertificate2)
  | QuorumProposalSend (p : Proposal QuorumProposal2) (sender : PubKey)
  | QuorumVoteSend (v : SimpleVote QuorumData2)
  | ExtendedQuorumVoteSend (v : SimpleVote QuorumData2)
  | QuorumProposalValidated (p : Proposal QuorumProposal2) (parent : Leaf2)
  | QuorumProposalRequestSend (req : ProposalRequestPayload) (sig : Sig)
  | QuorumProposalRequestRecv (req : ProposalRequestPayload) (sig : Sig)
  | QuorumProposalResponseSend (key : PubKey) (p : Proposal QuorumProposal2)
  | QuorumProposalResponseRecv (p : Proposal QuorumProposal2)
  | DaProposalSend (p : Proposal DaProposal2) (sender : PubKey)
  | DaVoteSend (v : SimpleVote DaData2)
  | QcFormed (c : QuorumCertificate + TimeoutCertificate)
  | Qc2Formed (c : QuorumCertificate2 + TimeoutCertificate2)
  | NextEpochQc2Formed (c : NextEpochQuorumCertificate2 + TimeoutCertificate)
  | DacSend (c : DaCertificate2) (sender : PubKey)
  | ViewChange (view : ViewNumber) (epoch : option EpochNumber)
  | ViewSyncTimeout (view : ViewNumber) (relay : Z) (phase : TimeoutPhase)
  | ViewSyncPreCommitVoteRecv (v : SimpleVote ViewSyncPreCommitData2)
  | ViewSyncCommitVoteRecv (v : SimpleVote ViewSyncCommitData2)
  | ViewSyncFinalizeVoteRecv (v : SimpleVote ViewSyncFinalizeData2)
  | ViewSyncPreCommitVoteSend (v : SimpleVote ViewSyncPreCommitData2)
  | ViewSyncCommitVoteSend (v : SimpleVote ViewSyncCommitData2)
  | ViewSyncFinalizeVoteSend (v : SimpleVote ViewSyncFinalizeData2)
  | ViewSyncPreCommitCertificateRecv (c : ViewSyncPreCommitCertificate2)
  | ViewSyncCommitCertificateRecv (c : ViewSyncCommitCertificate2)
  | ViewSyncFinalizeCertificateRecv (c : ViewSyncFinalizeCertificate2)
  | ViewSyncPreCommitCertificateSend (c : ViewSyncPreCommitCertificate2) (sender : PubKey)
  | ViewSyncCommitCertificateSend (c : ViewSyncCommitCertificate2) (sender : PubKey)
  | ViewSyncFinalizeCertificateSend (c : ViewSyncFinalizeCertificate2) (sender : PubKey)
  | ViewSyncTrigger (view : ViewNumber)
  | Timeout (view : ViewNumber) (epoch : option EpochNumber)
  | TransactionsRecv (transactions : list Transaction)
  | TransactionSend (transaction : Transaction) (sender : PubKey)
  | SendPayloadCommitmentAndMetadata (commitment : VidCommitment) (builder : BuilderCommitment)
      (metadata : Metadata) (view : ViewNumber) (fees : list BuilderFee) (auction : option AuctionResult)
  | BlockRecv (b : PackedBundle)
  | VidDisperseSend (p : Proposal VidDisperse) (sender : PubKey)
  | VidShareRecv (sender : PubKey) (p : Proposal VidDisperseShare)
  | VidShareValidated (p : Proposal VidDisperseShare)
  | UpgradeProposalRecv (p : Proposal UpgradeProposal) (sender : PubKey)
  | UpgradeProposalSend (p : Proposal UpgradeProposal) (sender : PubKey)
  | UpgradeVoteRecv (v : SimpleVote UpgradeProposalData)
  | UpgradeVoteSend (v : SimpleVote UpgradeProposalData)
  | UpgradeCertificateFormed (c : UpgradeCertificate)
  | QuorumProposalPreliminarilyValidated (p : Proposal QuorumProposal2)
  | VidRequestSend (req : DataRequest) (sender recipient : PubKey)
  | VidRequestRecv (req : DataRequest) (sender : PubKey)
  | VidResponseSend (sender recipient : PubKey) (p : Proposal VidDisperseShare)
  | VidResponseRecv (sender : PubKey) (p : Proposal VidDisperseShare)
  | HighQcRecv (qc : QuorumCertificate2) (sender : PubKey)
  | HighQcSend (qc : QuorumCertificate2) (leader sender : PubKey).

(** [HotShotEvent::view_number] *)
Definition event_view (e : Event) : option ViewNumber :=
  match e with
  | QuorumVoteRecv v => Some (vote_view v)
  | TimeoutVoteRecv v | TimeoutVoteSend v => Some (vote_view v)
  | QuorumProposalRecv p _ | QuorumProposalSend p _ | QuorumProposalValidated p _
  | QuorumProposalResponseRecv p | QuorumProposalResponseSend _ p
  | QuorumProposalPreliminarilyValidated p => Some (p_view_number (proposal_data p))
  | QuorumVoteSend v | ExtendedQuorumVoteSend v => Some (vote_view v)
  | DaProposalRecv p _ | DaProposalValidated p _ | DaProposalSend p _ =>
      Some (dp2_view_number (proposal_data p))
  | DaVoteRecv v | DaVoteSend v => Some (vote_view v)
  | QcFormed (inl qc) => Some (view_number qc)
  | QcFormed (inr tc) => Some (view_number tc)
  | Qc2Formed (inl qc) => Some (view_number qc)
  | Qc2Formed (inr tc) => Some (view_number tc)
  | NextEpochQc2Formed (inl qc) => Some (view_number qc)
  | NextEpochQc2Formed (inr tc) => Some (view_number tc)
  | ViewSyncCommitVoteSend v | ViewSyncCommitVoteRecv v => Some (vote_view v)
  | ViewSyncPreCommitVoteRecv v | ViewSyncPreCommitVoteSend v => Some (vote_view v)
  | ViewSyncFinalizeVoteRecv v | ViewSyncFinalizeVoteSend v => Some (vote_view v)
  | ViewSyncPreCommitCertificateRecv c | ViewSyncPreCommitCertificateSend c _ => Some (view_number c)
  | ViewSyncCommitCertificateRecv c | ViewSyncCommitCertificateSend c _ => Some (view_number c)
  | ViewSyncFinalizeCertificateRecv c | ViewSyncFinalizeCertificateSend c _ => Some (view_number c)
  | SendPayloadCommitmentAndMetadata _ _ _ view _ _ => Some view
  | BlockRecv b => Some (pb_view_number b)
  | Shutdown | TransactionSend _ _ | TransactionsRecv _ => None
  | VidDisperseSend p _ => Some (disperse_view (proposal_data p))
  | VidShareRecv _ p | VidShareValidated p => Some (share_view (proposal_data p))
  | UpgradeProposalRecv p _ | UpgradeProposalSend p _ => Some (up_view_number (proposal_data p))
  | UpgradeVoteRecv v | UpgradeVoteSend v => Some (vote_view v)
  | QuorumProposalRequestSend req _ | QuorumProposalRequestRecv req _ => Some (req_view_number req)
  | ViewChange view _ | ViewSyncTimeout view _ _ | ViewSyncTrigger view | Timeout view _ => Some view
  | DaCertificateRecv c | DacSend c _ => Some (view_number c)
  | DaCertificateValidated c => Some (view_number c)
  | UpgradeCertificateFormed c => Some (view_number c)
  | VidRequestSend req _ _ | VidRequestRecv req _ => Some (dr_view req)
  | VidResponseSend _ _ p | VidResponseRecv _ p => Some (share_view (proposal_data p))
  | HighQcRecv qc _ | HighQcSend qc _ _ => Some (view_number qc)
  end.

(** The events of the vote collectors. *)
Definition of_vote_event (e : HotShotEvent) : Event :=
  match e with
  | VoteCollection.QuorumVoteRecv v => QuorumVoteRecv v
  | VoteCollection.DaVoteRecv v => DaVoteRecv v
  | VoteCollection.TimeoutVoteRecv v => TimeoutVoteRecv v
  | VoteCollection.UpgradeVoteRecv v => UpgradeVoteRecv v
  | VoteCollection.ViewSyncPreCommitVoteRecv v => ViewSyncPreCommitVoteRecv v
  | VoteCollection.ViewSyncCommitVoteRecv v => ViewSyncCommitVoteRecv v
  | VoteCollection.ViewSyncFinalizeVoteRecv v => ViewSyncFinalizeVoteRecv v
  | VoteCollection.QcFormed c => QcFormed (inl c)
  | VoteCollection.Qc2Formed c => Qc2Formed c
  | VoteCollection.NextEpochQc2Formed c => NextEpochQc2Formed (inl c)
  | VoteCollection.UpgradeCertificateFormed c => UpgradeCertificateFormed c
  | VoteCollection.DacSend c key => DacSend c key
  | VoteCollection.ViewSyncPreCommitCertificateSend c key => ViewSyncPreCommitCertificateSend c key
  | VoteCollection.ViewSyncCommitCertificateSend c key => ViewSyncCommitCertificateSend c key
  | VoteCollection.ViewSyncFinalizeCertificateSend c key => ViewSyncFinalizeCertificateSend c key
  end.
End Ev.
End Ev.
