(* ===== verification/Byzantine.v ===== *)
(** * Byzantine nodes of the test harness

    [testing/src/byzantine/byzantine_behaviour.rs], and the trait and the relay tasks of
    [hotshot/src/tasks/mod.rs] that put such a behaviour between the consensus tasks and the
    network tasks of a node.

    The set of views of dishonest proposals is shared by the nodes of a test, and so is the
    consensus state by the tasks of a node: both are passed along.  The hook of
    [DishonestVoting] that changes the network task is given by the test, and left out. *)

From S2P Require Import Prelude Epochs Crypto Committee Votes Certificates VoteAccumulator VoteCollection Data Vid Consensus Message Events.

Abbreviation Event := Ev.Event.

Section Byzantine.
Context `{Sg : SignatureScheme} `{Cm : Committable} `{Vt : VidTypes} `{Vs : Versions}.
Context `{Bt : !BlockTypes} `{Vd : !VidScheme} `{Bu : !BuilderTypes}.

Record Keys := { by_public_key : PubKey; by_private_key : PrivKey; by_upgrade_lock : UpgradeLock }.
Record Shared := { sh_consensus : Consensus; dishonest_proposal_view_numbers : gset ViewNumber }.

(** ** The interface *)

Class EventTransformerState (T : Type) := {
  recv_handler : T → Event → T * list Event;
  send_handler : Keys → T → Shared → Event → outcome Error (T * Shared * list Event);
}.

Definition pass {T} (t : T) (e : Event) : T * list Event := (t, [e]).

(** *** [BadProposalViewDos] *)

Record BadProposalViewDos := { multiplier : Z; increment : Z }.

Definition with_view (p : Proposal QuorumProposal2) (v : ViewNumber) : Proposal QuorumProposal2 :=
  let d := proposal_data p in
  {| proposal_data := {| p_block_header := p_block_header d; p_view_number := v; p_epoch := p_epoch d;
       p_justify_qc := p_justify_qc d; p_next_epoch_justify_qc := p_next_epoch_justify_qc d;
       p_upgrade_certificate := p_upgrade_certificate d; p_view_change_evidence := p_view_change_evidence d;
       p_next_drb_result := p_next_drb_result d |};
     proposal_signature := proposal_signature p |}.

Definition reset_shared_actions (sh : Shared) : Shared :=
  {| sh_consensus := reset_actions (sh_consensus sh); dishonest_proposal_view_numbers := dishonest_proposal_view_numbers sh |}.

#[global] Instance bad_proposal_view_dos : EventTransformerState BadProposalViewDos := {
  recv_handler := pass;
  send_handler _ t sh event :=
    match event with
    | Ev.QuorumProposalSend proposal signature =>
        Ok (t, reset_shared_actions sh,
            map (fun n => Ev.QuorumProposalSend
                   (with_view proposal (u64_add (p_view_number (proposal_data proposal)) (u64_mul n (increment t)))) signature)
                (seqZ 1 (multiplier t - 1)))
    | _ => Ok (t, sh, [event])
    end;
}.

(** *** [DoubleProposeVote] *)

Inductive DoubleProposeVote := DoubleProposeVote_new.

#[global] Instance double_propose_vote : EventTransformerState DoubleProposeVote := {
  recv_handler := pass;
  send_handler _ t sh event :=
    Ok (t, sh, match event with Ev.QuorumProposalSend _ _ | Ev.QuorumVoteSend _ => [event; event] | _ => [event] end);
}.

(** *** [DishonestLeader] *)

Record DishonestLeader := {
  validated_proposals : list QuorumProposal2;
  total_proposals_from_node : Z;
  dishonest_at_proposal_numbers : gset Z;
  view_look_back : nat;
}.

Definition with_justify_qc (p : Proposal QuorumProposal2) (qc : QuorumCertificate2) : Proposal QuorumProposal2 :=
  let d := proposal_data p in
  {| proposal_data := {| p_block_header := p_block_header d; p_view_number := p_view_number d; p_epoch := p_epoch d;
       p_justify_qc := qc; p_next_epoch_justify_qc := p_next_epoch_justify_qc d;
       p_upgrade_certificate := p_upgrade_certificate d; p_view_change_evidence := p_view_change_evidence d;
       p_next_drb_result := p_next_drb_result d |};
     proposal_signature := proposal_signature p |}.

Definition add_dishonest_view (sh : Shared) (v : ViewNumber) : Shared :=
  {| sh_consensus := sh_consensus sh; dishonest_proposal_view_numbers := {[v]} ∪ dishonest_proposal_view_numbers sh |}.

Definition handle_proposal_send_event (t : DishonestLeader) (sh : Shared) (event : Event)
    (proposal : Proposal QuorumProposal2) (sender : PubKey) : outcome Error (Shared * Event) :=
  let len := length (validated_proposals t) in
  if negb (bool_decide (total_proposals_from_node t ∈ dishonest_at_proposal_numbers t)) || (len =? 0)%nat then Ok (sh, event)
  else
    proposal_from_look_back ←
      index (validated_proposals t) (if (len - 1 <? view_look_back t)%nat then 0%nat else (len - 1 - view_look_back t)%nat);
    Ok (add_dishonest_view sh (p_view_number (proposal_data proposal)),
        Ev.QuorumProposalSend (with_justify_qc proposal (p_justify_qc proposal_from_look_back)) sender).

#[global] Instance dishonest_leader : EventTransformerState DishonestLeader := {
  recv_handler := pass;
  send_handler _ t sh event :=
    match event with
    | Ev.QuorumProposalSend proposal sender =>
        let t := {| validated_proposals := validated_proposals t; total_proposals_from_node := total_proposals_from_node t + 1;
                    dishonest_at_proposal_numbers := dishonest_at_proposal_numbers t; view_look_back := view_look_back t |} in
        '(sh, event) ← handle_proposal_send_event t sh event proposal sender;
        Ok (t, sh, [event])
    | Ev.QuorumProposalValidated proposal _ =>
        Ok ({| validated_proposals := validated_proposals t ++ [proposal_data proposal];
               total_proposals_from_node := total_proposals_from_node t;
               dishonest_at_proposal_numbers := dishonest_at_proposal_numbers t; view_look_back := view_look_back t |}, sh, [event])
    | _ => Ok (t, sh, [event])
    end;
}.

(** *** [DishonestDa] *)

Record DishonestDa := {
  total_da_certs_sent_from_node : Z;
  dishonest_at_da_cert_sent_numbers : gset Z;
  total_views_add_to_cert : Z;
}.

Definition with_cert_view (c : DaCertificate2) (v : ViewNumber) : DaCertificate2 :=
  {| data := data c; vote_commitment := vote_commitment c; view_number := v; signatures := signatures c |}.

#[global] Instance dishonest_da : EventTransformerState DishonestDa := {
  recv_handler := pass;
  send_handler _ t sh event :=
    match event with
    | Ev.DacSend cert sender =>
        let total := total_da_certs_sent_from_node t + 1 in
        let t := {| total_da_certs_sent_from_node := total;
                    dishonest_at_da_cert_sent_numbers := dishonest_at_da_cert_sent_numbers t;
                    total_views_add_to_cert := total_views_add_to_cert t |} in
        Ok (t, sh,
            if bool_decide (total ∈ dishonest_at_da_cert_sent_numbers t) then
              event :: map (fun i => Ev.DacSend (with_cert_view cert (u64_add (view_number cert) i)) sender)
                           (seqZ 1 (total_views_add_to_cert t))
            else [event])
    | _ => Ok (t, sh, [event])
    end;
}.

(** *** [ViewDelay] *)

Record ViewDelay := {
  number_of_views_to_delay : Z;
  events_for_view : gmap ViewNumber (list Event);
  stop_view_delay_at_view_number : Z;
}.

Definition set_events_for_view (t : ViewDelay) (m : gmap ViewNumber (list Event)) : ViewDelay :=
  {| number_of_views_to_delay := number_of_views_to_delay t; events_for_view := m;
     stop_view_delay_at_view_number := stop_view_delay_at_view_number t |}.

Definition view_delay_recv (t : ViewDelay) (event : Event) : ViewDelay * list Event :=
  match Ev.event_view event with
  | None => (t, [event])
  | Some v =>
      if stop_view_delay_at_view_number t <=? v then (t, [event])
      else
        let m := <[v := default [] (events_for_view t !! v) ++ [event]]> (events_for_view t) in
        let view_diff := Z.max 0 (v - number_of_views_to_delay t) in
        if 0 <? view_diff then (set_events_for_view t (delete view_diff m), default [] (m !! view_diff))
        else (set_events_for_view t m, [event])
  end.

#[global] Instance view_delay : EventTransformerState ViewDelay := {
  recv_handler := view_delay_recv;
  send_handler _ t sh event := Ok (t, sh, [event]);
}.

(** *** [DishonestVoting] *)

Record DishonestVoting := { view_increment : Z }.

(** [unwrap] of a [Result] *)
Definition unwrap_ok {A} (r : outcome Error A) : outcome Error A := match r with Ok a => Ok a | _ => Panic end.

#[global] Instance dishonest_voting : EventTransformerState DishonestVoting := {
  recv_handler := pass;
  send_handler keys t sh event :=
    match event with
    | Ev.QuorumVoteSend vote =>
        spoofed_vote ← unwrap_ok (create_signed_vote (vote_data vote) (u64_add (vote_view vote) (view_increment t))
          (by_public_key keys) (by_private_key keys) (by_upgrade_lock keys));
        Ok (t, sh, [Ev.QuorumVoteSend spoofed_vote])
    | _ => Ok (t, sh, [event])
    end;
}.

(** *** [DishonestVoter] *)

Record DishonestVoter := { votes_sent : list (SimpleVote QuorumData2) }.

#[global] Instance dishonest_voter : EventTransformerState DishonestVoter := {
  recv_handler := pass;
  send_handler keys t sh event :=
    match event with
    | Ev.QuorumProposalRecv proposal _ =>
        if bool_decide (p_view_number (proposal_data proposal) ∈ dishonest_proposal_view_numbers sh) then
          match last (votes_sent t) with
          | None => Panic
          | Some v =>
              vote ← unwrap_ok (create_signed_vote (vote_data v) (p_view_number (proposal_data proposal))
                (by_public_key keys) (by_private_key keys) (by_upgrade_lock keys));
              Ok (t, sh, [Ev.QuorumVoteSend vote])
          end
        else Ok (t, sh, [event])
    | Ev.TimeoutVoteSend vote =>
        Ok (t, sh, if bool_decide (vote_view vote ∈ dishonest_proposal_view_numbers sh) then [] else [event])
    | Ev.QuorumVoteSend vote => Ok ({| votes_sent := votes_sent t ++ [vote] |}, sh, [event])
    | _ => Ok (t, sh, [event])
    end;
}.

(** ** The relay tasks

    One passes the events of the consensus tasks through [send_handler] to the network
    tasks, the other passes what comes from the network through [recv_handler].  A handler
    that panics ends its task.  Both stop at a shutdown, which the first one passes on. *)

Inductive RelayInput := RelayShutdown | RelayEvent (e : Event) | RelayError | RelayClosed.

Section Relay.
Context {T : Type} `{Tr : !EventTransformerState T} (keys : Keys).

Fixpoint relay_send (t : T) (sh : Shared) (inputs : list RelayInput) : T * Shared * list Event :=
  match inputs with
  | [] | RelayClosed :: _ => (t, sh, [])
  | RelayShutdown :: _ => (t, sh, [Ev.Shutdown])
  | RelayError :: inputs => relay_send t sh inputs
  | RelayEvent e :: inputs =>
      match send_handler keys t sh e with
      | Ok (t, sh, results) => let '(t, sh, out) := relay_send t sh inputs in (t, sh, results ++ out)
      | _ => (t, sh, [])
      end
  end.

Fixpoint relay_recv (t : T) (inputs : list RelayInput) : T * list Event :=
  match inputs with
  | [] | RelayClosed :: _ | RelayShutdown :: _ => (t, [])
  | RelayError :: inputs => relay_recv t inputs
  | RelayEvent e :: inputs =>
      let '(t, results) := recv_handler t e in
      let '(t, out) := relay_recv t inputs in (t, results ++ out)
  end.
End Relay.
End Byzantine.

(** ** What the behaviours can achieve *)

Section Effects.
Context `{Sg : SignatureScheme} `{Cm : Committable} `{Vt : VidTypes} `{Vs : Versions}.
Context `{Bt : !BlockTypes} `{Vd : !VidScheme} `{Bu : !BuilderTypes}.
Context {Lm : CommittableLaws Cm} {signed : PubKey → bytes → Prop} {Ls : SignatureLaws Sg signed}.
Context {M : Type} `{Mb : !Membership M} (membership : M) (epoch_height : Z).
Implicit Types (p : Proposal QuorumProposal2).

Abbreviation leaf_of p := (leaf2_from_quorum_proposal (proposal_data p)).
Abbreviation view_of p := (p_view_number (proposal_data p)).

(** A proposal that passes the check of its signature was signed by a leader of its view. *)
Lemma checked_proposal_signed p :
  validate_signature p membership epoch_height = Ok tt →
  ∃ k e, leader membership (view_of p) e = Ok k ∧ signed k (as_ref (leaf2_commit (leaf_of p))).
Proof using Ls.
  unfold validate_signature. intros (k & Hk & Hs)%bind_ok_inv. apply ensure_ok_inv in Hs.
  eexists _, _. split; [exact Hk|]. by eapply verify_unforgeable.
Qed.

(** The leaders of a view sign no leaf of that view but the one of [p]. *)
Definition signs_only p (v : ViewNumber) : Prop :=
  ∀ k e l, leader membership v e = Ok k → leaf_view l = v → signed k (as_ref (leaf2_commit l)) →
    leaf2_commit l = leaf2_commit (leaf_of p).

Lemma with_justify_qc_rejected p qc :
  cert_commit qc ≠ cert_commit (p_justify_qc (proposal_data p)) → leaf_wf (leaf_of p) → signs_only p (view_of p) →
  validate_signature (with_justify_qc p qc) membership epoch_height ≠ Ok tt.
Proof using Lm Ls.
  intros Hqc Hwf Honly (k & e & Hk & Hs)%checked_proposal_signed.
  apply (Honly k e (leaf_of (with_justify_qc p qc)) Hk eq_refl) in Hs.
  apply leaf2_commit_inv in Hs as (_ & _ & _ & Hj & _); [done|done|done].
Qed.

(** A dishonest leader changes the certificate its proposal is justified with, and keeps the
    signature of the proposal: other nodes refuse every proposal it has changed, whatever the
    old certificate is, because of the signature. *)
Theorem dishonest_leaders_are_refused keys (t t' : DishonestLeader) sh sh' p sender out p' sender' :
  send_handler keys t sh (Ev.QuorumProposalSend p sender) = Ok (t', sh', out) → Ev.QuorumProposalSend p' sender' ∈ out →
  leaf_wf (leaf_of p) → signs_only p (view_of p) →
  p' = p ∨
  (∃ qc, p' = with_justify_qc p qc ∧ qc ∈ map p_justify_qc (validated_proposals t) ∧
     view_of p ∈ dishonest_proposal_view_numbers sh' ∧
     (cert_commit qc ≠ cert_commit (p_justify_qc (proposal_data p)) →
        validate_signature p' membership epoch_height ≠ Ok tt)).
Proof using Lm Ls.
  cbn [send_handler dishonest_leader]. unfold handle_proposal_send_event.
  intros ([sh1 ev] & Hh & Heq)%bind_ok_inv Hin Hwf Honly. apply Ok_inj in Heq. injection Heq as <- <- <-.
  apply list_elem_of_singleton in Hin. subst ev.
  destruct (negb _ || _); [injection Hh as _ <- _; by left|].
  apply bind_ok_inv in Hh as (old & Hold & Heq). apply Ok_inj in Heq. injection Heq as <- <- _. right.
  exists (p_justify_qc old). split_and!; [done| |set_solver|].
  - apply index_ok_inv in Hold. apply list_elem_of_fmap. exists old. split; [done|]. by eapply list_elem_of_lookup_2.
  - intros Hne. by apply with_justify_qc_rejected.
Qed.

(** The proposals of [BadProposalViewDos] keep their signature too, so that a leader of the
    view they are moved to must have signed them; and the node forgets what it has done, so
    that nothing stops it from sending them.  The proposal itself is not among them. *)
Lemma view_dos_proposals keys (t t' : BadProposalViewDos) sh sh' p sender out p' sender' :
  send_handler keys t sh (Ev.QuorumProposalSend p sender) = Ok (t', sh', out) → Ev.QuorumProposalSend p' sender' ∈ out →
  last_actions (sh_consensus sh') = action_views_default ∧ proposal_signature p' = proposal_signature p ∧
  (0 < increment t → 0 <= view_of p → view_of p + multiplier t * increment t < u64_modulus → view_of p < view_of p') ∧
  (validate_signature p' membership epoch_height = Ok tt →
     ∃ k e, leader membership (view_of p') e = Ok k ∧ signed k (as_ref (leaf2_commit (leaf_of p')))).
Proof using Ls.
  cbn [send_handler bad_proposal_view_dos]. intros Heq Hin. apply Ok_inj in Heq. injection Heq as <- <- <-.
  apply list_elem_of_fmap in Hin as (n & [= -> _] & Hn%elem_of_seqZ). split_and!; [done|done| |by apply checked_proposal_signed].
  intros Hi Hv Hlt. cbn [with_view proposal_data p_view_number]. unfold u64_add, u64_mul.
  rewrite (Z.mod_small (n * increment t)) by nia. rewrite Z.mod_small by nia. nia.
Qed.

(** A DA certificate that is moved to another view is not valid unless a quorum of the
    committee has signed its data for that view. *)
Lemma moved_certificates_need_signatures keys (t t' : DishonestDa) sh sh' c sender out c' sender' table thr lock :
  send_handler keys t sh (Ev.DacSend c sender) = Ok (t', sh', out) → Ev.DacSend c' sender' ∈ out →
  entries_ok table → view_number c' ≠ genesis_view → is_valid_cert c' table thr lock = Ok tt →
  data c' = data c ∧ signatures c' = signatures c ∧
  ∃ bits, thr <= weight table bits ∧ ∀ k, k ∈ ver_keys table bits → signed k (vote_message (data c) (view_number c')).
Proof using Lm Ls.
  cbn [send_handler dishonest_da]. intros Heq Hin He Hg Hv. apply Ok_inj in Heq. injection Heq as _ _ <-.
  assert (data c' = data c ∧ signatures c' = signatures c) as [Hd Hs].
  { case_bool_decide; [|apply list_elem_of_singleton in Hin as [= -> _]; done].
    apply elem_of_cons in Hin as [[= -> _]|Hin]; [done|]. by apply list_elem_of_fmap in Hin as (i & [= -> _] & _). }
  split_and!; [done..|]. apply valid_cert_inv in Hv as (sig & bits & w & _ & Hc); [|done].
  apply check_qc_inv in Hc as (_ & -> & Ht & Hm); [|done]. exists bits. split; [exact Ht|].
  rewrite <- Hd. apply multi_sig_unforgeable in Hm. by rewrite Forall_forall in Hm.
Qed.
End Effects.

(** ** Delays *)

Section Delays.
Context `{Sg : SignatureScheme} `{Cm : Committable} `{Vt : VidTypes} `{Vs : Versions}.
Context `{Bt : !BlockTypes} `{Vd : !VidScheme} `{Bu : !BuilderTypes}.
Implicit Types (t : ViewDelay) (e : Event).

(** What a delayed node makes of each event it receives. *)
Fixpoint delay_run t (es : list Event) : ViewDelay * list (Event * list Event) :=
  match es with
  | [] => (t, [])
  | e :: es =>
      let '(t, out) := recv_handler t e in
      let '(t, trace) := delay_run t es in (t, (e, out) :: trace)
  end.

(** The events that are kept have been received, and belong to the view they are kept for. *)
Definition kept_ok (past : list Event) t : Prop :=
  ∀ v l e, events_for_view t !! v = Some l → e ∈ l → e ∈ past ∧ Ev.event_view e = Some v.

Lemma kept_ok_recv past t e t' out :
  kept_ok past t → recv_handler t e = (t', out) →
  kept_ok (past ++ [e]) t' ∧
  number_of_views_to_delay t' = number_of_views_to_delay t ∧
  stop_view_delay_at_view_number t' = stop_view_delay_at_view_number t ∧
  (out = [e] ∨ ∃ v, Ev.event_view e = Some v ∧ v < stop_view_delay_at_view_number t ∧
     number_of_views_to_delay t < v ∧
     ∀ e', e' ∈ out → e' ∈ past ++ [e] ∧ Ev.event_view e' = Some (v - number_of_views_to_delay t)).
Proof using Type.
  intros Hk. simpl. unfold view_delay_recv.
  assert (kept_ok (past ++ [e]) t) as Hk' by (intros v l e' Hl He; destruct (Hk _ _ _ Hl He); set_solver).
  destruct (Ev.event_view e) as [v|] eqn:Hv; [|intros [= <- <-]; auto].
  destruct (Z.leb_spec (stop_view_delay_at_view_number t) v); [intros [= <- <-]; auto|].
  set (m := <[v := _]> _).
  assert (∀ v' l e', m !! v' = Some l → e' ∈ l → e' ∈ past ++ [e] ∧ Ev.event_view e' = Some v') as Hm.
  { intros v' l e' Hl He'. unfold m in Hl. destruct (decide (v' = v)) as [->|?].
    - rewrite lookup_insert_eq in Hl. injection Hl as <-. apply elem_of_app in He' as [He'|He'%list_elem_of_singleton]; [|set_solver].
      destruct (events_for_view t !! v) as [l|] eqn:Hl; [|by apply elem_of_nil in He']. by eapply Hk'.
    - rewrite lookup_insert_ne in Hl by done. by eapply Hk'. }
  destruct (Z.ltb_spec 0 (Z.max 0 (v - number_of_views_to_delay t))) as [Hd|Hd]; intros [= <- <-].
  - split_and!; [|done|done|].
    + intros v' l e' Hl He'. simpl in Hl. apply lookup_delete_Some in Hl as [_ Hl]. by eapply Hm.
    + right. exists v. split_and!; [done|done|lia|]. intros e' He'. replace (v - number_of_views_to_delay t) with
        (Z.max 0 (v - number_of_views_to_delay t)) by lia.
      destruct (m !! _) as [l|] eqn:Hl; [|by apply elem_of_nil in He']. by eapply Hm.
  - split_and!; [|done|done|by left]. exact Hm.
Qed.

Lemma delay_run_old past t es t' trace e out :
  kept_ok past t → delay_run t es = (t', trace) → (e, out) ∈ trace →
  out = [e] ∨ ∃ v, Ev.event_view e = Some v ∧ v < stop_view_delay_at_view_number t ∧ number_of_views_to_delay t < v ∧
     ∀ e', e' ∈ out → e' ∈ past ++ es ∧ Ev.event_view e' = Some (v - number_of_views_to_delay t).
Proof using Type.
  revert past t trace. induction es as [|e0 es IH]; intros past t trace Hk; cbn [delay_run];
    [intros [= <- <-]; by intros ?%elem_of_nil|].
  destruct (recv_handler t e0) as [t1 out1] eqn:Hr. destruct (delay_run t1 es) as [t2 tr] eqn:Hd. intros [= <- <-] Hin.
  destruct (kept_ok_recv _ _ _ _ _ Hk Hr) as (Hk1 & Hn & Hs & Hout).
  replace (past ++ e0 :: es) with ((past ++ [e0]) ++ es) by by rewrite <- app_assoc.
  apply elem_of_cons in Hin as [[= -> ->]|Hin].
  - destruct Hout as [->|(v & ? & ? & ? & He)]; [by left|right]. exists v. split_and!; [done..|].
    intros e' [? ?]%He. split; [apply elem_of_app; by left|done].
  - rewrite <- Hn, <- Hs. by eapply (IH (past ++ [e0]) t1).
Qed.

(** A node that delays views lets an event through at once, or lets through what it has
    received for the view that is as far back as it delays. *)
Theorem delayed_events_are_old t es t' trace e out :
  events_for_view t = ∅ → delay_run t es = (t', trace) → (e, out) ∈ trace →
  out = [e] ∨ ∃ v, Ev.event_view e = Some v ∧ v < stop_view_delay_at_view_number t ∧ number_of_views_to_delay t < v ∧
     ∀ e', e' ∈ out → e' ∈ es ∧ Ev.event_view e' = Some (v - number_of_views_to_delay t).
Proof using Type. intros H0. apply (delay_run_old []). intros v l e' Hl. by rewrite H0, lookup_empty in Hl. Qed.

(** An event of one of the first views is let through at once and once more when the event
    comes that it was kept for. *)
Lemma early_events_come_twice t e1 e2 u :
  events_for_view t = ∅ → Ev.event_view e1 = Some u → 0 < u <= number_of_views_to_delay t →
  Ev.event_view e2 = Some (u + number_of_views_to_delay t) → u + number_of_views_to_delay t < stop_view_delay_at_view_number t →
  (delay_run t [e1; e2]).2 = [(e1, [e1]); (e2, [e1])].
Proof using Type.
  intros H0 H1 Hu H2 Hstop. cbn [delay_run recv_handler view_delay]. unfold view_delay_recv. rewrite H1.
  destruct (Z.leb_spec (stop_view_delay_at_view_number t) u); [lia|].
  destruct (Z.ltb_spec 0 (Z.max 0 (u - number_of_views_to_delay t))); [lia|]. rewrite H2. simpl.
  destruct (Z.leb_spec (stop_view_delay_at_view_number t) (u + number_of_views_to_delay t)); [lia|].
  replace (Z.max 0 (u + number_of_views_to_delay t - number_of_views_to_delay t)) with u by lia.
  destruct (Z.ltb_spec 0 u); [|lia]. simpl. rewrite H0, !lookup_insert_ne, lookup_insert_eq by lia. done.
Qed.

(** ** Voting for dishonest proposals *)

(** A dishonest voter that has not voted before panics on the first dishonest proposal, and
    its relay passes nothing on any more. *)
Lemma first_dishonest_vote_panics keys sh p sender inputs :
  p_view_number (proposal_data p) ∈ dishonest_proposal_view_numbers sh →
  relay_send keys {| votes_sent := [] |} sh (RelayEvent (Ev.QuorumProposalRecv p sender) :: inputs) =
    ({| votes_sent := [] |}, sh, []).
Proof using Type. intros H. cbn [relay_send send_handler dishonest_voter]. by rewrite bool_decide_eq_true_2 by done. Qed.

(** Otherwise it votes in the view of the proposal for what it has voted for last. *)
Lemma dishonest_votes keys votes v sh p sender vote :
  p_view_number (proposal_data p) ∈ dishonest_proposal_view_numbers sh →
  create_signed_vote (vote_data v) (p_view_number (proposal_data p)) (by_public_key keys) (by_private_key keys)
    (by_upgrade_lock keys) = Ok vote →
  relay_send keys {| votes_sent := votes ++ [v] |} sh [RelayEvent (Ev.QuorumProposalRecv p sender)] =
    ({| votes_sent := votes ++ [v] |}, sh, [Ev.QuorumVoteSend vote]).
Proof using Type.
  intros Hin Hv. cbn [relay_send send_handler dishonest_voter votes_sent]. rewrite bool_decide_eq_true_2 by done.
  rewrite last_snoc, Hv. done.
Qed.
End Delays.
