(* ===== verification/Network.v ===== *)
(** * The network task

    [task-impls/src/network.rs].  [handle_message] turns a message from the
    network into an internal event.  [parse_event] turns an internal event into a
    message; [spawn_transmit_task] spawns the job that records the action in the
    consensus state and in storage and puts the message on the wire.

    A job is a future that waits for the lock of the consensus state, for the storage and
    for the network: [JobBody] is what is left of it, cut at its awaits, [run_part] runs it
    to the next one, and [node_step] interleaves the parts of all jobs with the other tasks.
    The network and the storage are outside: a part returns the packet it hands to the
    network, and a [Storage] answers each write with a new storage or an error.
    [transmit_tasks] holds the jobs that have been spawned and not cancelled. *)

From S2P Require Import Prelude Epochs Crypto Committee Votes Certificates VoteAccumulator VoteCollection Data Vid Consensus ConsensusProofs Task Message Events.
Import Ev.

(** The writes the task makes to storage. *)
Class Storage `{BlockTypes} (S : Type) := {
  record_action : S → ViewNumber → option EpochNumber → HotShotAction → option S;
  append_proposal2 : S → Proposal QuorumProposal2 → option S;
}.

Section Network.
Context `{Sg : SignatureScheme} `{Cm : Committable} `{Vt : VidTypes} `{Vs : Versions}.
Context `{Bt : !BlockTypes} `{Vd : !VidScheme} `{Bu : !BuilderTypes}.
Context {M : Type} `{Mb : !Membership M}.
Context `{Vb : !Vbs (Message Transaction)}.
Context {St : Type} `{So : !Storage St}.

(** ** Messages from the network *)

(** The hash of a transaction, and [LruCache::put] of a hash, which says whether
    it was there already. *)
Context {Cache : Type} (transaction_hash : Transaction → Z) (cache_put : Cache → Z → Cache * bool).

Record NetworkMessageTaskState := {
  nm_public_key : PubKey;
  transactions_cache : Cache;
  nm_upgrade_lock : UpgradeLock;
}.

(** An event for the other tasks, or for the application. *)
Inductive NetOut :=
  | Internal (e : Event)
  | ExternalMessageReceived (sender : PubKey) (data : bytes).

(** A message of the first generation is refused in a view with epochs, one of
    the second generation in a view without. *)
Definition first_gen (lock : UpgradeLock) (view : ViewNumber) (e : Event) : list NetOut :=
  if epochs_enabled lock view then [] else [Internal e].
Definition second_gen (lock : UpgradeLock) (view : ViewNumber) (e : Event) : list NetOut :=
  if epochs_enabled lock view then [Internal e] else [].

Definition handle_view_sync_message (lock : UpgradeLock) (m : GeneralConsensusMessage) : list NetOut :=
  match m with
  | MsgViewSyncPreCommitVote v => first_gen lock (vote_view v) (ViewSyncPreCommitVoteRecv (pre_commit_to_vote2 v))
  | MsgViewSyncPreCommitVote2 v => second_gen lock (vote_view v) (ViewSyncPreCommitVoteRecv v)
  | MsgViewSyncPreCommitCertificate c =>
      first_gen lock (view_number c) (ViewSyncPreCommitCertificateRecv (pre_commit_to_vsc2 c))
  | MsgViewSyncPreCommitCertificate2 c => second_gen lock (view_number c) (ViewSyncPreCommitCertificateRecv c)
  | MsgViewSyncCommitVote v => first_gen lock (vote_view v) (ViewSyncCommitVoteRecv (commit_to_vote2 v))
  | MsgViewSyncCommitVote2 v => second_gen lock (vote_view v) (ViewSyncCommitVoteRecv v)
  | MsgViewSyncCommitCertificate c =>
      first_gen lock (view_number c) (ViewSyncCommitCertificateRecv (commit_to_vsc2 c))
  | MsgViewSyncCommitCertificate2 c => second_gen lock (view_number c) (ViewSyncCommitCertificateRecv c)
  | MsgViewSyncFinalizeVote v => first_gen lock (vote_view v) (ViewSyncFinalizeVoteRecv (finalize_to_vote2 v))
  | MsgViewSyncFinalizeVote2 v => second_gen lock (vote_view v) (ViewSyncFinalizeVoteRecv v)
  | MsgViewSyncFinalizeCertificate c =>
      first_gen lock (view_number c) (ViewSyncFinalizeCertificateRecv (finalize_to_vsc2 c))
  | MsgViewSyncFinalizeCertificate2 c => second_gen lock (view_number c) (ViewSyncFinalizeCertificateRecv c)
  | _ => []
  end.

Definition handle_general (lock : UpgradeLock) (sender : PubKey) (m : GeneralConsensusMessage)
    : list NetOut :=
  match m with
  | MsgProposal p =>
      first_gen lock (qp_view_number (proposal_data p)) (QuorumProposalRecv (convert_proposal quorum_proposal2 p) sender)
  | MsgProposal2 p => second_gen lock (p_view_number (proposal_data p)) (QuorumProposalRecv p sender)
  | MsgProposalRequested req sig => [Internal (QuorumProposalRequestRecv req sig)]
  | MsgProposalResponse p =>
      first_gen lock (qp_view_number (proposal_data p)) (QuorumProposalResponseRecv (convert_proposal quorum_proposal2 p))
  | MsgProposalResponse2 p => second_gen lock (p_view_number (proposal_data p)) (QuorumProposalResponseRecv p)
  | MsgVote v => first_gen lock (vote_view v) (QuorumVoteRecv (quorum_to_vote2 v))
  | MsgVote2 v => second_gen lock (vote_view v) (QuorumVoteRecv v)
  | MsgViewSyncPreCommitVote _ | MsgViewSyncPreCommitVote2 _ | MsgViewSyncPreCommitCertificate _
  | MsgViewSyncPreCommitCertificate2 _ | MsgViewSyncCommitVote _ | MsgViewSyncCommitVote2 _
  | MsgViewSyncCommitCertificate _ | MsgViewSyncCommitCertificate2 _ | MsgViewSyncFinalizeVote _
  | MsgViewSyncFinalizeVote2 _ | MsgViewSyncFinalizeCertificate _ | MsgViewSyncFinalizeCertificate2 _ =>
      handle_view_sync_message lock m
  | MsgTimeoutVote v => first_gen lock (vote_view v) (TimeoutVoteRecv (timeout_to_vote2 v))
  | MsgTimeoutVote2 v => second_gen lock (vote_view v) (TimeoutVoteRecv v)
  | MsgUpgradeProposal p => [Internal (UpgradeProposalRecv p sender)]
  | MsgUpgradeVote v => [Internal (UpgradeVoteRecv v)]
  | MsgHighQc qc => [Internal (HighQcRecv qc sender)]
  end.

Definition handle_da_message (lock : UpgradeLock) (sender : PubKey) (m : DaConsensusMessage)
    : list NetOut :=
  match m with
  | MsgDaProposal p =>
      first_gen lock (dp_view_number (proposal_data p)) (DaProposalRecv (convert_proposal da_proposal2 p) sender)
  | MsgDaProposal2 p => second_gen lock (dp2_view_number (proposal_data p)) (DaProposalRecv p sender)
  | MsgDaVote v => first_gen lock (vote_view v) (DaVoteRecv (da_to_vote2 v))
  | MsgDaVote2 v => second_gen lock (vote_view v) (DaVoteRecv v)
  | MsgDaCertificate c => first_gen lock (view_number c) (DaCertificateRecv (to_dac2 c))
  | MsgDaCertificate2 c => second_gen lock (view_number c) (DaCertificateRecv c)
  | VidDisperseMsg p =>
      first_gen lock (as_view_number (proposal_data p)) (VidShareRecv sender (convert_proposal ShareV0 p))
  | VidDisperseMsg2 p =>
      second_gen lock (vs_view_number (proposal_data p)) (VidShareRecv sender (convert_proposal ShareV1 p))
  end.

Definition set_transactions_cache (s : NetworkMessageTaskState) (cache : Cache) : NetworkMessageTaskState :=
  {| nm_public_key := nm_public_key s; transactions_cache := cache; nm_upgrade_lock := nm_upgrade_lock s |}.

Definition handle_message (s : NetworkMessageTaskState) (message : Message Transaction)
    : NetworkMessageTaskState * list NetOut :=
  let sender := msg_sender message in
  match msg_kind message with
  | KConsensus (General m) => (s, handle_general (nm_upgrade_lock s) sender m)
  | KConsensus (Da m) => (s, handle_da_message (nm_upgrade_lock s) sender m)
  | KData (SubmitTransaction transaction _) =>
      let '(cache, seen) := cache_put (transactions_cache s) (transaction_hash transaction) in
      (set_transactions_cache s cache,
       if seen then [] else [Internal (TransactionsRecv [transaction])])
  | KData (DataResponse (Found (Da (VidDisperseMsg p)))) =>
      (s, [Internal (VidResponseRecv sender (convert_proposal ShareV0 p))])
  | KData (DataResponse (Found (Da (VidDisperseMsg2 p)))) =>
      (s, [Internal (VidResponseRecv sender (convert_proposal ShareV1 p))])
  | KData (DataResponse _) => (s, [])
  | KData (RequestData data) =>
      (s, match dr_request data with
          | RequestVid _ _ => [Internal (VidRequestRecv data sender)]
          | _ => []
          end)
  | KExternal data =>
      (s, if bool_decide (sender = nm_public_key s) then [] else [ExternalMessageReceived sender data])
  end.

(** ** Events to the network *)

Inductive TransmitType := Direct (recipient : PubKey) | Broadcast | DaCommitteeBroadcast.
Inductive BroadcastDelay := DelayNone | DelayView (view : Z).

(** A job that [spawn_transmit_task] spawns. *)
Record TransmitTask := {
  tt_action : option HotShotAction;
  tt_message : Message Transaction;
  tt_transmit : TransmitType;
  tt_delay : BroadcastDelay;
  tt_da_committee : gset PubKey;
}.
Inductive Job :=
  | TransmitJob (t : TransmitTask)
  | VidJob (view : ViewNumber) (epoch : option EpochNumber) (messages : gmap PubKey bytes)
  | UpdateViewJob (view : ViewNumber) (epoch : option EpochNumber).

Record NetworkEventTaskState := {
  ne_view : ViewNumber;
  ne_epoch : option EpochNumber;
  transmit_tasks : gmap ViewNumber (list TransmitTask);
}.
Context (membership : M) (lock : UpgradeLock).

Abbreviation net := (task NetworkEventTaskState Job Error).

(** [MessageKind::from_consensus_message] in the generation of the view. *)
Definition general_message (view : ViewNumber) (m2 m1 : GeneralConsensusMessage) : MessageKind Transaction :=
  KConsensus (General (if epochs_enabled lock view then m2 else m1)).
Definition da_message (view : ViewNumber) (m2 m1 : DaConsensusMessage) : MessageKind Transaction :=
  KConsensus (Da (if epochs_enabled lock view then m2 else m1)).

(** A message for the leader of a view, if the leader is known. *)
Definition to_leader (view : ViewNumber) (epoch : option EpochNumber) (sender : PubKey)
    (kind : MessageKind Transaction) : net (option (PubKey * MessageKind Transaction * TransmitType)) :=
  match leader membership view epoch with
  | Ok l => mret (Some (sender, kind, Direct l))
  | Err _ => mret None
  | Panic => lift Panic
  end.

(** The share of one recipient as a message, unless it is of the wrong
    generation. *)
Definition vid_share_message (p : Proposal VidDisperseShare) : option (MessageKind Transaction) :=
  if epochs_enabled lock (share_view (proposal_data p)) then
    match proposal_data p with
    | ShareV1 data => Some (KConsensus (Da (VidDisperseMsg2
        {| proposal_data := data; proposal_signature := proposal_signature p |})))
    | ShareV0 _ => None
    end
  else
    match proposal_data p with
    | ShareV0 data => Some (KConsensus (Da (VidDisperseMsg
        {| proposal_data := data; proposal_signature := proposal_signature p |})))
    | ShareV1 _ => None
    end.

(** The loop over the shares: a share of the wrong generation ends the function,
    a message that does not serialize is left out. *)
Fixpoint vid_messages (sender : PubKey) (proposals : list (Proposal VidDisperseShare))
    (messages : gmap PubKey bytes) : option (gmap PubKey bytes) :=
  match proposals with
  | [] => Some messages
  | p :: proposals =>
      match vid_share_message p with
      | None => None
      | Some kind =>
          match serialize lock {| msg_sender := sender; msg_kind := kind |} with
          | Ok b => vid_messages sender proposals (<[recipient_key (proposal_data p) := b]> messages)
          | _ => vid_messages sender proposals messages
          end
      end
  end.

Definition handle_vid_disperse_proposal (vid_proposal : Proposal VidDisperse) (sender : PubKey) : net unit :=
  match vid_messages sender (to_vid_share_proposals vid_proposal) ∅ with
  | None => mret tt
  | Some messages =>
      emit (VidJob (disperse_view (proposal_data vid_proposal)) (disperse_epoch (proposal_data vid_proposal)) messages)
  end.

(** The jobs of earlier views are aborted: they leave the map. *)
Definition cancel_tasks (view : ViewNumber) (s : NetworkEventTaskState) : NetworkEventTaskState :=
  {| ne_view := ne_view s; ne_epoch := ne_epoch s; transmit_tasks := split_off (transmit_tasks s) view |}.

Definition parsed : Type := option HotShotAction * option (PubKey * MessageKind Transaction * TransmitType).

Definition parse_view_sync_event (s : NetworkEventTaskState) (event : Event) : net parsed :=
  match event with
  | ViewSyncPreCommitVoteSend v =>
      r ← to_leader (wrapper_add (vote_view v) (vsp2_relay (date v))) (ne_epoch s) (signing_key v)
            (general_message (vote_view v) (MsgViewSyncPreCommitVote2 v) (MsgViewSyncPreCommitVote (pre_commit_to_vote v)));
      mret (None, r)
  | ViewSyncCommitVoteSend v =>
      r ← to_leader (wrapper_add (vote_view v) (vsc2_relay (date v))) (ne_epoch s) (signing_key v)
            (general_message (vote_view v) (MsgViewSyncCommitVote2 v) (MsgViewSyncCommitVote (commit_to_vote v)));
      mret (Some ViewSyncVote, r)
  | ViewSyncFinalizeVoteSend v =>
      r ← to_leader (wrapper_add (vote_view v) (vsf2_relay (date v))) (ne_epoch s) (signing_key v)
            (general_message (vote_view v) (MsgViewSyncFinalizeVote2 v) (MsgViewSyncFinalizeVote (finalize_to_vote v)));
      mret (Some ViewSyncVote, r)
  | ViewSyncPreCommitCertificateSend c sender =>
      mret (None, Some (sender,
        general_message (view_number c) (MsgViewSyncPreCommitCertificate2 c)
          (MsgViewSyncPreCommitCertificate (pre_commit_to_vsc c)), Broadcast))
  | ViewSyncCommitCertificateSend c sender =>
      mret (None, Some (sender,
        general_message (view_number c) (MsgViewSyncCommitCertificate2 c)
          (MsgViewSyncCommitCertificate (commit_to_vsc c)), Broadcast))
  | ViewSyncFinalizeCertificateSend c sender =>
      mret (None, Some (sender,
        general_message (view_number c) (MsgViewSyncFinalizeCertificate2 c)
          (MsgViewSyncFinalizeCertificate (finalize_to_vsc c)), Broadcast))
  | _ => mret (None, None)
  end.

Definition parse_vid_response (sender to : PubKey) (p : Proposal VidDisperseShare)
    : option (PubKey * MessageKind Transaction * TransmitType) :=
  let enabled := epochs_enabled lock (share_view (proposal_data p)) in
  match proposal_data p with
  | ShareV0 data =>
      if enabled then None
      else Some (sender, KData (DataResponse (Found (Da (VidDisperseMsg
             {| proposal_data := data; proposal_signature := proposal_signature p |})))), Direct to)
  | ShareV1 data =>
      if enabled then Some (sender, KData (DataResponse (Found (Da (VidDisperseMsg2
             {| proposal_data := data; proposal_signature := proposal_signature p |})))), Direct to)
      else None
  end.

Definition parse_event (event : Event) : net parsed :=
  s ← get;
  match event with
  | QuorumProposalSend p sender =>
      let view := p_view_number (proposal_data p) in
      mret (Some Propose, Some (sender,
        general_message view (MsgProposal2 p) (MsgProposal (convert_proposal quorum_proposal p)), Broadcast))
  | QuorumVoteSend v =>
      r ← to_leader (wrapper_add (vote_view v) 1) (q2_epoch (vote_data v)) (signing_key v)
            (general_message (vote_view v) (MsgVote2 v) (MsgVote (quorum_to_vote v)));
      mret (Some Vote, r)
  | ExtendedQuorumVoteSend v =>
      mret (Some Vote, Some (signing_key v,
        general_message (vote_view v) (MsgVote2 v) (MsgVote (quorum_to_vote v)), Broadcast))
  | QuorumProposalRequestSend req sig =>
      mret (None, Some (req_key req, KConsensus (General (MsgProposalRequested req sig)), Broadcast))
  | QuorumProposalResponseSend sender_key p =>
      mret (None, Some (sender_key,
        general_message (p_view_number (proposal_data p)) (MsgProposalResponse2 p)
          (MsgProposalResponse (convert_proposal quorum_proposal p)), Direct sender_key))
  | VidDisperseSend p sender => _ ← handle_vid_disperse_proposal p sender; mret (None, None)
  | DaProposalSend p sender =>
      mret (Some DaPropose, Some (sender,
        da_message (dp2_view_number (proposal_data p)) (MsgDaProposal2 p) (MsgDaProposal (convert_proposal da_proposal p)),
        DaCommitteeBroadcast))
  | DaVoteSend v =>
      r ← to_leader (vote_view v) (da2_epoch (vote_data v)) (signing_key v)
            (da_message (vote_view v) (MsgDaVote2 v) (MsgDaVote (da_to_vote v)));
      mret (Some DaVote, r)
  | DacSend c sender =>
      mret (Some DaCert, Some (sender,
        da_message (view_number c) (MsgDaCertificate2 c) (MsgDaCertificate (to_dac c)), Broadcast))
  | ViewSyncPreCommitVoteSend _ | ViewSyncCommitVoteSend _ | ViewSyncFinalizeVoteSend _
  | ViewSyncPreCommitCertificateSend _ _ | ViewSyncCommitCertificateSend _ _
  | ViewSyncFinalizeCertificateSend _ _ => parse_view_sync_event s event
  | TimeoutVoteSend v =>
      r ← to_leader (wrapper_add (vote_view v) 1) (ne_epoch s) (signing_key v)
            (general_message (vote_view v) (MsgTimeoutVote2 v) (MsgTimeoutVote (timeout_to_vote v)));
      mret (Some Vote, r)
  | UpgradeProposalSend p sender =>
      mret (None, Some (sender, KConsensus (General (MsgUpgradeProposal p)), Broadcast))
  | UpgradeVoteSend v =>
      r ← to_leader (vote_view v) (ne_epoch s) (signing_key v) (KConsensus (General (MsgUpgradeVote v)));
      mret (None, r)
  | ViewChange view epoch =>
      let epoch := if epoch_gt epoch (ne_epoch s) then epoch else ne_epoch s in
      let keep_view := saturating_sub view 1 in
      _ ← modify (fun s => cancel_tasks keep_view
            {| ne_view := view; ne_epoch := epoch; transmit_tasks := transmit_tasks s |});
      _ ← emit (UpdateViewJob keep_view epoch);
      mret (None, None)
  | VidRequestSend req sender to => mret (None, Some (sender, KData (RequestData req), Direct to))
  | VidResponseSend sender to p => mret (None, parse_vid_response sender to p)
  | HighQcSend qc l sender => mret (None, Some (sender, KConsensus (General (MsgHighQc qc)), Direct l))
  | _ => mret (None, None)
  end.

(** Only first-generation votes and DA messages are delayed. *)
Definition broadcast_delay (kind : MessageKind Transaction) : BroadcastDelay :=
  match kind with
  | KConsensus (General (MsgVote _)) | KConsensus (Da _) => DelayView (kind_view_number kind)
  | _ => DelayNone
  end.

Definition push_task (s : NetworkEventTaskState) (view : ViewNumber) (t : TransmitTask) : NetworkEventTaskState :=
  {| ne_view := ne_view s; ne_epoch := ne_epoch s;
     transmit_tasks := <[view := default [] (transmit_tasks s !! view) ++ [t]]> (transmit_tasks s) |}.

Definition spawn_transmit_task (kind : MessageKind Transaction) (action : option HotShotAction)
    (transmit : TransmitType) (sender : PubKey) : net unit :=
  s ← get;
  let view := kind_view_number kind in
  da_committee ← lift (da_committee_members membership view (ne_epoch s));
  let t := {| tt_action := action; tt_message := {| msg_sender := sender; msg_kind := kind |};
              tt_transmit := transmit; tt_delay := broadcast_delay kind; tt_da_committee := da_committee |} in
  _ ← emit (TransmitJob t);
  modify (fun s => push_task s view t).

Definition network_handle (event : Event) : net unit :=
  '(action, r) ← parse_event event;
  match r with
  | Some (sender, kind, transmit) => spawn_transmit_task kind action transmit sender
  | None => mret tt
  end.

(** ** Jobs *)

(** What a job hands to the network. *)
Inductive Packet :=
  | DirectMessage (message : bytes) (recipient : PubKey)
  | BroadcastMessage (message : bytes) (delay : BroadcastDelay)
  | DaBroadcastMessage (message : bytes) (recipients : list PubKey) (delay : BroadcastDelay)
  | VidBroadcastMessage (messages : gmap PubKey bytes)
  | UpdateView (view : ViewNumber) (epoch : option EpochNumber).

(** The body of a spawned job.  It is a future: the runtime may run another task wherever it
    awaits, so it is kept as what is left to do, cut at the awaits.  Each constructor is one
    uninterrupted part (a call made under the lock of the consensus state or of the
    storage, a serialization, a call of the network) with what follows its result. *)
Inductive JobBody :=
  | Returned
  | AwaitUpdateAction (action : HotShotAction) (view : ViewNumber) (k : bool → JobBody)
  | AwaitRecordAction (view : ViewNumber) (epoch : option EpochNumber) (action : HotShotAction) (k : bool → JobBody)
  | AwaitAppendProposal2 (proposal : Proposal QuorumProposal2) (k : bool → JobBody)
  | AwaitSerialize (message : Message Transaction) (k : option bytes → JobBody)
  | AwaitSend (packet : Packet).

(** [k true] follows [Ok(())], [k false] follows [Err(())]. *)
Definition maybe_record_action (maybe_action : option HotShotAction) (view : ViewNumber)
    (epoch : option EpochNumber) (k : bool → JobBody) : JobBody :=
  match maybe_action with
  | Some action =>
      AwaitUpdateAction action view (fun permitted =>
        if negb permitted then k false
        else
          let action := match action with ViewSyncVote => Vote | action => action end in
          AwaitRecordAction view epoch action (fun ok => if ok then k true else k false))
  | None => k true
  end.

(** The proposal is stored before it is sent. *)
Definition store_own_proposal (kind : MessageKind Transaction) (k : bool → JobBody) : JobBody :=
  match kind with
  | KConsensus (General (MsgProposal p)) => AwaitAppendProposal2 (convert_proposal quorum_proposal2 p) k
  | _ => k true
  end.

Definition transmit (t : TransmitTask) (message : bytes) : Packet :=
  match tt_transmit t with
  | Direct recipient => DirectMessage message recipient
  | Broadcast => BroadcastMessage message (tt_delay t)
  | DaCommitteeBroadcast => DaBroadcastMessage message (elements (tt_da_committee t)) (tt_delay t)
  end.

Definition job_body (j : Job) : JobBody :=
  match j with
  | TransmitJob t =>
      let kind := msg_kind (tt_message t) in
      maybe_record_action (tt_action t) (kind_view_number kind) (kind_epoch kind) (fun recorded =>
        if negb recorded then Returned
        else store_own_proposal kind (fun stored =>
          if negb stored then Returned
          else AwaitSerialize (tt_message t) (fun serialized_message =>
            match serialized_message with
            | Some b => AwaitSend (transmit t b)
            | None => Returned
            end)))
  | VidJob view epoch messages =>
      maybe_record_action (Some VidDisperse_) view epoch (fun recorded =>
        if negb recorded then Returned else AwaitSend (VidBroadcastMessage messages))
  | UpdateViewJob view epoch => AwaitSend (UpdateView view epoch)
  end.

(** One uninterrupted part of a job: what is left of it, and what it hands to the network. *)
Definition run_part (body : JobBody) (cs : Consensus * St) : Consensus * St * JobBody * option Packet :=
  let '(c, st) := cs in
  match body with
  | Returned => (c, st, Returned, None)
  | AwaitUpdateAction action view k =>
      let '(c, permitted) := update_action c action view in (c, st, k permitted, None)
  | AwaitRecordAction view epoch action k =>
      match record_action st view epoch action with
      | Some st => (c, st, k true, None)
      | None => (c, st, k false, None)
      end
  | AwaitAppendProposal2 proposal k =>
      match append_proposal2 st proposal with
      | Some st => (c, st, k true, None)
      | None => (c, st, k false, None)
      end
  | AwaitSerialize message k =>
      match serialize lock message with
      | Ok b => (c, st, k (Some b), None)
      | _ => (c, st, k None, None)
      end
  | AwaitSend packet => (c, st, Returned, Some packet)
  end.
End Network.

(** ** A node and its wire

    The network task of a node runs beside its other tasks: their critical sections change
    the consensus state, the jobs run part by part in any order, so that one may overtake
    another, and a job may be aborted before any of its parts. *)

Section Wire.
Context `{Sg : SignatureScheme} `{Cm : Committable} `{Vt : VidTypes} `{Vs : Versions}.
Context `{Bt : !BlockTypes} `{Vd : !VidScheme} `{Bu : !BuilderTypes}.
Context {M : Type} `{Mb : !Membership M}.
Context `{Vb : !Vbs (Message Transaction)}.
Context {St : Type} `{So : !Storage St}.
Context (membership : M) (lock : UpgradeLock).
Implicit Types (c : Consensus) (j : Job).

(** A job, and what is left of its body. *)
Abbreviation Running := (Job * JobBody)%type.

Record Node := {
  nd_net : NetworkEventTaskState;
  nd_consensus : Consensus;
  nd_storage : St;
  nd_jobs : list Running;
  nd_wire : list (Job * Packet);
}.

Definition spawned (jobs : list Job) : list Running := (fun j => (j, job_body j)) <$> jobs.

(** A job that has returned is gone. *)
Definition left_of (j : Job) (body : JobBody) : list Running :=
  match body with Returned => [] | _ => [(j, body)] end.

(** What a part hands to the network. *)
Definition sent (j : Job) (p : option Packet) : list (Job * Packet) :=
  match p with Some p => [(j, p)] | None => [] end.

Inductive node_step (n : Node) : Node → Prop :=
  | node_event e r net jobs :
      network_handle membership lock e (nd_net n) = (r, net, jobs) →
      node_step n {| nd_net := net; nd_consensus := nd_consensus n; nd_storage := nd_storage n;
                     nd_jobs := nd_jobs n ++ spawned jobs; nd_wire := nd_wire n |}
  | node_consensus c :
      step (nd_consensus n) c →
      node_step n {| nd_net := nd_net n; nd_consensus := c; nd_storage := nd_storage n;
                     nd_jobs := nd_jobs n; nd_wire := nd_wire n |}
  | node_run js1 j body js2 c st body' p :
      nd_jobs n = js1 ++ (j, body) :: js2 →
      run_part lock body (nd_consensus n, nd_storage n) = (c, st, body', p) →
      node_step n {| nd_net := nd_net n; nd_consensus := c; nd_storage := st;
                     nd_jobs := js1 ++ left_of j body' ++ js2;
                     nd_wire := nd_wire n ++ sent j p |}
  | node_abort js1 j body js2 :
      nd_jobs n = js1 ++ (j, body) :: js2 →
      node_step n {| nd_net := nd_net n; nd_consensus := nd_consensus n; nd_storage := nd_storage n;
                     nd_jobs := js1 ++ js2; nd_wire := nd_wire n |}.

(** A schedule: the network task handles an event, or the job at a position runs one part. *)
Inductive Move :=
  | Handles (e : Event)
  | Runs (i : nat).

Definition move (n : Node) (m : Move) : Node :=
  match m with
  | Handles e =>
      let '(_, net, jobs) := network_handle membership lock e (nd_net n) in
      {| nd_net := net; nd_consensus := nd_consensus n; nd_storage := nd_storage n;
         nd_jobs := nd_jobs n ++ spawned jobs; nd_wire := nd_wire n |}
  | Runs i =>
      match nd_jobs n !! i with
      | Some (j, body) =>
          let '(c, st, body', p) := run_part lock body (nd_consensus n, nd_storage n) in
          {| nd_net := nd_net n; nd_consensus := c; nd_storage := st;
             nd_jobs := take i (nd_jobs n) ++ left_of j body' ++ drop (S i) (nd_jobs n);
             nd_wire := nd_wire n ++ sent j p |}
      | None => n
      end
  end.

Lemma moves_reach n ms : rtc node_step n (foldl move n ms).
Proof using Type.
  revert n. induction ms as [|m ms IH]; intros n; [done|]. cbn [foldl]. etrans; [|apply IH].
  destruct m as [e|i]; unfold move.
  - destruct (network_handle membership lock e (nd_net n)) as [[r net] jobs] eqn:He. apply rtc_once. by eapply node_event.
  - destruct (nd_jobs n !! i) as [[j body]|] eqn:Hi; [|done].
    destruct (run_part lock body (nd_consensus n, nd_storage n)) as [[[c st] body'] p] eqn:Hr. apply rtc_once.
    eapply node_run; [|exact Hr]. by rewrite take_drop_middle.
Qed.

(** The messages that must be unique in their view: votes (a timeout vote is
    one), proposals and DA proposals. *)
Definition kind_action (k : MessageKind Transaction) : option HotShotAction :=
  match k with
  | KConsensus (General (MsgVote _ | MsgVote2 _ | MsgTimeoutVote _ | MsgTimeoutVote2 _)) => Some Vote
  | KConsensus (General (MsgProposal _ | MsgProposal2 _)) => Some Propose
  | KConsensus (Da (MsgDaProposal _ | MsgDaProposal2 _)) => Some DaPropose
  | _ => None
  end.

Definition job_view (a : HotShotAction) (j : Job) : option ViewNumber :=
  match j with
  | TransmitJob t =>
      let kind := msg_kind (tt_message t) in
      match kind_action kind with
      | Some a' => match a, a' with
                   | Vote, Vote | Propose, Propose | DaPropose, DaPropose => Some (kind_view_number kind)
                   | _, _ => None
                   end
      | None => None
      end
  | _ => None
  end.

(** The views of the messages of one kind, in the order they were sent. *)
Definition wire_views (a : HotShotAction) (w : list (Job * Packet)) : list ViewNumber :=
  omap (fun jp => job_view a jp.1) w.

Definition acts j : Prop :=
  match j with
  | TransmitJob t => ∀ a, kind_action (msg_kind (tt_message t)) = Some a → tt_action t = Some a
  | _ => True
  end.

Lemma general_message_action view m2 m1 a :
  kind_action (KConsensus (General m2)) = Some a → kind_action (KConsensus (General m1)) = Some a →
  kind_action (general_message lock view m2 m1) = Some a.
Proof using Type. unfold general_message. by case_match. Qed.

Definition parsed_ok (r : parsed) : Prop :=
  ∀ sender kind tr a, r.2 = Some (sender, kind, tr) → kind_action kind = Some a → r.1 = Some a.

Lemma to_leader_run view ep sender kind s r s' jobs :
  to_leader membership view ep sender kind s = (r, s', jobs) →
  jobs = [] ∧ ∀ x, r = Ok (Some x) → ∃ l, x = (sender, kind, Direct l).
Proof using Type.
  unfold to_leader. destruct (leader membership view ep); intros [= <- <- <-]; (split; [done|]); naive_solver.
Qed.

Lemma parse_event_ok e s r s' jobs :
  parse_event membership lock e s = (Ok r, s', jobs) → parsed_ok r.
Proof using Type.
  unfold parse_event, parse_view_sync_event. intros (s0 & s1 & ev1 & ev2 & [-> ->]%get_run & H & _)%bind_run.
  assert (∀ view ep sender k act s r s' jobs,
    (x ← to_leader membership view ep sender k; mret (act, x)) s = (Ok r, s', jobs) →
    (∀ a, kind_action k = Some a → act = Some a) → parsed_ok r) as Hlead.
  { clear. intros ? ? ? k act s r s' jobs (x & s1 & ? & ? & [_ Hx]%to_leader_run & [-> _]%ret_run & _)%bind_run Hk.
    intros sender' kind' tr a Hr Ha. simpl in *. subst. destruct (Hx _ eq_refl) as [l [= -> -> ->]]. eauto. }
  destruct e; try (apply ret_run in H as [-> _]; intros ???? [= <- <- <-];
    unfold general_message, da_message; simpl; repeat case_match; naive_solver);
    try (eapply Hlead; [exact H|]; intros ?; unfold general_message, da_message; simpl; repeat case_match; naive_solver).
  - apply bind_run in H as (? & ? & ? & ? & _ & H & _). apply bind_run in H as (? & ? & ? & ? & _ & H & _).
    apply ret_run in H as [-> _]. by intros ????.
  - apply bind_run in H as (? & ? & ? & ? & _ & H & _). apply ret_run in H as [-> _]. by intros ????.
  - apply ret_run in H as [-> _]. intros ????. unfold parse_vid_response. simpl. repeat case_match; naive_solver.
Qed.

Lemma parse_event_jobs e : only acts (parse_event membership lock e).
Proof using Type.
  unfold parse_event, parse_view_sync_event. apply only_bind; [auto with hotshot|]. intros s.
  assert (∀ view ep sender k (act : option HotShotAction),
    only acts (x ← to_leader membership view ep sender k; mret (act, x))) as Hlead.
  { intros. apply only_bind; [|auto with hotshot]. apply only_silent. intros s'. unfold to_leader. by case_match. }
  destruct e; try (auto with hotshot; fail); try apply Hlead.
  - apply only_bind; [auto with hotshot|]. intros _. apply only_bind; [|auto with hotshot]. by apply only_emit.
  - apply only_bind; [|auto with hotshot]. unfold handle_vid_disperse_proposal.
    case_match; [by apply only_emit|auto with hotshot].
Qed.

Lemma network_handle_jobs e : only acts (network_handle membership lock e).
Proof using Type.
  intros s j [Hj|([act r] & s1 & ev & Hp & Hj)]%emits_bind; [by eapply parse_event_jobs|].
  apply parse_event_ok in Hp. destruct r as [[[sender kind] tr]|]; [|by apply emits_ret in Hj].
  unfold spawn_transmit_task in Hj. apply emits_silent in Hj as (s2 & s3 & _ & Hj); [|auto with hotshot].
  apply emits_silent in Hj as (da & s4 & _ & Hj); [|auto with hotshot].
  apply emits_bind in Hj as [->%list_elem_of_singleton|(? & ? & ? & _ & []%elem_of_nil)].
  intros a Ha. by apply (Hp sender kind tr a).
Qed.

(** ** What is on the wire *)

Definition guarded (a : HotShotAction) : Prop := a = Vote ∨ a = Propose ∨ a = DaPropose.

(** The parts of a job that come after the record. *)
Fixpoint past_record (body : JobBody) : Prop :=
  match body with
  | Returned | AwaitSend _ => True
  | AwaitUpdateAction _ _ _ | AwaitRecordAction _ _ _ _ => False
  | AwaitAppendProposal2 _ k => past_record (k true) ∧ past_record (k false)
  | AwaitSerialize _ k => ∀ r, past_record (k r)
  end.

Definition due_record (a : HotShotAction) (v : ViewNumber) (body : JobBody) : Prop :=
  ∃ ep k, body = AwaitRecordAction v ep a k ∧ k false = Returned ∧ past_record (k true).
Definition due_update (a : HotShotAction) (v : ViewNumber) (body : JobBody) : Prop :=
  ∃ k, body = AwaitUpdateAction a v k ∧ k false = Returned ∧ due_record a v (k true).

(** A job that must be the only one of its view asks for permission, then records, then
    does the rest. *)
Definition job_ok (r : Running) : Prop :=
  ∀ a v, job_view a r.1 = Some v → due_update a v r.2 ∨ due_record a v r.2 ∨ past_record r.2.

(** The view a running job has been given permission for. *)
Definition held_view (a : HotShotAction) (r : Running) : option ViewNumber :=
  match r.2 with
  | Returned | AwaitUpdateAction _ _ _ => None
  | _ => job_view a r.1
  end.
Definition held (a : HotShotAction) (rs : list Running) : list ViewNumber := omap (held_view a) rs.

Lemma job_body_due j a v : acts j → job_view a j = Some v → due_update a v (job_body j).
Proof using Type.
  destruct j as [t| |]; simpl; [|done..]. intros Hacts. destruct (kind_action _) as [a'|]; [|done].
  pose proof (Hacts _ eq_refl) as Ha. intros Hv.
  assert (a' = a ∧ guarded a ∧ kind_view_number (msg_kind (tt_message t)) = v) as (-> & Hg & <-)
    by (unfold guarded; destruct a, a'; naive_solver).
  rewrite Ha. eexists. split; [reflexivity|]. split; [done|].
  exists (kind_epoch (msg_kind (tt_message t))). eexists. split; [by destruct Hg as [->|[->| ->]]|]. split; [done|]. simpl.
  unfold store_own_proposal. repeat case_match; simpl; repeat split; intros; by case_match.
Qed.

Lemma spawned_ok jobs : Forall acts jobs → Forall job_ok (spawned jobs).
Proof using Type.
  intros H. apply Forall_fmap. eapply Forall_impl; [exact H|]. intros j Hj a v Hv. left. by apply job_body_due.
Qed.

Lemma spawned_held a jobs : Forall acts jobs → held a (spawned jobs) = [].
Proof using Type.
  intros H. apply elem_of_nil_inv. intros v ([j b] & (? & [= <- ->] & Hj)%list_elem_of_fmap & Hv)%list_elem_of_omap.
  rewrite Forall_forall in H. unfold held_view in Hv. simpl in Hv.
  destruct (job_view a j) as [w|] eqn:Hw; [|by destruct (job_body j)].
  destruct (job_body_due j a w (H j Hj) Hw) as (k & Hb & _). by rewrite Hb in Hv.
Qed.

(** The new permissions of a step: at most one, for a view above the last recorded one. *)
Definition granted (a : HotShotAction) c c' (new : list ViewNumber) : Prop :=
  new = [] ∨ ∃ v g, new = [v] ∧ guarded_view a (last_actions c) = Some g ∧ g < v ∧ guarded_view a (last_actions c') = Some v.

Lemma past_record_part body c (st : St) c' st' body' p :
  past_record body → run_part lock body (c, st) = (c', st', body', p) →
  past_record body' ∧ c' = c ∧ (is_Some p → body' = Returned) ∧ (body = Returned → body' = Returned ∧ p = None).
Proof using Type. destruct body; simpl; intros Hp ?; repeat case_match; naive_solver. Qed.

Lemma held_some a j body v :
  job_view a j = Some v → held a (left_of j body) ⊆+ [v].
Proof using Type.
  intros Hv. destruct body; simpl; unfold held_view; simpl; rewrite ?Hv; (done || apply submseteq_nil_l).
Qed.

Lemma run_part_ok j body c (st : St) c' st' body' p :
  job_ok (j, body) → run_part lock body (c, st) = (c', st', body', p) →
  progress c c' ∧ Forall job_ok (left_of j body').
Proof using Type.
  intros Hok Hr. split.
  - destruct body as [|a v k|v ep a k|prop k|m k|pk]; simpl in Hr; repeat case_match; simplify_eq; try done.
    pose proof (step_progress _ _ (step_action c a v)) as Hp. by destruct (update_action c a v); simplify_eq.
  - assert (job_ok (j, body')); [|destruct body'; simpl; rewrite ?Forall_singleton, ?Forall_nil; done].
    intros a v Hv. destruct (Hok a v Hv) as [(k & Hb & Hk & Hd)|[(ep & k & Hb & Hk & Hd)|Hd]]; simpl in *.
    + subst body. simpl in Hr. destruct (update_action c a v) as [c1 []]; simplify_eq; [by right; left|].
      rewrite Hk. by right; right.
    + subst body. simpl in Hr. destruct (record_action _ _ _ _); simplify_eq; right; right; [done|by rewrite Hk].
    + right; right. by eapply past_record_part in Hr as [? _].
Qed.

(** A job claims a view when it is given permission, and keeps the claim until its message is
    on the wire. *)
Lemma run_part_claims j body c (st : St) c' st' body' p a :
  guarded a → job_ok (j, body) → run_part lock body (c, st) = (c', st', body', p) →
  ∃ new, wire_views a (sent j p) ++ held a (left_of j body') ⊆+ new ++ held a [(j, body)] ∧ granted a c c' new.
Proof using Type.
  intros Ha Hok Hr. destruct (job_view a j) as [v|] eqn:Hv.
  2: { exists []. split; [|by left]. replace (wire_views a (sent j p)) with ([] : list ViewNumber)
         by (destruct p; simpl; by rewrite ?Hv).
       replace (held a (left_of j body')) with ([] : list ViewNumber); [apply submseteq_nil_l|].
       destruct body'; simpl; unfold held_view; simpl; by rewrite ?Hv. }
  destruct (Hok a v Hv) as [(k & Hb & Hk & Hd)|[(ep & k & Hb & Hk & Hd)|Hd]]; simpl in *.
  - subst body. simpl in Hr. assert (∃ g, guarded_view a (last_actions c) = Some g) as [g Hg]
      by (destruct Ha as [->|[->| ->]]; by eexists).
    destruct (update_action_guarded c a v g Hg) as [H1 H2].
    destruct (update_action c a v) as [c1 []]; simplify_eq; simpl in *.
    + exists [v]. split; [by apply held_some|]. right. bool_facts. exists v, g. split_and!; [done..|lia|by apply H2].
    + exists []. rewrite Hk. split; [apply submseteq_nil_l|by left].
  - subst body. exists []. split; [|by left]. unfold held_view. simpl. rewrite Hv.
    simpl in Hr. destruct (record_action _ _ _ _); simplify_eq; by apply held_some.
  - exists []. split; [|by left]. destruct (past_record_part _ _ _ _ _ _ _ Hd Hr) as (_ & _ & Hp & Hret).
    assert (held_view a (j, body) = Some v ∨ body = Returned) as [->|Hb] by (destruct body; auto; done);
      [|destruct (Hret Hb) as [-> ->]; apply submseteq_nil_l].
    destruct p as [p|]; [|by apply held_some]. rewrite Hp by eauto. simpl. by rewrite Hv.
Qed.

(** One step of a node: what is put on the wire is put at its end, and the views on the
    wire or held by a job are those of before, with the permission that was given. *)
Lemma node_step_claims n n' :
  node_step n n' → Forall job_ok (nd_jobs n) →
  progress (nd_consensus n) (nd_consensus n') ∧ Forall job_ok (nd_jobs n') ∧
  ∃ w, nd_wire n' = nd_wire n ++ w ∧ ∀ a, guarded a →
    ∃ new, wire_views a w ++ held a (nd_jobs n') ⊆+ new ++ held a (nd_jobs n) ∧
      granted a (nd_consensus n) (nd_consensus n') new.
Proof using Type.
  intros Hs Hj. destruct Hs as [e r net jobs He|c Hc|js1 j body js2 c st body' p Hjs Hr|js1 j body js2 Hjs]; simpl.
  - assert (Forall acts jobs) as Hacts.
    { apply Forall_forall. intros j Hj'. eapply (network_handle_jobs e). unfold emits. by rewrite He. }
    split; [done|]. split; [apply Forall_app_2; [done|by apply spawned_ok]|]. exists []. split; [by rewrite app_nil_r|].
    intros a _. exists []. split; [|by left]. unfold held. rewrite omap_app.
    change (omap (held_view a) (spawned jobs)) with (held a (spawned jobs)). by rewrite spawned_held, app_nil_r.
  - split; [by apply step_progress|]. split; [done|]. exists []. split; [by rewrite app_nil_r|].
    intros a _. exists []. by split; [|left].
  - rewrite Hjs in Hj |- *. apply Forall_app in Hj as [Hj1 [Hj0 Hj2]%Forall_cons].
    destruct (run_part_ok _ _ _ _ _ _ _ _ Hj0 Hr) as [Hp Hok].
    split; [done|]. split; [by repeat apply Forall_app_2|]. eexists. split; [reflexivity|].
    intros a Ha. destruct (run_part_claims _ _ _ _ _ _ _ _ a Ha Hj0 Hr) as (new & Hsub & Hnew).
    exists new. split; [|done]. unfold held in *. rewrite (cons_middle (j, body)), !omap_app.
    rewrite !(Permutation_app_swap_app _ (omap _ js1)). apply submseteq_skips_l.
    rewrite !(assoc_L (++)). by apply submseteq_skips_r.
  - rewrite Hjs in Hj |- *. apply Forall_app in Hj as [Hj1 [Hj0 Hj2]%Forall_cons].
    split; [done|]. split; [by apply Forall_app_2|]. exists []. split; [by rewrite app_nil_r|].
    intros a _. exists []. split; [|by left]. unfold held. rewrite (cons_middle (j, body)), !omap_app. simpl.
    apply submseteq_app; [done|]. by apply submseteq_inserts_l.
Qed.

(** The views on the wire and in the hands of the jobs differ, and none is above the view of
    the last recorded action, for the actions in question. *)
Definition claimed (a : HotShotAction) (n : Node) : list ViewNumber :=
  wire_views a (nd_wire n) ++ held a (nd_jobs n).

Definition wire_ok (which : HotShotAction → Prop) (n : Node) : Prop :=
  Forall job_ok (nd_jobs n) ∧
  ∀ a w, which a → guarded_view a (last_actions (nd_consensus n)) = Some w →
    NoDup (claimed a n) ∧ Forall (fun v => v <= w) (claimed a n).

Lemma wire_ok_step which n n' :
  (∀ a, which a → guarded a) → node_step n n' → wire_ok which n → wire_ok which n'.
Proof using Type.
  intros Hwh Hs [Hj Hw]. apply node_step_claims in Hs as (Hp & Hj' & w & Hwire & Hcl); [|done].
  split; [done|]. intros a g' Ha Hg'. destruct (Hcl a (Hwh a Ha)) as (new & Hsub & Hnew).
  assert (∃ g, guarded_view a (last_actions (nd_consensus n)) = Some g) as [g Hg]
    by (destruct (Hwh a Ha) as [->|[->| ->]]; by eexists).
  destruct (guarded_view_progress _ _ _ _ Hp Hg) as (g2 & Hg2 & Hle). simplify_eq.
  destruct (Hw a g Ha Hg) as [Hnd Hall]. rewrite Forall_forall in Hall.
  assert (claimed a n' ⊆+ new ++ claimed a n) as Hc.
  { unfold claimed, wire_views in *. rewrite Hwire, omap_app, <- app_assoc, (Permutation_app_swap_app new).
    by apply submseteq_skips_l. }
  assert (NoDup (new ++ claimed a n) ∧ Forall (fun v => v <= g') (new ++ claimed a n)) as [Hnd' Hall'].
  { destruct Hnew as [->|(v & g0 & -> & ? & Hlt & ?)]; simplify_eq; simpl; rewrite ?NoDup_cons, ?Forall_cons, Forall_forall.
    - split; [done|]. intros x Hx. specialize (Hall x Hx). lia.
    - split_and!; [intros Hx; specialize (Hall _ Hx); lia|done|lia|]. intros x Hx. specialize (Hall x Hx). lia. }
  apply submseteq_Permutation in Hc as [rest Hc]. rewrite Hc, NoDup_app in Hnd'. rewrite Hc, Forall_app in Hall'.
  split; [apply Hnd'|apply Hall'].
Qed.

(** ** What arrives *)

(** What a peer makes of an event: data of the second generation is unchanged in
    a view with epochs; in a view without, it has been through the first
    generation and back. *)
Definition regained {A} (view : ViewNumber) (first : A → A) (x : A) : A :=
  if epochs_enabled lock view then x else first x.

Definition proposal_regained (p : Proposal QuorumProposal2) : Proposal QuorumProposal2 :=
  regained (p_view_number (proposal_data p))
    (convert_proposal quorum_proposal2 ∘ convert_proposal quorum_proposal) p.

Definition arrives (e : Event) : list NetOut :=
  match e with
  | QuorumProposalSend p sender => [Internal (QuorumProposalRecv (proposal_regained p) sender)]
  | QuorumProposalResponseSend _ p => [Internal (QuorumProposalResponseRecv (proposal_regained p))]
  | QuorumVoteSend v | ExtendedQuorumVoteSend v =>
      [Internal (QuorumVoteRecv (regained (vote_view v) (quorum_to_vote2 ∘ quorum_to_vote) v))]
  | QuorumProposalRequestSend req sig => [Internal (QuorumProposalRequestRecv req sig)]
  | DaProposalSend p sender =>
      [Internal (DaProposalRecv (regained (dp2_view_number (proposal_data p))
         (convert_proposal da_proposal2 ∘ convert_proposal da_proposal) p) sender)]
  | DaVoteSend v => [Internal (DaVoteRecv (regained (vote_view v) (da_to_vote2 ∘ da_to_vote) v))]
  | DacSend c _ => [Internal (DaCertificateRecv (regained (view_number c) (to_dac2 ∘ to_dac) c))]
  | ViewSyncPreCommitVoteSend v =>
      [Internal (ViewSyncPreCommitVoteRecv (regained (vote_view v) (pre_commit_to_vote2 ∘ pre_commit_to_vote) v))]
  | ViewSyncCommitVoteSend v =>
      [Internal (ViewSyncCommitVoteRecv (regained (vote_view v) (commit_to_vote2 ∘ commit_to_vote) v))]
  | ViewSyncFinalizeVoteSend v =>
      [Internal (ViewSyncFinalizeVoteRecv (regained (vote_view v) (finalize_to_vote2 ∘ finalize_to_vote) v))]
  | ViewSyncPreCommitCertificateSend c _ =>
      [Internal (ViewSyncPreCommitCertificateRecv (regained (view_number c) (pre_commit_to_vsc2 ∘ pre_commit_to_vsc) c))]
  | ViewSyncCommitCertificateSend c _ =>
      [Internal (ViewSyncCommitCertificateRecv (regained (view_number c) (commit_to_vsc2 ∘ commit_to_vsc) c))]
  | ViewSyncFinalizeCertificateSend c _ =>
      [Internal (ViewSyncFinalizeCertificateRecv (regained (view_number c) (finalize_to_vsc2 ∘ finalize_to_vsc) c))]
  | TimeoutVoteSend v =>
      [Internal (TimeoutVoteRecv (regained (vote_view v) (timeout_to_vote2 ∘ timeout_to_vote) v))]
  | UpgradeProposalSend p sender => [Internal (UpgradeProposalRecv p sender)]
  | UpgradeVoteSend v => [Internal (UpgradeVoteRecv v)]
  | VidRequestSend req sender _ =>
      match dr_request req with RequestVid _ _ => [Internal (VidRequestRecv req sender)] | _ => [] end
  | VidResponseSend sender _ p => [Internal (VidResponseRecv sender p)]
  | HighQcSend qc _ sender => [Internal (HighQcRecv qc sender)]
  | _ => []
  end.

Lemma lead_run view ep key k (act : option HotShotAction) s act' sender kind tr s' jobs :
  (x ← to_leader membership view ep key k; mret (act, x)) s = (Ok (act', Some (sender, kind, tr)), s', jobs) →
  sender = key ∧ kind = k.
Proof using Type.
  intros (x & s1 & ? & ? & [_ Hx]%to_leader_run & [[= _ <-] _]%ret_run & _)%bind_run.
  by destruct (Hx _ eq_refl) as [l [= -> -> ->]].
Qed.

Lemma ret_parsed (act act' : option HotShotAction)
    (r : option (PubKey * MessageKind Transaction * TransmitType)) (s : NetworkEventTaskState) sender kind tr s' jobs :
  mret (M := task NetworkEventTaskState Job Error) (act, r) s = (Ok (act', Some (sender, kind, tr)), s', jobs) →
  r = Some (sender, kind, tr).
Proof using Type. by intros [[= _ <-] _]%ret_run. Qed.

Section Arrival.
Context {Cache : Type} (transaction_hash : Transaction → Z) (cache_put : Cache → Z → Cache * bool).

Abbreviation delivered := (handle_message transaction_hash cache_put).

Lemma deliver_general view m2 m1 sender ms x2 x1 r :
  nm_upgrade_lock ms = lock →
  handle_general lock sender m2 = second_gen lock view x2 →
  handle_general lock sender m1 = first_gen lock view x1 →
  r = [Internal (if epochs_enabled lock view then x2 else x1)] →
  delivered ms {| msg_sender := sender; msg_kind := general_message lock view m2 m1 |} = (ms, r).
Proof using Type.
  intros Hl H2 H1 ->. unfold handle_message, general_message. simpl. rewrite Hl.
  unfold second_gen, first_gen in *. by destruct (epochs_enabled lock view); rewrite ?H2, ?H1.
Qed.
Lemma deliver_da view m2 m1 sender ms x2 x1 r :
  nm_upgrade_lock ms = lock →
  handle_da_message lock sender m2 = second_gen lock view x2 →
  handle_da_message lock sender m1 = first_gen lock view x1 →
  r = [Internal (if epochs_enabled lock view then x2 else x1)] →
  delivered ms {| msg_sender := sender; msg_kind := da_message lock view m2 m1 |} = (ms, r).
Proof using Type.
  intros Hl H2 H1 ->. unfold handle_message, da_message. simpl. rewrite Hl.
  unfold second_gen, first_gen in *. by destruct (epochs_enabled lock view); rewrite ?H2, ?H1.
Qed.

Lemma parsed_arrives e s act sender kind tr s' jobs ms :
  parse_event membership lock e s = (Ok (act, Some (sender, kind, tr)), s', jobs) →
  nm_upgrade_lock ms = lock →
  delivered ms {| msg_sender := sender; msg_kind := kind |} = (ms, arrives e).
Proof using Type.
  unfold parse_event, parse_view_sync_event. intros (s0 & s1 & ev1 & ev2 & [-> ->]%get_run & H & _)%bind_run Hl.
  destruct e; try (by apply ret_parsed in H);
    try (first [apply ret_parsed in H as [= <- <- <-] | apply lead_run in H as [-> ->]];
      first [reflexivity
            | eapply deliver_general; [done|reflexivity|reflexivity|]
            | eapply deliver_da; [done|reflexivity|reflexivity|]];
      unfold arrives, proposal_regained, regained; by case_match).
  - apply bind_run in H as (? & ? & ? & ? & _ & H & _). apply bind_run in H as (? & ? & ? & ? & _ & H & _).
    by apply ret_parsed in H.
  - apply bind_run in H as (? & ? & ? & ? & _ & H & _). by apply ret_parsed in H.
  - apply ret_parsed in H. destruct p as [[sh|sh] sig]; unfold parse_vid_response in H; simpl in H;
      destruct (epochs_enabled _ _); simplify_eq; done.
Qed.

(** *** The loop of [add_network_message_task] in [hotshot/src/tasks/mod.rs]

    A message that can not be received or deserialized is skipped; a shutdown ends the
    loop. *)
Inductive MessageInput := ShutdownSignal | RecvFailed | RecvMessage (b : bytes).

Fixpoint network_message_task (ms : NetworkMessageTaskState) (inputs : list MessageInput)
    : NetworkMessageTaskState * list NetOut :=
  match inputs with
  | [] | ShutdownSignal :: _ => (ms, [])
  | RecvFailed :: inputs => network_message_task ms inputs
  | RecvMessage b :: inputs =>
      match deserialize (nm_upgrade_lock ms) b with
      | Ok m =>
          let '(ms, out) := delivered ms m in
          let '(ms, out') := network_message_task ms inputs in (ms, out ++ out')
      | _ => network_message_task ms inputs
      end
  end.

Definition is_noise (l : UpgradeLock) (i : MessageInput) : Prop :=
  match i with ShutdownSignal => False | RecvFailed => True | RecvMessage b => ∀ m, deserialize l b ≠ Ok m end.

(** Noise before, between and after the messages of a peer changes nothing. *)
Lemma noise_is_ignored ms noise inputs :
  Forall (is_noise (nm_upgrade_lock ms)) noise → network_message_task ms (noise ++ inputs) = network_message_task ms inputs.
Proof using Type.
  induction 1 as [|i noise Hi _ IH]; [done|]. destruct i as [| |b]; simpl; [done|done|].
  simpl in Hi. destruct (deserialize _ _) eqn:Hd; [by edestruct Hi|done|done].
Qed.

(** An event that one node sends raises the corresponding event in the task of a peer. *)
Lemma sent_events_reach_the_task `{!VbsLaws Vb} e s act sender kind tr s' jobs ms b noise inputs :
  parse_event membership lock e s = (Ok (act, Some (sender, kind, tr)), s', jobs) →
  serialize lock {| msg_sender := sender; msg_kind := kind |} = Ok b → nm_upgrade_lock ms = lock →
  Forall (is_noise lock) noise →
  network_message_task ms (noise ++ RecvMessage b :: inputs) =
    let '(ms', out) := network_message_task ms inputs in (ms', arrives e ++ out).
Proof using Type.
  intros Hp Hs%deserialize_serialize Hl Hn. rewrite noise_is_ignored by by rewrite Hl. cbn [network_message_task].
  rewrite Hl, Hs. by rewrite (parsed_arrives _ _ _ _ _ _ _ _ _ Hp Hl).
Qed.

(** C28. What is sent arrives: when the network task turns an event into a message
    and the message serializes, a peer under the same upgrade lock deserializes it
    and raises exactly the corresponding event; the data is unchanged in a view
    with epochs, and is what its first-generation form preserves in a view
    without. *)
Theorem sent_events_arrive `{!VbsLaws Vb} e s act sender kind tr s' jobs ms b :
  parse_event membership lock e s = (Ok (act, Some (sender, kind, tr)), s', jobs) →
  serialize lock {| msg_sender := sender; msg_kind := kind |} = Ok b → nm_upgrade_lock ms = lock →
  ∃ m, deserialize lock b = Ok m ∧ delivered ms m = (ms, arrives e).
Proof using Type.
  intros Hp Hs%deserialize_serialize Hl. eexists. split; [exact Hs|]. by eapply parsed_arrives.
Qed.
End Arrival.

(** C6. The node sends at most one vote (quorum or timeout), one proposal and one DA proposal
    in each view: no two of them on its wire carry the same view.  This holds in every
    interleaving of the network task, the other tasks and the jobs, which wait between asking
    for permission, recording, storing, serializing and sending, overtake each other there,
    and may be aborted at each of these points; the views need not be sent in order. *)
Theorem sends_once_per_view n n' a :
  nd_jobs n = [] → nd_wire n = [] → rtc node_step n n' → guarded a →
  NoDup (wire_views a (nd_wire n')).
Proof using Type.
  intros Hj Hw Hs Ha. assert (wire_ok guarded n) as Hn.
  { split; [by rewrite Hj|]. intros. unfold claimed. rewrite Hw, Hj. split; constructor. }
  assert (wire_ok guarded n') as [_ H'] by (clear -Hs Hn; induction Hs; eauto using wire_ok_step).
  assert (∃ g, guarded_view a (last_actions (nd_consensus n')) = Some g) as [g Hg]
    by (destruct Ha as [->|[->| ->]]; by eexists).
  destruct (H' a g Ha Hg) as [[Hnd _]%NoDup_app _]. done.
Qed.

(** A proposal of the second generation is sent without being stored. *)
Lemma second_generation_not_stored p k :
  store_own_proposal (KConsensus (General (MsgProposal2 p))) k = k true.
Proof using Type. done. Qed.
End Wire.

(** ** Witnesses *)

Module NetDemo.
#[local] Existing Instance StaticCommittee.

#[global] Instance builder : BuilderTypes := {|
  Transaction := Z; BuilderKey := Z; BuilderSignature := Z; AuctionResult := unit;
  from_bytes b _ := b : BlockPayload; empty_block := ([], tt) : BlockPayload * Metadata |}.
#[global] Instance storage : Storage unit := {|
  record_action _ _ _ _ := Some tt; append_proposal2 _ _ := Some tt |}.

Definition fee : BuilderFee := {| fee_amount := 1; fee_account := 5 : BuilderKey; fee_signature := 6 : BuilderSignature |}.

(** A serializer of unsigned VID requests. *)
#[global] Instance vbs : Vbs (Message Transaction) := {|
  vbs_serialize v m :=
    match msg_kind m with
    | KData (RequestData {| dr_request := RequestVid view key; dr_view := w; dr_signature := sig |}) =>
        match (sig : list (Z * bytes)) with
        | [] => Some [major v; minor v; msg_sender m; view; key; w]
        | _ => None
        end
    | _ => None
    end;
  vbs_deserialize v b :=
    match b with
    | [_; _; s; view; key; w] =>
        Some {| msg_sender := s : PubKey; msg_kind := KData (RequestData
                  {| dr_request := RequestVid view key; dr_view := w; dr_signature := [] : Sig |}) |}
    | _ => None
    end;
  vbs_version b :=
    match b with x :: y :: _ => Some {| major := x; minor := y |} | _ => None end;
  msg_view m := kind_view_number (msg_kind m);
|}.

#[global] Instance vbs_laws : VbsLaws vbs.
Proof.
  split; intros [mj mi] [s k] b; simpl; repeat (case_match; try done); intros; by simplify_eq.
Qed.

Definition request : DataRequest :=
  {| dr_request := RequestVid 4 20; dr_view := 4; dr_signature := [] : Sig |}.
Definition idle : NetworkEventTaskState := {| ne_view := 0; ne_epoch := None; transmit_tasks := ∅ |}.
Definition peer : NetworkMessageTaskState :=
  {| nm_public_key := 30 : PubKey; transactions_cache := tt; nm_upgrade_lock := UpgradeLock_new |}.

(** A vote that a node broadcasts. *)
Definition vote (view : ViewNumber) : SimpleVote QuorumData2 :=
  {| signature := (10, []) : PubKey * Sig; vote_data := CertDemo.qdata; vote_view := view |}.
Definition any_vbs : Vbs (Message Transaction) := {|
  vbs_serialize _ _ := Some []; vbs_deserialize _ _ := None; vbs_version _ := None; msg_view _ := 0 |}.
Definition node0 : Node := {| nd_net := idle; nd_consensus := ConsDemo.start; nd_storage := tt;
                              nd_jobs := []; nd_wire := [] |}.
End NetDemo.

#[local] Existing Instance StaticCommittee.

Lemma sent_events_arrive_witness :
  ∃ m, deserialize UpgradeLock_new [0; 1; 10; 4; 20; 4] = Ok m ∧
    handle_message (fun x => x) (fun c _ => (c, false)) NetDemo.peer m =
      (NetDemo.peer, [Internal (VidRequestRecv NetDemo.request 10)]).
Proof.
  exact (sent_events_arrive (M := Committee) Demo.committee UpgradeLock_new (fun x => x) (fun c _ => (c, false))
    (VidRequestSend NetDemo.request 10 20) NetDemo.idle None 10 (KData (RequestData NetDemo.request)) (Direct 20)
    NetDemo.idle [] NetDemo.peer [0; 1; 10; 4; 20; 4] eq_refl eq_refl eq_refl).
Defined.

(** The vote of view 6 overtakes the vote of view 5. *)
Lemma votes_overtake :
  ∃ n, rtc (node_step (Vb := NetDemo.any_vbs) Demo.committee UpgradeLock_new) NetDemo.node0 n ∧
    wire_views Vote (nd_wire n) = [6; 5].
Proof.
  eexists. split; [apply (moves_reach _ _ _ [Handles (ExtendedQuorumVoteSend (NetDemo.vote 5));
    Handles (ExtendedQuorumVoteSend (NetDemo.vote 6)); Runs 0; Runs 1; Runs 1; Runs 1; Runs 1; Runs 0; Runs 0; Runs 0])|].
  vm_compute. reflexivity.
Qed.

Lemma sends_once_per_view_witness :
  ∃ n, rtc (node_step (Vb := NetDemo.any_vbs) Demo.committee UpgradeLock_new) NetDemo.node0 n ∧
    wire_views Vote (nd_wire n) = [6; 5] ∧ NoDup (wire_views Vote (nd_wire n)).
Proof.
  destruct votes_overtake as (n & Hn & Hw). exists n. split_and!; [done..|].
  apply (sends_once_per_view (Vb := NetDemo.any_vbs) Demo.committee UpgradeLock_new NetDemo.node0 n Vote);
    [reflexivity|reflexivity|exact Hn|by left].
Defined.
