(* ===== verification/TestStorage.v ===== *)
(** * Storage

    The trait [Storage] of [types/src/traits/storage.rs], with the methods it defines in
    terms of others, and the implementation [TestStorage] of
    [example-types/src/storage_types.rs], which keeps everything in memory behind a lock.
    A call is one step; the delays that can be configured are left out. *)

From S2P Require Import Prelude Epochs Crypto Committee Votes Certificates Data Vid Consensus Message Network.

Section Storage.
Context `{Sg : SignatureScheme} `{Cm : Committable} `{Vt : VidTypes} `{Vs : Versions}.
Context `{Bt : !BlockTypes} `{Vd : !VidScheme}.

(** ** The trait

    The methods that an implementation must have; [None] is an error. *)
Record StorageOps (S : Type) := {
  so_append_vid : S → Proposal ADVZDisperseShare → option S;
  so_append_da : S → Proposal DaProposal → VidCommitment → option S;
  so_append_proposal : S → Proposal QuorumProposal → option S;
  so_record_action : S → ViewNumber → option EpochNumber → HotShotAction → option S;
  so_update_high_qc : S → QuorumCertificate → option S;
  so_update_undecided_state : S → gmap Commitment Leaf → gmap ViewNumber ViewInner → option S;
  so_update_decided_upgrade_certificate : S → option UpgradeCertificate → option S;
}.

(** The methods with a default. *)
Section Defaults.
Context {S : Type} (ops : StorageOps S).

Definition default_append_vid2 (s : S) (p : Proposal VidDisperseShare2) : option S :=
  so_append_vid _ ops s (convert_proposal advz_of_share2 p).
Definition default_append_da2 (s : S) (p : Proposal DaProposal2) (vid_commit : VidCommitment) : option S :=
  so_append_da _ ops s (convert_proposal da_proposal p) vid_commit.
Definition default_append_proposal2 (s : S) (p : Proposal QuorumProposal2) : option S :=
  so_append_proposal _ ops s (convert_proposal quorum_proposal p).
Definition default_append_proposal_wrapper (s : S) (p : Proposal QuorumProposal2) : option S :=
  so_append_proposal _ ops s (convert_proposal quorum_proposal p).
Definition default_update_high_qc2 (s : S) (high_qc : QuorumCertificate2) : option S :=
  so_update_high_qc _ ops s (to_qc high_qc).
Definition default_update_next_epoch_high_qc2 (s : S) (_ : NextEpochQuorumCertificate2) : option S := Some s.
(** A commitment keeps its bytes when it becomes one of the first generation. *)
Definition default_update_undecided_state2 (s : S) (leaves : gmap Commitment Leaf2)
    (state : gmap ViewNumber ViewInner) : option S :=
  so_update_undecided_state _ ops s (to_leaf_unsafe <$> leaves) state.
Definition default_migrate_consensus (s : S) : option S := Some s.
End Defaults.

(** ** The implementation *)

(** [TestStorageState], and the certificate beside it. *)
Record TestStorageState := {
  vids : gmap ViewNumber (gmap PubKey (Proposal ADVZDisperseShare));
  vid2 : gmap ViewNumber (gmap PubKey (Proposal VidDisperseShare2));
  das : gmap ViewNumber (Proposal DaProposal);
  da2s : gmap ViewNumber (Proposal DaProposal2);
  proposals : gmap ViewNumber (Proposal QuorumProposal);
  proposals2 : gmap ViewNumber (Proposal QuorumProposal2);
  proposals_wrapper : gmap ViewNumber (Proposal QuorumProposal2);
  st_high_qc : option QuorumCertificate;
  high_qc2 : option QuorumCertificate2;
  next_epoch_high_qc2 : option NextEpochQuorumCertificate2;
  action : ViewNumber;
  st_epoch : option EpochNumber;
  st_upgrade_certificate : option UpgradeCertificate;
}.

Definition set_vids (s : TestStorageState) (x : gmap ViewNumber (gmap PubKey (Proposal ADVZDisperseShare))) : TestStorageState :=
  {| vids := x; vid2 := vid2 s; das := das s; da2s := da2s s; proposals := proposals s;
     proposals2 := proposals2 s; proposals_wrapper := proposals_wrapper s; st_high_qc := st_high_qc s;
     high_qc2 := high_qc2 s; next_epoch_high_qc2 := next_epoch_high_qc2 s; action := action s;
     st_epoch := st_epoch s; st_upgrade_certificate := st_upgrade_certificate s |}.
Definition set_vid2 (s : TestStorageState) (x : gmap ViewNumber (gmap PubKey (Proposal VidDisperseShare2))) : TestStorageState :=
  {| vids := vids s; vid2 := x; das := das s; da2s := da2s s; proposals := proposals s;
     proposals2 := proposals2 s; proposals_wrapper := proposals_wrapper s; st_high_qc := st_high_qc s;
     high_qc2 := high_qc2 s; next_epoch_high_qc2 := next_epoch_high_qc2 s; action := action s;
     st_epoch := st_epoch s; st_upgrade_certificate := st_upgrade_certificate s |}.
Definition set_das (s : TestStorageState) (x : gmap ViewNumber (Proposal DaProposal)) : TestStorageState :=
  {| vids := vids s; vid2 := vid2 s; das := x; da2s := da2s s; proposals := proposals s;
     proposals2 := proposals2 s; proposals_wrapper := proposals_wrapper s; st_high_qc := st_high_qc s;
     high_qc2 := high_qc2 s; next_epoch_high_qc2 := next_epoch_high_qc2 s; action := action s;
     st_epoch := st_epoch s; st_upgrade_certificate := st_upgrade_certificate s |}.
Definition set_da2s (s : TestStorageState) (x : gmap ViewNumber (Proposal DaProposal2)) : TestStorageState :=
  {| vids := vids s; vid2 := vid2 s; das := das s; da2s := x; proposals := proposals s;
     proposals2 := proposals2 s; proposals_wrapper := proposals_wrapper s; st_high_qc := st_high_qc s;
     high_qc2 := high_qc2 s; next_epoch_high_qc2 := next_epoch_high_qc2 s; action := action s;
     st_epoch := st_epoch s; st_upgrade_certificate := st_upgrade_certificate s |}.
Definition set_proposals (s : TestStorageState) (x : gmap ViewNumber (Proposal QuorumProposal)) : TestStorageState :=
  {| vids := vids s; vid2 := vid2 s; das := das s; da2s := da2s s; proposals := x;
     proposals2 := proposals2 s; proposals_wrapper := proposals_wrapper s; st_high_qc := st_high_qc s;
     high_qc2 := high_qc2 s; next_epoch_high_qc2 := next_epoch_high_qc2 s; action := action s;
     st_epoch := st_epoch s; st_upgrade_certificate := st_upgrade_certificate s |}.
Definition set_proposals2 (s : TestStorageState) (x : gmap ViewNumber (Proposal QuorumProposal2)) : TestStorageState :=
  {| vids := vids s; vid2 := vid2 s; das := das s; da2s := da2s s; proposals := proposals s; proposals2 := x;
     proposals_wrapper := proposals_wrapper s; st_high_qc := st_high_qc s; high_qc2 := high_qc2 s;
     next_epoch_high_qc2 := next_epoch_high_qc2 s; action := action s; st_epoch := st_epoch s;
     st_upgrade_certificate := st_upgrade_certificate s |}.
Definition set_proposals_wrapper (s : TestStorageState) (x : gmap ViewNumber (Proposal QuorumProposal2)) : TestStorageState :=
  {| vids := vids s; vid2 := vid2 s; das := das s; da2s := da2s s; proposals := proposals s;
     proposals2 := proposals2 s; proposals_wrapper := x; st_high_qc := st_high_qc s; high_qc2 := high_qc2 s;
     next_epoch_high_qc2 := next_epoch_high_qc2 s; action := action s; st_epoch := st_epoch s;
     st_upgrade_certificate := st_upgrade_certificate s |}.
Definition set_st_high_qc (s : TestStorageState) (x : option QuorumCertificate) : TestStorageState :=
  {| vids := vids s; vid2 := vid2 s; das := das s; da2s := da2s s; proposals := proposals s;
     proposals2 := proposals2 s; proposals_wrapper := proposals_wrapper s; st_high_qc := x;
     high_qc2 := high_qc2 s; next_epoch_high_qc2 := next_epoch_high_qc2 s; action := action s;
     st_epoch := st_epoch s; st_upgrade_certificate := st_upgrade_certificate s |}.
Definition set_high_qc2 (s : TestStorageState) (x : option QuorumCertificate2) : TestStorageState :=
  {| vids := vids s; vid2 := vid2 s; das := das s; da2s := da2s s; proposals := proposals s;
     proposals2 := proposals2 s; proposals_wrapper := proposals_wrapper s; st_high_qc := st_high_qc s;
     high_qc2 := x; next_epoch_high_qc2 := next_epoch_high_qc2 s; action := action s; st_epoch := st_epoch s;
     st_upgrade_certificate := st_upgrade_certificate s |}.
Definition set_next_epoch_high_qc2 (s : TestStorageState) (x : option NextEpochQuorumCertificate2) : TestStorageState :=
  {| vids := vids s; vid2 := vid2 s; das := das s; da2s := da2s s; proposals := proposals s;
     proposals2 := proposals2 s; proposals_wrapper := proposals_wrapper s; st_high_qc := st_high_qc s;
     high_qc2 := high_qc2 s; next_epoch_high_qc2 := x; action := action s; st_epoch := st_epoch s;
     st_upgrade_certificate := st_upgrade_certificate s |}.
Definition set_action (s : TestStorageState) (x : ViewNumber) : TestStorageState :=
  {| vids := vids s; vid2 := vid2 s; das := das s; da2s := da2s s; proposals := proposals s;
     proposals2 := proposals2 s; proposals_wrapper := proposals_wrapper s; st_high_qc := st_high_qc s;
     high_qc2 := high_qc2 s; next_epoch_high_qc2 := next_epoch_high_qc2 s; action := x;
     st_epoch := st_epoch s; st_upgrade_certificate := st_upgrade_certificate s |}.
Definition set_st_epoch (s : TestStorageState) (x : option EpochNumber) : TestStorageState :=
  {| vids := vids s; vid2 := vid2 s; das := das s; da2s := da2s s; proposals := proposals s;
     proposals2 := proposals2 s; proposals_wrapper := proposals_wrapper s; st_high_qc := st_high_qc s;
     high_qc2 := high_qc2 s; next_epoch_high_qc2 := next_epoch_high_qc2 s; action := action s; st_epoch := x;
     st_upgrade_certificate := st_upgrade_certificate s |}.
Definition set_st_upgrade_certificate (s : TestStorageState) (x : option UpgradeCertificate) : TestStorageState :=
  {| vids := vids s; vid2 := vid2 s; das := das s; da2s := da2s s; proposals := proposals s;
     proposals2 := proposals2 s; proposals_wrapper := proposals_wrapper s; st_high_qc := st_high_qc s;
     high_qc2 := high_qc2 s; next_epoch_high_qc2 := next_epoch_high_qc2 s; action := action s;
     st_epoch := st_epoch s; st_upgrade_certificate := x |}.

Definition TestStorageState_default : TestStorageState :=
  {| vids := ∅; vid2 := ∅; das := ∅; da2s := ∅; proposals := ∅; proposals2 := ∅; proposals_wrapper := ∅;
     st_high_qc := None; high_qc2 := None; next_epoch_high_qc2 := None; action := genesis_view;
     st_epoch := None; st_upgrade_certificate := None |}.

(** [should_return_err] makes every call fail but that of the upgrade certificate and
    the migration. *)
Context (should_return_err : bool).

Definition unless_failing (s : TestStorageState) : option TestStorageState :=
  if should_return_err then None else Some s.

Definition append_vid (s : TestStorageState) (p : Proposal ADVZDisperseShare) : option TestStorageState :=
  let d := proposal_data p in
  unless_failing (set_vids s (<[as_view_number d := <[as_recipient_key d := p]> (default ∅ (vids s !! as_view_number d))]> (vids s))).
Definition append_vid2 (s : TestStorageState) (p : Proposal VidDisperseShare2) : option TestStorageState :=
  let d := proposal_data p in
  unless_failing (set_vid2 s (<[vs_view_number d := <[vs_recipient_key d := p]> (default ∅ (vid2 s !! vs_view_number d))]> (vid2 s))).
Definition append_da (s : TestStorageState) (p : Proposal DaProposal) (_ : VidCommitment) : option TestStorageState :=
  unless_failing (set_das s (<[dp_view_number (proposal_data p) := p]> (das s))).
Definition append_da2 (s : TestStorageState) (p : Proposal DaProposal2) (_ : VidCommitment) : option TestStorageState :=
  unless_failing (set_da2s s (<[dp2_view_number (proposal_data p) := p]> (da2s s))).
Definition append_proposal (s : TestStorageState) (p : Proposal QuorumProposal) : option TestStorageState :=
  unless_failing (set_proposals s (<[qp_view_number (proposal_data p) := p]> (proposals s))).
Definition test_append_proposal2 (s : TestStorageState) (p : Proposal QuorumProposal2) : option TestStorageState :=
  unless_failing (set_proposals2 s (<[p_view_number (proposal_data p) := p]> (proposals2 s))).
Definition append_proposal_wrapper (s : TestStorageState) (p : Proposal QuorumProposal2) : option TestStorageState :=
  unless_failing (set_proposals_wrapper s (<[p_view_number (proposal_data p) := p]> (proposals_wrapper s))).

Definition test_record_action (s : TestStorageState) (view : ViewNumber) (epoch : option EpochNumber) (a : HotShotAction)
    : option TestStorageState :=
  unless_failing
    match a with
    | Vote | Propose =>
        let s := if action s <? view then set_action s view else s in
        if epoch_gt epoch (st_epoch s) then set_st_epoch s epoch else s
    | _ => s
    end.

(** The certificate of the later view is kept. *)
Definition newer_cert {D TH} (new : SimpleCertificate D TH) (old : option (SimpleCertificate D TH))
    : option (SimpleCertificate D TH) :=
  match old with
  | Some current => if view_number current <? view_number new then Some new else Some current
  | None => Some new
  end.
Definition test_update_high_qc (s : TestStorageState) (new_high_qc : QuorumCertificate) : option TestStorageState :=
  unless_failing (set_st_high_qc s (newer_cert new_high_qc (st_high_qc s))).
Definition update_high_qc2 (s : TestStorageState) (new_high_qc : QuorumCertificate2) : option TestStorageState :=
  unless_failing (set_high_qc2 s (newer_cert new_high_qc (high_qc2 s))).
Definition update_next_epoch_high_qc2 (s : TestStorageState) (new_high_qc : NextEpochQuorumCertificate2)
    : option TestStorageState :=
  unless_failing (set_next_epoch_high_qc2 s (newer_cert new_high_qc (next_epoch_high_qc2 s))).
Definition update_undecided_state {L : Type} (s : TestStorageState) (_ : gmap Commitment L) (_ : gmap ViewNumber ViewInner)
    : option TestStorageState := unless_failing s.
Definition update_decided_upgrade_certificate (s : TestStorageState) (cert : option UpgradeCertificate)
    : option TestStorageState := Some (set_st_upgrade_certificate s cert).

(** The stored proposals of the first generation are converted and replace what the
    second generation has for their views. *)
Definition migrate_consensus (s : TestStorageState) (convert : Proposal QuorumProposal → Proposal QuorumProposal2)
    : option TestStorageState :=
  Some (set_proposals2 s ((convert <$> proposals s) ∪ proposals2 s)).
End Storage.

(** ** What a restart relies on

    A storage that remembers the view of the last vote or proposal recorded in it. *)
Class ActionLog `{Bt : BlockTypes} {S : Type} (So : Storage S) := {
  actioned : S → ViewNumber;
  record_action_logs s v e a s' : record_action s v e a = Some s' →
    actioned s <= actioned s' ∧ (a = Vote ∨ a = Propose → v <= actioned s');
  append_proposal2_logs s p s' : append_proposal2 s p = Some s' → actioned s <= actioned s';
}.

#[global] Instance test_storage `{Bt : BlockTypes} `{Vd : !VidScheme} (err : bool) : Storage TestStorageState := {|
  record_action := test_record_action err;
  append_proposal2 := test_append_proposal2 err;
|}.

Section Log.
Context `{Sg : SignatureScheme} `{Cm : Committable} `{Vt : VidTypes} `{Vs : Versions}.
Context `{Bt : !BlockTypes} `{Vd : !VidScheme}.
Implicit Types (s : TestStorageState).

Lemma unless_failing_Some err s s' : unless_failing err s = Some s' → err = false ∧ s' = s.
Proof using Type. unfold unless_failing. destruct err; naive_solver. Qed.

#[global] Instance test_action_log err : ActionLog (test_storage err).
Proof using Type.
  refine {| actioned := action |}.
  - intros s v e a s' [_ ->]%unless_failing_Some. destruct a; simpl; repeat case_match; simpl; bool_facts;
      (split; [lia|intros [?|?]; (lia || done)]).
  - intros s p s' [_ ->]%unless_failing_Some. simpl. lia.
Defined.

(** A DA proposal or DA vote leaves no record. *)
Lemma da_actions_are_not_recorded s v e a s' :
  a = DaPropose ∨ a = DaVote → test_record_action false s v e a = Some s' → action s' = action s.
Proof using Type. intros [->| ->] [= <-]; done. Qed.

(** ** Sequences of calls *)

Inductive StorageCall :=
  | AppendVid (p : Proposal ADVZDisperseShare)
  | AppendVid2 (p : Proposal VidDisperseShare2)
  | AppendDa (p : Proposal DaProposal) (c : VidCommitment)
  | AppendDa2 (p : Proposal DaProposal2) (c : VidCommitment)
  | AppendProposal (p : Proposal QuorumProposal)
  | AppendProposal2 (p : Proposal QuorumProposal2)
  | AppendProposalWrapper (p : Proposal QuorumProposal2)
  | RecordAction (view : ViewNumber) (epoch : option EpochNumber) (a : HotShotAction)
  | UpdateHighQc (qc : QuorumCertificate)
  | UpdateHighQc2 (qc : QuorumCertificate2)
  | UpdateNextEpochHighQc2 (qc : NextEpochQuorumCertificate2)
  | UpdateUndecided (leaves : gmap Commitment Leaf) (st : gmap ViewNumber ViewInner)
  | UpdateUndecided2 (leaves : gmap Commitment Leaf2) (st : gmap ViewNumber ViewInner)
  | UpdateUpgrade (cert : option UpgradeCertificate)
  | Migrate.

Definition perform (err : bool) s (c : StorageCall) : option TestStorageState :=
  match c with
  | AppendVid p => append_vid err s p
  | AppendVid2 p => append_vid2 err s p
  | AppendDa p c => append_da err s p c
  | AppendDa2 p c => append_da2 err s p c
  | AppendProposal p => append_proposal err s p
  | AppendProposal2 p => test_append_proposal2 err s p
  | AppendProposalWrapper p => append_proposal_wrapper err s p
  | RecordAction v e a => test_record_action err s v e a
  | UpdateHighQc qc => test_update_high_qc err s qc
  | UpdateHighQc2 qc => update_high_qc2 err s qc
  | UpdateNextEpochHighQc2 qc => update_next_epoch_high_qc2 err s qc
  | UpdateUndecided leaves st => update_undecided_state err s leaves st
  | UpdateUndecided2 leaves st => update_undecided_state err s leaves st
  | UpdateUpgrade cert => update_decided_upgrade_certificate s cert
  | Migrate => migrate_consensus s (convert_proposal quorum_proposal2)
  end.

(** A call that fails changes nothing. *)
Definition perform_all (err : bool) s (calls : list StorageCall) : TestStorageState :=
  foldl (fun s c => default s (perform err s c)) s calls.

(** What the calls have passed. *)
Definition acted_views (calls : list StorageCall) : list ViewNumber :=
  omap (fun c => match c with RecordAction v _ (Vote | Propose) => Some v | _ => None end) calls.
Definition high_qcs (calls : list StorageCall) : list QuorumCertificate2 :=
  omap (fun c => match c with UpdateHighQc2 qc => Some qc | _ => None end) calls.
Definition validated_for (v : ViewNumber) (calls : list StorageCall) : list (Proposal QuorumProposal2) :=
  omap (fun c => match c with
                 | AppendProposalWrapper p => if p_view_number (proposal_data p) =? v then Some p else None
                 | _ => None
                 end) calls.

(** The certificate kept is one that was passed, of the highest view. *)
Definition latest_qc (qcs : list QuorumCertificate2) (kept : option QuorumCertificate2) : Prop :=
  match kept with
  | Some qc => qc ∈ qcs ∧ ∀ qc', qc' ∈ qcs → view_number qc' <= view_number qc
  | None => qcs = []
  end.

Lemma newer_cert_latest qcs (kept : option QuorumCertificate2) qc :
  latest_qc qcs kept → latest_qc (qcs ++ [qc]) (newer_cert qc kept).
Proof using Type.
  unfold newer_cert. destruct kept as [k|]; simpl.
  - intros [Hk Hmax]. destruct (Z.ltb_spec (view_number k) (view_number qc)); simpl; (split; [set_solver|]);
      intros x [Hx|Hx%list_elem_of_singleton]%elem_of_app; try (specialize (Hmax x Hx)); subst; lia.
  - intros ->. simpl. split; [set_solver|]. intros x ->%list_elem_of_singleton. lia.
Qed.

(** What one call does to the fields that a restart reads. *)
Lemma perform_spec s c :
  ∃ s', perform false s c = Some s' ∧
    action s' = foldl Z.max (action s) (acted_views [c]) ∧
    (∀ qcs, latest_qc qcs (high_qc2 s) → latest_qc (qcs ++ high_qcs [c]) (high_qc2 s')) ∧
    ∀ v, proposals_wrapper s' !! v = last (option_list (proposals_wrapper s !! v) ++ validated_for v [c]).
Proof using Type.
  assert (∀ (o : option (Proposal QuorumProposal2)), o = last (option_list o)) as Hl by by intros [].
  destruct c as [| | | | | |p|v e a| |qc| | | | |]; eexists; (split; [reflexivity|]); split_and!;
    intros; simpl; rewrite ?app_nil_r; try done; try apply Hl.
  - destruct (Z.eqb_spec (p_view_number (proposal_data p)) v) as [<-|Hne].
    + by rewrite lookup_insert_eq, last_snoc.
    + rewrite lookup_insert_ne by done. rewrite app_nil_r. apply Hl.
  - destruct a; simpl; repeat case_match; simpl; bool_facts; lia.
  - by destruct a; simpl; repeat case_match; rewrite ?app_nil_r.
  - destruct a; simpl; repeat case_match; apply Hl.
  - by apply newer_cert_latest.
Qed.

(** C37. What a node finds in its storage when it restarts.  After any calls: the view of the
    last action is the highest for which a vote or a proposal was recorded; the high QC
    is one that was passed, of the highest view; the proposal kept for a view is the last
    one validated for it.  While the storage fails, the calls change none of these. *)
Theorem storage_keeps_latest err s calls :
  let s' := perform_all err s calls in
  if err then action s' = action s ∧ high_qc2 s' = high_qc2 s ∧ proposals_wrapper s' = proposals_wrapper s else
  action s' = foldl Z.max (action s) (acted_views calls) ∧
  (∀ qcs, latest_qc qcs (high_qc2 s) → latest_qc (qcs ++ high_qcs calls) (high_qc2 s')) ∧
  ∀ v, proposals_wrapper s' !! v = last (option_list (proposals_wrapper s !! v) ++ validated_for v calls).
Proof using Type.
  unfold perform_all. destruct err.
  - revert s. induction calls as [|c calls IH]; intros s; [done|]. simpl.
    destruct (IH (default s (perform true s c))) as (-> & -> & ->). by destruct c.
  - revert s. induction calls as [|c calls IH]; intros s.
    { simpl. split_and!; [done|by intros; rewrite app_nil_r|]. intros v. rewrite app_nil_r. by destruct (_ !! v). }
    cbn [foldl]. destruct (perform_spec s c) as (s1 & -> & Ha & Hq & Hp). change (default s (Some s1)) with s1.
    destruct (IH s1) as (Ha' & Hq' & Hp'). split_and!.
    + rewrite Ha', Ha, <-foldl_app. by destruct c as [| | | | | | |v e []| | | | | | |].
    + intros qcs H. specialize (Hq' _ (Hq _ H)). rewrite <-(assoc_L (++)) in Hq'. by destruct c.
    + intros v. rewrite Hp', Hp. change (validated_for v (c :: calls)) with (validated_for v ([c] ++ calls)).
      unfold validated_for. rewrite omap_app, (assoc_L (++)). fold (validated_for v [c]) (validated_for v calls).
      rewrite !last_app. by destruct (last (validated_for v calls)), (last (validated_for v [c])), (proposals_wrapper s !! v).
Qed.

(** Migrating a storage makes every stored proposal of the first generation available in
    the second. *)
Lemma migrated_proposals s v p :
  proposals s !! v = Some p →
  ∃ s', perform false s Migrate = Some s' ∧ proposals2 s' !! v = Some (convert_proposal quorum_proposal2 p).
Proof using Type.
  intros H. eexists. split; [reflexivity|]. simpl. rewrite lookup_union, lookup_fmap, H. simpl. by destruct (proposals2 s !! v).
Qed.
End Log.
