(* ===== verification/DaTask.v ===== *)
(** * The DA task and the VID task

    [task-impls/src/da.rs] and [task-impls/src/vid.rs].  The DA task validates DA
    proposals, votes for them and keeps their payload, collects DA votes as the
    leader and proposes the blocks the node builds.  The VID task disperses those
    blocks to the committee.

    The handlers are [task]s over the state of the task and the consensus state.
    Hashing of transactions, the storage's answer and whether the primary network
    is down are arguments. *)

From S2P Require Import Prelude Epochs Crypto Committee Votes Certificates VoteAccumulator VoteCollection Data Vid Consensus ConsensusProofs Task Message Events Network.
Import Ev.

Section DaTask.
Context `{Sg : SignatureScheme} `{Cm : Committable} `{Vt : VidTypes} `{Vs : Versions}.
Context `{Bt : !BlockTypes} `{Vd : !VidScheme} `{Bu : !BuilderTypes}.
Context {M : Type} `{Mb : !Membership M}.
(** [Sha256::digest] *)
Context (sha256 : bytes → bytes).

Record DaConfig := {
  da_public_key : PubKey;
  da_private_key : PrivKey;
  da_membership : M;
  da_lock : UpgradeLock;
  da_id : Z;
  (** [append_da2] succeeds *)
  da_stored : bool;
  (** [network.is_primary_down()] *)
  primary_down : bool;
}.
Context (cfg : DaConfig).

Record DaTaskState := {
  da_cur_view : ViewNumber;
  da_cur_epoch : option EpochNumber;
  da_consensus : Consensus;
  da_collectors : gmap ViewNumber VoteCollectionTaskState;
}.
Definition set_da_consensus (s : DaTaskState) (c : Consensus) : DaTaskState :=
  {| da_cur_view := da_cur_view s; da_cur_epoch := da_cur_epoch s; da_consensus := c;
     da_collectors := da_collectors s |}.

(** An internal event, the event for the application, or the spawned calculation
    of VID shares. *)
Inductive DaOut :=
  | DaInternal (e : Event)
  | DaProposalEvent (view : ViewNumber) (p : Proposal DaProposal2) (sender : PubKey)
  | SpawnVid (view : ViewNumber) (target_epoch : option EpochNumber).

Abbreviation da_task := (task DaTaskState DaOut Error).
Definition da_swallow (f : Consensus → outcome Error Consensus) : da_task unit :=
  swallow (fun s => c ← f (da_consensus s); Ok (set_da_consensus s c)).

(** ** Receiving *)

Definition on_da_proposal_recv (proposal : Proposal DaProposal2) (sender : PubKey) : da_task unit :=
  let view := dp2_view_number (proposal_data proposal) in
  let transactions := dp2_encoded_transactions (proposal_data proposal) in
  s ← get;
  _ ← require (da_cur_view s <=? wrapper_add view 1) "Throwing away DA proposal that is more than one view older";
  _ ← match saved_payloads (da_consensus s) !! view with
      | Some payload =>
          require (bool_decide (payload_encode payload = transactions))
            "Received DA proposal but we already have a payload for that view and they are not identical."
      | None => mret tt
      end;
  view_leader_key ← lift (leader (da_membership cfg) view (dp2_epoch (proposal_data proposal)));
  _ ← require (bool_decide (view_leader_key = sender)) "DA proposal doesn't have expected leader key";
  _ ← require (validate view_leader_key (proposal_signature proposal) (sha256 transactions))
        "Could not verify proposal.";
  emit (DaInternal (DaProposalValidated proposal sender)).

(** The epoch whose committee the node belongs to. *)
Definition vid_target_epoch (proposal_epoch : option EpochNumber) : outcome Error (option EpochNumber) :=
  let next_epoch := (fun e : Z => wrapper_add e 1) <$> proposal_epoch in
  here ← has_stake (da_membership cfg) (da_public_key cfg) proposal_epoch;
  if (here : bool) then Ok proposal_epoch
  else
    next ← has_stake (da_membership cfg) (da_public_key cfg) next_epoch;
    if (next : bool) then Ok next_epoch
    else Err "Not calculating VID, the node doesn't belong to the current epoch or the next epoch.".

Definition on_da_proposal_validated (proposal : Proposal DaProposal2) (sender : PubKey) : da_task unit :=
  let view := dp2_view_number (proposal_data proposal) in
  let epoch_number := dp2_epoch (proposal_data proposal) in
  let transactions := dp2_encoded_transactions (proposal_data proposal) in
  s ← get;
  _ ← require (cur_view (da_consensus s) <=? wrapper_add view 1) "Validated DA proposal for prior view";
  _ ← emit (DaProposalEvent view proposal sender);
  member ← lift (has_da_stake (da_membership cfg) (da_public_key cfg) epoch_number);
  _ ← require member "We were not chosen for consensus committee";
  num_nodes ← lift (total_nodes (da_membership cfg) epoch_number);
  payload_commitment ←
    lift (vid_commitment transactions num_nodes (version_infallible (da_lock cfg) view));
  _ ← require (da_stored cfg) "Failed to append DA proposal to storage";
  vote ← lift (create_signed_vote {| payload_commit := payload_commitment; da2_epoch := epoch_number |}
                 view (da_public_key cfg) (da_private_key cfg) (da_lock cfg));
  _ ← emit (DaInternal (DaVoteSend vote));
  _ ← da_swallow (fun c => update_da_view c view epoch_number payload_commitment);
  _ ← da_swallow (fun c => update_saved_payloads c view
                      (from_bytes transactions (dp2_metadata (proposal_data proposal))));
  if primary_down cfg then
    target_epoch ← lift (vid_target_epoch epoch_number);
    emit (SpawnVid view target_epoch)
  else mret tt.

(** The spawned calculation: the shares are stored, and the node's own share is
    announced as if it had arrived. *)
Definition spawned_vid (view : ViewNumber) (target_epoch : option EpochNumber) (c : Consensus)
    : outcome Error (Consensus * list Event) :=
  c' ← calculate_and_update_vid c c c view target_epoch (da_membership cfg) (da_private_key cfg);
  let c := default c c' in
  Ok (c, match vid_shares c !! view ≫= (.!! da_public_key cfg) with
         | Some vid_share => [VidShareRecv (da_public_key cfg) vid_share]
         | None => []
         end).

(** ** Leading *)

Definition on_da_vote (vote : SimpleVote DaData2) : da_task unit :=
  let epoch := da2_epoch (vote_data vote) in
  leader ← lift (leader (da_membership cfg) (vote_view vote) epoch);
  _ ← require (bool_decide (leader = da_public_key cfg)) "We are not the DA committee leader for view";
  s ← get;
  '(collectors, events) ←
    lift (handle_vote (TH := SuccessThreshold) (da_lock cfg) (da_membership cfg) (da_collectors s) vote
            (da_public_key cfg) epoch (da_id cfg) (VoteCollection.DaVoteRecv vote) NotInTransition);
  _ ← modify (fun s => {| da_cur_view := da_cur_view s; da_cur_epoch := da_cur_epoch s;
                          da_consensus := da_consensus s; da_collectors := collectors |});
  emit_all (map (fun e => DaInternal (of_vote_event e)) events).

Definition on_da_view_change (view : ViewNumber) (epoch : option EpochNumber) : da_task unit :=
  _ ← modify (fun s => {| da_cur_view := da_cur_view s;
                          da_cur_epoch := if epoch_gt epoch (da_cur_epoch s) then epoch else da_cur_epoch s;
                          da_consensus := da_consensus s; da_collectors := da_collectors s |});
  s ← get;
  _ ← require (da_cur_view s <? view) "Received a view change to an older view.";
  modify (fun s => {| da_cur_view := view; da_cur_epoch := da_cur_epoch s;
                      da_consensus := da_consensus s; da_collectors := da_collectors s |}).

Definition on_da_block (b : PackedBundle) : da_task unit :=
  let view := pb_view_number b in
  let transactions := pb_encoded_transactions b in
  signature ← lift (ok_or (sign (da_private_key cfg) (sha256 transactions)) "Failed to sign");
  s ← get;
  let epoch := da_cur_epoch s in
  leader ← lift (leader (da_membership cfg) view epoch);
  if bool_decide (leader = da_public_key cfg) then
    let data := {| dp2_encoded_transactions := transactions; dp2_metadata := pb_metadata b;
                   dp2_view_number := view; dp2_epoch := epoch |} in
    _ ← emit (DaInternal (DaProposalSend {| proposal_data := data; proposal_signature := signature |}
                            (da_public_key cfg)));
    da_swallow (fun c => update_saved_payloads c view (from_bytes transactions (pb_metadata b)))
  else mret tt.

Definition da_handle (event : Event) : da_task unit :=
  match event with
  | DaProposalRecv proposal sender => on_da_proposal_recv proposal sender
  | DaProposalValidated proposal sender => on_da_proposal_validated proposal sender
  | DaVoteRecv vote => on_da_vote vote
  | ViewChange view epoch => on_da_view_change view epoch
  | BlockRecv b => on_da_block b
  | _ => mret tt
  end.
End DaTask.

(** ** The VID task *)

Section VidTask.
Context `{Sg : SignatureScheme} `{Cm : Committable} `{Vt : VidTypes} `{Vs : Versions}.
Context `{Bt : !BlockTypes} `{Vd : !VidScheme} `{Bu : !BuilderTypes}.
Context {M : Type} `{Mb : !Membership M}.

Record VidConfig := {
  vid_public_key : PubKey;
  vid_private_key : PrivKey;
  vid_membership : M;
  vid_epoch_height : Z;
}.
Context (cfg : VidConfig).

Record VidTaskState := {
  vid_cur_view : ViewNumber;
  vid_cur_epoch : option EpochNumber;
  vid_consensus : Consensus;
}.

(** The handler returns whether the task has completed; [.ok()?] and the early
    returns give [false]. *)
Abbreviation vid_task := (task VidTaskState Event Error).

Definition on_vid_block (b : PackedBundle) : vid_task bool :=
  let payload := from_bytes (pb_encoded_transactions b) (pb_metadata b) in
  let view := pb_view_number b in
  s ← get;
  let epoch := vid_cur_epoch s in
  match leader (vid_membership cfg) view epoch with
  | Panic => lift Panic
  | Err _ => mret false
  | Ok l =>
      if bool_decide (l = vid_public_key cfg) then
        match calculate_vid_disperse payload (vid_membership cfg) view epoch epoch with
        | Panic => lift Panic
        | Err _ => mret false
        | Ok vid_disperse =>
            let payload_commitment := disperse_payload_commitment vid_disperse in
            _ ← modify (fun s => {| vid_cur_view := vid_cur_view s; vid_cur_epoch := vid_cur_epoch s;
                    vid_consensus := store_vid_shares (vid_consensus s) view
                                       (from_vid_disperse vid_disperse) (vid_private_key cfg) |});
            _ ← emit (SendPayloadCommitmentAndMetadata payload_commitment
                        (builder_commitment payload (pb_metadata b)) (pb_metadata b) view
                        (pb_sequencing_fees b) (pb_auction_result b));
            match sign (vid_private_key cfg) (vid_as_ref payload_commitment) with
            | None => mret false
            | Some signature =>
                _ ← emit (VidDisperseSend {| proposal_data := vid_disperse; proposal_signature := signature |}
                            (vid_public_key cfg));
                mret false
            end
        end
      else mret false
  end.

Definition on_vid_view_change (view : ViewNumber) (epoch : option EpochNumber) : vid_task bool :=
  _ ← modify (fun s => {| vid_cur_view := vid_cur_view s;
        vid_cur_epoch := if epoch_gt epoch (vid_cur_epoch s) then epoch else vid_cur_epoch s;
        vid_consensus := vid_consensus s |});
  s ← get;
  if (negb (view =? 0) || (0 <? vid_cur_view s)) && (view <=? vid_cur_view s) then mret false
  else
    _ ← modify (fun s => {| vid_cur_view := view; vid_cur_epoch := vid_cur_epoch s;
                            vid_consensus := vid_consensus s |});
    mret false.

(** [%] panics when the epoch height is zero. *)
Definition u64_rem {E} (a b : Z) : outcome E Z := if b =? 0 then Panic else Ok (a mod b).

Definition on_own_proposal (proposal : Proposal QuorumProposal2) : vid_task bool :=
  let p := proposal_data proposal in
  let proposed_block_number := block_number (p_block_header p) in
  if negb (bool_decide (is_Some (p_epoch p))) then mret false
  else
    r ← lift (u64_rem proposed_block_number (vid_epoch_height cfg));
    if negb (r =? 0) then mret false
    else
      let view := p_view_number p in
      let sender_epoch := option_epoch_from_block_number true proposed_block_number (vid_epoch_height cfg) in
      let target_epoch := (fun x => wrapper_add x 1) <$> sender_epoch in
      s ← get;
      match saved_payloads (vid_consensus s) !! view with
      | None => mret false
      | Some payload =>
          match calculate_vid_disperse payload (vid_membership cfg) view target_epoch sender_epoch with
          | Panic => lift Panic
          | Err _ => mret false
          | Ok next_epoch_vid_disperse =>
              match sign (vid_private_key cfg)
                      (vid_as_ref (disperse_payload_commitment next_epoch_vid_disperse)) with
              | None => mret false
              | Some next_epoch_signature =>
                  _ ← emit (VidDisperseSend {| proposal_data := next_epoch_vid_disperse;
                                               proposal_signature := next_epoch_signature |}
                              (vid_public_key cfg));
                  mret false
              end
          end
      end.

Definition vid_handle (event : Event) : vid_task bool :=
  match event with
  | BlockRecv b => on_vid_block b
  | ViewChange view epoch => on_vid_view_change view epoch
  | QuorumProposalSend proposal _ => on_own_proposal proposal
  | Shutdown => mret true
  | _ => mret false
  end.
End VidTask.

(** ** DA votes *)

Section DaProofs.
Context `{Sg : SignatureScheme} `{Cm : Committable} `{Vt : VidTypes} `{Vs : Versions}.
Context `{Bt : !BlockTypes} `{Vd : !VidScheme} `{Bu : !BuilderTypes}.
Context {M : Type} `{Mb : !Membership M}.
Context (sha256 : bytes → bytes) (cfg : DaConfig (M := M)).
Implicit Types (s : DaTaskState) (p : Proposal DaProposal2).

(** A proposal signed by the leader of its view. *)
Definition authentic p (sender : PubKey) : Prop :=
  leader (da_membership cfg) (dp2_view_number (proposal_data p)) (dp2_epoch (proposal_data p)) = Ok sender ∧
  validate sender (proposal_signature p) (sha256 (dp2_encoded_transactions (proposal_data p))) = true.

(** A vote for the payload of a proposal, by a member of the DA committee that
    has stored it. *)
Record backed_vote p (vote : SimpleVote DaData2) : Prop := {
  bv_view : vote_view vote = dp2_view_number (proposal_data p);
  bv_epoch : da2_epoch (vote_data vote) = dp2_epoch (proposal_data p);
  bv_key : signing_key vote = da_public_key cfg;
  bv_member : has_da_stake (da_membership cfg) (da_public_key cfg) (dp2_epoch (proposal_data p)) = Ok true;
  bv_payload : ∃ n, total_nodes (da_membership cfg) (dp2_epoch (proposal_data p)) = Ok n ∧
    vid_commit_only n (dp2_encoded_transactions (proposal_data p)) = Some (payload_commit (vote_data vote));
  bv_stored : da_stored cfg = true;
}.

Lemma recv_emits p sender s o :
  emits (on_da_proposal_recv sha256 cfg p sender) s o →
  o = DaInternal (DaProposalValidated p sender) ∧ authentic p sender.
Proof using Type.
  unfold on_da_proposal_recv. intros H. peel H. peel H.
  apply emits_silent in H as (u & s1 & _ & H); [|case_match; auto with hotshot].
  peel H. peel H. peel H. apply list_elem_of_singleton in H. bool_facts. subst. split; [done|]. split; [|done]. unfold leader. by rewrite Hb0.
Qed.

(** The run of a swallowed update. *)
Lemma da_swallow_run f s r s' out :
  da_swallow f s = (r, s', out) → (∀ c, f c ≠ Panic) →
  r = Ok tt ∧ out = [] ∧ s' = set_da_consensus s (swallowed f (da_consensus s)).
Proof using Type.
  unfold da_swallow, swallow, swallowed. intros H Hf. specialize (Hf (da_consensus s)).
  destruct (f (da_consensus s)) eqn:Hfs; mon; simplify_eq/=; split_and!; try done. by destruct s'.
Qed.

Lemma update_da_view_no_panic c v e pc : update_da_view c v e pc ≠ Panic.
Proof using Type. unfold update_da_view, update_validated_state_map. by repeat case_match; mon. Qed.

(** An event after the first operation of a run. *)
Lemma run_elem_bind {A B} (m : task DaTaskState DaOut Error A) (f : A → task DaTaskState DaOut Error B) s r s' out o :
  (m ≫= f) s = (r, s', out) → o ∈ out → ¬ emits m s o →
  ∃ a s1 ev1 ev2, m s = (Ok a, s1, ev1) ∧ f a s1 = (r, s', ev2) ∧ o ∈ ev2.
Proof using Type.
  intros [(a & s1 & ev1 & ev2 & Hm & Hf & ->)|[(e & Hm & ->)|[Hm ->]]]%bind_cases Ho Hn;
    unfold emits in Hn; rewrite Hm in Hn; simpl in Hn; try done.
  apply elem_of_app in Ho as [?|?]; [done|]. eauto 10.
Qed.

Lemma silent_no_emits {A} (m : task DaTaskState DaOut Error A) s o : silent m → ¬ emits m s o.
Proof using Type. intros Hm. unfold emits. rewrite Hm. by intros []%elem_of_nil. Qed.

Lemma silent_da_swallow f : silent (da_swallow f).
Proof using Type. apply silent_swallow. Qed.

Lemma saved_payload_after c view payload :
  ∃ x, saved_payloads (swallowed (fun c => update_saved_payloads c view payload) c) !! view = Some x ∧
    (saved_payloads c !! view = None → x = payload).
Proof using Type.
  unfold swallowed, update_saved_payloads. case_bool_decide as Hs; simpl; mon.
  - destruct Hs as [x Hx]. exists x. by rewrite Hx.
  - exists payload. by rewrite lookup_insert_eq.
Qed.

Lemma da_view_payloads c view e pc :
  saved_payloads (swallowed (fun c => update_da_view c view e pc) c) = saved_payloads c.
Proof using Type. unfold swallowed. by destruct (update_da_view c view e pc) as [c'| |] eqn:H; [apply update_map_ok in H as [-> _]|..]. Qed.

Ltac silent_run H Hin :=
  let a := fresh "a" in let s := fresh "s" in let Hm := fresh "Hm" in
  apply run_elem_bind with (1 := H) in Hin as (a & s & ? & ? & Hm & H' & Hin);
    [clear H; rename H' into H | apply silent_no_emits; solve [auto with hotshot | apply silent_da_swallow]].

(** The vote is sent, then the view and the payload are recorded. *)
Lemma vote_sent_run vote view ep pc payload s r s' out :
  (_ ← emit (DaInternal (DaVoteSend vote));
   _ ← da_swallow (fun c => update_da_view c view ep pc);
   _ ← da_swallow (fun c => update_saved_payloads c view payload);
   if primary_down cfg then target_epoch ← lift (vid_target_epoch cfg ep); emit (SpawnVid view target_epoch)
   else mret tt) s = (r, s', out) →
  (∀ v, DaInternal (DaVoteSend v) ∈ out → v = vote) ∧
  ∃ x, saved_payloads (da_consensus s') !! view = Some x ∧
    (saved_payloads (da_consensus s) !! view = None → x = payload).
Proof using Type.
  intros [(u & s1 & ev1 & ev2 & [= <- <- <-] & H & ->)|[(e & [=] & _)|[[=] _]]]%bind_cases.
  apply bind_cases in H as [(u1 & s1 & ev1 & ev3 & Hm & H & ->)|[(e & Hm & ->)|[Hm ->]]];
    apply da_swallow_run in Hm as (Hr & -> & ->); try done; try (intros; apply update_da_view_no_panic).
  apply bind_cases in H as [(u2 & s1 & ev1 & ev4 & Hm & H & ->)|[(e & Hm & ->)|[Hm ->]]];
    apply da_swallow_run in Hm as (Hr' & -> & ->); try done; try (by intros c; unfold update_saved_payloads; case_bool_decide).
  assert (s' = set_da_consensus (set_da_consensus s (swallowed (fun c => update_da_view c view ep pc) (da_consensus s)))
            (swallowed (fun c => update_saved_payloads c view payload)
               (swallowed (fun c => update_da_view c view ep pc) (da_consensus s))) ∧
          ∀ o, o ∈ ev4 → ∃ t, o = SpawnVid view t) as [-> Hev].
  { destruct (primary_down cfg); [|injection H as _ <- <-; split; [done|by intros o []%elem_of_nil]].
    apply bind_cases in H as [(t & s2 & ev1 & ev5 & Hm & H & ->)|[(e & Hm & ->)|[Hm ->]]];
      injection Hm as Ht <- <-; [injection H as <- <- <-|..]; (split; [done|]); intros o Ho;
      [apply list_elem_of_singleton in Ho; eauto|by apply elem_of_nil in Ho..]. }
  split.
  - intros v Hv. simpl in Hv. apply elem_of_cons in Hv as [[= ->]|Hv]; [done|]. by apply Hev in Hv as [t ?].
  - simpl. destruct (saved_payload_after (swallowed (fun c => update_da_view c view ep pc) (da_consensus s)) view payload)
      as (x & Hx & Hnew). exists x. split; [done|]. by rewrite da_view_payloads in Hnew.
Qed.

Lemma validated_run p sender s r s' out vote :
  on_da_proposal_validated cfg p sender s = (r, s', out) → DaInternal (DaVoteSend vote) ∈ out →
  backed_vote p vote ∧
  ∃ x, saved_payloads (da_consensus s') !! vote_view vote = Some x ∧
    (saved_payloads (da_consensus s) !! vote_view vote = None →
     x = from_bytes (dp2_encoded_transactions (proposal_data p)) (dp2_metadata (proposal_data p))).
Proof using Type.
  unfold on_da_proposal_validated. intros H Hin.
  silent_run H Hin. apply get_run in Hm as [-> ->].
  silent_run H Hin. apply require_run in Hm as [_ ->].
  eapply run_elem_bind in H as (u & s1 & ? & ? & [= <- <- <-] & H & Hin'); [|exact Hin|by intros ?%list_elem_of_singleton].
  clear Hin. rename Hin' into Hin.
  silent_run H Hin. apply lift_run in Hm as [Hmem ->].
  silent_run H Hin. apply require_run in Hm as [-> ->].
  silent_run H Hin. apply lift_run in Hm as [Hn ->].
  silent_run H Hin. apply lift_run in Hm as [Hpc ->].
  silent_run H Hin. apply require_run in Hm as [Hst ->].
  silent_run H Hin. apply lift_run in Hm as [Hvote ->].
  apply create_signed_vote_ok in Hvote as (Hd & Hv & Hk).
  apply vote_sent_run in H as (Hout & pl & Hx & Hnew). apply Hout in Hin. subst. rewrite Hv. split; [|eauto].
  split; rewrite ?Hd; try done. eexists. split; [exact Hn|]. unfold vid_commitment, unwrap in Hpc. by case_match; simplify_eq.
Qed.

(** Which handler the events of interest come from. *)
Definition plain (o : DaOut) : Prop :=
  match o with
  | DaInternal (DaVoteSend _) | DaInternal (DaProposalValidated _ _) => False
  | _ => True
  end.

Lemma other_handlers_plain e :
  match e with DaProposalRecv _ _ | DaProposalValidated _ _ => False | _ => True end →
  only plain (da_handle sha256 cfg e).
Proof using Type.
  intros He. destruct e; try done; simpl; try (apply only_silent, silent_ret).
  - unfold on_da_vote. only_step. apply only_emit_all, Forall_forall.
    intros o [ev [-> _]]%list_elem_of_fmap. by destruct ev.
  - unfold on_da_view_change. only_step.
  - unfold on_da_block. only_step; try (apply only_emit; exact I). apply only_silent, silent_da_swallow.
Qed.

Lemma validated_no_validated p sender s p' sender' :
  ¬ emits (on_da_proposal_validated cfg p sender) s (DaInternal (DaProposalValidated p' sender')).
Proof using Type.
  intros H. assert (only (fun o => match o with DaInternal (DaProposalValidated _ _) => False | _ => True end)
    (on_da_proposal_validated cfg p sender)) as Hon; [|by apply Hon in H].
  unfold on_da_proposal_validated.
  only_step; try (apply only_emit; exact I); apply only_silent, silent_da_swallow.
Qed.

(** The task runs beside the other tasks.  A validated proposal reaches it only
    as an event it has broadcast itself. *)
Definition known (log : list DaOut) (e : Event) : Prop :=
  match e with DaProposalValidated p sender => DaInternal (DaProposalValidated p sender) ∈ log | _ => True end.

Inductive da_run (s0 : DaTaskState) : DaTaskState → list DaOut → Prop :=
  | da_start : da_run s0 s0 []
  | da_event s log e r s' out :
      da_run s0 s log → known log e → da_handle sha256 cfg e s = (r, s', out) → da_run s0 s' (log ++ out)
  | da_other s log c : da_run s0 s log → step (da_consensus s) c → da_run s0 (set_da_consensus s c) log.

Lemma da_run_authentic s0 s log p sender :
  da_run s0 s log → DaInternal (DaProposalValidated p sender) ∈ log → authentic p sender.
Proof using Type.
  intros Hrun. revert p sender. induction Hrun as [|s log e r s' out Hrun IH Hk He|s log c Hrun IH Hc]; intros p sender Hin.
  - by apply elem_of_nil in Hin.
  - apply elem_of_app in Hin as [Hin|Hin]; [by apply IH|].
    assert (emits (da_handle sha256 cfg e) s (DaInternal (DaProposalValidated p sender))) as Hem
      by (unfold emits; by rewrite He).
    destruct e; try (by apply other_handlers_plain in Hem; [|exact I]).
    + by apply recv_emits in Hem as [[= -> ->] ?].
    + by apply validated_no_validated in Hem.
  - by apply IH.
Qed.

Lemma keeps_da_swallow (I : Consensus → Prop) f :
  (∀ c c', I c → f c = Ok c' → I c') → keeps (fun s => I (da_consensus s)) (da_swallow f).
Proof using Type.
  intros Hf. apply keeps_swallow. intros s s' Hs H. apply bind_ok_inv in H as (c' & Hc & [= <-]). by eapply Hf.
Qed.

Lemma da_handle_steps c0 e : keeps (fun s => rtc step c0 (da_consensus s)) (da_handle sha256 cfg e).
Proof using Type.
  assert (∀ view payload, keeps (fun s => rtc step c0 (da_consensus s))
    (da_swallow (fun c => update_saved_payloads c view payload))) as Hp.
  { intros. apply keeps_da_swallow. intros c c' Hc H. eapply rtc_r; [done|]. by eapply step_payload. }
  assert (∀ view ep pc, keeps (fun s => rtc step c0 (da_consensus s))
    (da_swallow (fun c => update_da_view c view ep pc))) as Hd.
  { intros. apply keeps_da_swallow. intros c c' Hc H. eapply rtc_r; [done|]. by eapply step_da. }
  destruct e; simpl; try apply keeps_ret.
  - unfold on_da_proposal_recv. keeps_step.
  - unfold on_da_proposal_validated. keeps_step; try done.
  - unfold on_da_vote. keeps_step; by apply keeps_modify.
  - unfold on_da_view_change. keeps_step; by apply keeps_modify.
  - unfold on_da_block. keeps_step; try done.
Qed.

(** C18. DA votes make data available.  In every run of the DA task beside the
    other tasks, a DA vote is sent only for a proposal that the leader of its view
    signed, by a member of the DA committee, after the proposal was stored, and
    commits to exactly the transactions of the proposal for the nodes of its
    epoch; when the vote is out, a payload is saved for the view, the one of the
    proposal if there was none before; and the task moves the consensus state only
    by its critical sections. *)
Theorem da_votes_make_data_available s0 s log e r s' out vote :
  da_run s0 s log → known log e → da_handle sha256 cfg e s = (r, s', out) →
  DaInternal (DaVoteSend vote) ∈ out →
  rtc step (da_consensus s) (da_consensus s') ∧
  ∃ p sender, authentic p sender ∧ backed_vote p vote ∧
    ∃ x, saved_payloads (da_consensus s') !! vote_view vote = Some x ∧
      (saved_payloads (da_consensus s) !! vote_view vote = None →
       x = from_bytes (dp2_encoded_transactions (proposal_data p)) (dp2_metadata (proposal_data p))).
Proof using Type.
  intros Hrun Hk He Hin. split.
  { pose proof (da_handle_steps (da_consensus s) e s (rtc_refl _ _)) as H. by rewrite He in H. }
  assert (emits (da_handle sha256 cfg e) s (DaInternal (DaVoteSend vote))) as Hem by (unfold emits; by rewrite He).
  destruct e; try (by apply other_handlers_plain in Hem; [|exact I]).
  - by apply recv_emits in Hem as [? _].
  - exists p, sender. split; [by eapply da_run_authentic|]. by eapply validated_run.
Qed.
End DaProofs.

(** ** Dispersals *)

Section VidProofs.
Context `{Sg : SignatureScheme} `{Cm : Committable} `{Vt : VidTypes} `{Vs : Versions}.
Context `{Bt : !BlockTypes} `{Vd : !VidScheme} `{Bu : !BuilderTypes}.
Context {M : Type} `{Mb : !Membership M}.
Context (cfg : VidConfig (M := M)).

(** The shares of a dispersal have different recipients and commit to its
    payload; with a signature of that commitment they are its share proposals. *)
Lemma dispersal_shares (d : VidDisperse) :
  NoDup (map recipient_key (from_vid_disperse d)) ∧
  Forall (fun x => share_payload_commitment x = disperse_payload_commitment d) (from_vid_disperse d).
Proof using Type.
  destruct d as [d|d]; simpl; unfold from_advz_disperse, from_vid_disperse2; rewrite !map_map; simpl;
    change (map (fun x => x.1) ?l) with (map fst l); (split; [apply NoDup_fst_map_to_list|]);
    apply Forall_forall; intros x (y & -> & _)%list_elem_of_fmap; done.
Qed.

Lemma share_proposals (d : VidDisperse) (sig : Sig) :
  to_vid_share_proposals {| proposal_data := d; proposal_signature := sig |} =
  map (fun x => {| proposal_data := x; proposal_signature := sig |}) (from_vid_disperse d).
Proof using Type.
  destruct d; unfold to_vid_share_proposals, advz_to_vid_share_proposals, share2_to_vid_share_proposals,
    from_vid_disperse, from_advz_disperse, from_vid_disperse2; simpl; by rewrite !map_map.
Qed.

Lemma store_vid_shares_lookup c view shares sk k :
  k ∉ map recipient_key shares →
  vid_shares (store_vid_shares c view shares sk) !! view ≫= (.!! k) = vid_shares c !! view ≫= (.!! k).
Proof using Type.
  unfold store_vid_shares. revert c. induction shares as [|x shares IH]; intros c Hk; [done|]. simpl in *.
  rewrite IH by (by intros ?; apply Hk; right).
  destruct (to_proposal x sk) as [q|] eqn:Hq; [|done]. unfold to_proposal in Hq. case_match; simplify_eq.
  simpl. rewrite lookup_insert_eq. simpl. rewrite lookup_insert_ne by (intros <-; apply Hk; left).
  by destruct (vid_shares c !! view).
Qed.

Lemma store_vid_shares_stores c view shares sk x q :
  NoDup (map recipient_key shares) → x ∈ shares → to_proposal x sk = Some q →
  vid_shares (store_vid_shares c view shares sk) !! view ≫= (.!! recipient_key x) = Some q.
Proof using Type.
  unfold store_vid_shares. revert c. induction shares as [|y shares IH]; intros c Hnd Hx Hq; [by apply elem_of_nil in Hx|].
  simpl in *. apply NoDup_cons in Hnd as [Hy Hnd]. apply elem_of_cons in Hx as [->|Hx]; [|by apply IH].
  rewrite Hq. pose proof (store_vid_shares_lookup (update_vid_shares c view q) view shares sk _ Hy) as Hl.
  unfold store_vid_shares in Hl. rewrite Hl. unfold to_proposal in Hq. case_match; simplify_eq. simpl.
  by rewrite lookup_insert_eq; simpl; rewrite lookup_insert_eq.
Qed.

Lemma store_vid_shares_steps c view shares sk : rtc step c (store_vid_shares c view shares sk).
Proof using Type.
  unfold store_vid_shares. revert c. induction shares as [|x shares IH]; intros c; [done|]. simpl.
  destruct (to_proposal x sk); [|apply IH]. eapply rtc_l; [apply step_vid_share|apply IH].
Qed.

(** The leader can answer for every share it sends.  When the VID task sends
    a dispersal for a block the node has built, the node leads the block's view,
    the dispersal is that of the block for the node's epoch, the same payload
    commitment goes to the proposal task, and every share proposal the dispersal
    splits into is stored, signature included, under the view and its recipient;
    the consensus state has moved only by its critical sections. *)
Theorem vid_task_stores_its_shares b s r s' out d sender :
  vid_handle cfg (BlockRecv b) s = (r, s', out) → VidDisperseSend d sender ∈ out →
  let view := pb_view_number b in
  let payload := from_bytes (pb_encoded_transactions b) (pb_metadata b) in
  leader (vid_membership cfg) view (vid_cur_epoch s) = Ok (vid_public_key cfg) ∧
  calculate_vid_disperse payload (vid_membership cfg) view (vid_cur_epoch s) (vid_cur_epoch s) = Ok (proposal_data d) ∧
  SendPayloadCommitmentAndMetadata (disperse_payload_commitment (proposal_data d))
    (builder_commitment payload (pb_metadata b)) (pb_metadata b) view (pb_sequencing_fees b)
    (pb_auction_result b) ∈ out ∧
  (∀ q, q ∈ to_vid_share_proposals d →
     vid_shares (vid_consensus s') !! view ≫= (.!! recipient_key (proposal_data q)) = Some q) ∧
  rtc step (vid_consensus s) (vid_consensus s').
Proof using Type.
  simpl. unfold on_vid_block. rewrite (bind_ok _ _ s s s) by done.
  destruct (leader _ _ _) as [l| |]; [|intros [= <- <- <-] []%elem_of_nil..].
  case_bool_decide as Hl; [|intros [= <- <- <-] []%elem_of_nil]. subst.
  destruct (calculate_vid_disperse _ _ _ _ _) as [vd| |]; [|intros [= <- <- <-] []%elem_of_nil..].
  unfold mbind, task_bind. simpl.
  destruct (sign _ _) as [sig|] eqn:Hsig; intros [= <- <- <-] Hin; simpl in Hin.
  2: { apply elem_of_cons in Hin as [?|[]%elem_of_nil]. done. }
  rewrite !elem_of_cons, elem_of_nil in Hin. destruct Hin as [?|[[= -> ->]|[]]]; [done|].
  split; [done|]. split; [done|]. split; [apply list_elem_of_here|]. simpl. split; [|apply store_vid_shares_steps].
  intros q Hq. rewrite share_proposals in Hq. apply list_elem_of_fmap in Hq as (x & -> & Hx). simpl.
  destruct (dispersal_shares vd) as [Hnd Hall]. apply (store_vid_shares_stores _ _ _ _ _ _ Hnd Hx).
  unfold to_proposal. rewrite Forall_forall in Hall. rewrite (Hall x Hx), Hsig. done.
Qed.
End VidProofs.

(** ** Witnesses *)

Module DaDemo.
#[local] Existing Instance StaticCommittee.
Definition hash : bytes → bytes := fun b => b.
Definition cfg : DaConfig (M := Committee) :=
  {| da_public_key := 10; da_private_key := 10; da_membership := Demo.committee; da_lock := UpgradeLock_new;
     da_id := 1; da_stored := true; primary_down := false |}.
Definition start : DaTaskState :=
  {| da_cur_view := 4; da_cur_epoch := None; da_consensus := ConsDemo.start; da_collectors := ∅ |}.
(** Proposals of view 4, whose leader is node 20. *)
Definition proposal (transactions : bytes) : Proposal DaProposal2 :=
  {| proposal_data := {| dp2_encoded_transactions := transactions; dp2_metadata := tt : Metadata;
                         dp2_view_number := 4; dp2_epoch := None |};
     proposal_signature := [(20, transactions)] : Sig |}.
Definition run1 (e : Event) (s : DaTaskState) := (da_handle hash cfg e s).1.2.
Definition out1 (e : Event) (s : DaTaskState) := (da_handle hash cfg e s).2.

Definition s1 : DaTaskState := run1 (DaProposalRecv (proposal [7]) 20) start.
Definition s2 : DaTaskState := run1 (DaProposalRecv (proposal [8]) 20) s1.
Definition s3 : DaTaskState := run1 (DaProposalValidated (proposal [7]) 20) s2.
Definition s4 : DaTaskState := run1 (DaProposalValidated (proposal [8]) 20) s3.
Definition log2 : list DaOut :=
  [] ++ out1 (DaProposalRecv (proposal [7]) 20) start ++ out1 (DaProposalRecv (proposal [8]) 20) s1.
Definition log3 : list DaOut := log2 ++ out1 (DaProposalValidated (proposal [7]) 20) s2.
Definition log4 : list DaOut := log3 ++ out1 (DaProposalValidated (proposal [8]) 20) s3.
Definition votes (log : list DaOut) : list (ViewNumber * VidCommitment) :=
  omap (fun o => match o with
                 | DaInternal (DaVoteSend v) => Some (vote_view v, payload_commit (vote_data v))
                 | _ => None end) log.

Definition data7 : DaData2 := {| payload_commit := [7] : @VidCommitment CertDemo.vid; da2_epoch := None |}.
Definition vote7 : SimpleVote DaData2 :=
  {| signature := (10, [(10, as_ref (vvd_commit {| vvd_data := data7; vvd_view := 4; vvd_version := Base |}))]) : PubKey * Sig;
     vote_data := data7; vote_view := 4 |}.

Lemma step_run s0 s log e : da_run hash cfg s0 s log → known log e →
  da_run hash cfg s0 (run1 e s) (log ++ out1 e s).
Proof.
  intros Hr Hk. unfold run1, out1. destruct (da_handle hash cfg e s) as [[r s'] out] eqn:He.
  by eapply da_event.
Qed.

Lemma run2 : da_run hash cfg start s2 log2.
Proof. unfold log2. rewrite app_assoc. apply step_run; [apply step_run; [constructor|exact I]|exact I]. Qed.
Lemma known_7 : known log2 (DaProposalValidated (proposal [7]) 20).
Proof. change (DaInternal (DaProposalValidated (proposal [7]) 20) ∈ log2). left. Qed.
End DaDemo.

#[local] Existing Instance StaticCommittee.

(** Two DA proposals of one view that both arrive before the first is handled as
    validated get two votes, for different payloads: the test against the saved
    payload is made on receipt only, and the second payload is silently not
    saved. *)
Lemma da_task_votes_twice :
  da_run DaDemo.hash DaDemo.cfg DaDemo.start DaDemo.s4 DaDemo.log4 ∧
  DaDemo.votes DaDemo.log4 = [(4, [7]); (4, [8])] ∧
  saved_payloads (da_consensus DaDemo.s4) !! 4 = Some [7].
Proof.
  split; [|split; reflexivity]. unfold DaDemo.log4, DaDemo.log3.
  apply DaDemo.step_run; [apply DaDemo.step_run; [apply DaDemo.run2|apply DaDemo.known_7]|].
  change (DaInternal (DaProposalValidated (DaDemo.proposal [8]) 20) ∈
    DaDemo.log2 ++ DaDemo.out1 (DaProposalValidated (DaDemo.proposal [7]) 20) DaDemo.s2).
  right. left.
Qed.

Lemma da_votes_make_data_available_witness :
  ∃ p sender, authentic DaDemo.hash DaDemo.cfg p sender.
Proof.
  destruct (da_votes_make_data_available DaDemo.hash DaDemo.cfg DaDemo.start DaDemo.s2 DaDemo.log2
    (DaProposalValidated (DaDemo.proposal [7]) 20) (Ok tt) DaDemo.s3
    (DaDemo.out1 (DaProposalValidated (DaDemo.proposal [7]) 20) DaDemo.s2)
    DaDemo.vote7
    DaDemo.run2 DaDemo.known_7 eq_refl) as [_ (p & sender & Hp & _)].
  - right. left.
  - by exists p, sender.
Defined.

Module VidTaskDemo.
#[local] Existing Instance StaticCommittee.
Definition cfg : VidConfig (M := Committee) :=
  {| vid_public_key := 20; vid_private_key := 20; vid_membership := Demo.committee; vid_epoch_height := 10 |}.
Definition start : VidTaskState :=
  {| vid_cur_view := 3; vid_cur_epoch := None; vid_consensus := ConsDemo.start |}.
Definition block : PackedBundle :=
  {| pb_encoded_transactions := [7]; pb_metadata := tt : Metadata; pb_view_number := 4; pb_epoch_number := None;
     pb_sequencing_fees := [NetDemo.fee]; pb_auction_result := None |}.
Definition result := vid_handle cfg (BlockRecv block) start.
(** The dispersal that is sent. *)
Definition dispersal : VidDisperse :=
  match calculate_vid_disperse (M := Committee) (from_bytes [7] (tt : Metadata)) Demo.committee 4 None None with
  | Ok d => d
  | _ => DisperseV0 VidDemo.dispersal
  end.
Definition sent : Proposal VidDisperse :=
  {| proposal_data := dispersal; proposal_signature := [(20, [7])] : Sig |}.
Lemma is_sent : VidDisperseSend sent 20 ∈ result.2.
Proof. apply (list_elem_of_lookup_2 _ 1%nat). reflexivity. Qed.
End VidTaskDemo.

Lemma vid_task_stores_its_shares_witness :
  (∀ q, q ∈ to_vid_share_proposals VidTaskDemo.sent →
     vid_shares (vid_consensus VidTaskDemo.result.1.2) !! 4 ≫= (.!! recipient_key (proposal_data q)) = Some q) ∧
  length (to_vid_share_proposals VidTaskDemo.sent) = 3%nat.
Proof.
  split; [|vm_compute; reflexivity].
  apply (vid_task_stores_its_shares VidTaskDemo.cfg VidTaskDemo.block VidTaskDemo.start
    VidTaskDemo.result.1.1 VidTaskDemo.result.1.2 VidTaskDemo.result.2 VidTaskDemo.sent 20);
    [reflexivity|apply VidTaskDemo.is_sent].
Defined.
