(* ===== verification/Upgrade.v ===== *)
(** * The upgrade task

    [task-impls/src/upgrade.rs], with the constants and the configuration of
    [types/src/upgrade_config.rs] and [types/src/constants.rs].  The task proposes
    an upgrade some views before the node leads, votes for the proposals of other
    leaders and collects votes.

    The clock is an argument of the handler: the seconds since the Unix epoch, or
    [None] when [duration_since] fails. *)

From S2P Require Import Prelude Epochs Crypto Committee Votes Certificates VoteAccumulator VoteCollection Data Vid Consensus ConsensusProofs Task Message Events Network.
Import Ev.

Record UpgradeConstants := {
  propose_offset : Z;
  decide_by_offset : Z;
  begin_offset : Z;
  finish_offset : Z;
}.
Definition DEFAULT_UPGRADE_CONSTANTS : UpgradeConstants :=
  {| propose_offset := 5; decide_by_offset := 105; begin_offset := 110; finish_offset := 115 |}.
Definition TEST_UPGRADE_CONSTANTS : UpgradeConstants :=
  {| propose_offset := 5; decide_by_offset := 10; begin_offset := 15; finish_offset := 20 |}.

Record UpgradeConfig := {
  start_proposing_view : Z;
  stop_proposing_view : Z;
  start_voting_view : Z;
  stop_voting_view : Z;
  start_proposing_time : Z;
  stop_proposing_time : Z;
  start_voting_time : Z;
  stop_voting_time : Z;
}.
Definition UpgradeConfig_default : UpgradeConfig :=
  {| start_proposing_view := u64_modulus - 1; stop_proposing_view := 0;
     start_voting_view := u64_modulus - 1; stop_voting_view := 0;
     start_proposing_time := u64_modulus - 1; stop_proposing_time := 0;
     start_voting_time := u64_modulus - 1; stop_voting_time := 0 |}.

Section Upgrade.
Context `{Sg : SignatureScheme} `{Cm : Committable} `{Vt : VidTypes} `{Vs : Versions}.
Context `{Bt : !BlockTypes} `{Vd : !VidScheme} `{Bu : !BuilderTypes}.
Context {M : Type} `{Mb : !Membership M}.

Record UpgradeTaskConfig := {
  ug_public_key : PubKey;
  ug_private_key : PrivKey;
  ug_membership : M;
  ug_lock : UpgradeLock;
  ug_id : Z;
  ug_constants : UpgradeConstants;
  ug_windows : UpgradeConfig;
}.
Context (cfg : UpgradeTaskConfig) (now : option Z).

Record UpgradeTaskState := {
  ug_cur_view : ViewNumber;
  ug_cur_epoch : option EpochNumber;
  ug_collectors : gmap ViewNumber VoteCollectionTaskState;
}.

(** An internal event, or the event for the application. *)
Inductive UpgradeOut :=
  | UpInternal (e : Event)
  | UpgradeProposalEvent (view : ViewNumber) (p : Proposal UpgradeProposal) (sender : PubKey).

Abbreviation upgrade_task := (task UpgradeTaskState UpgradeOut Error).

Definition upgraded : bool := bool_decide (is_Some (decided_upgrade_certificate (ug_lock cfg))).
Definition read_clock : upgrade_task Z :=
  lift (ok_or now "Failed to calculate duration. This should never happen.").

(** The proposal asks for the upgrade this node is built for. *)
Definition matches_target (d : UpgradeProposalData) : bool :=
  bool_decide (new_version_hash d = UPGRADE_HASH) && bool_decide (old_version d = Base) &&
  bool_decide (new_version d = Upgrade).

Definition on_upgrade_proposal (proposal : Proposal UpgradeProposal) (sender : PubKey) : upgrade_task unit :=
  let view := up_view_number (proposal_data proposal) in
  let w := ug_windows cfg in
  _ ← require (negb upgraded) "Already upgraded; not voting.";
  time ← read_clock;
  _ ← require ((start_voting_time w <=? time) && (time <? stop_voting_time w))
        "Refusing to vote because we are no longer in the configured vote time window.";
  _ ← require ((start_voting_view w <=? view) && (view <? stop_voting_view w))
        "Refusing to vote because we are no longer in the configured vote view window.";
  _ ← require (matches_target (upgrade_proposal (proposal_data proposal)))
        "Proposal does not match our upgrade target";
  s ← get;
  _ ← require (negb (ug_cur_view s =? genesis_view) && (saturating_sub (ug_cur_view s) 1 <=? view))
        "Discarding old upgrade proposal";
  view_leader_key ← lift (leader (ug_membership cfg) view (ug_cur_epoch s));
  _ ← require (bool_decide (view_leader_key = sender)) "Upgrade proposal doesn't have expected leader key";
  _ ← emit (UpgradeProposalEvent (ug_cur_view s) proposal sender);
  vote ← lift (create_signed_vote (upgrade_proposal (proposal_data proposal)) view (ug_public_key cfg)
                 (ug_private_key cfg) (ug_lock cfg));
  emit (UpInternal (UpgradeVoteSend vote)).

Definition on_upgrade_vote (vote : SimpleVote UpgradeProposalData) : upgrade_task unit :=
  s ← get;
  leader ← lift (leader (ug_membership cfg) (vote_view vote) (ug_cur_epoch s));
  _ ← require (bool_decide (leader = ug_public_key cfg)) "We are not the leader for view";
  '(collectors, events) ←
    lift (handle_vote (TH := UpgradeThreshold) (ug_lock cfg) (ug_membership cfg) (ug_collectors s) vote
            (ug_public_key cfg) (ug_cur_epoch s) (ug_id cfg) (VoteCollection.UpgradeVoteRecv vote) NotInTransition);
  _ ← modify (fun s => {| ug_cur_view := ug_cur_view s; ug_cur_epoch := ug_cur_epoch s;
                          ug_collectors := collectors |});
  emit_all (map (fun e => UpInternal (of_vote_event e)) events).

(** The data of the upgrade that is proposed in a view. *)
Definition upgrade_data_at (view : ViewNumber) : UpgradeProposalData :=
  {| old_version := Base; new_version := Upgrade; decide_by := u64_add view (decide_by_offset (ug_constants cfg));
     new_version_hash := UPGRADE_HASH;
     old_version_last_view := u64_add view (begin_offset (ug_constants cfg));
     new_version_first_view := u64_add view (finish_offset (ug_constants cfg)) |}.

Definition on_upgrade_view_change (new_view : ViewNumber) (epoch_number : option EpochNumber) : upgrade_task unit :=
  _ ← modify (fun s => {| ug_cur_view := ug_cur_view s;
        ug_cur_epoch := if epoch_gt epoch_number (ug_cur_epoch s) then epoch_number else ug_cur_epoch s;
        ug_collectors := ug_collectors s |});
  s ← get;
  _ ← require ((ug_cur_view s <? new_view) || (ug_cur_view s =? 0)) "Old view change";
  _ ← modify (fun s => {| ug_cur_view := new_view; ug_cur_epoch := ug_cur_epoch s;
                          ug_collectors := ug_collectors s |});
  let view := new_view in
  let w := ug_windows cfg in
  time ← read_clock;
  let proposal_view := u64_add view (propose_offset (ug_constants cfg)) in
  leader ← lift (leader (ug_membership cfg) proposal_view (ug_cur_epoch s));
  if (start_proposing_view w <=? view) && (view <? stop_proposing_view w) &&
     (start_proposing_time w <=? time) && (time <? stop_proposing_time w) &&
     negb upgraded && bool_decide (leader = ug_public_key cfg)
  then
    let d := upgrade_data_at view in
    (* [expect] *)
    signature ← finish (sign (ug_private_key cfg) (as_ref (commit d)));
    emit (UpInternal (UpgradeProposalSend
            {| proposal_data := {| upgrade_proposal := d; up_view_number := proposal_view |};
               proposal_signature := signature |} (ug_public_key cfg)))
  else mret tt.

Definition upgrade_handle (event : Event) : upgrade_task unit :=
  match event with
  | UpgradeProposalRecv proposal sender => on_upgrade_proposal proposal sender
  | UpgradeVoteRecv vote => on_upgrade_vote vote
  | ViewChange view epoch => on_upgrade_view_change view epoch
  | _ => mret tt
  end.
End Upgrade.

(** ** Votes and proposals *)

Section UpgradeProofs.
Context `{Sg : SignatureScheme} `{Cm : Committable} `{Vt : VidTypes} `{Vs : Versions}.
Context `{Bt : !BlockTypes} `{Vd : !VidScheme} `{Bu : !BuilderTypes}.
Context {M : Type} `{Mb : !Membership M}.
Context (cfg : UpgradeTaskConfig (M := M)) (now : option Z).
Implicit Types (s : UpgradeTaskState).

(** When a node in state [s] votes for a proposal. *)
Record votable s (p : Proposal UpgradeProposal) (sender : PubKey) : Prop := {
  vb_lock : decided_upgrade_certificate (ug_lock cfg) = None;
  vb_time : ∃ t, now = Some t ∧ start_voting_time (ug_windows cfg) <= t < stop_voting_time (ug_windows cfg);
  vb_view : start_voting_view (ug_windows cfg) <= up_view_number (proposal_data p) <
            stop_voting_view (ug_windows cfg);
  vb_target : let d := upgrade_proposal (proposal_data p) in
              old_version d = Base ∧ new_version d = Upgrade ∧ new_version_hash d = UPGRADE_HASH;
  vb_fresh : ug_cur_view s ≠ 0 ∧ saturating_sub (ug_cur_view s) 1 <= up_view_number (proposal_data p);
  vb_leader : leader (ug_membership cfg) (up_view_number (proposal_data p)) (ug_cur_epoch s) = Ok sender;
}.

Lemma upgraded_false : upgraded cfg = false ↔ decided_upgrade_certificate (ug_lock cfg) = None.
Proof using Type. unfold upgraded. rewrite bool_decide_eq_false, eq_None_not_Some. done. Qed.

Lemma matches_target_spec d :
  matches_target d = true ↔ old_version d = Base ∧ new_version d = Upgrade ∧ new_version_hash d = UPGRADE_HASH.
Proof using Type. unfold matches_target. rewrite !andb_true_iff, !bool_decide_eq_true. tauto. Qed.

Lemma proposal_emits p sender s o :
  emits (on_upgrade_proposal cfg now p sender) s o →
  votable s p sender ∧
  (o = UpgradeProposalEvent (ug_cur_view s) p sender ∨
   ∃ vote, o = UpInternal (UpgradeVoteSend vote) ∧
     create_signed_vote (upgrade_proposal (proposal_data p)) (up_view_number (proposal_data p))
       (ug_public_key cfg) (ug_private_key cfg) (ug_lock cfg) = Ok vote).
Proof using Type.
  unfold on_upgrade_proposal, read_clock. intros H.
  peel H. peel H. peel H. peel H. peel H. peel H. peel H.
  apply emits_silent in H as (k & s2 & [Hl ->]%lift_run & H); [|auto with hotshot]. peel H.
  split.
  - destruct now as [t|] eqn:Hnow; [|done]. injection Hb0 as <-. bool_facts. subst. split.
    + by apply upgraded_false.
    + exists t. done.
    + done.
    + by apply matches_target_spec.
    + done.
    + done.
  - apply emits_bind in H as [->%list_elem_of_singleton|(u & s3 & ev & [= <- <- <-] & H)]; [by left|].
    peel H. apply list_elem_of_singleton in H. right. eauto.
Qed.

Lemma votable_emits p sender s vote :
  votable s p sender →
  create_signed_vote (upgrade_proposal (proposal_data p)) (up_view_number (proposal_data p))
    (ug_public_key cfg) (ug_private_key cfg) (ug_lock cfg) = Ok vote →
  emits (on_upgrade_proposal cfg now p sender) s (UpInternal (UpgradeVoteSend vote)).
Proof using Type.
  intros [Hlock (t & Ht & Htime) Hview Htarget [Hv0 Hfresh] Hleader] Hvote.
  assert (∀ b e, b = true → require (St := UpgradeTaskState) (Ev := UpgradeOut) (E := Error) b e s = (Ok tt, s, []))
    as Hreq by (by intros b e ->).
  unfold on_upgrade_proposal, read_clock.
  eapply emits_after; [apply Hreq; by rewrite (proj2 upgraded_false Hlock)|].
  eapply emits_after; [rewrite Ht; reflexivity|].
  eapply emits_after; [apply Hreq; by rewrite (proj2 (Z.leb_le _ _)), (proj2 (Z.ltb_lt _ _)) by lia|].
  eapply emits_after; [apply Hreq; by rewrite (proj2 (Z.leb_le _ _)), (proj2 (Z.ltb_lt _ _)) by lia|].
  eapply emits_after; [apply Hreq; by apply matches_target_spec|].
  eapply emits_after; [reflexivity|].
  eapply emits_after; [apply Hreq; by rewrite (proj2 (Z.eqb_neq _ genesis_view) Hv0), (proj2 (Z.leb_le _ _) Hfresh)|].
  eapply emits_after; [unfold lift; rewrite Hleader; reflexivity|].
  eapply emits_after; [apply Hreq; by apply bool_decide_eq_true|].
  eapply emits_after; [reflexivity|]. eapply emits_after; [unfold lift; rewrite Hvote; reflexivity|]. left.
Qed.

Lemma view_change_emits v ep s o :
  emits (on_upgrade_view_change cfg now v ep) s o →
  ∃ sig e, o = UpInternal (UpgradeProposalSend
      {| proposal_data := {| upgrade_proposal := upgrade_data_at cfg v;
                             up_view_number := u64_add v (propose_offset (ug_constants cfg)) |};
         proposal_signature := sig |} (ug_public_key cfg)) ∧
    e = (if epoch_gt ep (ug_cur_epoch s) then ep else ug_cur_epoch s) ∧
    leader (ug_membership cfg) (u64_add v (propose_offset (ug_constants cfg))) e = Ok (ug_public_key cfg) ∧
    start_proposing_view (ug_windows cfg) <= v < stop_proposing_view (ug_windows cfg) ∧
    decided_upgrade_certificate (ug_lock cfg) = None.
Proof using Type.
  unfold on_upgrade_view_change, read_clock. intros H.
  apply emits_silent in H as (u & s1 & [= <- <-] & H); [|auto with hotshot].
  peel H. peel H. apply emits_silent in H as (u1 & s2 & [= <- <-] & H); [|auto with hotshot].
  peel H. apply emits_silent in H as (l & s2 & [Hl ->]%lift_run & H); [|auto with hotshot]. simpl in *.
  destruct (_ && _) eqn:Hc in H; [|by apply emits_ret in H].
  peel H. apply list_elem_of_singleton in H. bool_facts. subst.
  eexists _, _. split; [done|]. split; [done|]. split; [done|]. split; [done|]. by apply upgraded_false.
Qed.

(** Where votes come from. *)
Lemma vote_only_from_proposal e s vote :
  emits (upgrade_handle cfg now e) s (UpInternal (UpgradeVoteSend vote)) →
  ∃ p sender, e = UpgradeProposalRecv p sender ∧
    emits (on_upgrade_proposal cfg now p sender) s (UpInternal (UpgradeVoteSend vote)).
Proof using Type.
  destruct e; simpl; try (by intros []%emits_ret); [|by eauto|].
  - by intros (? & ? & ? & _)%view_change_emits.
  - intros H. assert (only (fun o => match o with UpInternal (UpgradeVoteSend _) => False | _ => True end)
      (on_upgrade_vote cfg v)) as Hon; [|by apply Hon in H].
    unfold on_upgrade_vote. only_step. apply only_emit_all, Forall_forall.
    intros o [ev [-> _]]%list_elem_of_fmap. by destruct ev.
Qed.

(** C19. Upgrade votes are safe: the task votes only on a received upgrade proposal whose
    claimed sender is the leader of the proposal's view (nobody checks the signature, see
    [upgrade_signature_ignored]), before an upgrade has been decided, inside the configured
    windows of time and views, no older than the view before the current one, and for
    exactly the upgrade this node is built for; the vote is for the proposal's data and view
    and carries the node's key. *)
Theorem upgrade_votes_are_safe e s vote :
  emits (upgrade_handle cfg now e) s (UpInternal (UpgradeVoteSend vote)) →
  ∃ p sender, e = UpgradeProposalRecv p sender ∧ votable s p sender ∧
    vote_data vote = upgrade_proposal (proposal_data p) ∧
    vote_view vote = up_view_number (proposal_data p) ∧ signing_key vote = ug_public_key cfg.
Proof using Type.
  intros (p & sender & -> & [Hv [?|(v & [= ->] & Hc)]]%proposal_emits)%vote_only_from_proposal; [done|].
  exists p, sender. split; [done|]. split; [done|]. by apply create_signed_vote_ok in Hc.
Qed.

(** The signature of an upgrade proposal plays no role. *)
Lemma upgrade_signature_ignored p sender s vote (sig : Sig) :
  emits (on_upgrade_proposal cfg now p sender) s (UpInternal (UpgradeVoteSend vote)) →
  emits (on_upgrade_proposal cfg now {| proposal_data := proposal_data p; proposal_signature := sig |} sender) s
    (UpInternal (UpgradeVoteSend vote)).
Proof using Type.
  intros [[? ? ? ? ? ?] [?|(v & [= ->] & Hc)]]%proposal_emits; [done|]. by apply votable_emits.
Qed.
End UpgradeProofs.

Section UpgradeLiveness.
Context `{Sg : SignatureScheme} `{Cm : Committable} `{Vt : VidTypes} `{Vs : Versions}.
Context `{Bt : !BlockTypes} `{Vd : !VidScheme} `{Bu : !BuilderTypes}.
Context {M : Type} `{Mb : !Membership M}.

(** Upgrade proposals get votes.  When a node proposes an upgrade on a view
    change, with offsets in their order and no overflow, the views of the proposal
    are in the order vote, decide, end of the old version, start of the new one;
    and a node that has not upgraded, is inside its voting windows, is at most one
    view ahead of the proposal, agrees on the leader and can sign, votes for it
    with the proposed data. *)
Theorem upgrade_proposals_get_votes (cfg1 cfg2 : UpgradeTaskConfig (M := M)) now1 now2 s1 s2 v ep p k vote :
  emits (upgrade_handle cfg1 now1 (ViewChange v ep)) s1 (UpInternal (UpgradeProposalSend p k)) →
  let c := ug_constants cfg1 in
  0 <= v → 0 <= propose_offset c <= decide_by_offset c → decide_by_offset c <= begin_offset c < finish_offset c →
  v + finish_offset c < u64_modulus →
  let view := up_view_number (proposal_data p) in
  let d := upgrade_proposal (proposal_data p) in
  (v <= view <= decide_by d ∧ decide_by d <= old_version_last_view d < new_version_first_view d) ∧
  (decided_upgrade_certificate (ug_lock cfg2) = None →
   (∃ t, now2 = Some t ∧ start_voting_time (ug_windows cfg2) <= t < stop_voting_time (ug_windows cfg2)) →
   start_voting_view (ug_windows cfg2) <= view < stop_voting_view (ug_windows cfg2) →
   0 < ug_cur_view s2 <= view + 1 → leader (ug_membership cfg2) view (ug_cur_epoch s2) = Ok k →
   create_signed_vote d view (ug_public_key cfg2) (ug_private_key cfg2) (ug_lock cfg2) = Ok vote →
   emits (upgrade_handle cfg2 now2 (UpgradeProposalRecv p k)) s2 (UpInternal (UpgradeVoteSend vote))).
Proof using Type.
  intros (sig & e & [= -> ->] & _)%view_change_emits c Hv H1 H2 H3. unfold c in *. simpl in *.
  assert (∀ x, 0 <= x <= finish_offset (ug_constants cfg1) → u64_add v x = v + x) as Hadd
    by (intros; unfold u64_add; apply Z.mod_small; lia).
  split; [rewrite !Hadd by lia; lia|]. intros ? ? ? ? ? ?. apply votable_emits; [|done]. split; try done.
  split; simpl; [lia|unfold saturating_sub; lia].
Qed.
End UpgradeLiveness.

(** ** Witnesses *)

Module UpgradeDemo.
#[local] Existing Instance StaticCommittee.
Definition windows : UpgradeConfig :=
  {| start_proposing_view := 1; stop_proposing_view := 100; start_voting_view := 1; stop_voting_view := 100;
     start_proposing_time := 0; stop_proposing_time := 1000; start_voting_time := 0; stop_voting_time := 1000 |}.
Definition cfg (k : Z) : UpgradeTaskConfig (M := Committee) :=
  {| ug_public_key := k : PubKey; ug_private_key := k : PrivKey; ug_membership := Demo.committee;
     ug_lock := UpgradeLock_new; ug_id := 0; ug_constants := DEFAULT_UPGRADE_CONSTANTS; ug_windows := windows |}.
Definition at_view (v : ViewNumber) : UpgradeTaskState :=
  {| ug_cur_view := v; ug_cur_epoch := None; ug_collectors := ∅ |}.
(** In view 5 node 20, who leads view 10, proposes. *)
Definition data : UpgradeProposalData := upgrade_data_at (cfg 20) 5.
Definition proposal : Proposal UpgradeProposal :=
  {| proposal_data := {| upgrade_proposal := data; up_view_number := 10 |};
     proposal_signature := [(20, as_ref (commit data))] : Sig |}.
Definition vote : SimpleVote UpgradeProposalData :=
  {| signature := (30, [(30, as_ref (vvd_commit {| vvd_data := data; vvd_view := 10; vvd_version := Base |}))]) : PubKey * Sig;
     vote_data := data; vote_view := 10 |}.
End UpgradeDemo.

#[local] Existing Instance StaticCommittee.

Lemma upgrade_proposals_get_votes_witness :
  emits (upgrade_handle (UpgradeDemo.cfg 30) (Some 7) (UpgradeProposalRecv UpgradeDemo.proposal 20))
    (UpgradeDemo.at_view 6) (UpInternal (UpgradeVoteSend UpgradeDemo.vote)).
Proof.
  apply (upgrade_proposals_get_votes (UpgradeDemo.cfg 20) (UpgradeDemo.cfg 30) (Some 7) (Some 7)
    (UpgradeDemo.at_view 4) (UpgradeDemo.at_view 6) 5 None UpgradeDemo.proposal 20 UpgradeDemo.vote);
    simpl; try lia; try reflexivity.
  - left.
  - exists 7. split; [reflexivity|by compute].
Defined.

Lemma upgrade_votes_are_safe_witness :
  votable (UpgradeDemo.cfg 30) (Some 7) (UpgradeDemo.at_view 6) UpgradeDemo.proposal 20.
Proof.
  destruct (upgrade_votes_are_safe (UpgradeDemo.cfg 30) (Some 7)
    (UpgradeProposalRecv UpgradeDemo.proposal 20) (UpgradeDemo.at_view 6) UpgradeDemo.vote)
    as (p & sender & [= <- <-] & Hv & _); [|exact Hv].
  right. left.
Defined.
