(* ===== verification/DataRequests.v ===== *)
(** * Requests for missing data

    [task-impls/src/response.rs] answers the requests of other nodes for VID shares
    and proposals; [task-impls/src/request.rs] asks the DA committee for the node's
    own VID share when a proposal is validated without it.

    Serialization of requests and SHA-256 are arguments.  While a task sleeps the
    other tasks run: [after_sleep] is the consensus state it finds afterwards, and
    a [Round] is what the request job observes in one turn of its loop. *)

From S2P Require Import DaTask.
From S2P Require Import Prelude Epochs Crypto Committee Votes Certificates VoteAccumulator VoteCollection Data Vid Consensus ConsensusProofs Task Dependency Message Events Network.
Import Ev.

Section Requests.
Context `{Sg : SignatureScheme} `{Cm : Committable} `{Vt : VidTypes} `{Vs : Versions}.
Context `{Bt : !BlockTypes} `{Vd : !VidScheme} `{Bu : !BuilderTypes}.
Context {M : Type} `{Mb : !Membership M}.
(** [bincode::serialize] of a request, [Sha256::digest], [SignatureKey::to_bytes] *)
Context (bincode_request : RequestKind → option bytes) (sha256 : bytes → bytes)
  (key_to_bytes : PubKey → bytes).

(** ** Answering *)

Record NetworkResponseState := {
  nr_membership : M;
  nr_pub_key : PubKey;
  nr_private_key : PrivKey;
}.
Context (cfg : NetworkResponseState) (after_sleep : Consensus → Consensus).

Abbreviation responder := (task Consensus Event Error).

Definition valid_sender (sender : PubKey) (epoch : option EpochNumber) : outcome Error bool :=
  has_stake (nr_membership cfg) sender epoch.

Definition valid_signature (req : DataRequest) (sender : PubKey) : bool :=
  match bincode_request (dr_request req) with
  | Some data => validate sender (dr_signature req) (sha256 data)
  | None => false
  end.

(** [req.commit()] *)
Definition request_commit (req : ProposalRequestPayload) : Commitment :=
  finalize "signed proposal request commitment"
    [CbU64Field "view number" (req_view_number req); CbVarSizeBytes (key_to_bytes (req_key req))].

Definition stored_share (c : Consensus) (view : ViewNumber) (key : PubKey) : option (Proposal VidDisperseShare) :=
  vid_shares c !! view ≫= (.!! key).

(** The calculation, and whether it had what it needs. *)
Definition calculate_vid (view : ViewNumber) (target_epoch : option EpochNumber) : responder bool :=
  c ← get;
  r ← lift (calculate_and_update_vid c c c view target_epoch (nr_membership cfg) (nr_private_key cfg));
  match r with
  | Some c' => _ ← modify (fun _ => c'); mret true
  | None => mret false
  end.

Definition get_or_calc_vid_share (view : ViewNumber) (target_epoch : option EpochNumber) (key : PubKey)
    : responder (option (Proposal VidDisperseShare)) :=
  c ← get;
  match stored_share c view key with
  | Some share => mret (Some share)
  | None =>
      calculated ← calculate_vid view target_epoch;
      calculated ← (if (calculated : bool) then mret true
                    else _ ← modify after_sleep; calculate_vid view target_epoch);
      if (calculated : bool) then gets (fun c => stored_share c view key) else mret None
  end.

Definition on_vid_request (request : DataRequest) (sender : PubKey) : responder unit :=
  c ← get;
  let cur_epoch := cur_epoch c in
  let next_epoch := (fun e : Z => wrapper_add e 1) <$> cur_epoch in
  here ← lift (valid_sender sender cur_epoch);
  next ← (if (here : bool) then mret false else lift (valid_sender sender next_epoch));
  if negb here && negb (next : bool) then mret tt
  else
    let target_epoch := if here then cur_epoch else next_epoch in
    if negb (valid_signature request sender) then mret tt
    else
      proposal ← get_or_calc_vid_share (dr_view request) target_epoch sender;
      match proposal with
      | Some proposal => emit (VidResponseSend (nr_pub_key cfg) sender proposal)
      | None => mret tt
      end.

(** [Ok false] ends the loop. *)
Definition response_step (event : recv_result Event) : responder bool :=
  match event with
  | Received (VidRequestRecv request sender) => _ ← on_vid_request request sender; mret true
  | Received (QuorumProposalRequestRecv req signature) =>
      if negb (validate (req_key req) signature (as_ref (request_commit req))) then mret false
      else
        c ← get;
        _ ← match last_proposals c !! req_view_number req with
            | Some quorum_proposal => emit (QuorumProposalResponseSend (req_key req) quorum_proposal)
            | None => mret tt
            end;
        mret true
  | Received Shutdown => mret false
  | Received _ => mret true
  | Overflowed _ | Closed => mret true
  end.

(** The loop on the events received so far. *)
Fixpoint run_response_loop (events : list (recv_result Event)) : responder unit :=
  match events with
  | [] => mret tt
  | event :: events =>
      continue ← response_step event;
      if (continue : bool) then run_response_loop events else mret tt
  end.
End Requests.

(** ** Asking *)

Section Asking.
Context `{Sg : SignatureScheme} `{Cm : Committable} `{Vt : VidTypes} `{Vs : Versions}.
Context `{Bt : !BlockTypes} `{Vd : !VidScheme} `{Bu : !BuilderTypes}.
Context {M : Type} `{Mb : !Membership M}.
Context (bincode_request : RequestKind → option bytes) (sha256 : bytes → bytes).
(** [recipients.shuffle(&mut thread_rng())] *)
Context (shuffle : list PubKey → list PubKey).

Record RequestConfig := {
  rq_membership : M;
  rq_public_key : PubKey;
  rq_private_key : PrivKey;
  rq_epoch_height : Z;
}.
Context (cfg : RequestConfig).

(** The job that [create_vid_request_task] spawns. *)
Record VidRequestJob := {
  rj_view : ViewNumber;
  rj_request : DataRequest;
  rj_recipients : list PubKey;
  (** who may answer: the DA committee and the leader *)
  rj_answerers : gset PubKey;
}.

Record NetworkRequestState := {
  rq_view : ViewNumber;
  rq_shutdown_flag : bool;
  rq_spawned_tasks : gmap ViewNumber (list VidRequestJob);
}.
Abbreviation requester := (task NetworkRequestState VidRequestJob Error).

Definition serialize_and_sign (request : RequestKind) : option Sig :=
  data ← bincode_request request; sign (rq_private_key cfg) (sha256 data).

Definition create_vid_request_task (request : RequestKind) (signature : Sig) (view : ViewNumber)
    (epoch : option EpochNumber) : requester unit :=
  da_committee ← lift (da_committee_members (rq_membership cfg) view epoch);
  answerers ← match leader (rq_membership cfg) view epoch with
              | Ok leader => mret ({[leader]} ∪ da_committee)
              | Err _ => mret da_committee
              | Panic => lift Panic
              end;
  let job := {| rj_view := view;
                rj_request := {| dr_request := request; dr_view := view; dr_signature := signature |};
                rj_recipients := shuffle (elements da_committee); rj_answerers := answerers |} in
  _ ← emit job;
  modify (fun s => {| rq_view := rq_view s; rq_shutdown_flag := rq_shutdown_flag s;
                      rq_spawned_tasks := <[view := default [] (rq_spawned_tasks s !! view) ++ [job]]> (rq_spawned_tasks s) |}).

Definition spawn_requests (view : ViewNumber) (epoch : option EpochNumber) : requester unit :=
  let request := RequestVid view (rq_public_key cfg) in
  match serialize_and_sign request with
  | Some signature => create_vid_request_task request signature view epoch
  | None => mret tt
  end.

Definition on_validated (c : Consensus) (proposal : Proposal QuorumProposal2) : requester unit :=
  let prop_view := p_view_number (proposal_data proposal) in
  let prop_epoch := p_epoch (proposal_data proposal) in
  let next_epoch := (fun e : Z => wrapper_add e 1) <$> prop_epoch in
  here ← lift (has_stake (rq_membership cfg) (rq_public_key cfg) prop_epoch);
  next ← (if (here : bool) then mret true
          else lift (has_stake (rq_membership cfg) (rq_public_key cfg) next_epoch));
  if negb here && (negb (next : bool) ||
       negb (is_last_block_in_epoch (block_number (p_block_header (proposal_data proposal))) (rq_epoch_height cfg)))
  then mret tt
  else
    s ← get;
    if (rq_view s <=? prop_view) && bool_decide (stored_share c prop_view (rq_public_key cfg) = None)
    then spawn_requests prop_view prop_epoch
    else mret tt.

Definition request_handle (c : Consensus) (event : Event) : requester unit :=
  match event with
  | QuorumProposalValidated proposal _ => on_validated c proposal
  | ViewChange view _ =>
      modify (fun s => {| rq_view := if rq_view s <? view then view else rq_view s;
                          rq_shutdown_flag := rq_shutdown_flag s; rq_spawned_tasks := rq_spawned_tasks s |})
  | _ => mret tt
  end.

(** The flag is set and every job is aborted. *)
Definition cancel_subtasks (s : NetworkRequestState) : NetworkRequestState :=
  {| rq_view := rq_view s; rq_shutdown_flag := true; rq_spawned_tasks := ∅ |}.

(** *** The job *)

(** What the job observes in one turn of its loop: the consensus state and the
    flag when it tests whether to go on, and what it receives before the timeout
    of its request. *)
Record Round := {
  rd_consensus : Consensus;
  rd_shutdown : bool;
  rd_received : list (recv_result Event);
}.

Definition cancel_vid_request_task (r : Round) (view : ViewNumber) : bool * list Event :=
  let maybe_vid_share := stored_share (rd_consensus r) view (rq_public_key cfg) in
  let cancel := rd_shutdown r || bool_decide (is_Some maybe_vid_share) || (view <? cur_view (rd_consensus r)) in
  (cancel, if cancel then match maybe_vid_share with
                          | Some vid_share => [VidShareRecv (rq_public_key cfg) vid_share]
                          | None => []
                          end
           else []).

(** The response the job waits for. *)
Definition answers (view : ViewNumber) (answerers : gset PubKey) (event : Event) : bool :=
  match event with
  | VidResponseRecv sender_key proposal =>
      (share_view (proposal_data proposal) =? view) && bool_decide (sender_key ∈ answerers) &&
      validate sender_key (proposal_signature proposal)
        (vid_as_ref (share_payload_commitment (proposal_data proposal)))
  | _ => false
  end.

Definition handle_vid_request_task (job : VidRequestJob) (recipient : PubKey) (r : Round) : bool * list Event :=
  let sent := VidRequestSend (rj_request job) (rq_public_key cfg) recipient in
  match event_completed (EventDependency_new (answers (rj_view job) (rj_answerers job))) (rd_received r) with
  | Ready (Some (VidResponseRecv sender_pub_key proposal)) =>
      (true, [sent; VidShareRecv sender_pub_key proposal])
  | _ => (false, [sent])
  end.

(** The loop over the recipients, with the rounds as they happen; [None] while it
    waits for the next one. *)
Fixpoint request_loop (job : VidRequestJob) (recipients : list PubKey) (rounds : list Round) {struct rounds}
    : option unit * list Event :=
  match rounds with
  | [] => (None, [])
  | r :: rounds =>
      let '(cancel, events) := cancel_vid_request_task r (rj_view job) in
      if cancel then (Some tt, events)
      else
        match recipients with
        | [] => (Some tt, events)
        | recipient :: recipients =>
            if bool_decide (recipient = rq_public_key cfg) then
              let '(res, events') := request_loop job recipients rounds in (res, events ++ events')
            else
              let '(finished, sent) := handle_vid_request_task job recipient r in
              if finished then (Some tt, events ++ sent)
              else let '(res, events') := request_loop job recipients rounds in (res, events ++ sent ++ events')
        end
  end.
End Asking.

(** ** Properties *)

Section RequestProofs.
Context `{Sg : SignatureScheme} `{Cm : Committable} `{Vt : VidTypes} `{Vs : Versions}.
Context `{Bt : !BlockTypes} `{Vd : !VidScheme} `{Bu : !BuilderTypes}.
Context {M : Type} `{Mb : !Membership M}.
Context (bincode_request : RequestKind → option bytes) (sha256 : bytes → bytes)
  (key_to_bytes : PubKey → bytes).

Section Job.
Context (cfg : RequestConfig (M := M)) (job : VidRequestJob).

(** The shares a job may announce: the node's own from the consensus state, or a
    response to the request. *)
Definition announced (rounds : list Round) (events : list Event) : Prop :=
  events = [] ∨ ∃ k p, events = [VidShareRecv k p] ∧
    ((k = rq_public_key cfg ∧ ∃ r, r ∈ rounds ∧ stored_share (rd_consensus r) (rj_view job) k = Some p) ∨
     (∃ r, r ∈ rounds ∧ Received (VidResponseRecv k p) ∈ rd_received r ∧
        answers (rj_view job) (rj_answerers job) (VidResponseRecv k p) = true)).

Definition asks (k : PubKey) : Event := VidRequestSend (rj_request job) (rq_public_key cfg) k.

Lemma announced_cons r rounds events : announced rounds events → announced (r :: rounds) events.
Proof using Type.
  intros [->|(k & p & -> & [(? & r' & ? & ?)|(r' & ? & ?)])]; [by left|..]; right; exists k, p; (split; [done|]).
  - left. split; [done|]. exists r'. split; [by right|done].
  - right. exists r'. split; [by right|done].
Qed.

Lemma cancel_announces r rounds :
  announced (r :: rounds) (cancel_vid_request_task cfg r (rj_view job)).2.
Proof using Type.
  unfold cancel_vid_request_task. simpl. case_match; [|by left].
  destruct (stored_share _ _ _) as [p|] eqn:Hp; [|by left]. right. eexists _, p. split; [done|]. left.
  split; [done|]. exists r. split; [left|done].
Qed.

Lemma handle_request_spec k r :
  (∃ e, handle_vid_request_task cfg job k r = (true, [asks k; e]) ∧ announced [r] [e]) ∨
  handle_vid_request_task cfg job k r = (false, [asks k]).
Proof using Type.
  unfold handle_vid_request_task. destruct (event_completed _ _) as [|[e|]] eqn:He; [by right| |by right].
  apply event_completed_match in He as [?|(_ & Hm & Hin)]; [done|]. simpl in Hm.
  destruct e; try (by right). left. eexists. split; [done|]. right. eexists _, _. split; [done|].
  right. exists r. split; [left|done].
Qed.

Lemma request_loop_spec recipients rounds res events :
  request_loop cfg job recipients rounds = (res, events) →
  (∃ asked shares, events = map asks asked ++ shares ∧ announced rounds shares ∧
     asked `sublist_of` recipients ∧ rq_public_key cfg ∉ asked) ∧
  ((length recipients < length rounds)%nat → res = Some tt).
Proof using Type.
  revert recipients res events. induction rounds as [|r rounds IH]; intros recipients res events; cbn [request_loop].
  { intros [= <- <-]. split; [|simpl; lia]. exists [], []. split_and!; [done|by left|apply sublist_nil_l|by intros ?%elem_of_nil]. }
  pose proof (cancel_announces r rounds) as Hc.
  destruct (cancel_vid_request_task cfg r (rj_view job)) as [cancel out] eqn:Hcancel. simpl in Hc.
  destruct cancel; simpl.
  { intros [= <- <-]. split; [|done]. exists [], out.
    split_and!; [done|done|apply sublist_nil_l|by intros ?%elem_of_nil]. }
  assert (out = []) as -> by (unfold cancel_vid_request_task in Hcancel; injection Hcancel as Hf Ho; by rewrite Hf in Ho).
  destruct recipients as [|k recipients].
  { intros [= <- <-]. split; [|done]. exists [], []. split_and!; [done|by left|done|]. by intros ?%elem_of_nil. }
  case_bool_decide as Hk.
  - destruct (request_loop cfg job recipients rounds) as [res' ev] eqn:Hl. intros [= <- <-].
    destruct (IH _ _ _ Hl) as [(asked & shares & -> & Hs & Hsub & Hn) Hend]. split; [|simpl; intros; apply Hend; lia].
    exists asked, shares. split_and!; [done|by apply announced_cons|by apply sublist_cons|done].
  - destruct (handle_request_spec k r) as [(e & -> & He)| ->].
    + intros [= <- <-]. split; [|done]. exists [k], [e]. split_and!; [done| |apply sublist_skip, sublist_nil_l|].
      * destruct He as [?|(k' & p & [= ->] & [(? & r' & ->%list_elem_of_singleton & ?)|(r' & ->%list_elem_of_singleton & ?)])]; [done|..];
          right; exists k', p; (split; [done|]).
        -- left. split; [done|]. exists r. split; [left|done].
        -- right. exists r. split; [left|done].
      * intros Hin%list_elem_of_singleton. by apply Hk.
    + destruct (request_loop cfg job recipients rounds) as [res' ev] eqn:Hl. intros [= <- <-].
      destruct (IH _ _ _ Hl) as [(asked & shares & -> & Hs & Hsub & Hn) Hend]. split; [|simpl; intros; apply Hend; lia].
      exists (k :: asked), shares. split_and!; [done|by apply announced_cons|by apply sublist_skip|].
      intros [Hin|?]%elem_of_cons; [by apply Hk|done].
Qed.

(** The job that asks for a VID share ends: after at most one round more than
    it has recipients.  It sends at most one request to each of them, in their
    order and never to the node itself, and then announces at most one share: the
    node's own, if it has arrived in the meantime, or a response for the view that
    a DA member or the leader signed. *)
Theorem vid_request_job_ends recipients rounds res events :
  request_loop cfg job recipients rounds = (res, events) →
  (∃ asked shares, events = map asks asked ++ shares ∧ announced rounds shares ∧
     asked `sublist_of` recipients ∧ rq_public_key cfg ∉ asked) ∧
  ((length recipients < length rounds)%nat → res = Some tt).
Proof using Type. apply request_loop_spec. Qed.
End Job.

(** The shares of a dispersal are for its view. *)
Lemma dispersal_view payload (m : M) view target_epoch epoch d x :
  calculate_vid_disperse payload m view target_epoch epoch = Ok d → x ∈ from_vid_disperse d → share_view x = view.
Proof using Type.
  intros (res & Hr & <-%Ok_inj)%bind_ok_inv Hx. assert (ad_view_number res = view) as <-.
  { apply bind_ok_inv in Hr as (n & _ & Hr). apply bind_ok_inv in Hr as ([[shares common] commit] & _ & Hr).
    apply bind_ok_inv in Hr as (pc & _ & Hr). apply bind_ok_inv in Hr as (members & _ & Hr).
    by apply bind_ok_inv in Hr as (m' & _ & <-%Ok_inj). }
  destruct epoch; simpl in Hx; unfold from_advz_disperse, from_vid_disperse2 in Hx; rewrite map_map in Hx;
    by apply list_elem_of_fmap in Hx as (kv & -> & _).
Qed.

(** *** Answers *)

Section Answers.
Context (cfg : NetworkResponseState (M := M)) (after_sleep : Consensus → Consensus).
Abbreviation loop := (run_response_loop bincode_request sha256 key_to_bytes cfg after_sleep).
Abbreviation answer := (response_step bincode_request sha256 key_to_bytes cfg after_sleep).

(** The state after events none of which has ended the loop. *)
Fixpoint still_running (events : list (recv_result Event)) (c : Consensus) : option Consensus :=
  match events with
  | [] => Some c
  | e :: events =>
      match answer e c with
      | (Ok true, c', _) => still_running events c'
      | _ => None
      end
  end.

Lemma loop_app events1 events2 s s1 :
  still_running events1 s = Some s1 →
  (loop events1 s).1.2 = s1 ∧
  loop (events1 ++ events2) s = (let '(r, s2, out2) := loop events2 s1 in (r, s2, (loop events1 s).2 ++ out2)).
Proof using Type.
  revert s. induction events1 as [|e events1 IH]; intros s; cbn [still_running app run_response_loop].
  { intros [= <-]. split; [done|]. by destruct (loop events2 s) as [[]]. }
  unfold mbind, task_bind. destruct (answer e s) as [[[[|]| |] s'] out]; try done. intros Hs.
  destruct (IH s' Hs) as [H1 H2]. rewrite H2. destruct (loop events1 s') as [[r1 s2] out1]. simpl in *.
  destruct (loop events2 s1) as [[r2 s3] out2]. split; [done|]. by rewrite app_assoc.
Qed.

(** One bad request stops the answers: after a proposal request whose
    signature does not verify, the task has ended and no later request is
    answered, whoever sent it and whatever it asks for; what was received before
    is handled as usual. *)
Theorem bad_request_ends_responses before req sig after c :
  is_Some (still_running before c) →
  validate (req_key req) sig (as_ref (request_commit key_to_bytes req)) = false →
  (loop (before ++ Received (QuorumProposalRequestRecv req sig) :: after) c).2 = (loop before c).2 ∧
  (loop (before ++ Received (QuorumProposalRequestRecv req sig) :: after) c).1.2 = (loop before c).1.2.
Proof using Type.
  intros [c1 Hb] Hv. destruct (loop_app _ (Received (QuorumProposalRequestRecv req sig) :: after) _ _ Hb) as [-> ->].
  cbn [run_response_loop response_step]. rewrite Hv. simpl. unfold mbind, task_bind. simpl. by rewrite app_nil_r.
Qed.

(** The share that a peer with the payload computes for a key, and signs. *)
Record computable c view pk share : Prop := {
  cp_not_stored : stored_share c view pk = None;
  cp_inputs : ∃ payload epoch disperse,
    saved_payloads c !! view = Some payload ∧ validated_state_map c !! view ≫= view_epoch = Some epoch ∧
    calculate_vid_disperse payload (nr_membership cfg) view (cur_epoch c) epoch = Ok disperse ∧
    proposal_data share ∈ from_vid_disperse disperse;
  cp_recipient : recipient_key (proposal_data share) = pk;
  cp_signed : to_proposal (proposal_data share) (nr_private_key cfg) = Some share;
}.

Lemma computable_answers {signed} {Ls : SignatureLaws Sg signed} c view pk share answerers :
  from_private (nr_private_key cfg) = nr_pub_key cfg → computable c view pk share → nr_pub_key cfg ∈ answerers →
  answers view answerers (VidResponseRecv (nr_pub_key cfg) share) = true.
Proof using Type.
  intros Hkey [_ (payload & epoch & d & _ & _ & Hd & Hin) _ Hs] Ha. simpl.
  rewrite (dispersal_view _ _ _ _ _ _ _ Hd Hin), Z.eqb_refl, bool_decide_eq_true_2 by done. simpl.
  unfold to_proposal in Hs. destruct (sign _ _) as [sig|] eqn:Hsig; [|done]. injection Hs as <-. simpl.
  apply sign_verify in Hsig. by rewrite Hkey in Hsig.
Qed.

Lemma computable_shared c view pk share :
  computable c view pk share →
  ∃ c', get_or_calc_vid_share cfg after_sleep view (cur_epoch c) pk c = (Ok (Some share), c', []).
Proof using Type.
  intros [Hn (payload & epoch & d & Hp & He & Hd & Hin) Hr Hs].
  unfold get_or_calc_vid_share, calculate_vid, mbind, task_bind, get, lift, gets, modify, mret, task_ret. simpl.
  rewrite Hn. simpl. unfold calculate_and_update_vid. rewrite Hp, He, Hd. simpl.
  eexists. unfold stored_share. rewrite <-Hr.
  by rewrite (store_vid_shares_stores _ _ _ _ _ _ (proj1 (dispersal_shares d)) Hin Hs).
Qed.

(** A signed request of a node with stake for a share that the peer can compute. *)
Lemma vid_request_answered {signed} {Ls : SignatureLaws Sg signed} (rq : RequestConfig (M := M)) c view sig share :
  from_private (rq_private_key rq) = rq_public_key rq →
  serialize_and_sign bincode_request sha256 rq (RequestVid view (rq_public_key rq)) = Some sig →
  has_stake (nr_membership cfg) (rq_public_key rq) (cur_epoch c) = Ok true → computable c view (rq_public_key rq) share →
  emits (answer (Received (VidRequestRecv {| dr_request := RequestVid view (rq_public_key rq); dr_view := view;
    dr_signature := sig |} (rq_public_key rq)))) c (VidResponseSend (nr_pub_key cfg) (rq_public_key rq) share).
Proof using Type.
  intros Hkey Hsign Hstake Hcomp. destruct (computable_shared _ _ _ _ Hcomp) as [c' Hc'].
  unfold serialize_and_sign in Hsign. destruct (bincode_request _) as [b|] eqn:Hb; [|done]. simpl in Hsign.
  unfold emits, response_step, on_vid_request, mbind, task_bind, get, lift, valid_sender, mret, task_ret.
  rewrite Hstake. simpl. unfold valid_signature. simpl. rewrite Hb. apply sign_verify in Hsign.
  rewrite Hkey in Hsign. assert (validate (rq_public_key rq) sig (sha256 b) = true) as -> by exact Hsign.
  simpl. rewrite Hc'. simpl. left.
Qed.

Lemma loop_answers before e after c c1 x :
  still_running before c = Some c1 → emits (answer e) c1 x → emits (loop (before ++ e :: after)) c x.
Proof using Type.
  intros Hb He. unfold emits. destruct (loop_app _ (e :: after) _ _ Hb) as [_ ->]. cbn [run_response_loop].
  unfold mbind, task_bind. unfold emits in He. destruct (answer e c1) as [[r c2] out]. simpl in He.
  destruct r as [[|]| |]; simpl; [destruct (loop after c2) as [[]]|..]; simpl; set_solver.
Qed.

(** The job of the requester, when the response comes in time. *)
Definition stopped (view : ViewNumber) (r : Round) : Prop :=
  rd_shutdown r = true ∨ view < cur_view (rd_consensus r).

Lemma response_ends_job (rq : RequestConfig (M := M)) job k k' share r :
  Received (VidResponseRecv k' share) ∈ rd_received r → Closed ∉ rd_received r →
  answers (rj_view job) (rj_answerers job) (VidResponseRecv k' share) = true →
  ∃ k2 p, handle_vid_request_task rq job k r = (true, [asks rq job k; VidShareRecv k2 p]).
Proof using Type.
  intros Hin Hopen Hans. unfold handle_vid_request_task, event_completed. simpl.
  assert (∃ e, event_loop (answers (rj_view job) (rj_answerers job)) (rd_received r) = Ready (Some e) ∧
    answers (rj_view job) (rj_answerers job) e = true) as (e & -> & He).
  { induction (rd_received r) as [|x rx IH]; [by apply elem_of_nil in Hin|].
    destruct x as [e|n|]; simpl.
    - destruct (answers _ _ e) eqn:Ha; [eauto|]. apply IH; [|intros ?; apply Hopen; by right].
      apply elem_of_cons in Hin as [[= <-]|?]; [congruence|done].
    - apply IH; [|intros ?; apply Hopen; by right]. by apply elem_of_cons in Hin as [?|?].
    - destruct Hopen. left. }
  destruct e; try done. by eexists _, _.
Qed.

Lemma job_ends (rq : RequestConfig (M := M)) job k share before after rounds1 r rounds2 k' :
  length rounds1 = length before → k ≠ rq_public_key rq →
  Received (VidResponseRecv k' share) ∈ rd_received r → Closed ∉ rd_received r →
  answers (rj_view job) (rj_answerers job) (VidResponseRecv k' share) = true →
  ∃ events, request_loop rq job (before ++ k :: after) (rounds1 ++ r :: rounds2) = (Some tt, events) ∧
    ((∃ k2 p, VidShareRecv k2 p ∈ events) ∨ ∃ r', r' ∈ rounds1 ++ [r] ∧ stopped (rj_view job) r').
Proof using Type.
  clear bincode_request sha256 key_to_bytes cfg after_sleep.
  intros Hlen Hk Hin Hopen Hans. revert before Hlen.
  assert (∀ r' recipients rounds, (cancel_vid_request_task rq r' (rj_view job)).1 = true →
    ∃ events, request_loop rq job recipients (r' :: rounds) = (Some tt, events) ∧
      ((∃ k2 p, VidShareRecv k2 p ∈ events) ∨ stopped (rj_view job) r')) as Hcancel.
  { intros r' recipients rounds Hc. cbn [request_loop].
    destruct (cancel_vid_request_task rq r' (rj_view job)) as [cancel out] eqn:He. simpl in Hc. subst.
    exists out. split; [done|]. unfold cancel_vid_request_task in He. injection He as Hf <-. rewrite Hf.
    destruct (stored_share _ _ _) as [p|]; [left; eexists _, p; left|]. right. unfold stopped.
    rewrite bool_decide_eq_false_2, orb_false_r in Hf by (by intros [? ?]). bool_facts. by destruct Hf; [left|right; lia]. }
  induction rounds1 as [|r1 rounds1 IH]; intros [|b before] Hlen; try done; cbn [app].
  - destruct (cancel_vid_request_task rq r (rj_view job)) as [[|] out] eqn:Hc.
    { destruct (Hcancel r (k :: after) rounds2) as (ev & He & Hor); [by rewrite Hc|]. exists ev. split; [done|].
      destruct Hor; [by left|right]. exists r. split; [left|done]. }
    destruct (response_ends_job rq job k k' share r Hin Hopen Hans) as (k2 & p & Hh).
    cbn [request_loop]. rewrite Hc, bool_decide_eq_false_2, Hh by done. eexists. split; [done|]. left. exists k2, p. set_solver.
  - destruct (IH before) as (ev & Hl & Hor); [by injection Hlen|].
    assert ((∃ k2 p, VidShareRecv k2 p ∈ ev) ∨ ∃ r', r' ∈ r1 :: (rounds1 ++ [r]) ∧ stopped (rj_view job) r') as Hor'.
    { destruct Hor as [?|(r' & ? & ?)]; [by left|right]. exists r'. split; [by right|done]. }
    destruct (cancel_vid_request_task rq r1 (rj_view job)) as [[|] out] eqn:Hc.
    { destruct (Hcancel r1 (b :: before ++ k :: after) (rounds1 ++ r :: rounds2)) as (ev' & He & Hs); [by rewrite Hc|].
      exists ev'. split; [done|]. destruct Hs; [by left|right]. exists r1. split; [left|done]. }
    cbn [request_loop]. rewrite Hc. case_bool_decide.
    + rewrite Hl. eexists. split; [done|]. destruct Hor' as [(k2 & p & ?)|?]; [|by right]. left. exists k2, p. set_solver.
    + destruct (handle_request_spec rq job b r1) as [(e & -> & He)| ->].
      * eexists. split; [done|]. left. destruct He as [?|(k2 & p & [= ->] & _)]; [done|]. exists k2, p. set_solver.
      * rewrite Hl. eexists. split; [done|]. destruct Hor' as [(k2 & p & ?)|?]; [|by right]. left. exists k2, p. set_solver.
Qed.

(** C26. Requests are answered.  Let a node ask for its own VID share of a view with a signed
    request, and let the request reach a peer whose response loop has not been ended by
    an earlier event, that sees the node's stake in its current epoch, and that has no share
    stored for the node but the payload and the state of the view, from which the shares are
    computed with success, one of them for the node.  Then the peer answers with that
    share and its signature.  If the peer may answer (it is in the DA committee or leads the
    view) and its response is among what the requester receives in a turn of its job, with the
    channel open, then the job ends no later than in that turn, and has announced a share,
    unless the node was shut down or has left the view.
    A signed request for a proposal is answered with the proposal that the peer has saved
    for the view. *)
Theorem requests_are_answered {signed} {Ls : SignatureLaws Sg signed} (rq : RequestConfig (M := M))
    before after c c1 view sig share :
  from_private (rq_private_key rq) = rq_public_key rq → from_private (nr_private_key cfg) = nr_pub_key cfg →
  still_running before c = Some c1 →
  let pk := rq_public_key rq in
  let req := {| dr_request := RequestVid view pk; dr_view := view; dr_signature := sig |} in
  (serialize_and_sign bincode_request sha256 rq (RequestVid view pk) = Some sig →
   has_stake (nr_membership cfg) pk (cur_epoch c1) = Ok true → computable c1 view pk share →
   emits (loop (before ++ Received (VidRequestRecv req pk) :: after)) c (VidResponseSend (nr_pub_key cfg) pk share) ∧
   ∀ job k earlier later rounds1 r rounds2,
     rj_view job = view → nr_pub_key cfg ∈ rj_answerers job → k ≠ pk → length rounds1 = length earlier →
     Received (VidResponseRecv (nr_pub_key cfg) share) ∈ rd_received r → Closed ∉ rd_received r →
     ∃ events, request_loop rq job (earlier ++ k :: later) (rounds1 ++ r :: rounds2) = (Some tt, events) ∧
       ((∃ k2 p, VidShareRecv k2 p ∈ events) ∨ ∃ r', r' ∈ rounds1 ++ [r] ∧ stopped view r')) ∧
  (∀ psig p, sign (rq_private_key rq)
       (as_ref (request_commit key_to_bytes {| req_view_number := view; req_key := pk |})) = Some psig →
     last_proposals c1 !! view = Some p →
     emits (loop (before ++ Received (QuorumProposalRequestRecv {| req_view_number := view; req_key := pk |} psig) :: after))
       c (QuorumProposalResponseSend pk p)).
Proof using Type.
  intros Hkey Hpkey Hb pk req. split.
  - intros Hsign Hstake Hcomp. split; [eapply loop_answers; [done|by apply vid_request_answered]|].
    intros job k earlier later rounds1 r rounds2 <- Ha Hk Hlen Hin Hopen.
    eapply job_ends; [done|done|done|done|]. by eapply computable_answers.
  - intros psig p Hs Hp. eapply loop_answers; [done|]. unfold emits, response_step. apply sign_verify in Hs. rewrite Hkey in Hs.
    assert (validate (req_key {| req_view_number := view; req_key := pk |}) psig
      (as_ref (request_commit key_to_bytes {| req_view_number := view; req_key := pk |})) = true) as -> by exact Hs.
    cbn [negb]. unfold mbind, task_bind. simpl. rewrite Hp. simpl. left.
Qed.
End Answers.
End RequestProofs.

(** ** Witnesses *)

Module RequestDemo.
#[local] Existing Instance StaticCommittee.
Definition bincode (r : RequestKind) : option bytes :=
  match r with RequestVid view key => Some [view; key] | _ => None end.
Definition hash : bytes → bytes := fun b => b.
Definition key_bytes : PubKey → bytes := fun k => [k].
Definition requester : RequestConfig (M := Committee) :=
  {| rq_membership := Demo.committee; rq_public_key := 10; rq_private_key := 10; rq_epoch_height := 10 |}.
Definition responder : NetworkResponseState (M := Committee) :=
  {| nr_membership := Demo.committee; nr_pub_key := 20; nr_private_key := 20 |}.
(** The share of node 10 in view 3, signed by node 20. *)
Definition share : Proposal VidDisperseShare :=
  {| proposal_data := ShareV0 (share_of_disperse VidDemo.dispersal (10, 0)); proposal_signature := [(20, [1])] : Sig |}.
Definition consensus : Consensus := update_vid_shares ConsDemo.start 3 share.
Definition req : DataRequest :=
  {| dr_request := RequestVid 3 10; dr_view := 3; dr_signature := [(10, [3; 10])] : Sig |}.
Definition job : VidRequestJob :=
  {| rj_view := 3; rj_request := req; rj_recipients := [10; 20; 30] : list PubKey; rj_answerers := {[20; 30]} |}.
(** A round in which nothing happens. *)
Definition quiet : Round := {| rd_consensus := ConsDemo.start; rd_shutdown := false; rd_received := [] |}.
Definition forged : ProposalRequestPayload := {| req_view_number := 3; req_key := 10 : PubKey |}.

(** A peer that has the payload of view 4, and the share it computes from it for node 10. *)
Definition with_payload : Consensus :=
  set_saved_payloads (set_validated_state_map ConsDemo.start {[4 := Consensus.Da [] None]})
    {[4 := from_bytes [7] (tt : Metadata)]}.
Definition computed : Proposal VidDisperseShare :=
  default share (head (omap (fun x => if recipient_key x =? 10 then to_proposal x (20 : PrivKey) else None)
    (from_vid_disperse VidTaskDemo.dispersal))).
Lemma peer_can_compute : computable responder with_payload 4 10 computed.
Proof.
  split; [reflexivity| |vm_compute; reflexivity|vm_compute; reflexivity].
  eexists _, _, VidTaskDemo.dispersal. split; [reflexivity|]. split; [reflexivity|]. split; [vm_compute; reflexivity|].
  apply (list_elem_of_lookup_2 _ 1%nat). vm_compute. reflexivity.
Qed.
Definition job4 : VidRequestJob :=
  {| rj_view := 4; rj_request := {| dr_request := RequestVid 4 10; dr_view := 4; dr_signature := [(10, [4; 10])] : Sig |};
     rj_recipients := [30; 20] : list PubKey; rj_answerers := {[20; 30]} |}.
(** The turn of node 20: something else is received, and its response. *)
Definition answered : Round :=
  {| rd_consensus := ConsDemo.start; rd_shutdown := false;
     rd_received := [Overflowed 1; Received Shutdown; Received (VidResponseRecv (20 : PubKey) computed)] |}.
End RequestDemo.

#[local] Existing Instance StaticCommittee.

Lemma vid_request_job_ends_witness :
  ∃ events, request_loop RequestDemo.requester RequestDemo.job [10; 20; 30] (replicate 4 RequestDemo.quiet) = (Some tt, events) ∧
    events = [asks RequestDemo.requester RequestDemo.job 20; asks RequestDemo.requester RequestDemo.job 30].
Proof.
  destruct (request_loop RequestDemo.requester RequestDemo.job [10; 20; 30] (replicate 4 RequestDemo.quiet))
    as [res events] eqn:Hl.
  destruct (vid_request_job_ends RequestDemo.requester RequestDemo.job [10; 20; 30] (replicate 4 RequestDemo.quiet)
    res events Hl) as [_ Hend].
  rewrite Hend by (simpl; lia). exists events. split; [reflexivity|].
  change events with (Some tt, events).2. rewrite <-(Hend ltac:(simpl; lia)), <-Hl. reflexivity.
Defined.

Lemma bad_request_ends_responses_witness :
  (run_response_loop RequestDemo.bincode RequestDemo.hash RequestDemo.key_bytes RequestDemo.responder id
     [Received (QuorumProposalRequestRecv RequestDemo.forged []); Received (VidRequestRecv RequestDemo.req 10)]
     RequestDemo.consensus).2 = [].
Proof.
  exact (proj1 (bad_request_ends_responses RequestDemo.bincode RequestDemo.hash RequestDemo.key_bytes
    RequestDemo.responder id [] RequestDemo.forged [] [Received (VidRequestRecv RequestDemo.req 10)]
    RequestDemo.consensus (mk_is_Some _ _ eq_refl) eq_refl)).
Defined.

Lemma requests_are_answered_witness :
  emits (run_response_loop RequestDemo.bincode RequestDemo.hash RequestDemo.key_bytes RequestDemo.responder id
    [Received (ViewChange 4 None); Received (VidRequestRecv (rj_request RequestDemo.job4) 10)])
    RequestDemo.with_payload (VidResponseSend 20 10 RequestDemo.computed) ∧
  ∃ events, request_loop RequestDemo.requester RequestDemo.job4 [30; 20] [RequestDemo.quiet; RequestDemo.answered] =
    (Some tt, events) ∧ ∃ k p, VidShareRecv k p ∈ events.
Proof.
  destruct (requests_are_answered RequestDemo.bincode RequestDemo.hash RequestDemo.key_bytes RequestDemo.responder id
    (Ls := Ideal.open_laws) RequestDemo.requester [Received (ViewChange 4 None)] [] RequestDemo.with_payload
    RequestDemo.with_payload 4 [(10, [4; 10])] RequestDemo.computed eq_refl eq_refl eq_refl) as [H _].
  destruct H as [Hpeer Hjob]; [reflexivity|reflexivity|exact RequestDemo.peer_can_compute|]. split; [exact Hpeer|].
  destruct (Hjob RequestDemo.job4 20 [30] [] [RequestDemo.quiet] RequestDemo.answered []) as (events & He & Hor);
      [reflexivity|apply (bool_decide_unpack _); vm_compute; exact I|discriminate|reflexivity|right; right; left| |].
    + intros Hc. unfold RequestDemo.answered, rd_received in Hc. rewrite !elem_of_cons, elem_of_nil in Hc. by destruct Hc as [?|[?|[?|[]]]].
    + exists events. split; [exact He|]. destruct Hor as [Hs|(r & Hr & Hst)]; [exact Hs|]. exfalso.
      apply elem_of_app in Hr as [->%list_elem_of_singleton| ->%list_elem_of_singleton];
        destruct Hst as [Hst|Hst]; vm_compute in Hst; discriminate.
Defined.
