(* ===== verification/ConsensusTask.v ===== *)
(** * The consensus task

    [task-impls/src/consensus/mod.rs] and [task-impls/src/consensus/handlers.rs]:
    vote collection, view changes and their timeouts, and the entry into a new
    epoch when an extended QC forms.

    [ct_timeout_task] holds the view and epoch of the [Timeout] event that the
    sleeping timeout task will broadcast; replacing the task aborts the old one.
    Metrics, timestamps and logging are left out. *)

From S2P Require Import Prelude Epochs Crypto Committee Votes Certificates VoteAccumulator VoteCollection Data Vid Consensus ConsensusProofs Task Message Events Network.
Import Ev.

Section ConsensusTask.
Context `{Sg : SignatureScheme} `{Cm : Committable} `{Vt : VidTypes} `{Vs : Versions}.
Context `{Bt : !BlockTypes} `{Vd : !VidScheme} `{Bu : !BuilderTypes}.
Context {M : Type} `{Mb : !Membership M}.

Record ConsensusTaskConfig := {
  ct_public_key : PubKey;
  ct_private_key : PrivKey;
  ct_membership : M;
  ct_lock : UpgradeLock;
  ct_id : Z;
  ct_epoch_height : Z;
}.
Context (cfg : ConsensusTaskConfig).

Abbreviation collectors := (gmap ViewNumber VoteCollectionTaskState).
Record ConsensusTaskState := {
  ct_cur_view : ViewNumber;
  ct_cur_epoch : option EpochNumber;
  ct_consensus : Consensus;
  ct_timeout_task : option (ViewNumber * option EpochNumber);
  vote_collectors : collectors;
  next_epoch_vote_collectors : collectors;
  timeout_vote_collectors : collectors;
}.

(** Internal events, and those for the application. *)
Inductive ConsensusOut :=
  | CtInternal (e : Event)
  | ViewFinished (view : ViewNumber)
  | ViewTimeout (view : ViewNumber)
  | ReplicaViewTimeout (view : ViewNumber).

Abbreviation consensus_task := (task ConsensusTaskState ConsensusOut Error).

Definition set_ct_consensus (s : ConsensusTaskState) (c : Consensus) : ConsensusTaskState :=
  {| ct_cur_view := ct_cur_view s; ct_cur_epoch := ct_cur_epoch s; ct_consensus := c;
     ct_timeout_task := ct_timeout_task s; vote_collectors := vote_collectors s;
     next_epoch_vote_collectors := next_epoch_vote_collectors s;
     timeout_vote_collectors := timeout_vote_collectors s |}.
Definition set_collectors (s : ConsensusTaskState) (votes next timeouts : collectors) : ConsensusTaskState :=
  {| ct_cur_view := ct_cur_view s; ct_cur_epoch := ct_cur_epoch s; ct_consensus := ct_consensus s;
     ct_timeout_task := ct_timeout_task s; vote_collectors := votes;
     next_epoch_vote_collectors := next; timeout_vote_collectors := timeouts |}.
Definition set_view (s : ConsensusTaskState) (view : ViewNumber) (epoch : option EpochNumber)
    (t : option (ViewNumber * option EpochNumber)) : ConsensusTaskState :=
  {| ct_cur_view := view; ct_cur_epoch := epoch; ct_consensus := ct_consensus s; ct_timeout_task := t;
     vote_collectors := vote_collectors s; next_epoch_vote_collectors := next_epoch_vote_collectors s;
     timeout_vote_collectors := timeout_vote_collectors s |}.

(** ** Votes *)

Definition handle_quorum_vote_recv (vote : SimpleVote QuorumData2) : consensus_task unit :=
  let epoch := q2_epoch (vote_data vote) in
  let event := VoteCollection.QuorumVoteRecv vote in
  s ← get;
  let in_transition := is_high_qc_for_last_block (ct_consensus s) in
  leader ← lift (leader (ct_membership cfg) (wrapper_add (vote_view vote) 1) epoch);
  _ ← require (in_transition || bool_decide (leader = ct_public_key cfg)) "We are not the leader";
  let transition_indicator := if in_transition then InTransition else NotInTransition in
  '(votes, events) ←
    lift (handle_vote (D := QuorumData2) (TH := SuccessThreshold) (ct_lock cfg) (ct_membership cfg)
            (vote_collectors s) vote (ct_public_key cfg) epoch (ct_id cfg) event transition_indicator);
  _ ← modify (fun s => set_collectors s votes (next_epoch_vote_collectors s) (timeout_vote_collectors s));
  _ ← emit_all (map (fun e => CtInternal (of_vote_event e)) events);
  match epoch with
  | None => mret tt
  | Some vote_epoch =>
      has_stake ← lift (has_stake (ct_membership cfg) (signing_key vote) (Some (wrapper_add vote_epoch 1)));
      if (has_stake : bool) then
        '(next, events) ←
          lift (handle_vote (D := NextEpochQuorumData2) (TH := SuccessThreshold) (ct_lock cfg) (ct_membership cfg)
                  (next_epoch_vote_collectors s) (next_epoch_vote vote) (ct_public_key cfg) epoch (ct_id cfg)
                  event transition_indicator);
        _ ← modify (fun s => set_collectors s (vote_collectors s) next (timeout_vote_collectors s));
        emit_all (map (fun e => CtInternal (of_vote_event e)) events)
      else mret tt
  end.

Definition handle_timeout_vote_recv (vote : SimpleVote TimeoutData2) : consensus_task unit :=
  s ← get;
  leader ← lift (leader (ct_membership cfg) (wrapper_add (vote_view vote) 1) (ct_cur_epoch s));
  _ ← require (bool_decide (leader = ct_public_key cfg)) "We are not the leader for view";
  '(timeouts, events) ←
    lift (handle_vote (D := TimeoutData2) (TH := SuccessThreshold) (ct_lock cfg) (ct_membership cfg)
            (timeout_vote_collectors s) vote (ct_public_key cfg) (t2_epoch (vote_data vote)) (ct_id cfg)
            (VoteCollection.TimeoutVoteRecv vote) NotInTransition);
  _ ← modify (fun s => set_collectors s (vote_collectors s) (next_epoch_vote_collectors s) timeouts);
  emit_all (map (fun e => CtInternal (of_vote_event e)) events).

(** ** View changes *)

Definition send_high_qc (new_view_number : ViewNumber) : consensus_task unit :=
  version ← lift (version (ct_lock cfg) new_view_number);
  _ ← require (version_ge version Epochs) "HotStuff 2 upgrade not yet in effect";
  s ← get;
  leader ← lift (leader (ct_membership cfg) new_view_number (ct_cur_epoch s));
  emit (CtInternal (HighQcSend (high_qc (ct_consensus s)) leader (ct_public_key cfg))).

(** [let _ = consensus.update_epoch(..)] *)
Definition enter_epoch (epoch_number : option EpochNumber) (s : ConsensusTaskState) : ConsensusTaskState :=
  if epoch_gt epoch_number (ct_cur_epoch s) then
    let s := set_view s (ct_cur_view s) epoch_number (ct_timeout_task s) in
    match epoch_number with
    | Some new_epoch => set_ct_consensus s (swallowed (fun c => update_epoch c new_epoch) (ct_consensus s))
    | None => s
    end
  else s.

Definition handle_view_change (new_view_number : ViewNumber) (epoch_number : option EpochNumber)
    : consensus_task unit :=
  _ ← modify (enter_epoch epoch_number);
  s ← get;
  _ ← require (ct_cur_view s <? new_view_number) "New view is not larger than the current view";
  let old_view_number := ct_cur_view s in
  _ ← logged (send_high_qc new_view_number);
  _ ← modify (fun s => set_view s new_view_number (ct_cur_epoch s) (ct_timeout_task s));
  _ ← update (fun s => c ← update_view (ct_consensus s) new_view_number; Ok (set_ct_consensus s c));
  _ ← modify (fun s => set_view s (ct_cur_view s) (ct_cur_epoch s) (Some (new_view_number, epoch_number)));
  s ← get;
  _ ← lift (leader (ct_membership cfg) old_view_number (ct_cur_epoch s));
  emit (ViewFinished old_view_number).

Definition handle_timeout (view_number : ViewNumber) (epoch : option EpochNumber) : consensus_task unit :=
  s ← get;
  _ ← require (ct_cur_view s <=? view_number) "Timeout event is for an old view";
  has_stake ← lift (has_stake (ct_membership cfg) (ct_public_key cfg) epoch);
  _ ← require has_stake "We were not chosen for the consensus committee for view";
  vote ← with_context (create_signed_vote {| t2_view := view_number; t2_epoch := epoch |} view_number
                         (ct_public_key cfg) (ct_private_key cfg) (ct_lock cfg)) "Failed to sign TimeoutData";
  _ ← emit (CtInternal (TimeoutVoteSend vote));
  _ ← emit (ViewTimeout view_number);
  _ ← emit (ReplicaViewTimeout view_number);
  _ ← lift (leader (ct_membership cfg) view_number (ct_cur_epoch s));
  mret tt.

(** ** The handler *)

(** An extended QC ends the epoch. *)
Definition on_qc_formed (quorum_cert : QuorumCertificate2) : consensus_task unit :=
  let cert_view := view_number quorum_cert in
  let leaf := leaf_commit (data quorum_cert) in
  if negb (epochs_enabled (ct_lock cfg) cert_view) then mret tt
  else
    s ← get;
    extended ← finish (is_leaf_extended (ct_consensus s) leaf);
    if negb extended then mret tt
    else
      saved ← lift (ok_or (saved_leaves (ct_consensus s) !! leaf)
                      "Could not find the leaf for the eQC. It shouldn't happen.");
      let cert_epoch := option_epoch_from_block_number true (height saved) (ct_epoch_height cfg) in
      let next_epoch := (fun x : Z => wrapper_add x 1) <$> cert_epoch in
      emit (CtInternal (ViewChange (wrapper_add cert_view 1) next_epoch)).

Definition consensus_handle (event : Event) : consensus_task unit :=
  match event with
  | QuorumVoteRecv vote => logged (handle_quorum_vote_recv vote)
  | TimeoutVoteRecv vote => logged (handle_timeout_vote_recv vote)
  | ViewChange new_view_number epoch_number => logged (handle_view_change new_view_number epoch_number)
  | Timeout view_number epoch => logged (handle_timeout view_number epoch)
  | Qc2Formed (inl quorum_cert) => on_qc_formed quorum_cert
  | _ => mret tt
  end.
End ConsensusTask.

(** ** Starting *)

(** The timer that [SystemContext::start_consensus] spawns: for the view after the
    first, in the epoch after the first. *)
Definition start_timer (start_view : ViewNumber) (start_epoch : option EpochNumber)
    : ViewNumber * option EpochNumber :=
  (wrapper_add start_view 1, (fun x : Z => wrapper_add x 1) <$> start_epoch).

(** ** Views and timeouts *)

Section ConsensusTaskProofs.
Context `{Sg : SignatureScheme} `{Cm : Committable} `{Vt : VidTypes} `{Vs : Versions}.
Context `{Bt : !BlockTypes} `{Vd : !VidScheme} `{Bu : !BuilderTypes}.
Context {M : Type} `{Mb : !Membership M}.
Context (cfg : ConsensusTaskConfig (M := M)).
Implicit Types (s : ConsensusTaskState).

(** The timers ever armed.  A timer may fire just before it is aborted. *)
Abbreviation timers := (list (ViewNumber * option EpochNumber)).

(** The [Timeout] events that reach the task come from its timers. *)
Definition may_arrive (fired : timers) (e : Event) : Prop :=
  match e with Timeout view epoch => (view, epoch) ∈ fired | _ => True end.

(** The view and the epoch the node was started with, which after a restart need not be
    those of the consensus state. *)
Context (start_view : ViewNumber) (start_epoch : option EpochNumber).

(** The first timer of the node. *)
Definition first_timer : ViewNumber * option EpochNumber := start_timer start_view start_epoch.

(** The task beside the others, which do not change the current view. *)
Inductive ct_run (s0 : ConsensusTaskState) : ConsensusTaskState → timers → Prop :=
  | ct_start : ct_run s0 s0 [first_timer]
  | ct_event s armed e r s' out :
      ct_run s0 s armed → may_arrive armed e → consensus_handle cfg e s = (r, s', out) →
      ct_run s0 s' (armed ++ option_list (ct_timeout_task s'))
  | ct_other s armed c :
      ct_run s0 s armed → step (ct_consensus s) c → cur_view c = cur_view (ct_consensus s) →
      ct_run s0 (set_ct_consensus s c) armed.

(** The task and the consensus state agree on the view, and the timer is the one
    of the view. *)
Definition view_inv s : Prop :=
  cur_view (ct_consensus s) = ct_cur_view s ∧
  ∀ v e, ct_timeout_task s = Some (v, e) → v = ct_cur_view s.

(** A handler that leaves view and timer alone. *)
Definition same_view s s' : Prop :=
  ct_cur_view s' = ct_cur_view s ∧ ct_timeout_task s' = ct_timeout_task s ∧
  cur_view (ct_consensus s') = cur_view (ct_consensus s).

Lemma enter_epoch_same ep s : same_view s (enter_epoch ep s).
Proof using Type.
  unfold enter_epoch. case_match; [|done]. destruct ep as [e|]; [|done]. split_and!; [done..|]. simpl.
  unfold swallowed, update_epoch. destruct (cur_epoch (ct_consensus s)) as [x|]; simpl; [destruct (x <? e)|]; done.
Qed.

Lemma keeps_same_view s0 m :
  (∀ s, (m s).1.2 = s) → keeps (Ev := ConsensusOut) (E := Error) (A := unit) (same_view s0) m.
Proof using Type. intros Hm s Hs. by rewrite Hm. Qed.

Lemma other_events_same e s0 :
  match e with ViewChange _ _ => False | _ => True end → keeps (same_view s0) (consensus_handle cfg e).
Proof using Type.
  assert (∀ f, (∀ s, same_view s (f s)) → keeps (Ev := ConsensusOut) (E := Error) (same_view s0) (modify f)) as Hmod.
  { intros f Hf. apply keeps_modify. intros s (H1 & H2 & H3). destruct (Hf s) as (H4 & H5 & H6).
    split_and!; congruence. }
  intros He. destruct e; try done; simpl; try apply keeps_ret.
  - apply keeps_logged. unfold handle_quorum_vote_recv. keeps_step; apply Hmod; by intros.
  - apply keeps_logged. unfold handle_timeout_vote_recv. keeps_step; apply Hmod; by intros.
  - destruct c as [qc|]; [|apply keeps_ret]. unfold on_qc_formed. keeps_step.
  - apply keeps_logged. unfold handle_timeout. keeps_step.
Qed.

Lemma send_high_qc_state view s : (send_high_qc cfg view s).1.2 = s.
Proof using Type.
  assert (keeps (eq s) (send_high_qc cfg view)) as H; [|by rewrite <-(H s eq_refl)]. unfold send_high_qc. keeps_step.
Qed.

(** The state after the new view has been entered. *)
Definition entered v ep s : ConsensusTaskState :=
  set_ct_consensus (set_view s v (ct_cur_epoch s) (Some (v, ep))) (set_cur_view (ct_consensus s) v).

Lemma view_change_run v ep s r s' out :
  handle_view_change cfg v ep s = (r, s', out) → view_inv s →
  (ct_cur_view s < v ∧ (s' = entered v ep (enter_epoch ep s) ∨ r = Panic ∧ same_view s s')) ∨
  (v <= ct_cur_view s ∧ same_view s s').
Proof using Type.
  intros H [Hview _]. pose proof (enter_epoch_same ep s) as He. pose proof He as (Hv & Ht & Hc).
  unfold handle_view_change in H. rewrite (bind_ok _ _ s tt (enter_epoch ep s)) in H by done.
  rewrite (bind_ok _ _ _ (enter_epoch ep s) (enter_epoch ep s)) in H by done. rewrite Hv in H.
  set (s1 := enter_epoch ep s) in *.
  destruct (Z.ltb_spec (ct_cur_view s) v) as [Hlt|Hge].
  2: { right. split; [done|]. unfold mbind, task_bind in H. simpl in H. by injection H as <- <- <-. }
  left. split; [done|]. rewrite (bind_ok _ _ s1 tt s1) in H by done.
  assert (∀ r s2 ev, logged (send_high_qc cfg v) s1 = (r, s2, ev) → s2 = s1 ∧ (∀ e, r ≠ Err e)) as Hlog.
  { intros r0 s2 ev Hl. pose proof (send_high_qc_state v s1) as Hs. unfold logged in Hl.
    destruct (send_high_qc cfg v s1) as [[[]]]; simpl in Hs; by simplify_eq. }
  assert (∀ b : outcome Error unit * ConsensusTaskState * list ConsensusOut,
    (_ ← modify (fun s => set_view s v (ct_cur_epoch s) (ct_timeout_task s));
         _ ← update (fun s => c ← update_view (ct_consensus s) v; Ok (set_ct_consensus s c));
         _ ← modify (fun s => set_view s (ct_cur_view s) (ct_cur_epoch s) (Some (v, ep)));
         s' ← get; _ ← lift (leader (ct_membership cfg) (ct_cur_view s) (ct_cur_epoch s'));
         emit (ViewFinished (ct_cur_view s))) s1 = b → b.1.2 = entered v ep s1) as Hrest.
  { intros b <-. rewrite (bind_ok _ _ s1 tt (set_view s1 v (ct_cur_epoch s1) (ct_timeout_task s1))) by done.
    set (s3 := set_view s1 v (ct_cur_epoch s1) (ct_timeout_task s1)).
    rewrite (bind_ok _ _ s3 tt (set_ct_consensus s3 (set_cur_view (ct_consensus s3) v))).
    2: { unfold update, update_view. simpl. rewrite Hc, Hview. by rewrite (proj2 (Z.ltb_lt _ _) Hlt). }
    rewrite (bind_ok _ _ _ tt (entered v ep s1)) by done. rewrite (bind_ok _ _ _ (entered v ep s1) (entered v ep s1)) by done.
    unfold mbind, task_bind, lift. by destruct (leader _ _ _). }
  apply bind_cases in H as [(u & s2 & ev1 & ev2 & [-> _]%Hlog & H & _)|[(e & [_ Hno]%Hlog & _)|[[-> _]%Hlog ->]]].
  - left. by specialize (Hrest _ H).
  - by destruct (Hno e).
  - right. done.
Qed.

Lemma same_view_inv s s' : same_view s s' → view_inv s → view_inv s'.
Proof using Type. intros (Hv & Ht & Hc) [H1 H2]. split; [congruence|]. intros v e. rewrite Ht, Hv. apply H2. Qed.

Lemma view_change_cases v ep s r s' out :
  consensus_handle cfg (ViewChange v ep) s = (r, s', out) → view_inv s →
  (ct_cur_view s < v ∧ (s' = entered v ep (enter_epoch ep s) ∨ r = Panic ∧ same_view s s')) ∨
  (v <= ct_cur_view s ∧ same_view s s').
Proof using Type.
  unfold consensus_handle, logged. destruct (handle_view_change cfg v ep s) as [[r0 s0] o0] eqn:H.
  intros Hr Hs. pose proof (view_change_run v ep s r0 s0 o0 H Hs). destruct r0; naive_solver.
Qed.

(** An event moves the view forward and rearms the timer, or leaves both alone. *)
Lemma handle_view e s r s' out :
  consensus_handle cfg e s = (r, s', out) → view_inv s →
  view_inv s' ∧ ct_cur_view s <= ct_cur_view s'.
Proof using Type.
  intros H Hs.
  assert (same_view s s' → view_inv s' ∧ ct_cur_view s <= ct_cur_view s') as Hsame.
  { intros Hsv. split; [by eapply same_view_inv|]. by destruct Hsv as [-> _]. }
  assert (match e with ViewChange _ _ => False | _ => True end ∨ ∃ v ep, e = ViewChange v ep) as [He|(v & ep & ->)]
    by (destruct e; eauto).
  2: {
    destruct (view_change_cases _ _ _ _ _ _ H Hs) as [[Hlt [->|[-> Hsv]]]|[Hge Hsv]]; [|by apply Hsame..].
    simpl. split; [|lia]. split; [done|]. by intros v' e' [= -> ->]. }
  apply Hsame. refine (keeps_run (same_view s) _ s r s' out _ _ H); [|done]. by apply other_events_same.
Qed.

(** Along a run the invariant holds, and a timer that may still fire is the first
    one or not ahead of the view. *)
Lemma ct_run_inv s0 s armed :
  ct_run s0 s armed → view_inv s0 →
  view_inv s ∧ ∀ v e, (v, e) ∈ armed → (v, e) = first_timer ∨ v <= ct_cur_view s.
Proof using Type.
  induction 1 as [|s armed e r s' out Hrun IH Hin Hstep|s armed c Hrun IH Hstep Hv]; intros H0.
  - split; [done|]. intros v e ->%list_elem_of_singleton. by left.
  - destruct (IH H0) as [Hs Ht]. destruct (handle_view _ _ _ _ _ Hstep Hs) as [Hs' Hle]. split; [done|].
    intros v ep [Hi|Hi]%elem_of_app; [destruct (Ht v ep Hi); [by left|right; lia]|].
    right. destruct (ct_timeout_task s') as [p|] eqn:Hp; [|by apply elem_of_nil in Hi].
    apply list_elem_of_singleton in Hi as <-. rewrite (proj2 Hs' v ep Hp). lia.
  - destruct (IH H0) as [Hs Ht]. split; [|done]. eapply same_view_inv; [|exact Hs]. by split_and!.
Qed.

(** *** What is sent *)

(** The collectors and the view change send neither timeout votes nor view changes. *)
Definition ordinary (o : ConsensusOut) : Prop :=
  match o with CtInternal (TimeoutVoteSend _) | CtInternal (ViewChange _ _) => False | _ => True end.

Lemma collector_events (l : list HotShotEvent) :
  only (E := Error) ordinary (emit_all (St := ConsensusTaskState) (map (fun e => CtInternal (of_vote_event e)) l)).
Proof using Type. apply only_emit_all, Forall_fmap, Forall_true. by intros []. Qed.

Lemma only_ordinary e :
  match e with Timeout _ _ | Qc2Formed (inl _) => False | _ => True end → only ordinary (consensus_handle cfg e).
Proof using Type.
  intros He. destruct e; try done; simpl; try (by apply only_silent, silent_ret).
  - apply only_logged. unfold handle_quorum_vote_recv. only_step; apply collector_events.
  - apply only_logged. unfold handle_timeout_vote_recv. only_step; apply collector_events.
  - destruct c; [done|]. apply only_silent, silent_ret.
  - apply only_logged. unfold handle_view_change, send_high_qc. only_step.
Qed.

Lemma logged_emits (m : task ConsensusTaskState ConsensusOut Error unit) s e : emits (logged m) s e → emits m s e.
Proof using Type. unfold emits, logged. by destruct (m s) as [[[]]]. Qed.

(** A signed timeout vote of this node. *)
Definition timeout_vote (v : ViewNumber) (ep : option EpochNumber) : outcome Error (SimpleVote TimeoutData2) :=
  create_signed_vote {| t2_view := v; t2_epoch := ep |} v (ct_public_key cfg) (ct_private_key cfg) (ct_lock cfg).

Lemma timeout_emits v ep s o :
  emits (handle_timeout cfg v ep) s o →
  ct_cur_view s <= v ∧ has_stake (ct_membership cfg) (ct_public_key cfg) ep = Ok true ∧
  ∃ vote, timeout_vote v ep = Ok vote ∧
    (o = CtInternal (TimeoutVoteSend vote) ∨ o = ViewTimeout v ∨ o = ReplicaViewTimeout v).
Proof using Type.
  unfold handle_timeout. intros H. do 5 peel H. bool_facts. subst. split_and!; [lia|done|]. exists a2. split; [done|].
  revert H. generalize s at 2 as s1. intros s1.
  apply (only_impl (fun o => o = CtInternal (TimeoutVoteSend a2) ∨ o = ViewTimeout v ∨ o = ReplicaViewTimeout v)
    (fun o => o = CtInternal (TimeoutVoteSend a2) ∨ o = ViewTimeout v ∨ o = ReplicaViewTimeout v)); [|done].
  only_step; apply only_emit; auto.
Qed.

(** A timely timeout of a staked node is voted for. *)
Lemma timeout_votes v ep s vote :
  ct_cur_view s <= v → has_stake (ct_membership cfg) (ct_public_key cfg) ep = Ok true → timeout_vote v ep = Ok vote →
  emits (consensus_handle cfg (Timeout v ep)) s (CtInternal (TimeoutVoteSend vote)).
Proof using Type.
  intros Hv Hst Hvote. unfold emits, consensus_handle, logged, handle_timeout.
  rewrite (bind_ok _ _ s s s) by done. rewrite (proj2 (Z.leb_le _ _) Hv).
  rewrite (bind_ok _ _ s tt s) by done. rewrite (bind_ok _ _ s true s) by (unfold lift; by rewrite Hst).
  rewrite (bind_ok _ _ s tt s) by done.
  rewrite (bind_ok _ _ s vote s) by (unfold with_context; fold (timeout_vote v ep); by rewrite Hvote).
  unfold mbind, task_bind, emit, lift. destruct (leader _ _ _); left.
Qed.

Lemma qc_formed_emits qc s o :
  emits (on_qc_formed cfg qc) s o →
  epochs_enabled (ct_lock cfg) (view_number qc) = true ∧
  is_leaf_extended (ct_consensus s) (leaf_commit (data qc)) = Some true ∧
  ∃ leaf, saved_leaves (ct_consensus s) !! leaf_commit (data qc) = Some leaf ∧
    o = CtInternal (ViewChange (wrapper_add (view_number qc) 1)
          ((fun x : Z => wrapper_add x 1) <$> option_epoch_from_block_number true (height leaf) (ct_epoch_height cfg))).
Proof using Type.
  unfold on_qc_formed. destruct (epochs_enabled _ _); simpl; [|by intros ?%emits_ret]. intros H. do 2 peel H.
  destruct a; simpl in H; [|by apply emits_ret in H]. peel H.
  split_and!; [done|done|]. destruct (saved_leaves _ !! _) as [leaf|]; [|done]. injection Hb0 as <-. exists leaf.
  split; [done|]. by apply list_elem_of_singleton in H.
Qed.

(** C16. The view of the node and its timeouts.  Start the task in the view of the
    consensus state with only the first timer of the node running, let it handle
    any events, of which the [Timeout]s come from timers, and let other tasks
    change the rest of the consensus state.  Then: the task and the consensus state
    agree on the current view; a newer view is entered, with a timer of its own, by
    every [ViewChange] to it that does not panic, and no other event moves the view;
    a timeout vote is sent only on a timeout, of the current view or of the first
    timer while the view is not past it, by a node with stake in the epoch of the
    vote, and such a timeout is always voted for; and the task announces a view
    change only when an extended QC forms, to the view and the epoch after it. *)
Theorem timeouts_follow_the_view s0 s armed :
  cur_view (ct_consensus s0) = ct_cur_view s0 → ct_timeout_task s0 = None → ct_run s0 s armed →
  cur_view (ct_consensus s) = ct_cur_view s ∧
  (∀ e r s' out, consensus_handle cfg e s = (r, s', out) → r ≠ Panic →
     match e with
     | ViewChange v ep =>
         if decide (ct_cur_view s < v) then
           ct_cur_view s' = v ∧ cur_view (ct_consensus s') = v ∧ ct_timeout_task s' = Some (v, ep)
         else same_view s s'
     | _ => same_view s s'
     end) ∧
  (∀ e vote, may_arrive armed e → emits (consensus_handle cfg e) s (CtInternal (TimeoutVoteSend vote)) →
     ∃ ep, e = Timeout (vote_view vote) ep ∧ vote_data vote = {| t2_view := vote_view vote; t2_epoch := ep |} ∧
       signing_key vote = ct_public_key cfg ∧ has_stake (ct_membership cfg) (ct_public_key cfg) ep = Ok true ∧
       ct_cur_view s <= vote_view vote ∧ (vote_view vote = ct_cur_view s ∨ (vote_view vote, ep) = first_timer)) ∧
  (∀ v ep vote, ct_cur_view s <= v → has_stake (ct_membership cfg) (ct_public_key cfg) ep = Ok true →
     timeout_vote v ep = Ok vote →
     emits (consensus_handle cfg (Timeout v ep)) s (CtInternal (TimeoutVoteSend vote))) ∧
  (∀ e v ep, emits (consensus_handle cfg e) s (CtInternal (ViewChange v ep)) →
     ∃ qc leaf, e = Qc2Formed (inl qc) ∧ epochs_enabled (ct_lock cfg) (view_number qc) = true ∧
       is_leaf_extended (ct_consensus s) (leaf_commit (data qc)) = Some true ∧
       saved_leaves (ct_consensus s) !! leaf_commit (data qc) = Some leaf ∧ v = wrapper_add (view_number qc) 1 ∧
       ep = (fun x : Z => wrapper_add x 1) <$> option_epoch_from_block_number true (height leaf) (ct_epoch_height cfg)).
Proof using Type.
  intros Hc0 Ht0 Hrun. assert (view_inv s0) as H0 by (split; [done|by rewrite Ht0]).
  destruct (ct_run_inv s0 s armed Hrun H0) as [Hs Harm]. split_and!.
  - apply Hs.
  - intros e r s' out He Hr. destruct e; try (refine (keeps_run (same_view s) _ s r s' out _ _ He); [|done]; by apply other_events_same).
    destruct (view_change_cases _ _ _ _ _ _ He Hs) as [[Hlt [->|[? _]]]|[Hge Hsv]]; [|done|]; case_decide; try lia; done.
  - intros e vote Hin He. destruct e; try (by apply only_ordinary in He).
    + destruct c; [|by apply only_ordinary in He]. apply qc_formed_emits in He as (_ & _ & l & _ & [=]).
    + apply logged_emits, timeout_emits in He as (Hle & Hst & vote' & Hv & [[= <-]|[[=]|[=]]]).
      apply create_signed_vote_ok in Hv as (Hd & Hvv & Hk). exists epoch. simpl in Hin.
      rewrite Hvv. split_and!; try done. destruct (Harm _ _ Hin); [by right|left; lia].
  - intros v ep vote Hv Hst Hvote. by apply timeout_votes.
  - intros e v ep He. destruct e; try (by apply only_ordinary in He).
    + destruct c; [|by apply only_ordinary in He]. apply qc_formed_emits in He as (? & ? & l & ? & [= -> ->]). naive_solver.
    + apply logged_emits, timeout_emits in He as (_ & _ & vote' & _ & [[=]|[[=]|[=]]]).
Qed.
End ConsensusTaskProofs.

(** ** Witness *)

Module TimeoutDemo.
#[local] Existing Instance StaticCommittee.
Definition cfg : ConsensusTaskConfig (M := Committee) :=
  {| ct_public_key := 30 : PubKey; ct_private_key := 30 : PrivKey; ct_membership := Demo.committee;
     ct_lock := UpgradeLock_new; ct_id := 0; ct_epoch_height := 10 |}.
Definition start : ConsensusTaskState :=
  {| ct_cur_view := 1; ct_cur_epoch := None; ct_consensus := ConsDemo.start; ct_timeout_task := None;
     vote_collectors := ∅; next_epoch_vote_collectors := ∅; timeout_vote_collectors := ∅ |}.
Definition result := consensus_handle cfg (ViewChange 2 None) start.
(** In view 2, with a timer running. *)
Definition waiting : ConsensusTaskState := result.1.2.
Definition vote : SimpleVote TimeoutData2 :=
  {| signature := (30, [(30, as_ref (vvd_commit {| vvd_data := {| t2_view := 2; t2_epoch := None |}; vvd_view := 2;
                                                   vvd_version := Base |}))]) : PubKey * Sig;
     vote_data := {| t2_view := 2; t2_epoch := None |}; vote_view := 2 |}.
End TimeoutDemo.

#[local] Existing Instance StaticCommittee.

Lemma timeouts_follow_the_view_witness :
  cur_view (ct_consensus TimeoutDemo.waiting) = ct_cur_view TimeoutDemo.waiting ∧
  emits (consensus_handle TimeoutDemo.cfg (Timeout 2 None)) TimeoutDemo.waiting
    (CtInternal (TimeoutVoteSend TimeoutDemo.vote)).
Proof.
  destruct (timeouts_follow_the_view TimeoutDemo.cfg 1 None TimeoutDemo.start TimeoutDemo.waiting
    ([first_timer 1 None] ++ option_list (ct_timeout_task TimeoutDemo.waiting))
    eq_refl eq_refl) as (Hv & _ & _ & Hvote & _).
  - apply (ct_event TimeoutDemo.cfg 1 None _ TimeoutDemo.start _ (ViewChange 2 None) TimeoutDemo.result.1.1 _ TimeoutDemo.result.2);
      [constructor|exact I|reflexivity].
  - split; [exact Hv|]. apply Hvote; [by compute|reflexivity|reflexivity].
Defined.
