(* ===== verification/QuorumProposal.v ===== *)
(** * The quorum proposal task

    [task-impls/src/quorum_proposal/mod.rs] and [handlers.rs]: how the leader of a
    view collects what it needs for a proposal, and how the proposal is built.

    [proposal_dependencies] maps a view to its dependency task: the handle and the
    event that started it.  What a wait delivers before its deadline is an
    argument: the proposals that peers send back, the [HighQcRecv] events read by
    each clone of the receiver, the certificate of the next epoch.  [Vec1] is a list;
    the constructors of the application's block headers are parameters. *)

From S2P Require Import Prelude Epochs Crypto Committee Votes Certificates VoteAccumulator VoteCollection Data Vid Consensus ConsensusProofs Decide Task Dependency ProposalValidation QuorumVote Message Events Network.
Import Ev.

Section QuorumProposal.
Context `{Sg : SignatureScheme} `{Cm : Committable} `{Vt : VidTypes} `{Vs : Versions}.
Context `{Bt : !BlockTypes} `{Vd : !VidScheme} `{Bu : !BuilderTypes}.
Context {M : Type} `{Mb : !Membership M}.

(** What the application provides to a proposer, besides [SignatureKey::to_bytes]. *)
Record HeaderBuilder := {
  (** [BlockHeader::new_legacy] and [BlockHeader::new_marketplace] *)
  new_legacy : ValidatedState → InstanceState → Leaf2 → VidCommitment → BuilderCommitment → Metadata →
    BuilderFee → VidCommon → Version → option BlockHeader;
  new_marketplace : ValidatedState → InstanceState → Leaf2 → VidCommitment → BuilderCommitment → Metadata →
    list BuilderFee → Z → VidCommon → option AuctionResult → Version → option BlockHeader;
}.

Record ProposerConfig := {
  pc_public_key : PubKey;
  pc_private_key : PrivKey;
  pc_membership : M;
  pc_lock : UpgradeLock;
  pc_epoch_height : Z;
  pc_instance_state : InstanceState;
  pc_storage : StorageAnswers;
  pc_headers : HeaderBuilder;
  pc_key_to_bytes : PubKey → bytes;
}.
Context (cfg : ProposerConfig).

Record CommitmentAndMetadata := {
  cm_commitment : VidCommitment;
  cm_builder_commitment : BuilderCommitment;
  cm_metadata : Metadata;
  cm_fees : list BuilderFee;
  cm_block_view : ViewNumber;
  cm_auction_result : option AuctionResult;
}.

Inductive ProposalDependency :=
  | PayloadAndMetadataDep | QcDep | ViewSyncCertDep | TimeoutCertDep | ProposalDep | VidShareDep.

Record ProposalDependencyHandle := {
  h_latest_proposed_view : ViewNumber;
  h_view_number : ViewNumber;
  h_formed_upgrade_certificate : option UpgradeCertificate;
  h_highest_qc : QuorumCertificate2;
}.

Inductive ProposerOut :=
  | OfFetching (e : ProposalEvent)
  | PrInternal (e : Event).

(** ** The proposal of a leader *)

Abbreviation proposer := (task Consensus ProposerOut Error).

(** A helper over the consensus state. *)
Definition fetching {A} (m : task Consensus ProposalEvent Error A) : proposer A := fun c =>
  let '(r, c, ev) := m c in (r, c, map OfFetching ev).

(** The next valid high QC of a receiver. *)
Fixpoint wait_for_qc_event (rx : list (recv_result Event)) : poll (option QuorumCertificate2) :=
  match rx with
  | [] => Pending
  | Received (HighQcRecv qc _) :: rx =>
      if is_ok (valid_cert_in qc (pc_membership cfg) (q2_epoch (data qc)) (pc_lock cfg)) then Ready (Some qc)
      else wait_for_qc_event rx
  | Received _ :: rx => wait_for_qc_event rx
  | Overflowed _ :: _ | Closed :: _ => Ready None
  end.

(** Each round of the loop reads a new clone of the receiver; [rounds] is what the
    clones deliver before the deadline. *)
Fixpoint wait_rounds (rounds : list (list (recv_result Event))) (highest : QuorumCertificate2) : QuorumCertificate2 :=
  match rounds with
  | [] => highest
  | rx :: rounds =>
      match wait_for_qc_event rx with
      | Pending => highest
      | Ready None => wait_rounds rounds highest
      | Ready (Some qc) => wait_rounds rounds (if view_number highest <? view_number qc then qc else highest)
      end
  end.

Definition wait_for_highest_qc (h : ProposalDependencyHandle) (rounds : list (list (recv_result Event)))
    : QuorumCertificate2 :=
  match version (pc_lock cfg) (h_view_number h) with
  | Ok v => if negb (version_ge v Epochs) then h_highest_qc h else wait_rounds rounds (h_highest_qc h)
  | _ => wait_rounds rounds (h_highest_qc h)
  end.

(** The wait for the certificate of the next epoch: the events before the deadline,
    [None] when it has passed, and the state that is read after it. *)
Record NextEpochWait := {
  nw_events : option (list (recv_result Event));
  nw_consensus : Consensus;
}.

Definition next_epoch_qc_for (c : Consensus) (high_qc : QuorumCertificate2) : option NextEpochQuorumCertificate2 :=
  match next_epoch_high_qc c with
  | Some qc => if bool_decide (leaf_commit (next_epoch_data (data qc)) = leaf_commit (data high_qc)) then Some qc else None
  | None => None
  end.

Definition is_next_epoch_qc_of (high_qc : QuorumCertificate2) (event : Event) : bool :=
  match event with
  | NextEpochQc2Formed (inl qc) => bool_decide (leaf_commit (next_epoch_data (data qc)) = leaf_commit (data high_qc))
  | _ => false
  end.

Definition get_next_epoch_qc (h : ProposalDependencyHandle) (c : Consensus) (wait : NextEpochWait)
    (high_qc : QuorumCertificate2) : option NextEpochQuorumCertificate2 :=
  if negb (version_ge (version_infallible (pc_lock cfg) (h_view_number h)) Epochs) then None
  else
    match next_epoch_qc_for c high_qc with
    | Some qc => Some qc
    | None =>
        match nw_events wait with
        | None => None
        | Some rx =>
            match event_completed (EventDependency_new (is_next_epoch_qc_of high_qc)) rx with
            | Ready (Some (NextEpochQc2Formed (inl qc))) => Some qc
            | Ready (Some _) => None
            | Ready None | Pending => next_epoch_qc_for (nw_consensus wait) high_qc
            end
        end
    end.

(** The certificate of the parent, or the one formed here, if still relevant. *)
Definition upgrade_certificate_to_attach (parent_leaf : Leaf2) (formed : option UpgradeCertificate)
    (view : ViewNumber) (decided : option UpgradeCertificate) : option UpgradeCertificate :=
  match (match upgrade_certificate parent_leaf with Some cert => Some cert | None => formed end) with
  | Some cert => if is_ok (is_relevant cert view decided) then Some cert else None
  | None => None
  end.

Definition disperse_common (d : VidDisperse) : VidCommon :=
  match d with DisperseV0 d | DisperseV1 d => ad_common d end.

(** The parent's block again at the end of an epoch, a new one otherwise. *)
Definition proposed_header (h : ProposalDependencyHandle) (cm : CommitmentAndMetadata) (common : VidCommon)
    (parent_leaf : Leaf2) (state : ValidatedState) (version : Version) (forming_eqc : bool)
    : outcome Error BlockHeader :=
  if forming_eqc then Ok (block_header parent_leaf)
  else if negb (version_ge version Marketplace) then
    fee ← unwrap (head (cm_fees cm));
    ok_or (new_legacy (pc_headers cfg) state (pc_instance_state cfg) parent_leaf (cm_commitment cm)
             (cm_builder_commitment cm) (cm_metadata cm) fee common version) "Failed to construct legacy block header"
  else
    ok_or (new_marketplace (pc_headers cfg) state (pc_instance_state cfg) parent_leaf (cm_commitment cm)
             (cm_builder_commitment cm) (cm_metadata cm) (cm_fees cm) (h_view_number h) common
             (cm_auction_result cm) version) "Failed to construct marketplace block header".

(** The DRB result that the last block of an epoch carries. *)
Definition drb_result_to_attach (c : Consensus) (number : Z) (epoch : option EpochNumber) : option bytes :=
  if is_last_block_in_epoch number (pc_epoch_height cfg) then
    epoch_val ← epoch; results (drb_seeds_and_results c) !! epoch_val
  else None.

Definition publish_proposal (h : ProposalDependencyHandle) (cm : CommitmentAndMetadata)
    (vid_share : Proposal VidDisperse) (evidence : option ViewChangeEvidence2) (parent_qc : QuorumCertificate2)
    (responses : list (Proposal QuorumProposal2)) (wait : NextEpochWait) : proposer unit :=
  let view := h_view_number h in
  '(parent_leaf, state) ←
    fetching (parent_leaf_and_state (pc_key_to_bytes cfg) responses (pc_membership cfg) (pc_public_key cfg)
                (pc_private_key cfg) (pc_lock cfg) (view_number parent_qc) (pc_epoch_height cfg));
  let upgrade_certificate :=
    upgrade_certificate_to_attach parent_leaf (h_formed_upgrade_certificate h) view
      (decided_upgrade_certificate (pc_lock cfg)) in
  let proposal_certificate :=
    match evidence with
    | Some cert => if is_valid_for_view2 cert view then Some cert else None
    | None => None
    end in
  _ ← require (cm_block_view cm =? view)
        "Cannot propose because our VID payload commitment and metadata is for an older view.";
  version ← lift (version (pc_lock cfg) view);
  c ← get;
  forming_eqc ← (if version_ge version Epochs then finish (is_qc_forming_eqc c parent_qc) else mret false);
  block_header ← lift (proposed_header h cm (disperse_common (proposal_data vid_share)) parent_leaf state version forming_eqc);
  let epoch := option_epoch_from_block_number (version_ge version Epochs) (block_number block_header)
                 (pc_epoch_height cfg) in
  leader ← lift (leader (pc_membership cfg) view epoch);
  if negb (bool_decide (leader = pc_public_key cfg)) then mret tt
  else
    let next_epoch_qc :=
      if is_leaf_for_last_block c (leaf_commit (data parent_qc)) then get_next_epoch_qc h c wait parent_qc else None in
    let proposal :=
      {| p_block_header := block_header; p_view_number := view; p_epoch := epoch; p_justify_qc := parent_qc;
         p_next_epoch_justify_qc := next_epoch_qc; p_upgrade_certificate := upgrade_certificate;
         p_view_change_evidence := proposal_certificate;
         p_next_drb_result := drb_result_to_attach c (block_number block_header) epoch |} in
    let proposed_leaf := leaf2_from_quorum_proposal proposal in
    _ ← require (bool_decide (parent_commitment proposed_leaf = leaf2_commit parent_leaf))
          "Proposed leaf parent does not equal high qc";
    signature ← lift (ok_or (sign (pc_private_key cfg) (as_ref (leaf2_commit proposed_leaf)))
                        "Failed to compute proposed_leaf.commit()");
    emit (PrInternal (QuorumProposalSend {| proposal_data := proposal; proposal_signature := signature |}
                        (pc_public_key cfg))).

(** The local variables of the loop over the events. *)
Record dep_results := {
  r_commit_and_metadata : option CommitmentAndMetadata;
  r_timeout_certificate : option TimeoutCertificate2;
  r_view_sync_cert : option ViewSyncFinalizeCertificate2;
  r_vid_share : option (Proposal VidDisperse);
  r_parent_qc : option QuorumCertificate2;
}.

Definition no_results : dep_results :=
  {| r_commit_and_metadata := None; r_timeout_certificate := None; r_view_sync_cert := None;
     r_vid_share := None; r_parent_qc := None |}.

Definition record_result (r : dep_results) (event : Event) : dep_results :=
  match event with
  | SendPayloadCommitmentAndMetadata payload_commitment builder_commitment metadata view fees auction_result =>
      {| r_commit_and_metadata :=
           Some {| cm_commitment := payload_commitment; cm_builder_commitment := builder_commitment;
                   cm_metadata := metadata; cm_fees := fees; cm_block_view := view;
                   cm_auction_result := auction_result |};
         r_timeout_certificate := r_timeout_certificate r; r_view_sync_cert := r_view_sync_cert r;
         r_vid_share := r_vid_share r; r_parent_qc := r_parent_qc r |}
  | Qc2Formed (inr timeout) =>
      {| r_commit_and_metadata := r_commit_and_metadata r; r_timeout_certificate := Some timeout;
         r_view_sync_cert := r_view_sync_cert r; r_vid_share := r_vid_share r; r_parent_qc := r_parent_qc r |}
  | Qc2Formed (inl qc) =>
      {| r_commit_and_metadata := r_commit_and_metadata r; r_timeout_certificate := r_timeout_certificate r;
         r_view_sync_cert := r_view_sync_cert r; r_vid_share := r_vid_share r; r_parent_qc := Some qc |}
  | ViewSyncFinalizeCertificateRecv cert =>
      {| r_commit_and_metadata := r_commit_and_metadata r; r_timeout_certificate := r_timeout_certificate r;
         r_view_sync_cert := Some cert; r_vid_share := r_vid_share r; r_parent_qc := r_parent_qc r |}
  | VidDisperseSend share _ =>
      {| r_commit_and_metadata := r_commit_and_metadata r; r_timeout_certificate := r_timeout_certificate r;
         r_view_sync_cert := r_view_sync_cert r; r_vid_share := Some share; r_parent_qc := r_parent_qc r |}
  | _ => r
  end.

(** [HandleDepOutput::handle_dep_result] *)
Definition handle_dep_result (h : ProposalDependencyHandle) (rounds : list (list (recv_result Event)))
    (responses : list (Proposal QuorumProposal2)) (wait : NextEpochWait) (res : list (list (list Event)))
    : proposer unit :=
  let r := foldl record_result no_results (mjoin (mjoin res)) in
  match version (pc_lock cfg) (h_view_number h) with
  | Panic => lift Panic
  | Err _ => mret tt
  | Ok version =>
      c ← get;
      let parent_qc :=
        match r_parent_qc r with
        | Some qc => qc
        | None => if negb (version_ge version Epochs) then high_qc c else wait_for_highest_qc h rounds
        end in
      match r_commit_and_metadata r, r_vid_share r with
      | Some cm, Some vid_share =>
          let proposal_cert :=
            match r_view_sync_cert r with
            | Some cert => Some (ViewSync2 cert)
            | None => Timeout2 <$> r_timeout_certificate r
            end in
          logged (publish_proposal h cm vid_share proposal_cert parent_qc responses wait)
      | _, _ => mret tt
      end
  end.

(** ** Dependencies *)

Definition dependency_view (dependency_type : ProposalDependency) (event : Event) : option ViewNumber :=
  match dependency_type, event with
  | QcDep, Qc2Formed (inl qc) => Some (wrapper_add (view_number qc) 1)
  | TimeoutCertDep, Qc2Formed (inr timeout) => Some (wrapper_add (view_number timeout) 1)
  | ViewSyncCertDep, ViewSyncFinalizeCertificateRecv cert => Some (view_number cert)
  | ProposalDep, QuorumProposalPreliminarilyValidated p => Some (wrapper_add (p_view_number (proposal_data p)) 1)
  | PayloadAndMetadataDep, SendPayloadCommitmentAndMetadata _ _ _ view _ _ => Some view
  | VidShareDep, VidDisperseSend p _ => Some (disperse_view (proposal_data p))
  | _, _ => None
  end.

Definition create_event_dependency (dependency_type : ProposalDependency) (view_number : ViewNumber)
    : EventDependency Event :=
  EventDependency_new (fun event =>
    match dependency_view dependency_type event with
    | Some event_view => event_view =? view_number
    | None => false
    end).

(** The dependency that an event completes at once. *)
Definition completes (event : Event) : option ProposalDependency :=
  match event with
  | SendPayloadCommitmentAndMetadata _ _ _ _ _ _ => Some PayloadAndMetadataDep
  | QuorumProposalPreliminarilyValidated _ => Some ProposalDep
  | Qc2Formed (inr _) => Some TimeoutCertDep
  | Qc2Formed (inl _) => Some QcDep
  | ViewSyncFinalizeCertificateRecv _ => Some ViewSyncCertDep
  | VidDisperseSend _ _ => Some VidShareDep
  | _ => None
  end.

#[global] Instance ProposalDependency_eq_dec : EqDecision ProposalDependency.
Proof. solve_decision. Defined.

Definition seeded_dependency (view_number : ViewNumber) (event : Event) (dependency_type : ProposalDependency)
    : EventDependency Event :=
  let d := create_event_dependency dependency_type view_number in
  if bool_decide (completes event = Some dependency_type) then mark_as_completed d event else d.

Definition primary_deps : list ProposalDependency := [PayloadAndMetadataDep; VidShareDep].
Definition secondary_deps (view_number : ViewNumber) : list (list ProposalDependency) :=
  [[TimeoutCertDep]; [ViewSyncCertDep]; if 1 <? view_number then [QcDep; ProposalDep] else [QcDep]].

(** The futures of a group of dependencies, which read clones of one receiver. *)
Definition futures (view_number : ViewNumber) (event : Event) (rx : list (recv_result Event))
    (deps : list ProposalDependency) : list (poll (option Event)) :=
  map (fun d => event_completed (seeded_dependency view_number event d) rx) deps.

(** [create_and_complete_dependencies]: the outcomes of the conjunction of the
    primary dependencies and one of the secondary groups.  A group that has not
    completed is [Pending]. *)
Inductive dependencies_completed (view_number : ViewNumber) (event : Event) (rx : list (recv_result Event))
    : list (list (list Event)) → Prop :=
  | dependencies_done primary or_primary groups secondary both or_both res :
      and_completed (futures view_number event rx primary_deps) (Some primary) →
      or_completed [Ready (Some primary)] (Some or_primary) →
      Forall2 (fun deps r => match r with
                             | Pending => True
                             | Ready r => and_completed (futures view_number event rx deps) r
                             end) (secondary_deps view_number) groups →
      or_completed groups (Some secondary) →
      and_completed [Ready (Some or_primary); Ready (Some secondary)] (Some both) →
      or_completed [Ready (Some both)] (Some or_both) →
      and_completed [Ready (Some or_both)] (Some res) →
      dependencies_completed view_number event rx res.

(** ** The task *)

(** A dependency task: its handle and the event it was created on. *)
Record ProposalTask := { pt_handle : ProposalDependencyHandle; pt_event : Event }.

Record QuorumProposalTaskState := {
  latest_proposed_view : ViewNumber;
  pr_cur_epoch : option EpochNumber;
  proposal_dependencies : gmap ViewNumber ProposalTask;
  pr_consensus : Consensus;
  formed_upgrade_certificate : option UpgradeCertificate;
  pr_highest_qc : QuorumCertificate2;
}.

Abbreviation leader_task := (task QuorumProposalTaskState ProposerOut Error).

Definition set_latest_proposed_view (s : QuorumProposalTaskState) (v : ViewNumber) : QuorumProposalTaskState :=
  {| latest_proposed_view := v; pr_cur_epoch := pr_cur_epoch s; proposal_dependencies := proposal_dependencies s;
     pr_consensus := pr_consensus s; formed_upgrade_certificate := formed_upgrade_certificate s;
     pr_highest_qc := pr_highest_qc s |}.
Definition set_pr_cur_epoch (s : QuorumProposalTaskState) (e : option EpochNumber) : QuorumProposalTaskState :=
  {| latest_proposed_view := latest_proposed_view s; pr_cur_epoch := e;
     proposal_dependencies := proposal_dependencies s; pr_consensus := pr_consensus s;
     formed_upgrade_certificate := formed_upgrade_certificate s; pr_highest_qc := pr_highest_qc s |}.
Definition set_proposal_dependencies (s : QuorumProposalTaskState) (d : gmap ViewNumber ProposalTask)
    : QuorumProposalTaskState :=
  {| latest_proposed_view := latest_proposed_view s; pr_cur_epoch := pr_cur_epoch s; proposal_dependencies := d;
     pr_consensus := pr_consensus s; formed_upgrade_certificate := formed_upgrade_certificate s;
     pr_highest_qc := pr_highest_qc s |}.
Definition set_pr_consensus (s : QuorumProposalTaskState) (c : Consensus) : QuorumProposalTaskState :=
  {| latest_proposed_view := latest_proposed_view s; pr_cur_epoch := pr_cur_epoch s;
     proposal_dependencies := proposal_dependencies s; pr_consensus := c;
     formed_upgrade_certificate := formed_upgrade_certificate s; pr_highest_qc := pr_highest_qc s |}.
Definition set_formed_upgrade_certificate (s : QuorumProposalTaskState) (cert : option UpgradeCertificate)
    : QuorumProposalTaskState :=
  {| latest_proposed_view := latest_proposed_view s; pr_cur_epoch := pr_cur_epoch s;
     proposal_dependencies := proposal_dependencies s; pr_consensus := pr_consensus s;
     formed_upgrade_certificate := cert; pr_highest_qc := pr_highest_qc s |}.
Definition set_pr_highest_qc (s : QuorumProposalTaskState) (qc : QuorumCertificate2) : QuorumProposalTaskState :=
  {| latest_proposed_view := latest_proposed_view s; pr_cur_epoch := pr_cur_epoch s;
     proposal_dependencies := proposal_dependencies s; pr_consensus := pr_consensus s;
     formed_upgrade_certificate := formed_upgrade_certificate s; pr_highest_qc := qc |}.

(** [self.consensus.write().await.update(..)?] *)
Definition write_pr_consensus (f : Consensus → outcome Error Consensus) : leader_task unit :=
  update (fun s => c ← f (pr_consensus s); Ok (set_pr_consensus s c)).

Definition create_dependency_task_if_new (view_number : ViewNumber) (epoch_number : option EpochNumber)
    (event : Event) (indicator : EpochTransitionIndicator) : leader_task unit :=
  leader_now ← lift (leader (pc_membership cfg) view_number epoch_number);
  let leader_in_current_epoch := bool_decide (leader_now = pc_public_key cfg) in
  leader_in_next_epoch ←
    match epoch_number, indicator with
    | Some epoch, InTransition =>
        leader_next ← lift (leader (pc_membership cfg) view_number (Some (wrapper_add epoch 1)));
        mret (bool_decide (leader_next = pc_public_key cfg))
    | _, _ => mret false
    end;
  _ ← require (leader_in_current_epoch || leader_in_next_epoch) "We are not the leader of the next view";
  s ← get;
  _ ← require (latest_proposed_view s <? view_number) "We have already proposed for this view";
  _ ← require (negb (bool_decide (is_Some (proposal_dependencies s !! view_number)))) "Task already exists";
  let handle := {| h_latest_proposed_view := latest_proposed_view s; h_view_number := view_number;
                   h_formed_upgrade_certificate := formed_upgrade_certificate s;
                   h_highest_qc := pr_highest_qc s |} in
  modify (fun s => set_proposal_dependencies s
    (<[view_number := {| pt_handle := handle; pt_event := event |}]> (proposal_dependencies s))).

Definition update_latest_proposed_view (s : QuorumProposalTaskState) (new_view : ViewNumber)
    : QuorumProposalTaskState * bool :=
  if latest_proposed_view s <? new_view then
    let s' := set_proposal_dependencies s
      (base.filter (fun kv => ¬ (latest_proposed_view s + 1 <= kv.1 <= new_view)) (proposal_dependencies s)) in
    (set_latest_proposed_view s' new_view, true)
  else (s, false).

Definition cancel_tasks (s : QuorumProposalTaskState) (view : ViewNumber) : QuorumProposalTaskState :=
  set_proposal_dependencies s (base.filter (fun kv => view <= kv.1) (proposal_dependencies s)).

Definition on_new_qc (qc : QuorumCertificate2) : leader_task unit :=
  _ ← write_pr_consensus (fun c => update_high_qc c qc);
  require (high_qc_stored (pc_storage cfg)) "Failed to update high QC in storage!".

Definition on_next_epoch_qc (next_epoch_qc : NextEpochQuorumCertificate2) : leader_task unit :=
  s ← get;
  _ ← require (match next_epoch_high_qc (pr_consensus s) with
               | None => true
               | Some current => view_number current <? view_number next_epoch_qc
               end) "Received a next epoch QC for a view that was not > than our current next epoch high QC";
  _ ← write_pr_consensus (fun c => update_next_epoch_high_qc c next_epoch_qc);
  require (next_epoch_high_qc_stored (pc_storage cfg)) "Failed to update next epoch high QC in storage!".

Definition quorum_proposal_handle (event : Event) : leader_task unit :=
  s ← get;
  let epoch_number := pr_cur_epoch s in
  let indicator := if is_high_qc_for_last_block (pr_consensus s) then InTransition else NotInTransition in
  match event with
  | UpgradeCertificateFormed cert =>
      if wrapper_add (latest_proposed_view s) 3 <=? decide_by (data cert) then
        modify (fun s => set_formed_upgrade_certificate s (Some cert))
      else mret tt
  | Qc2Formed (inr timeout_cert) =>
      create_dependency_task_if_new (wrapper_add (view_number timeout_cert) 1) epoch_number event indicator
  | Qc2Formed (inl qc) =>
      _ ← on_new_qc qc;
      create_dependency_task_if_new (wrapper_add (view_number qc) 1) epoch_number event indicator
  | SendPayloadCommitmentAndMetadata _ _ _ view_number _ _ =>
      create_dependency_task_if_new view_number epoch_number event NotInTransition
  | ViewSyncFinalizeCertificateRecv certificate =>
      let epoch_number := vsf2_epoch (data certificate) in
      _ ← with_context (valid_cert_in certificate (pc_membership cfg) epoch_number (pc_lock cfg))
            "View Sync Finalize certificate was invalid";
      create_dependency_task_if_new (view_number certificate) epoch_number event NotInTransition
  | QuorumProposalPreliminarilyValidated proposal =>
      let view_number := p_view_number (proposal_data proposal) in
      _ ← modify (fun s => (update_latest_proposed_view s view_number).1);
      create_dependency_task_if_new (wrapper_add view_number 1) epoch_number event indicator
  | QuorumProposalSend proposal _ =>
      let view := p_view_number (proposal_data proposal) in
      let '(s', updated) := update_latest_proposed_view s view in
      _ ← modify (fun _ => s');
      require updated "Failed to update latest proposed view"
  | VidDisperseSend vid_disperse _ =>
      create_dependency_task_if_new (disperse_view (proposal_data vid_disperse)) epoch_number event NotInTransition
  | ViewChange view epoch =>
      _ ← modify (fun s => if epoch_gt epoch (pr_cur_epoch s) then set_pr_cur_epoch s epoch else s);
      modify (fun s => cancel_tasks s (saturating_sub view 1))
  | Timeout view _ => modify (fun s => cancel_tasks s (saturating_sub view 1))
  | HighQcSend qc _ _ =>
      _ ← require (view_number (pr_highest_qc s) <? view_number qc) "qc.view_number() > self.highest_qc.view_number()";
      _ ← with_context (valid_cert_in qc (pc_membership cfg) (q2_epoch (data qc)) (pc_lock cfg))
            "Quorum certificate was invalid";
      modify (fun s => set_pr_highest_qc s qc)
  | NextEpochQc2Formed (inl next_epoch_qc) => on_next_epoch_qc next_epoch_qc
  | _ => mret tt
  end.

(** [cancel_subtasks] *)
Definition cancel_proposal_tasks (s : QuorumProposalTaskState) : QuorumProposalTaskState :=
  set_proposal_dependencies s ∅.
End QuorumProposal.

(** ** What is proposed *)

Section ProposalProofs.
Context `{Sg : SignatureScheme} `{Cm : Committable} `{Vt : VidTypes} `{Vs : Versions}.
Context `{Bt : !BlockTypes} `{Vd : !VidScheme} `{Bu : !BuilderTypes}.
Context {M : Type} `{Mb : !Membership M}.
Context (cfg : ProposerConfig (M := M)).
Implicit Types (h : ProposalDependencyHandle) (c : Consensus) (s : QuorumProposalTaskState).

Lemma fetching_then {A B} (m : task Consensus ProposalEvent Error A) (f : A → task Consensus ProposerOut Error B) c e :
  emits (fetching m ≫= f) c (PrInternal e) →
  ∃ a c1 ev, m c = (Ok a, c1, ev) ∧ emits (f a) c1 (PrInternal e) ∧ ((fetching m ≫= f) c).1.2 = (f a c1).1.2.
Proof using Type.
  intros [H|(a & c1 & ev & Hr & H)]%emits_bind.
  - unfold emits, fetching in H. destruct (m c) as [[r c1] ev]. simpl in H.
    by apply list_elem_of_fmap in H as (? & [=] & _).
  - unfold mbind, task_bind at 1. rewrite Hr. unfold fetching in Hr. destruct (m c) as [[r c2] ev'] eqn:Hm. simplify_eq.
    exists a, c1, ev'. split_and!; [done..|]. by destruct (f a c1) as [[]].
Qed.

(** The parent a proposal is built on. *)
Definition parent_in c (view : ViewNumber) (parent : Leaf2) (st : ValidatedState) : Prop :=
  ∃ x hc, validated_state_map c !! view = Some x ∧ leaf_and_state x = Some (hc, st) ∧ saved_leaves c !! hc = Some parent.

Lemma parent_leaf_run ktb responses (m : M) pk sk lock view eh c parent st c1 ev :
  parent_leaf_and_state ktb responses m pk sk lock view eh c = (Ok (parent, st), c1, ev) → parent_in c1 view parent st.
Proof using Type.
  unfold parent_leaf_and_state. intros (x & c2 & ? & ? & [-> ->]%get_run & H & _)%bind_run.
  apply bind_run in H as (? & c3 & ? & ? & _ & H & _). apply bind_run in H as (? & ? & ? & ? & [-> ->]%get_run & H & _).
  apply bind_run in H as (y & ? & ? & ? & [Hy ->]%lift_run & H & _).
  apply bind_run in H as ([hc st'] & ? & ? & ? & [Hs ->]%lift_run & H & _).
  apply bind_run in H as (l & ? & ? & ? & [Hl ->]%lift_run & H & _). apply ret_run in H as [[= -> ->] ->].
  destruct (validated_state_map c3 !! view) as [y'|] eqn:Hv; [|done]. injection Hy as ->. exists y, hc.
  destruct (leaf_and_state y) as [[]|]; [|done]. destruct (saved_leaves c3 !! hc); [|done]. naive_solver.
Qed.

(** A proposal, and what it was built from. *)
Record built h (cm : CommitmentAndMetadata) common evidence parent_qc wait parent st c ver forming (q : QuorumProposal2) : Prop := {
  b_parent : parent_in c (view_number parent_qc) parent st;
  b_payload : cm_block_view cm = h_view_number h;
  b_view : p_view_number q = h_view_number h;
  b_version : version (pc_lock cfg) (h_view_number h) = Ok ver;
  b_forming : (if version_ge ver Epochs then is_qc_forming_eqc c parent_qc else Some false) = Some forming;
  b_header : proposed_header cfg h cm common parent st ver forming = Ok (p_block_header q);
  b_epoch : p_epoch q = option_epoch_from_block_number (version_ge ver Epochs) (block_number (p_block_header q)) (pc_epoch_height cfg);
  b_leader : leader (pc_membership cfg) (h_view_number h) (p_epoch q) = Ok (pc_public_key cfg);
  b_justify : p_justify_qc q = parent_qc;
  b_extends : leaf_commit (data parent_qc) = leaf2_commit parent;
  b_upgrade : p_upgrade_certificate q = upgrade_certificate_to_attach parent (h_formed_upgrade_certificate h)
    (h_view_number h) (decided_upgrade_certificate (pc_lock cfg));
  b_evidence : p_view_change_evidence q =
    match evidence with Some e => if is_valid_for_view2 e (h_view_number h) then Some e else None | None => None end;
  b_next_epoch : p_next_epoch_justify_qc q =
    if is_leaf_for_last_block c (leaf_commit (data parent_qc)) then get_next_epoch_qc cfg h c wait parent_qc else None;
  b_drb : p_next_drb_result q = drb_result_to_attach cfg c (block_number (p_block_header q)) (p_epoch q);
}.

Arguments b_parent {_ _ _ _ _ _ _ _ _ _ _ _} _.
Arguments b_payload {_ _ _ _ _ _ _ _ _ _ _ _} _.
Arguments b_view {_ _ _ _ _ _ _ _ _ _ _ _} _.
Arguments b_version {_ _ _ _ _ _ _ _ _ _ _ _} _.
Arguments b_forming {_ _ _ _ _ _ _ _ _ _ _ _} _.
Arguments b_header {_ _ _ _ _ _ _ _ _ _ _ _} _.
Arguments b_epoch {_ _ _ _ _ _ _ _ _ _ _ _} _.
Arguments b_leader {_ _ _ _ _ _ _ _ _ _ _ _} _.
Arguments b_justify {_ _ _ _ _ _ _ _ _ _ _ _} _.
Arguments b_extends {_ _ _ _ _ _ _ _ _ _ _ _} _.
Arguments b_upgrade {_ _ _ _ _ _ _ _ _ _ _ _} _.
Arguments b_evidence {_ _ _ _ _ _ _ _ _ _ _ _} _.
Arguments b_next_epoch {_ _ _ _ _ _ _ _ _ _ _ _} _.
Arguments b_drb {_ _ _ _ _ _ _ _ _ _ _ _} _.

Lemma publish_emits h cm share evidence parent_qc responses wait c p key :
  emits (publish_proposal cfg h cm share evidence parent_qc responses wait) c (PrInternal (QuorumProposalSend p key)) →
  key = pc_public_key cfg ∧
  sign (pc_private_key cfg) (as_ref (leaf2_commit (leaf2_from_quorum_proposal (proposal_data p)))) =
    Some (proposal_signature p) ∧
  let c1 := (publish_proposal cfg h cm share evidence parent_qc responses wait c).1.2 in
  ∃ parent st ver forming,
    built h cm (disperse_common (proposal_data share)) evidence parent_qc wait parent st c1 ver forming (proposal_data p).
Proof using Type.
  unfold publish_proposal. cbv zeta. intros H. apply fetching_then in H as ([parent st] & c1 & ev & Hpar%parent_leaf_run & H & ->).
  match type of H with emits ?rest _ _ => assert (keeps (eq c1) rest) as Hkeep by keeps_step end.
  rewrite <-(Hkeep c1 eq_refl). clear Hkeep.
  do 3 peel H. apply emits_silent in H as (forming & c2 & Hform & H); [|destruct (version_ge _ _); auto with hotshot].
  assert (c2 = c1 ∧ (if version_ge a0 Epochs then is_qc_forming_eqc c1 parent_qc else Some false) = Some forming) as [-> Hf].
  { destruct (version_ge a0 Epochs); [by apply finish_run in Hform as [? ->]|by apply ret_run in Hform as [-> ->]]. }
  do 2 peel H. case_bool_decide as Hlead; simpl in H; [|by apply emits_ret in H].
  do 2 peel H. apply list_elem_of_singleton in H. injection H as -> ->. bool_facts. simpl. subst.
  destruct (sign _ _) as [sig|] eqn:Hsig; [|done]. injection Hb4 as <-. split_and!; [done|done|].
  exists parent, st, a0, forming. split; try done. unfold leader. simpl. by rewrite Hb2.
Qed.

(** *** What a replica checks *)

(** A decided upgrade starts from the base version, as proposed ones do. *)
Definition from_base (lock : UpgradeLock) : Prop :=
  ∀ cert, decided_upgrade_certificate lock = Some cert → old_version (data cert) = Base.

Lemma version_agrees lock view v : from_base lock → version lock view = Ok v → version_infallible lock view = v.
Proof using Type.
  unfold from_base, version, version_infallible. destruct (decided_upgrade_certificate lock) as [cert|]; [|naive_solver].
  intros Hb. destruct (_ <=? view); [case_bool_decide; naive_solver|]. rewrite (Hb cert) by done. naive_solver.
Qed.

Lemma epoch_recalculated b number eh :
  option_epoch_from_block_number (bool_decide (is_Some (option_epoch_from_block_number b number eh))) number eh =
  option_epoch_from_block_number b number eh.
Proof using Type.
  destruct b; simpl; [|done]. destruct (eh =? 0) eqn:He; simpl; [done|].
  destruct (number mod eh =? 0) eqn:Hm; simpl; by rewrite He, Hm.
Qed.

Section Built.
Context {signed : PubKey → bytes → Prop} {Sl : SignatureLaws Sg signed}.
Context (h : ProposalDependencyHandle) (cm : CommitmentAndMetadata) (common : VidCommon) (evidence : option ViewChangeEvidence2).
Context (parent_qc : QuorumCertificate2) (wait : NextEpochWait) (parent : Leaf2) (st : ValidatedState) (c : Consensus).
Context (ver : Version) (forming : bool) (p : Proposal QuorumProposal2).
Hypothesis Hb : built h cm common evidence parent_qc wait parent st c ver forming (proposal_data p).
Hypothesis Hkey : from_private (pc_private_key cfg) = pc_public_key cfg.
Hypothesis Hbase : from_base (pc_lock cfg).
Hypothesis Hsign : sign (pc_private_key cfg) (as_ref (leaf2_commit (leaf2_from_quorum_proposal (proposal_data p)))) =
  Some (proposal_signature p).

Lemma built_epoch : validate_epoch (proposal_data p) (pc_lock cfg) (pc_epoch_height cfg) = Ok tt.
Proof using Hb Hbase.
  unfold validate_epoch, epochs_enabled. rewrite (b_view Hb).
  rewrite (version_agrees _ _ ver Hbase) by apply (b_version Hb).
  rewrite (b_epoch Hb). by rewrite bool_decide_true.
Qed.

Lemma built_signature : validate_signature p (pc_membership cfg) (pc_epoch_height cfg) = Ok tt.
Proof using All.
  unfold validate_signature. rewrite (b_epoch Hb), epoch_recalculated.
  rewrite <-(b_epoch Hb), (b_view Hb).
  rewrite (b_leader Hb). simpl. unfold validate. rewrite <-Hkey.
  by rewrite (sign_verify _ _ _ Hsign).
Qed.

(** The upgrade certificate of the parent is kept as long as it must be. *)
Lemma built_upgrade :
  (∀ cert, upgrade_certificate parent = Some cert → decided_upgrade_certificate (pc_lock cfg) = None ∨
     decided_upgrade_certificate (pc_lock cfg) = Some cert) →
  extends_upgrade (leaf2_from_quorum_proposal (proposal_data p)) parent (decided_upgrade_certificate (pc_lock cfg)) = Ok tt.
Proof using Hb.
  intros Hd. unfold extends_upgrade. simpl. rewrite (b_upgrade Hb), (b_view Hb).
  unfold upgrade_certificate_to_attach. destruct (upgrade_certificate parent) as [pc|]; [|by repeat case_match].
  destruct (Hd pc eq_refl) as [-> | ->]; unfold is_relevant; simpl.
  - rewrite orb_false_r. destruct (Z.leb_spec (h_view_number h) (decide_by (data pc))); simpl.
    + by rewrite bool_decide_true.
    + rewrite (proj2 (Z.ltb_lt (decide_by (data pc)) (h_view_number h))) by done. by rewrite orb_true_r.
  - rewrite (bool_decide_true (Some pc = Some pc)) by done. rewrite orb_true_r. simpl. by rewrite bool_decide_true.
Qed.

(** With a QC of the view before, or evidence, every replica that knows the same
    committee accepts the certificates of the proposal. *)
Lemma built_accepted c2 (info : ValidationInfo (M := M)) :
  vi_membership info = pc_membership cfg → vi_upgrade_lock info = pc_lock cfg → vi_epoch_height info = pc_epoch_height cfg →
  cur_view c2 <= h_view_number h →
  (view_number parent_qc = wrapper_sub (h_view_number h) 1 ∨
   ∃ e, evidence = Some e ∧ is_valid_for_view2 e (h_view_number h) = true ∧ evidence_valid e info) →
  validate_upgrade_certificate (p_upgrade_certificate (proposal_data p)) (pc_membership cfg) (p_epoch (proposal_data p))
    (pc_lock cfg) = Ok tt →
  validate_proposal_view_and_certs c2 p info = Ok tt.
Proof using All.
  intros Hm Hl He Hv Hev Hup. unfold validate_proposal_view_and_certs.
  rewrite (b_view Hb), (proj2 (Z.leb_le _ _) Hv). simpl.
  rewrite Hm, He, Hl, built_signature. simpl.
  rewrite (b_epoch Hb), epoch_recalculated, <-(b_epoch Hb), Hup.
  rewrite (b_justify Hb).
  destruct (Z.eqb_spec (view_number parent_qc) (wrapper_sub (h_view_number h) 1)) as [|Hne]; [done|].
  destruct Hev as [?|(e & -> & Hvalid & Hcert)]; [done|]. simpl.
  rewrite (b_evidence Hb), Hvalid. unfold validate_view_change_evidence. simpl.
  unfold evidence_valid in Hcert. rewrite Hm, Hl in Hcert. destruct e; simpl in *; rewrite Hvalid; simpl; by rewrite Hcert.
Qed.
End Built.

(** *** What the dependencies deliver *)

(** The event that starts a task is one of its view. *)
Definition starts (view : ViewNumber) (event : Event) : Prop :=
  ∀ d, completes event = Some d → dependency_view d event = Some view.

Lemma futures_events view event rx deps evs :
  starts view event → and_completed (futures view event rx deps) (Some evs) →
  (∀ e, e ∈ evs → ∃ d, d ∈ deps ∧ dependency_view d e = Some view) ∧
  (∀ d, d ∈ deps → ∃ e, e ∈ evs ∧ dependency_view d e = Some view).
Proof using Type.
  intros Hseed Hand%and_completed_some.
  assert (∀ d e, event_completed (seeded_dependency view event d) rx = Ready (Some e) → dependency_view d e = Some view) as Hd.
  { intros d e [H|(H & Hm & _)]%event_completed_match; unfold seeded_dependency in *;
      case_bool_decide as Hc; simpl in *; try done.
    - injection H as <-. by apply Hseed.
    - destruct (dependency_view d e); [|done]. by apply Z.eqb_eq in Hm as ->. }
  split.
  - intros e He. assert (Ready (Some e) ∈ futures view event rx deps) as Hin.
    { rewrite Hand. by apply list_elem_of_fmap_2 with (f := fun e => Ready (Some e)). }
    apply list_elem_of_fmap in Hin as (d & Heq & Hdin). eauto.
  - intros d Hin. assert (event_completed (seeded_dependency view event d) rx ∈ map (fun e => Ready (Some e)) evs) as Hf.
    { rewrite <-Hand. by apply (list_elem_of_fmap_2 (fun d => event_completed (seeded_dependency view event d) rx)). }
    apply list_elem_of_fmap in Hf as (e & Heq & He). eauto.
Qed.

Lemma and_members {A} (l : list (poll (option A))) (xs : list A) :
  l ≡ₚ map (fun e => Ready (Some e)) xs → ∀ x, x ∈ xs ↔ Ready (Some x) ∈ l.
Proof using Type.
  intros Hl x. rewrite Hl. rewrite list_elem_of_fmap. naive_solver.
Qed.

(** The events of a completed chain: those of the primary dependencies and of one
    secondary group. *)
Lemma chain_events view event rx res :
  starts view event → dependencies_completed view event rx res →
  ∃ group, group ∈ secondary_deps view ∧
    (∀ e, e ∈ mjoin (mjoin res) → ∃ d, d ∈ primary_deps ++ group ∧ dependency_view d e = Some view) ∧
    (∀ d, d ∈ primary_deps ++ group → ∃ e, e ∈ mjoin (mjoin res) ∧ dependency_view d e = Some view).
Proof using Type.
  intros Hseed [primary or_primary groups secondary both or_both res' Hp Hop Hg Hs Hb Hob Hr].
  destruct (futures_events _ _ _ _ _ Hseed Hp) as [Hp1 Hp2].
  apply or_completed_iff, list_elem_of_singleton in Hop. apply or_completed_iff, list_elem_of_singleton in Hob.
  injection Hop as ->. injection Hob as ->. apply and_completed_some in Hb, Hr. apply or_completed_iff in Hs.
  apply list_elem_of_lookup in Hs as [i Hi]. destruct (Forall2_lookup_r _ _ _ _ _ Hg Hi) as (group & Hgi & Hand).
  exists group. split; [by eapply list_elem_of_lookup_2|]. destruct (futures_events _ _ _ _ _ Hseed Hand) as [Hg1 Hg2].
  assert (∀ e, e ∈ mjoin (mjoin res') ↔ e ∈ primary ∨ e ∈ secondary) as Hmem.
  { intros e. rewrite list_elem_of_join. setoid_rewrite list_elem_of_join.
    setoid_rewrite (and_members _ _ Hr). setoid_rewrite list_elem_of_singleton.
    split.
    - intros (l & He & y & Hl & [= ->]). apply (and_members _ _ Hb) in Hl. set_solver.
    - intros [He|He]; [exists primary|exists secondary]; (split; [done|]); exists both; (split; [|done]);
        apply (and_members _ _ Hb); set_solver. }
  split; intros y; setoid_rewrite Hmem; setoid_rewrite elem_of_app; naive_solver.
Qed.

(** What the loop over the events finds in them. *)
Section Found.
Context {A : Type} (field : dep_results → option A) (found : Event → option A).
Hypothesis Hfield : ∀ r e, field (record_result r e) = match found e with Some a => Some a | None => field r end.

Lemma found_in l r a : field (foldl record_result r l) = Some a → field r = Some a ∨ ∃ e, e ∈ l ∧ found e = Some a.
Proof using Hfield.
  revert r. induction l as [|e l IH]; intros r; simpl; [by left|]. intros [H|(e' & ? & ?)]%IH; [|set_solver].
  rewrite Hfield in H. destruct (found e) eqn:He; [simplify_eq|by left]. right. exists e. set_solver.
Qed.

Lemma found_some l r e : e ∈ l → is_Some (found e) → is_Some (field (foldl record_result r l)).
Proof using Hfield.
  revert r. induction l as [|x l IH]; intros r; [by intros ?%elem_of_nil|]. simpl. intros [->|Hin]%elem_of_cons Hs; [|by apply IH].
  assert (is_Some (field (record_result r x))) as Hr by (rewrite Hfield; by destruct (found x), Hs).
  clear IH Hs. revert Hr. generalize (record_result r x). clear -Hfield. induction l as [|y l IH]; intros r Hr; [done|].
  simpl. apply IH. rewrite Hfield. by destruct (found y).
Qed.
End Found.

Definition found_qc (e : Event) : option QuorumCertificate2 := match e with Qc2Formed (inl qc) => Some qc | _ => None end.
Definition found_timeout (e : Event) : option TimeoutCertificate2 := match e with Qc2Formed (inr tc) => Some tc | _ => None end.
Definition found_view_sync (e : Event) : option ViewSyncFinalizeCertificate2 :=
  match e with ViewSyncFinalizeCertificateRecv cert => Some cert | _ => None end.

Lemma record_qc r e : r_parent_qc (record_result r e) = match found_qc e with Some a => Some a | None => r_parent_qc r end.
Proof using Type. by destruct e; try destruct c. Qed.
Lemma record_timeout r e :
  r_timeout_certificate (record_result r e) = match found_timeout e with Some a => Some a | None => r_timeout_certificate r end.
Proof using Type. by destruct e; try destruct c. Qed.
Lemma record_view_sync r e :
  r_view_sync_cert (record_result r e) = match found_view_sync e with Some a => Some a | None => r_view_sync_cert r end.
Proof using Type. by destruct e; try destruct c. Qed.

Lemma found_qc_inv e qc : found_qc e = Some qc → e = Qc2Formed (inl qc).
Proof using Type. by destruct e; try destruct c; intros [= ->]. Qed.
Lemma found_timeout_inv e tc : found_timeout e = Some tc → e = Qc2Formed (inr tc).
Proof using Type. by destruct e; try destruct c; intros [= ->]. Qed.
Lemma found_view_sync_inv e cert : found_view_sync e = Some cert → e = ViewSyncFinalizeCertificateRecv cert.
Proof using Type. by destruct e; intros [= ->]. Qed.

(** Certificates of machine-sized views; a timeout certificate is for its view. *)
Definition cert_wf (e : Event) : Prop :=
  match e with
  | Qc2Formed (inl qc) => is_u64 (view_number qc)
  | Qc2Formed (inr tc) => is_u64 (view_number tc) ∧ t2_view (data tc) = view_number tc
  | _ => True
  end.

Lemma add_sub_one x v : is_u64 x → wrapper_add x 1 = v → x = wrapper_sub v 1.
Proof using Type.
  unfold is_u64, wrapper_add, wrapper_sub, u64_add, u64_sub. intros Hx <-. rewrite Zminus_mod_idemp_l.
  replace (x + 1 - 1) with x by lia. by rewrite Z.mod_small.
Qed.

(** Every way to complete the dependencies justifies entering the view. *)
Lemma chain_justifies view event rx res :
  starts view event → dependencies_completed view event rx res → Forall cert_wf (mjoin (mjoin res)) →
  let r := foldl record_result no_results (mjoin (mjoin res)) in
  (∃ qc, r_parent_qc r = Some qc ∧ view_number qc = wrapper_sub view 1) ∨
  (∃ cert, r_view_sync_cert r = Some cert ∧ view_number cert = view) ∨
  (r_view_sync_cert r = None ∧ ∃ tc, r_timeout_certificate r = Some tc ∧ t2_view (data tc) = wrapper_sub view 1).
Proof using Type.
  intros Hseed Hdone Hwf. destruct (chain_events _ _ _ _ Hseed Hdone) as (group & Hgroup & Hev & Hdep).
  generalize dependent (mjoin (mjoin res)). intros l Hwf Hev Hdep r. rewrite Forall_forall in Hwf.
  assert (∀ qc, r_parent_qc r = Some qc → view_number qc = wrapper_sub view 1) as Hqc.
  { intros qc [?|(e & He & ->%found_qc_inv)]%(found_in _ _ record_qc); [done|].
    destruct (Hev _ He) as ([] & _ & Hd); try done. injection Hd as Hd. apply add_sub_one; [|done]. by apply (Hwf _ He). }
  assert (∀ cert, r_view_sync_cert r = Some cert → view_number cert = view) as Hvs.
  { intros cert [?|(e & He & ->%found_view_sync_inv)]%(found_in _ _ record_view_sync); [done|].
    destruct (Hev _ He) as ([] & _ & Hd); try done. by injection Hd. }
  assert (∀ tc, r_timeout_certificate r = Some tc → t2_view (data tc) = wrapper_sub view 1) as Htc.
  { intros tc [?|(e & He & ->%found_timeout_inv)]%(found_in _ _ record_timeout); [done|].
    destruct (Hev _ He) as ([] & _ & Hd); try done. injection Hd as Hd. destruct (Hwf _ He) as [? ->]. by apply add_sub_one. }
  assert (QcDep ∈ group ∨ ViewSyncCertDep ∈ group ∨ TimeoutCertDep ∈ group) as Hsome.
  { clear -Hgroup. unfold secondary_deps in Hgroup. rewrite !elem_of_cons, elem_of_nil in Hgroup.
    destruct Hgroup as [->|[->|[->|[]]]]; [right; right; left|right; left; left|left; case_match; left]. }
  destruct Hsome as [Hd|[Hd|Hd]]; destruct (Hdep _ (proj2 (elem_of_app _ _ _) (or_intror Hd))) as (e & He & Hv);
    destruct e; try done; try (destruct c; try done).
  - left. destruct (found_some _ _ record_qc l no_results _ He) as [qc Hq]; [done|]. eauto.
  - right; left. destruct (found_some _ _ record_view_sync l no_results _ He) as [qc Hq]; [done|]. eauto.
  - right. destruct (r_view_sync_cert r) as [cert|] eqn:Hc; [left; eauto|right].
    destruct (found_some _ _ record_timeout l no_results _ He) as [tc Hq]; [done|]. eauto.
Qed.

(** The certificate and the evidence that the results of the dependencies give. *)
Definition chosen_qc h (rounds : list (list (recv_result Event))) (r : dep_results) c ver : QuorumCertificate2 :=
  match r_parent_qc r with
  | Some qc => qc
  | None => if negb (version_ge ver Epochs) then high_qc c else wait_for_highest_qc cfg h rounds
  end.
Definition chosen_evidence (r : dep_results) : option ViewChangeEvidence2 :=
  match r_view_sync_cert r with Some cert => Some (ViewSync2 cert) | None => Timeout2 <$> r_timeout_certificate r end.

Lemma dep_result_emits h rounds responses wait res c o :
  emits (handle_dep_result cfg h rounds responses wait res) c o →
  let r := foldl record_result no_results (mjoin (mjoin res)) in
  ∃ ver cm share, version (pc_lock cfg) (h_view_number h) = Ok ver ∧
    r_commit_and_metadata r = Some cm ∧ r_vid_share r = Some share ∧
    let publish := publish_proposal cfg h cm share (chosen_evidence r) (chosen_qc h rounds r c ver) responses wait in
    emits publish c o ∧ (publish c).1.2 = (handle_dep_result cfg h rounds responses wait res c).1.2.
Proof using Type.
  unfold handle_dep_result. cbv zeta. set (r := foldl _ _ _). clearbody r.
  destruct (version (pc_lock cfg) (h_view_number h)) as [ver|e|]; [|by intros ?%emits_ret|by intros ?%elem_of_nil].
  intros H. peel H. destruct (r_commit_and_metadata r) as [cm|]; [|by apply emits_ret in H].
  destruct (r_vid_share r) as [share|]; [|by apply emits_ret in H].
  exists ver, cm, share. split_and!; [done..| |]; unfold emits, mbind, task_bind, logged in *; simpl;
    by destruct (publish_proposal _ _ _ _ _ _ _ _ c) as [[[]]].
Qed.

(** *** The tasks of a run *)

(** A dependency task is for a view that is not proposed yet, and starts on an event
    of that view; the highest certificate seen is a valid one, or the first. *)
Record tasks_inv (qc0 : QuorumCertificate2) s : Prop := {
  ti_task v t : proposal_dependencies s !! v = Some t →
    latest_proposed_view s < v ∧ h_view_number (pt_handle t) = v ∧ starts v (pt_event t) ∧
    ∃ ep, leader (pc_membership cfg) v ep = Ok (pc_public_key cfg);
  ti_qc : pr_highest_qc s = qc0 ∨
    valid_cert_in (pr_highest_qc s) (pc_membership cfg) (q2_epoch (data (pr_highest_qc s))) (pc_lock cfg) = Ok tt;
}.

(** The task beside the others. *)
Inductive qp_run s0 : QuorumProposalTaskState → Prop :=
  | qp_start : qp_run s0 s0
  | qp_event s e r s' out : qp_run s0 s → quorum_proposal_handle cfg e s = (r, s', out) → qp_run s0 s'
  | qp_other s c : qp_run s0 s → step (pr_consensus s) c → qp_run s0 (set_pr_consensus s c).

(** Progress never goes back. *)
Definition forward s s' : Prop :=
  latest_proposed_view s <= latest_proposed_view s' ∧ view_number (pr_highest_qc s) <= view_number (pr_highest_qc s').

(** Creating a task adds one, under its guards, or does nothing. *)
Lemma create_run view ep event ind s :
  let s' := (create_dependency_task_if_new cfg view ep event ind s).1.2 in
  s' = s ∨ ∃ t, s' = set_proposal_dependencies s (<[view := t]> (proposal_dependencies s)) ∧
    latest_proposed_view s < view ∧ proposal_dependencies s !! view = None ∧
    h_view_number (pt_handle t) = view ∧ pt_event t = event ∧ h_highest_qc (pt_handle t) = pr_highest_qc s ∧
    ∃ ep', leader (pc_membership cfg) view ep' = Ok (pc_public_key cfg).
Proof using Type.
  unfold create_dependency_task_if_new.
  destruct (leader (pc_membership cfg) view ep) as [k|e|] eqn:Hk; [|by left|by left].
  rewrite (bind_ok _ _ s k s) by done. cbv zeta.
  set (next := match ep with Some epoch => _ | None => _ end).
  assert ((∃ b, next s = (Ok b, s, []) ∧ (b = true → ∃ ep', leader (pc_membership cfg) view ep' = Ok (pc_public_key cfg))) ∨
    ∃ r, (∀ b, r ≠ Ok b) ∧ next s = (r, s, [])) as [(b & Hb & Hlead)|(r & Hr & Hb)].
  { unfold next. destruct ep as [epoch|]; [|left; by exists false]. destruct ind; [|left; by exists false].
    unfold mbind, task_bind, lift. destruct (leader _ view (Some (wrapper_add epoch 1))) as [k'|e|] eqn:Hk'; [left|right; exists (Err e); by split|right; exists Panic; by split].
    exists (bool_decide (k' = pc_public_key cfg)). split; [done|]. intros ->%bool_decide_eq_true. eauto. }
  2: { left. unfold mbind at 1, task_bind at 1. rewrite Hb. destruct r; naive_solver. }
  rewrite (bind_ok _ _ s b s) by done. destruct (bool_decide (k = pc_public_key cfg) || b) eqn:Hor; [|by left].
  rewrite (bind_ok _ _ s tt s) by done. rewrite (bind_ok _ _ s s s) by done.
  destruct (Z.ltb_spec (latest_proposed_view s) view) as [Hlt|]; [|by left]. rewrite (bind_ok _ _ s tt s) by done.
  destruct (bool_decide (is_Some (proposal_dependencies s !! view))) eqn:Hnew; [by left|].
  apply bool_decide_eq_false in Hnew. rewrite (bind_ok _ _ s tt s) by done. right. eexists.
  split_and!; [done|done|by apply eq_None_not_Some|done|done|done|].
  apply orb_true_iff in Hor as [->%bool_decide_eq_true|Hb']; [eauto|]. destruct b; [auto|done].
Qed.

Definition good qc0 s0 s : Prop := tasks_inv qc0 s ∧ forward s0 s.

Lemma create_keeps qc0 view ep event ind s0 :
  starts view event → keeps (good qc0 s0) (create_dependency_task_if_new cfg view ep event ind).
Proof using Type.
  intros Hseed s [Hs Hf]. destruct (create_run view ep event ind s) as [->|(t & -> & Hlt & Hnew & Hv & He & _ & Hl)]; [done|].
  split; [|done]. split; simpl; [|apply Hs].
  intros v t' [[<- <-]|[Hne Ht]]%lookup_insert_Some; [by rewrite He|by apply Hs].
Qed.

Lemma update_latest_good qc0 s0 s view : good qc0 s0 s → good qc0 s0 (update_latest_proposed_view s view).1.
Proof using Type.
  intros [Hs [Hf1 Hf2]]. unfold update_latest_proposed_view. destruct (Z.ltb_spec (latest_proposed_view s) view); simpl; [|done].
  split; [|split; simpl; [lia|done]]. split; simpl; [|apply Hs].
  intros v t [Ht Hn]%map_lookup_filter_Some. destruct (ti_task _ _ Hs v t Ht) as (? & ?). split; [|done]. simpl in *. lia.
Qed.

Lemma cancel_good qc0 s0 s view : good qc0 s0 s → good qc0 s0 (cancel_tasks s view).
Proof using Type.
  intros [Hs Hf]. split; [|done]. split; simpl; [|apply Hs]. intros v t [Ht _]%map_lookup_filter_Some. by apply Hs.
Qed.

Lemma handle_good qc0 s0 e : keeps (good qc0 s0) (quorum_proposal_handle cfg e).
Proof using Type.
  assert (∀ f, keeps (good qc0 s0) (write_pr_consensus f)) as Hw.
  { intros f. apply keeps_update. intros s s' Hs. destruct (f (pr_consensus s)); intros [= <-]. destruct Hs as [[? ?] ?]. by split. }
  assert (∀ f, (∀ s, good qc0 s0 s → good qc0 s0 (f s)) → keeps (good qc0 s0) (modify (Ev := ProposerOut) (E := Error) f)) as Hm
    by (intros; by apply keeps_modify).
  assert (∀ s f, (∀ s, proposal_dependencies (f s) = proposal_dependencies s ∧ pr_highest_qc (f s) = pr_highest_qc s ∧
    latest_proposed_view (f s) = latest_proposed_view s) → good qc0 s0 s → good qc0 s0 (f s)) as Hsame.
  { intros s f Hf [[H1 H2] H3]. destruct (Hf s) as (E1 & E2 & E3). split; [split|unfold forward]; by rewrite ?E1, ?E2, ?E3. }
  intros s Hs. unfold quorum_proposal_handle. rewrite (bind_ok _ _ s s s) by done. cbv zeta.
  assert (∀ m : task QuorumProposalTaskState ProposerOut Error unit, keeps (good qc0 s0) m → good qc0 s0 (m s).1.2) as Hk
    by (intros m Hm'; by apply Hm').
  destruct e; try done.
  - pose proof (update_latest_good qc0 s0 s (p_view_number (proposal_data p)) Hs) as Hu.
    destruct (update_latest_proposed_view _ _) as [s' b]. by destruct b.
  - destruct c as [qc|tc]; [apply Hk, keeps_bind; [unfold on_new_qc; keeps_step|intros _]|];
      apply Hk || idtac; by apply create_keeps; intros d [= <-].
  - destruct c; [|done]. apply Hk. unfold on_next_epoch_qc. keeps_step.
  - apply Hk. keeps_step; apply Hm; [|intros; by apply cancel_good]. intros s1.
    case_match; [|done]. by apply (Hsame s1 (fun s => set_pr_cur_epoch s epoch)).
  - apply Hk. apply keeps_bind; [auto with hotshot|intros _]. apply create_keeps. by intros d [= <-].
  - by apply cancel_good.
  - apply Hk, create_keeps. by intros d [= <-].
  - apply Hk, create_keeps. by intros d [= <-].
  - case_match; [|done]. by apply (Hsame s (fun s => set_formed_upgrade_certificate s (Some c))).
  - apply Hk. apply keeps_bind; [apply Hm; intros; by apply update_latest_good|intros _].
    apply create_keeps. by intros d [= <-].
  - destruct (Z.ltb_spec (view_number (pr_highest_qc s)) (view_number qc)); [|done]. rewrite (bind_ok _ _ s tt s) by done.
    unfold mbind, task_bind, with_context, lift. destruct (valid_cert_in _ _ _ _) as [[]|e|] eqn:Hc; simpl; [|done|done].
    destruct Hs as [[H1 H2] [H3 H4]]. split; [split|split]; simpl; [done|by right|done|lia].
Qed.

Lemma run_good s0 s : qp_run s0 s → proposal_dependencies s0 = ∅ → good (pr_highest_qc s0) s0 s.
Proof using Type.
  induction 1 as [|s e r s' out Hrun IH Hstep|s c Hrun IH Hstep]; intros H0.
  - split; [split|split]; [|by left|done|done]. intros v t. by rewrite H0, lookup_empty.
  - refine (keeps_run _ _ _ _ _ _ (handle_good _ _ e) (IH H0) Hstep).
  - destruct (IH H0) as [[H1 H2] H3]. by split.
Qed.

(** *** The leader's wait for high QCs *)

(** What the wait returns is the certificate it started with, or a valid one of a
    newer view. *)
Lemma wait_rounds_valid rounds qc :
  let qc' := wait_rounds cfg rounds qc in
  qc' = qc ∨ (view_number qc < view_number qc' ∧
    is_ok (valid_cert_in qc' (pc_membership cfg) (q2_epoch (data qc')) (pc_lock cfg)) = true).
Proof using Type.
  assert (∀ rx qc', wait_for_qc_event cfg rx = Ready (Some qc') →
    is_ok (valid_cert_in qc' (pc_membership cfg) (q2_epoch (data qc')) (pc_lock cfg)) = true) as Hvalid.
  { induction rx as [|[e|n|] rx IH]; intros qc'; simpl; try done. destruct e; try apply IH.
    destruct (is_ok _) eqn:Hok; [by intros [= ->]|apply IH]. }
  revert qc. induction rounds as [|rx rounds IH]; intros qc; simpl; [by left|].
  destruct (wait_for_qc_event cfg rx) as [|[x|]] eqn:Hw; [by left| |apply IH].
  destruct (Z.ltb_spec (view_number qc) (view_number x)); [|apply IH]. right.
  destruct (IH x) as [->|[? ?]]; [by eauto|]. split; [lia|done].
Qed.

(** Every clone of the receiver starts where the receiver stands, so each round
    reads the same first certificate: the later ones are never considered. *)
Lemma wait_takes_first rounds past qc key rest highest :
  (∀ rx, rx ∈ rounds → ∃ more, rx = past ++ Received (HighQcRecv qc key) :: rest ++ more) →
  wait_for_qc_event cfg (past ++ [Received (HighQcRecv qc key)]) = Ready (Some qc) → rounds ≠ [] →
  wait_rounds cfg rounds highest = if view_number highest <? view_number qc then qc else highest.
Proof using Type.
  intros Hall Hfirst. assert (∀ rest, wait_for_qc_event cfg (past ++ Received (HighQcRecv qc key) :: rest) = Ready (Some qc)) as Hw.
  { clear Hall. intros more. revert Hfirst. induction past as [|[e|n|] past' IH]; simpl; try done.
    - by destruct (is_ok _).
    - destruct e; try apply IH. by destruct (is_ok _); [intros [= ->]|apply IH]. }
  clear Hfirst. revert highest. induction rounds as [|rx rounds IH]; intros highest Hne; [done|]. simpl.
  destruct (Hall rx) as [more ->]; [left|]. rewrite Hw.
  destruct rounds as [|rx' rounds]; [done|]. rewrite IH; [|intros; apply Hall; by right|done].
  destruct (Z.ltb_spec (view_number highest) (view_number qc)); [by rewrite Z.ltb_irrefl|].
  by rewrite (proj2 (Z.ltb_ge _ _)).
Qed.

(** C7. Published proposals.  Take a run of the task in which a dependency task for view [v]
    was created, and let its dependencies complete.  A proposal it then publishes is for view
    [v], which has not been proposed or seen proposed before; the node leads [v] in the epoch
    of the proposal; the proposal extends a leaf that the node has, and keeps its upgrade
    certificate as the protocol demands, if the parent's does not conflict with the
    decided one; its epoch is valid; and every replica that knows the same committee and
    upgrade and is not past view [v] accepts its view, signature and certificates, provided
    that its view change evidence is valid, which the task does not check of the view sync
    certificates it receives, and that its upgrade certificate passes
    [validate_upgrade_certificate]. *)
Theorem proposals_are_justified {signed : PubKey → bytes → Prop} {Sl : SignatureLaws Sg signed}
    s0 s v t rx rounds responses wait res c p key :
  proposal_dependencies s0 = ∅ → qp_run s0 s → proposal_dependencies s !! v = Some t →
  from_private (pc_private_key cfg) = pc_public_key cfg → from_base (pc_lock cfg) →
  dependencies_completed v (pt_event t) rx res → Forall cert_wf (mjoin (mjoin res)) →
  emits (handle_dep_result cfg (pt_handle t) rounds responses wait res) c (PrInternal (QuorumProposalSend p key)) →
  let q := proposal_data p in
  let c' := (handle_dep_result cfg (pt_handle t) rounds responses wait res c).1.2 in
  latest_proposed_view s < v ∧ p_view_number q = v ∧ key = pc_public_key cfg ∧
  leader (pc_membership cfg) v (p_epoch q) = Ok key ∧
  (∃ parent st, parent_in c' (view_number (p_justify_qc q)) parent st ∧
     leaf2_commit parent = parent_commitment (leaf2_from_quorum_proposal q) ∧
     ((∀ cert, upgrade_certificate parent = Some cert → decided_upgrade_certificate (pc_lock cfg) = None ∨
         decided_upgrade_certificate (pc_lock cfg) = Some cert) →
      extends_upgrade (leaf2_from_quorum_proposal q) parent (decided_upgrade_certificate (pc_lock cfg)) = Ok tt)) ∧
  validate_epoch q (pc_lock cfg) (pc_epoch_height cfg) = Ok tt ∧
  ∀ c2 (info : ValidationInfo (M := M)),
    vi_membership info = pc_membership cfg → vi_upgrade_lock info = pc_lock cfg →
    vi_epoch_height info = pc_epoch_height cfg → cur_view c2 <= v →
    (∀ e, p_view_change_evidence q = Some e → evidence_valid e info) →
    validate_upgrade_certificate (p_upgrade_certificate q) (pc_membership cfg) (p_epoch q) (pc_lock cfg) = Ok tt →
    validate_proposal_view_and_certs c2 p info = Ok tt.
Proof using Type.
  intros Hempty Hrun Ht Hkey Hbase Hdone Hwf Hemit q c'.
  destruct (run_good s0 s Hrun Hempty) as [Hinv _].
  destruct (ti_task _ _ Hinv v t Ht) as (Hlt & Hview & Hseed & _).
  pose proof (chain_justifies v (pt_event t) rx res Hseed Hdone Hwf) as Hjust. cbv zeta in Hjust.
  destruct (dep_result_emits _ _ _ _ _ _ _ Hemit) as (ver & cm & share & _ & _ & _ & Hpub & Hst). fold c' in Hst.
  destruct (publish_emits _ _ _ _ _ _ _ _ _ _ Hpub) as (-> & Hsign & parent & st & ver' & forming & Hb).
  rewrite Hst in Hb. fold q in Hb, Hsign. set (r := foldl record_result no_results (mjoin (mjoin res))) in *.
  split_and!; [done|by rewrite (b_view Hb)|done|rewrite <-Hview; apply (b_leader Hb)| | |].
  - exists parent, st. rewrite (b_justify Hb). split_and!; [apply (b_parent Hb)| |by apply (built_upgrade _ _ _ _ _ _ _ _ _ _ _ _ Hb)].
    simpl. rewrite (b_justify Hb). symmetry. apply (b_extends Hb).
  - by eapply built_epoch.
  - intros c2 info Hm Hl He Hcur Hev Hup. refine (built_accepted _ _ _ _ _ _ _ _ _ _ _ _ Hb Hkey Hbase Hsign c2 info Hm Hl He _ _ Hup); [by rewrite Hview|].
    rewrite Hview. pose proof (b_evidence Hb) as Hqe. rewrite Hview in Hqe. destruct Hjust as [(qc & Hqc & Hv)|[(cert & Hc & Hv)|(Hn & tc & Hc & Hv)]].
    + left. unfold chosen_qc. by rewrite Hqc.
    + right. exists (ViewSync2 cert). unfold chosen_evidence in *. rewrite Hc in *. simpl in *.
      rewrite (proj2 (Z.eqb_eq _ _) Hv) in *. split_and!; [done..|by apply (Hev (ViewSync2 cert))].
    + right. exists (Timeout2 tc). unfold chosen_evidence in *. rewrite Hn, Hc in *. simpl in *.
      rewrite (proj2 (Z.eqb_eq _ _) Hv) in *. split_and!; [done..|by apply (Hev (Timeout2 tc))].
Qed.

(** *** The DRB result of the last block *)

(** The DRB result that a proposal carries.  The last block of epoch [e] is
    proposed with the leader's DRB result of epoch [e] itself; the voters compare it
    with their result of epoch [e + 1].  So every voter with stake in the epoch that
    knows a result of the next epoch different from the leader's result of this one
    fails to verify the proposal. *)
Theorem drb_result_is_of_old_epoch {Er : EpochRoots M} h rounds responses wait res c p key e :
  emits (handle_dep_result cfg h rounds responses wait res) c (PrInternal (QuorumProposalSend p key)) →
  let q := proposal_data p in
  let c' := (handle_dep_result cfg h rounds responses wait res c).1.2 in
  is_last_block_in_epoch (block_number (p_block_header q)) (pc_epoch_height cfg) = true → p_epoch q = Some e →
  p_next_drb_result q = results (drb_seeds_and_results c') !! e ∧
  ∀ (vcfg : VoteConfig) (s : QuorumVoteTaskState (M := M)) r,
    vc_epoch_height vcfg = pc_epoch_height cfg → qv_upgrade_lock s = pc_lock cfg → from_base (pc_lock cfg) →
    has_stake (qv_membership s) (vc_public_key vcfg) (Some e) = Ok true →
    results (drb_seeds_and_results (qv_consensus s)) !! wrapper_add e 1 = Some r →
    results (drb_seeds_and_results c') !! e ≠ Some r →
    ∃ err, verify_drb_result vcfg q s = (Err err, s, []).
Proof using Type.
  intros Hemit q c' Hlast Hep. destruct (dep_result_emits _ _ _ _ _ _ _ Hemit) as (ver & cm & share & _ & _ & _ & Hpub & Hst).
  destruct (publish_emits _ _ _ _ _ _ _ _ _ _ Hpub) as (-> & _ & parent & st & ver' & forming & Hb). rewrite Hst in Hb.
  fold c' q in Hb. assert (p_next_drb_result q = results (drb_seeds_and_results c') !! e) as Hdrb.
  { rewrite (b_drb Hb), Hep. unfold drb_result_to_attach. by rewrite Hlast. }
  split; [done|]. intros vcfg s r Heh Hlock Hbase Hstake Hr Hne.
  pose proof (b_epoch Hb) as Hcalc. rewrite Hep in Hcalc.
  assert (pc_epoch_height cfg ≠ 0) as Hz.
  { intros Hz. rewrite Hz in Hcalc. by destruct (version_ge _ _). }
  unfold verify_drb_result. cbv zeta. rewrite Heh, (proj2 (Z.eqb_neq _ _) Hz), Hlast. simpl.
  rewrite (bind_ok _ _ s s s) by done. rewrite Hdrb.
  destruct (results (drb_seeds_and_results c') !! e) as [r0|]; [|eexists; reflexivity].
  rewrite (bind_ok _ _ s r0 s) by done. rewrite Hlock. unfold epochs_enabled. rewrite (b_view Hb).
  rewrite (version_agrees _ _ ver' Hbase (b_version Hb)), <-Hcalc.
  rewrite (bind_ok _ _ s true s) by (unfold lift; by rewrite Hstake).
  unfold store_and_get_computed_drb_result.
  rewrite (bind_ok _ _ s r s).
  2: { rewrite (bind_ok _ _ s s s) by done. by rewrite Hr. }
  unfold require, lift. rewrite bool_decide_false by congruence. eexists; reflexivity.
Qed.
End ProposalProofs.

(** ** Witnesses *)

Module ProposerDemo.
#[local] Existing Instance StaticCommittee.
(** A header is the next block number and the payload commitment. *)
Definition headers : HeaderBuilder :=
  {| new_legacy _ _ parent commitment _ _ _ _ _ := Some (height parent + 1, commitment) : option BlockHeader;
     new_marketplace _ _ _ _ _ _ _ _ _ _ _ := None |}.
Definition cfg (lock : UpgradeLock) : ProposerConfig (M := Committee) :=
  {| pc_public_key := 20 : PubKey; pc_private_key := 20 : PrivKey; pc_membership := Demo.committee; pc_lock := lock;
     pc_epoch_height := 10; pc_instance_state := tt : InstanceState; pc_storage := vi_storage ValidationDemo.info;
     pc_headers := headers; pc_key_to_bytes := VoteDemo.key_bytes |}.
Definition start (c : Consensus) : QuorumProposalTaskState :=
  {| latest_proposed_view := 0; pr_cur_epoch := None; proposal_dependencies := ∅; pr_consensus := c;
     formed_upgrade_certificate := None; pr_highest_qc := high_qc c |}.
(** Node 20 leads view 1, whose QC is the first one. *)
Definition qc_event : Event := Qc2Formed (inl (high_qc ConsDemo.start)).
Definition payload (view : ViewNumber) : Event :=
  SendPayloadCommitmentAndMetadata ([7] : VidCommitment) (tt : BuilderCommitment) (tt : Metadata) view [NetDemo.fee] None.
Definition disperse (view : ViewNumber) : Event :=
  VidDisperseSend {| proposal_data := DisperseV0 {| ad_view_number := view; ad_epoch := None; ad_target_epoch := None;
    ad_payload_commitment := [7] : VidCommitment; ad_data_epoch_payload_commitment := None; ad_shares := ∅;
    ad_common := tt : VidCommon |}; proposal_signature := [] : Sig |} (20 : PubKey).
Definition created := quorum_proposal_handle (cfg UpgradeLock_new) qc_event (start ConsDemo.start).
Definition dep_task : ProposalTask :=
  {| pt_handle := {| h_latest_proposed_view := 0; h_view_number := 1; h_formed_upgrade_certificate := None;
                     h_highest_qc := high_qc ConsDemo.start |}; pt_event := qc_event |}.
Definition wait (c : Consensus) : NextEpochWait := {| nw_events := None; nw_consensus := c |}.
Definition proposed (lock : UpgradeLock) (h : ProposalDependencyHandle) (c : Consensus) (res : list (list (list Event))) :=
  handle_dep_result (cfg lock) h [] [] (wait c) res c.
Definition proposal_of (out : list ProposerOut) : option (Proposal QuorumProposal2) :=
  match out with [PrInternal (QuorumProposalSend p _)] => Some p | _ => None end.
Definition results1 : list (list (list Event)) := [[[payload 1; disperse 1]; [qc_event]]].

Lemma completed1 : dependencies_completed 1 qc_event [Received (payload 1); Received (disperse 1)] results1.
Proof.
  apply (dependencies_done _ _ _ [payload 1; disperse 1] [payload 1; disperse 1] [Pending; Pending; Ready (Some [qc_event])]
    [qc_event] [[payload 1; disperse 1]; [qc_event]] [[payload 1; disperse 1]; [qc_event]]).
  1, 5, 7: by apply and_completed_some.
  1, 4: by apply or_completed_iff; left.
  - repeat constructor. by apply and_completed_some.
  - apply or_completed_iff. by right; right; left.
Qed.
End ProposerDemo.

#[local] Existing Instance StaticCommittee.

Lemma proposals_are_justified_witness :
  ∃ p, ProposerDemo.proposal_of (ProposerDemo.proposed UpgradeLock_new (pt_handle ProposerDemo.dep_task) ConsDemo.start
         ProposerDemo.results1).2 = Some p ∧
    validate_epoch (proposal_data p) UpgradeLock_new 10 = Ok tt ∧
    ∀ info, vi_membership info = Demo.committee → vi_upgrade_lock info = UpgradeLock_new → vi_epoch_height info = 10 →
      validate_proposal_view_and_certs ConsDemo.start p info = Ok tt.
Proof.
  eexists. split; [reflexivity|]. refine ((fun H => _) (proposals_are_justified (ProposerDemo.cfg UpgradeLock_new)
    (Sl := Ideal.open_laws) (ProposerDemo.start ConsDemo.start) ProposerDemo.created.1.2 1 ProposerDemo.dep_task
    [Received (ProposerDemo.payload 1); Received (ProposerDemo.disperse 1)] [] [] (ProposerDemo.wait ConsDemo.start)
    ProposerDemo.results1 ConsDemo.start _ _ eq_refl _ _ eq_refl _ ProposerDemo.completed1 _ _)).
  - destruct H as (_ & _ & _ & _ & _ & He & Hv). split; [exact He|]. intros info H1 H2 H3. apply Hv; [done|done|done|by compute|done|reflexivity].
  - apply (qp_event _ _ (ProposerDemo.start ConsDemo.start) ProposerDemo.qc_event ProposerDemo.created.1.1 _ ProposerDemo.created.2); [constructor|reflexivity].
  - reflexivity.
  - by intros cert.
  - repeat constructor; by compute.
  - left.
Defined.

Module DrbProposalDemo.
Definition lock : UpgradeLock := UpgradeLock_from_certificate (Some DataDemo.upgrade).
Definition with_results (m : gmap EpochNumber bytes) : Consensus :=
  set_drb_seeds_and_results ConsDemo.start {| seeds := ∅; results := m |}.
Definition handle : ProposalDependencyHandle :=
  {| h_latest_proposed_view := 30; h_view_number := 31; h_formed_upgrade_certificate := None;
     h_highest_qc := high_qc ConsDemo.start |}.
Definition res : list (list (list Event)) := [[[ProposerDemo.payload 31; ProposerDemo.disperse 31]; [ProposerDemo.qc_event]]].
Definition voter : QuorumVoteTaskState (M := Committee) := VoteDemo.start (with_results {[2 := [9]]}) lock ∅.
Definition proposer : Consensus := with_results {[1 := [5]]}.
(** Block 10, the last of epoch 1. *)
Definition data31 : QuorumProposal2 :=
  {| p_block_header := (10, [7]) : BlockHeader; p_view_number := 31; p_epoch := Some 1;
     p_justify_qc := high_qc ConsDemo.start; p_next_epoch_justify_qc := None; p_upgrade_certificate := None;
     p_view_change_evidence := None; p_next_drb_result := Some [5] |}.
Lemma published : ∃ sig,
  emits (handle_dep_result (ProposerDemo.cfg lock) handle [] [] (ProposerDemo.wait proposer) res) proposer
    (PrInternal (QuorumProposalSend {| proposal_data := data31; proposal_signature := sig |} 20)).
Proof. eexists. left. Qed.

Lemma final : results (drb_seeds_and_results
  (handle_dep_result (ProposerDemo.cfg lock) handle [] [] (ProposerDemo.wait proposer) res proposer).1.2) !! 1 = Some [5].
Proof. by vm_compute. Qed.
End DrbProposalDemo.

Lemma drb_result_is_of_old_epoch_witness :
  ∃ err, verify_drb_result VoteDemo.cfg DrbProposalDemo.data31 DrbProposalDemo.voter = (Err err, DrbProposalDemo.voter, []).
Proof.
  destruct DrbProposalDemo.published as [sig Hsent].
  destruct (drb_result_is_of_old_epoch (ProposerDemo.cfg DrbProposalDemo.lock) DrbProposalDemo.handle [] []
    (ProposerDemo.wait DrbProposalDemo.proposer) DrbProposalDemo.res DrbProposalDemo.proposer _ 20 1 Hsent eq_refl eq_refl)
    as [_ Hv].
  apply (Hv VoteDemo.cfg DrbProposalDemo.voter [9]); [reflexivity|reflexivity|by intros cert [= <-]|reflexivity|reflexivity|].
  rewrite DrbProposalDemo.final. discriminate.
Defined.
