(* ===== verification/Transactions.v ===== *)
(** * The transaction task

    [task-impls/src/transactions.rs]: on a view change to a view it leads, the node
    gets a block from the builders, or makes an empty one.  With the messages of
    [builder-api/src/v0_1/block_info.rs], [Bundle] of [types/src/bundle.rs], the
    builder's signatures of [types/src/traits/signature_key.rs] and the null block of
    [types/src/data.rs].

    The builders, the solver and the clock are outside.  [BlockAnswers] is what they
    answer: the consensus state at each try to find the parent block, and one
    [Attempt] for each query made before the timeout. *)

From S2P Require Import Prelude Epochs Crypto Committee Votes Certificates VoteAccumulator VoteCollection Data Vid Consensus ConsensusProofs Task Message Events Network.
Import Ev.

(** What the application and the builders' key type provide. *)
Class BuilderApi `{Bu : BuilderTypes} := {
  BuilderPrivateKey : Type;
  Url : Type;
  validate_builder_signature : BuilderKey → BuilderSignature → bytes → bool;
  (** [None]: an error *)
  sign_builder_message : BuilderPrivateKey → bytes → option BuilderSignature;
  generated_from_seed_indexed : bytes → Z → BuilderKey * BuilderPrivateKey;
  metadata_encode : Metadata → bytes;
  builder_commitment_as_ref : BuilderCommitment → bytes;
  (** [BlockPayload::from_transactions] *)
  from_transactions : list Transaction → ValidatedState → InstanceState → option (BlockPayload * Metadata);
  urls : AuctionResult → list Url;
  auction_default : AuctionResult;
}.

(** [u64::to_be_bytes] *)
Definition to_be_bytes (x : Z) : bytes := map (fun i => (x / 256 ^ i) mod 256) [7; 6; 5; 4; 3; 2; 1; 0].

Section Builders.
Context `{Sg : SignatureScheme} `{Cm : Committable} `{Vt : VidTypes} `{Vs : Versions}.
Context `{Bt : !BlockTypes} `{Vd : !VidScheme} `{Bu : !BuilderTypes} `{Ba : !BuilderApi}.
Context {M : Type} `{Mb : !Membership M}.

(** ** Signatures of builders *)

Definition aggregate_fee_data (fee_amount : Z) (metadata : Metadata) (vid_commitment : VidCommitment) : bytes :=
  to_be_bytes fee_amount ++ metadata_encode metadata ++ vid_as_ref vid_commitment.
Definition aggregate_fee_data_marketplace (fee_amount view_number : Z) : bytes :=
  to_be_bytes fee_amount ++ to_be_bytes view_number.
Definition aggregate_block_info_data (block_size fee_amount : Z) (payload_commitment : BuilderCommitment) : bytes :=
  to_be_bytes block_size ++ to_be_bytes fee_amount ++ builder_commitment_as_ref payload_commitment.

Definition validate_fee_signature (key : BuilderKey) (signature : BuilderSignature) (fee_amount : Z)
    (metadata : Metadata) (vid_commitment : VidCommitment) : bool :=
  validate_builder_signature key signature (aggregate_fee_data fee_amount metadata vid_commitment).
Definition validate_block_info_signature (key : BuilderKey) (signature : BuilderSignature) (block_size fee_amount : Z)
    (payload_commitment : BuilderCommitment) : bool :=
  validate_builder_signature key signature (aggregate_block_info_data block_size fee_amount payload_commitment).
Definition sign_fee (private_key : BuilderPrivateKey) (fee_amount : Z) (metadata : Metadata)
    (vid_commitment : VidCommitment) : option BuilderSignature :=
  sign_builder_message private_key (aggregate_fee_data fee_amount metadata vid_commitment).
Definition sign_sequencing_fee_marketplace (private_key : BuilderPrivateKey) (fee_amount view_number : Z)
    : option BuilderSignature :=
  sign_builder_message private_key (aggregate_fee_data_marketplace fee_amount view_number).

(** ** The null block *)

Definition null_commitment (num_storage_nodes : Z) : option VidCommitment := vid_commit_only num_storage_nodes [].

(** [null_block::builder_fee] *)
Definition null_builder_fee (num_storage_nodes : Z) (version : Version) (view_number : Z) : option BuilderFee :=
  let '(pub_key, priv_key) := generated_from_seed_indexed (replicate 32 0) 0 in
  sig ← (if version_ge version Marketplace then sign_sequencing_fee_marketplace priv_key 0 view_number
         else
           let '(_, null_block_metadata) := empty_block in
           comm ← null_commitment num_storage_nodes; sign_fee priv_key 0 null_block_metadata comm);
  Some {| fee_amount := 0; fee_account := pub_key; fee_signature := sig |}.

(** ** The builder's messages *)

Record AvailableBlockInfo := {
  bi_block_hash : BuilderCommitment;
  bi_block_size : Z;
  bi_offered_fee : Z;
  bi_signature : BuilderSignature;
  bi_sender : BuilderKey;
}.

Record AvailableBlockData := {
  bd_block_payload : BlockPayload;
  bd_metadata : Metadata;
  bd_signature : BuilderSignature;
  bd_sender : BuilderKey;
}.

Definition validate_block_data (d : AvailableBlockData) : bool :=
  let builder_commitment := builder_commitment (bd_block_payload d) (bd_metadata d) in
  validate_builder_signature (bd_sender d) (bd_signature d) (builder_commitment_as_ref builder_commitment).

Record AvailableBlockHeaderInput := {
  hi_vid_commitment : VidCommitment;
  hi_fee_signature : BuilderSignature;
  hi_message_signature : BuilderSignature;
  hi_sender : BuilderKey;
}.

Definition validate_header_input (h : AvailableBlockHeaderInput) (offered_fee : Z) (metadata : Metadata) : bool :=
  validate_builder_signature (hi_sender h) (hi_message_signature h) (vid_as_ref (hi_vid_commitment h)) &&
  validate_fee_signature (hi_sender h) (hi_fee_signature h) offered_fee metadata (hi_vid_commitment h).

Record Bundle := {
  bu_transactions : list Transaction;
  bu_signature : BuilderSignature;
  bu_sequencing_fee : BuilderFee;
}.

Record BuilderResponse := {
  br_fee : BuilderFee;
  br_block_payload : BlockPayload;
  br_metadata : Metadata;
}.

(** ** The task *)

Record TransactionTaskConfig := {
  tx_public_key : PubKey;
  tx_private_key : PrivKey;
  tx_membership : M;
  tx_lock : UpgradeLock;
  tx_instance_state : InstanceState;
  tx_builder_clients : nat;
  tx_fallback_builder_url : Url;
}.
Context (cfg : TransactionTaskConfig).

Record TransactionTaskState := {
  tx_cur_view : ViewNumber;
  tx_cur_epoch : option EpochNumber;
}.

(** The answers to one round of queries: the lists of blocks in the order in which
    the builders answer, how many arrive before the cutoff and in the extra time,
    and the answers to the claims of a block. *)
Inductive Attempt :=
  | QueryTimeout
  | Query (arrivals : list (option (list AvailableBlockInfo) * nat)) (main extra : nat)
      (claim_block : nat → BuilderCommitment → option AvailableBlockData)
      (claim_block_header_input : nat → BuilderCommitment → option AvailableBlockHeaderInput).

Record BlockAnswers := {
  (** The first state, and those of the retries. *)
  ba_states : Consensus * list Consensus;
  ba_attempts : list Attempt;
  (** [None]: no answer in time; [Some None]: an error *)
  ba_auction : option (option AuctionResult);
  ba_bundles : Url → option Bundle;
  ba_decided : Consensus;
}.

Inductive TransactionOut :=
  | TxInternal (e : Event)
  | TxTransactions (view : ViewNumber) (transactions : list Transaction).

(** *** The parent block *)

Fixpoint last_vid_loop (fuel : nat) (c : Consensus) (target_view : ViewNumber)
    : option (outcome Error (ViewNumber * VidCommitment)) :=
  match fuel with
  | O => None
  | S fuel =>
      match validated_state_map c !! target_view with
      | None => Some (Err "Missing record for view in validated state")
      | Some (Consensus.Da payload_commitment _) => Some (Ok (target_view, payload_commitment))
      | Some (LeafView leaf_commitment _ _ _) =>
          Some (match saved_leaves c !! leaf_commitment with
                | Some leaf => Ok (target_view, payload_commitment leaf)
                | None => Err "Missing leaf with commitment for view in saved_leaves"
                end)
      | Some Failed =>
          if target_view =? 0 then Some (Err "Reached genesis.")
          else last_vid_loop fuel c (target_view - 1)
      end
  end.

(** A failed view is skipped; the fuel is the number of views down to the first. *)
Definition last_vid_commitment (c : Consensus) (block_view : ViewNumber)
    : option (outcome Error (ViewNumber * VidCommitment)) :=
  let target_view := saturating_sub block_view 1 in
  last_vid_loop (S (Z.to_nat target_view)) c target_view.

Fixpoint last_vid_commitment_retry (c : Consensus) (retries : list Consensus) (block_view : ViewNumber)
    : option (outcome Error (ViewNumber * VidCommitment)) :=
  match last_vid_commitment c block_view with
  | Some (Err e) =>
      match retries with
      | [] => Some (Err e)
      | c :: retries => last_vid_commitment_retry c retries block_view
      end
  | r => r
  end.

(** *** Blocks from builders *)

(** [(n * 2).div_ceil(3)] *)
Definition main_batch_threshold (n : nat) : nat := ((n * 2 + 2) / 3)%nat.

(** The answers of the first batch up to its cutoff, and those of the extra time;
    errors are dropped, and every block comes with its builder. *)
Definition get_available_blocks (arrivals : list (option (list AvailableBlockInfo) * nat)) (main extra : nat)
    : list (AvailableBlockInfo * nat) :=
  let threshold := main_batch_threshold (tx_builder_clients cfg) in
  let results := take (Nat.min threshold main + extra) arrivals in
  mjoin (map (fun '(result, builder_idx) =>
    match result with
    | Some blocks => map (fun block_info => (block_info, builder_idx)) blocks
    | None => []
    end) results).

(** Not more fee per byte. *)
Definition fee_per_byte_le (l r : AvailableBlockInfo) : bool :=
  bi_offered_fee l * bi_block_size r <=? bi_offered_fee r * bi_block_size l.

(** [sort_by], which is stable. *)
Fixpoint insert_block (x : AvailableBlockInfo * nat) (l : list (AvailableBlockInfo * nat))
    : list (AvailableBlockInfo * nat) :=
  match l with
  | [] => [x]
  | y :: l => if fee_per_byte_le x.1 y.1 then x :: y :: l else y :: insert_block x l
  end.
Definition sort_blocks (l : list (AvailableBlockInfo * nat)) : list (AvailableBlockInfo * nat) := foldr insert_block [] l.

(** Claim one block: [None] for each [continue]. *)
Definition claim (claim_block : nat → BuilderCommitment → option AvailableBlockData)
    (claim_block_header_input : nat → BuilderCommitment → option AvailableBlockHeaderInput)
    (block_info : AvailableBlockInfo) (builder_idx : nat) : option BuilderResponse :=
  if negb (validate_block_info_signature (bi_sender block_info) (bi_signature block_info) (bi_block_size block_info)
             (bi_offered_fee block_info) (bi_block_hash block_info)) then None
  else
    _request_signature ← sign (tx_private_key cfg) (builder_commitment_as_ref (bi_block_hash block_info));
    block_data ← claim_block builder_idx (bi_block_hash block_info);
    header_input ← claim_block_header_input builder_idx (bi_block_hash block_info);
    if negb (validate_block_data block_data) then None
    else if negb (validate_header_input header_input (bi_offered_fee block_info) (bd_metadata block_data)) then None
    else Some {| br_fee := {| fee_amount := bi_offered_fee block_info; fee_account := hi_sender header_input;
                              fee_signature := hi_fee_signature header_input |};
                 br_block_payload := bd_block_payload block_data; br_metadata := bd_metadata block_data |}.

Fixpoint claim_first (claim : AvailableBlockInfo → nat → option BuilderResponse)
    (available_blocks : list (AvailableBlockInfo * nat)) : outcome Error BuilderResponse :=
  match available_blocks with
  | [] => Err "Couldn't claim a block from any of the builders"
  | (block_info, builder_idx) :: available_blocks =>
      match claim block_info builder_idx with
      | Some response => Ok response
      | None => claim_first claim available_blocks
      end
  end.

Definition block_from_builder arrivals main extra claim_block claim_block_header_input : outcome Error BuilderResponse :=
  let available_blocks := sort_blocks (get_available_blocks arrivals main extra) in
  match available_blocks with
  | [] => Err "No available blocks"
  | _ => claim_first (claim claim_block claim_block_header_input) available_blocks
  end.

Fixpoint try_builders (attempts : list Attempt) : option BuilderResponse :=
  match attempts with
  | [] | QueryTimeout :: _ => None
  | Query arrivals main extra claim_block claim_block_header_input :: attempts =>
      match block_from_builder arrivals main extra claim_block claim_block_header_input with
      | Ok block => Some block
      | _ => try_builders attempts
      end
  end.

Abbreviation block_task := (task TransactionTaskState TransactionOut Error).

Definition wait_for_block (ans : BlockAnswers) (block_view : ViewNumber) : block_task (option BuilderResponse) :=
  parent ← finish (last_vid_commitment_retry (ba_states ans).1 (ba_states ans).2 block_view);
  match parent with
  | Ok (parent_view, parent_comm) =>
      match sign (tx_private_key cfg) (vid_as_ref parent_comm) with
      | Some _ => mret (try_builders (ba_attempts ans))
      | None => mret None
      end
  | _ => mret None
  end.

(** *** Handlers *)

Definition between_versions (view : ViewNumber) : bool :=
  match decided_upgrade_certificate (tx_lock cfg) with
  | Some cert => upgrading_in cert view
  | None => false
  end.

Definition PackedBundle_new (encoded_transactions : bytes) (metadata : Metadata) (view : ViewNumber)
    (epoch : option EpochNumber) (fees : list BuilderFee) (auction : option AuctionResult) : PackedBundle :=
  {| pb_encoded_transactions := encoded_transactions; pb_metadata := metadata; pb_view_number := view;
     pb_epoch_number := epoch; pb_sequencing_fees := fees; pb_auction_result := auction |}.

Definition handle_view_change_legacy (ans : BlockAnswers) (block_view : ViewNumber) (block_epoch : option EpochNumber)
    : block_task unit :=
  match version (tx_lock cfg) block_view with
  | Panic => lift Panic
  | Err _ => mret tt
  | Ok version =>
      block ← (if between_versions block_view then mret None else wait_for_block ans block_view);
      match block with
      | Some b =>
          emit (TxInternal (BlockRecv (PackedBundle_new (payload_encode (br_block_payload b)) (br_metadata b)
                                         block_view block_epoch [br_fee b] None)))
      | None =>
          s ← get;
          membership_total_nodes ← lift (total_nodes (tx_membership cfg) (tx_cur_epoch s));
          match null_builder_fee membership_total_nodes version block_view with
          | None => mret tt
          | Some null_fee =>
              emit (TxInternal (BlockRecv (PackedBundle_new [] empty_block.2 block_view block_epoch [null_fee] None)))
          end
      end
  end.

Definition produce_block_marketplace (ans : BlockAnswers) (block_view : ViewNumber) (block_epoch : option EpochNumber)
    : block_task PackedBundle :=
  _ ← require (negb (between_versions block_view)) "Not requesting block because we are upgrading";
  parent ← finish (last_vid_commitment_retry (ba_states ans).1 (ba_states ans).2 block_view);
  _ ← with_context parent "Failed to find parent hash in time";
  maybe_auction_result ← lift (ok_or (ba_auction ans) "Timeout while getting auction result");
  let auction_result := default auction_default maybe_auction_result in
  let builder_urls := urls auction_result ++ [tx_fallback_builder_url cfg] in
  let bundles := omap (ba_bundles ans) builder_urls in
  let sequencing_fees := map bu_sequencing_fee bundles in
  let transactions := mjoin (map bu_transactions bundles) in
  validated_state ← lift (decided_state (ba_decided ans));
  _ ← require (negb (bool_decide (sequencing_fees = []))) "Failed to receive a bundle from any builder.";
  '(block_payload, metadata) ← lift (ok_or (from_transactions transactions validated_state (tx_instance_state cfg))
                                      "Failed to construct block payload");
  mret (PackedBundle_new (payload_encode block_payload) metadata block_view block_epoch sequencing_fees
          (Some auction_result)).

Definition null_block (block_view : ViewNumber) (block_epoch : option EpochNumber) (version : Version)
    : block_task (option PackedBundle) :=
  s ← get;
  membership_total_nodes ← lift (total_nodes (tx_membership cfg) (tx_cur_epoch s));
  mret (null_fee ← null_builder_fee membership_total_nodes version block_view;
        Some (PackedBundle_new [] empty_block.2 block_view block_epoch [null_fee] (Some auction_default))).

Definition handle_view_change_marketplace (ans : BlockAnswers) (block_view : ViewNumber)
    (block_epoch : option EpochNumber) : block_task unit :=
  match version (tx_lock cfg) block_view with
  | Panic => lift Panic
  | Err _ => mret tt
  | Ok version =>
      produced ← ok_result (produce_block_marketplace ans block_view block_epoch);
      packed_bundle ← match produced with
                      | Some b => mret (Some b)
                      | None => null_block block_view block_epoch version
                      end;
      match packed_bundle with
      | Some b => emit (TxInternal (BlockRecv b))
      | None => mret tt
      end
  end.

Definition handle_view_change (ans : BlockAnswers) (block_view : ViewNumber) (block_epoch : option EpochNumber)
    : block_task unit :=
  match version (tx_lock cfg) block_view with
  | Panic => lift Panic
  | Err _ => mret tt
  | Ok version =>
      if negb (version_ge version Marketplace) then handle_view_change_legacy ans block_view block_epoch
      else handle_view_change_marketplace ans block_view block_epoch
  end.

(** No new block while an extended QC is being formed.  Nothing calls it. *)
Definition handle_view_change_epochs (c : Consensus) (ans : BlockAnswers) (block_view : ViewNumber)
    (block_epoch : option EpochNumber) : block_task unit :=
  forming ← finish (is_high_qc_forming_eqc c);
  if (forming : bool) then mret tt else handle_view_change_marketplace ans block_view block_epoch.

(** The view and epoch a view change is taken to. *)
Definition block_view_of (view : ViewNumber) : ViewNumber := Z.max 1 view.
Definition block_epoch_of (view : ViewNumber) (epoch : option EpochNumber) : option EpochNumber :=
  if epochs_enabled (tx_lock cfg) view then Some (Z.max 1 (default 0 epoch)) else epoch.

Definition transactions_handle (ans : BlockAnswers) (event : Event) : block_task unit :=
  match event with
  | TransactionsRecv transactions => s ← get; emit (TxTransactions (tx_cur_view s) transactions)
  | ViewChange view epoch =>
      let view := block_view_of view in
      let epoch := block_epoch_of view epoch in
      s ← get;
      _ ← require ((tx_cur_view s <? view) && negb (epoch_gt (tx_cur_epoch s) epoch))
            "Received a view change to an older view and epoch";
      _ ← modify (fun _ => {| tx_cur_view := view; tx_cur_epoch := epoch |});
      leader ← lift (leader (tx_membership cfg) view epoch);
      if bool_decide (leader = tx_public_key cfg) then handle_view_change ans view epoch else mret tt
  | _ => mret tt
  end.
End Builders.

(** ** Properties *)

Section TransactionProofs.
Context `{Sg : SignatureScheme} `{Cm : Committable} `{Vt : VidTypes} `{Vs : Versions}.
Context `{Bt : !BlockTypes} `{Vd : !VidScheme} `{Bu : !BuilderTypes} `{Ba : !BuilderApi}.
Context {M : Type} `{Mb : !Membership M}.
Context (cfg : TransactionTaskConfig (M := M)).
Implicit Types (c : Consensus) (s : TransactionTaskState) (ans : BlockAnswers).

(** *** The parent block *)

(** The block that is known for a view. *)
Definition block_of c (view : ViewNumber) (comm : VidCommitment) : Prop :=
  match validated_state_map c !! view with
  | Some (Consensus.Da payload_commitment _) => payload_commitment = comm
  | Some (LeafView h _ _ _) => payload_commitment <$> saved_leaves c !! h = Some comm
  | _ => False
  end.

(** The latest view up to [v] with a block, after failed views only. *)
Definition latest_block c (v w : ViewNumber) (comm : VidCommitment) : Prop :=
  0 <= w <= v ∧ block_of c w comm ∧ ∀ u, w < u <= v → validated_state_map c !! u = Some Failed.

Lemma latest_here c v w comm :
  0 <= v → validated_state_map c !! v ≠ Some Failed → latest_block c v w comm ↔ w = v ∧ block_of c v comm.
Proof using Type.
  intros Hv Hn. split.
  - intros (Hle & Hb & Hall). destruct (decide (w = v)) as [->|]; [done|]. destruct Hn. apply Hall. lia.
  - intros [-> Hb]. split_and!; [lia..|done|]. intros u. lia.
Qed.

Lemma latest_before c v w comm :
  validated_state_map c !! v = Some Failed → 0 <= v → latest_block c v w comm ↔ latest_block c (v - 1) w comm.
Proof using Type.
  intros Hm Hv. unfold latest_block. split.
  - intros (Hle & Hb & Hall). assert (w ≠ v) by (intros ->; unfold block_of in Hb; by rewrite Hm in Hb).
    split_and!; [lia..|done|]. intros u Hu. apply Hall. lia.
  - intros (Hle & Hb & Hall). split_and!; [lia..|done|]. intros u Hu.
    destruct (decide (u = v)) as [->|]; [done|]. apply Hall. lia.
Qed.

Lemma last_vid_loop_spec fuel c v :
  0 <= v → (Z.to_nat v < fuel)%nat →
  ∃ r, last_vid_loop fuel c v = Some r ∧ r ≠ Panic ∧ ∀ w comm, r = Ok (w, comm) ↔ latest_block c v w comm.
Proof using Type.
  revert v. induction fuel as [|fuel IH]; intros v Hv Hf; [lia|]. cbn [last_vid_loop].
  destruct (validated_state_map c !! v) as [x|] eqn:Hm.
  2: { eexists. split_and!; [done..|]. intros w comm. rewrite latest_here by (done || by rewrite Hm).
       unfold block_of. rewrite Hm. split; [done|by intros []]. }
  destruct x as [pc ep|h st d ep|].
  - eexists. split_and!; [done..|]. intros w comm. rewrite latest_here by (done || by rewrite Hm).
    unfold block_of. rewrite Hm. split; [by intros [= -> ->]|by intros [-> ->]].
  - eexists. split_and!; [done|by destruct (saved_leaves c !! h)|]. intros w comm.
    rewrite latest_here by (done || by rewrite Hm). unfold block_of. rewrite Hm.
    destruct (saved_leaves c !! h); simpl; [split; [by intros [= -> ->]|by intros [-> [= ->]]]|split; [done|by intros []]].
  - destruct (Z.eqb_spec v 0) as [->|Hne].
    + eexists. split_and!; [done..|]. intros w comm. rewrite latest_before by done. split; [done|]. intros [? _]. lia.
    + destruct (IH (v - 1)) as (r & Hr & Hp & Hspec); [lia|lia|]. exists r. split_and!; [done..|].
      intros w comm. rewrite Hspec. by rewrite (latest_before c v) by done.
Qed.

(** The parent of a new block.  The search ends, and it finds a block exactly
    when one is known for a view before the new one and every view between them has
    failed: the most recent such view and the commitment of its payload. *)
Theorem parent_block_is_latest c block_view :
  ∃ r, last_vid_commitment c block_view = Some r ∧ r ≠ Panic ∧
    ∀ w comm, r = Ok (w, comm) ↔ latest_block c (saturating_sub block_view 1) w comm.
Proof using Type. apply last_vid_loop_spec; unfold saturating_sub; lia. Qed.

Lemma retry_total c retries block_view :
  ∃ r, last_vid_commitment_retry c retries block_view = Some r ∧ r ≠ Panic.
Proof using Type.
  revert c. induction retries as [|c' retries IH]; intros c; simpl;
    destruct (last_vid_loop_spec (S (Z.to_nat (saturating_sub block_view 1))) c (saturating_sub block_view 1))
      as (r & Hr & Hp & _); try (unfold saturating_sub; lia); unfold last_vid_commitment; rewrite Hr.
  - exists r. by destruct r.
  - destruct r; [by eexists|apply IH|done].
Qed.

(** *** The choice of a block *)

Lemma insert_block_perm x l : insert_block x l ≡ₚ x :: l.
Proof using Type.
  induction l as [|y l IH]; simpl; [done|]. destruct (fee_per_byte_le _ _); [done|]. rewrite IH. apply Permutation_swap.
Qed.

Lemma sort_blocks_perm l : sort_blocks l ≡ₚ l.
Proof using Type.
  induction l as [|x l IH]; simpl; [done|]. fold (sort_blocks l). by rewrite insert_block_perm, IH.
Qed.

(** Blocks have a size. *)
Definition sized (x : AvailableBlockInfo * nat) : Prop := 0 < bi_block_size x.1.
Definition cheaper (x y : AvailableBlockInfo * nat) : Prop := fee_per_byte_le x.1 y.1 = true.

Lemma cheaper_trans x y z : sized x → sized y → sized z → cheaper x y → cheaper y z → cheaper x z.
Proof using Type.
  unfold sized, cheaper, fee_per_byte_le. intros Hx Hy Hz ?%Z.leb_le ?%Z.leb_le. apply Z.leb_le. nia.
Qed.

Lemma sort_blocks_sorted l : Forall sized l → StronglySorted cheaper (sort_blocks l).
Proof using Type.
  intros Hl. induction Hl as [|x l Hx Hl IH]; simpl; [constructor|]. fold (sort_blocks l).
  assert (Forall sized (sort_blocks l)) as Hs by by rewrite sort_blocks_perm.
  clear Hl. revert IH Hs. generalize (sort_blocks l) as k. induction k as [|y k IHk]; intros Hsort Hs; simpl.
  { repeat constructor. }
  apply StronglySorted_inv in Hsort as [Hk Hall]. inversion Hs as [|? ? Hy Hsk]; subst.
  destruct (fee_per_byte_le x.1 y.1) eqn:Hle.
  - constructor; [by constructor|]. constructor; [done|]. rewrite Forall_forall in *. intros z Hz.
    eapply (cheaper_trans x y z); eauto.
  - constructor; [by apply IHk|]. rewrite insert_block_perm. constructor; [|done].
    unfold cheaper, fee_per_byte_le in *. apply Z.leb_gt in Hle. apply Z.leb_le. lia.
Qed.

Lemma claim_first_spec f l :
  match claim_first f l with
  | Ok r => ∃ past x rest, l = past ++ x :: rest ∧ f x.1 x.2 = Some r ∧ Forall (fun y => f y.1 y.2 = None) past
  | Err _ => Forall (fun y => f y.1 y.2 = None) l
  | Panic => False
  end.
Proof using Type.
  induction l as [|[i n] l IH]; simpl; [constructor|]. destruct (f i n) as [r|] eqn:Hf.
  { exists [], (i, n), l. by split_and!. }
  destruct (claim_first f l) as [r|e|]; [|by constructor|done].
  destruct IH as (past & x & rest & -> & Hx & Hp). exists ((i, n) :: past), x, rest. split_and!; [done..|by constructor].
Qed.

(** What the node has checked of a block it takes. *)
Record checked_block cb ch (x : AvailableBlockInfo * nat) (r : BuilderResponse) d hi : Prop := {
  cb_info : validate_block_info_signature (bi_sender x.1) (bi_signature x.1) (bi_block_size x.1) (bi_offered_fee x.1)
    (bi_block_hash x.1) = true;
  cb_claimed : cb x.2 (bi_block_hash x.1) = Some d ∧ ch x.2 (bi_block_hash x.1) = Some hi;
  cb_data : validate_block_data d = true;
  cb_fee : validate_header_input hi (bi_offered_fee x.1) (bd_metadata d) = true;
  cb_response : r = {| br_fee := {| fee_amount := bi_offered_fee x.1; fee_account := hi_sender hi;
                                    fee_signature := hi_fee_signature hi |};
                       br_block_payload := bd_block_payload d; br_metadata := bd_metadata d |};
}.

Lemma claim_checked cb ch x r : claim cfg cb ch x.1 x.2 = Some r → ∃ d hi, checked_block cb ch x r d hi.
Proof using Type.
  unfold claim. destruct (validate_block_info_signature _ _ _ _ _) eqn:Hi; [|done]. simpl.
  destruct (sign _ _); [|done]. simpl. destruct (cb x.2 _) as [d|] eqn:Hd; [|done]. simpl.
  destruct (ch x.2 _) as [hi|] eqn:Hh; [|done]. simpl. destruct (validate_block_data d) eqn:Hv; [|done]. simpl.
  destruct (validate_header_input _ _ _) eqn:Hf; [|done]. intros [= <-]. exists d, hi. by split.
Qed.

Lemma block_from_builder_spec arrivals main extra cb ch :
  let available := get_available_blocks cfg arrivals main extra in
  match block_from_builder cfg arrivals main extra cb ch with
  | Ok r => ∃ past x rest, sort_blocks available = past ++ x :: rest ∧ claim cfg cb ch x.1 x.2 = Some r ∧
      Forall (fun y => claim cfg cb ch y.1 y.2 = None) past
  | Err _ => Forall (fun y => claim cfg cb ch y.1 y.2 = None) (sort_blocks available)
  | Panic => False
  end.
Proof using Type.
  unfold block_from_builder. cbv zeta. destruct (sort_blocks _) as [|y l] eqn:Hs; [constructor|].
  pose proof (claim_first_spec (claim cfg cb ch) (y :: l)) as H. by destruct (claim_first _ _).
Qed.

(** The block that is taken from the builders.  When the blocks have a size, the
    node obtains a block exactly if one of the available blocks can be claimed and
    verified; the offer, the data and the fee of the block it takes are signed; and
    among the blocks that can be claimed it takes one with the lowest fee per
    byte. *)
Theorem builder_block_pays_least arrivals main extra cb ch :
  let available := get_available_blocks cfg arrivals main extra in
  Forall sized available →
  ((∃ r, block_from_builder cfg arrivals main extra cb ch = Ok r) ↔
   ∃ y, y ∈ available ∧ is_Some (claim cfg cb ch y.1 y.2)) ∧
  ∀ r, block_from_builder cfg arrivals main extra cb ch = Ok r →
    ∃ x d hi, x ∈ available ∧ checked_block cb ch x r d hi ∧
      ∀ y, y ∈ available → is_Some (claim cfg cb ch y.1 y.2) → cheaper x y.
Proof using Type.
  intros available Hsized. pose proof (block_from_builder_spec arrivals main extra cb ch) as Hspec. fold available in Hspec.
  cbv zeta in Hspec. pose proof (sort_blocks_perm available) as Hperm. split.
  - destruct (block_from_builder _ _ _ _ _ _) as [r|e|]; [|split; [by intros [? ?]|]|done].
    + split; [intros _|by eauto]. destruct Hspec as (past & x & rest & Hs & Hc & _). exists x. split; [|by eauto].
      rewrite <-Hperm, Hs. set_solver.
    + intros (y & Hy & z & Hz). rewrite Hperm in Hspec. rewrite Forall_forall in Hspec. specialize (Hspec y Hy). congruence.
  - intros r Hr. rewrite Hr in Hspec. destruct Hspec as (past & x & rest & Hs & Hc & Hpast).
    destruct (claim_checked cb ch x r Hc) as (d & hi & Hch). exists x, d, hi. split; [rewrite <-Hperm, Hs; set_solver|].
    split; [done|]. intros y Hy [z Hz]. rewrite <-Hperm, Hs, elem_of_app, elem_of_cons in Hy.
    pose proof (sort_blocks_sorted _ Hsized) as Hsort. rewrite Hs in Hsort.
    apply StronglySorted_app in Hsort as (_ & _ & Hsort).
    destruct Hy as [Hy|[->|Hy]].
    + rewrite Forall_forall in Hpast. specialize (Hpast y Hy). congruence.
    + unfold cheaper, fee_per_byte_le. apply Z.leb_le. lia.
    + apply StronglySorted_inv in Hsort as [_ Hall]. rewrite Forall_forall in Hall. by apply Hall.
Qed.

(** *** One block for each view the node leads *)

(** A bundle for a view: it pays some fee, and it is empty between versions. *)
Definition bundle_for (view : ViewNumber) (epoch : option EpochNumber) (b : PackedBundle) : Prop :=
  pb_view_number b = view ∧ pb_epoch_number b = epoch ∧ pb_sequencing_fees b ≠ [] ∧
  (between_versions cfg view = true → pb_encoded_transactions b = []).

Lemma silent_ok_result {A} (m : task TransactionTaskState TransactionOut Error A) : silent m → silent (ok_result m).
Proof using Type. intros Hm s. specialize (Hm s). unfold ok_result. by destruct (m s) as [[[]]]. Qed.

Lemma wait_silent ans view : silent (wait_for_block cfg ans view).
Proof using Type. unfold wait_for_block. solve_silent. Qed.
Lemma produce_silent ans view epoch : silent (produce_block_marketplace cfg ans view epoch).
Proof using Type. unfold produce_block_marketplace. solve_silent. Qed.
Lemma null_silent view epoch ver : silent (null_block cfg view epoch ver).
Proof using Type. unfold null_block. solve_silent. Qed.

Lemma produce_bundle ans view epoch s r s' ev :
  produce_block_marketplace cfg ans view epoch s = (Ok r, s', ev) → bundle_for view epoch r.
Proof using Type.
  unfold produce_block_marketplace. intros ([] & ? & ? & ? & [Hb ->]%require_run & H & _)%bind_run.
  do 4 (apply bind_run in H as (? & ? & ? & ? & _ & H & _)).
  apply bind_run in H as (? & ? & ? & ? & [Hfees _]%require_run & H & _).
  apply bind_run in H as ([payload metadata] & ? & ? & ? & _ & H & _). apply ret_run in H as [-> _].
  bool_facts. unfold bundle_for. simpl. split_and!; [done..|]. by rewrite Hb.
Qed.

Lemma view_change_bundles ans view epoch s b :
  emits (handle_view_change cfg ans view epoch) s (TxInternal (BlockRecv b)) → bundle_for view epoch b.
Proof using Type.
  unfold handle_view_change, handle_view_change_legacy, handle_view_change_marketplace.
  destruct (version (tx_lock cfg) view) as [ver|e|]; [|by intros ?%emits_ret|by intros ?%elem_of_nil].
  destruct (negb (version_ge ver Marketplace)); intros H.
  - apply emits_silent in H as (block & s1 & Hblock & H); [|destruct (between_versions _ _); [auto with hotshot|apply wait_silent]].
    destruct block as [r|].
    + apply list_elem_of_singleton in H as [= ->]. split_and!; [done..|]. intros Hbv. by rewrite Hbv in Hblock.
    + do 2 peel H. destruct (null_builder_fee _ _ _) as [f|]; [|by apply emits_ret in H].
      by apply list_elem_of_singleton in H as [= ->].
  - apply emits_silent in H as (produced & s1 & Hprod & H); [|apply silent_ok_result, produce_silent].
    apply ok_result_run in Hprod. apply emits_silent in H as (bundle & s2 & Hb & H).
    2: { destruct produced; [auto with hotshot|apply null_silent]. }
    destruct bundle as [b'|]; [|by apply emits_ret in H]. apply list_elem_of_singleton in H as [= ->].
    destruct produced as [p|]; [apply ret_run in Hb as [[= ->] _]; by eapply produce_bundle|].
    unfold null_block in Hb. apply bind_run in Hb as (? & ? & ? & ? & _ & Hb & _).
    apply bind_run in Hb as (n & ? & ? & ? & _ & Hb & _). apply ret_run in Hb as [Hb _].
    destruct (null_builder_fee _ _ _); [|done]. by injection Hb as ->.
Qed.

Lemma wait_runs ans view s : ∃ b, wait_for_block cfg ans view s = (Ok b, s, []).
Proof using Type.
  unfold wait_for_block. destruct (retry_total (ba_states ans).1 (ba_states ans).2 view) as (r & Hr & _).
  rewrite (bind_ok _ _ s r s) by (unfold finish, lift; by rewrite Hr).
  destruct r as [[]|e|]; [destruct (sign _ _)|..]; by eexists.
Qed.

Lemma produce_runs ans view epoch s d :
  decided_state (E := Error) (ba_decided ans) = Ok d →
  ∃ b, ok_result (produce_block_marketplace cfg ans view epoch) s = (Ok b, s, []).
Proof using Type.
  intros Hd. unfold produce_block_marketplace. destruct (between_versions cfg view); simpl; [by eexists|].
  destruct (retry_total (ba_states ans).1 (ba_states ans).2 view) as (r & Hr & Hp). unfold ok_result.
  rewrite (bind_ok _ _ s tt s) by done. rewrite (bind_ok _ _ s r s) by (unfold finish, lift; by rewrite Hr).
  destruct r as [p|e|]; [|by eexists|done]. rewrite (bind_ok _ _ s p s) by done.
  destruct (ba_auction ans) as [a|]; [|by eexists]. rewrite (bind_ok _ _ s a s) by done.
  rewrite (bind_ok _ _ s d s) by (unfold lift; by rewrite Hd).
  destruct (bool_decide _); [by eexists|]. rewrite (bind_ok _ _ s tt s) by done.
  destruct (from_transactions _ _ _) as [[payload metadata]|]; [|by eexists].
  rewrite (bind_ok _ _ s (payload, metadata) s) by done. by eexists.
Qed.

Lemma view_change_runs ans view epoch s n ver fee d :
  version (tx_lock cfg) view = Ok ver → total_nodes (tx_membership cfg) (tx_cur_epoch s) = Ok n →
  null_builder_fee n ver view = Some fee → decided_state (E := Error) (ba_decided ans) = Ok d →
  ∃ b, handle_view_change cfg ans view epoch s = (Ok tt, s, [TxInternal (BlockRecv b)]).
Proof using Type.
  intros Hver Hn Hfee Hd. unfold handle_view_change, handle_view_change_legacy, handle_view_change_marketplace.
  rewrite Hver. destruct (negb (version_ge ver Marketplace)).
  - assert (∃ b, (if between_versions cfg view then mret None else wait_for_block cfg ans view) s = (Ok b, s, [])) as [b Hb]
      by (destruct (between_versions cfg view); [by eexists|apply wait_runs]).
    rewrite (bind_ok _ _ s b s) by done. destruct b as [r|]; [by eexists|].
    rewrite (bind_ok _ _ s s s) by done. rewrite (bind_ok _ _ s n s) by (unfold lift; by rewrite Hn).
    rewrite Hfee. by eexists.
  - destruct (produce_runs ans view epoch s d Hd) as [b Hb]. rewrite (bind_ok _ _ s b s) by done.
    destruct b as [b|]; [rewrite (bind_ok _ _ s (Some b) s) by done; by eexists|].
    unfold null_block. set (b := PackedBundle_new [] empty_block.2 view epoch [fee] (Some auction_default)).
    rewrite (bind_ok _ _ s (Some b) s); [by eexists|].
    rewrite (bind_ok _ _ s s s) by done. rewrite (bind_ok _ _ s n s) by (unfold lift; by rewrite Hn).
    by rewrite Hfee.
Qed.

(** C25. A block for every view the node leads.  A block is announced only on a
    view change to a newer view that the node leads, for that view and epoch, with at
    least one fee, and without transactions while the network is between two
    versions.  Conversely, when the node enters such a view in a version it supports
    and the fee of an empty block can be signed, it announces exactly one block,
    whatever the builders and the solver answer, and is in the new view. *)
Theorem leader_gets_one_block ans e s :
  (∀ b, emits (transactions_handle cfg ans e) s (TxInternal (BlockRecv b)) →
     ∃ v ep, let view := block_view_of v in let epoch := block_epoch_of cfg view ep in
       e = ViewChange v ep ∧ tx_cur_view s < view ∧ leader (tx_membership cfg) view epoch = Ok (tx_public_key cfg) ∧
       bundle_for view epoch b) ∧
  (∀ v ep n ver fee d, let view := block_view_of v in let epoch := block_epoch_of cfg view ep in
     e = ViewChange v ep → tx_cur_view s < view → epoch_gt (tx_cur_epoch s) epoch = false →
     leader (tx_membership cfg) view epoch = Ok (tx_public_key cfg) → version (tx_lock cfg) view = Ok ver →
     total_nodes (tx_membership cfg) epoch = Ok n → null_builder_fee n ver view = Some fee →
     decided_state (E := Error) (ba_decided ans) = Ok d →
     ∃ b, bundle_for view epoch b ∧ transactions_handle cfg ans e s =
       (Ok tt, {| tx_cur_view := view; tx_cur_epoch := epoch |}, [TxInternal (BlockRecv b)])).
Proof using Type.
  split.
  - intros b. destruct e; try (by intros ?%emits_ret).
    + intros H. cbn [transactions_handle] in H. exists view, epoch. do 2 peel H.
      apply emits_silent in H as (u & s1 & Hm & H); [|auto with hotshot]. injection Hm as <-.
      apply emits_silent in H as (k & s2 & [Hl ->]%lift_run & H); [|auto with hotshot].
      case_bool_decide as Hk; [|by apply emits_ret in H]. apply view_change_bundles in H. bool_facts.
      split_and!; [done|lia|by rewrite Hl, Hk|apply H..].
    + intros H. cbn [transactions_handle] in H. peel H. by apply list_elem_of_singleton in H.
  - intros v ep n ver fee d view epoch -> Hv He Hl Hver Hn Hfee Hd.
    set (s' := {| tx_cur_view := view; tx_cur_epoch := epoch |}).
    destruct (view_change_runs ans view epoch s' n ver fee d) as [b Hb]; [done..|]. exists b. split.
    { apply (view_change_bundles ans view epoch s'). unfold emits. rewrite Hb. left. }
    cbn [transactions_handle]. fold view epoch. rewrite (bind_ok _ _ s s s) by done.
    rewrite (proj2 (Z.ltb_lt _ _) Hv), He. rewrite (bind_ok _ _ s tt s) by done.
    rewrite (bind_ok _ _ s tt s') by done. rewrite (bind_ok _ _ s' (tx_public_key cfg) s') by (unfold lift; by rewrite Hl).
    by rewrite bool_decide_true.
Qed.
End TransactionProofs.

(** ** Witnesses *)

Module BuilderDemo.
#[local] Existing Instance StaticCommittee.
(** Every signature is the same. *)
#[global] Instance api : BuilderApi := {|
  BuilderPrivateKey := Z; Url := Z;
  validate_builder_signature _ sig _ := (sig : Z) =? 6;
  sign_builder_message _ _ := Some (6 : BuilderSignature);
  generated_from_seed_indexed _ i := (5 : BuilderKey, i);
  metadata_encode _ := []; builder_commitment_as_ref _ := [];
  from_transactions _ _ _ := Some ([] : BlockPayload, tt : Metadata);
  urls _ := []; auction_default := tt : AuctionResult |}.
Definition cfg : TransactionTaskConfig (M := Committee) :=
  {| tx_public_key := 20 : PubKey; tx_private_key := 20 : PrivKey; tx_membership := Demo.committee;
     tx_lock := UpgradeLock_new; tx_instance_state := tt : InstanceState; tx_builder_clients := 2;
     tx_fallback_builder_url := 0 : Url |}.
(** Two builders offer blocks of one size, for fees 100 and 1. *)
Definition offer (fee : Z) : AvailableBlockInfo :=
  {| bi_block_hash := tt : BuilderCommitment; bi_block_size := 10; bi_offered_fee := fee;
     bi_signature := 6 : BuilderSignature; bi_sender := 5 : BuilderKey |}.
Definition arrivals : list (option (list AvailableBlockInfo) * nat) := [(Some [offer 100], 0%nat); (Some [offer 1], 1%nat)].
Definition block (_ : nat) (_ : BuilderCommitment) : option AvailableBlockData :=
  Some {| bd_block_payload := [7] : BlockPayload; bd_metadata := tt : Metadata; bd_signature := 6 : BuilderSignature;
          bd_sender := 5 : BuilderKey |}.
Definition header (_ : nat) (_ : BuilderCommitment) : option AvailableBlockHeaderInput :=
  Some {| hi_vid_commitment := [] : VidCommitment; hi_fee_signature := 6 : BuilderSignature;
          hi_message_signature := 6 : BuilderSignature; hi_sender := 5 : BuilderKey |}.
Definition response (fee : Z) : BuilderResponse :=
  {| br_fee := {| fee_amount := fee; fee_account := 5 : BuilderKey; fee_signature := 6 : BuilderSignature |};
     br_block_payload := [7] : BlockPayload; br_metadata := tt : Metadata |}.
Definition replies : BlockAnswers :=
  {| ba_states := (ConsDemo.start, []); ba_attempts := [Query arrivals 2 0 block header]; ba_auction := None;
     ba_bundles _ := None; ba_decided := ConsDemo.start |}.
Definition null_fee : BuilderFee := br_fee (response 0).
Definition start : TransactionTaskState := {| tx_cur_view := 0; tx_cur_epoch := None |}.
End BuilderDemo.

#[local] Existing Instance StaticCommittee.

Lemma builder_block_pays_least_witness :
  ∃ x, x ∈ get_available_blocks BuilderDemo.cfg BuilderDemo.arrivals 2 0 ∧
    cheaper x (BuilderDemo.offer 100, 0%nat) ∧
    block_from_builder BuilderDemo.cfg BuilderDemo.arrivals 2 0 BuilderDemo.block BuilderDemo.header =
      Ok (BuilderDemo.response 1).
Proof.
  destruct (builder_block_pays_least BuilderDemo.cfg BuilderDemo.arrivals 2 0 BuilderDemo.block BuilderDemo.header)
    as [_ Hr]; [repeat constructor|].
  destruct (Hr (BuilderDemo.response 1) eq_refl) as (x & d & hi & Hx & _ & Hmin).
  exists x. split; [exact Hx|]. split; [|reflexivity]. apply Hmin; [left|by eexists].
Defined.

Lemma leader_gets_one_block_witness :
  ∃ b, transactions_handle BuilderDemo.cfg BuilderDemo.replies (ViewChange 1 None) BuilderDemo.start =
    (Ok tt, {| tx_cur_view := 1; tx_cur_epoch := None |}, [TxInternal (BlockRecv b)]).
Proof.
  destruct (leader_gets_one_block BuilderDemo.cfg BuilderDemo.replies (ViewChange 1 None) BuilderDemo.start) as [_ Hlive].
  edestruct (Hlive 1 None 3 Base BuilderDemo.null_fee)
    as (b & _ & Hb); [reflexivity..|].
  exists b. exact Hb.
Defined.
