(* ===== verification/System.v ===== *)
(** * Starting and restarting a node

    [hotshot/src/lib.rs]: a node is made from a [HotShotInitializer], for the genesis
    block or from what was stored; its tasks are created from the state this gives
    ([hotshot/src/tasks/mod.rs], [tasks/task_state.rs]); then consensus is started.
    [hotshot/src/types/handle.rs] is what the application does with it.

    Channels, the network and the configuration of delays are outside, and so are the
    twins and the event transformers, which run nodes for tests. *)

From S2P Require Import Prelude Epochs Crypto Committee Votes Certificates VoteAccumulator VoteCollection Data Vid Consensus ConsensusProofs Task ProposalValidation QuorumVote ViewSync Message Events Network TestStorage DaTask Upgrade DataRequests ConsensusTask QuorumProposal Transactions.

Section System.
Context `{Sg : SignatureScheme} `{Cm : Committable} `{Vt : VidTypes} `{Vs : Versions}.
Context `{Bt : !BlockTypes} `{Vd : !VidScheme} `{Bu : !BuilderTypes} `{Ba : !BuilderApi}.
Context {M : Type} `{Mb : !Membership M}.

(** [ValidatedState::genesis] *)
Context (state_genesis : InstanceState → ValidatedState * Delta).

(** ** The initializer *)

Record HotShotInitializer := {
  in_instance_state : InstanceState;
  in_epoch_height : Z;
  anchor_leaf : Leaf2;
  anchor_state : ValidatedState;
  anchor_state_delta : option Delta;
  in_start_view : ViewNumber;
  last_actioned_view : ViewNumber;
  in_start_epoch : option EpochNumber;
  in_high_qc : QuorumCertificate2;
  in_next_epoch_high_qc : option NextEpochQuorumCertificate2;
  saved_proposals : gmap ViewNumber (Proposal QuorumProposal2);
  in_decided_upgrade_certificate : option UpgradeCertificate;
  undecided_leaves : gmap ViewNumber Leaf2;
  undecided_state : gmap ViewNumber ViewInner;
  saved_vid_shares : gmap ViewNumber (gmap PubKey (Proposal VidDisperseShare));
}.

Definition from_genesis {E} (instance_state : InstanceState) (epoch_height : Z) : outcome E HotShotInitializer :=
  let '(validated_state, state_delta) := state_genesis instance_state in
  high_qc ← qc2_genesis validated_state instance_state;
  anchor ← leaf2_genesis validated_state instance_state;
  Ok {| anchor_leaf := anchor; anchor_state := validated_state; anchor_state_delta := Some state_delta;
        in_start_view := 0; in_start_epoch := genesis_epoch_from_version; last_actioned_view := 0;
        saved_proposals := ∅; in_high_qc := high_qc; in_next_epoch_high_qc := None;
        in_decided_upgrade_certificate := None; undecided_leaves := ∅; undecided_state := ∅;
        in_instance_state := instance_state; saved_vid_shares := ∅; in_epoch_height := epoch_height |}.

(** The view that is made of a leaf whose state is not known. *)
Definition header_view (epoch_height : Z) (leaf : Leaf2) : ViewInner :=
  LeafView (leaf2_commit leaf) (from_header (block_header leaf)) None (leaf_epoch leaf epoch_height).

Definition update_undecided (i : HotShotInitializer) : HotShotInitializer :=
  let newer := filter (fun p => leaf_view (anchor_leaf i) < p_view_number (proposal_data p))
                 (btree_values (saved_proposals i)) in
  let leaves := foldl (fun m p => <[p_view_number (proposal_data p) := leaf2_from_quorum_proposal (proposal_data p)]> m)
                  (undecided_leaves i) newer in
  let states := foldl (fun m leaf => <[leaf_view leaf := header_view (in_epoch_height i) leaf]> m)
                  (undecided_state i) (btree_values leaves) in
  {| in_instance_state := in_instance_state i; in_epoch_height := in_epoch_height i; anchor_leaf := anchor_leaf i;
     anchor_state := anchor_state i; anchor_state_delta := anchor_state_delta i; in_start_view := in_start_view i;
     last_actioned_view := last_actioned_view i; in_start_epoch := in_start_epoch i; in_high_qc := in_high_qc i;
     in_next_epoch_high_qc := in_next_epoch_high_qc i; saved_proposals := saved_proposals i;
     in_decided_upgrade_certificate := in_decided_upgrade_certificate i; undecided_leaves := leaves;
     undecided_state := states; saved_vid_shares := saved_vid_shares i |}.

Definition load (instance_state : InstanceState) (epoch_height : Z) (anchor : Leaf2)
    (start : ViewNumber * option EpochNumber) (high_qcs : QuorumCertificate2 * option NextEpochQuorumCertificate2)
    (proposals : gmap ViewNumber (Proposal QuorumProposal2))
    (shares : gmap ViewNumber (gmap PubKey (Proposal VidDisperseShare)))
    (decided_upgrade_certificate : option UpgradeCertificate) : HotShotInitializer :=
  update_undecided
    {| in_instance_state := instance_state; in_epoch_height := epoch_height; anchor_leaf := anchor;
       anchor_state := from_header (block_header anchor); anchor_state_delta := None; in_high_qc := high_qcs.1;
       in_start_view := start.1; in_start_epoch := start.2; last_actioned_view := start.1;
       saved_proposals := proposals; saved_vid_shares := shares; in_next_epoch_high_qc := high_qcs.2;
       in_decided_upgrade_certificate := decided_upgrade_certificate; undecided_leaves := ∅; undecided_state := ∅ |}.

(** ** The context *)

(** Of the configuration the fields that are used here. *)
Record HotShotConfig := {
  hc_epoch_height : Z;
  hc_windows : UpgradeConfig;
  hc_builder_urls : nat;
  hc_fallback_builder_url : Url;
}.

Definition set_view_upgrade (c : HotShotConfig) (view : Z) : HotShotConfig :=
  {| hc_epoch_height := hc_epoch_height c;
     hc_windows := {| start_proposing_view := view; stop_proposing_view := u64_add view 1;
                      start_voting_view := saturating_sub view 1; stop_voting_view := u64_add view 10;
                      start_proposing_time := 0; stop_proposing_time := u64_modulus - 1;
                      start_voting_time := 0; stop_voting_time := u64_modulus - 1 |};
     hc_builder_urls := hc_builder_urls c; hc_fallback_builder_url := hc_fallback_builder_url c |}.

Record SystemContext := {
  sc_public_key : PubKey;
  sc_private_key : PrivKey;
  sc_config : HotShotConfig;
  sc_memberships : M;
  sc_consensus : Consensus;
  sc_instance_state : InstanceState;
  sc_start_view : ViewNumber;
  sc_start_epoch : option EpochNumber;
  sc_anchored_leaf : Leaf2;
  sc_id : Z;
  sc_upgrade_lock : UpgradeLock;
}.

(** The state of consensus at the start. *)
Definition initial_consensus (i : HotShotInitializer) (config : HotShotConfig) : Consensus :=
  let lock := UpgradeLock_from_certificate (in_decided_upgrade_certificate i) in
  let anchored_leaf := anchor_leaf i in
  let view := leaf_view anchored_leaf in
  let epoch := option_epoch_from_block_number (epochs_enabled lock view) (height anchored_leaf) (hc_epoch_height config) in
  let validated_state_map :=
    undecided_state i ∪
    {[view := LeafView (leaf2_commit anchored_leaf) (anchor_state i) (anchor_state_delta i) epoch]} in
  let saved_leaves :=
    foldl (fun m leaf => <[leaf2_commit leaf := leaf]> m) {[leaf2_commit anchored_leaf := anchored_leaf]}
      (btree_values (undecided_leaves i)) in
  let saved_payloads :=
    match block_payload anchored_leaf with Some payload => {[view := payload]} | None => ∅ end in
  Consensus_new validated_state_map (Some (saved_vid_shares i)) view epoch view view (last_actioned_view i)
    (saved_proposals i) saved_leaves saved_payloads (in_high_qc i) (in_next_epoch_high_qc i) (hc_epoch_height config).

Definition new_from_channels (public_key : PubKey) (private_key : PrivKey) (nonce : Z) (config : HotShotConfig)
    (memberships : M) (i : HotShotInitializer) : SystemContext :=
  {| sc_id := nonce; sc_consensus := initial_consensus i config; sc_instance_state := in_instance_state i;
     sc_public_key := public_key; sc_private_key := private_key; sc_config := config;
     sc_start_view := in_start_view i; sc_start_epoch := in_start_epoch i; sc_memberships := memberships;
     sc_anchored_leaf := anchor_leaf i;
     sc_upgrade_lock := UpgradeLock_from_certificate (in_decided_upgrade_certificate i) |}.

(** [new]: the storage is migrated first, and panics when that fails. *)
Definition SystemContext_new {St : Type} (migrate : St → option St) (public_key : PubKey) (private_key : PrivKey) (nonce : Z)
    (config : HotShotConfig) (memberships : M) (i : HotShotInitializer) (storage : St)
    : outcome Error (SystemContext * St) :=
  match migrate storage with
  | Some storage => Ok (new_from_channels public_key private_key nonce config memberships i, storage)
  | None => Panic
  end.

(** ** The tasks

    [create_from]: what a task never changes, and its first state. *)

Implicit Types (h : SystemContext).

(** Answers of the storage and of the network that the tasks are given as parameters, and
    the constants of the application. *)
Context (answers : StorageAnswers) (da_stored primary_down : bool) (headers : HeaderBuilder) (key_to_bytes : PubKey → bytes)
  (constants : UpgradeConstants).

Abbreviation h_cur_view h := (cur_view (sc_consensus h)).
Abbreviation h_cur_epoch h := (cur_epoch (sc_consensus h)).

Definition create_request_task h : RequestConfig * NetworkRequestState :=
  ({| rq_membership := sc_memberships h; rq_public_key := sc_public_key h; rq_private_key := sc_private_key h;
      rq_epoch_height := hc_epoch_height (sc_config h) |},
   {| rq_view := h_cur_view h; rq_shutdown_flag := false; rq_spawned_tasks := ∅ |}).

Definition create_upgrade_task h : UpgradeTaskConfig * UpgradeTaskState :=
  ({| ug_public_key := sc_public_key h; ug_private_key := sc_private_key h; ug_membership := sc_memberships h;
      ug_lock := sc_upgrade_lock h; ug_id := sc_id h; ug_constants := constants; ug_windows := hc_windows (sc_config h) |},
   {| ug_cur_view := h_cur_view h; ug_cur_epoch := h_cur_epoch h; ug_collectors := ∅ |}).

Definition create_vid_task h : VidConfig * VidTaskState :=
  ({| vid_public_key := sc_public_key h; vid_private_key := sc_private_key h; vid_membership := sc_memberships h;
      vid_epoch_height := hc_epoch_height (sc_config h) |},
   {| vid_cur_view := h_cur_view h; vid_cur_epoch := h_cur_epoch h; vid_consensus := sc_consensus h |}).

Definition create_da_task h : DaConfig * DaTaskState :=
  ({| da_public_key := sc_public_key h; da_private_key := sc_private_key h; da_membership := sc_memberships h;
      da_lock := sc_upgrade_lock h; da_id := sc_id h; DaTask.da_stored := da_stored; DaTask.primary_down := primary_down |},
   {| da_cur_view := h_cur_view h; da_cur_epoch := h_cur_epoch h; da_consensus := sc_consensus h; da_collectors := ∅ |}).

Definition create_view_sync_task h : ViewSyncConfig * ViewSyncTaskState :=
  ({| vs_public_key := sc_public_key h; vs_private_key := sc_private_key h; vs_membership := sc_memberships h;
      vs_upgrade_lock := sc_upgrade_lock h; vs_id := sc_id h |},
   {| vs_cur_view := h_cur_view h; vs_next_view := h_cur_view h; vs_cur_epoch := h_cur_epoch h;
      num_timeouts_tracked := 0; replica_task_map := ∅; pre_commit_relay_map := ∅; commit_relay_map := ∅;
      finalize_relay_map := ∅; last_garbage_collected_view := 0 |}).

Definition create_transaction_task h : TransactionTaskConfig * TransactionTaskState :=
  ({| tx_public_key := sc_public_key h; tx_private_key := sc_private_key h; tx_membership := sc_memberships h;
      tx_lock := sc_upgrade_lock h; tx_instance_state := sc_instance_state h;
      tx_builder_clients := hc_builder_urls (sc_config h);
      tx_fallback_builder_url := hc_fallback_builder_url (sc_config h) |},
   {| tx_cur_view := h_cur_view h; tx_cur_epoch := h_cur_epoch h |}).

Definition create_quorum_vote_task h : VoteConfig * QuorumVoteTaskState :=
  ({| vc_public_key := sc_public_key h; vc_private_key := sc_private_key h;
      vc_epoch_height := hc_epoch_height (sc_config h); vc_instance_state := sc_instance_state h;
      vc_storage := answers |},
   {| qv_consensus := sc_consensus h; qv_upgrade_lock := sc_upgrade_lock h; qv_membership := sc_memberships h;
      drb_computation := None; latest_voted_view := h_cur_view h; vote_dependencies := ∅ |}).

Definition create_quorum_proposal_task h : ProposerConfig * QuorumProposalTaskState :=
  ({| pc_public_key := sc_public_key h; pc_private_key := sc_private_key h; pc_membership := sc_memberships h;
      pc_lock := sc_upgrade_lock h; pc_epoch_height := hc_epoch_height (sc_config h);
      pc_instance_state := sc_instance_state h; pc_storage := answers; pc_headers := headers;
      pc_key_to_bytes := key_to_bytes |},
   {| latest_proposed_view := h_cur_view h; pr_cur_epoch := h_cur_epoch h; proposal_dependencies := ∅;
      pr_consensus := sc_consensus h; formed_upgrade_certificate := None;
      pr_highest_qc := high_qc (sc_consensus h) |}).

Definition create_quorum_proposal_recv_task h : ValidationInfo * QuorumProposalRecvTaskState :=
  ({| vi_public_key := sc_public_key h; vi_private_key := sc_private_key h; vi_membership := sc_memberships h;
      vi_upgrade_lock := sc_upgrade_lock h; vi_epoch_height := hc_epoch_height (sc_config h); vi_storage := answers |},
   {| qr_cur_view := h_cur_view h; qr_cur_epoch := h_cur_epoch h |}).

Definition create_consensus_task h : ConsensusTaskConfig * ConsensusTaskState :=
  ({| ct_public_key := sc_public_key h; ct_private_key := sc_private_key h; ct_membership := sc_memberships h;
      ct_lock := sc_upgrade_lock h; ct_id := sc_id h; ct_epoch_height := hc_epoch_height (sc_config h) |},
   {| ct_cur_view := h_cur_view h; ct_cur_epoch := h_cur_epoch h; ct_consensus := sc_consensus h;
      ct_timeout_task := None; vote_collectors := ∅; next_epoch_vote_collectors := ∅; timeout_vote_collectors := ∅ |}).

(** [add_network_event_task] *)
Definition create_network_task : NetworkEventTaskState :=
  {| ne_view := genesis_view; ne_epoch := genesis_epoch_from_version; transmit_tasks := ∅ |}.

(** A loaded upgrade certificate that the node has been upgraded past is forgotten. *)
Definition clear_upgrade_lock (lock : UpgradeLock) : UpgradeLock :=
  match decided_upgrade_certificate lock with
  | Some cert => if version_ge Base (new_version (data cert)) then UpgradeLock_new else lock
  | None => lock
  end.

Definition with_lock h (lock : UpgradeLock) : SystemContext :=
  {| sc_id := sc_id h; sc_consensus := sc_consensus h; sc_instance_state := sc_instance_state h;
     sc_public_key := sc_public_key h; sc_private_key := sc_private_key h; sc_config := sc_config h;
     sc_start_view := sc_start_view h; sc_start_epoch := sc_start_epoch h; sc_memberships := sc_memberships h;
     sc_anchored_leaf := sc_anchored_leaf h; sc_upgrade_lock := lock |}.

Inductive Spawned :=
  | ViewSyncTask (t : ViewSyncConfig (M := M) * ViewSyncTaskState)
  | VidTask (t : VidConfig (M := M) * VidTaskState)
  | DaTask_ (t : DaConfig (M := M) * DaTaskState)
  | TransactionTask (t : TransactionTaskConfig (M := M) * TransactionTaskState)
  | UpgradeTask (t : UpgradeTaskConfig (M := M) * UpgradeTaskState)
  | QuorumProposalTask (t : ProposerConfig (M := M) * QuorumProposalTaskState)
  | QuorumVoteTask (t : VoteConfig * QuorumVoteTaskState (M := M))
  | QuorumProposalRecvTask (t : ValidationInfo (M := M) * QuorumProposalRecvTaskState)
  | ConsensusTask_ (t : ConsensusTaskConfig (M := M) * ConsensusTaskState).

(** The lock is shared, so that the tasks created before it is cleared see it cleared too.
    The task that measures the length of the queue is left out. *)
Definition add_consensus_tasks h : SystemContext * list Spawned :=
  let h := with_lock h (clear_upgrade_lock (sc_upgrade_lock h)) in
  (h, [ViewSyncTask (create_view_sync_task h); VidTask (create_vid_task h); DaTask_ (create_da_task h);
       TransactionTask (create_transaction_task h)] ++
      (if version_ge Base Upgrade then [] else [UpgradeTask (create_upgrade_task h)]) ++
      [QuorumProposalTask (create_quorum_proposal_task h); QuorumVoteTask (create_quorum_vote_task h);
       QuorumProposalRecvTask (create_quorum_proposal_recv_task h); ConsensusTask_ (create_consensus_task h)]).

(** ** Starting *)

Inductive StartOut :=
  | StartInternal (e : Ev.Event)
  | StartTimer (t : ViewNumber * option EpochNumber)
  | StartDecide (view : ViewNumber) (leaf_chain : list LeafInfo) (qc : QuorumCertificate2).

(** The genesis leaf is announced as decided. *)
Definition start_consensus h : outcome Error (list StartOut) :=
  let start := [StartInternal (Ev.ViewChange (sc_start_view h) (sc_start_epoch h));
                StartTimer (start_timer (sc_start_view h) (sc_start_epoch h));
                StartInternal (Ev.Qc2Formed (inl (high_qc (sc_consensus h))))] in
  if leaf_view (sc_anchored_leaf h) =? genesis_view then
    let '(validated_state, state_delta) := state_genesis (sc_instance_state h) in
    qc ← qc2_genesis validated_state (sc_instance_state h);
    Ok (start ++ [StartDecide (leaf_view (sc_anchored_leaf h))
          [{| li_leaf := sc_anchored_leaf h; li_state := validated_state; li_delta := Some state_delta; li_vid_share := None |}] qc])
  else Ok start.

(** ** What the application asks for *)

Context `{Vb : !Vbs (Message Transaction)}.

Inductive AppOut :=
  | AppDaBroadcast (message : bytes) (recipients : list PubKey)
  | AppBroadcast (message : bytes)
  | AppDirect (message : bytes) (recipient : PubKey)
  | AppTransactions (view : ViewNumber) (transactions : list Transaction).

(** The result, and what the spawned job sends; a job that panics sends nothing. *)
Definition publish_transaction_async h (transaction : Transaction) : outcome Error unit * list AppOut :=
  let view_number := h_cur_view h in
  let epoch := h_cur_epoch h in
  let message := {| msg_sender := sc_public_key h; msg_kind := KData (SubmitTransaction transaction view_number) |} in
  match serialize (sc_upgrade_lock h) message with
  | Ok serialized_message =>
      (Ok tt, match da_committee_members (sc_memberships h) view_number epoch with
              | Ok members => [AppDaBroadcast serialized_message (elements members); AppTransactions view_number [transaction]]
              | _ => []
              end)
  | Err e => (Err e, [])
  | Panic => (Panic, [])
  end.

Inductive RecipientList := ToAll | ToOne (recipient : PubKey) | ToMany (recipients : list PubKey).

Definition send_external_message h (msg : bytes) (recipients : RecipientList) : outcome Error (list AppOut) :=
  let message := {| msg_sender := sc_public_key h; msg_kind := KExternal msg |} in
  serialized_message ← serialize (sc_upgrade_lock h) message;
  Ok [match recipients with
      | ToAll => AppBroadcast serialized_message
      | ToOne recipient => AppDirect serialized_message recipient
      | ToMany recipients => AppDaBroadcast serialized_message recipients
      end].

(** The events that follow the request; [None] while it still waits. *)
Fixpoint await_requested h (view : ViewNumber) (leaf_commitment : Commitment) (events : list Ev.Event)
    : option (outcome Error (Proposal QuorumProposal2)) :=
  match events with
  | [] => None
  | Ev.QuorumProposalResponseRecv quorum_proposal :: events =>
      if p_view_number (proposal_data quorum_proposal) =? view then
        match validate_signature quorum_proposal (sc_memberships h) (hc_epoch_height (sc_config h)) with
        | Panic => Some Panic
        | Err _ => await_requested h view leaf_commitment events
        | Ok _ =>
            if bool_decide (leaf2_commit (leaf2_from_quorum_proposal (proposal_data quorum_proposal)) = leaf_commitment)
            then Some (Ok quorum_proposal) else await_requested h view leaf_commitment events
        end
      else await_requested h view leaf_commitment events
  | _ :: events => await_requested h view leaf_commitment events
  end.

Definition request_proposal h (view : ViewNumber) (leaf_commitment : Commitment)
    : outcome Error (Ev.Event * (list Ev.Event → option (outcome Error (Proposal QuorumProposal2)))) :=
  let signed_proposal_request := {| req_view_number := view; req_key := sc_public_key h |} in
  signature ← ok_or (sign (sc_private_key h) (as_ref (proposal_request_commit key_to_bytes view (sc_public_key h))))
                "Failed to sign";
  Ok (Ev.QuorumProposalRequestSend signed_proposal_request signature, await_requested h view leaf_commitment).
End System.

(** ** Filling maps *)

Section Folds.
Context {A B K : Type} `{Countable K} (key : A → K) (val : A → B).

Definition insert_all (m : gmap K B) (l : list A) : gmap K B := foldl (fun m a => <[key a := val a]> m) m l.

Lemma insert_all_inv m l k x :
  insert_all m l !! k = Some x →
  (∃ a, a ∈ l ∧ key a = k ∧ val a = x) ∨ (m !! k = Some x ∧ ∀ a, a ∈ l → key a ≠ k).
Proof.
  unfold insert_all. revert m. induction l as [|a l IH]; intros m; simpl; [by right; split; [|intros a []%elem_of_nil]|].
  intros [(b & Hb & Hk & Hv)|[Hm Hl]]%IH; [left; exists b; split_and!; [by right|done..]|].
  destruct (decide (key a = k)) as [<-|Hne].
  - rewrite lookup_insert_eq in Hm. injection Hm as <-. left. exists a. split_and!; [by left|done..].
  - rewrite lookup_insert_ne in Hm by done. right. split; [done|]. intros b [->|Hb]%elem_of_cons; auto.
Qed.

Lemma insert_all_elem m l a : a ∈ l → ∃ b, b ∈ l ∧ key b = key a ∧ insert_all m l !! key a = Some (val b).
Proof.
  intros Ha. destruct (insert_all m l !! key a) as [x|] eqn:Hx.
  - apply insert_all_inv in Hx as [(b & Hb & Hk & <-)|[_ Hn]]; [by exists b|]. by destruct (Hn a Ha).
  - exfalso. revert m Hx Ha. unfold insert_all. induction l as [|b l IH]; intros m Hx Ha; [by apply elem_of_nil in Ha|].
    apply elem_of_cons in Ha as [->|Ha]; [|by eapply IH].
    assert (∀ l m', foldl (fun (m : gmap K B) a => <[key a := val a]> m) m' l !! key b = None → m' !! key b = None) as Hnone.
    { clear. induction l as [|a l IH]; intros m'; [done|]. simpl. intros Hn%IH.
      destruct (decide (key a = key b)) as [E|E]; [by rewrite E, lookup_insert_eq in Hn|by rewrite lookup_insert_ne in Hn]. }
    simpl in Hx. apply Hnone in Hx. by rewrite lookup_insert_eq in Hx.
Qed.

Lemma insert_all_grows m l k : is_Some (m !! k) → is_Some (insert_all m l !! k).
Proof.
  unfold insert_all. revert m. induction l as [|a l IH]; intros m Hm; [done|]. simpl. apply IH.
  rewrite lookup_insert_is_Some'. by right.
Qed.

Lemma insert_all_keeps m l k x : m !! k = Some x → (∀ a, a ∈ l → key a ≠ k) → insert_all m l !! k = Some x.
Proof.
  unfold insert_all. revert m. induction l as [|a l IH]; intros m Hm Hl; [done|]. simpl. apply IH.
  - rewrite lookup_insert_ne; [done|]. apply Hl. by left.
  - intros b Hb. apply Hl. by right.
Qed.
End Folds.

(** ** The first state *)

Section Start.
Context `{Sg : SignatureScheme} `{Cm : Committable} `{Vt : VidTypes} `{Vs : Versions}.
Context `{Bt : !BlockTypes} `{Vd : !VidScheme} `{Bu : !BuilderTypes} `{Ba : !BuilderApi}.
Context {M : Type} `{Mb : !Membership M}.
Context {Lm : CommittableLaws Cm} {Rk : CommitmentRank Cm}.
Context (state_genesis : InstanceState → ValidatedState * Delta).
Implicit Types (i : HotShotInitializer) (leaf : Leaf2).

(** The leaves that an initializer holds. *)
Definition holds i leaf : Prop := leaf = anchor_leaf i ∨ ∃ v, undecided_leaves i !! v = Some leaf.

(** The stored proposals are stored under their views. *)
Definition keyed_by_view i : Prop := ∀ w p, saved_proposals i !! w = Some p → p_view_number (proposal_data p) = w.

Record init_ok i : Prop := {
  io_leaves leaf : holds i leaf → leaf_ok leaf;
  io_anchor : 0 <= leaf_view (anchor_leaf i);
  io_newer v leaf : undecided_leaves i !! v = Some leaf → leaf_view (anchor_leaf i) < leaf_view leaf;
  io_states v x : undecided_state i !! v = Some x →
    ∃ w leaf s d e, undecided_leaves i !! w = Some leaf ∧ leaf_view leaf = v ∧ x = LeafView (leaf2_commit leaf) s d e;
  io_certs leaf parent : holds i leaf → holds i parent → leaf_commit (data (justify_qc leaf)) = leaf2_commit parent →
    view_number (justify_qc leaf) = leaf_view parent;
  io_proposals w p : keyed_by_view i → saved_proposals i !! w = Some p → leaf_view (anchor_leaf i) < w →
    let leaf := leaf2_from_quorum_proposal (proposal_data p) in
    undecided_leaves i !! w = Some leaf ∧
    ∃ s d e, undecided_state i !! w = Some (LeafView (leaf2_commit leaf) s d e);
}.

(** Where an initializer comes from: the genesis block, or a decided leaf and proposals
    from storage, whose certificates are for the views of their leaves. *)
Inductive initialized : HotShotInitializer → Prop :=
  | init_genesis {E} instance_state epoch_height i :
      from_genesis (E := E) state_genesis instance_state epoch_height = Ok i → initialized i
  | init_load instance_state epoch_height anchor start high_qcs proposals shares upgrade :
      leaf_ok anchor → 0 <= leaf_view anchor →
      (∀ v p, proposals !! v = Some p → leaf_wf (leaf2_from_quorum_proposal (proposal_data p))) →
      let i := load instance_state epoch_height anchor start high_qcs proposals shares upgrade in
      (∀ leaf parent, holds i leaf → holds i parent → leaf_commit (data (justify_qc leaf)) = leaf2_commit parent →
         view_number (justify_qc leaf) = leaf_view parent) →
      initialized i.

Lemma genesis_leaf_ok {E} st inst leaf :
  leaf2_genesis (E := E) st inst = Ok leaf → leaf_ok leaf ∧ leaf_view leaf = 0.
Proof using Type.
  unfold leaf2_genesis. intros ([payload meta] & _ & H)%bind_ok_inv.
  apply bind_ok_inv in H as (pc & _ & <-%Ok_inj). done.
Qed.

(** A leaf is not its own parent. *)
Lemma own_parent leaf : leaf_ok leaf → leaf_commit (data (justify_qc leaf)) ≠ leaf2_commit leaf.
Proof using Rk. intros [_ Hp] He. pose proof (parent_rank leaf) as Hr. rewrite Hp, He in Hr. lia. Qed.

Lemma genesis_init_ok {E} inst eh i : from_genesis (E := E) state_genesis inst eh = Ok i → init_ok i.
Proof using Rk.
  unfold from_genesis. destruct (state_genesis inst) as [st delta].
  intros (qc & _ & H)%bind_ok_inv. apply bind_ok_inv in H as (leaf & [Hok Hv]%genesis_leaf_ok & <-%Ok_inj).
  assert (∀ i', undecided_leaves i' = ∅ → ∀ l, holds i' l → l = anchor_leaf i') as Hh.
  { intros i' He l [->|[v Hv']]; [done|]. by rewrite He in Hv'. }
  split; simpl.
  - by intros l ->%Hh.
  - lia.
  - by intros.
  - by intros.
  - intros l parent ->%Hh ->%Hh Hc; [|done..]. by destruct (own_parent leaf Hok).
  - by intros.
Qed.

Lemma load_leaves inst eh anchor start qcs props shares up v leaf :
  undecided_leaves (load inst eh anchor start qcs props shares up) !! v = Some leaf →
  ∃ w p, props !! w = Some p ∧ leaf_view anchor < p_view_number (proposal_data p) ∧
    leaf = leaf2_from_quorum_proposal (proposal_data p).
Proof using Type.
  intros [(p & [Hlt Hp]%list_elem_of_filter & _ & <-)|[? _]]%(insert_all_inv (fun p => p_view_number (proposal_data p))
    (fun p => leaf2_from_quorum_proposal (proposal_data p))); [|done].
  apply elem_of_btree_values in Hp as [w Hw]. by exists w, p.
Qed.

Lemma load_proposals inst eh anchor start qcs props shares up w p :
  let i := load inst eh anchor start qcs props shares up in
  keyed_by_view i → saved_proposals i !! w = Some p → leaf_view (anchor_leaf i) < w →
  let leaf := leaf2_from_quorum_proposal (proposal_data p) in
  undecided_leaves i !! w = Some leaf ∧ ∃ s d e, undecided_state i !! w = Some (LeafView (leaf2_commit leaf) s d e).
Proof using Type.
  intros i Hk Hp Hlt leaf.
  assert (undecided_leaves i !! w = Some leaf) as Hw.
  { destruct (insert_all_elem (fun p => p_view_number (proposal_data p)) (fun p => leaf2_from_quorum_proposal (proposal_data p)) ∅
      (filter (fun p => leaf_view anchor < p_view_number (proposal_data p)) (btree_values props)) p) as (q & Hq & He & Hl).
    { apply list_elem_of_filter. rewrite (Hk w p Hp). split; [done|]. apply elem_of_btree_values. eauto. }
    apply list_elem_of_filter in Hq as [_ [x Hx]%elem_of_btree_values]. rewrite (Hk w p Hp) in Hl, He.
    rewrite (Hk x q Hx) in He. subst x. change (saved_proposals i) with props in Hp. simplify_eq. done. }
  split; [done|].
  destruct (insert_all_elem leaf_view (header_view eh) ∅ (btree_values (undecided_leaves i)) leaf) as (l & Hl & He & Hs).
  { apply elem_of_btree_values. eauto. }
  assert (leaf_view leaf = w) as Hv by (apply (Hk w p Hp)). rewrite Hv in Hs, He.
  apply elem_of_btree_values in Hl as [x Hx]. assert (x = w) as ->; [|simplify_eq; do 3 eexists; exact Hs].
  apply insert_all_inv in Hx as [(q & [_ [y Hy]%elem_of_btree_values]%list_elem_of_filter & <- & <-)|[? _]]; [done|done].
Qed.

Lemma load_init_ok inst eh anchor start qcs props shares up :
  leaf_ok anchor → 0 <= leaf_view anchor →
  (∀ v p, props !! v = Some p → leaf_wf (leaf2_from_quorum_proposal (proposal_data p))) →
  let i := load inst eh anchor start qcs props shares up in
  (∀ leaf parent, holds i leaf → holds i parent → leaf_commit (data (justify_qc leaf)) = leaf2_commit parent →
     view_number (justify_qc leaf) = leaf_view parent) →
  init_ok i.
Proof using Type.
  intros Ha Hv Hp i Hcerts. split; [|done| | |done|by apply load_proposals].
  - intros leaf [->|[v (w & p & Hw & _ & ->)%load_leaves]]; [done|]. split; [by eapply Hp|done].
  - intros v leaf (w & p & _ & Hlt & ->)%load_leaves. done.
  - intros v x [(leaf & [w Hw]%elem_of_btree_values & <- & <-)|[? _]]%(insert_all_inv leaf_view (header_view eh)); [|done].
    by exists w, leaf, (from_header (block_header leaf)), None, (leaf_epoch leaf eh).
Qed.

Lemma initialized_ok i : initialized i → init_ok i.
Proof using Rk. destruct 1; [by eapply genesis_init_ok|by apply load_init_ok]. Qed.

(** What is in the first state. *)
Lemma initial_saved i (config : HotShotConfig) h leaf :
  saved_leaves (initial_consensus i config) !! h = Some leaf → holds i leaf ∧ h = leaf2_commit leaf.
Proof using Type.
  intros [(l & [w Hw]%elem_of_btree_values & <- & <-)|[Hs _]]%(insert_all_inv leaf2_commit id).
  - split; [right; by exists w|done].
  - apply lookup_singleton_Some in Hs as [<- <-]. split; [by left|done].
Qed.

(** Every leaf is saved, up to what its commitment does not fix. *)
Lemma initial_saves i (config : HotShotConfig) leaf :
  init_ok i → holds i leaf →
  ∃ leaf', holds i leaf' ∧ leaf2_commit leaf' = leaf2_commit leaf ∧ leaf_view leaf' = leaf_view leaf ∧
    saved_leaves (initial_consensus i config) !! leaf2_commit leaf = Some leaf'.
Proof using Lm.
  intros Hi Hl.
  assert (∃ l', saved_leaves (initial_consensus i config) !! leaf2_commit leaf = Some l') as [l' Hs].
  { destruct Hl as [->|[v Hv]].
    - apply (insert_all_grows leaf2_commit id). by rewrite lookup_singleton_eq.
    - destruct (insert_all_elem leaf2_commit id {[leaf2_commit (anchor_leaf i) := anchor_leaf i]}
        (btree_values (undecided_leaves i)) leaf) as (x & _ & _ & Hx); [apply elem_of_btree_values; eauto|]. by exists x. }
  destruct (initial_saved i config _ _ Hs) as [Hh He]. exists l'. split_and!; [done|done| |done].
  destruct (io_leaves i Hi l' Hh) as [? _], (io_leaves i Hi leaf Hl) as [? _]. symmetry. by apply (leaf2_commit_inv leaf l').
Qed.

Lemma initial_views i (config : HotShotConfig) v x :
  init_ok i → validated_state_map (initial_consensus i config) !! v = Some x →
  ∃ leaf s d e, holds i leaf ∧ leaf_view leaf = v ∧ x = LeafView (leaf2_commit leaf) s d e.
Proof using Type.
  intros Hi [Hu|[_ Hs]]%lookup_union_Some_raw.
  - apply (io_states i Hi) in Hu as (w & leaf & s & d & e & Hw & <- & ->). exists leaf, s, d, e. split; [right; eauto|done].
  - apply lookup_singleton_Some in Hs as [<- <-]. do 4 eexists. split; [by left|done].
Qed.

(** The anchor keeps its place. *)
Lemma initial_anchor i (config : HotShotConfig) :
  init_ok i →
  (∃ s d e, validated_state_map (initial_consensus i config) !! leaf_view (anchor_leaf i) =
     Some (LeafView (leaf2_commit (anchor_leaf i)) s d e)) ∧
  saved_leaves (initial_consensus i config) !! leaf2_commit (anchor_leaf i) = Some (anchor_leaf i).
Proof using Lm.
  intros Hi. split.
  - do 3 eexists. apply lookup_union_Some_raw. right. split; [|by rewrite lookup_singleton_eq].
    destruct (undecided_state i !! _) as [x|] eqn:Hx; [|done].
    apply (io_states i Hi) in Hx as (w & leaf & s & d & e & Hw%(io_newer i Hi) & Hv & _). lia.
  - apply (insert_all_keeps leaf2_commit id); [by rewrite lookup_singleton_eq|].
    intros leaf [w Hw]%elem_of_btree_values He. pose proof (io_newer i Hi _ _ Hw).
    destruct (io_leaves i Hi leaf) as [Hwf _]; [right; eauto|]. destruct (io_leaves i Hi (anchor_leaf i)) as [Hwf' _]; [by left|].
    destruct (leaf2_commit_inv _ _ Hwf Hwf' He) as [Heq _]. lia.
Qed.

(** The lock does not survive a restart: it is set to the view of the anchor leaf. *)
Lemma restart_forgets_lock i (config : HotShotConfig) :
  locked_view (initial_consensus i config) = leaf_view (anchor_leaf i).
Proof using Type. done. Qed.

Lemma initial_inv i (config : HotShotConfig) : init_ok i → cons_inv (initial_consensus i config).
Proof using Lm.
  intros Hi. split.
  - intros h leaf [Hh He]%initial_saved. split; [done|]. by apply (io_leaves i Hi).
  - intros v h s d e (leaf & s' & d' & e' & Hl & <- & [= -> -> -> ->])%(initial_views i config _ _ Hi).
    destruct (initial_saves i config leaf Hi Hl) as (leaf' & _ & _ & Hv & Hs). by exists leaf'.
  - destruct (initial_anchor i config Hi) as [(s & d & e & Ha) _].
    change (last_decided_view _) with (leaf_view (anchor_leaf i)). rewrite Ha. by eexists.
Qed.

Lemma initial_certs i (config : HotShotConfig) : init_ok i → certs_match (initial_consensus i config).
Proof using Type.
  intros Hi h leaf parent [Hl _]%initial_saved [Hp Hc]%initial_saved. split; [by apply (io_certs i Hi)|].
  pose proof (io_anchor i Hi). destruct Hp as [->|[v Hv%(io_newer i Hi)]]; lia.
Qed.

Lemma initial_decided i (config : HotShotConfig) :
  init_ok i → decided_leaf (E := Error) (initial_consensus i config) = Ok (anchor_leaf i).
Proof using Lm.
  intros Hi. destruct (initial_anchor i config Hi) as [(s & d & e & Ha) Hs].
  assert (last_decided_view (initial_consensus i config) = leaf_view (anchor_leaf i)) as Hd by done.
  revert Ha Hs Hd. generalize (initial_consensus i config). intros c Ha Hs Hd. unfold decided_leaf.
  rewrite Hd, Ha. simpl. by rewrite Hs.
Qed.

(** What the theorems about a task ask of the state it starts in. *)
Definition startable (t : Spawned (M := M)) : Prop :=
  match t with
  | ViewSyncTask t => vs_reachable t.1 t.2 []
  | QuorumProposalTask t => proposal_dependencies t.2 = ∅ ∧ view_number (pr_highest_qc t.2) = view_number (high_qc (pr_consensus t.2))
  | QuorumVoteTask t =>
      cons_inv (qv_consensus t.2) ∧ certs_match (qv_consensus t.2) ∧ drb_healthy t.2 ∧ tasks_current (t.2, ∅)
  | ConsensusTask_ t => cur_view (ct_consensus t.2) = ct_cur_view t.2 ∧ ct_timeout_task t.2 = None
  | DaTask_ t => da_cur_view t.2 = cur_view (da_consensus t.2) ∧ da_collectors t.2 = ∅
  | VidTask t => vid_cur_view t.2 = cur_view (vid_consensus t.2)
  | UpgradeTask t =>
      ug_collectors t.2 = ∅ ∧ version_ge Base Upgrade = false ∧
      ∀ cert, decided_upgrade_certificate (ug_lock t.1) = Some cert → version_ge Base (new_version (data cert)) = false
  | TransactionTask _ | QuorumProposalRecvTask _ => True
  end.

Lemma cleared_lock lock (cert : UpgradeCertificate) :
  decided_upgrade_certificate (clear_upgrade_lock lock) = Some cert →
  decided_upgrade_certificate lock = Some cert ∧ version_ge Base (new_version (data cert)) = false.
Proof using Type.
  unfold clear_upgrade_lock. destruct (decided_upgrade_certificate lock) as [c|] eqn:Hl; [|by rewrite Hl].
  destruct (version_ge Base (new_version (data c))) eqn:Hv; [done|]. rewrite Hl. by intros [= <-].
Qed.

(** C14. A node starts in a consistent state.  Made for the genesis block, or from a decided
    leaf and proposals that were stored: the consensus invariant holds and the decided
    leaf is the anchor; every stored proposal after the anchor has its leaf saved and its
    view in the state map; each task starts in a state from which the theorems about it
    apply; and no vote and no proposal is permitted for the view of the last action or
    before it. *)
Theorem nodes_start_consistent i public_key private_key nonce (config : HotShotConfig) (memberships : M) answers stored down
    headers key_to_bytes constants :
  initialized i →
  let h := new_from_channels public_key private_key nonce config memberships i in
  let c := sc_consensus h in
  cons_inv c ∧ decided_leaf (E := Error) c = Ok (anchor_leaf i) ∧
  (∀ w p, keyed_by_view i → saved_proposals i !! w = Some p → leaf_view (anchor_leaf i) < w →
     let commitment := leaf2_commit (leaf2_from_quorum_proposal (proposal_data p)) in
     ∃ leaf s d e, saved_leaves c !! commitment = Some leaf ∧ leaf_view leaf = w ∧
       validated_state_map c !! w = Some (LeafView commitment s d e)) ∧
  Forall startable (add_consensus_tasks answers stored down headers key_to_bytes constants h).2 ∧
  ∀ a v, a = Vote ∨ a = Propose ∨ a = DaPropose → v <= last_actioned_view i → (update_action c a v).2 = false.
Proof using Lm Rk.
  intros Hi%initialized_ok h c. split_and!.
  - by apply initial_inv.
  - by apply initial_decided.
  - intros w p Hk Hp Hlt. destruct (io_proposals i Hi w p Hk Hp Hlt) as (Hw & s & d & e & Hst).
    destruct (initial_saves i config _ Hi (or_intror (ex_intro _ w Hw))) as (leaf' & _ & _ & Hv & Hs).
    exists leaf', s, d, e. split_and!; [done|rewrite Hv; by apply Hk|]. apply lookup_union_Some_raw. by left.
  - pose proof (io_anchor i Hi) as Ha. unfold add_consensus_tasks, snd at 1. rewrite !Forall_app, !Forall_cons, !Forall_nil.
    split_and!; try done; simpl.
    + by constructor.
    + destruct (version_ge Base Upgrade) eqn:Hver; [done|]. apply Forall_singleton. split_and!; [done..|].
      by intros cert [_ ?]%cleared_lock.
    + split_and!; [by apply initial_inv|by apply initial_certs|done|]. split; [done|]. by intros v ?%elem_of_empty.
  - intros a v [->|[->| ->]] Hle; simpl; by rewrite (proj2 (Z.ltb_ge _ _)).
Qed.
End Start.

(** ** Restarting *)

Section Restart.
Context `{Sg : SignatureScheme} `{Cm : Committable} `{Vt : VidTypes} `{Vs : Versions}.
Context `{Bt : !BlockTypes} `{Vd : !VidScheme} `{Bu : !BuilderTypes} `{Ba : !BuilderApi}.
Context {M : Type} `{Mb : !Membership M}.
Context `{Vb : !Vbs (Message Transaction)}.
Context {St : Type} {So : Storage St} {Al : ActionLog So}.
Implicit Types (n : Node (St := St)).

(** A crash and the start that follows: the state and the jobs are lost, and the node is
    started from its storage with [load], in the view of its last recorded action. *)
Inductive restarted n : Node (St := St) → Prop :=
  | restart_loads instance_state epoch_height anchor start_epoch high_qcs proposals shares upgrade (config : HotShotConfig) :
      let i := load instance_state epoch_height anchor (actioned (nd_storage n), start_epoch) high_qcs proposals shares upgrade in
      restarted n {| nd_net := create_network_task; nd_consensus := initial_consensus i config;
                     nd_storage := nd_storage n; nd_jobs := []; nd_wire := nd_wire n |}.

(** The lives of a node.  It runs, with a committee and an upgrade lock that may change,
    and may crash at any moment.  What it has sent stays sent. *)
Inductive life_step n : Node (St := St) → Prop :=
  | life_run (membership : M) lock n' : node_step membership lock n n' → life_step n n'
  | life_restart n' : restarted n n' → life_step n n'.

(** The votes and proposals that have been sent are recorded, and so are those that the jobs
    have only to store, serialize and send. *)
Definition kept_on_record (a : HotShotAction) : Prop := a = Vote ∨ a = Propose.
Definition recorded n : Prop :=
  ∀ a, kept_on_record a →
    Forall (fun v => v <= actioned (nd_storage n)) (wire_views a (nd_wire n)) ∧
    Forall (fun r => ∀ v, job_view a r.1 = Some v → past_record r.2 → v <= actioned (nd_storage n)) (nd_jobs n).

Lemma kept_guarded a : kept_on_record a → guarded a.
Proof using Type. unfold kept_on_record, guarded. naive_solver. Qed.

(** A part of a job only adds to the record; what is sent, and what is left to send, has
    been recorded. *)
Lemma run_part_logs lock j body c (st : St) c' st' body' p :
  run_part lock body (c, st) = (c', st', body', p) →
  actioned st <= actioned st' ∧ (is_Some p → past_record body) ∧
  (job_ok (j, body) → ∀ a v, kept_on_record a → job_view a j = Some v → past_record body' →
     body' = Returned ∨ past_record body ∨ v <= actioned st').
Proof using Type.
  intros Hr. split_and!.
  - destruct body as [| |v ep a k|prop k| |]; simpl in Hr; repeat case_match; simplify_eq; try lia.
    + by eapply (record_action_logs _ _ _ _ _ H).
    + by eapply append_proposal2_logs.
  - intros [? ->]. destruct body; simpl in Hr; repeat case_match; by simplify_eq.
  - intros Hok a v Ha Hv Hp. destruct (Hok a v Hv) as [(k & Hb & Hk & Hd)|[(ep & k & Hb & Hk & Hd)|Hd]]; simpl in *.
    + subst body. simpl in Hr. destruct (update_action c a v) as [c1 []]; simplify_eq; [|by left].
      destruct Hd as (ep & k' & Hk' & _). by rewrite Hk' in Hp.
    + subst body. simpl in Hr. destruct (record_action _ _ _ _) as [st1|] eqn:Hrec; simplify_eq; [|by left].
      right; right. apply record_action_logs in Hrec as [_ Hl]. by apply Hl; destruct Ha; auto.
    + by right; left.
Qed.

Lemma recorded_step (membership : M) lock n n' :
  node_step membership lock n n' → Forall job_ok (nd_jobs n) → recorded n →
  actioned (nd_storage n) <= actioned (nd_storage n') ∧ recorded n'.
Proof using Type.
  intros Hs Hj Hr.
  destruct Hs as [e r net jobs He|c Hc|js1 j body js2 c st body' p Hjs Hrun|js1 j body js2 Hjs]; simpl.
  - split; [done|]. intros a Ha. destruct (Hr a Ha) as [Hw Hall]. split; [done|]. simpl. apply Forall_app_2; [done|].
    apply Forall_fmap, Forall_forall. intros j Hj' v Hv Hp.
    assert (acts j) as Hacts by (eapply (network_handle_jobs membership lock e); unfold emits; by rewrite He).
    simpl in *. destruct (job_body_due j a v Hacts Hv) as (k & Hb & _). by rewrite Hb in Hp.
  - done.
  - rewrite Hjs in Hj. apply Forall_app in Hj as [_ [Hj _]%Forall_cons].
    destruct (run_part_logs lock j body _ _ _ _ _ _ Hrun) as (Hle & Hsent & Hleft). split; [done|].
    intros a Ha. destruct (Hr a Ha) as [Hw Hall]. rewrite Hjs in Hall.
    apply Forall_app in Hall as [Hall1 [Hall0 Hall2]%Forall_cons]. simpl in Hall0.
    assert (∀ rs : list (Job * JobBody), Forall (fun r => ∀ v, job_view a r.1 = Some v → past_record r.2 → v <= actioned (nd_storage n)) rs →
      Forall (fun r => ∀ v, job_view a r.1 = Some v → past_record r.2 → v <= actioned st) rs) as Hmono.
    { intros rs H. eapply Forall_impl; [exact H|]. intros r Hr' v Hv Hp. specialize (Hr' v Hv Hp). lia. }
    split; simpl.
    + unfold wire_views in *. rewrite omap_app. apply Forall_app_2; [eapply Forall_impl; [exact Hw|]; simpl; lia|].
      destruct p as [p|]; [|constructor]. simpl. destruct (job_view a j) as [v|] eqn:Hv; [|constructor].
      apply Forall_singleton. specialize (Hall0 v eq_refl (Hsent ltac:(eauto))). lia.
    + repeat apply Forall_app_2; [by apply Hmono| |by apply Hmono].
      assert (body' = Returned ∨ left_of j body' = [(j, body')]) as [->|Heq] by (destruct body'; auto); [constructor|].
      rewrite Heq. apply Forall_singleton. simpl. intros v Hv Hp.
      destruct (Hleft Hj a v Ha Hv Hp) as [->|[Hpl|?]]; [done| |done]. specialize (Hall0 v Hv Hpl). lia.
  - split; [done|]. intros a Ha. destruct (Hr a Ha) as [Hw Hall]. split; [done|]. simpl. rewrite Hjs in Hall.
    apply Forall_app in Hall as [? [_ ?]%Forall_cons]. by apply Forall_app_2.
Qed.

Lemma life_step_ok n n' :
  life_step n n' → wire_ok kept_on_record n ∧ recorded n → wire_ok kept_on_record n' ∧ recorded n'.
Proof using Type.
  intros Hs [Hw Hr]. destruct Hs as [membership lock n' Hs|n' Hs].
  - split; [by eapply wire_ok_step; eauto using kept_guarded|]. by eapply recorded_step; [|apply Hw|].
  - destruct Hs. split; [|intros a Ha; destruct (Hr a Ha); split; [done|constructor]].
    destruct Hw as [_ Hw]. split; [constructor|]. simpl. intros a w Ha Hg. unfold claimed. simpl. rewrite app_nil_r.
    assert (w = actioned (nd_storage n)) as -> by (destruct Ha as [->| ->]; simpl in Hg; by simplify_eq).
    split; [|by apply Hr]. assert (∃ g, guarded_view a (last_actions (nd_consensus n)) = Some g) as [g Hg']
      by (destruct Ha as [->| ->]; by eexists). by destruct (Hw a g Ha Hg') as [[? _]%NoDup_app _].
Qed.

Lemma life_ok n n' :
  nd_jobs n = [] → nd_wire n = [] → rtc life_step n n' → wire_ok kept_on_record n' ∧ recorded n'.
Proof using Type.
  intros Hj Hw Hs. assert (wire_ok kept_on_record n ∧ recorded n) as Hn.
  { split; [split; [by rewrite Hj|]; intros; unfold claimed; rewrite Hw, Hj; split; constructor|].
    intros b _. rewrite Hw, Hj. split; constructor. }
  clear -Hs Hn. induction Hs; eauto using life_step_ok.
Qed.

(** Since the wire was [past], the node has claimed views above [bound] only. *)
Definition beyond (bound : ViewNumber) (past : list (Job * Packet)) n : Prop :=
  bound <= actioned (nd_storage n) ∧
  ∃ w, nd_wire n = past ++ w ∧ ∀ a, kept_on_record a →
    Forall (fun v => bound < v) (wire_views a w ++ held a (nd_jobs n)) ∧
    ∃ g, guarded_view a (last_actions (nd_consensus n)) = Some g ∧ bound <= g.

Lemma beyond_step bound past n n' :
  life_step n n' → wire_ok kept_on_record n → recorded n → beyond bound past n → beyond bound past n'.
Proof using Type.
  intros Hs Hw Hr (Hb & w & Heq & Hall). destruct Hs as [membership lock n' Hs|n' Hs].
  - destruct (recorded_step _ _ _ _ Hs (proj1 Hw) Hr) as [Hle _]. split; [lia|].
    apply node_step_claims in Hs as (Hp & _ & w' & Hwire & Hcl); [|apply Hw].
    exists (w ++ w'). rewrite Hwire, Heq, <- app_assoc. split; [done|]. intros a Ha.
    destruct (Hall a Ha) as ([Hv Hh]%Forall_app & g & Hg & Hbg).
    destruct (Hcl a (kept_guarded a Ha)) as (new & Hsub & Hnew).
    destruct (guarded_view_progress _ _ _ _ Hp Hg) as (g' & Hg' & Hgg). split; [|exists g'; split; [done|lia]].
    unfold wire_views in *. rewrite omap_app, <- app_assoc. apply Forall_app_2; [done|].
    apply submseteq_Permutation in Hsub as [rest Hsub].
    assert (Forall (fun v => bound < v) (new ++ held a (nd_jobs n))) as H.
    { apply Forall_app_2; [|done]. destruct Hnew as [->|(v & g0 & -> & ? & ? & _)]; [constructor|].
      apply Forall_singleton. simplify_eq. lia. }
    rewrite Hsub in H. by apply Forall_app in H as [? _].
  - destruct Hs. split; [done|]. exists w. split; [done|]. intros a Ha. destruct (Hall a Ha) as ([Hv _]%Forall_app & _).
    simpl. rewrite app_nil_r. split; [done|]. exists (actioned (nd_storage n)). split; [|done]. by destruct Ha as [->| ->].
Qed.

(** C3. Votes and proposals survive restarts.  Let a node run and crash and restart, any
    number of times and at any moment, between recording an action and sending the message
    too, and let each restart load the view of the last recorded action.  Then over all its
    lives the node sends at most one vote (quorum or timeout) and one proposal in each view,
    and those it sends after a restart are for views above all those it sent before. *)
Theorem restarts_never_repeat n n' a :
  nd_jobs n = [] → nd_wire n = [] → rtc life_step n n' → kept_on_record a →
  NoDup (wire_views a (nd_wire n')) ∧
  ∀ n1 n2, rtc life_step n n1 → restarted n1 n2 → rtc life_step n2 n' →
    ∃ w, nd_wire n' = nd_wire n1 ++ w ∧
      ∀ v v', v ∈ wire_views a (nd_wire n1) → v' ∈ wire_views a w → v < v'.
Proof using Al.
  intros Hj Hw Hs Ha. split.
  - destruct (life_ok n n' Hj Hw Hs) as [[_ H'] _].
    assert (∃ g, guarded_view a (last_actions (nd_consensus n')) = Some g) as [g Hg] by (destruct Ha as [->| ->]; by eexists).
    by destruct (H' a g Ha Hg) as [[? _]%NoDup_app _].
  - intros n1 n2 H1 Hre H2. destruct (life_ok n n1 Hj Hw H1) as [Hok1 Hrec1].
    destruct (life_step_ok n1 n2 (life_restart _ _ Hre) (conj Hok1 Hrec1)) as [Hok2 Hrec2].
    assert (beyond (actioned (nd_storage n1)) (nd_wire n1) n2) as Hbe.
    { destruct Hre. split; [done|]. exists []. split; [by rewrite app_nil_r|]. intros b Hb. split; [constructor|].
      exists (actioned (nd_storage n1)). split; [|done]. by destruct Hb as [->| ->]. }
    assert (beyond (actioned (nd_storage n1)) (nd_wire n1) n') as (_ & w & Heq & Hall).
    { clear -H2 Hok2 Hrec2 Hbe Al. induction H2 as [|n2 n3 n4 H23 _ IH]; [done|].
      destruct (life_step_ok _ _ H23 (conj Hok2 Hrec2)). eauto using beyond_step. }
    exists w. split; [done|]. destruct (Hall a Ha) as ([Hlow _]%Forall_app & _). destruct (Hrec1 a Ha) as [Hup _].
    intros v v' Hv Hv'. rewrite Forall_forall in Hlow, Hup. specialize (Hlow v' Hv'). specialize (Hup v Hv). simpl in *. lia.
Qed.
End Restart.

(** ** Requests of the application *)

Section Requests.
Context `{Sg : SignatureScheme} `{Cm : Committable} `{Vt : VidTypes} `{Vs : Versions}.
Context `{Bt : !BlockTypes} `{Vd : !VidScheme} `{Bu : !BuilderTypes} `{Ba : !BuilderApi}.
Context {M : Type} `{Mb : !Membership M}.
Implicit Types (h : SystemContext (M := M)).

(** The response that is asked for. *)
Definition right_response h view commitment (p : Proposal QuorumProposal2) : Prop :=
  p_view_number (proposal_data p) = view ∧
  validate_signature p (sc_memberships h) (hc_epoch_height (sc_config h)) = Ok tt ∧
  leaf2_commit (leaf2_from_quorum_proposal (proposal_data p)) = commitment.

Lemma await_requested_sound h view commitment events p :
  await_requested h view commitment events = Some (Ok p) →
  Ev.QuorumProposalResponseRecv p ∈ events ∧ right_response h view commitment p.
Proof using Type.
  induction events as [|e events IH]; [done|]. destruct e; cbn [await_requested];
    try (intros [? ?]%IH; split; [by right|done]).
  destruct (Z.eqb_spec (p_view_number (proposal_data p0)) view) as [Hv|]; [|intros [? ?]%IH; split; [by right|done]].
  destruct (validate_signature p0 _ _) as [[]| |] eqn:Hs; [|intros [? ?]%IH; split; [by right|done]|done].
  case_bool_decide; [|intros [? ?]%IH; split; [by right|done]]. intros [= <-]. split; [by left|done].
Qed.

Lemma await_requested_complete h view commitment events p :
  Ev.QuorumProposalResponseRecv p ∈ events → right_response h view commitment p →
  (∀ q, validate_signature q (sc_memberships h) (hc_epoch_height (sc_config h)) ≠ Panic) →
  ∃ q, await_requested h view commitment events = Some (Ok q).
Proof using Type.
  intros Hin (Hv & Hs & Hc) Hp. induction events as [|e events IH]; [by apply elem_of_nil in Hin|].
  apply elem_of_cons in Hin as [<-|Hin].
  - cbn [await_requested]. rewrite Hv, Z.eqb_refl, Hs, bool_decide_eq_true_2 by done. eauto.
  - specialize (IH Hin). destruct e; cbn [await_requested]; try done. case_match; [|done].
    specialize (Hp p0). destruct (validate_signature p0 _ _); [|done|done]. case_match; [eauto|done].
Qed.

(** A proposal that the application is given is one it was sent in a response, for the
    view and the leaf it asked for, signed by the leader of the view; and when such a
    response arrives it is given one, whatever else arrives. *)
Theorem requested_proposals_are_right h key_to_bytes view commitment req wait events :
  request_proposal key_to_bytes h view commitment = Ok (req, wait) →
  (∀ p, wait events = Some (Ok p) → Ev.QuorumProposalResponseRecv p ∈ events ∧ right_response h view commitment p) ∧
  ((∀ q, validate_signature q (sc_memberships h) (hc_epoch_height (sc_config h)) ≠ Panic) →
   (∃ p, Ev.QuorumProposalResponseRecv p ∈ events ∧ right_response h view commitment p) →
   ∃ p, wait events = Some (Ok p)).
Proof using Type.
  intros (sig & _ & [= <- <-]%Ok_inj)%bind_ok_inv. split; [intros p; apply await_requested_sound|].
  intros Hp (p & Hin & Hr). by eapply await_requested_complete.
Qed.

(** A transaction that is published reaches every node that takes the message in and has
    not seen it. *)
Lemma published_transactions_arrive `{Vb : !Vbs (Message Transaction)} `{Vl : !VbsLaws Vb} {Cache : Type}
    (hash : Transaction → Z) (put : Cache → Z → Cache * bool) h tx r message recipients rest ms :
  publish_transaction_async h tx = (r, AppDaBroadcast message recipients :: rest) →
  (put (transactions_cache ms) (hash tx)).2 = false →
  r = Ok tt ∧ ∃ m, deserialize (sc_upgrade_lock h) message = Ok m ∧
    (handle_message hash put ms m).2 = [Internal (Ev.TransactionsRecv [tx])].
Proof using Type.
  unfold publish_transaction_async. intros H Hput. destruct (serialize _ _) as [b| |] eqn:Hs; [|done|done].
  destruct (da_committee_members _ _ _); simplify_eq. apply deserialize_serialize in Hs. split; [done|].
  eexists. split; [exact Hs|]. unfold handle_message. simpl. revert Hput. by destruct (put _ _) as [? []].
Qed.
End Requests.

(** ** Witnesses *)

Module SystemDemo.
#[local] Existing Instance StaticCommittee.
#[local] Existing Instance Ideal.open_signatures.

Definition instance : InstanceState (BlockTypes := DataDemo.blocks) := tt.
Definition genesis_state (_ : InstanceState) : ValidatedState * Delta := (0, tt).
Definition config : HotShotConfig :=
  {| hc_epoch_height := 10; hc_windows := UpgradeConfig_default; hc_builder_urls := 1; hc_fallback_builder_url := 0 : Url |}.

(** A node that has decided the first leaf and stored a proposal for view 1. *)
Definition stored : gmap ViewNumber (Proposal QuorumProposal2) := {[1 := ValidationDemo.proposal 20]}.
Definition restart (view : ViewNumber) : HotShotInitializer :=
  load instance 10 ConsDemo.l0 (view, None) (DataDemo.qc 0 (leaf2_commit ConsDemo.l0), None) stored ∅ None.

Lemma restart_holds view leaf :
  holds (restart view) leaf → leaf = ConsDemo.l0 ∨ leaf = leaf2_from_quorum_proposal ValidationDemo.proposal_data1.
Proof.
  intros [->|[v (w & p & Hw & _ & ->)%load_leaves]]; [by left|right].
  unfold stored in Hw. apply lookup_singleton_Some in Hw as [_ <-]. done.
Qed.

Lemma restart_initialized view : initialized genesis_state (restart view).
Proof.
  apply init_load.
  - apply ConsDemo.demo_leaf_ok.
  - done.
  - intros v p Hp. unfold stored in Hp. apply lookup_singleton_Some in Hp as [_ <-]. exact I.
  - intros leaf parent Hl%restart_holds Hp%restart_holds.
    destruct Hl as [->| ->], Hp as [->| ->]; intros He; try reflexivity.
    + by apply own_parent in He; [|apply ConsDemo.demo_leaf_ok].
    + apply (f_equal rank) in He. exfalso. pose proof (parent_rank (leaf2_from_quorum_proposal ValidationDemo.proposal_data1)) as Hr.
      pose proof (parent_rank ConsDemo.l0) as Hr'. simpl in *. lia.
    + by apply own_parent in He; [|split; [exact I|done]].
Qed.

Definition headers : HeaderBuilder :=
  {| new_legacy _ _ _ _ _ _ _ _ _ := None; new_marketplace _ _ _ _ _ _ _ _ _ _ _ := None |}.

(** A node that is to vote in view 5, crash, and be asked to vote for view 5 again. *)
Definition node0 : Node (St := TestStorageState) :=
  {| nd_net := create_network_task; nd_consensus := initial_consensus (restart 0) config;
     nd_storage := TestStorageState_default; nd_jobs := []; nd_wire := [] |}.
End SystemDemo.

#[local] Existing Instance StaticCommittee.
#[local] Existing Instance Ideal.open_signatures.

Lemma nodes_start_consistent_witness :
  let c := initial_consensus (SystemDemo.restart 5) SystemDemo.config in
  cons_inv c ∧ (update_action c Vote 5).2 = false.
Proof.
  destruct (nodes_start_consistent SystemDemo.genesis_state (SystemDemo.restart 5) (20 : @PubKey Ideal.open_signatures)
    (20 : @PrivKey Ideal.open_signatures) 0 SystemDemo.config
    Demo.committee (vi_storage ValidationDemo.info) true false SystemDemo.headers (fun _ => []) DEFAULT_UPGRADE_CONSTANTS
    (SystemDemo.restart_initialized 5)) as (Hc & _ & _ & _ & Ha).
  split; [exact Hc|]. apply Ha; [by left|done].
Defined.

Lemma moves_live (membership : Committee) lock (n : Node (St := TestStorageState)) ms :
  rtc (life_step (M := Committee) (Vb := NetDemo.any_vbs) (So := test_storage false)) n
    (foldl (move (Vb := NetDemo.any_vbs) (So := test_storage false) membership lock) n ms).
Proof. eapply (rtc_congruence id); [|apply moves_reach]. intros x y H. by eapply life_run. Qed.

Lemma demo_life :
  ∃ n1 n2 n, rtc (life_step (M := Committee) (Vb := NetDemo.any_vbs) (So := test_storage false)) SystemDemo.node0 n1 ∧
    restarted (So := test_storage false) n1 n2 ∧
    rtc (life_step (M := Committee) (Vb := NetDemo.any_vbs) (So := test_storage false)) n2 n ∧
    wire_views Vote (nd_wire n1) = [5] ∧ wire_views Vote (nd_wire n) = [5; 6] ∧ action (nd_storage n) = 6.
Proof.
  eexists _, _, _. split_and!.
  - apply (moves_live Demo.committee UpgradeLock_new _
      [Handles (Ev.ExtendedQuorumVoteSend (NetDemo.vote 5)); Runs 0; Runs 0; Runs 0; Runs 0]).
  - apply (restart_loads _ SystemDemo.instance 10 ConsDemo.l0 None
      (DataDemo.qc 0 (leaf2_commit ConsDemo.l0), None) SystemDemo.stored ∅ None SystemDemo.config).
  - apply (moves_live Demo.committee UpgradeLock_new _
      [Handles (Ev.ExtendedQuorumVoteSend (NetDemo.vote 5)); Runs 0;
       Handles (Ev.ExtendedQuorumVoteSend (NetDemo.vote 6)); Runs 0; Runs 0; Runs 0; Runs 0]).
  - vm_compute. reflexivity.
  - vm_compute. reflexivity.
  - vm_compute. reflexivity.
Qed.

Lemma restarts_never_repeat_witness :
  ∃ n1 n, wire_views Vote (nd_wire n1) = [5] ∧ wire_views Vote (nd_wire n) = [5; 6] ∧
    NoDup (wire_views Vote (nd_wire (St := TestStorageState) n)) ∧
    ∃ w, nd_wire n = nd_wire (St := TestStorageState) n1 ++ w ∧
      ∀ v v', v ∈ wire_views Vote (nd_wire n1) → v' ∈ wire_views Vote w → v < v'.
Proof.
  destruct demo_life as (n1 & n2 & n & H1 & Hre & H2 & Hw1 & Hw & _). exists n1, n. split; [done|]. split; [done|].
  destruct (restarts_never_repeat (M := Committee) (Vb := NetDemo.any_vbs) (So := test_storage false) SystemDemo.node0 n Vote)
    as [Hnd Hlater]; [reflexivity|reflexivity| |by left|].
  - etrans; [exact H1|]. eapply rtc_l; [by apply life_restart|exact H2].
  - split; [exact Hnd|]. by apply (Hlater n1 n2).
Defined.
