(* ===== verification/RequestMessage.v ===== *)
(** * Messages of the request-response protocol

    [request-response/src/message.rs]: requests, signed together with the time they
    were made, and responses, with their byte format.  A reader is a function from the
    bytes left to a value and the bytes after it.  The application's request and
    response types ([src/request.rs]), the encodings of keys and signatures, the hash
    [blake3] and the clock are outside. *)

From S2P Require Import Prelude Crypto.

(** The traits [Request], [Response] and [Serializable]; [None] is an error. *)
Class RequestTypes `{Sg : SignatureScheme} := {
  Request : Type;
  Response : Type;
  req_to_bytes : Request → option bytes;
  req_from_bytes : bytes → option Request;
  resp_to_bytes : Response → option bytes;
  resp_from_bytes : bytes → option Response;
  req_validate : Request → bool;
  resp_validate : Response → Request → bool;
  key_to_bytes : PubKey → bytes;
  key_from_bytes : bytes → option PubKey;
  (** [bincode] on signatures *)
  sig_serialize : Sig → option bytes;
  sig_deserialize : bytes → option Sig;
  (** [blake3::hash], 32 bytes *)
  blake3 : bytes → bytes;
}.

(** What the encodings promise. *)
Class RequestLaws `{Rt : RequestTypes} := {
  req_roundtrip r b : req_to_bytes r = Some b → req_from_bytes b = Some r;
  resp_roundtrip r b : resp_to_bytes r = Some b → resp_from_bytes b = Some r;
  key_roundtrip k : key_from_bytes (key_to_bytes k) = Some k;
  sig_roundtrip s b : sig_serialize s = Some b → sig_deserialize b = Some s;
  blake3_length b : length (blake3 b) = 32%nat;
}.

(** The hash has no collisions. *)
Class HashInjective `{Rt : RequestTypes} := blake3_inj b b' : blake3 b = blake3 b' → b = b'.

(** ** Little-endian integers *)

(** [to_le_bytes] of an integer of [n] bytes, and back. *)
Fixpoint to_le_bytes (n : nat) (x : Z) : bytes :=
  match n with
  | O => []
  | S n => x mod 256 :: to_le_bytes n (x / 256)
  end.
Fixpoint from_le_bytes (b : bytes) : Z :=
  match b with
  | [] => 0
  | x :: b => x + 256 * from_le_bytes b
  end.

Lemma to_le_length n x : length (to_le_bytes n x) = n.
Proof. revert x. induction n; intros x; simpl; auto. Qed.

Lemma le_roundtrip n x : 0 <= x < 256 ^ Z.of_nat n → from_le_bytes (to_le_bytes n x) = x.
Proof.
  revert x. induction n as [|n IH]; intros x Hx; simpl; [lia|].
  rewrite Nat2Z.inj_succ, Z.pow_succ_r in Hx by lia. rewrite IH.
  - pose proof (Z_div_mod_eq_full x 256). lia.
  - split; [apply Z.div_pos; lia|]. apply Z.div_lt_upper_bound; lia.
Qed.

(** ** Readers *)

Definition Reader (A : Type) : Type := bytes → outcome Error (A * bytes).
#[global] Instance reader_ret : MRet Reader := fun A a b => Ok (a, b).
#[global] Instance reader_bind : MBind Reader := fun A B f r b => '(a, rest) ← r b; f a rest.

Definition reader_of {A} (x : outcome Error A) : Reader A := fun b => a ← x; Ok (a, b).

Definition read_exact (n : nat) : Reader bytes := fun b =>
  if decide (length b < n)%nat then Err "failed to fill whole buffer" else Ok (take n b, drop n b).
Definition read_u8 : Reader Z := b ← read_exact 1; mret (from_le_bytes b).
Definition read_u32 : Reader Z := b ← read_exact 4; mret (from_le_bytes b).
Definition read_u64 : Reader Z := b ← read_exact 8; mret (from_le_bytes b).
Definition read_to_end : Reader bytes := fun b => Ok (b, []).

Definition read_length_prefixed : Reader bytes := length ← read_u32; read_exact (Z.to_nat length).

Definition write_length_prefixed (value : bytes) : outcome Error bytes :=
  len ← (if decide (Z.of_nat (length value) < 2 ^ 32) then Ok (Z.of_nat (length value)) else Err "value was too large");
  Ok (to_le_bytes 4 len ++ value).

(** A reader that takes exactly what was written. *)
Definition reads {A} (r : Reader A) (written : bytes) (a : A) : Prop := ∀ rest, r (written ++ rest) = Ok (a, rest).

Lemma read_exact_reads n b : length b = n → reads (read_exact n) b b.
Proof.
  intros <- rest. unfold read_exact. rewrite length_app, decide_False by lia.
  by rewrite take_app_length, drop_app_length.
Qed.

Lemma bind_reads {A B} (r : Reader A) (f : A → Reader B) w1 w2 a b :
  reads r w1 a → reads (f a) w2 b → reads (r ≫= f) (w1 ++ w2) b.
Proof. intros H1 H2 rest. unfold mbind, reader_bind. rewrite <-app_assoc, H1. simpl. apply H2. Qed.

Lemma ret_reads {A} (a : A) : reads (mret a) [] a.
Proof. intros rest. done. Qed.

Lemma read_u8_reads x : 0 <= x < 256 → reads read_u8 [x] x.
Proof.
  intros Hx. unfold read_u8. rewrite <-(app_nil_r [x]). eapply bind_reads; [by apply read_exact_reads|].
  simpl. replace (x + 256 * 0) with x by lia. apply ret_reads.
Qed.

Lemma read_int_reads (n : nat) x : 0 <= x < 256 ^ Z.of_nat n →
  reads (b ← read_exact n; mret (from_le_bytes b)) (to_le_bytes n x) x.
Proof.
  intros Hx. rewrite <-(app_nil_r (to_le_bytes n x)). eapply bind_reads; [by apply read_exact_reads, to_le_length|].
  rewrite le_roundtrip by done. apply ret_reads.
Qed.

Lemma length_prefixed_reads value w : write_length_prefixed value = Ok w → reads read_length_prefixed w value.
Proof.
  unfold write_length_prefixed. case_decide as Hlen; mon; [|done]. intros <-%Ok_inj.
  eapply (bind_reads read_u32 (fun n => read_exact (Z.to_nat n))); [apply (read_int_reads 4); simpl; lia|].
  apply read_exact_reads. lia.
Qed.

(** ** Messages *)

Section Messages.
Context `{Sg : SignatureScheme} `{Rt : !RequestTypes}.

Record RequestMessage := {
  rm_public_key : PubKey;
  rm_signature : Sig;
  rm_timestamp_unix_seconds : Z;
  rm_request : Request;
}.

Record ResponseMessage := {
  rs_request_hash : bytes;
  rs_response : Response;
}.

Inductive Message :=
  | MRequest (m : RequestMessage)
  | MResponse (m : ResponseMessage).

(** The content that is signed. *)
Definition timestamped_content (request : bytes) (timestamp : Z) : bytes := request ++ to_le_bytes 8 timestamp.

(** [clock] is [None] before 1970. *)
Definition new_signed (clock : option Z) (public_key : PubKey) (private_key : PrivKey) (request : Request)
    : outcome Error RequestMessage :=
  timestamp ← unwrap clock;
  content ← ok_or (req_to_bytes request) "failed to serialize request content";
  signature ← ok_or (sign private_key (timestamped_content content timestamp)) "failed to sign message";
  Ok {| rm_public_key := public_key; rm_signature := signature; rm_timestamp_unix_seconds := timestamp;
        rm_request := request |}.

(** [u64::saturating_add] *)
Definition u64_saturating_add (a b : Z) : Z := Z.min (a + b) (u64_modulus - 1).

Definition request_validate (clock : option Z) (incoming_request_ttl : Z) (m : RequestMessage) : outcome Error unit :=
  now ← unwrap clock;
  if u64_saturating_add (rm_timestamp_unix_seconds m) incoming_request_ttl <? now then Err "request is too old"
  else
    content ← ok_or (req_to_bytes (rm_request m)) "failed to serialize";
    _ ← ensure (validate (rm_public_key m) (rm_signature m)
                  (timestamped_content content (rm_timestamp_unix_seconds m))) "invalid request signature";
    ensure (req_validate (rm_request m)) "invalid request".

Definition RequestMessage_to_bytes (m : RequestMessage) : outcome Error bytes :=
  key ← write_length_prefixed (key_to_bytes (rm_public_key m));
  sig ← ok_or (sig_serialize (rm_signature m)) "bincode";
  sig ← write_length_prefixed sig;
  request ← ok_or (req_to_bytes (rm_request m)) "failed to serialize";
  Ok (key ++ sig ++ to_le_bytes 8 (rm_timestamp_unix_seconds m) ++ request).

Definition RequestMessage_from_bytes : Reader RequestMessage :=
  key ← read_length_prefixed;
  public_key ← reader_of (ok_or (key_from_bytes key) "invalid key");
  sig ← read_length_prefixed;
  signature ← reader_of (ok_or (sig_deserialize sig) "bincode");
  timestamp ← read_u64;
  content ← read_to_end;
  request ← reader_of (ok_or (req_from_bytes content) "invalid request");
  mret {| rm_public_key := public_key; rm_signature := signature; rm_timestamp_unix_seconds := timestamp;
          rm_request := request |}.

Definition ResponseMessage_to_bytes (m : ResponseMessage) : outcome Error bytes :=
  response ← ok_or (resp_to_bytes (rs_response m)) "failed to serialize";
  Ok (rs_request_hash m ++ response).

Definition ResponseMessage_from_bytes : Reader ResponseMessage :=
  request_hash ← read_exact 32;
  content ← read_to_end;
  response ← reader_of (ok_or (resp_from_bytes content) "invalid response");
  mret {| rs_request_hash := request_hash; rs_response := response |}.

Definition Message_to_bytes (m : Message) : outcome Error bytes :=
  match m with
  | MRequest m => b ← RequestMessage_to_bytes m; Ok (0 :: b)
  | MResponse m => b ← ResponseMessage_to_bytes m; Ok (1 :: b)
  end.

Definition Message_reader : Reader Message :=
  type_byte ← read_u8;
  if type_byte =? 0 then m ← RequestMessage_from_bytes; mret (MRequest m)
  else if type_byte =? 1 then m ← ResponseMessage_from_bytes; mret (MResponse m)
  else reader_of (Err "invalid message type").

Definition Message_from_bytes (b : bytes) : outcome Error Message := '(m, _) ← Message_reader b; Ok m.

(** ** Properties *)

(** What the types of the fields say: a 64-bit time, a hash of 32 bytes. *)
Definition message_ok (m : Message) : Prop :=
  match m with
  | MRequest m => is_u64 (rm_timestamp_unix_seconds m)
  | MResponse m => length (rs_request_hash m) = 32%nat
  end.

Context `{Rl : !RequestLaws}.

(** A reader that is followed by [read_to_end] takes all the bytes. *)
Lemma reader_run {A B} (r : Reader A) (f : A → Reader B) w a rest :
  reads r w a → (r ≫= f) (w ++ rest) = f a rest.
Proof using Type. intros Hr. unfold mbind, reader_bind. by rewrite Hr. Qed.

Lemma reader_of_run {A B} (a : A) (f : A → Reader B) b : (reader_of (Ok a) ≫= f) b = f a b.
Proof using Type. done. Qed.

Lemma request_reads m b :
  is_u64 (rm_timestamp_unix_seconds m) → RequestMessage_to_bytes m = Ok b → RequestMessage_from_bytes b = Ok (m, []).
Proof using Rl.
  destruct m as [key sig ts req]. unfold RequestMessage_to_bytes. cbn [rm_public_key rm_signature rm_timestamp_unix_seconds rm_request].
  intros Hts (wkey & Hkey & (bsig & Hsig & (wsig & Hwsig & (breq & Hreq & <-%Ok_inj)%bind_ok_inv)%bind_ok_inv)%bind_ok_inv)%bind_ok_inv.
  apply ok_or_Ok in Hsig, Hreq.
  unfold RequestMessage_from_bytes. rewrite (reader_run _ _ _ _ _ (length_prefixed_reads _ _ Hkey)).
  rewrite key_roundtrip. cbn [ok_or]. rewrite reader_of_run.
  rewrite (reader_run _ _ _ _ _ (length_prefixed_reads _ _ Hwsig)). rewrite (sig_roundtrip _ _ Hsig).
  cbn [ok_or]. rewrite reader_of_run. rewrite (reader_run _ _ _ ts) by (apply (read_int_reads 8); exact Hts).
  unfold mbind at 1, reader_bind at 1, read_to_end. mon. by rewrite (req_roundtrip _ _ Hreq).
Qed.

Lemma response_reads m b :
  length (rs_request_hash m) = 32%nat → ResponseMessage_to_bytes m = Ok b → ResponseMessage_from_bytes b = Ok (m, []).
Proof using Rl.
  destruct m as [h resp]. unfold ResponseMessage_to_bytes. cbn [rs_request_hash rs_response].
  intros Hh (bresp & Hresp%ok_or_Ok & <-%Ok_inj)%bind_ok_inv.
  unfold ResponseMessage_from_bytes. rewrite (reader_run _ _ _ _ _ (read_exact_reads 32 h Hh)).
  unfold mbind, reader_bind, read_to_end. cbn. by rewrite (resp_roundtrip _ _ Hresp).
Qed.

(** Reading the type byte. *)
Lemma type_byte_run x b : x = 0 ∨ x = 1 →
  Message_reader (x :: b) =
    (if x =? 0 then m ← RequestMessage_from_bytes; mret (MRequest m) else m ← ResponseMessage_from_bytes; mret (MResponse m)) b.
Proof using Type.
  intros Hx. change (x :: b) with ([x] ++ b). unfold Message_reader.
  rewrite (reader_run _ _ _ x) by (apply read_u8_reads; lia). by destruct Hx as [->| ->].
Qed.

Lemma message_reads m b : message_ok m → Message_to_bytes m = Ok b → Message_from_bytes b = Ok m.
Proof using Rl.
  destruct m as [m|m]; intros Hok (b' & Hb & <-%Ok_inj)%bind_ok_inv; unfold Message_from_bytes;
    rewrite type_byte_run by auto; cbn [Z.eqb]; unfold mbind at 2, reader_bind.
  - by rewrite (request_reads m b').
  - by rewrite (response_reads m b').
Qed.

(** Messages round-trip.  The bytes of a request or response message, when it can
    be written, are read back as the same message. *)
Theorem request_message_roundtrip m b : message_ok m → Message_to_bytes m = Ok b → Message_from_bytes b = Ok m.
Proof using Rl. apply message_reads. Qed.

(** The signed bytes fix the request and the time. *)
Lemma timestamped_content_inj r r' b b' t t' :
  req_to_bytes r = Some b → req_to_bytes r' = Some b' → is_u64 t → is_u64 t' →
  timestamped_content b t = timestamped_content b' t' → r = r' ∧ t = t'.
Proof using Rl.
  intros Hr Hr' Ht Ht' Heq. unfold timestamped_content in Heq.
  apply app_inj_2 in Heq as [-> Heq]; [|by rewrite !to_le_length]. split.
  - apply req_roundtrip in Hr, Hr'. congruence.
  - rewrite <-(le_roundtrip 8 t), <-(le_roundtrip 8 t') by done. by rewrite Heq.
Qed.

Section Authentic.
Context (signed : PubKey → bytes → Prop) `{Sl : !SignatureLaws Sg signed}.

Lemma own_request_validates now ttl t sk r m :
  new_signed (Some t) (from_private sk) sk r = Ok m → req_validate r = true →
  (request_validate (Some now) ttl m = Ok tt ↔ now <= u64_saturating_add t ttl).
Proof using Sl.
  intros (t' & [= <-] & (b & Hb%ok_or_Ok & (s & Hs%ok_or_Ok & <-%Ok_inj)%bind_ok_inv)%bind_ok_inv)%bind_ok_inv Hr.
  unfold request_validate. cbn [unwrap rm_timestamp_unix_seconds rm_request rm_public_key rm_signature]. mon.
  rewrite Hb. cbn [ok_or]. mon. unfold validate. rewrite (sign_verify _ _ _ Hs). unfold ensure. mon. rewrite Hr.
  destruct (Z.ltb_spec (u64_saturating_add t ttl) now); split; intros; try done; lia.
Qed.

(** Requests are authentic.  A request is accepted exactly when it is not older
    than the time to live, its signature is valid and the application accepts it.
    The key of an accepted request has signed this request with this time, and no
    other request or time that has the same signed content.  A request the node signs
    with its own key is accepted, if the application accepts it, until its time to
    live has passed, and refused after. *)
Theorem requests_are_authentic now ttl :
  (∀ m, is_u64 (rm_timestamp_unix_seconds m) → request_validate (Some now) ttl m = Ok tt →
     now <= u64_saturating_add (rm_timestamp_unix_seconds m) ttl ∧ req_validate (rm_request m) = true ∧
     ∃ b, req_to_bytes (rm_request m) = Some b ∧
       signed (rm_public_key m) (timestamped_content b (rm_timestamp_unix_seconds m)) ∧
       ∀ r b' t, req_to_bytes r = Some b' → is_u64 t →
         timestamped_content b' t = timestamped_content b (rm_timestamp_unix_seconds m) →
         r = rm_request m ∧ t = rm_timestamp_unix_seconds m) ∧
  (∀ t sk r m, new_signed (Some t) (from_private sk) sk r = Ok m → req_validate r = true →
     (request_validate (Some now) ttl m = Ok tt ↔ now <= u64_saturating_add t ttl)).
Proof using Rl Sl.
  split.
  - intros m Hts. unfold request_validate. cbn [unwrap]. mon. destruct (Z.ltb_spec (u64_saturating_add (rm_timestamp_unix_seconds m) ttl) now); [done|].
    intros (b & Hb%ok_or_Ok & (? & Hv%ensure_ok_inv & Hr%ensure_ok_inv)%bind_ok_inv)%bind_ok_inv.
    split_and!; [done..|]. exists b. split_and!; [done|by eapply verify_unforgeable|]. intros r b' t Hr' Ht Heq.
    by eapply timestamped_content_inj.
  - intros t sk r m. apply own_request_validates.
Qed.
End Authentic.
End Messages.
