(* ===== verification/ExampleTypes.v ===== *)
(** * The example application

    [example-types/src/block_types.rs], [state_types.rs] and [testable_delay.rs]: the
    transactions, blocks, headers and states that the tests and examples run consensus with.

    A transaction is a vector of bytes.  The encoding of a payload is the transactions one
    after the other, each after its length in four bytes; [from_bytes] reads with slices,
    which panic out of range.  The loop of [from_bytes] has fuel; one round more than there
    are bytes is enough ([from_bytes_total]).  The hashes SHA-256 and Keccak, the clock and
    the random numbers are arguments. *)

From S2P Require Import Prelude Epochs Crypto Votes RequestMessage.

Definition u32_max : Z := 2 ^ 32 - 1.

(** ** Delays *)

Module Delay.
Inductive DelayOptions := DNone | DRandom | DFixed.
Inductive SupportedTraitTypesForAsyncDelay := DelayStorage | DelayValidatedState | DelayBlockHeader.
#[global] Instance SupportedTraitTypesForAsyncDelay_eq_dec : EqDecision SupportedTraitTypesForAsyncDelay.
Proof. solve_decision. Defined.
#[global, refine] Instance SupportedTraitTypesForAsyncDelay_countable : Countable SupportedTraitTypesForAsyncDelay := {|
  encode t := match t with DelayStorage => 1 | DelayValidatedState => 2 | DelayBlockHeader => 3 end%positive;
  decode n := match n with 1 => Some DelayStorage | 2 => Some DelayValidatedState | 3 => Some DelayBlockHeader | _ => None end%positive |}.
Proof. by intros []. Defined.

Record DelaySettings := {
  delay_option : DelayOptions;
  min_time_in_milliseconds : Z;
  max_time_in_milliseconds : Z;
  fixed_time_in_milliseconds : Z;
}.
Abbreviation DelayConfig := (gmap SupportedTraitTypesForAsyncDelay DelaySettings).

(** [SupportedTraitTypesForAsyncDelayIterator::next] *)
Definition next_type (index : nat) : outcome Error (option SupportedTraitTypesForAsyncDelay * nat) :=
  match index with
  | 0 => Ok (Some DelayStorage, 1)
  | 1 => Ok (Some DelayValidatedState, 2)
  | 2 => Ok (Some DelayBlockHeader, 3)
  | 3 => Ok (None, 3)
  | _ => Panic
  end%nat.

Definition all_types : list SupportedTraitTypesForAsyncDelay := [DelayStorage; DelayValidatedState; DelayBlockHeader].
Definition add_setting (config : DelayConfig) (t : SupportedTraitTypesForAsyncDelay) (settings : DelaySettings) : DelayConfig :=
  <[t := settings]> config.
Definition add_settings_for_all_types (config : DelayConfig) (settings : DelaySettings) : DelayConfig :=
  foldl (fun c t => add_setting c t settings) config all_types.

(** The milliseconds to sleep, given a random number for the range; an empty range panics. *)
Definition handle_async_delay (settings : DelaySettings) (random : Z) : outcome Error Z :=
  match delay_option settings with
  | DNone => Ok 0
  | DFixed => Ok (fixed_time_in_milliseconds settings)
  | DRandom =>
      if max_time_in_milliseconds settings <? min_time_in_milliseconds settings then Panic
      else Ok (min_time_in_milliseconds settings +
               random mod (max_time_in_milliseconds settings - min_time_in_milliseconds settings + 1))
  end.

Definition run_delay_settings_from_config (t : SupportedTraitTypesForAsyncDelay) (config : DelayConfig) (random : Z)
    : outcome Error Z :=
  match config !! t with Some settings => handle_async_delay settings random | None => Ok 0 end.

(** The iterator lists every type. *)
Lemma iterates_all : fst <$> next_type 0 = Ok (Some DelayStorage) ∧ fst <$> next_type 1 = Ok (Some DelayValidatedState) ∧
  fst <$> next_type 2 = Ok (Some DelayBlockHeader) ∧ next_type 3 = Ok (None, 3%nat).
Proof. done. Qed.

Lemma settings_for_all config settings t : add_settings_for_all_types config settings !! t = Some settings.
Proof. unfold add_settings_for_all_types, add_setting. simpl. destruct t; by simplify_map_eq. Qed.
End Delay.
Import Delay.

(** ** Transactions and payloads *)

Abbreviation TestTransaction := bytes (only parsing).

Definition try_new (b : bytes) : option TestTransaction :=
  if u32_max <? Z.of_nat (length b) then None else Some b.
Definition new {E} (b : bytes) : outcome E TestTransaction := unwrap (try_new b).

Definition encode_txn {E} (txn : TestTransaction) : outcome E bytes :=
  if u32_max <? Z.of_nat (length txn) then Panic else Ok (to_le_bytes 4 (Z.of_nat (length txn)) ++ txn).

(** [TestTransaction::encode] *)
Fixpoint encode_transactions {E} (transactions : list TestTransaction) : outcome E bytes :=
  match transactions with
  | [] => Ok []
  | txn :: transactions =>
      b ← encode_txn txn;
      encoded ← encode_transactions transactions;
      Ok (b ++ encoded)
  end.

Record TestBlockPayload := { transactions : list TestTransaction }.
Record TestMetadata := { num_transactions : Z }.
#[global] Instance TestBlockPayload_eq_dec : EqDecision TestBlockPayload.
Proof. solve_decision. Defined.
#[global] Instance TestMetadata_eq_dec : EqDecision TestMetadata.
Proof. solve_decision. Defined.

Definition payload_genesis : TestBlockPayload := {| transactions := [] |}.
Definition from_transactions (txns : list TestTransaction) : TestBlockPayload * TestMetadata :=
  ({| transactions := txns |}, {| num_transactions := Z.of_nat (length txns) |}).
Definition empty : TestBlockPayload * TestMetadata := (payload_genesis, {| num_transactions := 0 |}).
Definition encode {E} (p : TestBlockPayload) : outcome E bytes := encode_transactions (transactions p).
Definition txn_count (p : TestBlockPayload) : Z := Z.of_nat (length (transactions p)).
Definition minimum_block_size (txn : TestTransaction) : Z := Z.of_nat (length txn).

(** [&b[i..j]] *)
Definition slice {E} (b : bytes) (i j : nat) : outcome E bytes :=
  if (j <=? length b)%nat && (i <=? j)%nat then Ok (take (j - i) (drop i b)) else Panic.

(** The loop of [from_bytes]; [None]: out of fuel. *)
Fixpoint from_bytes_loop {E} (fuel : nat) (encoded : bytes) (current_index : nat) (txns : list TestTransaction)
    : option (outcome E TestBlockPayload) :=
  match fuel with
  | O => None
  | S fuel =>
      if (current_index <? length encoded)%nat then
        let txn_start_index := (current_index + 4)%nat in
        match slice (E := E) encoded current_index txn_start_index with
        | Ok txn_len_bytes =>
            let txn_len := Z.to_nat (from_le_bytes txn_len_bytes) in
            let next_index := (txn_start_index + txn_len)%nat in
            match slice (E := E) encoded txn_start_index next_index with
            | Ok txn => from_bytes_loop fuel encoded next_index (txns ++ [txn])
            | Err e => Some (Err e)
            | Panic => Some Panic
            end
        | Err e => Some (Err e)
        | Panic => Some Panic
        end
      else Some (Ok {| transactions := txns |})
  end.
Definition from_bytes {E} (encoded : bytes) : option (outcome E TestBlockPayload) :=
  from_bytes_loop (S (length encoded)) encoded 0 [].

(** [builder_commitment]: the digest of the transactions one after the other. *)
Definition payload_builder_commitment {H} (sha256 : bytes → H) (p : TestBlockPayload) : H := sha256 (mjoin (transactions p)).

(** ** Headers and states *)

Section Headers.
Context `{Cm : Committable} `{Vt : VidTypes} {BuilderCommitment : Type}.

Definition transaction_commit (keccak256 : bytes → bytes) (txn : TestTransaction) : Commitment :=
  finalize "Txn Comm" [CbFixedSizeBytes (keccak256 txn)].

Record TestBlockHeader := {
  block_number : Z;
  payload_commitment : VidCommitment;
  builder_commitment : BuilderCommitment;
  metadata : TestMetadata;
  timestamp : Z;
  random : Z;
}.

(** Given the time and a random number. *)
Definition header_new (now rand : Z) (parent : TestBlockHeader) (pc : VidCommitment) (bc : BuilderCommitment)
    (md : TestMetadata) : TestBlockHeader :=
  {| block_number := u64_add (block_number parent) 1; payload_commitment := pc; builder_commitment := bc; metadata := md;
     timestamp := if now <? timestamp parent then timestamp parent else now; random := rand |}.

(** Both constructors wait for the configured delay first. *)
Definition new_legacy (config : DelayConfig) (delay_random now rand : Z) (parent : TestBlockHeader) (pc : VidCommitment)
    (bc : BuilderCommitment) (md : TestMetadata) : outcome Error TestBlockHeader :=
  _ ← run_delay_settings_from_config DelayBlockHeader config delay_random;
  Ok (header_new now rand parent pc bc md).

Definition new_marketplace (config : DelayConfig) (delay_random now rand : Z) (parent : TestBlockHeader) (pc : VidCommitment)
    (bc : BuilderCommitment) (md : TestMetadata) : outcome Error TestBlockHeader :=
  _ ← run_delay_settings_from_config DelayBlockHeader config delay_random;
  Ok (header_new now rand parent pc bc md).

Definition test_header_genesis (pc : VidCommitment) (bc : BuilderCommitment) : TestBlockHeader :=
  {| block_number := 0; payload_commitment := pc; builder_commitment := bc; metadata := {| num_transactions := 0 |};
     timestamp := 0; random := 0 |}.

Definition test_header_commit (h : TestBlockHeader) : Commitment :=
  finalize "Header Comm"
    [CbU64Field "block number" (block_number h); CbConstantStr "payload commitment";
     CbFixedSizeBytes (vid_as_ref (payload_commitment h))].

Record TestValidatedState := { block_height : Z; prev_state_commitment : Commitment }.

Definition fake_commitment : Commitment := finalize "Dummy commitment for arbitrary genesis" [].
Definition state_default : TestValidatedState := {| block_height := 0; prev_state_commitment := fake_commitment |}.
Definition state_commit (s : TestValidatedState) : Commitment :=
  finalize "Test State Commit"
    [CbU64Field "block_height" (block_height s); CbField "prev_state_commitment" (prev_state_commitment s)].

Definition validate_and_apply_header (s : TestValidatedState) (config : DelayConfig) (delay_random : Z)
    : outcome Error TestValidatedState :=
  _ ← run_delay_settings_from_config DelayValidatedState config delay_random;
  Ok {| block_height := u64_add (block_height s) 1; prev_state_commitment := state_commit s |}.

Definition state_from_header (h : TestBlockHeader) : TestValidatedState :=
  {| block_height := block_number h; prev_state_commitment := prev_state_commitment state_default |}.
End Headers.
Arguments TestBlockHeader {_} _.

(** ** What the application guarantees *)

Section Payloads.
Context {E : Type}.

Lemma slice_middle (pre x post : bytes) :
  slice (E := E) (pre ++ x ++ post) (length pre) (length pre + length x) = Ok x.
Proof.
  unfold slice. rewrite !length_app, (proj2 (Nat.leb_le _ _)), (proj2 (Nat.leb_le _ _)) by lia. simpl.
  rewrite drop_app_length, Nat.add_comm, Nat.add_sub. by rewrite take_app_length.
Qed.

Lemma slice_ok (b x : bytes) i n :
  slice (E := E) b i (i + n) = Ok x → ∃ post, drop i b = x ++ post ∧ length x = n ∧ drop (i + n) b = post.
Proof.
  unfold slice. destruct (Nat.leb_spec (i + n) (length b)); [|done]. rewrite (proj2 (Nat.leb_le i (i + n))) by lia. simpl.
  intros [= <-]. exists (drop n (drop i b)). rewrite (Nat.add_comm i n), Nat.add_sub.
  rewrite take_drop, length_take, length_drop, drop_drop. split_and!; [done|lia|by rewrite Nat.add_comm].
Qed.

Lemma slice_no_err (b : bytes) i j e : slice (E := E) b i j ≠ Err e.
Proof. unfold slice. by destruct (_ && _). Qed.

(** Four bytes are the integer they encode. *)
Lemma le_canonical (b : bytes) : Forall (fun x => 0 <= x < 256) b → to_le_bytes (length b) (from_le_bytes b) = b ∧ 0 <= from_le_bytes b < 256 ^ Z.of_nat (length b).
Proof.
  induction 1 as [|x b Hx _ [IH Hr]]; [done|]. cbn [length from_le_bytes to_le_bytes]. rewrite Nat2Z.inj_succ, Z.pow_succ_r by lia.
  set (f := from_le_bytes b) in *.
  assert ((x + 256 * f) mod 256 = x) as -> by (rewrite Z.mul_comm, Z_mod_plus_full; apply Z.mod_small; lia).
  assert ((x + 256 * f) / 256 = f) as -> by (rewrite Z.mul_comm, Z.div_add, Z.div_small by lia; lia).
  split; [by rewrite IH|nia].
Qed.

Lemma encode_ok (txns : list TestTransaction) :
  Forall (fun txn => Z.of_nat (length txn) <= u32_max) txns ↔ ∃ b, encode_transactions (E := E) txns = Ok b.
Proof.
  induction txns as [|txn txns IH]; simpl; [split; eauto|]. rewrite Forall_cons, IH. unfold encode_txn.
  destruct (Z.ltb_spec u32_max (Z.of_nat (length txn))).
  - split; [intros [? _]; lia|by intros [b Hb]].
  - split; [intros [_ [b ->]]; mon; eauto|]. mon. intros [b (b' & -> & _)%bind_ok_inv]. eauto.
Qed.

Lemma decode_loop (txns acc : list TestTransaction) (pre rest : bytes) fuel :
  encode_transactions (E := E) txns = Ok rest → (length rest < fuel)%nat →
  from_bytes_loop (E := E) fuel (pre ++ rest) (length pre) acc = Some (Ok {| transactions := acc ++ txns |}).
Proof.
  revert acc pre rest fuel. induction txns as [|txn txns IH]; intros acc pre rest fuel Henc Hf; destruct fuel as [|fuel]; try lia;
    cbn [encode_transactions from_bytes_loop] in *.
  { injection Henc as <-. rewrite app_nil_r, Nat.ltb_irrefl, app_nil_r. done. }
  apply bind_ok_inv in Henc as (b & Hb & (rest' & Hrest & [= <-])%bind_ok_inv). unfold encode_txn in Hb.
  destruct (Z.ltb_spec u32_max (Z.of_nat (length txn))); [done|]. apply Ok_inj in Hb as <-.
  rewrite !length_app, to_le_length in Hf. rewrite !length_app, to_le_length, (proj2 (Nat.ltb_lt _ _)) by lia.
  set (le := to_le_bytes 4 (Z.of_nat (length txn))) in *. assert (length le = 4%nat) as Hle by apply to_le_length.
  pose proof (slice_middle pre le (txn ++ rest')) as Hs. pose proof (slice_middle (pre ++ le) txn rest') as Hs'.
  specialize (IH (acc ++ [txn]) (pre ++ le ++ txn) rest' fuel Hrest ltac:(lia)).
  rewrite !length_app, Hle, <-!app_assoc in IH. rewrite length_app, Hle, <-!app_assoc in Hs'. rewrite Hle in Hs.
  rewrite <-!app_assoc, Hs.
  subst le. rewrite le_roundtrip by (unfold u32_max in *; simpl; lia). rewrite Nat2Z.id, Hs'. by rewrite <-Nat.add_assoc.
Qed.

Lemma decode_total fuel (b : bytes) i (acc : list TestTransaction) :
  (length b < fuel + i)%nat → (0 < fuel)%nat → is_Some (from_bytes_loop (E := E) fuel b i acc).
Proof.
  revert i acc. induction fuel as [|fuel IH]; intros i acc Hf H0; [lia|]. simpl.
  destruct (Nat.ltb_spec i (length b)); [|done].
  destruct (slice _ i _); [|done|done]. destruct (slice _ _ _); [|done|done]. apply IH; lia.
Qed.

Lemma decode_canonical fuel (b : bytes) i (acc : list TestTransaction) p :
  Forall (fun x => 0 <= x < 256) b → (i <= length b)%nat → from_bytes_loop (E := E) fuel b i acc = Some (Ok p) →
  ∃ txns, transactions p = acc ++ txns ∧ encode_transactions (E := E) txns = Ok (drop i b).
Proof.
  intros Hb. revert i acc. induction fuel as [|fuel IH]; intros i acc Hi; [done|]. simpl.
  destruct (Nat.ltb_spec i (length b)) as [Hlt|Hge]; cycle 1.
  { intros [= <-]. exists []. rewrite app_nil_r, drop_ge by lia. done. }
  destruct (slice _ i _) as [le| |] eqn:Hs; [|done|done]. destruct (slice _ (i + 4) _) as [txn| |] eqn:Hs'; [|done|done].
  apply slice_ok in Hs as (post & Hd & Hl & Hp). apply slice_ok in Hs' as (post' & Hd' & Hl' & Hp').
  assert (i + 4 + length txn <= length b)%nat as Hle.
  { apply (f_equal length) in Hd, Hd'. rewrite length_app, length_drop in Hd, Hd'. lia. }
  intros (txns & -> & Henc)%IH; [|lia]. exists (txn :: txns). split; [by rewrite <-app_assoc|].
  assert (Forall (fun x => 0 <= x < 256) le) as [Hcan Hrange]%le_canonical.
  { apply (Forall_drop _ i) in Hb. rewrite Hd in Hb. by apply Forall_app in Hb as [? _]. }
  rewrite Hl in Hcan, Hrange. simpl in Hrange.
  assert (Z.of_nat (length txn) = from_le_bytes le) as Hlen by lia.
  simpl. unfold encode_txn. rewrite Hlen. destruct (Z.ltb_spec u32_max (from_le_bytes le)); [unfold u32_max in *; lia|]. mon.
  rewrite Hl' in *. rewrite Henc. mon. rewrite Hcan, Hp', <-app_assoc. f_equal. rewrite Hd, <-Hp, Hd'. by rewrite <-Hp'.
Qed.
End Payloads.

(** C29. Payloads survive encoding.  Transactions no longer than [u32::MAX] are encoded, and
    the bytes are decoded to the same payload; other transactions can not be made with
    [try_new].  Decoding always ends, and what it accepts is the encoding of what it
    returns, so that two payloads never have the same bytes and no payload has two. *)
Theorem payloads_roundtrip {E} (p : TestBlockPayload) (b : bytes) :
  (Forall (fun txn => is_Some (try_new txn)) (transactions p) ↔ ∃ b, encode (E := E) p = Ok b) ∧
  (encode (E := E) p = Ok b → from_bytes (E := E) b = Some (Ok p)) ∧
  is_Some (from_bytes (E := E) b) ∧
  (Forall (fun x => 0 <= x < 256) b → from_bytes (E := E) b = Some (Ok p) → encode (E := E) p = Ok b).
Proof.
  split_and!.
  - unfold encode. rewrite <-encode_ok. apply Forall_iff. intros txn. unfold try_new.
    destruct (Z.ltb_spec u32_max (Z.of_nat (length txn))); split; [by intros []|lia|done|eauto].
  - intros Henc. destruct p as [txns]. apply (decode_loop txns [] [] b); [done|lia].
  - apply decode_total; lia.
  - intros Hb H. destruct (decode_canonical _ b 0 [] p Hb ltac:(lia) H) as (txns & Ht & Henc).
    unfold encode. by rewrite Ht.
Qed.

(** Bytes that are cut off make [from_bytes] panic. *)
Lemma truncated_payload_panics {E} : from_bytes (E := E) [5; 0; 0; 0; 1; 2] = Some Panic ∧ from_bytes (E := E) [5; 0] = Some Panic.
Proof. done. Qed.

(** The builder commitment does not separate the transactions. *)
Lemma builder_commitment_merges {H} (sha256 : bytes → H) (a b : bytes) :
  payload_builder_commitment sha256 {| transactions := [a; b] |} = payload_builder_commitment sha256 {| transactions := [a ++ b] |}.
Proof. unfold payload_builder_commitment. simpl. by rewrite !app_nil_r. Qed.

Section HeaderProperties.
Context `{Cm : Committable} `{Vt : VidTypes} {BuilderCommitment : Type} {Lm : CommittableLaws Cm}.

(** The blocks of a chain, each made from the one before. *)
Inductive header_chain : list (TestBlockHeader BuilderCommitment) → Prop :=
  | chain_genesis pc bc : header_chain [test_header_genesis pc bc]
  | chain_next h hs config r now rand pc bc md h' :
      header_chain (h :: hs) →
      new_legacy config r now rand h pc bc md = Ok h' ∨ new_marketplace config r now rand h pc bc md = Ok h' →
      header_chain (h' :: h :: hs).

(** Blocks are numbered one after the other, and their timestamps do not decrease. *)
Lemma header_chain_ordered hs :
  header_chain hs → Z.of_nat (length hs) <= u64_modulus →
  ∀ i h, hs !! i = Some h → block_number h = Z.of_nat (length hs) - 1 - Z.of_nat i ∧
    ∀ j h', (i < j)%nat → hs !! j = Some h' → timestamp h' <= timestamp h.
Proof.
  induction 1 as [pc bc|h hs config r now rand pc bc md h' Hc IH Hnew]; intros Hlen.
  { intros [|i] h; [intros [= <-]|done]. split; [done|]. intros [|j] h' Hj Hh; [lia|done]. }
  cbn [length] in *. specialize (IH ltac:(lia)). assert (h' = header_new now rand h pc bc md) as -> by (by destruct Hnew as [(d & _ & [= <-])%bind_ok_inv|(d & _ & [= <-])%bind_ok_inv]).
  destruct (IH 0%nat h eq_refl) as [Hn Ht]. cbn [length] in Hn.
  intros [|i] x; cbn [lookup list_lookup]; intros Hx.
  - injection Hx as <-. unfold header_new. cbn [block_number timestamp]. split.
    + rewrite Hn. unfold u64_add. rewrite Z.mod_small by lia. lia.
    + assert (timestamp h <= (if now <? timestamp h then timestamp h else now)) as Hle by (destruct (Z.ltb_spec now (timestamp h)); lia).
      intros [|[|j]] y Hj Hy; [lia|by injection Hy as <-|]. specialize (Ht (S j) y ltac:(lia) Hy). lia.
  - destruct (IH i x Hx) as [Hn' Ht']. split; [lia|]. intros [|j] y Hj Hy; [lia|]. by apply (Ht' j y); [lia|].
Qed.

(** A header commitment fixes the number of the block and its payload, and nothing else. *)
Lemma test_header_commit_binds (h h' : TestBlockHeader BuilderCommitment) :
  length (vid_as_ref (payload_commitment h)) = length (vid_as_ref (payload_commitment h')) →
  test_header_commit h = test_header_commit h' ↔
  block_number h = block_number h' ∧ vid_as_ref (payload_commitment h) = vid_as_ref (payload_commitment h').
Proof using Lm.
  intros Hlen. split.
  - intros Hl%finalize_inj; [injection Hl as Hn Hp; by split|]. left. exists []. simpl. by rewrite Hlen.
  - intros [Hn Hp]. unfold test_header_commit. by rewrite Hn, Hp.
Qed.

(** The commitment of a state fixes the whole history of states. *)
Lemma state_commit_inj (s s' : TestValidatedState) : state_commit s = state_commit s' → s = s'.
Proof using Lm. intros Hl%finalize_inj; [destruct s, s'; by simplify_eq/=|]. left. by exists []. Qed.

(** A state that is recovered from a header is another one than the state that the header
    was applied to give, although they are of the same height. *)
Lemma recovered_state_differs (s s' : TestValidatedState) config r (h : TestBlockHeader BuilderCommitment) :
  validate_and_apply_header s config r = Ok s' → block_number h = block_height s' → state_commit s ≠ fake_commitment →
  block_height (state_from_header h) = block_height s' ∧ state_from_header h ≠ s'.
Proof using Type.
  intros (d & _ & [= <-])%bind_ok_inv Hh Hne. split; [done|]. intros [= _ He]. by apply Hne.
Qed.
End HeaderProperties.
