(* ===== verification/RequestResponse.v ===== *)
(** * The request-response protocol

    [request-response/src/lib.rs] and [src/util.rs]: callers ask for data under the
    hash of their request and share one active request per hash; a receiving task
    answers requests and passes on responses.

    The protocol runs in many tasks.  [Protocol] is what they share, and [perform] is
    one atomic step of one of them: a caller that starts, returns or times out, a
    message that arrives, a spawned task that ends or is cancelled, and the [drop] of
    an active request, which waits for the lock of the map after the last reference is
    gone.  An [Arc] is alive while a caller or a task holds it.  The broadcast channel
    of an active request has one place, and keeps the response that is in it, since
    the receiver stored in the request is never read. *)

From S2P Require Import Prelude Crypto RequestMessage.

(** ** Bounded queues: [src/util.rs] *)

Record BoundedVecDeque (T : Type) := { bq_inner : list T; bq_max_size : nat }.
Arguments bq_inner {T}.
Arguments bq_max_size {T}.

Definition bq_new {T} (max_size : nat) : BoundedVecDeque T := {| bq_inner := []; bq_max_size := max_size |}.

(** With the element that is dropped. *)
Definition bq_push {T} (q : BoundedVecDeque T) (item : T) : BoundedVecDeque T * option T :=
  let '(inner, popped) :=
    if decide (bq_max_size q <= length (bq_inner q))%nat
    then (tail (bq_inner q), head (bq_inner q)) else (bq_inner q, None) in
  ({| bq_inner := inner ++ [item]; bq_max_size := bq_max_size q |}, popped).

Lemma bq_push_spec {T} (q : BoundedVecDeque T) x :
  (length (bq_inner q) <= Nat.max 1 (bq_max_size q))%nat →
  let '(q', popped) := bq_push q x in
  (length (bq_inner q') <= Nat.max 1 (bq_max_size q'))%nat ∧ bq_max_size q' = bq_max_size q ∧
  option_list popped ++ bq_inner q' = bq_inner q ++ [x] ∧ last (bq_inner q') = Some x.
Proof.
  intros Hlen. unfold bq_push. case_decide as Hd; simpl.
  - destruct (bq_inner q) as [|y l] eqn:Hq; simpl in *; rewrite ?last_snoc, ?length_app; simpl; split_and!; try done; lia.
  - rewrite last_snoc, length_app. simpl. split_and!; try done. lia.
Qed.

Section Protocol.
Context `{Sg : SignatureScheme} `{Rt : !RequestTypes}.

Inductive RequestError := RTimeout | RInvalidRequest | ROther.

Record RequestResponseConfig := {
  incoming_request_ttl : Z;
  request_batch_size : nat;
  max_outgoing_responses : nat;
  max_incoming_responses : nat;
}.
Context (config : RequestResponseConfig).

(** [ActiveRequestInner]: the request, the response in its channel, its hash. *)
Record ActiveRequestInner := {
  ar_request : Request;
  ar_channel : option Response;
  ar_request_hash : bytes;
}.

Record Protocol := {
  (** The active requests that are not yet deallocated, by their address. *)
  p_heap : gmap nat ActiveRequestInner;
  p_active_requests : gmap bytes nat;
  (** The callers that wait, each with the active request it holds and what it asked. *)
  p_callers : gmap nat (nat * Request);
  (** The tasks that validate responses, with the active request they hold. *)
  p_validating : gmap nat (nat * Response);
  p_incoming_responses : BoundedVecDeque nat;
  (** The tasks that answer requests. *)
  p_responding : gmap nat RequestMessage;
  p_outgoing_responses : BoundedVecDeque nat;
  (** Tasks whose handle was dropped. *)
  p_aborted : gset nat;
  p_next : nat;
}.

Definition protocol_new : Protocol :=
  {| p_heap := ∅; p_active_requests := ∅; p_callers := ∅; p_validating := ∅;
     p_incoming_responses := bq_new (max_incoming_responses config); p_responding := ∅;
     p_outgoing_responses := bq_new (max_outgoing_responses config); p_aborted := ∅; p_next := 0 |}.

(** The address is held by a caller or a task. *)
Definition alive (p : Protocol) (id : nat) : Prop :=
  map_Exists (fun _ c => c.1 = id) (p_callers p) ∨ map_Exists (fun _ t => t.1 = id) (p_validating p).
#[global] Instance alive_dec p id : Decision (alive p id).
Proof using Type. unfold alive. apply _. Defined.

(** [Weak::upgrade] *)
Definition weak_upgrade (p : Protocol) (id : nat) : option nat := if decide (alive p id) then Some id else None.

(** *** Making requests *)

(** The first part of [request]: join the active request or make a new one.  When the
    message cannot be serialized the new active request is dropped at once. *)
Definition request_start (p : Protocol) (caller : nat) (m : RequestMessage) : Protocol * option RequestError :=
  match req_to_bytes (rm_request m) with
  | None => (p, Some RInvalidRequest)
  | Some b =>
      let request_hash := blake3 b in
      let '(p, id) :=
        match p_active_requests p !! request_hash ≫= weak_upgrade p with
        | Some id => (p, id)
        | None =>
            let id := p_next p in
            ({| p_heap := <[id := {| ar_request := rm_request m; ar_channel := None; ar_request_hash := request_hash |}]> (p_heap p);
                p_active_requests := <[request_hash := id]> (p_active_requests p);
                p_callers := p_callers p; p_validating := p_validating p;
                p_incoming_responses := p_incoming_responses p; p_responding := p_responding p;
                p_outgoing_responses := p_outgoing_responses p; p_aborted := p_aborted p; p_next := S id |}, id)
        end in
      match Message_to_bytes (MRequest m) with
      | Ok _ =>
          ({| p_heap := p_heap p; p_active_requests := p_active_requests p;
              p_callers := <[caller := (id, rm_request m)]> (p_callers p); p_validating := p_validating p;
              p_incoming_responses := p_incoming_responses p; p_responding := p_responding p;
              p_outgoing_responses := p_outgoing_responses p; p_aborted := p_aborted p; p_next := p_next p |}, None)
      | _ => (p, Some RInvalidRequest)
      end
  end.

(** [slice::chunks], which panics on a size of zero. *)
Fixpoint chunks {A} (fuel : nat) (size : nat) (l : list A) : list (list A) :=
  match fuel, l with
  | S fuel, _ :: _ => take size l :: chunks fuel size (drop size l)
  | _, _ => []
  end.

Inductive SendAction :=
  | Send (message : bytes) (recipient : PubKey)
  | Sleep.

(** One round of the sending task: every batch of recipients, then a pause. *)
Definition send_round (message : bytes) (recipients : list PubKey) : outcome Error (list SendAction) :=
  if decide (request_batch_size config = 0%nat) then Panic
  else Ok (mjoin (map (fun batch => map (Send message) batch ++ [Sleep])
                    (chunks (length recipients) (request_batch_size config) recipients))).

(** *** Handling messages *)

(** A caller or a task ends: it drops what it holds. *)
Definition caller_ends (p : Protocol) (caller : nat) : Protocol :=
  {| p_heap := p_heap p; p_active_requests := p_active_requests p; p_callers := delete caller (p_callers p);
     p_validating := p_validating p; p_incoming_responses := p_incoming_responses p; p_responding := p_responding p;
     p_outgoing_responses := p_outgoing_responses p; p_aborted := p_aborted p; p_next := p_next p |}.
Definition task_ends (p : Protocol) (task : nat) : Protocol :=
  {| p_heap := p_heap p; p_active_requests := p_active_requests p; p_callers := p_callers p;
     p_validating := delete task (p_validating p); p_incoming_responses := p_incoming_responses p;
     p_responding := delete task (p_responding p); p_outgoing_responses := p_outgoing_responses p;
     p_aborted := p_aborted p; p_next := p_next p |}.

Definition handle_request (p : Protocol) (request_message : RequestMessage) : Protocol :=
  let task := p_next p in
  let '(outgoing, popped) := bq_push (p_outgoing_responses p) task in
  {| p_heap := p_heap p; p_active_requests := p_active_requests p; p_callers := p_callers p;
     p_validating := p_validating p; p_incoming_responses := p_incoming_responses p;
     p_responding := <[task := request_message]> (p_responding p); p_outgoing_responses := outgoing;
     p_aborted := list_to_set (option_list popped) ∪ p_aborted p; p_next := S task |}.

(** The task that answers a request: what it sends, and to whom.  [derived] is the
    answer of the data source. *)
Definition respond (clock : option Z) (derived : option Response) (m : RequestMessage) : outcome Error (bytes * PubKey) :=
  _ ← request_validate clock (incoming_request_ttl config) m;
  response ← ok_or derived "failed to derive response for request";
  content ← ok_or (req_to_bytes (rm_request m)) "failed to serialize";
  bytes ← Message_to_bytes (MResponse {| rs_request_hash := blake3 content; rs_response := response |});
  Ok (bytes, rm_public_key m).

Definition handle_response (p : Protocol) (response : ResponseMessage) : Protocol :=
  match p_active_requests p !! rs_request_hash response ≫= weak_upgrade p with
  | None => p
  | Some id =>
      let task := p_next p in
      let '(incoming, popped) := bq_push (p_incoming_responses p) task in
      {| p_heap := p_heap p; p_active_requests := p_active_requests p; p_callers := p_callers p;
         p_validating := <[task := (id, rs_response response)]> (p_validating p); p_incoming_responses := incoming;
         p_responding := p_responding p; p_outgoing_responses := p_outgoing_responses p;
         p_aborted := list_to_set (option_list popped) ∪ p_aborted p; p_next := S task |}
  end.

(** [try_broadcast] on a channel with one place. *)
Definition try_broadcast (o : ActiveRequestInner) (response : Response) : ActiveRequestInner :=
  {| ar_request := ar_request o; ar_request_hash := ar_request_hash o;
     ar_channel := match ar_channel o with Some r => Some r | None => Some response end |}.

(** The end of a task that validates a response. *)
Definition validated (p : Protocol) (task : nat) (id : nat) (response : Response) : Protocol :=
  let p' := task_ends p task in
  match p_heap p !! id with
  | Some o =>
      if resp_validate response (ar_request o) then
        {| p_heap := <[id := try_broadcast o response]> (p_heap p'); p_active_requests := p_active_requests p';
           p_callers := p_callers p'; p_validating := p_validating p'; p_incoming_responses := p_incoming_responses p';
           p_responding := p_responding p'; p_outgoing_responses := p_outgoing_responses p'; p_aborted := p_aborted p';
           p_next := p_next p' |}
      else p'
  | None => p'
  end.

(** One turn of the receiving task. *)
Definition receive (p : Protocol) (message : bytes) : Protocol :=
  match Message_from_bytes message with
  | Ok (MRequest m) => handle_request p m
  | Ok (MResponse m) => handle_response p m
  | _ => p
  end.

(** [Drop for ActiveRequestInner]: the entry under its hash is removed. *)
Definition drop_active (p : Protocol) (id : nat) (o : ActiveRequestInner) : Protocol :=
  {| p_heap := delete id (p_heap p); p_active_requests := delete (ar_request_hash o) (p_active_requests p);
     p_callers := p_callers p; p_validating := p_validating p; p_incoming_responses := p_incoming_responses p;
     p_responding := p_responding p; p_outgoing_responses := p_outgoing_responses p; p_aborted := p_aborted p;
     p_next := p_next p |}.

(** *** Interleaving *)

Inductive action :=
  | Call (caller : nat) (m : RequestMessage)
  | Return (caller : nat)
  | CallTimeout (caller : nat)
  | Receive (message : bytes)
  | Validated (task : nat)
  | Respond (task : nat) (clock : option Z) (derived : option Response)
  (** A task times out, or a task whose handle was dropped is cancelled. *)
  | TaskTimeout (task : nat)
  | Cancelled (task : nat)
  | Dropped (id : nat).

Inductive observation :=
  | Answered (caller : nat) (response : Response)
  | Failed (caller : nat) (e : RequestError)
  | Sent (message : bytes) (recipient : PubKey).

(** [None]: the step cannot happen in this state. *)
Definition perform (p : Protocol) (a : action) : option (Protocol * list observation) :=
  match a with
  | Call caller m =>
      if decide (p_callers p !! caller = None) then
        let '(p', e) := request_start p caller m in Some (p', map (Failed caller) (option_list e))
      else None
  | Return caller =>
      c ← p_callers p !! caller; o ← p_heap p !! c.1; r ← ar_channel o;
      Some (caller_ends p caller, [Answered caller r])
  | CallTimeout caller => _ ← p_callers p !! caller; Some (caller_ends p caller, [Failed caller RTimeout])
  | Receive message => Some (receive p message, [])
  | Validated task => t ← p_validating p !! task; Some (validated p task t.1 t.2, [])
  | Respond task clock derived =>
      m ← p_responding p !! task;
      Some (task_ends p task, match respond clock derived m with Ok (b, k) => [Sent b k] | _ => [] end)
  | TaskTimeout task => Some (task_ends p task, [])
  | Cancelled task => if decide (task ∈ p_aborted p) then Some (task_ends p task, []) else None
  | Dropped id =>
      o ← p_heap p !! id;
      if decide (alive p id) then None else Some (drop_active p id o, [])
  end.

Fixpoint perform_all (p : Protocol) (acts : list action) : option (Protocol * list observation) :=
  match acts with
  | [] => Some (p, [])
  | a :: acts =>
      '(p1, obs1) ← perform p a;
      '(p2, obs2) ← perform_all p1 acts;
      Some (p2, obs1 ++ obs2)
  end.

(** [request_indefinitely]: each attempt is signed anew and ends with an answer, a
    timeout, after which the next one starts, or another error.  [clocks] and
    [attempts] are the times and the ends of the attempts. *)
Fixpoint request_indefinitely (public_key : PubKey) (private_key : PrivKey) (request : Request)
    (clocks : list (option Z)) (attempts : RequestMessage → nat → Response + RequestError)
    : option (outcome RequestError Response) :=
  match clocks with
  | [] => None
  | clock :: clocks =>
      match new_signed clock public_key private_key request with
      | Panic => Some Panic
      | Err _ => Some (Err RInvalidRequest)
      | Ok m =>
          match attempts m (length clocks) with
          | inl response => Some (Ok response)
          | inr RTimeout => request_indefinitely public_key private_key request clocks attempts
          | inr e => Some (Err e)
          end
      end
  end.
End Protocol.

(** ** Properties *)

Section Properties.
Context `{Sg : SignatureScheme} `{Rt : !RequestTypes} (config : RequestResponseConfig).

(** The hash of a request. *)
Definition hashes_to (r : Request) (h : bytes) : Prop := ∃ b, req_to_bytes r = Some b ∧ h = blake3 b.

Section Invariant.
(** What each caller has asked for. *)
Context (asked : nat → Request → Prop).

Definition heap_ok (p : Protocol) : Prop :=
  ∀ id o, p_heap p !! id = Some o → (id < p_next p)%nat ∧ hashes_to (ar_request o) (ar_request_hash o) ∧
    ∀ r, ar_channel o = Some r → resp_validate r (ar_request o) = true.
Definition callers_ok (p : Protocol) : Prop :=
  ∀ c id r, p_callers p !! c = Some (id, r) → asked c r ∧
    ∃ o, p_heap p !! id = Some o ∧ hashes_to r (ar_request_hash o).
Definition tasks_ok (p : Protocol) : Prop :=
  ∀ t id r, p_validating p !! t = Some (id, r) → is_Some (p_heap p !! id).
Definition active_ok (p : Protocol) : Prop :=
  ∀ h id, p_active_requests p !! h = Some id → (id < p_next p)%nat ∧ ∀ o, p_heap p !! id = Some o → ar_request_hash o = h.
Definition queues_ok (p : Protocol) : Prop :=
  (length (bq_inner (p_incoming_responses p)) <= Nat.max 1 (bq_max_size (p_incoming_responses p)))%nat ∧
  (length (bq_inner (p_outgoing_responses p)) <= Nat.max 1 (bq_max_size (p_outgoing_responses p)))%nat.

Record protocol_inv (p : Protocol) : Prop := {
  inv_heap : heap_ok p;
  inv_callers : callers_ok p;
  inv_tasks : tasks_ok p;
  inv_active : active_ok p;
  inv_queues : queues_ok p;
}.

Lemma protocol_new_inv : protocol_inv (protocol_new config).
Proof using Type. split; unfold protocol_new; [by intros ???..|]. split; simpl; lia. Qed.

Lemma alive_heap p id : protocol_inv p → alive p id → is_Some (p_heap p !! id).
Proof using Type.
  intros Hp [(c & [id' r] & Hc & <-)|(t & [id' r] & Ht & <-)].
  - destruct (inv_callers p Hp _ _ _ Hc) as (_ & o & Ho & _). eauto.
  - by eapply (inv_tasks p Hp).
Qed.

(** The active request that [request_start] and [handle_response] find. *)
Lemma upgrade_active p h id :
  protocol_inv p → p_active_requests p !! h ≫= weak_upgrade p = Some id →
  p_active_requests p !! h = Some id ∧ alive p id ∧ ∃ o, p_heap p !! id = Some o ∧ ar_request_hash o = h.
Proof using Type.
  intros Hp. destruct (p_active_requests p !! h) as [id'|] eqn:Hh; [|done]. simpl. unfold weak_upgrade.
  case_decide as Ha; [|done]. intros [= ->]. destruct (alive_heap p id Hp Ha) as [o Ho].
  destruct (inv_active p Hp _ _ Hh) as [_ Hhash]. eauto 6.
Qed.

Lemma request_start_inv p c m p' e :
  protocol_inv p → asked c (rm_request m) → request_start p c m = (p', e) → protocol_inv p'.
Proof using Type.
  intros Hp Hm. unfold request_start. destruct (req_to_bytes (rm_request m)) as [b|] eqn:Hb; [|by intros [= <- _]].
  destruct (p_active_requests p !! blake3 b ≫= weak_upgrade p) as [id|] eqn:Hup.
  - apply upgrade_active in Hup as (_ & _ & o & Ho & Hh); [|done].
    destruct (Message_to_bytes _); intros [= <- _]; [|done..]. destruct Hp as [H1 H2 H3 H4 H5]. split; try done.
    intros c' id' r. simpl. rewrite lookup_insert_Some. intros [[-> [= <- <-]]|[_ Hc]]; [|by eapply H2].
    split; [done|]. exists o. split; [done|]. exists b. by rewrite Hh.
  - set (o := {| ar_request := rm_request m; ar_channel := None; ar_request_hash := blake3 b |}).
    assert (∀ id', is_Some (p_heap p !! id') → id' ≠ p_next p) as Hfresh.
    { intros id' [o' Ho'] ->. apply (inv_heap p Hp) in Ho' as [? _]. lia. }
    match goal with |- (match _ with Ok _ => _ | Err _ => (?q, _) | Panic => _ end) = _ → _ => assert (protocol_inv q) as Hq end.
    { destruct Hp as [H1 H2 H3 H4 H5]. split; simpl.
      - intros id' o'. simpl. rewrite lookup_insert_Some. intros [[<- <-]|[_ Ho]].
        + split; [lia|]. split; [by exists b|done].
        + apply H1 in Ho as (? & ?). split; [lia|done].
      - intros c' id' r Hc. apply H2 in Hc as (? & o' & Ho' & ?). split; [done|]. exists o'.
        simpl. rewrite lookup_insert_ne; [done|]. symmetry. eauto.
      - intros t id' r Ht. apply H3 in Ht as [o' Ho']. simpl. rewrite lookup_insert_ne; [eauto|]. symmetry. eauto.
      - intros h id'. simpl. rewrite lookup_insert_Some. intros [[<- <-]|[Hne Hh]].
        + split; [lia|]. intros o'. rewrite lookup_insert_eq. by intros [= <-].
        + apply H4 in Hh as [? Hh]. split; [lia|]. intros o'. rewrite lookup_insert_ne; [apply Hh|lia].
      - done. }
    destruct (Message_to_bytes _); intros [= <- _]; [|done..]. destruct Hq as [H1 H2 H3 H4 H5]. split; try done.
    intros c' id' r. simpl. rewrite lookup_insert_Some. intros [[-> [= <- <-]]|[_ Hc]]; [|by eapply H2].
    split; [done|]. exists o. simpl. rewrite lookup_insert_eq. split; [done|]. by exists b.
Qed.

Lemma caller_ends_inv p c : protocol_inv p → protocol_inv (caller_ends p c).
Proof using Type.
  intros [H1 H2 H3 H4 H5]. split; try done. intros c' id r. simpl. rewrite lookup_delete_Some. intros [_ Hc]. by eapply H2.
Qed.

Lemma task_ends_inv p t : protocol_inv p → protocol_inv (task_ends p t).
Proof using Type.
  intros [H1 H2 H3 H4 H5]. split; try done. intros t' id r. simpl. rewrite lookup_delete_Some. intros [_ Hc]. by eapply H3.
Qed.

Lemma queue_ok_push (q q' : BoundedVecDeque nat) x o :
  (length (bq_inner q) <= Nat.max 1 (bq_max_size q))%nat → bq_push q x = (q', o) →
  (length (bq_inner q') <= Nat.max 1 (bq_max_size q'))%nat.
Proof using Type. intros Hq Hp. pose proof (bq_push_spec q x Hq) as H. rewrite Hp in H. apply H. Qed.

Lemma receive_inv p b : protocol_inv p → protocol_inv (receive p b).
Proof using Type.
  intros Hp. unfold receive. destruct (Message_from_bytes b) as [[m|m]| |]; [..|done|done].
  - unfold handle_request. destruct (bq_push _ _) as [q popped] eqn:Hq. destruct Hp as [H1 H2 H3 H4 [H5 H6]]. split; try done.
    + intros id o Ho. destruct (H1 id o Ho). simpl. split; [lia|done].
    + intros h id Hh. destruct (H4 h id Hh). simpl. split; [lia|done].
    + split; [done|]. exact (queue_ok_push _ _ _ _ H6 Hq).
  - unfold handle_response. destruct (p_active_requests p !! rs_request_hash m ≫= weak_upgrade p) as [id|] eqn:Hup; [|done].
    apply upgrade_active in Hup as (_ & _ & o & Ho & _); [|done]. destruct (bq_push _ _) as [q popped] eqn:Hq.
    destruct Hp as [H1 H2 H3 H4 [H5 H6]]. split; try done.
    + intros id' o' Ho'. destruct (H1 id' o' Ho'). simpl. split; [lia|done].
    + intros t id' r. simpl. rewrite lookup_insert_Some. intros [[_ [= <- _]]|[_ Ht]]; [by rewrite Ho|by eapply H3].
    + intros h id' Hh. destruct (H4 h id' Hh). simpl. split; [lia|done].
    + split; [|done]. exact (queue_ok_push _ _ _ _ H5 Hq).
Qed.

Lemma validated_keeps_inv p t id r : protocol_inv p → protocol_inv (validated p t id r).
Proof using Type.
  intros Hp%(task_ends_inv _ t). unfold validated. change (p_heap p) with (p_heap (task_ends p t)).
  destruct (p_heap (task_ends p t) !! id) as [o|] eqn:Ho; [|done]. destruct (resp_validate r (ar_request o)) eqn:Hv; [|done].
  set (q := task_ends p t) in *. clearbody q. destruct Hp as [H1 H2 H3 H4 H5].
  assert (∀ id' (o' : ActiveRequestInner), p_heap q !! id' = Some o' → ∃ o'', <[id := try_broadcast o r]> (p_heap q) !! id' = Some o'' ∧
    ar_request_hash o'' = ar_request_hash o') as Hkeep.
  { intros id' o' Ho'. destruct (decide (id = id')) as [<-|]; [|by rewrite lookup_insert_ne; eauto].
    rewrite lookup_insert_eq. eexists. split; [done|]. simpl. congruence. }
  split; try done.
  - intros id' o'. simpl. rewrite lookup_insert_Some. intros [[<- <-]|[_ Ho']]; [|by apply H1].
    destruct (H1 id o Ho) as (? & ? & Hch). split_and!; [done..|]. simpl. intros r'. destruct (ar_channel o); intros [= <-]; auto.
  - intros c id' r' Hc. apply H2 in Hc as (? & o' & Ho' & Hh). split; [done|]. apply Hkeep in Ho' as (o'' & Ho'' & He).
    exists o''. by rewrite He.
  - intros t' id' r' Ht. apply H3 in Ht as [o' Ho']. apply Hkeep in Ho' as (o'' & Ho'' & _). simpl. by rewrite Ho''.
  - intros h id' Hh. apply H4 in Hh as [? Hh]. split; [done|]. intros o'. simpl. rewrite lookup_insert_Some.
    intros [[<- <-]|[_ Ho']]; [simpl|]; by apply Hh.
Qed.

Lemma drop_active_inv p id o : protocol_inv p → ¬ alive p id → p_heap p !! id = Some o → protocol_inv (drop_active p id o).
Proof using Type.
  intros [H1 H2 H3 H4 H5] Hdead Ho. split; try done.
  - intros id' o'. simpl. rewrite lookup_delete_Some. intros [_ Ho']. by apply H1.
  - intros c id' r Hc. destruct (H2 _ _ _ Hc) as (? & o' & Ho' & ?). split; [done|]. exists o'. simpl.
    rewrite lookup_delete_ne; [done|]. intros <-. apply Hdead. left. by exists c, (id, r).
  - intros t id' r Ht. destruct (H3 _ _ _ Ht) as [o' Ho']. simpl. rewrite lookup_delete_ne; [eauto|]. intros <-.
    apply Hdead. right. by exists t, (id, r).
  - intros h id'. simpl. rewrite lookup_delete_Some. intros [_ Hh]. apply H4 in Hh as [? Hh]. split; [done|].
    intros o'. rewrite lookup_delete_Some. intros [_ Ho']. by apply Hh.
Qed.

Lemma perform_inv p a p' obs :
  protocol_inv p → (∀ c m, a = Call c m → asked c (rm_request m)) → perform config p a = Some (p', obs) → protocol_inv p'.
Proof using Type.
  intros Hp Ha. destruct a; simpl; intros Hs.
  - case_decide; [|done]. destruct (request_start p caller m) as [q e] eqn:Hq. injection Hs as <- _. eapply request_start_inv; eauto.
  - destruct (p_callers p !! caller) as [[id r]|]; [|done]. simpl in Hs. destruct (p_heap p !! id) as [o|]; [|done]. simpl in Hs.
    destruct (ar_channel o); [|done]. injection Hs as <- _. by apply caller_ends_inv.
  - destruct (p_callers p !! caller); [|done]. injection Hs as <- _. by apply caller_ends_inv.
  - injection Hs as <- _. by apply receive_inv.
  - destruct (p_validating p !! task) as [[id r]|]; [|done]. injection Hs as <- _. by apply validated_keeps_inv.
  - destruct (p_responding p !! task); [|done]. injection Hs as <- _. by apply task_ends_inv.
  - injection Hs as <- _. by apply task_ends_inv.
  - case_decide; [|done]. injection Hs as <- _. by apply task_ends_inv.
  - destruct (p_heap p !! id) as [o|] eqn:Ho; [|done]. simpl in Hs. case_decide; [done|]. injection Hs as <- _.
    by apply drop_active_inv.
Qed.
End Invariant.

(** ** Answers *)

(** Only a caller that returns is answered, with what is in its channel. *)
Lemma perform_answered p a p' obs c r :
  perform config p a = Some (p', obs) → Answered c r ∈ obs →
  a = Return c ∧ p' = caller_ends p c ∧
  ∃ id q o, p_callers p !! c = Some (id, q) ∧ p_heap p !! id = Some o ∧ ar_channel o = Some r.
Proof using Type.
  destruct a; simpl; intros Hs Hin.
  - case_decide; [|done]. destruct (request_start p caller m) as [q [e|]]; injection Hs as <- <-; set_solver.
  - destruct (p_callers p !! caller) as [[id q]|] eqn:Hc; [|done]. simpl in Hs. destruct (p_heap p !! id) as [o|] eqn:Ho; [|done].
    simpl in Hs. destruct (ar_channel o) as [x|] eqn:Hx; [|done]. injection Hs as <- <-.
    apply list_elem_of_singleton in Hin as [= -> ->]. eauto 10.
  - destruct (p_callers p !! caller); [|done]. injection Hs as <- <-. set_solver.
  - injection Hs as <- <-. set_solver.
  - destruct (p_validating p !! task); [|done]. injection Hs as <- <-. set_solver.
  - destruct (p_responding p !! task) as [m|]; [|done]. injection Hs as <- <-.
    destruct (respond config clock derived m) as [[]| |]; set_solver.
  - injection Hs as <- <-. set_solver.
  - case_decide; [|done]. injection Hs as <- <-. set_solver.
  - destruct (p_heap p !! id); [|done]. simpl in Hs. case_decide; [done|]. injection Hs as <- <-. set_solver.
Qed.

Section Answers.
Context `{Rl : !RequestLaws} `{Hi : !HashInjective}.

Lemma hashes_to_inj r r' h : hashes_to r h → hashes_to r' h → r = r'.
Proof using Rl Hi.
  intros (b & Hb & ->) (b' & Hb' & Heq). apply blake3_inj in Heq as <-. apply req_roundtrip in Hb, Hb'. congruence.
Qed.

Lemma run_inv asked p acts p' obs :
  protocol_inv asked p → (∀ c m, Call c m ∈ acts → asked c (rm_request m)) →
  perform_all config p acts = Some (p', obs) →
  protocol_inv asked p' ∧ ∀ c r, Answered c r ∈ obs → ∃ q, asked c q ∧ resp_validate r q = true.
Proof using Rl Hi.
  revert p obs. induction acts as [|a acts IH]; intros p obs Hp Hacts; cbn [perform_all].
  { intros [= <- <-]. split; [done|]. by intros c r ?%elem_of_nil. }
  destruct (perform config p a) as [[p1 obs1]|] eqn:Ha; [|done]. simpl.
  destruct (perform_all config p1 acts) as [[p2 obs2]|] eqn:Hrest; [|done]. intros [= <- <-].
  assert (protocol_inv asked p1) as Hp1 by (eapply perform_inv; [done| |done]; set_solver).
  destruct (IH p1 obs2) as [Hp2 Hobs2]; [done|set_solver|done|]. split; [done|].
  intros c r [Hin|Hin]%elem_of_app; [|by apply Hobs2].
  destruct (perform_answered _ _ _ _ _ _ Ha Hin) as (_ & _ & id & q & o & Hc & Ho & Hr).
  destruct (inv_callers _ p Hp _ _ _ Hc) as (Hasked & o' & Ho' & Hh). simplify_eq.
  exists q. split; [done|]. destruct (inv_heap _ p Hp _ _ Ho) as (_ & Hh' & Hch).
  rewrite (hashes_to_inj _ _ _ Hh Hh'). by apply Hch.
Qed.

(** The states a run can reach. *)
Definition reachable (p : Protocol) : Prop := ∃ acts obs, perform_all config (protocol_new config) acts = Some (p, obs).

Lemma reachable_inv p : reachable p → protocol_inv (fun _ _ => True) p.
Proof using Rl Hi.
  intros (acts & obs & Hrun). eapply run_inv in Hrun as [? _]; [done|apply protocol_new_inv|done].
Qed.

(** C12. Answers are valid.  In every interleaving of callers, messages and tasks, an
    answer that a caller receives is valid for a request this caller has made,
    although callers with the same hash share their answers and responses name only
    the hash.  (The hash has no collisions.)  The two queues of tasks stay within
    their bounds (a bound of zero allows one task). *)
Theorem answers_are_valid acts p obs :
  perform_all config (protocol_new config) acts = Some (p, obs) →
  (∀ c r, Answered c r ∈ obs → ∃ m, Call c m ∈ acts ∧ resp_validate r (rm_request m) = true) ∧
  (length (bq_inner (p_incoming_responses p)) <= Nat.max 1 (bq_max_size (p_incoming_responses p)))%nat ∧
  (length (bq_inner (p_outgoing_responses p)) <= Nat.max 1 (bq_max_size (p_outgoing_responses p)))%nat.
Proof using Rl Hi.
  intros Hrun. apply (run_inv (fun c q => ∃ m, Call c m ∈ acts ∧ q = rm_request m)) in Hrun as [Hp Hans];
    [|apply protocol_new_inv|eauto].
  split; [|apply (inv_queues _ _ Hp)]. intros c r Hr. destruct (Hans c r Hr) as (q & (m & Hm & ->) & Hv). eauto.
Qed.
End Answers.

(** ** A late drop *)

(** The caller waits for an active request that nothing refers to any more. *)
Definition orphan (p : Protocol) (c id : nat) : Prop :=
  (∃ q, p_callers p !! c = Some (id, q)) ∧ (id < p_next p)%nat ∧
  (∀ h, p_active_requests p !! h ≠ Some id) ∧ (∀ t r, p_validating p !! t ≠ Some (id, r)) ∧
  ∃ o, p_heap p !! id = Some o ∧ ar_channel o = None.
Definition unanswerable (p : Protocol) (c : nat) : Prop := p_callers p !! c = None ∨ ∃ id, orphan p c id.

Lemma orphan_call p c id c' m p' e :
  orphan p c id → c' ≠ c → request_start p c' m = (p', e) → orphan p' c id.
Proof using Type.
  intros ((q & Hc) & Hlt & Hact & Hval & o & Ho & Hch) Hne. unfold request_start.
  destruct (req_to_bytes (rm_request m)) as [b|]; [|intros [= <- _]; unfold orphan; eauto 10].
  destruct (p_active_requests p !! blake3 b ≫= weak_upgrade p) as [id'|]; destruct (Message_to_bytes _); intros [= <- _];
    unfold orphan; simpl; rewrite ?(lookup_insert_ne _ c' c) by done; rewrite ?(lookup_insert_ne _ (p_next p) id) by lia;
    (split_and!; [by eexists|lia|try done|done|eauto]).
  all: intros h; rewrite lookup_insert_Some; intros [[_ ?]|[_ ?]]; [lia|by eapply Hact].
Qed.

Lemma orphan_receive p c id b : orphan p c id → orphan (receive p b) c id.
Proof using Type.
  intros Hor. unfold receive. destruct (Message_from_bytes b) as [[m|m]| |]; [..|done|done].
  - unfold handle_request. destruct (bq_push _ _). destruct Hor as (Hc & Hlt & Hrest). unfold orphan. simpl.
    split; [done|]. split; [lia|]. done.
  - unfold handle_response. destruct (p_active_requests p !! rs_request_hash m) as [id'|] eqn:Hh; simpl; [|done].
    unfold weak_upgrade. case_decide; [|done]. simpl. destruct (bq_push _ _). destruct Hor as (Hc & Hlt & Hact & Hval & Hch).
    unfold orphan. simpl. split; [done|]. split; [lia|]. split; [done|]. split; [|done]. intros t r.
    rewrite lookup_insert_Some. intros [[_ [= -> _]]|[_ Ht]]; [by eapply Hact|by eapply Hval].
Qed.

Lemma orphan_validated p c id t id' r : orphan p c id → p_validating p !! t = Some (id', r) → orphan (validated p t id' r) c id.
Proof using Type.
  intros (Hc & Hlt & Hact & Hval & o & Ho & Hch) Ht. assert (id' ≠ id) by (intros ->; by eapply Hval).
  unfold validated. assert (orphan (task_ends p t) c id) as Hends.
  { unfold orphan. simpl. split_and!; try done; [|by exists o]. intros t' r'. rewrite lookup_delete_Some. by intros [_ ?%Hval]. }
  destruct (p_heap p !! id'); [|done]. destruct (resp_validate _ _); [|done].
  destruct Hends as (? & ? & ? & ? & o' & Ho' & Hch'). unfold orphan. simpl in *. split_and!; try done.
  exists o'. by rewrite lookup_insert_ne.
Qed.

Lemma orphan_step p a p' obs c :
  perform config p a = Some (p', obs) → unanswerable p c → (∀ m, a ≠ Call c m) →
  unanswerable p' c ∧ ∀ r, Answered c r ∉ obs.
Proof using Type.
  intros Hs Hun Hne. split.
  2: { intros r Hin. destruct (perform_answered _ _ _ _ _ _ Hs Hin) as (_ & _ & id & q & o & Hc & Ho & Hr).
       destruct Hun as [?|(id' & (q' & Hc') & _ & _ & _ & o' & Ho' & Hr')]; congruence. }
  assert (∀ t, unanswerable (task_ends p t) c) as Hends.
  { intros t. destruct Hun as [?|(id & Hc & Hlt & Hact & Hval & Hch)]; [by left|]. right. exists id. unfold orphan. simpl.
    split_and!; try done. intros t' r'. rewrite lookup_delete_Some. by intros [_ ?%Hval]. }
  assert (∀ c', unanswerable (caller_ends p c') c) as Hcaller.
  { intros c'. unfold unanswerable. simpl. destruct (decide (c' = c)) as [->|]; [left; apply lookup_delete_eq|].
    rewrite lookup_delete_ne by done. destruct Hun as [?|(id & Hc & Hrest)]; [by left|]. right. exists id.
    unfold orphan. simpl. by rewrite lookup_delete_ne. }
  destruct a; simpl in Hs.
  - case_decide; [|done]. destruct (request_start p caller m) as [q e] eqn:Hq. injection Hs as <- _.
    assert (caller ≠ c) by (intros ->; by apply (Hne m)).
    destruct Hun as [Hnone|[id Hor]]; [left|right; exists id; by eapply orphan_call].
    revert Hq. unfold request_start. destruct (req_to_bytes _); [|by intros [= <- _]].
    destruct (p_active_requests p !! _ ≫= weak_upgrade p); destruct (Message_to_bytes _); intros [= <- _]; simpl; try done;
      by rewrite lookup_insert_ne.
  - destruct (p_callers p !! caller) as [[id q]|]; [|done]. simpl in Hs. destruct (p_heap p !! id) as [o|]; [|done].
    simpl in Hs. destruct (ar_channel o); [|done]. injection Hs as <- _. apply Hcaller.
  - destruct (p_callers p !! caller); [|done]. injection Hs as <- _. apply Hcaller.
  - injection Hs as <- _. destruct Hun as [Hnone|[id Hor]]; [left|right; exists id; by apply orphan_receive].
    unfold receive, handle_request, handle_response. destruct (Message_from_bytes _) as [[m|m]| |]; try done.
    + by destruct (bq_push _ _).
    + destruct (p_active_requests p !! _ ≫= weak_upgrade p); [|done]. by destruct (bq_push _ _).
  - destruct (p_validating p !! task) as [[id r]|] eqn:Ht; [|done]. injection Hs as <- _.
    destruct Hun as [Hnone|[id' Hor]]; [left|right; exists id'; by apply orphan_validated].
    unfold validated. destruct (p_heap p !! _); [|done]. by destruct (resp_validate _ _).
  - destruct (p_responding p !! task); [|done]. injection Hs as <- _. apply Hends.
  - injection Hs as <- _. apply Hends.
  - case_decide; [|done]. injection Hs as <- _. apply Hends.
  - destruct (p_heap p !! id) as [o|] eqn:Ho; [|done]. simpl in Hs. case_decide as Hdead; [done|]. injection Hs as <- _.
    destruct Hun as [Hnone|(id' & (q & Hc) & Hlt & Hact & Hval & o' & Ho' & Hch)]; [by left|]. right. exists id'.
    assert (id ≠ id') by (intros ->; apply Hdead; left; by exists c, (id', q)).
    unfold orphan. simpl. split_and!; [by eexists|done| |done|].
    + intros h. rewrite lookup_delete_Some. intros [_ ?]. by eapply Hact.
    + exists o'. by rewrite lookup_delete_ne.
Qed.

Lemma orphan_run p acts p' obs c :
  perform_all config p acts = Some (p', obs) → unanswerable p c → (∀ m, Call c m ∉ acts) → ∀ r, Answered c r ∉ obs.
Proof using Type.
  revert p obs. induction acts as [|a acts IH]; intros p obs; cbn [perform_all].
  { intros [= <- <-] _ _ r. apply not_elem_of_nil. }
  destruct (perform config p a) as [[p1 obs1]|] eqn:Ha; [|done]. simpl.
  destruct (perform_all config p1 acts) as [[p2 obs2]|] eqn:Hrest; [|done]. intros [= <- <-] Hun Hno r.
  destruct (orphan_step _ _ _ _ _ Ha Hun) as [Hun1 Hobs1]; [intros m ->; apply (Hno m); left|].
  rewrite elem_of_app. intros [Hin|Hin]; [by eapply Hobs1|]. eapply IH; [exact Hrest|done| |done].
  intros m Hm. apply (Hno m). by right.
Qed.

(** A call under a hash whose active request is gone makes a new one. *)
Lemma request_start_new p c m b id p' :
  req_to_bytes (rm_request m) = Some b → p_active_requests p !! blake3 b = Some id → ¬ alive p id →
  request_start p c m = (p', None) →
  p_callers p' = <[c := (p_next p, rm_request m)]> (p_callers p) ∧ p_validating p' = p_validating p ∧
  p_active_requests p' = <[blake3 b := p_next p]> (p_active_requests p) ∧ p_next p' = S (p_next p) ∧
  p_heap p' = <[p_next p := {| ar_request := rm_request m; ar_channel := None; ar_request_hash := blake3 b |}]> (p_heap p).
Proof using Type.
  intros Hb Hact Hdead. unfold request_start. rewrite Hb, Hact. simpl. unfold weak_upgrade. rewrite decide_False by done.
  by destruct (RequestMessage_to_bytes m); intros [= <-].
Qed.

(** A late drop orphans a caller.  An active request removes the entry under its
    hash when it is dropped, whatever that entry is by then.  Suppose its last holder
    has let it go but its [drop] still waits for the lock, and a new caller asks for
    the same data: the caller makes a new active request, as it should; then the late
    [drop] removes the entry of the new one, and from then on no message and no task
    can ever answer this caller. *)
Theorem late_drop_orphans_caller `{!RequestLaws, !HashInjective} p id o c m p1 p2 obs2 acts p3 obs :
  reachable p → p_heap p !! id = Some o → ¬ alive p id → p_active_requests p !! ar_request_hash o = Some id →
  hashes_to (rm_request m) (ar_request_hash o) →
  perform config p (Call c m) = Some (p1, []) → perform config p1 (Dropped id) = Some (p2, obs2) →
  p_callers p2 !! c = Some (p_next p, rm_request m) ∧
  (perform_all config p2 acts = Some (p3, obs) → (∀ m', Call c m' ∉ acts) → ∀ r, Answered c r ∉ obs).
Proof using Type.
  intros Hp%reachable_inv Ho Hdead Hact (b & Hb & Hh) Hcall Hdrop. rewrite Hh in Hact. simpl in Hcall.
  case_decide; [|done]. destruct (request_start p c m) as [q e] eqn:Hq. destruct e; [done|]. injection Hcall as <-.
  destruct (request_start_new _ _ _ _ _ _ Hb Hact Hdead Hq) as (Ec & Ev & Ea & En & Eh).
  destruct (inv_heap _ p Hp _ _ Ho) as [Hlt _]. simpl in Hdrop.
  rewrite Eh, lookup_insert_ne, Ho in Hdrop by lia. simpl in Hdrop. case_decide; [done|]. injection Hdrop as <- _. simpl.
  rewrite Ec, lookup_insert_eq. split; [done|]. intros Hrun. apply (orphan_run _ _ _ _ _ Hrun). right. exists (p_next p).
  unfold orphan. simpl. rewrite Ec, Ev, Ea, En, Eh, Hh. split_and!.
  - exists (rm_request m). apply lookup_insert_eq.
  - lia.
  - intros h. rewrite delete_insert_eq. rewrite lookup_delete_Some. intros [_ Hh']. apply (inv_active _ p Hp) in Hh' as [? _]. lia.
  - intros t r Ht. apply (inv_tasks _ p Hp) in Ht as [o' Ho']. apply (inv_heap _ p Hp) in Ho' as [? _]. lia.
  - eexists. rewrite lookup_delete_ne by lia. rewrite lookup_insert_eq. done.
Qed.

(** ** Shared answers *)

(** The response in a channel stays until the active request is gone, and its address
    is not used again. *)
Definition channel_is (p : Protocol) (id : nat) (r : Response) : Prop :=
  (id < p_next p)%nat ∧ ∀ o, p_heap p !! id = Some o → ar_channel o = Some r.
Definition waits_on (p : Protocol) (c id : nat) : Prop := ∀ id' q, p_callers p !! c = Some (id', q) → id' = id.

Lemma start_keeps p c m p' e id :
  request_start p c m = (p', e) → (id < p_next p)%nat →
  (p_next p <= p_next p')%nat ∧ p_heap p' !! id = p_heap p !! id ∧
  ∀ c', c' ≠ c → p_callers p' !! c' = p_callers p !! c'.
Proof using Type.
  unfold request_start. intros Hs Hlt. destruct (req_to_bytes _); [|by injection Hs as <- _].
  destruct (p_active_requests p !! _ ≫= weak_upgrade p); destruct (Message_to_bytes _); injection Hs as <- _; simpl;
    rewrite ?lookup_insert_ne by lia; (split_and!; [lia|done|]); intros c' Hc; by rewrite ?lookup_insert_ne by done.
Qed.

Lemma receive_keeps p b : (p_next p <= p_next (receive p b))%nat ∧ p_heap (receive p b) = p_heap p ∧
  p_callers (receive p b) = p_callers p.
Proof using Type.
  unfold receive, handle_request, handle_response. destruct (Message_from_bytes b) as [[m|m]| |]; try done.
  - destruct (bq_push _ _). simpl. split_and!; [lia|done..].
  - destruct (p_active_requests p !! _ ≫= weak_upgrade p); [|done]. destruct (bq_push _ _). simpl. split_and!; [lia|done..].
Qed.

Lemma step_keeps p a p' obs id :
  perform config p a = Some (p', obs) → (id < p_next p)%nat →
  (p_next p <= p_next p')%nat ∧ (∀ r, channel_is p id r → channel_is p' id r) ∧
  ∀ c, (∀ m, a ≠ Call c m) → waits_on p c id → waits_on p' c id.
Proof using Type.
  intros Hs Hlt. assert (∀ c c', waits_on p c' id → waits_on (caller_ends p c) c' id) as Hends.
  { intros c c' Hw id' q. simpl. rewrite lookup_delete_Some. intros [_ ?]. by eapply Hw. }
  destruct a; simpl in Hs.
  - case_decide; [|done]. destruct (request_start p caller m) as [q e] eqn:Hq. injection Hs as <- _.
    destruct (start_keeps _ _ _ _ _ _ Hq Hlt) as (Hn & Hh & Hc). split_and!; [done|..].
    + intros r [_ Hr]. split; [lia|]. by rewrite Hh.
    + intros c Hne Hw id' r. rewrite Hc; [apply Hw|]. intros ->. by apply (Hne m).
  - destruct (p_callers p !! caller) as [[? ?]|]; [|done]. simpl in Hs. destruct (p_heap p !! _); [|done]. simpl in Hs.
    destruct (ar_channel _); [|done]. injection Hs as <- _. split_and!; [done|done|auto].
  - destruct (p_callers p !! caller); [|done]. injection Hs as <- _. split_and!; [done|done|auto].
  - injection Hs as <- _. destruct (receive_keeps p message) as (Hn & Hh & Hc). split_and!; [done|..].
    + intros r [_ Hr]. split; [lia|]. by rewrite Hh.
    + intros c _ Hw. unfold waits_on. by rewrite Hc.
  - destruct (p_validating p !! task) as [[id' r']|]; [|done]. injection Hs as <- _. simpl. unfold validated.
    destruct (p_heap p !! id') as [o|] eqn:Ho; [|done]. destruct (resp_validate _ _); [|done].
    split_and!; [done| |done]. intros r [_ Hr]. split; [done|]. intros o'. simpl. rewrite lookup_insert_Some.
    intros [[-> <-]|[_ Ho']]; [|by apply Hr]. simpl. by rewrite (Hr _ Ho).
  - destruct (p_responding p !! task); [|done]. by injection Hs as <- _.
  - by injection Hs as <- _.
  - case_decide; [|done]. by injection Hs as <- _.
  - destruct (p_heap p !! id0); [|done]. simpl in Hs. case_decide; [done|]. injection Hs as <- _. split_and!; [done| |done].
    intros r [_ Hr]. split; [done|]. intros o. simpl. rewrite lookup_delete_Some. intros [_ ?]. by apply Hr.
Qed.

Lemma answers_from_channel p acts p' obs c id r :
  perform_all config p acts = Some (p', obs) → (∀ m, Call c m ∉ acts) → waits_on p c id → channel_is p id r →
  ∀ x, Answered c x ∈ obs → x = r.
Proof using Type.
  revert p obs. induction acts as [|a acts IH]; intros p obs; cbn [perform_all].
  { intros [= <- <-] _ _ _ x Hx. by apply elem_of_nil in Hx. }
  destruct (perform config p a) as [[p1 obs1]|] eqn:Ha; [|done]. simpl.
  destruct (perform_all config p1 acts) as [[p2 obs2]|] eqn:Hrest; [|done]. intros [= <- <-] Hno Hw Hch x.
  rewrite elem_of_app. intros [Hin|Hin].
  - destruct (perform_answered _ _ _ _ _ _ Ha Hin) as (_ & _ & id' & q & o & Hc & Ho & Hr).
    rewrite (Hw _ _ Hc) in Ho. apply Hch in Ho. congruence.
  - destruct (step_keeps _ _ _ _ id Ha) as (_ & Hk & Hk'); [apply Hch|].
    eapply IH; [exact Hrest|set_solver|..|exact Hin]; [|by apply Hk]. apply Hk'; [|done]. intros m ->. apply (Hno m). left.
Qed.

Lemma shared_answers p acts p' obs c1 c2 id :
  perform_all config p acts = Some (p', obs) → (∀ m, Call c1 m ∉ acts) → (∀ m, Call c2 m ∉ acts) →
  (id < p_next p)%nat → waits_on p c1 id → waits_on p c2 id →
  ∀ x1 x2, Answered c1 x1 ∈ obs → Answered c2 x2 ∈ obs → x1 = x2.
Proof using Type.
  revert p obs. induction acts as [|a acts IH]; intros p obs; cbn [perform_all].
  { intros [= <- <-] _ _ _ _ _ x1 x2 Hx. by apply elem_of_nil in Hx. }
  destruct (perform config p a) as [[p1 obs1]|] eqn:Ha; [|done]. simpl.
  destruct (perform_all config p1 acts) as [[p2 obs2]|] eqn:Hrest; [|done]. intros [= <- <-] Hno1 Hno2 Hlt Hw1 Hw2 x1 x2.
  destruct (step_keeps _ _ _ _ id Ha Hlt) as (Hn & Hk & Hk').
  assert (∀ c, (∀ m, Call c m ∉ a :: acts) → waits_on p c id → waits_on p1 c id) as Hwaits.
  { intros c Hno Hw. apply Hk'; [|done]. intros m ->. apply (Hno m). left. }
  assert (∀ c x, waits_on p c id → Answered c x ∈ obs1 → channel_is p id x) as Hchan.
  { intros c x Hw Hin. destruct (perform_answered _ _ _ _ _ _ Ha Hin) as (_ & _ & id' & q & o & Hc & Ho & Hr).
    rewrite (Hw _ _ Hc) in Ho. split; [done|]. intros o' Ho'. congruence. }
  rewrite !elem_of_app. intros [H1|H1] [H2|H2].
  - destruct (perform_answered _ _ _ _ _ _ Ha H1) as (_ & _ & id' & q & o & Hc & Ho & Hr).
    rewrite (Hw1 _ _ Hc) in Ho. destruct (Hchan c2 x2 Hw2 H2) as [_ Hx]. apply Hx in Ho. congruence.
  - symmetry. eapply (answers_from_channel p1 acts p2 obs2 c2 id x1); [exact Hrest|set_solver|by apply (Hwaits c2)|apply Hk; by eapply (Hchan c1)|done].
  - eapply (answers_from_channel p1 acts p2 obs2 c1 id x2); [exact Hrest|set_solver|by apply (Hwaits c1)|apply Hk; by eapply (Hchan c2)|done].
  - eapply (IH p1); [exact Hrest|set_solver|set_solver|lia|by apply Hwaits|by apply Hwaits|done|done].
Qed.

(** Callers share an answer.  A caller that asks for what another caller already
    waits for, under the entry of the map, joins its active request; from then on,
    whatever else happens, all answers the two receive are the same one. *)
Theorem joined_callers_share_answer `{!RequestLaws, !HashInjective} p id q c1 c2 m b p1 acts p2 obs :
  reachable p → req_to_bytes (rm_request m) = Some b → p_active_requests p !! blake3 b = Some id →
  p_callers p !! c1 = Some (id, q) → perform config p (Call c2 m) = Some (p1, []) →
  perform_all config p1 acts = Some (p2, obs) → (∀ m', Call c1 m' ∉ acts) → (∀ m', Call c2 m' ∉ acts) →
  p_callers p1 !! c2 = Some (id, rm_request m) ∧
  ∀ r1 r2, Answered c1 r1 ∈ obs → Answered c2 r2 ∈ obs → r1 = r2.
Proof using Type.
  intros Hp%reachable_inv Hb Hact Hc1 Hcall Hrun Hno1 Hno2. simpl in Hcall. case_decide as Hfree; [|done].
  assert (c1 ≠ c2) by congruence. assert (alive p id) as Hal by (left; by exists c1, (id, q)).
  destruct (alive_heap _ p id Hp Hal) as [o Ho]. destruct (inv_heap _ p Hp _ _ Ho) as [Hlt _].
  destruct (request_start p c2 m) as [p1' e] eqn:Hq. destruct e; [done|]. injection Hcall as ->.
  revert Hq. unfold request_start. rewrite Hb, Hact. simpl. unfold weak_upgrade. rewrite decide_True by done.
  destruct (x ← RequestMessage_to_bytes m; Ok (0 :: x)); intros [= <-]; simpl. rewrite lookup_insert_eq. split; [done|].
  eapply (shared_answers _ _ _ _ c1 c2 id Hrun); simpl; try done.
  - intros id' r. simpl. rewrite lookup_insert_ne by done. rewrite Hc1. by intros [= -> _].
  - intros id' r. simpl. rewrite lookup_insert_eq. by intros [= -> _].
Qed.

(** ** Requests are answered *)

Lemma new_signed_inv clock k sk r m : new_signed clock k sk r = Ok m →
  rm_request m = r ∧ rm_public_key m = k ∧ clock = Some (rm_timestamp_unix_seconds m) ∧ is_Some (req_to_bytes r).
Proof using Type.
  intros (t & Ht & (b & Hb%ok_or_Ok & (s & Hs & <-%Ok_inj)%bind_ok_inv)%bind_ok_inv)%bind_ok_inv.
  destruct clock; [|done]. injection Ht as ->. rewrite Hb. done.
Qed.

Section Liveness.
Context (signed : PubKey → bytes → Prop) `{Sl : !SignatureLaws Sg signed} `{Rl : !RequestLaws}.

(** A caller that waits, with its active request under its hash in the map. *)
Definition waiting (p : Protocol) (c : nat) (r : Request) : Prop :=
  ∃ id b, p_callers p !! c = Some (id, r) ∧ req_to_bytes r = Some b ∧ p_active_requests p !! blake3 b = Some id.

Lemma call_waits p c m p1 :
  perform config p (Call c m) = Some (p1, []) → waiting p1 c (rm_request m).
Proof using Type.
  simpl. case_decide; [|done]. unfold request_start. destruct (req_to_bytes (rm_request m)) as [b|] eqn:Hb; [|done].
  destruct (p_active_requests p !! blake3 b ≫= weak_upgrade p) as [id|] eqn:Hact;
    (destruct (Message_to_bytes (MRequest m)); [|done..]); intros [= <-]; eexists _, b; simpl; rewrite lookup_insert_eq.
  - split_and!; [done..|]. destruct (p_active_requests p !! blake3 b) as [id'|]; [|done]. simpl in Hact.
    unfold weak_upgrade in Hact. case_decide; [|done]. by injection Hact as ->.
  - by rewrite lookup_insert_eq.
Qed.

(** Tasks have numbers of their own: one that has ended stays ended, and what a task
    works on does not change. *)
Lemma perform_tasks p a p' obs t :
  perform config p a = Some (p', obs) → (t < p_next p)%nat →
  (t < p_next p')%nat ∧ (p_validating p' !! t = p_validating p !! t ∨ p_validating p' !! t = None) ∧
  (p_responding p' !! t = p_responding p !! t ∨ p_responding p' !! t = None).
Proof using Type.
  intros Hs Hlt. assert (∀ q u, p_validating (task_ends q u) !! t = p_validating q !! t ∨ p_validating (task_ends q u) !! t = None) as Hv.
  { intros q u. simpl. destruct (decide (u = t)) as [->|]; [right; apply lookup_delete_eq|left; by apply lookup_delete_ne]. }
  assert (∀ q u, p_responding (task_ends q u) !! t = p_responding q !! t ∨ p_responding (task_ends q u) !! t = None) as Hr.
  { intros q u. simpl. destruct (decide (u = t)) as [->|]; [right; apply lookup_delete_eq|left; by apply lookup_delete_ne]. }
  destruct a; simpl in Hs.
  - case_decide; [|done]. destruct (request_start p caller m) as [q e] eqn:Hq. injection Hs as <- _.
    unfold request_start in Hq. destruct (req_to_bytes _); [|injection Hq as <- _; auto].
    destruct (p_active_requests p !! _ ≫= weak_upgrade p); destruct (Message_to_bytes _); injection Hq as <- _; simpl; auto with lia.
  - destruct (p_callers p !! caller) as [[? ?]|]; [|done]. simpl in Hs. destruct (p_heap p !! _); [|done]. simpl in Hs.
    destruct (ar_channel _); [|done]. injection Hs as <- _. simpl. auto.
  - destruct (p_callers p !! caller); [|done]. injection Hs as <- _. simpl. auto.
  - injection Hs as <- _. unfold receive, handle_request, handle_response. destruct (Message_from_bytes message) as [[m|m]| |]; auto.
    + destruct (bq_push _ _). simpl. rewrite lookup_insert_ne by lia. auto with lia.
    + destruct (p_active_requests p !! _ ≫= weak_upgrade p); [|auto]. destruct (bq_push _ _). simpl.
      rewrite lookup_insert_ne by lia. auto with lia.
  - destruct (p_validating p !! task) as [[id' r']|]; [|done]. injection Hs as <- _. unfold validated. simpl.
    destruct (p_heap p !! id'); [destruct (resp_validate _ _)|]; (split; [done|]); split; apply Hv || apply Hr.
  - destruct (p_responding p !! task); [|done]. injection Hs as <- _. auto.
  - injection Hs as <- _. auto.
  - case_decide; [|done]. injection Hs as <- _. auto.
  - destruct (p_heap p !! id); [|done]. simpl in Hs. case_decide; [done|]. injection Hs as <- _. simpl. auto.
Qed.

Lemma ended_task p acts p' obs t :
  perform_all config p acts = Some (p', obs) → (t < p_next p)%nat → p_validating p !! t = None → Validated t ∉ acts.
Proof using Type.
  revert p obs. induction acts as [|a acts IH]; intros p obs; cbn [perform_all]; [intros; apply not_elem_of_nil|].
  destruct (perform config p a) as [[p1 obs1]|] eqn:Ha; [|done]. simpl.
  destruct (perform_all config p1 acts) as [[p2 obs2]|] eqn:Hrest; [|done]. intros [= <- <-] Hlt Hn.
  destruct (perform_tasks _ _ _ _ t Ha Hlt) as (Hlt1 & Hv & _). apply not_elem_of_cons. split.
  - intros <-. simpl in Ha. by rewrite Hn in Ha.
  - eapply IH; [exact Hrest|done|]. destruct Hv; congruence.
Qed.

Lemma responding_kept q acts q' obs t m :
  perform_all config q acts = Some (q', obs) → (t < p_next q)%nat → p_responding q !! t = Some m →
  is_Some (p_responding q' !! t) → p_responding q' !! t = Some m.
Proof using Type.
  assert (∀ acts q obs, perform_all config q acts = Some (q', obs) → (t < p_next q)%nat → p_responding q !! t = None →
    p_responding q' !! t = None) as Hnone.
  { clear. intros acts. induction acts as [|a acts IH]; intros q obs; cbn [perform_all]; [by intros [= <- <-]|].
    destruct (perform config q a) as [[q1 obs1]|] eqn:Ha; [|done]. simpl.
    destruct (perform_all config q1 acts) as [[q2 obs2]|] eqn:Hrest; [|done]. intros [= <- <-] Hlt Hn.
    destruct (perform_tasks _ _ _ _ t Ha Hlt) as (Hlt1 & _ & Hr). eapply IH; [exact Hrest|done|]. destruct Hr; congruence. }
  revert q obs. induction acts as [|a acts IH]; intros q obs; cbn [perform_all]; [by intros [= <- <-]|].
  destruct (perform config q a) as [[q1 obs1]|] eqn:Ha; [|done]. simpl.
  destruct (perform_all config q1 acts) as [[q2 obs2]|] eqn:Hrest; [|done]. intros [= <- <-] Hlt Hm Hsome.
  destruct (perform_tasks _ _ _ _ t Ha Hlt) as (Hlt1 & _ & [Hr|Hr]).
  - eapply IH; [exact Hrest|done|congruence|done].
  - rewrite (Hnone _ _ _ Hrest Hlt1 Hr) in Hsome. by destruct Hsome.
Qed.

(** The responder: whatever happens between the arrival of the request and the end of its
    task, if the task has not been cancelled and the data source answers, it replies. *)
Lemma responder_answers q m bm b clock resp :
  is_u64 (rm_timestamp_unix_seconds m) → Message_to_bytes (MRequest m) = Ok bm →
  request_validate clock (incoming_request_ttl config) m = Ok tt → req_to_bytes (rm_request m) = Some b →
  is_Some (resp_to_bytes resp) →
  ∃ b', Message_to_bytes (MResponse {| rs_request_hash := blake3 b; rs_response := resp |}) = Ok b' ∧
    ∀ acts q1 obs, perform_all config (receive q bm) acts = Some (q1, obs) → is_Some (p_responding q1 !! p_next q) →
      ∃ q2, perform config q1 (Respond (p_next q) clock (Some resp)) = Some (q2, [Sent b' (rm_public_key m)]).
Proof using Rl.
  intros Hts Hbm Hval Hb [rb Hrb].
  assert (∃ b', Message_to_bytes (MResponse {| rs_request_hash := blake3 b; rs_response := resp |}) = Ok b') as [b' Hb'].
  { simpl. unfold ResponseMessage_to_bytes. simpl. rewrite Hrb. by eexists. }
  exists b'. split; [done|]. intros acts q1 obs Hrun Hsome.
  assert (p_responding (receive q bm) !! p_next q = Some m ∧ (p_next q < p_next (receive q bm))%nat) as [Hm Hlt].
  { unfold receive. rewrite (message_reads (MRequest m) bm Hts Hbm). unfold handle_request.
    destruct (bq_push _ _). simpl. split; [apply lookup_insert_eq|lia]. }
  simpl. rewrite (responding_kept _ _ _ _ _ _ Hrun Hlt Hm Hsome). simpl.
  assert (respond config clock (Some resp) m = Ok (b', rm_public_key m)) as ->; [|by eexists].
  unfold respond. rewrite Hval. mon. cbn [ok_or]. mon. rewrite Hb. cbn [ok_or]. mon. by rewrite Hb'.
Qed.

(** The caller waits on [id], whose request is [R]. *)
Definition held_by (c id : nat) (r R : Request) (p : Protocol) : Prop :=
  (id < p_next p)%nat ∧ p_callers p !! c = Some (id, r) ∧ ∃ o, p_heap p !! id = Some o ∧ ar_request o = R.

Lemma held_step p a p' obs c id r R :
  perform config p a = Some (p', obs) → a ≠ CallTimeout c → held_by c id r R p →
  (∃ x, Answered c x ∈ obs) ∨ held_by c id r R p'.
Proof using Type.
  intros Hs Hne (Hlt & Hc & o & Ho & HR). unfold held_by. destruct a; simpl in Hs.
  - case_decide; [|done]. destruct (request_start p caller m) as [q e] eqn:Hq. injection Hs as <- _.
    destruct (start_keeps _ _ _ _ _ id Hq Hlt) as (Hn & Hh & Hcs). right. rewrite Hh, Hcs by congruence. eauto with lia.
  - destruct (decide (caller = c)) as [->|Hcc].
    + rewrite Hc in Hs. simpl in Hs. rewrite Ho in Hs. simpl in Hs. destruct (ar_channel o) as [x|]; [|done].
      injection Hs as _ <-. left. exists x. left.
    + right. destruct (p_callers p !! caller) as [[? ?]|]; [|done]. simpl in Hs. destruct (p_heap p !! _); [|done]. simpl in Hs.
      destruct (ar_channel _); [|done]. injection Hs as <- _. simpl. rewrite lookup_delete_ne by done. eauto.
  - right. destruct (p_callers p !! caller); [|done]. injection Hs as <- _. simpl. rewrite lookup_delete_ne by congruence. eauto.
  - right. injection Hs as <- _. destruct (receive_keeps p message) as (Hn & -> & ->). eauto with lia.
  - right. destruct (p_validating p !! task) as [[id' r']|]; [|done]. injection Hs as <- _. simpl. unfold validated.
    destruct (p_heap p !! id') as [o'|] eqn:Ho'; [|eauto]. destruct (resp_validate _ _); [|eauto]. simpl.
    split; [done|]. split; [done|]. destruct (decide (id' = id)) as [->|].
    + rewrite lookup_insert_eq. eexists. split; [done|]. simpl. congruence.
    + rewrite lookup_insert_ne by done. eauto.
  - right. destruct (p_responding p !! task); [|done]. injection Hs as <- _. simpl. eauto.
  - right. injection Hs as <- _. simpl. eauto.
  - right. case_decide; [|done]. injection Hs as <- _. simpl. eauto.
  - right. destruct (p_heap p !! id0) as [o'|] eqn:Ho'; [|done]. simpl in Hs. case_decide as Hal; [done|].
    injection Hs as <- _. simpl. split; [done|]. split; [done|]. rewrite lookup_delete_ne; [eauto|].
    intros ->. apply Hal. left. by exists c, (id, r).
Qed.

(** The response is in the channel. *)
Lemma filled_run p acts p' obs c id r R x :
  perform_all config p acts = Some (p', obs) → CallTimeout c ∉ acts → held_by c id r R p → channel_is p id x →
  (∃ y, Answered c y ∈ obs) ∨ ∃ p2, perform config p' (Return c) = Some (p2, [Answered c x]).
Proof using Type.
  revert p obs. induction acts as [|a acts IH]; intros p obs; cbn [perform_all].
  { intros [= <- <-] _ (_ & Hc & o & Ho & _) [_ Hch]. right. simpl. rewrite Hc. simpl. rewrite Ho. simpl.
    rewrite (Hch o Ho). simpl. by eexists. }
  destruct (perform config p a) as [[p1 obs1]|] eqn:Ha; [|done]. simpl.
  destruct (perform_all config p1 acts) as [[p2 obs2]|] eqn:Hrest; [|done].
  intros [= <- <-] [Hne Hno]%not_elem_of_cons Hheld Hch.
  destruct (held_step p a p1 obs1 c id r R Ha) as [(y & Hy)|Hheld1]; [by intros ->|done| |].
  - left. exists y. apply elem_of_app. by left.
  - destruct (step_keeps _ _ _ _ id Ha) as (_ & Hk & _); [apply Hch|].
    destruct (IH p1 obs2) as [(y & Hy)|?]; [done|done|done|by apply Hk| |by right].
    left. exists y. apply elem_of_app. by right.
Qed.

(** The task that validates the response is running, and will end by itself. *)
Lemma validating_run p acts p' obs c id r R t resp :
  perform_all config p acts = Some (p', obs) → CallTimeout c ∉ acts → held_by c id r R p →
  (t < p_next p)%nat → p_validating p !! t = Some (id, resp) → resp_validate resp R = true → Validated t ∈ acts →
  (∃ y, Answered c y ∈ obs) ∨ ∃ p2 x, perform config p' (Return c) = Some (p2, [Answered c x]).
Proof using Type.
  revert p obs. induction acts as [|a acts IH]; intros p obs; cbn [perform_all]; [by intros ?????? ?%elem_of_nil|].
  destruct (perform config p a) as [[p1 obs1]|] eqn:Ha; [|done]. simpl.
  destruct (perform_all config p1 acts) as [[p2 obs2]|] eqn:Hrest; [|done].
  intros [= <- <-] [Hne Hno]%not_elem_of_cons Hheld Hlt Ht Hv Hin.
  destruct (held_step p a p1 obs1 c id r R Ha) as [(y & Hy)|Hheld1]; [by intros ->|done| |].
  { left. exists y. apply elem_of_app. by left. }
  apply elem_of_cons in Hin as [<-|Hin].
  2: { destruct (perform_tasks _ _ _ _ t Ha Hlt) as (Hlt1 & [Hk|Hk] & _).
       - destruct (IH p1 obs2) as [(y & Hy)|?]; [done|done|done|done|congruence|done|done| |by right].
         left. exists y. apply elem_of_app. by right.
       - by apply (ended_task _ _ _ _ _ Hrest Hlt1 Hk) in Hin. }
  simpl in Ha. rewrite Ht in Ha. injection Ha as <- <-. destruct Hheld as (_ & _ & o & Ho & HR). simpl in *.
  unfold validated in *. rewrite Ho, HR, Hv in *.
  destruct (filled_run _ _ _ _ _ _ _ _ (default resp (ar_channel o)) Hrest Hno Hheld1) as [(y & Hy)|[p3 Hp3]].
  - split; [apply Hheld1|]. simpl. intros o'. rewrite lookup_insert_eq. intros [= <-]. simpl. by destruct (ar_channel o).
  - left. by exists y.
  - right. eauto.
Qed.

(** The requester: the response arrives while the caller waits. *)
Lemma requester_receives `{!HashInjective} p c r b b' resp acts p' obs :
  reachable p → waiting p c r → req_to_bytes r = Some b → resp_validate resp r = true →
  Message_to_bytes (MResponse {| rs_request_hash := blake3 b; rs_response := resp |}) = Ok b' →
  perform_all config (receive p b') acts = Some (p', obs) → Validated (p_next p) ∈ acts → CallTimeout c ∉ acts →
  (∃ y, Answered c y ∈ obs) ∨ ∃ p2 x, perform config p' (Return c) = Some (p2, [Answered c x]).
Proof using Rl.
  intros Hp%reachable_inv (id & b0 & Hc & Hb0 & Hact) Hb Hv Hb' Hrun Hin Hno. rewrite Hb in Hb0. injection Hb0 as <-.
  destruct (inv_callers _ p Hp _ _ _ Hc) as (_ & o & Ho & Hh). destruct (inv_heap _ p Hp _ _ Ho) as (Hlt & Hh' & _).
  assert (ar_request o = r) as HR by (by eapply hashes_to_inj).
  assert (receive p b' = handle_response p {| rs_request_hash := blake3 b; rs_response := resp |}) as Hrec.
  { unfold receive. by rewrite (message_reads (MResponse {| rs_request_hash := blake3 b; rs_response := resp |}) b' (blake3_length b) Hb'). }
  assert (p_active_requests p !! blake3 b ≫= weak_upgrade p = Some id) as Hup.
  { rewrite Hact. simpl. unfold weak_upgrade. rewrite decide_True; [done|]. left. by exists c, (id, r). }
  rewrite Hrec in Hrun. unfold handle_response in Hrun. simpl in Hrun. rewrite Hup in Hrun.
  destruct (bq_push _ _) as [inc popped] in Hrun.
  eapply (validating_run _ acts p' obs c id r r (p_next p) resp); [exact Hrun|done|..].
  - split_and!; simpl; [lia|done|eauto].
  - simpl. lia.
  - simpl. apply lookup_insert_eq.
  - done.
  - done.
Qed.

(** C27. Requests are answered, in every interleaving.  A caller that has asked waits, with
    its active request in the map.  Let the request have been signed with the node's key, be
    valid for the application, and reach a responder before its time to live has passed;
    whatever else the responder does, if the task of the request is still running when the
    data source answers, it sends one message to the requester.  Let that message arrive, and
    its response be valid for the request, while the caller waits and its active request is
    still in the map; whatever happens then, with other callers, messages and tasks in any
    order: once the task that validates the response has ended by itself, not cancelled
    and not timed out, the caller has been answered or can return with an answer at once,
    unless it has timed out itself. *)
Theorem request_is_answered `{!HashInjective} q c sk r t now m bm b resp :
  new_signed (Some t) (from_private sk) sk r = Ok m → is_u64 t → req_validate r = true →
  now <= u64_saturating_add t (incoming_request_ttl config) → Message_to_bytes (MRequest m) = Ok bm →
  is_Some (resp_to_bytes resp) → resp_validate resp r = true → req_to_bytes r = Some b →
  (∀ p p1, perform config p (Call c m) = Some (p1, []) → waiting p1 c r) ∧
  ∃ b', Message_to_bytes (MResponse {| rs_request_hash := blake3 b; rs_response := resp |}) = Ok b' ∧
    (∀ acts q1 obs, perform_all config (receive q bm) acts = Some (q1, obs) → is_Some (p_responding q1 !! p_next q) →
       ∃ q2, perform config q1 (Respond (p_next q) (Some now) (Some resp)) = Some (q2, [Sent b' (from_private sk)])) ∧
    ∀ p acts p' obs, reachable p → waiting p c r → perform_all config (receive p b') acts = Some (p', obs) →
      Validated (p_next p) ∈ acts → CallTimeout c ∉ acts →
      (∃ y, Answered c y ∈ obs) ∨ ∃ p2 x, perform config p' (Return c) = Some (p2, [Answered c x]).
Proof using Sl Rl.
  intros Hnew Ht Hr Hnow Hbm Hresp Hv Hb.
  destruct (new_signed_inv _ _ _ _ _ Hnew) as (Hmr & Hmk & [= Hmt] & _). subst r.
  split; [intros p p1; apply call_waits|].
  destruct (responder_answers q m bm b (Some now) resp) as (b' & Hb' & Hq); [congruence|done| |done|done|].
  { rewrite (own_request_validates signed now _ t sk _ m Hnew Hr). done. }
  exists b'. rewrite <-Hmk. split; [done|]. split; [exact Hq|]. intros p acts p' obs Hp Hw Hrun Hin Hno. by eapply requester_receives.
Qed.
End Liveness.

(** ** Sending *)

Definition recipient_of (a : SendAction) : option PubKey := match a with Send _ k => Some k | Sleep => None end.

Lemma chunks_join {A} fuel size (l : list A) : (0 < size)%nat → (length l <= fuel)%nat →
  mjoin (chunks fuel size l) = l ∧ Forall (fun batch => 0 < length batch <= size)%nat (chunks fuel size l).
Proof using Type.
  intros Hs. revert l. induction fuel as [|fuel IH]; intros l Hl; [by destruct l; simpl in *; [split; constructor|lia]|].
  destruct l as [|x l]; simpl; [split; constructor|]. destruct (IH (drop size (x :: l))) as [Hj Hf].
  { rewrite length_drop. simpl in *. lia. }
  rewrite Hj, take_drop. split; [done|]. constructor; [|done]. rewrite length_take. simpl. lia.
Qed.

(** A round sends to every recipient once, in order, and pauses after each batch; a
    round without recipients does not pause. *)
Lemma send_round_spec message recipients :
  match send_round config message recipients with
  | Ok acts => omap recipient_of acts = recipients ∧ (recipients = [] → acts = [])
  | Err _ => False
  | Panic => request_batch_size config = 0%nat
  end.
Proof using Type.
  unfold send_round. case_decide as Hs; [done|]. split; [|by intros ->].
  destruct (chunks_join (length recipients) (request_batch_size config) recipients) as [Hj _]; [lia|lia|].
  rewrite <-Hj at 3. clear Hj. induction (chunks _ _ _) as [|batch rest IH]; simpl; [done|].
  rewrite !omap_app, IH. f_equal. induction batch; csimpl; [done|]. by f_equal.
Qed.
End Properties.

(** ** Witnesses *)

Module RrDemo.
#[local] Existing Instance Ideal.open_signatures.

(** The answer to a number is the next one. *)
Definition types : RequestTypes (Sg := Ideal.open_signatures) := {|
  Request := Z; Response := Z;
  req_to_bytes r := Some [r]; req_from_bytes b := head b;
  resp_to_bytes r := Some [r]; resp_from_bytes b := head b;
  req_validate _ := true;
  resp_validate r q := r =? q + 1;
  key_to_bytes (k : @PubKey Ideal.open_signatures) := [(k : Z)]; key_from_bytes b := head b;
  sig_serialize s := Some [Z.pos (encode (A := list (Z * bytes)) s)];
  sig_deserialize b := x ← head b; decode (A := list (Z * bytes)) (Z.to_pos x);
  blake3 b := Z.pos (encode b) :: replicate 31 0;
|}.
#[global] Existing Instance types.
#[global] Instance laws : RequestLaws (Rt := types).
Proof.
  split; simpl; try (by intros ?? [= <-]); try done.
  intros s b [= <-]. simpl. apply (decode_encode (A := list (Z * bytes))).
Qed.
#[global] Instance hash_inj : HashInjective (Rt := types).
Proof. intros b b' [= H]. by apply (inj encode) in H. Qed.

Definition config : RequestResponseConfig :=
  {| incoming_request_ttl := 40; request_batch_size := 10; max_outgoing_responses := 10; max_incoming_responses := 5 |}.
Definition asks (t q : Z) : RequestMessage :=
  {| rm_public_key := 1 : @PubKey Ideal.open_signatures;
     rm_signature := [(1, [q] ++ to_le_bytes 8 t)] : @Sig Ideal.open_signatures;
     rm_timestamp_unix_seconds := t; rm_request := q : Request |}.
Definition eight : Response := 8.
Definition wire (m : Message) : bytes := match Message_to_bytes m with Ok b => b | _ => [] end.
Definition reply (q r : Z) : bytes := wire (MResponse {| rs_request_hash := blake3 [q]; rs_response := r : Response |}).
Definition state (acts : list action) : Protocol :=
  match perform_all config (protocol_new config) acts with Some (p, _) => p | None => protocol_new config end.

Lemma state_reachable acts :
  bool_decide (is_Some (perform_all config (protocol_new config) acts)) = true → reachable config (state acts).
Proof.
  intros [[p obs] Hp]%bool_decide_eq_true. exists acts, obs. unfold state. by rewrite Hp.
Qed.
End RrDemo.

Section RrWitnesses.
Import RrDemo.
#[local] Existing Instance Ideal.open_signatures.

Lemma request_message_roundtrip_witness :
  message_ok (MRequest (asks 1000 7)) ∧ Message_from_bytes (wire (MRequest (asks 1000 7))) = Ok (MRequest (asks 1000 7)).
Proof. split; [done|]. apply request_message_roundtrip; [done|vm_compute; reflexivity]. Defined.

Lemma requests_are_authentic_witness :
  request_validate (Some 1030) 40 (asks 1000 7) = Ok tt ∧ Ideal.all_sign 1 ([7] ++ to_le_bytes 8 1000) = true ∧
  1030 <= u64_saturating_add 1000 40.
Proof.
  assert (request_validate (Some 1030) 40 (asks 1000 7) = Ok tt) as Hv by (vm_compute; reflexivity).
  destruct (requests_are_authentic _ (Sl := Ideal.open_laws) 1030 40) as [H _].
  destruct (H (asks 1000 7)) as (Hnow & _ & b & Hb & Hs & _); [done|exact Hv|].
  injection Hb as <-. split; [exact Hv|]. split; [exact Hs|exact Hnow].
Defined.

Lemma answers_are_valid_witness :
  ∃ m, Call 1 m ∈ [Call 1 (asks 1000 7); Receive (reply 7 8); Validated 1; Return 1] ∧ resp_validate eight (rm_request m) = true.
Proof.
  destruct (shows (perform_all config (protocol_new config)
    [Call 1 (asks 1000 7); Receive (reply 7 8); Validated 1; Return 1]) [Answered 1 eight]) as [p Hrun];
    [vm_compute; reflexivity|].
  destruct (answers_are_valid config _ p _ Hrun) as [Hans _]. apply (Hans 1%nat). left.
Defined.

(** The first caller times out; the second one asks before the first active request is
    dropped. *)
Lemma late_drop_orphans_caller_witness :
  ∃ p2, perform_all config (state [Call 1 (asks 1000 7); CallTimeout 1]) [Call 2 (asks 1001 7); Dropped 0] = Some (p2, []) ∧
    p_callers p2 !! 2%nat = Some (1%nat, (7 : Request)) ∧
    ∀ acts p3 obs, perform_all config p2 acts = Some (p3, obs) → (∀ m', Call 2 m' ∉ acts) → ∀ r, Answered 2 r ∉ obs.
Proof.
  set (p := state [Call 1 (asks 1000 7); CallTimeout 1]).
  destruct (shows (perform config p (Call 2 (asks 1001 7))) []) as [p1 H1]; [vm_compute; reflexivity|].
  destruct (shows (perform_all config p [Call 2 (asks 1001 7); Dropped 0]) []) as [p2 H2]; [vm_compute; reflexivity|].
  cbn [perform_all] in H2. rewrite H1 in H2. cbn [mbind option_bind] in H2.
  destruct (perform config p1 (Dropped 0)) as [[p2' [|]]|] eqn:H2'; [|done..]. injection H2 as ->. rename H2' into H2.
  exists p2. cbn [perform_all]. rewrite H1. cbn [mbind option_bind]. rewrite H2. split; [done|].
  pose proof (late_drop_orphans_caller config p 0
    {| ar_request := 7 : Request; ar_channel := None; ar_request_hash := blake3 [7] |} 2 (asks 1001 7) p1 p2 []) as H.
  assert (∀ acts p3 obs, p_callers p2 !! 2%nat = Some (p_next p, rm_request (asks 1001 7)) ∧
    (perform_all config p2 acts = Some (p3, obs) → (∀ m', Call 2 m' ∉ acts) → ∀ r, Answered 2 r ∉ obs)) as Hall.
  { intros acts p3 obs. apply H.
    - apply state_reachable. vm_compute. reflexivity.
    - vm_compute. reflexivity.
    - apply (bool_decide_eq_false (alive p 0)). vm_compute. reflexivity.
    - vm_compute. reflexivity.
    - exists [7]. split; reflexivity.
    - exact H1.
    - exact H2. }
  split; [apply (Hall [] p2 [])|]. intros acts p3 obs. apply (Hall acts p3 obs).
Defined.

Lemma joined_callers_share_answer_witness :
  ∃ p2 obs, perform_all config (state [Call 1 (asks 1000 7); Call 2 (asks 1001 7)])
      [Receive (reply 7 8); Validated 1; Return 1; Return 2] = Some (p2, obs) ∧
    Answered 2 eight ∈ obs ∧ ∀ r, Answered 1 r ∈ obs → r = eight.
Proof.
  set (p1 := state [Call 1 (asks 1000 7); Call 2 (asks 1001 7)]). set (acts := [_; _; _; Return 2]).
  set (obs := [Answered 1 eight; Answered 2 eight]).
  destruct (shows (perform_all config p1 acts) obs) as [p2 Hrun]; [vm_compute; reflexivity|]. exists p2, obs.
  assert (Answered 2 eight ∈ obs) as H2 by (right; left).
  split; [done|]. split; [exact H2|]. intros r Hr.
  apply (joined_callers_share_answer config (state [Call 1 (asks 1000 7)]) 0 (rm_request (asks 1000 7)) 1 2 (asks 1001 7) [7] p1 acts p2 obs).
  - apply state_reachable. vm_compute. reflexivity.
  - reflexivity.
  - vm_compute. reflexivity.
  - vm_compute. reflexivity.
  - vm_compute. reflexivity.
  - exact Hrun.
  - intros m Hm. subst acts. repeat (apply elem_of_cons in Hm as [?|Hm]; [done|]). by apply elem_of_nil in Hm.
  - intros m Hm. subst acts. repeat (apply elem_of_cons in Hm as [?|Hm]; [done|]). by apply elem_of_nil in Hm.
  - exact Hr.
  - exact H2.
Defined.

(** Between the messages another caller joins, and the validation of a useless response ends. *)
Lemma request_is_answered_witness :
  ∃ b', (∃ q2, perform config (state [Receive (wire (MRequest (asks 1000 7)))]) (Respond 0 (Some 1030) (Some eight)) =
           Some (q2, [Sent b' (1 : @PubKey Ideal.open_signatures)])) ∧
    ((∃ y, Answered 1 y ∈ [] ++ [Failed 2 RTimeout]) ∨
     ∃ p2 x, perform config (state ([Call 1 (asks 1000 7); Receive b'] ++ [Call 2 (asks 1001 7); Validated 1; CallTimeout 2])) (Return 1) =
       Some (p2, [Answered 1 x])).
Proof.
  destruct (request_is_answered config _ (Sl := Ideal.open_laws) (protocol_new config) 1
    (1 : @PrivKey Ideal.open_signatures) (rm_request (asks 1000 7)) 1000 1030 (asks 1000 7) (wire (MRequest (asks 1000 7))) [7] eight)
    as (Hcall & b' & Hb' & Hq & Hp).
  - vm_compute. reflexivity.
  - done.
  - reflexivity.
  - vm_compute. done.
  - vm_compute. reflexivity.
  - by eexists.
  - reflexivity.
  - reflexivity.
  - assert (b' = reply 7 8) as -> by (vm_compute in Hb'; injection Hb' as <-; vm_compute; reflexivity).
    exists (reply 7 8). split; [apply (Hq [] _ []); [vm_compute; reflexivity|vm_compute; by eexists]|].
    apply (Hp (state [Call 1 (asks 1000 7)]) [Call 2 (asks 1001 7); Validated 1; CallTimeout 2]).
    + apply state_reachable. vm_compute. reflexivity.
    + apply (Hcall (protocol_new config)). vm_compute. reflexivity.
    + vm_compute. reflexivity.
    + right. left.
    + intros Hin. rewrite !elem_of_cons, elem_of_nil in Hin. by destruct Hin as [?|[?|[?|[]]]].
Defined.
End RrWitnesses.
