(* ===== verification/CombinedNetwork.v ===== *)
(** * The combined network

    [hotshot/src/traits/networking/combined_network.rs]: a network made of a primary
    one (the CDN) and a secondary one (libp2p).  Every message goes to the primary.
    It also goes to the secondary, at once, or after a delay when the primary is
    believed to work and the message belongs to a view: it is left out then if the
    view has passed meanwhile.  Messages come in from both networks, and a cache of
    hashes drops the second copy.

    The two networks are outside: what they are asked to do is the history of a run,
    and how they answer is part of the actions.  A call of [send_both_networks] runs
    beside other calls, the delayed tasks and the tasks of [update_view]; [perform] is
    one uninterrupted part of one of them. *)

From S2P Require Import Prelude Crypto Epochs Committee Network.

(** ** Constants: [types/src/constants.rs] *)

Definition COMBINED_NETWORK_CACHE_SIZE : nat := Z.to_nat 200000.
Definition COMBINED_NETWORK_MIN_PRIMARY_FAILURES : Z := 5.
Definition COMBINED_NETWORK_PRIMARY_CHECK_INTERVAL : Z := 50.
Definition COMBINED_NETWORK_DELAY_DURATION : Z := 5000.

(** ** The key of [BTreeMap::first_key_value] *)

Section FirstKey.
Context {A : Type}.
Implicit Types (m : gmap Z A).

Definition first_key m : option Z :=
  map_fold (fun k _ acc => match acc with Some a => Some (Z.min k a) | None => Some k end) None m.

Lemma first_key_spec m :
  match first_key m with
  | Some k => is_Some (m !! k) ∧ ∀ i, is_Some (m !! i) → k <= i
  | None => m = ∅
  end.
Proof using Type.
  unfold first_key.
  apply (map_fold_weak_ind (fun acc m => match acc with
    | Some k => is_Some (m !! k) ∧ ∀ i, is_Some (m !! i) → k <= i | None => m = ∅ end)); [done|].
  intros i a m' [k|] Hi.
  - intros [Hk Hmin]. split.
    + destruct (Z.min_spec i k) as [[_ ->]|[_ ->]]; [by rewrite lookup_insert_eq|].
      destruct (decide (i = k)) as [->|?]; [by rewrite lookup_insert_eq|by rewrite lookup_insert_ne].
    + intros j [->|[_ Hj]]%lookup_insert_is_Some; [lia|]. specialize (Hmin j Hj). lia.
  - intros ->. split; [by rewrite lookup_insert_eq|].
    intros j [->|[_ [? Hj]]]%lookup_insert_is_Some; [lia|by rewrite lookup_empty in Hj].
Qed.
End FirstKey.

(** ** The message cache

    [lru::LruCache] is a parameter with its documented behaviour: the keys in the
    order of their last use, of which [put] keeps as many as fit, and says whether the
    key was there. *)
Class Lru (C K : Type) `{EqDecision K} := {
  lru_new : nat → C;
  lru_put : C → K → C * bool;
  lru_cap : C → nat;
  lru_keys : C → list K;
}.
Class LruLaws (C K : Type) `{Lru C K} := {
  lru_new_keys n : lru_keys (lru_new n) = [];
  lru_new_cap n : lru_cap (lru_new n) = n;
  lru_put_cap c k : lru_cap (lru_put c k).1 = lru_cap c;
  lru_put_keys c k : lru_keys (lru_put c k).1 = take (lru_cap c) (k :: base.filter (.≠ k) (lru_keys c));
  lru_put_found c k : (lru_put c k).2 = bool_decide (k ∈ lru_keys c);
}.

Section Combined.
Context `{Sg : SignatureScheme}.
Context {Hash Cache : Type} `{EqDecision Hash} `{Lr : !Lru Cache Hash} (blake3_hash : bytes → Hash).

(** ** State *)

Inductive Topic := Global | Da.

Record CombinedNetworks := {
  message_cache : Cache;
  primary_fail_counter : Z;
  primary_down : bool;
  delay_duration : Z;
  (** The cancelling channel of each view. *)
  delayed_tasks_channels : gmap Z nat;
  no_delay_counter : Z;
}.

Definition CombinedNetworks_new (duration : option Z) : CombinedNetworks :=
  {| message_cache := lru_new COMBINED_NETWORK_CACHE_SIZE; primary_fail_counter := 0; primary_down := false;
     delay_duration := default COMBINED_NETWORK_DELAY_DURATION duration; delayed_tasks_channels := ∅;
     no_delay_counter := 0 |}.

(** The stores to the atomics. *)
Definition store_fail_counter (n : CombinedNetworks) (c : Z) : CombinedNetworks :=
  {| message_cache := message_cache n; primary_fail_counter := c; primary_down := primary_down n;
     delay_duration := delay_duration n; delayed_tasks_channels := delayed_tasks_channels n;
     no_delay_counter := no_delay_counter n |}.
Definition store_down (n : CombinedNetworks) (b : bool) : CombinedNetworks :=
  {| message_cache := message_cache n; primary_fail_counter := primary_fail_counter n; primary_down := b;
     delay_duration := delay_duration n; delayed_tasks_channels := delayed_tasks_channels n;
     no_delay_counter := no_delay_counter n |}.
Definition store_no_delay (n : CombinedNetworks) (c : Z) : CombinedNetworks :=
  {| message_cache := message_cache n; primary_fail_counter := primary_fail_counter n;
     primary_down := primary_down n; delay_duration := delay_duration n;
     delayed_tasks_channels := delayed_tasks_channels n; no_delay_counter := c |}.
Definition set_channels (n : CombinedNetworks) (m : gmap Z nat) : CombinedNetworks :=
  {| message_cache := message_cache n; primary_fail_counter := primary_fail_counter n;
     primary_down := primary_down n; delay_duration := delay_duration n;
     delayed_tasks_channels := m; no_delay_counter := no_delay_counter n |}.
Definition is_primary_down (n : CombinedNetworks) : bool := primary_down n.

(** ** Sending *)

(** What both networks are asked to send. *)
Inductive Call :=
  | CBroadcast (message : bytes) (topic : Topic)
  | CDaBroadcast (message : bytes) (recipients : list PubKey)
  | CDirect (message : bytes) (recipient : PubKey).

(** [broadcast_message], [da_broadcast_message] and [direct_message]: the call for the
    two networks, which get no delay of their own, and the delay of the call. *)
Definition broadcast_message (message : bytes) (topic : Topic) (delay : BroadcastDelay) : Call * BroadcastDelay :=
  (CBroadcast message topic, delay).
Definition da_broadcast_message (message : bytes) (recipients : list PubKey) (delay : BroadcastDelay)
    : Call * BroadcastDelay :=
  (CDaBroadcast message recipients, delay).
Definition direct_message (message : bytes) (recipient : PubKey) : Call * BroadcastDelay :=
  (CDirect message recipient, DelayNone).

(** A call that waits for the primary, with its local variable. *)
Record Sending := { s_call : Call; s_delay : BroadcastDelay; s_primary_failed : bool }.

(** A delayed task: the channel it listens to and when its sleep ends. *)
Record DelayedTask := { d_call : Call; d_view : Z; d_receiver : nat; d_wake : Z }.

Record World := {
  networks : CombinedNetworks;
  sending : gmap nat Sending;
  delayed : gmap nat DelayedTask;
  (** The channels on which the signal was sent; a receiver of such a channel is from
      before the signal, since the channel has left the map by then. *)
  signalled : gset nat;
  next_channel : nat;
  next_call : nat;
  clock : Z;
}.

(** The first part of [send_both_networks], up to the call of the primary. *)
Definition check_primary (n : CombinedNetworks) : CombinedNetworks * bool :=
  if primary_down n then (n, true)
  else if COMBINED_NETWORK_MIN_PRIMARY_FAILURES <? primary_fail_counter n then (store_down n true, true)
  else (n, false).

(** The answer of the primary. *)
Definition primary_answer (n : CombinedNetworks) (primary_failed ok : bool) : CombinedNetworks * bool :=
  if ok then (n, primary_failed)
  else (store_fail_counter n (u64_add (primary_fail_counter n) 1), true).

(** The bookkeeping of a message that is not delayed. *)
Definition count_no_delay (n : CombinedNetworks) : CombinedNetworks :=
  if primary_down n then
    let c := no_delay_counter n in
    if c <? COMBINED_NETWORK_PRIMARY_CHECK_INTERVAL then store_no_delay n (c + 1)
    else store_fail_counter (store_down (store_no_delay n 0) false) COMBINED_NETWORK_MIN_PRIMARY_FAILURES
  else n.

(** The channel of the view, made if there is none. *)
Definition view_channel (w : World) (n : CombinedNetworks) (view : Z) : CombinedNetworks * nat * nat :=
  match delayed_tasks_channels n !! view with
  | Some ch => (n, ch, next_channel w)
  | None =>
      let ch := next_channel w in
      (set_channels n (<[view := ch]> (delayed_tasks_channels n)), ch, S ch)
  end.

(** The bookkeeping of a delayed task that was cancelled. *)
Definition count_cancelled (n : CombinedNetworks) : CombinedNetworks :=
  let c := primary_fail_counter n in
  if c =? 0 then store_down n false else store_fail_counter n (c - 1).

(** The loop of [update_view] over the channels of earlier views. *)
Fixpoint cancel_loop (fuel : nat) (view : Z) (m : gmap Z nat) (signals : gset nat) : gmap Z nat * gset nat :=
  match fuel with
  | O => (m, signals)
  | S fuel =>
      match first_key m with
      | Some first_view =>
          if first_view <? view then
            match m !! first_view with
            | Some ch => cancel_loop fuel view (delete first_view m) ({[ch]} ∪ signals)
            | None => (m, signals)
            end
          else (m, signals)
      | None => (m, signals)
      end
  end.
Definition cancel_views (view : Z) (m : gmap Z nat) : gmap Z nat * gset nat := cancel_loop (size m) view m ∅.

(** ** Runs *)

(** What the two networks see, and how calls end. *)
Inductive Obs :=
  | Primary (call : nat) (c : Call) (delay : BroadcastDelay)
  | PrimaryAnswered (call : nat) (ok : bool)
  | Secondary (call : nat) (c : Call)
  | NotSent (call : nat)
  | Returned (call : nat) (ok : bool)
  | VidOnPrimary (messages : gmap PubKey bytes)
  | ViewUpdated (view : Z).

Inductive Action :=
  (** A caller calls a method. *)
  | Start (c : Call * BroadcastDelay)
  (** The primary answers a call; the secondary answers as given if it is asked now. *)
  | Answer (call : nat) (ok secondary_ok : bool)
  (** The sleep of a delayed task ends. *)
  | Wake (call : nat)
  (** The task of [update_view] runs. *)
  | UpdateTo (view : Z)
  | VidBroadcast (messages : gmap PubKey bytes)
  | Tick.

Definition with_networks (w : World) (n : CombinedNetworks) : World :=
  {| networks := n; sending := sending w; delayed := delayed w; signalled := signalled w;
     next_channel := next_channel w; next_call := next_call w; clock := clock w |}.

Definition start (w : World) (c : Call) (delay : BroadcastDelay) : World * list Obs :=
  let '(n, primary_failed) := check_primary (networks w) in
  let id := next_call w in
  ({| networks := n; sending := <[id := {| s_call := c; s_delay := delay; s_primary_failed := primary_failed |}]> (sending w);
      delayed := delayed w; signalled := signalled w; next_channel := next_channel w; next_call := S id; clock := clock w |},
   [Primary id c delay]).

Definition answer (w : World) (id : nat) (s : Sending) (ok secondary_ok : bool) : World * list Obs :=
  let '(n, primary_failed) := primary_answer (networks w) (s_primary_failed s) ok in
  match s_delay s, primary_failed with
  | DelayView view, false =>
      let '(n, ch, next) := view_channel w n view in
      ({| networks := n; sending := delete id (sending w);
          delayed := <[id := {| d_call := s_call s; d_view := view; d_receiver := ch;
                                d_wake := clock w + delay_duration n |}]> (delayed w);
          signalled := signalled w; next_channel := next; next_call := next_call w; clock := clock w |},
       [PrimaryAnswered id ok; Returned id true])
  | _, _ =>
      ({| networks := count_no_delay n; sending := delete id (sending w); delayed := delayed w;
          signalled := signalled w; next_channel := next_channel w; next_call := next_call w; clock := clock w |},
       [PrimaryAnswered id ok; Secondary id (s_call s); Returned id secondary_ok])
  end.

Definition wake (w : World) (id : nat) (d : DelayedTask) : World * list Obs :=
  let n := networks w in
  let cancelled := bool_decide (d_receiver d ∈ signalled w) in
  ({| networks := if cancelled then count_cancelled n
                  else store_fail_counter n (u64_add (primary_fail_counter n) 1);
      sending := sending w; delayed := delete id (delayed w); signalled := signalled w;
      next_channel := next_channel w; next_call := next_call w; clock := clock w |},
   if cancelled then [NotSent id] else [Secondary id (d_call d)]).

Definition update_to (w : World) (view : Z) : World * list Obs :=
  let '(m, signals) := cancel_views view (delayed_tasks_channels (networks w)) in
  ({| networks := set_channels (networks w) m; sending := sending w; delayed := delayed w;
      signalled := signalled w ∪ signals; next_channel := next_channel w; next_call := next_call w;
      clock := clock w |}, [ViewUpdated view]).

(** [vid_broadcast_message] *)
Definition vid_broadcast_message (w : World) (messages : gmap PubKey bytes) : World * list Obs :=
  (w, [VidOnPrimary messages]).

Definition perform (w : World) (a : Action) : option (World * list Obs) :=
  match a with
  | Start (c, delay) => Some (start w c delay)
  | Answer id ok secondary_ok => (fun s => answer w id s ok secondary_ok) <$> sending w !! id
  | Wake id =>
      d ← delayed w !! id;
      if d_wake d <=? clock w then Some (wake w id d) else None
  | UpdateTo view => Some (update_to w view)
  | VidBroadcast messages => Some (vid_broadcast_message w messages)
  | Tick =>
      Some ({| networks := networks w; sending := sending w; delayed := delayed w; signalled := signalled w;
               next_channel := next_channel w; next_call := next_call w; clock := clock w + 1 |}, [])
  end.

Definition world_new (duration : option Z) : World :=
  {| networks := CombinedNetworks_new duration; sending := ∅; delayed := ∅; signalled := ∅;
     next_channel := 0; next_call := 0; clock := 0 |}.

Fixpoint play (w : World) (acts : list Action) : option (World * list Obs) :=
  match acts with
  | [] => Some (w, [])
  | a :: acts =>
      '(w, o) ← perform w a;
      '(w, os) ← play w acts;
      Some (w, o ++ os)
  end.

(** ** Receiving *)

(** What one of the two networks yields. *)
Inductive Arrival := Arrived (message : bytes) | RecvFailed.

(** With the arrivals that are left; nothing if all were dropped. *)
Fixpoint recv_message (cache : Cache) (arrivals : list Arrival) : option (option bytes * Cache * list Arrival) :=
  match arrivals with
  | [] => None
  | RecvFailed :: arrivals => Some (None, cache, arrivals)
  | Arrived message :: arrivals =>
      let '(cache, found) := lru_put cache (blake3_hash message) in
      if found then recv_message cache arrivals else Some (Some message, cache, arrivals)
  end.

(** ** Cancelling *)

Lemma cancel_loop_spec fuel view m sg :
  (size m <= fuel)%nat →
  (cancel_loop fuel view m sg).1 = split_off m view ∧
  ∀ ch, ch ∈ (cancel_loop fuel view m sg).2 ↔ ch ∈ sg ∨ ∃ v, m !! v = Some ch ∧ v < view.
Proof using Type.
  revert m sg. induction fuel as [|fuel IH]; intros m sg Hsize; simpl.
  { assert (m = ∅) as -> by (apply map_size_empty_inv; lia). split; [by rewrite split_off_empty|].
    set_solver. }
  pose proof (first_key_spec m) as Hfirst. destruct (first_key m) as [k|]; simpl.
  - destruct Hfirst as [[ch Hch] Hmin]. destruct (Z.ltb_spec k view) as [Hlt|Hge].
    + rewrite Hch. destruct (IH (delete k m) ({[ch]} ∪ sg)) as [Hm Hsg].
      { rewrite map_size_delete_Some by done. lia. }
      rewrite Hm. split.
      * apply map_eq. intros i. apply option_eq. intros c. rewrite !split_off_Some, lookup_delete_Some.
        naive_solver lia.
      * intros c. rewrite Hsg. setoid_rewrite lookup_delete_Some. rewrite elem_of_union, elem_of_singleton.
        split; [naive_solver|]. intros [?|(v & Hv & ?)]; [by auto|].
        destruct (decide (k = v)) as [->|?]; [left; left; congruence|]. eauto.
    + split; [|split; [by auto|intros [?|(v & Hv & ?)]; [done|]]].
      * apply map_eq. intros i. apply option_eq. intros c. rewrite split_off_Some. split; [|by intros [? _]].
        intros Hi. split; [done|]. specialize (Hmin i (mk_is_Some _ _ Hi)). lia.
      * specialize (Hmin v (mk_is_Some _ _ Hv)). lia.
  - subst. split; [by rewrite split_off_empty|]. set_solver.
Qed.

(** ** Every message is sent *)

(** The calls of a history, and how each ended: on the secondary, or left out. *)
Definition started_by (id : nat) (o : Obs) : option (Call * BroadcastDelay) :=
  match o with Primary i c d => if decide (i = id) then Some (c, d) else None | _ => None end.
Definition verdict_of (id : nat) (o : Obs) : option (option Call) :=
  match o with
  | Secondary i c => if decide (i = id) then Some (Some c) else None
  | NotSent i => if decide (i = id) then Some None else None
  | _ => None
  end.
Definition started (id : nat) (h : list Obs) : list (Call * BroadcastDelay) := omap (started_by id) h.
Definition verdicts (id : nat) (h : list Obs) : list (option Call) := omap (verdict_of id) h.

(** After the primary had taken the message, the node moved past its view. *)
Definition superseded (h : list Obs) (id : nat) (view : Z) : Prop :=
  ∃ h1 h2 v, h = h1 ++ ViewUpdated v :: h2 ∧ PrimaryAnswered id true ∈ h1 ∧ view < v.

Definition ended (h : list Obs) (id : nat) (c : Call) (delay : BroadcastDelay) : Prop :=
  verdicts id h = [Some c] ∨ verdicts id h = [None] ∧ ∃ v, delay = DelayView v ∧ superseded h id v.

Definition call_ok (w : World) (h : list Obs) (id : nat) : Prop :=
  match sending w !! id, delayed w !! id with
  | Some s, None => started id h = [(s_call s, s_delay s)] ∧ verdicts id h = [] ∧ (id < next_call w)%nat
  | None, Some d =>
      started id h = [(d_call d, DelayView (d_view d))] ∧ verdicts id h = [] ∧ (id < next_call w)%nat ∧
      PrimaryAnswered id true ∈ h ∧
      (d_receiver d ∈ signalled w ∧ superseded h id (d_view d) ∨
       d_receiver d ∉ signalled w ∧ delayed_tasks_channels (networks w) !! d_view d = Some (d_receiver d))
  | None, None =>
      started id h = [] ∧ verdicts id h = [] ∧ (next_call w <= id)%nat ∨
      ∃ c delay, started id h = [(c, delay)] ∧ (id < next_call w)%nat ∧ ended h id c delay
  | Some _, Some _ => False
  end.

Definition channels_ok (w : World) : Prop :=
  (∀ v ch, delayed_tasks_channels (networks w) !! v = Some ch → (ch < next_channel w)%nat ∧ ch ∉ signalled w) ∧
  (∀ v v' ch, delayed_tasks_channels (networks w) !! v = Some ch →
     delayed_tasks_channels (networks w) !! v' = Some ch → v = v') ∧
  (∀ ch, ch ∈ signalled w → (ch < next_channel w)%nat).

Definition world_ok (w : World) (h : list Obs) : Prop := channels_ok w ∧ ∀ id, call_ok w h id.

Lemma superseded_app h o id v : superseded h id v → superseded (h ++ o) id v.
Proof using Type. intros (h1 & h2 & v' & -> & ? & ?). exists h1, (h2 ++ o), v'. by rewrite <- app_assoc. Qed.

(** A call keeps its place while the others act. *)
Lemma call_ok_frame w w' h o id :
  call_ok w h id →
  started id o = [] → verdicts id o = [] →
  sending w' !! id = sending w !! id → delayed w' !! id = delayed w !! id →
  (next_call w <= next_call w')%nat → (next_call w <= id → next_call w' <= id)%nat →
  (∀ d, delayed w !! id = Some d →
     d_receiver d ∉ signalled w → delayed_tasks_channels (networks w) !! d_view d = Some (d_receiver d) →
     PrimaryAnswered id true ∈ h →
     d_receiver d ∈ signalled w' ∧ superseded (h ++ o) id (d_view d) ∨
     d_receiver d ∉ signalled w' ∧ delayed_tasks_channels (networks w') !! d_view d = Some (d_receiver d)) →
  signalled w ⊆ signalled w' →
  call_ok w' (h ++ o) id.
Proof using Type.
  unfold call_ok, started, verdicts, ended, verdicts. intros Hok Hs Hv -> -> Hn Hn' Hch Hsub.
  rewrite !omap_app, Hs, Hv, !app_nil_r.
  destruct (sending w !! id) as [s|], (delayed w !! id) as [d|]; [done| |..].
  - destruct Hok as (? & ? & ?). split_and!; [done..|lia].
  - destruct Hok as (? & ? & ? & Ha & Hd). split_and!; [done..|lia|set_solver|].
    destruct Hd as [[? ?]|[? ?]]; [left; split; [set_solver|by apply superseded_app]|by apply Hch].
  - destruct Hok as [(? & ? & ?)|(c & dl & ? & ? & He)]; [left; auto|right; exists c, dl].
    split_and!; [done|lia|]. destruct He as [?|(? & v & ? & ?)]; [by left|right].
    split; [done|]. exists v. split; [done|by apply superseded_app].
Qed.

Lemma check_primary_channels n :
  delayed_tasks_channels (check_primary n).1 = delayed_tasks_channels n.
Proof using Type. unfold check_primary. by repeat case_match. Qed.
Lemma primary_answer_channels n b ok :
  delayed_tasks_channels (primary_answer n b ok).1 = delayed_tasks_channels n.
Proof using Type. unfold primary_answer. by case_match. Qed.
Lemma count_no_delay_channels n : delayed_tasks_channels (count_no_delay n) = delayed_tasks_channels n.
Proof using Type. unfold count_no_delay. by repeat case_match. Qed.
Lemma count_cancelled_channels n : delayed_tasks_channels (count_cancelled n) = delayed_tasks_channels n.
Proof using Type. unfold count_cancelled. by case_match. Qed.

(** A frame for steps that touch neither channels nor signals. *)
Lemma call_ok_frame' w w' h o id :
  call_ok w h id →
  started id o = [] → verdicts id o = [] →
  sending w' !! id = sending w !! id → delayed w' !! id = delayed w !! id →
  (next_call w <= next_call w')%nat → (next_call w <= id → next_call w' <= id)%nat →
  delayed_tasks_channels (networks w') = delayed_tasks_channels (networks w) → signalled w' = signalled w →
  call_ok w' (h ++ o) id.
Proof using Type.
  intros Hok Hs Hv Hse Hde Hn Hn' Hch Hsig. eapply call_ok_frame; try done; rewrite ?Hch, ?Hsig; [|done].
  intros d _ ? ? _. by right.
Qed.

Lemma channels_ok_same w w' :
  channels_ok w → delayed_tasks_channels (networks w') = delayed_tasks_channels (networks w) →
  signalled w' = signalled w → next_channel w' = next_channel w → channels_ok w'.
Proof using Type. unfold channels_ok. by intros ? -> -> ->. Qed.

Lemma start_ok w h c delay :
  world_ok w h → world_ok (start w c delay).1 (h ++ (start w c delay).2).
Proof using Type.
  intros [Hch Hok]. unfold start. pose proof (check_primary_channels (networks w)) as Hc.
  destruct (check_primary (networks w)) as [n failed]. simpl in Hc |- *.
  split; [by eapply channels_ok_same|]. intros id. specialize (Hok id).
  destruct (decide (id = next_call w)) as [->|Hne].
  - unfold call_ok in *. simpl. rewrite lookup_insert_eq.
    destruct (sending w !! next_call w), (delayed w !! next_call w); [done|lia|lia|].
    destruct Hok as [(Hs & Hv & _)|(? & ? & _ & ? & _)]; [|lia].
    unfold started, verdicts in *. rewrite !omap_app, Hs, Hv. simpl. rewrite decide_True by done.
    split_and!; [done..|lia].
  - eapply call_ok_frame'; simpl; try done; rewrite ?decide_False, ?lookup_insert_ne by done; try done; lia.
Qed.

Lemma view_channel_spec w n view n' ch next :
  view_channel w n view = (n', ch, next) →
  delayed_tasks_channels n' = <[view := ch]> (delayed_tasks_channels n) ∧
  (delayed_tasks_channels n !! view = Some ch ∧ next = next_channel w ∨
   delayed_tasks_channels n !! view = None ∧ ch = next_channel w ∧ next = S ch).
Proof using Type.
  unfold view_channel. destruct (_ !! _) as [c|] eqn:Hc; intros; simplify_eq/=; [|by auto].
  rewrite insert_id by done. auto.
Qed.

Lemma view_channel_ok w n view n' ch next sg :
  channels_ok w → delayed_tasks_channels n = delayed_tasks_channels (networks w) →
  view_channel w n view = (n', ch, next) → sg = signalled w →
  (∀ v c, delayed_tasks_channels n' !! v = Some c → (c < next)%nat ∧ c ∉ sg) ∧
  (∀ v v' c, delayed_tasks_channels n' !! v = Some c → delayed_tasks_channels n' !! v' = Some c → v = v') ∧
  (∀ c, c ∈ sg → (c < next)%nat) ∧
  (∀ v c, delayed_tasks_channels n !! v = Some c → delayed_tasks_channels n' !! v = Some c).
Proof using Type.
  intros (Hlt & Hinj & Hsg) Hn Hvc ->. apply view_channel_spec in Hvc as [-> [[Hc ->]|(Hc & -> & ->)]].
  - rewrite insert_id by done. rewrite Hn in *. auto.
  - rewrite Hn in *. setoid_rewrite lookup_insert_Some. split_and!.
    + intros v c [[-> <-]|[_ Hv]].
      * split; [lia|]. intros ?%Hsg. lia.
      * apply Hlt in Hv as [? ?]. split; [lia|done].
    + intros v v' c [[? ?]|[? Hv]] [[? ?]|[? Hv']]; simplify_eq; try done;
        [apply Hlt in Hv' as [? _]; lia|apply Hlt in Hv as [? _]; lia|by eapply Hinj].
    + intros c ?%Hsg. lia.
    + intros v c Hv. right. split; [congruence|done].
Qed.

(** The call of a world that is being sent. *)
Lemma sending_inv w h id s :
  call_ok w h id → sending w !! id = Some s →
  delayed w !! id = None ∧ started id h = [(s_call s, s_delay s)] ∧ verdicts id h = [] ∧ (id < next_call w)%nat.
Proof using Type. unfold call_ok. intros Hok Hs. rewrite Hs in Hok. by destruct (delayed w !! id). Qed.

Lemma answer_delayed_ok w h id s n view n' ch next :
  world_ok w h → sending w !! id = Some s → s_delay s = DelayView view →
  delayed_tasks_channels n = delayed_tasks_channels (networks w) → view_channel w n view = (n', ch, next) →
  world_ok {| networks := n'; sending := delete id (sending w);
              delayed := <[id := {| d_call := s_call s; d_view := view; d_receiver := ch;
                                    d_wake := clock w + delay_duration n' |}]> (delayed w);
              signalled := signalled w; next_channel := next; next_call := next_call w; clock := clock w |}
           (h ++ [PrimaryAnswered id true; Returned id true]).
Proof using Type.
  intros [Hch Hok] Hs Hd Hn Hvc. destruct (view_channel_ok _ _ _ _ _ _ _ Hch Hn Hvc eq_refl) as (H1 & H2 & H3 & H4).
  split; [by split_and!|]. intros i. destruct (decide (i = id)) as [->|Hne].
  - destruct (sending_inv _ _ _ _ (Hok id) Hs) as (_ & Hst & Hv & Hlt).
    unfold call_ok, started, verdicts in *. simpl. rewrite lookup_delete_eq, lookup_insert_eq. simpl.
    rewrite !omap_app, Hst, Hv, Hd. split_and!; [done..|set_solver|right].
    apply view_channel_spec in Hvc as [Heq _]. rewrite Heq in H1 |- *.
    rewrite lookup_insert_eq. by destruct (H1 view ch (lookup_insert_eq _ _ _)).
  - eapply call_ok_frame; [apply Hok|..]; simpl; rewrite ?lookup_delete_ne, ?lookup_insert_ne by done; try done.
    intros d _ ? Hc _. right. split; [done|]. apply H4. by rewrite Hn.
Qed.

Lemma answer_ok w h id s ok sok :
  world_ok w h → sending w !! id = Some s →
  world_ok (answer w id s ok sok).1 (h ++ (answer w id s ok sok).2).
Proof using Type.
  intros Hw Hs. unfold answer. pose proof (primary_answer_channels (networks w) (s_primary_failed s) ok) as Hc.
  destruct (primary_answer (networks w) (s_primary_failed s) ok) as [n failed] eqn:Hpa. simpl in Hc.
  assert (world_ok {| networks := count_no_delay n; sending := delete id (sending w); delayed := delayed w;
          signalled := signalled w; next_channel := next_channel w; next_call := next_call w; clock := clock w |}
          (h ++ [PrimaryAnswered id ok; Secondary id (s_call s); Returned id sok])) as Hnow.
  { destruct Hw as [Hch Hok]. assert (Hcn := count_no_delay_channels n). rewrite Hc in Hcn.
    split; [by eapply channels_ok_same|].
    intros i. destruct (decide (i = id)) as [->|Hne].
    - destruct (sending_inv _ _ _ _ (Hok id) Hs) as (Hd & Hst & Hv & Hlt).
      unfold call_ok, ended, started, verdicts in *. simpl. rewrite lookup_delete_eq, Hd. right.
      exists (s_call s), (s_delay s). rewrite !omap_app, Hst, Hv. simpl. rewrite decide_True by done. auto.
    - eapply call_ok_frame'; [apply Hok|..]; simpl; rewrite ?decide_False, ?lookup_delete_ne by done; done. }
  destruct (s_delay s) as [|view] eqn:Hd; [done|]. destruct failed; [done|].
  destruct (view_channel w n view) as [[n' ch] next] eqn:Hvc. simpl.
  assert (ok = true) as -> by (unfold primary_answer in Hpa; by destruct ok; simplify_eq).
  by eapply answer_delayed_ok.
Qed.

Lemma wake_ok w h id d :
  world_ok w h → delayed w !! id = Some d → world_ok (wake w id d).1 (h ++ (wake w id d).2).
Proof using Type.
  intros [Hch Hok] Hd. unfold wake. simpl. split.
  { eapply channels_ok_same; [done|simpl|done..]. case_match; [apply count_cancelled_channels|done]. }
  intros i. destruct (decide (i = id)) as [->|Hne].
  - specialize (Hok id). unfold call_ok, ended, started, verdicts in *. simpl. rewrite Hd, lookup_delete_eq in *.
    destruct (sending w !! id); [done|]. destruct Hok as (Hst & Hv & Hlt & Ha & Hr). right.
    exists (d_call d), (DelayView (d_view d)). rewrite !omap_app, Hst, Hv.
    case_bool_decide as Hsig; simpl; rewrite decide_True by done; split_and!; [done..| |done|done|by left].
    right. split; [done|]. eexists. split; [done|]. apply superseded_app. naive_solver.
  - eapply call_ok_frame'; [apply Hok|..]; simpl; rewrite ?lookup_delete_ne by done; try done.
    1-2: case_bool_decide; simpl; by rewrite ?decide_False.
    case_match; [apply count_cancelled_channels|done].
Qed.

Lemma update_to_ok w h view : world_ok w h → world_ok (update_to w view).1 (h ++ (update_to w view).2).
Proof using Type.
  intros [(Hlt & Hinj & Hsg) Hok]. unfold update_to, cancel_views.
  destruct (cancel_loop_spec (size (delayed_tasks_channels (networks w))) view
              (delayed_tasks_channels (networks w)) ∅ (Nat.le_refl _)) as [Hm Hs].
  destruct (cancel_loop _ _ _ _) as [m sg]. simpl in *. subst m. split.
  - split_and!; simpl; try setoid_rewrite split_off_Some.
    + intros v ch [Hv Hle]. destruct (Hlt _ _ Hv). split; [done|]. rewrite elem_of_union, Hs.
      intros [?|[?|(v' & Hv' & ?)]]; [done|set_solver|]. assert (v = v') as -> by by eapply Hinj. lia.
    + intros v v' ch [? _] [? _]. by eapply Hinj.
    + intros ch. rewrite elem_of_union, Hs. intros [?%Hsg|[?|(v' & Hv' & ?)]]; [done|set_solver|by eapply Hlt].
  - intros id. eapply call_ok_frame; [apply Hok|..]; simpl; try done; [|set_solver].
    intros d Hd Hns Hc Ha. rewrite split_off_Some, elem_of_union, Hs. destruct (decide (d_view d < view)) as [Hl|Hge].
    + left. split; [by eauto|]. by exists h, [], view.
    + right. split; [|split; [done|lia]]. intros [?|[?|(v' & Hv' & ?)]]; [done|set_solver|].
      assert (d_view d = v') as Hv by by eapply Hinj. lia.
Qed.

Lemma perform_ok w h a w' o : world_ok w h → perform w a = Some (w', o) → world_ok w' (h ++ o).
Proof using Type.
  intros Hw. assert (∀ p, world_ok p.1 (h ++ p.2) → Some p = Some (w', o) → world_ok w' (h ++ o)) as Hp.
  { by intros p ? [= ->]. }
  destruct a as [[c delay]|id ok sok|id|view|messages|]; cbn [perform].
  - by apply Hp, start_ok.
  - destruct (sending w !! id) as [s|] eqn:Hs; simpl; [by apply Hp, answer_ok|done].
  - destruct (delayed w !! id) as [d|] eqn:Hd; simpl; [|done]. case_match; [by apply Hp, wake_ok|done].
  - by apply Hp, update_to_ok.
  - apply Hp. destruct Hw as [? Hok]. split; [done|]. intros id. by eapply call_ok_frame'; [apply Hok|..].
  - apply Hp. rewrite app_nil_r. destruct Hw as [? Hok]. split; [done|]. apply Hok.
Qed.

Lemma play_ok acts w h w' o : world_ok w h → play w acts = Some (w', o) → world_ok w' (h ++ o).
Proof using Type.
  revert w h o. induction acts as [|a acts IH]; intros w h o Hw; simpl.
  { intros [= <- <-]. by rewrite app_nil_r. }
  intros ([w1 o1] & Ha & H)%bind_Some. apply bind_Some in H as ([w2 o2] & Hp & [= <- <-]).
  rewrite app_assoc. eapply IH; [by eapply perform_ok|done].
Qed.

Lemma world_new_ok duration : world_ok (world_new duration) [].
Proof using Type.
  split; [split_and!; simpl; set_solver|]. intros id. unfold call_ok. simpl. rewrite !lookup_empty. left.
  split_and!; [done..|lia].
Qed.

(** C33. Whatever the order in which callers, delayed tasks and view updates run and
    however the networks answer, a call goes to the primary once, and then it waits
    for the primary or for its delay, or has been sent on the secondary exactly once,
    or was left out, and that only if it was a message of a view, the primary had
    accepted it, and the node has moved to a later view since. *)
Theorem no_message_is_lost duration acts w h id c delay :
  play (world_new duration) acts = Some (w, h) → Primary id c delay ∈ h →
  started id h = [(c, delay)] ∧
  ((∃ s, sending w !! id = Some s ∧ s_call s = c ∧ verdicts id h = []) ∨
   (∃ d, delayed w !! id = Some d ∧ d_call d = c ∧ verdicts id h = []) ∨
   verdicts id h = [Some c] ∨
   verdicts id h = [None] ∧ ∃ v, delay = DelayView v ∧ superseded h id v).
Proof using Type.
  intros Hplay Hin. destruct (play_ok _ _ [] _ _ (world_new_ok duration) Hplay) as [_ Hok].
  specialize (Hok id). simpl in Hok.
  assert ((c, delay) ∈ started id h) as Hs.
  { apply list_elem_of_omap. eexists. split; [done|]. simpl. by rewrite decide_True. }
  unfold call_ok in Hok. destruct (sending w !! id) as [s|], (delayed w !! id) as [d|]; [done| | |].
  - destruct Hok as (Hst & Hv & _). rewrite Hst in Hs |- *. apply list_elem_of_singleton in Hs as [= -> ->]. eauto 8.
  - destruct Hok as (Hst & Hv & _). rewrite Hst in Hs |- *. apply list_elem_of_singleton in Hs as [= -> ->]. eauto 8.
  - destruct Hok as [(Hst & _)|(c' & dl & Hst & _ & He)]; rewrite Hst in Hs |- *; [set_solver|].
    apply list_elem_of_singleton in Hs as [= <- <-]. split; [done|]. right. by right.
Qed.

(** ** The primary is tried again *)

(** The messages that a step sends on the secondary without delay. *)
Definition immediate (a : Action) (o : list Obs) : Z :=
  match a, o with Answer _ _ _, [_; Secondary _ _; _] => 1 | _, _ => 0 end.

(** A run in which the primary counts as down throughout, with the number of messages
    it sends on the secondary without delay. *)
Fixpoint play_down (w : World) (acts : list Action) : option (World * Z) :=
  if is_primary_down (networks w) then
    match acts with
    | [] => Some (w, 0)
    | a :: acts =>
        '(w, o) ← perform w a;
        '(w', k) ← play_down w acts;
        Some (w', immediate a o + k)
    end
  else None.

Definition counter_ok (n : CombinedNetworks) : Prop :=
  0 <= no_delay_counter n <= COMBINED_NETWORK_PRIMARY_CHECK_INTERVAL.

Lemma count_no_delay_spec n :
  counter_ok n →
  counter_ok (count_no_delay n) ∧
  (primary_down n = true → primary_down (count_no_delay n) = true →
     no_delay_counter (count_no_delay n) = no_delay_counter n + 1) ∧
  (primary_down n = true → primary_down (count_no_delay n) = false →
     primary_fail_counter (count_no_delay n) = COMBINED_NETWORK_MIN_PRIMARY_FAILURES).
Proof using Type.
  unfold counter_ok, count_no_delay, COMBINED_NETWORK_PRIMARY_CHECK_INTERVAL. intros Hc.
  destruct (primary_down n) eqn:Hd; [|by rewrite Hd].
  destruct (Z.ltb_spec (no_delay_counter n) 50); simpl; rewrite ?Hd; split_and!; try done; lia.
Qed.

Lemma primary_answer_same n b ok :
  no_delay_counter (primary_answer n b ok).1 = no_delay_counter n ∧
  primary_down (primary_answer n b ok).1 = primary_down n.
Proof using Type. unfold primary_answer. by destruct ok. Qed.

Lemma view_channel_same w n view :
  no_delay_counter (view_channel w n view).1.1 = no_delay_counter n ∧
  primary_down (view_channel w n view).1.1 = primary_down n ∧
  primary_fail_counter (view_channel w n view).1.1 = primary_fail_counter n.
Proof using Type. unfold view_channel. by case_match. Qed.

(** What an answer does to the counters. *)
Lemma answer_counters w id s ok sok :
  counter_ok (networks w) →
  let '(w', o) := answer w id s ok sok in
  counter_ok (networks w') ∧
  (primary_down (networks w) = true → primary_down (networks w') = true →
     no_delay_counter (networks w') = no_delay_counter (networks w) + immediate (Answer id ok sok) o) ∧
  (primary_down (networks w) = true → primary_down (networks w') = false →
     primary_fail_counter (networks w') = COMBINED_NETWORK_MIN_PRIMARY_FAILURES).
Proof using Type.
  intros Hc. unfold answer. destruct (primary_answer_same (networks w) (s_primary_failed s) ok) as [Hn Hd].
  destruct (primary_answer (networks w) (s_primary_failed s) ok) as [n failed]. simpl in Hn, Hd.
  assert (counter_ok n) as Hcn by (unfold counter_ok in *; by rewrite Hn).
  destruct (count_no_delay_spec n Hcn) as (H1 & H2 & H3). rewrite Hn, Hd in *.
  destruct (s_delay s) as [|view]; [done|]. destruct failed; [done|].
  destruct (view_channel_same w n view) as (Hn' & Hd' & _).
  destruct (view_channel w n view) as [[n' ch] next]. simpl in *.
  unfold counter_ok in *. rewrite Hn', Hd', Hn, Hd. split; [done|]. split; [intros; lia|congruence].
Qed.

Lemma perform_counters w a w' o :
  counter_ok (networks w) → perform w a = Some (w', o) →
  counter_ok (networks w') ∧
  (primary_down (networks w) = true → primary_down (networks w') = true →
     no_delay_counter (networks w') = no_delay_counter (networks w) + immediate a o).
Proof using Type.
  intros Hc. destruct a as [[c delay]|id ok sok|id|view|messages|]; cbn [perform].
  - unfold start, check_primary. repeat case_match; intros; simplify_eq; simpl; split; try done; lia.
  - destruct (sending w !! id) as [s|] eqn:Hs; simpl; [|done]. intros [= Ha].
    pose proof (answer_counters w id s ok sok Hc) as H. rewrite Ha in H. by destruct H as (? & ? & _).
  - destruct (delayed w !! id) as [d|] eqn:Hd; simpl; [|done]. case_match; [|done].
    intros [= <- <-]. simpl. unfold counter_ok, count_cancelled in *. repeat case_match; simpl; split; try done; lia.
  - unfold update_to. destruct (cancel_views _ _). intros [= <- <-]. simpl. split; [done|lia].
  - intros [= <- <-]. simpl. split; [done|lia].
  - intros [= <- <-]. simpl. split; [done|lia].
Qed.

Lemma play_counter_ok acts w w' o :
  counter_ok (networks w) → play w acts = Some (w', o) → counter_ok (networks w').
Proof using Type.
  revert w o. induction acts as [|a acts IH]; intros w o Hw; simpl.
  { by intros [= <- _]. }
  intros ([w1 o1] & Ha & H)%bind_Some. apply bind_Some in H as ([w2 o2] & Hp & [= <- _]).
  eapply IH; [|done]. by eapply perform_counters.
Qed.

Lemma play_down_head acts w r : play_down w acts = Some r → primary_down (networks w) = true.
Proof using Type. destruct acts; simpl; unfold is_primary_down; by case_match. Qed.

Lemma play_down_counts acts w w' k :
  counter_ok (networks w) → play_down w acts = Some (w', k) →
  counter_ok (networks w') ∧ no_delay_counter (networks w') = no_delay_counter (networks w) + k.
Proof using Type.
  revert w k. induction acts as [|a acts IH]; intros w k Hw Hp; pose proof (play_down_head _ _ _ Hp) as Hd;
    simpl in Hp; unfold is_primary_down in Hp; rewrite Hd in Hp.
  { injection Hp as <- <-. split; [done|lia]. }
  apply bind_Some in Hp as ([w1 o1] & Ha & H). apply bind_Some in H as ([w2 k2] & Hp & [= <- <-]).
  destruct (perform_counters _ _ _ _ Hw Ha) as [Hw1 Hk].
  destruct (IH _ _ Hw1 Hp) as [? Hk2]. split; [done|].
  pose proof (play_down_head _ _ _ Hp). rewrite Hk2, Hk by done. lia.
Qed.

(** The first message of a view after that is delayed. *)
Lemma delayed_again w c view sok :
  primary_down (networks w) = false → primary_fail_counter (networks w) <= COMBINED_NETWORK_MIN_PRIMARY_FAILURES →
  ∃ w1 w2 d, start w c (DelayView view) = (w1, [Primary (next_call w) c (DelayView view)]) ∧
    perform w1 (Answer (next_call w) true sok) =
      Some (w2, [PrimaryAnswered (next_call w) true; Returned (next_call w) true]) ∧
    delayed w2 !! next_call w = Some d ∧ d_call d = c ∧ d_view d = view.
Proof using Type.
  intros Hd Hf. assert (check_primary (networks w) = (networks w, false)) as Hcheck.
  { unfold check_primary. rewrite Hd. by destruct (Z.ltb_spec COMBINED_NETWORK_MIN_PRIMARY_FAILURES (primary_fail_counter (networks w))); [lia|]. }
  destruct (start w c (DelayView view)) as [w1 o] eqn:Hs.
  destruct (view_channel w1 (networks w) view) as [[n ch] next] eqn:Hvc.
  unfold start in Hs. rewrite Hcheck in Hs. injection Hs as <- <-.
  eexists _, _, _. split; [done|]. cbn [perform sending]. rewrite lookup_insert_eq. cbn [fmap option_fmap option_map].
  unfold answer. simpl. rewrite Hvc. split; [done|]. simpl. by rewrite lookup_insert_eq.
Qed.

(** A primary that counts as down is tried again: at most fifty messages in a row go
    to the secondary at once while it stays down, and when a send clears the mark,
    the next message of a view is delayed again, as long as the primary takes it. *)
Theorem primary_is_probed duration acts w h :
  play (world_new duration) acts = Some (w, h) →
  (∀ acts' w' k, play_down w acts' = Some (w', k) → k <= COMBINED_NETWORK_PRIMARY_CHECK_INTERVAL) ∧
  (∀ id ok sok w' o, perform w (Answer id ok sok) = Some (w', o) →
     is_primary_down (networks w) = true → is_primary_down (networks w') = false →
     ∀ c view sok', ∃ w1 w2 d,
       start w' c (DelayView view) = (w1, [Primary (next_call w') c (DelayView view)]) ∧
       perform w1 (Answer (next_call w') true sok') =
         Some (w2, [PrimaryAnswered (next_call w') true; Returned (next_call w') true]) ∧
       delayed w2 !! next_call w' = Some d ∧ d_call d = c ∧ d_view d = view).
Proof using Type.
  intros Hplay. assert (counter_ok (networks w)) as Hc.
  { eapply play_counter_ok; [|done]. unfold counter_ok, COMBINED_NETWORK_PRIMARY_CHECK_INTERVAL. simpl. lia. }
  split.
  - intros acts' w' k Hp. destruct (play_down_counts _ _ _ _ Hc Hp) as [[_ ?] ?]. destruct Hc. lia.
  - intros id ok sok w' o Ha Hd Hd' c view sok'. cbn [perform] in Ha.
    destruct (sending w !! id) as [s|]; simpl in Ha; [|done]. injection Ha as Ha.
    pose proof (answer_counters w id s ok sok Hc) as H. rewrite Ha in H. destruct H as (_ & _ & Hf).
    apply delayed_again; [done|]. rewrite Hf by done. done.
Qed.

(** ** Duplicates *)

(** Calling [recv_message] until the arrivals are used up. *)
Fixpoint recv_all (fuel : nat) (cache : Cache) (arrivals : list Arrival) : list (option bytes) :=
  match fuel with
  | O => []
  | S fuel =>
      match recv_message cache arrivals with
      | None => []
      | Some (r, cache, arrivals) => r :: recv_all fuel cache arrivals
      end
  end.

(** What came after the last [x]; histories have the latest element first. *)
Fixpoint since (x : Hash) (past : list Hash) : option (list Hash) :=
  match past with
  | [] => None
  | y :: past => if decide (y = x) then Some [] else (y ::.) <$> since x past
  end.

(** [x] came before, and fewer than [cap] different hashes have come since. *)
Definition seen_recently (cap : nat) (past : list Hash) (x : Hash) : bool :=
  match since x past with
  | Some l => bool_decide (length (remove_dups l) < cap)%nat
  | None => false
  end.

(** What the receiver should get. *)
Fixpoint expected (cap : nat) (past : list Hash) (arrivals : list Arrival) : list (option bytes) :=
  match arrivals with
  | [] => []
  | RecvFailed :: arrivals => None :: expected cap past arrivals
  | Arrived m :: arrivals =>
      let rest := expected cap (blake3_hash m :: past) arrivals in
      if seen_recently cap past (blake3_hash m) then rest else Some m :: rest
  end.

(** The distinct hashes of a history, the latest first. *)
Fixpoint recent (past : list Hash) : list Hash :=
  match past with
  | [] => []
  | x :: past => x :: base.filter (.≠ x) (recent past)
  end.

Lemma elem_of_recent past x : x ∈ recent past ↔ x ∈ past.
Proof using Type.
  induction past as [|y past IH]; simpl; [done|].
  rewrite !elem_of_cons, list_elem_of_filter, IH. destruct (decide (x = y)); naive_solver.
Qed.

Lemma NoDup_recent past : NoDup (recent past).
Proof using Type.
  induction past as [|y past IH]; simpl; constructor.
  - rewrite list_elem_of_filter. naive_solver.
  - by apply NoDup_filter.
Qed.

Lemma length_recent past : length (recent past) = length (remove_dups past).
Proof using Type.
  apply Permutation_length, NoDup_Permutation; [apply NoDup_recent|apply NoDup_remove_dups|].
  intros x. by rewrite elem_of_recent, elem_of_remove_dups.
Qed.

Lemma recent_since x past l :
  since x past = Some l → ∃ rest, recent past = recent l ++ x :: rest ∧ x ∉ l.
Proof using Type.
  revert l. induction past as [|y past IH]; intros l; simpl; [done|].
  case_decide as Hy; [subst; intros [= <-]; simpl; eexists; split; [done|set_solver]|].
  intros (l' & Hl & ->)%fmap_Some. destruct (IH l' Hl) as (rest & -> & Hx). simpl.
  rewrite filter_app, filter_cons_True by done. eexists. split; [done|set_solver].
Qed.

Lemma since_None x past : since x past = None ↔ x ∉ past.
Proof using Type.
  induction past as [|y past IH]; simpl; [set_solver|]. rewrite not_elem_of_cons.
  case_decide; [naive_solver|]. rewrite fmap_None, IH. naive_solver.
Qed.

(** The first [cap] of the distinct hashes are the recent ones. *)
Lemma seen_recently_spec cap past x :
  seen_recently cap past x = bool_decide (x ∈ take cap (recent past)).
Proof using Type.
  unfold seen_recently. destruct (since x past) as [l|] eqn:Hs.
  - destruct (recent_since _ _ _ Hs) as (rest & -> & Hx). rewrite <- length_recent. apply bool_decide_ext.
    rewrite <- elem_of_recent in Hx. rewrite take_app, elem_of_app. split; intros Hc.
    + right. destruct (cap - length (recent l))%nat eqn:?; [lia|]. simpl. set_solver.
    + destruct Hc as [Hc|Hc]; [by apply elem_of_take in Hc as (i & ?%list_elem_of_lookup_2 & _)|].
      destruct (cap - length (recent l))%nat eqn:?; simpl in Hc; [set_solver|lia].
  - symmetry. apply bool_decide_eq_false. rewrite since_None, <- elem_of_recent in Hs.
    intros (i & ?%list_elem_of_lookup_2 & _)%elem_of_take. done.
Qed.

Lemma filter_absent (x : Hash) (l : list Hash) : x ∉ l → base.filter (.≠ x) l = l.
Proof using Type.
  induction l as [|y l IH]; [done|]. rewrite not_elem_of_cons. intros [? ?].
  by rewrite filter_cons_True, IH.
Qed.

(** Dropping one hash from the part of a list that is kept loses none that stays. *)
Lemma take_filter_take n (x : Hash) l :
  NoDup l → take n (base.filter (.≠ x) (take (S n) l)) = take n (base.filter (.≠ x) l).
Proof using Type.
  revert n. induction l as [|y l IH]; intros n Hnd; [done|]. apply NoDup_cons in Hnd as [Hy Hnd].
  cbn [take]. destruct (decide (y = x)) as [->|Hne].
  - rewrite !filter_cons_False by naive_solver.
    rewrite !filter_absent; [by rewrite take_take, Nat.min_id|done|].
    by intros (i & ?%list_elem_of_lookup_2 & _)%elem_of_take.
  - rewrite !filter_cons_True by done. destruct n as [|n]; [done|]. cbn [take]. f_equal. by apply IH.
Qed.

Section Dedup.
Context `{Ll : !LruLaws Cache Hash}.

(** The cache holds the latest distinct hashes. *)
Definition cache_of (cap : nat) (cache : Cache) (past : list Hash) : Prop :=
  lru_cap cache = cap ∧ lru_keys cache = take cap (recent past).

Lemma cache_of_put cap cache past x :
  cache_of cap cache past →
  cache_of cap (lru_put cache x).1 (x :: past) ∧ (lru_put cache x).2 = seen_recently cap past x.
Proof using Ll.
  intros [Hcap Hkeys]. split; [split|].
  - by rewrite lru_put_cap.
  - rewrite lru_put_keys, Hcap, Hkeys. destruct cap as [|cap]; [done|]. cbn [recent take]. f_equal.
    apply take_filter_take, NoDup_recent.
  - by rewrite lru_put_found, Hkeys, seen_recently_spec.
Qed.

Lemma recv_message_expected cap cache past arrivals :
  cache_of cap cache past →
  match recv_message cache arrivals with
  | None => expected cap past arrivals = []
  | Some (r, cache', rest) => ∃ past', cache_of cap cache' past' ∧ (length rest < length arrivals)%nat ∧
      expected cap past arrivals = r :: expected cap past' rest
  end.
Proof using Ll.
  revert cache past. induction arrivals as [|[m|] arrivals IH]; intros cache past Hc; simpl; [done| |by eauto with lia].
  destruct (cache_of_put _ _ _ (blake3_hash m) Hc) as [Hc' Hf].
  destruct (lru_put cache (blake3_hash m)) as [cache' found]. simpl in *. subst found.
  destruct (seen_recently cap past (blake3_hash m)).
  - specialize (IH _ _ Hc'). destruct (recv_message cache' arrivals) as [[[r c] rest]|]; [|done].
    destruct IH as (past' & ? & ? & ?). exists past'. split_and!; [done|lia|done].
  - exists (blake3_hash m :: past). split_and!; [done|lia|done].
Qed.

(** The receiver gets every message that comes in over either network, in order,
    less exactly the copies: a message is dropped if and only if one with its hash has
    come before and fewer than 200000 different ones have come since. *)
Theorem duplicates_are_dropped duration arrivals :
  recv_all (length arrivals) (message_cache (CombinedNetworks_new duration)) arrivals
  = expected COMBINED_NETWORK_CACHE_SIZE [] arrivals.
Proof using Ll.
  assert (cache_of COMBINED_NETWORK_CACHE_SIZE (message_cache (CombinedNetworks_new duration)) []) as Hc.
  { split; [apply lru_new_cap|]. etrans; [apply lru_new_keys|]. symmetry. apply take_nil. }
  revert Hc. generalize (message_cache (CombinedNetworks_new duration)), ([] : list Hash).
  generalize (Nat.le_refl (length arrivals)). generalize (length arrivals) at 2 3 as fuel.
  generalize COMBINED_NETWORK_CACHE_SIZE as cap. intros cap fuel. revert arrivals.
  induction fuel as [|fuel IH]; intros arrivals Hlen cache past Hc; simpl.
  { by destruct arrivals; [|simpl in Hlen; lia]. }
  pose proof (recv_message_expected _ _ _ arrivals Hc) as H.
  destruct (recv_message cache arrivals) as [[[r c] rest]|]; [|done].
  destruct H as (past' & Hc' & ? & ->). f_equal. apply IH; [lia|done].
Qed.
End Dedup.
End Combined.

(** ** Runs of the model *)

Module ListLru.
(** A cache as a list of its keys, the latest first, with its capacity. *)
Record lru K := { l_cap : nat; l_keys : list K }.
Arguments l_cap {K}.
Arguments l_keys {K}.
#[global] Instance list_lru K `{EqDecision K} : Lru (lru K) K := {|
  lru_new n := {| l_cap := n; l_keys := [] |};
  lru_put c k := ({| l_cap := l_cap c; l_keys := take (l_cap c) (k :: base.filter (.≠ k) (l_keys c)) |},
                  bool_decide (k ∈ l_keys c));
  lru_cap := l_cap;
  lru_keys := l_keys;
|}.
#[global] Instance list_lru_laws K `{EqDecision K} : LruLaws (lru K) K.
Proof. by split. Qed.
End ListLru.

Module CnWitnesses.
#[local] Existing Instance Ideal.open_signatures.
Abbreviation cache := (ListLru.lru bytes).

Definition at_view (view : Z) (b : bytes) : Action := Start (broadcast_message b Global (DelayView view)).
Definition to_node (b : bytes) (k : Z) : Action := Start (direct_message b (k : PubKey)).

(** A message of view three is delayed and the node moves to view four in time; a direct
    message is not taken by the primary. *)
Definition a_view_passes : list Action :=
  [at_view 3 [1]; to_node [2] 8; Answer 1 false true; Answer 0 true true; UpdateTo 4; Tick; Tick; Wake 0].
Definition its_history : list Obs :=
  [Primary 0 (CBroadcast [1] Global) (DelayView 3); Primary 1 (CDirect [2] (8 : PubKey)) DelayNone;
   PrimaryAnswered 1 false; Secondary 1 (CDirect [2] (8 : PubKey)); Returned 1 true;
   PrimaryAnswered 0 true; Returned 0 true; ViewUpdated 4; NotSent 0].

Lemma no_message_is_lost_witness :
  ∃ w, play (world_new (Cache := cache) (Some 2)) a_view_passes = Some (w, its_history) ∧
    verdicts 0 its_history = [None] ∧ ∃ v, DelayView 3 = DelayView v ∧ superseded its_history 0 v.
Proof.
  destruct (shows (play (world_new (Cache := cache) (Some 2)) a_view_passes) its_history) as [w Hrun];
    [vm_compute; reflexivity|].
  exists w. split; [exact Hrun|].
  destruct (no_message_is_lost (Some 2) _ w _ 0 (CBroadcast [1] Global) (DelayView 3) Hrun)
    as [_ [(s & _ & _ & Hv)|[(d & _ & _ & Hv)|[Hv|H]]]]; [left|discriminate Hv..|exact H].
Defined.

(** Messages that the primary does not take. *)
Definition failing (from n : nat) : list Action :=
  mjoin (map (fun i => [to_node [2] 8; Answer i false true]) (seq from n)).

(** Six failures; the seventh message finds the primary down. *)
Definition going_down : list Action := failing 0 6 ++ [to_node [2] 8].
Definition down : World (Cache := cache) :=
  default (world_new None) (fst <$> play (world_new (Cache := cache) None) going_down).
(** Fifty messages are sent at once, the next one ends the mark. *)
Definition fifty : list Action := Answer 6 true true :: failing 7 49 ++ [to_node [2] 8].
Definition after_fifty : World (Cache := cache) :=
  default (world_new None) (fst <$> play (world_new (Cache := cache) None) (going_down ++ fifty)).

Lemma play_default (w : World (Cache := cache)) acts :
  bool_decide (is_Some (play w acts)) = true → ∃ h, play w acts = Some (default (world_new None) (fst <$> play w acts), h).
Proof. intros [[w' h] Hp]%bool_decide_eq_true. exists h. by rewrite Hp. Qed.

Lemma primary_is_probed_witness :
  (snd <$> play_down down fifty) = Some 50 ∧ 50 <= COMBINED_NETWORK_PRIMARY_CHECK_INTERVAL ∧
  ∃ w' w1 w2 d, perform after_fifty (Answer 56 true true) = Some (w', [PrimaryAnswered 56 true; Secondary 56 (CDirect [2] (8 : PubKey)); Returned 56 true]) ∧
    start w' (CBroadcast [1] Global) (DelayView 3) = (w1, [Primary (next_call w') (CBroadcast [1] Global) (DelayView 3)]) ∧
    perform w1 (Answer (next_call w') true true) = Some (w2, [PrimaryAnswered (next_call w') true; Returned (next_call w') true]) ∧
    delayed w2 !! next_call w' = Some d.
Proof.
  assert (snd <$> play_down down fifty = Some 50) as Hk by (vm_compute; reflexivity).
  destruct (play_default (world_new None) going_down) as [h Hdown]; [vm_compute; reflexivity|]. fold down in Hdown.
  destruct (play_default (world_new None) (going_down ++ fifty)) as [h' Hfifty]; [vm_compute; reflexivity|].
  fold after_fifty in Hfifty. split; [exact Hk|]. split.
  - destruct (primary_is_probed None going_down down h Hdown) as [H _].
    destruct (shows _ _ Hk) as [w' Hw']. exact (H fifty w' 50 Hw').
  - destruct (primary_is_probed None _ after_fifty h' Hfifty) as [_ H].
    assert ((fun r => (r.2, is_primary_down (networks r.1))) <$> perform after_fifty (Answer 56 true true) =
            Some ([PrimaryAnswered 56 true; Secondary 56 (CDirect [2] (8 : PubKey)); Returned 56 true], false)) as Hobs
      by (vm_compute; reflexivity).
    apply fmap_Some in Hobs as ([w' o] & Hp & Heq). injection Heq as -> Hup.
    destruct (H 56%nat true true w' _ Hp) with (c := CBroadcast [1] Global) (view := 3) (sok' := true)
      as (w1 & w2 & d & H1 & H2 & H3 & _); [vm_compute; reflexivity|exact (eq_sym Hup)|].
    exists w', w1, w2, d. split; [exact Hp|]. split; [exact H1|]. split; [exact H2|exact H3].
Defined.

(** The same message from both networks, another one, an error. *)
Lemma duplicates_are_dropped_witness :
  recv_all (fun b : bytes => b) 5 (message_cache (CombinedNetworks_new (Cache := cache) None))
    [Arrived [1]; Arrived [2]; Arrived [1]; RecvFailed; Arrived [3]] = [Some [1]; Some [2]; None; Some [3]].
Proof.
  etransitivity; [apply (duplicates_are_dropped (fun b : bytes => b) None
    [Arrived [1]; Arrived [2]; Arrived [1]; RecvFailed; Arrived [3]])|]. vm_compute. reflexivity.
Defined.
End CnWitnesses.
