(* ===== verification/MemoryNetwork.v ===== *)
(** * The network in memory

    [hotshot/src/traits/networking/memory_network.rs]: nodes in one process that send to
    each other over channels, through a map of all nodes, and the ways in which a test can
    make them unreliable ([NetworkReliability] of [types/src/traits/network.rs]).

    A message goes into the input channel of a node, a background task moves it to the
    output channel, and the node receives it from there.  Both channels have 128 places; a
    sender waits for a place.  A call, or the task that [chaos_send_msg] is spawned in, is a
    list of deliveries that are made one after the other; [perform] is one step of a call,
    of a background task or of a receiver.  Random numbers and the time since the start
    are arguments. *)

From S2P Require Import Prelude Crypto CombinedNetwork.

(** ** Reliability *)

Record SynchronousNetwork := { sync_delay_high_ms : Z; sync_delay_low_ms : Z }.
Record AsynchronousNetwork := { async_keep_numerator : Z; async_keep_denominator : Z; async_delay_low_ms : Z; async_delay_high_ms : Z }.
Record PartiallySynchronousNetwork := { asynchronous : AsynchronousNetwork; synchronous : SynchronousNetwork; gst : Z }.
Record ChaosNetwork := {
  keep_numerator : Z;
  keep_denominator : Z;
  delay_low_ms : Z;
  delay_high_ms : Z;
  repeat_low : Z;
  repeat_high : Z;
}.

Inductive NetworkReliability :=
  | Perfect
  | Synchronous (n : SynchronousNetwork)
  | Asynchronous (n : AsynchronousNetwork)
  | PartiallySynchronous (n : PartiallySynchronousNetwork)
  | Chaos (n : ChaosNetwork).

(** The defaults never drop or delay a message. *)
Definition SynchronousNetwork_default : SynchronousNetwork := {| sync_delay_high_ms := 0; sync_delay_low_ms := 0 |}.
Definition AsynchronousNetwork_default : AsynchronousNetwork :=
  {| async_keep_numerator := 1; async_keep_denominator := 1; async_delay_low_ms := 0; async_delay_high_ms := 0 |}.
Definition PartiallySynchronousNetwork_default : PartiallySynchronousNetwork :=
  {| synchronous := SynchronousNetwork_default; asynchronous := AsynchronousNetwork_default; gst := 0 |}.

(** The random numbers drawn for one message, and the time since the start. *)
Record Draws := { d_keep : Z; d_delay : Z; d_repeat : Z; d_elapsed : Z }.

(** [Uniform::new_inclusive(low, high)], which panics on an empty range. *)
Definition uniform_inclusive {E} (low high r : Z) : outcome E Z :=
  if high <? low then Panic else Ok (low + r mod (high - low + 1)).

(** [Bernoulli::from_ratio(numerator, denominator).unwrap()] *)
Definition bernoulli {E} (numerator denominator r : Z) : outcome E bool :=
  if denominator <? numerator then Panic
  else Ok ((numerator =? denominator) || (r mod denominator <? numerator)).

Definition sync_delay {E} (n : SynchronousNetwork) (d : Draws) : outcome E Z :=
  uniform_inclusive (sync_delay_low_ms n) (sync_delay_high_ms n) (d_delay d).
Definition async_keep {E} (n : AsynchronousNetwork) (d : Draws) : outcome E bool :=
  bernoulli (async_keep_numerator n) (async_keep_denominator n) (d_keep d).
Definition async_delay {E} (n : AsynchronousNetwork) (d : Draws) : outcome E Z :=
  uniform_inclusive (async_delay_low_ms n) (async_delay_high_ms n) (d_delay d).

Definition sample_keep {E} (rel : NetworkReliability) (d : Draws) : outcome E bool :=
  match rel with
  | Perfect | Synchronous _ | PartiallySynchronous _ => Ok true
  | Asynchronous n => async_keep n d
  | Chaos n => bernoulli (keep_numerator n) (keep_denominator n) (d_keep d)
  end.

Definition sample_delay {E} (rel : NetworkReliability) (d : Draws) : outcome E Z :=
  match rel with
  | Perfect => Ok 0
  | Synchronous n => sync_delay n d
  | Asynchronous n => async_delay n d
  | PartiallySynchronous n =>
      if d_elapsed d <? gst n then
        keep ← async_keep (asynchronous n) d;
        if keep : bool then async_delay (asynchronous n) d
        else delay ← sync_delay (synchronous n) d; Ok (delay + gst n)
      else sync_delay (synchronous n) d
  | Chaos n => uniform_inclusive (delay_low_ms n) (delay_high_ms n) (d_delay d)
  end.

Definition sample_repeat {E} (rel : NetworkReliability) (d : Draws) : outcome E Z :=
  match rel with Chaos n => uniform_inclusive (repeat_low n) (repeat_high n) (d_repeat d) | _ => Ok 1 end.

(** The delay and the copies that are sent after it; none if the message is dropped.  No
    network scrambles messages. *)
Definition chaos_send_msg {E} (rel : NetworkReliability) (d : Draws) (msg : bytes) : outcome E (Z * list bytes) :=
  keep ← sample_keep rel d;
  delay ← sample_delay rel d;
  repeats ← sample_repeat rel d;
  Ok (delay, if keep : bool then replicate (Z.to_nat repeats) msg else []).

(** ** Nodes *)

Definition capacity : nat := 128.

Record Node := {
  (** [input] is [Some] until the node is shut down. *)
  input_open : bool;
  in_queue : list bytes;
  out_queue : list bytes;
  in_flight_message_count : Z;
  reliability_config : option NetworkReliability;
}.

Section Network.
Context `{Sg : SignatureScheme}.

(** The deliveries a call has yet to make; [counted]: the first one is counted as in
    flight, and waits for a place in the channel. *)
Record Pending := { deliveries : list (nat * bytes); counted : bool }.

(** [MasterMap], with the nodes by number, and the calls that are being made. *)
Record World := {
  nodes : list Node;
  node_map : gmap PubKey nat;
  subscribed_map : Topic → list (PubKey * nat);
  calls : list Pending;
}.

Definition world_empty : World := {| nodes := []; node_map := ∅; subscribed_map _ := []; calls := [] |}.

Definition topic_eqb (a b : Topic) : bool := match a, b with Global, Global | Da, Da => true | _, _ => false end.

Definition subscribe (m : Topic → list (PubKey * nat)) (k : PubKey) (n : nat) (topic : Topic) : Topic → list (PubKey * nat) :=
  fun t => if topic_eqb t topic then m t ++ [(k, n)] else m t.

(** [MemoryNetwork::new] *)
Definition network_new (w : World) (pub_key : PubKey) (subscribed_topics : list Topic) (rel : option NetworkReliability) : World :=
  let n := length (nodes w) in
  {| nodes := nodes w ++ [{| input_open := true; in_queue := []; out_queue := []; in_flight_message_count := 0;
                             reliability_config := rel |}];
     node_map := <[pub_key := n]> (node_map w);
     subscribed_map := foldl (fun m t => subscribe m pub_key n t) (subscribed_map w) subscribed_topics;
     calls := calls w |}.

(** [generator]: the first nodes are in the DA committee. *)
Definition generated_topics (node_id da_committee_size : Z) : list Topic :=
  if node_id <? da_committee_size then [Da; Global] else [Global].

(** What a call hands over for a list of receivers: one call that delivers to one after the
    other, or, with a reliability configuration, a task for each receiver.  A panic in
    [chaos_send_msg] ends the call. *)
Fixpoint chaos_calls (rel : NetworkReliability) (msg : bytes) (receivers : list nat) (draws : list Draws) : list Pending :=
  match receivers, draws with
  | n :: receivers, d :: draws =>
      match chaos_send_msg (E := Error) rel d msg with
      | Ok (_, msgs) => {| deliveries := map (pair n) msgs; counted := false |} :: chaos_calls rel msg receivers draws
      | _ => []
      end
  | _, _ => []
  end.

Definition hand_over (rel : option NetworkReliability) (msg : bytes) (receivers : list nat) (draws : list Draws) : list Pending :=
  match rel with
  | Some rel => chaos_calls rel msg receivers draws
  | None => [{| deliveries := map (fun n => (n, msg)) receivers; counted := false |}]
  end.

Definition set_nodes (w : World) (ns : list Node) : World :=
  {| nodes := ns; node_map := node_map w; subscribed_map := subscribed_map w; calls := calls w |}.
Definition set_calls (w : World) (cs : list Pending) : World :=
  {| nodes := nodes w; node_map := node_map w; subscribed_map := subscribed_map w; calls := cs |}.

Definition mem_broadcast_message (w : World) (node : Node) (msg : bytes) (topic : Topic) (draws : list Draws) : list Pending :=
  hand_over (reliability_config node) msg (map snd (subscribed_map w topic)) draws.

Definition mem_da_broadcast_message (w : World) (node : Node) (msg : bytes) (recipients : list PubKey) (draws : list Draws) : list Pending :=
  hand_over (reliability_config node) msg
    (map snd (base.filter (fun e => e.1 ∈ recipients) (subscribed_map w Da))) draws.

(** [None]: the error for a node that does not exist. *)
Definition mem_direct_message (w : World) (node : Node) (msg : bytes) (recipient : PubKey) (d : Draws) : option (list Pending) :=
  n ← node_map w !! recipient; Some (hand_over (reliability_config node) msg [n] [d]).

(** [vid_broadcast_message]: the direct messages are sent side by side. *)
Definition mem_vid_broadcast_message (w : World) (node : Node) (messages : list (PubKey * bytes)) (draws : list Draws) : list Pending :=
  mjoin (zip_with (fun e d => default [] (mem_direct_message w node e.2 e.1 d)) messages draws).

(** ** Steps *)

Inductive Action :=
  | ANew (k : PubKey) (topics : list Topic) (rel : option NetworkReliability)
  | ABroadcast (from : nat) (msg : bytes) (topic : Topic) (draws : list Draws)
  | ADaBroadcast (from : nat) (msg : bytes) (recipients : list PubKey) (draws : list Draws)
  | ADirect (from : nat) (msg : bytes) (recipient : PubKey) (d : Draws)
  | AVid (from : nat) (messages : list (PubKey * bytes)) (draws : list Draws)
  | ACount (call : nat)
  | ASend (call : nat)
  | AForward (node : nat)
  | ARecv (node : nat)
  | AShutDown (node : nat).

(** What can be seen of a step. *)
Inductive Obs :=
  | Asked (l : list (nat * bytes))
  | Accepted (n : nat) (m : bytes)
  | Rejected (n : nat) (m : bytes)
  | Received (n : nat) (m : bytes).

Definition asked_of (ps : list Pending) : list (nat * bytes) := ps ≫= deliveries.

Definition start_call (w : World) (ps : list Pending) : World * Obs := (set_calls w (calls w ++ ps), Asked (asked_of ps)).

Definition count_node (d : Z) (nd : Node) : Node :=
  {| input_open := input_open nd; in_queue := in_queue nd; out_queue := out_queue nd;
     in_flight_message_count := in_flight_message_count nd + d; reliability_config := reliability_config nd |}.
Definition set_queues (nd : Node) (i o : list bytes) : Node :=
  {| input_open := input_open nd; in_queue := i; out_queue := o;
     in_flight_message_count := in_flight_message_count nd; reliability_config := reliability_config nd |}.
Definition close_input (nd : Node) : Node :=
  {| input_open := false; in_queue := in_queue nd; out_queue := out_queue nd;
     in_flight_message_count := in_flight_message_count nd; reliability_config := reliability_config nd |}.

(** [None]: the step can not be made now. *)
Definition perform (w : World) (a : Action) : option (World * Obs) :=
  match a with
  | ANew k topics rel => Some (network_new w k topics rel, Asked [])
  | ABroadcast from msg topic draws =>
      node ← nodes w !! from; Some (start_call w (mem_broadcast_message w node msg topic draws))
  | ADaBroadcast from msg recipients draws =>
      node ← nodes w !! from; Some (start_call w (mem_da_broadcast_message w node msg recipients draws))
  | ADirect from msg recipient d =>
      node ← nodes w !! from; Some (start_call w (default [] (mem_direct_message w node msg recipient d)))
  | AVid from messages draws =>
      node ← nodes w !! from; Some (start_call w (mem_vid_broadcast_message w node messages draws))
  | ACount call =>
      p ← calls w !! call;
      match deliveries p, counted p with
      | (n, _) :: _, false =>
          node ← nodes w !! n;
          Some (set_calls (set_nodes w (<[n := count_node 1 node]> (nodes w)))
                  (<[call := {| deliveries := deliveries p; counted := true |}]> (calls w)), Asked [])
      | _, _ => None
      end
  | ASend call =>
      p ← calls w !! call;
      match deliveries p, counted p with
      | (n, m) :: rest, true =>
          node ← nodes w !! n;
          let cs := <[call := {| deliveries := rest; counted := false |}]> (calls w) in
          if input_open node then
            if (length (in_queue node) <? capacity)%nat then
              Some (set_calls (set_nodes w (<[n := set_queues node (in_queue node ++ [m]) (out_queue node)]> (nodes w))) cs, Accepted n m)
            else None
          else Some (set_calls w cs, Rejected n m)
      | _, _ => None
      end
  | AForward n =>
      node ← nodes w !! n;
      match in_queue node with
      | m :: i =>
          if (length (out_queue node) <? capacity)%nat then
            Some (set_nodes w (<[n := set_queues node i (out_queue node ++ [m])]> (nodes w)), Asked [])
          else None
      | [] => None
      end
  | ARecv n =>
      node ← nodes w !! n;
      match out_queue node with
      | m :: o => Some (set_nodes w (<[n := count_node (-1) (set_queues node (in_queue node) o)]> (nodes w)), Received n m)
      | [] => None
      end
  | AShutDown n =>
      node ← nodes w !! n; Some (set_nodes w (<[n := close_input node]> (nodes w)), Asked [])
  end.

(** [recv_message] gives the error [ShutDown] once the channel is closed and empty. *)
Definition recv_ends (node : Node) : bool :=
  negb (input_open node) && bool_decide (in_queue node = []) && bool_decide (out_queue node = []).

Inductive run : list Obs → World → Prop :=
  | run_empty : run [] world_empty
  | run_next tr w a w' o : run tr w → perform w a = Some (w', o) → run (tr ++ [o]) w'.
End Network.

(** ** What a run guarantees *)

Section Runs.
Context `{Sg : SignatureScheme}.
Implicit Types (w : World) (tr : list Obs) (p : Pending).

Definition at_node (n : nat) (l : list (nat * bytes)) : list bytes := (base.filter (fun e => e.1 = n) l).*2.

(** The messages that were to be sent to a node, those its channel has taken and those it
    has refused, and those the node has received. *)
Definition asked (n : nat) tr : list bytes := tr ≫= fun o => match o with Asked l => at_node n l | _ => [] end.
Definition accepted (n : nat) tr : list bytes := tr ≫= fun o => match o with Accepted k m => at_node n [(k, m)] | _ => [] end.
Definition rejected (n : nat) tr : list bytes := tr ≫= fun o => match o with Rejected k m => at_node n [(k, m)] | _ => [] end.
Definition received (n : nat) tr : list bytes := tr ≫= fun o => match o with Received k m => at_node n [(k, m)] | _ => [] end.

(** The messages that calls have yet to hand over, and those of them that wait. *)
Definition pending (n : nat) (cs : list Pending) : list bytes := cs ≫= fun p => at_node n (deliveries p).
Definition waits (n : nat) p : Prop := counted p = true ∧ fst <$> head (deliveries p) = Some n.
#[local] Instance waits_dec (n : nat) p : Decision (waits n p).
Proof. unfold waits. apply _. Defined.
Definition waiting (n : nat) (cs : list Pending) : Z := Z.of_nat (length (base.filter (waits n) cs)).

Lemma at_node_single n k m : at_node n [(k, m)] = if decide (k = n) then [m] else [].
Proof. unfold at_node. simpl. by destruct (decide (k = n)) as [->|]; [rewrite filter_cons_True|rewrite filter_cons_False]. Qed.

Lemma at_node_cons n k m l : at_node n ((k, m) :: l) = at_node n [(k, m)] ++ at_node n l.
Proof. unfold at_node. rewrite <-fmap_app, <-filter_app. done. Qed.

Lemma pending_update (cs : list Pending) i p q :
  cs !! i = Some p → ∃ rest, cs ≡ₚ p :: rest ∧ <[i := q]> cs ≡ₚ q :: rest.
Proof.
  intros Hp. exists (take i cs ++ drop (S i) cs). pose proof (lookup_lt_Some _ _ _ Hp) as Hi. split.
  - rewrite <-(take_drop_middle cs i p Hp) at 1. by rewrite Permutation_middle.
  - rewrite insert_take_drop by done. by rewrite Permutation_middle.
Qed.

#[local] Instance pending_proper (n : nat) : Proper ((≡ₚ) ==> (≡ₚ)) (pending n).
Proof. intros cs cs' Hcs. unfold pending. by rewrite Hcs. Qed.
#[local] Instance waiting_proper (n : nat) : Proper ((≡ₚ) ==> (=)) (waiting n).
Proof. intros cs cs' Hcs. unfold waiting. by rewrite Hcs. Qed.

Lemma waiting_cons n p cs : waiting n (p :: cs) = (if decide (waits n p) then 1 else 0) + waiting n cs.
Proof.
  unfold waiting. destruct (decide (waits n p)); [rewrite filter_cons_True by done|rewrite filter_cons_False by done]; simpl; lia.
Qed.

Record node_ok (n : nat) tr w (nd : Node) : Prop := {
  (** First in, first out, nothing lost and nothing invented. *)
  nk_fifo : accepted n tr = received n tr ++ out_queue nd ++ in_queue nd;
  nk_count : in_flight_message_count nd =
    Z.of_nat (length (out_queue nd ++ in_queue nd)) + waiting n (calls w) + Z.of_nat (length (rejected n tr));
  nk_open : input_open nd = true → rejected n tr = [];
  nk_room : (length (in_queue nd) <= capacity)%nat ∧ (length (out_queue nd) <= capacity)%nat;
}.

Record run_inv tr w : Prop := {
  ri_nodes n nd : nodes w !! n = Some nd → node_ok n tr w nd;
  ri_fresh n : (length (nodes w) <= n)%nat → accepted n tr = [] ∧ rejected n tr = [] ∧ received n tr = [] ∧ waiting n (calls w) = 0;
  ri_once n : asked n tr ≡ₚ accepted n tr ++ rejected n tr ++ pending n (calls w);
}.

(** *** New calls *)

Lemma at_node_bind n (ps : list Pending) : at_node n (asked_of ps) = pending n ps.
Proof.
  unfold pending, asked_of. induction ps as [|p ps IH]; [done|]. rewrite !bind_cons, <-IH. unfold at_node. by rewrite filter_app, fmap_app.
Qed.

Lemma chaos_calls_uncounted rel msg rs ds : Forall (fun p => counted p = false) (chaos_calls rel msg rs ds).
Proof.
  revert ds. induction rs as [|n rs IH]; intros [|d ds]; simpl; try done.
  destruct (chaos_send_msg rel d msg) as [[delay msgs]| |]; [constructor; auto|done|done].
Qed.

Lemma hand_over_uncounted rel msg rs ds : Forall (fun p => counted p = false) (hand_over rel msg rs ds).
Proof. destruct rel; [apply chaos_calls_uncounted|by constructor]. Qed.

Lemma vid_uncounted w nd ms ds : Forall (fun p => counted p = false) (mem_vid_broadcast_message w nd ms ds).
Proof.
  unfold mem_vid_broadcast_message. revert ds. induction ms as [|[k m] ms IH]; intros [|d ds]; simpl; try done.
  apply Forall_app. split; [|apply IH]. unfold mem_direct_message. destruct (node_map w !! k); simpl; [apply hand_over_uncounted|done].
Qed.

Lemma waiting_uncounted n cs ps : Forall (fun p => counted p = false) ps → waiting n (cs ++ ps) = waiting n cs.
Proof.
  intros Hps. unfold waiting. rewrite filter_app, length_app. assert (base.filter (waits n) ps = []) as ->; [|simpl; lia].
  induction Hps as [|p ps Hp _ IH]; [done|]. rewrite filter_cons_False; [done|]. intros [? _]. congruence.
Qed.

Lemma asked_snoc n tr o : asked n (tr ++ [o]) = asked n tr ++ match o with Asked l => at_node n l | _ => [] end.
Proof. unfold asked. by rewrite bind_app, bind_singleton. Qed.
Lemma accepted_snoc n tr o : accepted n (tr ++ [o]) = accepted n tr ++ match o with Accepted k m => at_node n [(k, m)] | _ => [] end.
Proof. unfold accepted. by rewrite bind_app, bind_singleton. Qed.
Lemma rejected_snoc n tr o : rejected n (tr ++ [o]) = rejected n tr ++ match o with Rejected k m => at_node n [(k, m)] | _ => [] end.
Proof. unfold rejected. by rewrite bind_app, bind_singleton. Qed.
Lemma received_snoc n tr o : received n (tr ++ [o]) = received n tr ++ match o with Received k m => at_node n [(k, m)] | _ => [] end.
Proof. unfold received. by rewrite bind_app, bind_singleton. Qed.

Lemma at_node_nil n : at_node n [] = [].
Proof. done. Qed.

Ltac snoc := rewrite ?asked_snoc, ?accepted_snoc, ?rejected_snoc, ?received_snoc, ?at_node_nil, ?app_nil_r.

Lemma start_call_inv tr w ps w' o :
  run_inv tr w → Forall (fun p => counted p = false) ps → start_call w ps = (w', o) → run_inv (tr ++ [o]) w'.
Proof.
  intros [Hn Hf Ho] Hps [= <- <-]. split.
  - intros n nd [? ? ? ?]%Hn. split; snoc; try done. simpl. by rewrite waiting_uncounted.
  - intros n Hle. snoc. simpl. rewrite waiting_uncounted by done. by apply Hf.
  - intros n. snoc. rewrite at_node_bind, Ho. unfold pending. simpl. by rewrite bind_app, <-!app_assoc.
Qed.

(** *** Steps of calls, background tasks and receivers *)

(** A step that sees nothing of the messages, and changes one node. *)
Lemma node_step_inv tr w n nd nd' :
  run_inv tr w → nodes w !! n = Some nd → node_ok n tr w nd' →
  run_inv (tr ++ [Asked []]) (set_nodes w (<[n := nd']> (nodes w))).
Proof.
  intros [Hn Hf Ho] Hnd Hok. pose proof (lookup_lt_Some _ _ _ Hnd) as Hlt. split; simpl.
  - intros k x Hk. apply list_lookup_insert_Some in Hk as [(<- & <- & _)|[_ Hk]]; [destruct Hok|apply Hn in Hk as []];
      (split; snoc; done).
  - intros k Hk. rewrite length_insert in Hk. snoc. by apply Hf.
  - intros k. snoc. apply Ho.
Qed.

Lemma new_inv tr w k topics rel : run_inv tr w → run_inv (tr ++ [Asked []]) (network_new w k topics rel).
Proof.
  intros [Hn Hf Ho]. split; simpl.
  - intros n nd Hnd. apply lookup_app_Some in Hnd as [Hnd|[Hge Hnd]]; [apply Hn in Hnd as []; split; snoc; done|].
    apply list_lookup_singleton_Some in Hnd as [H0 <-]. destruct (Hf n Hge) as (Ha & Hr & Hv & Hw).
    split; snoc; rewrite ?Ha, ?Hr, ?Hv; simpl; try done; [by rewrite Hw|unfold capacity; lia].
  - intros n Hle. rewrite length_app in Hle. snoc. apply Hf. simpl in Hle. lia.
  - intros n. snoc. apply Ho.
Qed.

Lemma count_inv tr w call p n m rest nd :
  run_inv tr w → calls w !! call = Some p → deliveries p = (n, m) :: rest → counted p = false → nodes w !! n = Some nd →
  run_inv (tr ++ [Asked []]) (set_calls (set_nodes w (<[n := count_node 1 nd]> (nodes w)))
    (<[call := {| deliveries := deliveries p; counted := true |}]> (calls w))).
Proof.
  intros [Hn Hf Ho] Hp Hd Hc Hnd. pose proof (lookup_lt_Some _ _ _ Hnd) as Hlt.
  destruct (pending_update (calls w) call p {| deliveries := deliveries p; counted := true |} Hp) as (cs & Hcs & Hcs').
  assert (∀ k, waiting k (calls w) + (if decide (k = n) then 1 else 0) =
    waiting k (<[call := {| deliveries := deliveries p; counted := true |}]> (calls w))) as Hw.
  { intros k. rewrite Hcs', Hcs, !waiting_cons. rewrite (decide_False (P := waits k p)) by (intros [? _]; congruence).
    unfold waits. simpl. rewrite Hd. simpl. destruct (decide (k = n)) as [->|]; [rewrite decide_True by done|rewrite decide_False by naive_solver]; lia. }
  split; simpl.
  - intros k x Hk. apply list_lookup_insert_Some in Hk as [(<- & <- & _)|[Hne Hk]].
    + apply Hn in Hnd as [Hfi Hco Hop Hro]. split; snoc; simpl; try done. rewrite <-Hw, decide_True by done. lia.
    + apply Hn in Hk as [Hfi Hco Hop Hro]. split; snoc; simpl; try done. rewrite <-Hw, decide_False by done. lia.
  - intros k Hk. rewrite length_insert in Hk. snoc. rewrite <-Hw, decide_False by lia. rewrite Z.add_0_r. by apply Hf.
  - intros k. snoc. rewrite Ho, Hcs', Hcs. done.
Qed.

Lemma send_inv tr w call p n m rest nd :
  run_inv tr w → calls w !! call = Some p → deliveries p = (n, m) :: rest → counted p = true → nodes w !! n = Some nd →
  let cs := <[call := {| deliveries := rest; counted := false |}]> (calls w) in
  (input_open nd = true → (length (in_queue nd) < capacity)%nat →
   run_inv (tr ++ [Accepted n m]) (set_calls (set_nodes w (<[n := set_queues nd (in_queue nd ++ [m]) (out_queue nd)]> (nodes w))) cs)) ∧
  (input_open nd = false → run_inv (tr ++ [Rejected n m]) (set_calls w cs)).
Proof.
  intros [Hn Hf Ho] Hp Hd Hc Hnd cs0. pose proof (lookup_lt_Some _ _ _ Hnd) as Hlt.
  destruct (pending_update (calls w) call p {| deliveries := rest; counted := false |} Hp) as (cs & Hcs & Hcs'). fold cs0 in Hcs'.
  assert (∀ k, waiting k (calls w) = waiting k cs0 + (if decide (n = k) then 1 else 0)) as Hw.
  { intros k. rewrite Hcs', Hcs, !waiting_cons. rewrite (decide_False (P := waits k {| deliveries := rest; counted := false |})) by (intros [? _]; done).
    destruct (decide (n = k)) as [->|Hne]; [rewrite decide_True; [lia|]|rewrite decide_False; [lia|]]; unfold waits; rewrite Hd; simpl; naive_solver. }
  assert (∀ k, pending k (calls w) ≡ₚ at_node k [(n, m)] ++ pending k cs0) as Hpe.
  { intros k. rewrite Hcs', Hcs. unfold pending. rewrite !bind_cons, Hd, at_node_cons. by rewrite <-app_assoc. }
  split; intros Hop.
  - intros Hroom. split; simpl.
    + intros k x Hk. apply list_lookup_insert_Some in Hk as [(<- & <- & _)|[Hne Hk]].
      * apply Hn in Hnd as [Hfi Hco Hop' [Hr1 Hr2]]. split; snoc; rewrite ?at_node_single, ?decide_True by done; simpl; try done.
        -- by rewrite Hfi, <-!app_assoc.
        -- rewrite Hco, Hw, decide_True by done. rewrite !length_app. simpl. lia.
        -- rewrite length_app. simpl. lia.
      * apply Hn in Hk as [Hfi Hco Hop' Hro]. split; snoc; rewrite ?at_node_single, ?decide_False, ?app_nil_r by done; simpl; try done.
        rewrite Hco, Hw, decide_False by done. lia.
    + intros k Hk. rewrite length_insert in Hk. snoc. rewrite at_node_single, decide_False, app_nil_r by lia.
      destruct (Hf k Hk) as (? & ? & ? & Hz). rewrite Hw, decide_False in Hz by lia. by rewrite Z.add_0_r in Hz.
    + intros k. snoc. rewrite Ho, Hpe. solve_Permutation.
  - split; simpl.
    + intros k x Hk. pose proof Hk as Hk'. apply Hn in Hk as [Hfi Hco Hop' Hro]. split; snoc; simpl; try done.
      * rewrite Hco, Hw, at_node_single. destruct (decide (n = k)); rewrite ?length_app; simpl; lia.
      * intros Hopen. rewrite at_node_single. destruct (decide (n = k)) as [->|]; [congruence|]. rewrite app_nil_r. auto.
    + intros k Hk. snoc. rewrite at_node_single, decide_False, app_nil_r by lia.
      destruct (Hf k Hk) as (? & ? & ? & Hz). rewrite Hw, decide_False in Hz by lia. by rewrite Z.add_0_r in Hz.
    + intros k. snoc. rewrite Ho, Hpe. solve_Permutation.
Qed.

Lemma mem_perform_inv tr w a w' o : run_inv tr w → perform w a = Some (w', o) → run_inv (tr ++ [o]) w'.
Proof.
  intros Hi. destruct a as [k topics rel|from msg topic ds|from msg rs ds|from msg r d|from ms ds|call|call|n|n|n]; simpl.
  - intros [= <- <-]. by apply new_inv.
  - destruct (nodes w !! from) as [nd|]; [|done]. simpl. intros H%(inj Some). eapply start_call_inv; [done| |exact H]. apply hand_over_uncounted.
  - destruct (nodes w !! from) as [nd|]; [|done]. simpl. intros H%(inj Some). eapply start_call_inv; [done| |exact H]. apply hand_over_uncounted.
  - destruct (nodes w !! from) as [nd|]; [|done]. simpl. intros H%(inj Some). eapply start_call_inv; [done| |exact H].
    unfold mem_direct_message. destruct (node_map w !! r); simpl; [apply hand_over_uncounted|done].
  - destruct (nodes w !! from) as [nd|]; [|done]. simpl. intros H%(inj Some). eapply start_call_inv; [done| |exact H]. apply vid_uncounted.
  - destruct (calls w !! call) as [p|] eqn:Hp; [|done]. simpl. destruct (deliveries p) as [|[n m] rest] eqn:Hd; [done|].
    destruct (counted p) eqn:Hc; [done|]. destruct (nodes w !! n) as [nd|] eqn:Hn; [|done]. simpl. intros [= <- <-].
    pose proof (count_inv tr w call p n m rest nd Hi Hp Hd Hc Hn) as H. by rewrite Hd in H.
  - destruct (calls w !! call) as [p|] eqn:Hp; [|done]. simpl. destruct (deliveries p) as [|[n m] rest] eqn:Hd; [done|].
    destruct (counted p) eqn:Hc; [|done]. destruct (nodes w !! n) as [nd|] eqn:Hn; [|done]. simpl.
    destruct (send_inv tr w call p n m rest nd Hi Hp Hd Hc Hn) as [H1 H2].
    destruct (input_open nd); [|intros [= <- <-]; by apply H2].
    destruct (Nat.ltb_spec (length (in_queue nd)) capacity); [|done]. intros [= <- <-]. by apply H1.
  - destruct (nodes w !! n) as [nd|] eqn:Hn; [|done]. simpl. destruct (in_queue nd) as [|m i] eqn:Hq; [done|].
    destruct (Nat.ltb_spec (length (out_queue nd)) capacity); [|done]. intros [= <- <-].
    apply (node_step_inv tr w n nd); [done..|]. apply (ri_nodes _ _ Hi) in Hn as [Hfi Hco Hop Hro]. rewrite Hq in *.
    split; simpl; try done; [by rewrite <-app_assoc|rewrite <-app_assoc; done|]. rewrite length_app. simpl in *. lia.
  - destruct (nodes w !! n) as [nd|] eqn:Hn; [|done]. simpl. destruct (out_queue nd) as [|m o'] eqn:Hq; [done|]. intros [= <- <-].
    pose proof Hi as [Hns Hf Ho]. pose proof (lookup_lt_Some _ _ _ Hn) as Hlt. split; simpl.
    + intros k x Hk. apply list_lookup_insert_Some in Hk as [(<- & <- & _)|[Hne Hk]].
      * apply Hns in Hn as [Hfi Hco Hop Hro]. rewrite Hq in *. split; snoc; rewrite ?at_node_single, ?decide_True by done; simpl in *; try done.
        -- by rewrite Hfi, <-app_assoc.
        -- lia.
        -- lia.
      * apply Hns in Hk as [Hfi Hco Hop Hro]. split; snoc; rewrite ?at_node_single, ?decide_False, ?app_nil_r by done; done.
    + intros k Hk. rewrite length_insert in Hk. snoc. rewrite at_node_single, decide_False, app_nil_r by lia. by apply Hf.
    + intros k. snoc. apply Ho.
  - destruct (nodes w !! n) as [nd|] eqn:Hn; [|done]. simpl. intros [= <- <-].
    apply (node_step_inv tr w n nd); [done..|]. by apply (ri_nodes _ _ Hi) in Hn as [Hfi Hco Hop Hro].
Qed.

Lemma run_keeps tr w : run tr w → run_inv tr w.
Proof.
  induction 1 as [|tr w a w' o Hrun IH Hp]; [|by eapply mem_perform_inv].
  split; [done|done|]. intros n. done.
Qed.

(** Delivery in memory.  In every interleaving of calls, background tasks, receivers and
    shutdowns, a node receives the messages its channel has taken, in their order, none
    twice and none else; each message that a call was to send to the node has been taken or
    refused once, or is still to be sent; a message is refused only after the node was shut
    down; and the channels keep to their size.  A node that is not shut down, once
    nothing is under way to it, has received exactly what was sent to it. *)
Theorem memory_network_delivers tr w n nd :
  run tr w → nodes w !! n = Some nd →
  accepted n tr = received n tr ++ out_queue nd ++ in_queue nd ∧
  asked n tr ≡ₚ accepted n tr ++ rejected n tr ++ pending n (calls w) ∧
  (input_open nd = true → rejected n tr = []) ∧
  (length (in_queue nd) <= capacity)%nat ∧ (length (out_queue nd) <= capacity)%nat ∧
  (input_open nd = true → pending n (calls w) = [] → out_queue nd = [] → in_queue nd = [] → received n tr ≡ₚ asked n tr).
Proof.
  intros [Hn _ Ho]%run_keeps [Hfi _ Hop [Hr1 Hr2]]%Hn. split_and!; try done.
  intros Hopen Hpe Hout Hin. rewrite Ho, Hpe, (Hop Hopen), Hfi, Hout, Hin. by rewrite !app_nil_r.
Qed.

(** The count of messages in flight also has the messages that a node refused after it was
    shut down, for ever. *)
Lemma in_flight_counts_refused tr w n nd :
  run tr w → nodes w !! n = Some nd →
  in_flight_message_count nd = Z.of_nat (length (out_queue nd ++ in_queue nd)) + waiting n (calls w) + Z.of_nat (length (rejected n tr)).
Proof. intros [Hn _ _]%run_keeps [_ Hc _ _]%Hn. exact Hc. Qed.
End Runs.

(** ** What the networks promise *)

Lemma uniform_bounds {E} low high r x : uniform_inclusive (E := E) low high r = Ok x → low <= x <= high.
Proof.
  unfold uniform_inclusive. destruct (Z.ltb_spec high low); [done|]. intros [= <-].
  pose proof (Z.mod_pos_bound r (high - low + 1)). lia.
Qed.

(** A synchronous network delivers one copy, with a delay within its bounds.  A partially
    synchronous one delivers one copy too: after its [gst] within the bounds of the
    synchronous part; before, within the bounds of the asynchronous part or after the
    time [gst] has passed. *)
Lemma synchrony {E} rel d msg delay msgs :
  chaos_send_msg (E := E) rel d msg = Ok (delay, msgs) →
  match rel with
  | Perfect => delay = 0 ∧ msgs = [msg]
  | Synchronous n => sync_delay_low_ms n <= delay <= sync_delay_high_ms n ∧ msgs = [msg]
  | PartiallySynchronous n =>
      msgs = [msg] ∧
      if d_elapsed d <? gst n then
        async_delay_low_ms (asynchronous n) <= delay <= async_delay_high_ms (asynchronous n) ∨
        sync_delay_low_ms (synchronous n) + gst n <= delay <= sync_delay_high_ms (synchronous n) + gst n
      else sync_delay_low_ms (synchronous n) <= delay <= sync_delay_high_ms (synchronous n)
  | Asynchronous n => async_delay_low_ms n <= delay <= async_delay_high_ms n ∧ (msgs = [] ∨ msgs = [msg])
  | Chaos n => delay_low_ms n <= delay <= delay_high_ms n ∧ Forall (eq msg) msgs
  end.
Proof.
  unfold chaos_send_msg. intros (keep & Hk & H)%bind_ok_inv. apply bind_ok_inv in H as (dl & Hd & H).
  apply bind_ok_inv in H as (rep & Hr & H). apply Ok_inj in H as [= -> <-].
  destruct rel as [|n|n|n|n]; cbn [sample_keep sample_delay sample_repeat] in *.
  - by simplify_eq.
  - injection Hk as <-. injection Hr as <-. split; [by eapply uniform_bounds|done].
  - injection Hr as <-. split; [by eapply uniform_bounds|]. destruct keep; auto.
  - injection Hk as <-. injection Hr as <-. split; [done|].
    destruct (d_elapsed d <? gst n); [|by eapply uniform_bounds].
    apply bind_ok_inv in Hd as ([] & _ & Hd); [left; by eapply uniform_bounds|].
    apply bind_ok_inv in Hd as (x & Hx%uniform_bounds & [= <-]). right. lia.
  - split; [by eapply uniform_bounds|]. destruct keep; [|done]. by apply Forall_replicate.
Qed.

Lemma defaults_are_perfect {E} d msg :
  0 <= d_elapsed d →
  chaos_send_msg (E := E) (Asynchronous AsynchronousNetwork_default) d msg = chaos_send_msg Perfect d msg ∧
  chaos_send_msg (E := E) (Synchronous SynchronousNetwork_default) d msg = chaos_send_msg Perfect d msg ∧
  chaos_send_msg (E := E) (PartiallySynchronous PartiallySynchronousNetwork_default) d msg = chaos_send_msg Perfect d msg.
Proof.
  intros Hd. unfold chaos_send_msg, sample_delay, async_delay, sync_delay, uniform_inclusive. simpl. rewrite Z.mod_1_r.
  split_and!; [done|done|]. destruct (Z.ltb_spec (d_elapsed d) 0); [lia|done].
Qed.

(** ** Witness: a node that broadcasts to itself *)

Module MemoryDemo.
#[local] Existing Instance Ideal.open_signatures.
Definition actions : list Action :=
  [ANew (10 : PubKey) [Global] None; ABroadcast 0 [7] Global []; ACount 0; ASend 0; AForward 0; ARecv 0].
Definition performed : option (World * list Obs) :=
  foldl (fun s a => '(w, tr) ← s; '(w', o) ← perform w a; Some (w', tr ++ [o])) (Some (world_empty, [])) actions.
Definition trace : list Obs := [Asked []; Asked [(0%nat, [7])]; Asked []; Accepted 0 [7]; Asked []; Received 0 [7]].
Definition node : Node :=
  {| input_open := true; in_queue := []; out_queue := []; in_flight_message_count := 0; reliability_config := None |}.

Lemma demo_runs : ∃ w, run trace w ∧ nodes w !! 0%nat = Some node ∧ pending 0 (calls w) = [].
Proof.
  assert (∀ acts tr w, run tr w → match foldl (fun s a => '(w, tr) ← s; '(w', o) ← perform w a; Some (w', tr ++ [o])) (Some (w, tr)) acts with
    | Some (w', tr') => run tr' w' | None => True end) as Hrun.
  { intros acts. induction acts as [|a acts IH]; intros tr w Hw; [done|]. simpl. destruct (perform w a) as [[w' o]|] eqn:Hp.
    - apply (IH (tr ++ [o])). by eapply run_next.
    - simpl. clear. induction acts; done. }
  specialize (Hrun actions [] world_empty run_empty). eexists. split; [exact Hrun|by split].
Qed.
End MemoryDemo.

Lemma memory_network_delivers_witness :
  received 0 MemoryDemo.trace ≡ₚ [[7]].
Proof.
  destruct MemoryDemo.demo_runs as (w & Hr & Hn & Hp).
  exact (proj2 (proj2 (proj2 (proj2 (proj2 (memory_network_delivers MemoryDemo.trace w 0 MemoryDemo.node Hr Hn))))) eq_refl Hp eq_refl eq_refl).
Defined.
