(* ===== verification/DhtStore.v ===== *)
(** * Records of the DHT and the stores that keep them

    [libp2p-networking/src/network/behaviours/dht/record.rs], [store/validated.rs] and
    [store/persistent.rs]: signed records, a store that only takes valid ones, and a
    store that is saved to disk from time to time.

    A [RecordStore] is a trait of libp2p; [MemoryStore], at the bottom, is a parameter
    with its documented laws.  The two wrappers are instances over the store inside.
    [bincode], the encoding of keys and the persistent storage are outside.  Times are
    in nanoseconds. *)

From S2P Require Import Prelude Crypto.

(** ** Keys *)

(** The namespaces for tests only exist in test builds. *)
Inductive Namespace := NsLookup | NsTesting | NsTestingUnauthenticated.
#[global] Instance Namespace_eq_dec : EqDecision Namespace.
Proof. solve_decision. Defined.

Definition requires_authentication (n : Namespace) : bool :=
  match n with NsLookup | NsTesting => true | NsTestingUnauthenticated => false end.

Definition namespace_u8 (n : Namespace) : Z :=
  match n with NsLookup => 0 | NsTesting => 254 | NsTestingUnauthenticated => 255 end.

Definition namespace_try_from (cfg_test : bool) (value : Z) : option Namespace :=
  if value =? 0 then Some NsLookup
  else if cfg_test && (value =? 254) then Some NsTesting
  else if cfg_test && (value =? 255) then Some NsTestingUnauthenticated
  else None.

Record RecordKey := { rk_namespace : Namespace; rk_key : bytes }.

Definition RecordKey_to_bytes (k : RecordKey) : bytes := namespace_u8 (rk_namespace k) :: rk_key k.

Definition try_from_bytes (cfg_test : bool) (b : bytes) : option RecordKey :=
  match b with
  | [] => None
  | x :: rest =>
      namespace ← namespace_try_from cfg_test x;
      Some {| rk_namespace := namespace; rk_key := rest |}
  end.

Lemma try_from_bytes_inv t b k : try_from_bytes t b = Some k → RecordKey_to_bytes k = b.
Proof.
  destruct b as [|x b]; simpl; [done|]. intros (n & Hn & [= <-])%bind_Some. unfold RecordKey_to_bytes. simpl. f_equal.
  unfold namespace_try_from in Hn. repeat case_match; simplify_eq; bool_facts; done.
Qed.

Lemma key_bytes_roundtrip t k :
  t || bool_decide (rk_namespace k = NsLookup) = true → try_from_bytes t (RecordKey_to_bytes k) = Some k.
Proof. destruct k as [[] key], t; simpl; done. Qed.

(** ** The clock *)

Definition nanos : Z := 10 ^ 9.

(** [Instant::now] and [SystemTime::now], the latter since the Unix epoch. *)
Record Now := { now_instant : Z; now_system : Z }.

(** The range of [SystemTime] and of [Instant], whose seconds are an [i64]. *)
Definition in_time_range (t : Z) : bool := bool_decide (- 2 ^ 63 <= t / nanos < 2 ^ 63).
Definition checked_time (t : Z) : option Z := if in_time_range t then Some t else None.
Definition as_secs_since_epoch (t : Z) : option Z := if 0 <=? t then Some (t / nanos) else None.

Definition instant_to_unix_seconds (now : Now) (instant : Z) : option Z :=
  if now_instant now <? instant
  then checked_time (now_system now + (instant - now_instant now)) ≫= as_secs_since_epoch
  else checked_time (now_system now - (now_instant now - instant)) ≫= as_secs_since_epoch.

Definition unix_seconds_to_instant (now : Now) (unix_secs : Z) : option Z :=
  unix_secs_now ← as_secs_since_epoch (now_system now);
  if unix_secs_now <? unix_secs
  then checked_time (now_instant now + (unix_secs - unix_secs_now) * nanos)
  else checked_time (now_instant now - (unix_secs_now - unix_secs) * nanos).

(** An expiry that is saved and restored moves by less than a second, if the two clocks
    run alike. *)
Lemma expiry_roundtrip now now' e u e' :
  now_system now - now_instant now = now_system now' - now_instant now' →
  instant_to_unix_seconds now e = Some u → unix_seconds_to_instant now' u = Some e' →
  Z.abs (e' - e) < nanos.
Proof.
  intros Hd Hu He. assert (u = (now_system now - now_instant now + e) / nanos) as Hu'.
  { unfold instant_to_unix_seconds, checked_time, as_secs_since_epoch in Hu.
    repeat case_match; simplify_eq/=; repeat case_match; simplify_eq; f_equal; lia. }
  assert (e' = now_instant now' + (u - now_system now' / nanos) * nanos) as ->.
  { unfold unix_seconds_to_instant, checked_time, as_secs_since_epoch in He.
    repeat case_match; simplify_eq/=; repeat case_match; simplify_eq; lia. }
  rewrite Hu', Hd. unfold nanos in *. pose proof (Z.mod_pos_bound (now_system now') (10 ^ 9)).
  pose proof (Z.mod_pos_bound (now_system now' - now_instant now' + e) (10 ^ 9)).
  pose proof (Z_div_mod_eq_full (now_system now') (10 ^ 9)).
  pose proof (Z_div_mod_eq_full (now_system now' - now_instant now' + e) (10 ^ 9)). lia.
Qed.

(** ** Records and stores *)

(** [libp2p::kad::Record]; a peer id is a number. *)
Record KadRecord := {
  rec_key : bytes;
  rec_value : bytes;
  rec_publisher : option Z;
  rec_expires : option Z;
}.

Record SerializableRecord := {
  sr_key : bytes;
  sr_value : bytes;
  sr_publisher : option Z;
  sr_expires_unix_secs : option Z;
}.

(** [Option::map] then [transpose]. *)
Definition transpose_map {A B} (f : A → option B) (o : option A) : option (option B) :=
  match o with None => Some None | Some a => Some <$> f a end.

Definition to_serializable (now : Now) (r : KadRecord) : option SerializableRecord :=
  expires ← transpose_map (instant_to_unix_seconds now) (rec_expires r);
  Some {| sr_key := rec_key r; sr_value := rec_value r; sr_publisher := rec_publisher r;
          sr_expires_unix_secs := expires |}.

Definition from_serializable (now : Now) (r : SerializableRecord) : option KadRecord :=
  expires ← transpose_map (unix_seconds_to_instant now) (sr_expires_unix_secs r);
  Some {| rec_key := sr_key r; rec_value := sr_value r; rec_publisher := sr_publisher r; rec_expires := expires |}.

(** The trait: [put] says whether it succeeded. *)
Class RecordStore (R : Type) := {
  rs_put : R → KadRecord → R * bool;
  rs_get : R → bytes → option KadRecord;
  rs_remove : R → bytes → R;
  rs_records : R → list KadRecord;
}.

(** What a store promises: it maps keys to records. *)
Class RecordStoreLaws (R : Type) `{RecordStore R} := {
  rs_put_get s r s' k : rs_put s r = (s', true) → rs_get s' k = if decide (k = rec_key r) then Some r else rs_get s k;
  rs_put_err s r s' k : rs_put s r = (s', false) → rs_get s' k = rs_get s k;
  rs_get_key s k r : rs_get s k = Some r → rec_key r = k;
  rs_remove_get s k k' : rs_get (rs_remove s k) k' = if decide (k' = k) then None else rs_get s k';
  rs_records_get s r : r ∈ rs_records s ↔ rs_get s (rec_key r) = Some r;
  rs_records_NoDup s : NoDup (map rec_key (rs_records s));
}.

(** ** Signed records *)

Section Records.
Context `{Sg : SignatureScheme}.

Inductive RecordValue := Signed (value : bytes) (signature : Sig) | Unsigned (value : bytes).

(** The kind of build, and the encodings: [K::from_bytes], [K::to_bytes], [bincode]. *)
Class DhtCodec := {
  cfg_test : bool;
  dk_from_bytes : bytes → option PubKey;
  dk_to_bytes : PubKey → bytes;
  rv_serialize : RecordValue → option bytes;
  rv_deserialize : bytes → option RecordValue;
  srs_serialize : list SerializableRecord → option bytes;
  srs_deserialize : bytes → option (list SerializableRecord);
}.
Class DhtCodecLaws `{DhtCodec} := {
  dk_roundtrip k : dk_from_bytes (dk_to_bytes k) = Some k;
  rv_roundtrip v b : rv_serialize v = Some b → rv_deserialize b = Some v;
  srs_roundtrip l b : srs_serialize l = Some b → srs_deserialize b = Some l;
}.
Context `{Dc : DhtCodec}.

Definition new_signed (record_key : RecordKey) (value : bytes) (private_key : PrivKey) : option RecordValue :=
  let value_to_sign := RecordKey_to_bytes record_key ++ value in
  signature ← sign private_key value_to_sign;
  Some (Signed value signature).

Definition RecordValue_validate (v : RecordValue) (record_key : RecordKey) : bool :=
  if negb (requires_authentication (rk_namespace record_key)) then true
  else
    match v with
    | Unsigned _ => false
    | Signed value signature =>
        match dk_from_bytes (rk_key record_key) with
        | None => false
        | Some public_key => validate public_key signature (RecordKey_to_bytes record_key ++ value)
        end
    end.

Definition RecordValue_value (v : RecordValue) : bytes :=
  match v with Unsigned value | Signed value _ => value end.

(** ** The validated store *)

Record ValidatedStore (R : Type) := { vs_store : R }.
Arguments vs_store {R}.

Definition validated_put {R} `{!RecordStore R} (s : ValidatedStore R) (record : KadRecord) : ValidatedStore R * bool :=
  match rv_deserialize (rec_value record) with
  | Some record_value =>
      match try_from_bytes cfg_test (rec_key record) with
      | None => (s, false)
      | Some record_key =>
          if RecordValue_validate record_value record_key then
            let '(store, ok) := rs_put (vs_store s) record in ({| vs_store := store |}, ok)
          else (s, false)
      end
  | None => (s, true)
  end.

#[global] Instance validated_store R `{!RecordStore R} : RecordStore (ValidatedStore R) := {|
  rs_put := validated_put;
  rs_get s := rs_get (vs_store s);
  rs_remove s k := {| vs_store := rs_remove (vs_store s) k |};
  rs_records s := rs_records (vs_store s);
|}.

(** ** The persistent store *)

(** [DhtPersistentStorage]: [save] gives the storage after it, and whether it
    succeeded. *)
Class DhtPersistentStorage (D : Type) := {
  dps_save : D → list SerializableRecord → D * bool;
  dps_load : D → option (list SerializableRecord);
}.

(** [DhtNoPersistence] *)
#[global] Instance dht_no_persistence : DhtPersistentStorage unit := {|
  dps_save _ _ := (tt, true);
  dps_load _ := Some [];
|}.

(** [DhtFilePersistence], on a file system of which only this file is seen:
    [fs_write] gives the contents after the write and whether it succeeded. *)
Record DhtFilePersistence := { file_contents : option bytes; fs_write : option bytes → bytes → option bytes * bool }.
#[global] Instance dht_file_persistence : DhtPersistentStorage DhtFilePersistence := {|
  dps_save f records :=
    match srs_serialize records with
    | None => (f, false)
    | Some to_save =>
        let '(contents, ok) := fs_write f (file_contents f) to_save in
        ({| file_contents := contents; fs_write := fs_write f |}, ok)
    end;
  dps_load f := file_contents f ≫= srs_deserialize;
|}.

(** [ps_saving] is the task that holds the permit of the semaphore, with the records it
    saves. *)
Record PersistentStore (R D : Type) := {
  ps_store : R;
  ps_storage : D;
  ps_saving : option (list SerializableRecord);
  ps_max_record_delta : Z;
  ps_record_delta : Z;
}.
Arguments ps_store {R D}.
Arguments ps_storage {R D}.
Arguments ps_saving {R D}.
Arguments ps_max_record_delta {R D}.
Arguments ps_record_delta {R D}.

Section Persistent.
Context {R D : Type} `{Rs : !RecordStore R} `{Ds : !DhtPersistentStorage D}.

Definition with_store (s : PersistentStore R D) (store : R) : PersistentStore R D :=
  {| ps_store := store; ps_storage := ps_storage s; ps_saving := ps_saving s;
     ps_max_record_delta := ps_max_record_delta s; ps_record_delta := ps_record_delta s |}.
Definition with_delta (s : PersistentStore R D) (delta : Z) : PersistentStore R D :=
  {| ps_store := ps_store s; ps_storage := ps_storage s; ps_saving := ps_saving s;
     ps_max_record_delta := ps_max_record_delta s; ps_record_delta := delta |}.

Definition try_save_to_persistent_storage (now : Now) (s : PersistentStore R D) : PersistentStore R D * bool :=
  match ps_saving s with
  | Some _ => (s, false)
  | None =>
      ({| ps_store := ps_store s; ps_storage := ps_storage s;
          ps_saving := Some (omap (to_serializable now) (rs_records (ps_store s)));
          ps_max_record_delta := ps_max_record_delta s; ps_record_delta := ps_record_delta s |}, true)
  end.

(** The end of the spawned task.  A save that takes too long leaves the storage as it
    then is. *)
Definition save_finished (timed_out : option D) (s : PersistentStore R D) : PersistentStore R D :=
  match ps_saving s with
  | None => s
  | Some records =>
      {| ps_store := ps_store s;
         ps_storage := match timed_out with Some d => d | None => (dps_save (ps_storage s) records).1 end;
         ps_saving := None; ps_max_record_delta := ps_max_record_delta s; ps_record_delta := 0 |}
  end.

Definition restore_from_persistent_storage (now : Now) (s : PersistentStore R D) : PersistentStore R D * bool :=
  match dps_load (ps_storage s) with
  | None => (s, false)
  | Some records =>
      (foldl (fun s record =>
         match from_serializable now record with
         | Some r => with_store s (rs_put (ps_store s) r).1
         | None => s
         end) s records, true)
  end.

Definition PersistentStore_new (now : Now) (store : R) (storage : D) (max_record_delta : Z) : PersistentStore R D :=
  (restore_from_persistent_storage now
     {| ps_store := store; ps_storage := storage; ps_saving := None;
        ps_max_record_delta := max_record_delta; ps_record_delta := 0 |}).1.

(** One more change; beyond the limit a save is tried. *)
Definition count_change (now : Now) (s : PersistentStore R D) : PersistentStore R D :=
  let s := with_delta s (u64_add (ps_record_delta s) 1) in
  if ps_max_record_delta s <? ps_record_delta s then (try_save_to_persistent_storage now s).1 else s.

Definition persistent_put (now : Now) (s : PersistentStore R D) (record : KadRecord) : PersistentStore R D * bool :=
  let '(store, ok) := rs_put (ps_store s) record in
  let s := with_store s store in
  (if (ok : bool) then count_change now s else s, ok).

Definition persistent_remove (now : Now) (s : PersistentStore R D) (k : bytes) : PersistentStore R D :=
  count_change now (with_store s (rs_remove (ps_store s) k)).
End Persistent.

(** ** Every stored record is valid *)

Section Validity.
Context {R D : Type} `{Rs : !RecordStore R} `{Ds : !DhtPersistentStorage D}.

(** A record that the store may take. *)
Definition record_valid (r : KadRecord) : Prop :=
  ∃ v k, rv_deserialize (rec_value r) = Some v ∧ try_from_bytes cfg_test (rec_key r) = Some k ∧
    RecordValue_validate v k = true.

Definition all_valid (s : PersistentStore (ValidatedStore R) D) : Prop :=
  ∀ k r, rs_get (ps_store s) k = Some r → record_valid r.

(** The operations of the store, with the end of a save and a new start. *)
Inductive StoreOp :=
  | OpPut (r : KadRecord)
  | OpRemove (k : bytes)
  | OpSaveFinished (timed_out : option D)
  | OpRestart (fresh : R) (max_record_delta : Z).

Definition store_step (now : Now) (s : PersistentStore (ValidatedStore R) D) (o : StoreOp)
    : PersistentStore (ValidatedStore R) D :=
  match o with
  | OpPut r => (persistent_put now s r).1
  | OpRemove k => persistent_remove now s k
  | OpSaveFinished timed_out => save_finished timed_out s
  | OpRestart fresh max_record_delta =>
      PersistentStore_new now {| vs_store := fresh |} (ps_storage s) max_record_delta
  end.

Definition store_run (s : PersistentStore (ValidatedStore R) D) (ops : list (Now * StoreOp))
    : PersistentStore (ValidatedStore R) D :=
  foldl (fun s '(now, o) => store_step now s o) s ops.

Definition op_ok (o : StoreOp) : Prop :=
  match o with OpRestart fresh _ => ∀ k, rs_get fresh k = None | _ => True end.

Context `{Rl : !RecordStoreLaws R}.

Lemma validated_put_inv (s : ValidatedStore R) r s' ok :
  validated_put s r = (s', ok) →
  s' = s ∨
  record_valid r ∧ ∃ store, rs_put (vs_store s) r = (store, ok) ∧ s' = {| vs_store := store |}.
Proof using Type.
  unfold validated_put, record_valid. destruct (rv_deserialize _) as [v|]; [|intros [= <- <-]; by left].
  destruct (try_from_bytes _ _) as [k|]; [|intros [= <- <-]; by left].
  destruct (RecordValue_validate v k) eqn:Hv; [|intros [= <- <-]; by left].
  destruct (rs_put (vs_store s) r) as [store ok']. intros [= <- <-]. right. split; [by eauto|by exists store].
Qed.

Lemma validated_put_valid (s : ValidatedStore R) r :
  (∀ k r', rs_get s k = Some r' → record_valid r') →
  ∀ k r', rs_get (rs_put s r).1 k = Some r' → record_valid r'.
Proof using Rl.
  intros Hs k r'. destruct (rs_put s r) as [s' ok] eqn:Hput.
  destruct (validated_put_inv _ _ _ _ Hput) as [->|(Hr & store & Hst & ->)]; [by apply Hs|]. simpl.
  destruct ok; [|rewrite (rs_put_err _ _ _ _ Hst); by apply Hs].
  rewrite (rs_put_get _ _ _ _ Hst). case_decide; [by intros [= <-]|by apply Hs].
Qed.

Lemma restore_valid now (s : PersistentStore (ValidatedStore R) D) :
  all_valid s → all_valid (restore_from_persistent_storage now s).1.
Proof using Rl.
  unfold restore_from_persistent_storage. destruct (dps_load _) as [records|]; [|done]. simpl.
  revert s. induction records as [|x records IH]; intros s Hs; simpl; [done|]. apply IH.
  destruct (from_serializable now x) as [r|]; [|done]. unfold all_valid. simpl. by apply validated_put_valid.
Qed.

Lemma count_change_store now (s : PersistentStore (ValidatedStore R) D) : ps_store (count_change now s) = ps_store s.
Proof using Type. unfold count_change, try_save_to_persistent_storage. by repeat case_match. Qed.

Lemma store_step_valid now s o : op_ok o → all_valid s → all_valid (store_step now s o).
Proof using Rl.
  intros Ho Hs. destruct o as [r|k|timed_out|fresh max]; simpl.
  - unfold persistent_put, all_valid. pose proof (validated_put_valid (ps_store s) r Hs) as Hv.
    destruct (rs_put (ps_store s) r) as [store ok]. simpl in *.
    destruct ok; [rewrite count_change_store|]; done.
  - unfold persistent_remove, all_valid. rewrite count_change_store. simpl. intros k' r.
    rewrite rs_remove_get. case_decide; [done|by apply Hs].
  - unfold save_finished. by destruct (ps_saving s).
  - apply restore_valid. intros k r Hg. simpl in Hg, Ho. by rewrite Ho in Hg.
Qed.

Lemma store_run_valid s ops : Forall (op_ok ∘ snd) ops → all_valid s → all_valid (store_run s ops).
Proof using Rl.
  unfold store_run. intros Hops. revert s.
  induction Hops as [|[now o] ops Ho Hops IH]; intros s Hs; simpl; [done|]. by apply IH, store_step_valid.
Qed.

(** ** Saving and restoring *)

(** A record that comes back from disk: the same but for a little of its expiry. *)
Definition same_record (r r' : KadRecord) : Prop :=
  rec_key r' = rec_key r ∧ rec_value r' = rec_value r ∧ rec_publisher r' = rec_publisher r ∧
  option_Forall2 (fun e e' => Z.abs (e' - e) < nanos) (rec_expires r) (rec_expires r').

Lemma serializable_roundtrip now now' r x r' :
  now_system now - now_instant now = now_system now' - now_instant now' →
  to_serializable now r = Some x → from_serializable now' x = Some r' → same_record r r'.
Proof using Type.
  intros Hd (u & Hu & [= <-])%bind_Some (e' & He & [= <-])%bind_Some. unfold same_record. simpl in *.
  split_and!; [done..|]. destruct (rec_expires r) as [e|]; simpl in Hu.
  - apply fmap_Some in Hu as (u' & Hu & ->). apply fmap_Some in He as (e0 & He & ->).
    constructor. by eapply expiry_roundtrip.
  - injection Hu as <-. injection He as <-. constructor.
Qed.

Lemma same_record_valid r r' : same_record r r' → record_valid r → record_valid r'.
Proof using Type. unfold record_valid. by intros (-> & -> & _). Qed.
End Validity.

(** What a bounded store promises, and a storage. *)
Class BoundedStore (R : Type) `{RecordStore R} := {
  rs_max_records : R → nat;
  rs_max_value_bytes : R → nat;
  rs_put_bounds s r : rs_max_records (rs_put s r).1 = rs_max_records s ∧
    rs_max_value_bytes (rs_put s r).1 = rs_max_value_bytes s;
  rs_put_ok s r : (length (rec_value r) < rs_max_value_bytes s)%nat → (length (rs_records s) < rs_max_records s)%nat →
    (rs_put s r).2 = true;
  rs_within s : (length (rs_records s) <= rs_max_records s)%nat;
  rs_value_within s r : r ∈ rs_records s → (length (rec_value r) < rs_max_value_bytes s)%nat;
}.
Class StorageLaws (D : Type) `{DhtPersistentStorage D} :=
  dps_load_saved d l d' : dps_save d l = (d', true) → dps_load d' = Some l.

Section Restore.
Context {R : Type} `{Rs : !RecordStore R} `{Rl : !RecordStoreLaws R} `{Rb : !BoundedStore R}.

Lemma records_length (s : R) l :
  NoDup (map rec_key l) → (∀ r, rs_get s (rec_key r) = Some r ↔ r ∈ l) → length (rs_records s) = length l.
Proof using Rl.
  intros Hl Hs. apply Permutation_length, NoDup_Permutation.
  - apply (NoDup_fmap_1 rec_key), rs_records_NoDup.
  - by apply (NoDup_fmap_1 rec_key).
  - intros r. by rewrite rs_records_get.
Qed.

(** Putting valid records with new keys one after the other into a store with room for
    them keeps them all. *)
Lemma put_all (l : list KadRecord) (s : ValidatedStore R) (old : list KadRecord) :
  NoDup (map rec_key (old ++ l)) → Forall record_valid l →
  (∀ r, rs_get s (rec_key r) = Some r ↔ r ∈ old) →
  (length old + length l <= rs_max_records (vs_store s))%nat →
  Forall (fun r => length (rec_value r) < rs_max_value_bytes (vs_store s))%nat l →
  ∀ r, rs_get (foldl (fun s r => (rs_put s r).1) s l) (rec_key r) = Some r ↔ r ∈ old ++ l.
Proof using Rl.
  revert s old. induction l as [|x l IH]; intros s old Hnd Hval Hs Hlen Hv r; simpl.
  { rewrite app_nil_r. apply Hs. }
  apply Forall_cons in Hval as [Hx Hval]. apply Forall_cons in Hv as [Hxv Hv].
  assert (NoDup (map rec_key old)) as Hold by (rewrite map_app, NoDup_app in Hnd; apply Hnd).
  pose proof (rs_put_ok (vs_store s) x Hxv) as Hok. rewrite (records_length _ old Hold Hs) in Hok.
  destruct (rs_put_bounds (vs_store s) x) as [Hb1 Hb2].
  destruct (rs_put (vs_store s) x) as [store ok] eqn:Hput. simpl in *. rewrite Hok in Hput by lia.
  assert (validated_put s x = ({| vs_store := store |}, true)) as ->.
  { destruct Hx as (v & k & Hv1 & Hk & Hval1). unfold validated_put. by rewrite Hv1, Hk, Hval1, Hput. }
  simpl. replace (old ++ x :: l) with ((old ++ [x]) ++ l) in Hnd |- * by by rewrite <- app_assoc.
  apply IH; simpl; [done|done| |rewrite length_app; simpl; lia|by rewrite Hb2].
  intros r'. rewrite (rs_put_get _ _ _ _ Hput), elem_of_app, list_elem_of_singleton.
  assert (∀ r', r' ∈ old → rec_key r' ≠ rec_key x) as Hnew.
  { rewrite map_app, NoDup_app in Hnd. destruct Hnd as [Hnd _]. rewrite map_app, NoDup_app in Hnd.
    intros r0 Hr0 Heq. destruct Hnd as (_ & Hd & _). apply (Hd (rec_key x)); [|set_solver].
    rewrite <- Heq. by apply list_elem_of_fmap_2. }
  case_decide as Hk; [|rewrite <- Hs; naive_solver]. split; [intros [= <-]; by right|].
  intros [Hr| ->]; [by apply Hnew in Hr|done].
Qed.

Context {D : Type} `{Ds : !DhtPersistentStorage D} `{Dl : !StorageLaws D}.

(** Restoring puts the records that can be converted. *)
Lemma restore_fold now records (s : PersistentStore (ValidatedStore R) D) :
  ps_store (foldl (fun s record =>
    match from_serializable now record with
    | Some r => with_store s (rs_put (ps_store s) r).1
    | None => s
    end) s records) = foldl (fun s r => (rs_put s r).1) (ps_store s) (omap (from_serializable now) records).
Proof using Type.
  revert s. induction records as [|x records IH]; intros s; simpl; [done|]. rewrite IH.
  by destruct (from_serializable now x).
Qed.

(** The records that come back are among the saved ones, each once. *)
Lemma restored_keys now now' l :
  map rec_key (omap (from_serializable now') (omap (to_serializable now) l)) `sublist_of` map rec_key l.
Proof using Type.
  induction l as [|r l IH]; simpl; [done|].
  destruct (to_serializable now r) as [x|] eqn:Hx; simpl; [|by constructor].
  destruct (from_serializable now' x) as [r'|] eqn:Hr; simpl; [|by constructor].
  apply bind_Some in Hx as (u & _ & [= <-]). apply bind_Some in Hr as (e & _ & [= <-]). by constructor.
Qed.

Lemma restored_sound now now' (l : list KadRecord) r' :
  now_system now - now_instant now = now_system now' - now_instant now' →
  r' ∈ omap (from_serializable now') (omap (to_serializable now) l) → ∃ r, r ∈ l ∧ same_record r r'.
Proof using Type.
  intros Hd (x & Hx & Hr)%list_elem_of_omap. apply list_elem_of_omap in Hx as (r & Hin & Hx).
  exists r. split; [done|by eapply serializable_roundtrip].
Qed.

Lemma dht_restart_lemma now now' (s : PersistentStore (ValidatedStore R) D) fresh max :
  now_system now - now_instant now = now_system now' - now_instant now' →
  all_valid s → ps_saving s = None →
  let saved := (try_save_to_persistent_storage now s).1 in
  (dps_save (ps_storage saved) (default [] (ps_saving saved))).2 = true →
  (∀ k, rs_get fresh k = None) → rs_max_records fresh = rs_max_records (vs_store (ps_store s)) →
  rs_max_value_bytes fresh = rs_max_value_bytes (vs_store (ps_store s)) →
  let s' := PersistentStore_new now' {| vs_store := fresh |} (ps_storage (save_finished None saved)) max in
  ∀ r', rs_get (ps_store s') (rec_key r') = Some r' ↔
    r' ∈ omap (from_serializable now') (omap (to_serializable now) (rs_records (ps_store s))).
Proof using All.
  intros Hd Hval Hsav saved Hok Hfresh Hmax Hmaxv s' r'. subst saved s'.
  unfold try_save_to_persistent_storage in *. rewrite Hsav in *. unfold save_finished.
  cbn [fst snd ps_storage ps_saving ps_store default] in Hok |- *.
  destruct (dps_save _ _) as [d ok] eqn:Hsave. simpl in Hok. subst ok. cbn [fst].
  unfold PersistentStore_new, restore_from_persistent_storage. simpl. rewrite (dps_load_saved _ _ _ Hsave). simpl.
  rewrite restore_fold. simpl. set (l := omap _ _).
  pose proof (restored_keys now now' (rs_records (vs_store (ps_store s)))) as Hsub. fold l in Hsub.
  pose proof (sublist_length _ _ Hsub) as Hlen. rewrite !length_map in Hlen.
  pose proof (rs_within (vs_store (ps_store s))).
  apply (put_all l {| vs_store := fresh |} []); simpl.
  - eapply sublist_NoDup; [apply rs_records_NoDup|done].
  - apply Forall_forall. intros r Hr. apply (restored_sound _ _ _ _ Hd) in Hr as (r0 & Hin & Hsame).
    apply (same_record_valid _ _ Hsame). apply rs_records_get in Hin. exact (Hval _ _ Hin).
  - intros r. rewrite Hfresh. split; [done|]. by intros ?%elem_of_nil.
  - rewrite Hmax. lia.
  - apply Forall_forall. intros r Hr. apply (restored_sound _ _ _ _ Hd) in Hr as (r0 & Hin & _ & Hv & _).
    rewrite Hmaxv, Hv. by apply rs_value_within.
Qed.
End Restore.

(** ** Properties *)

Section Properties.
Context {R D : Type} `{Rs : !RecordStore R} `{Rl : !RecordStoreLaws R} `{Ds : !DhtPersistentStorage D}.

Lemma stored_key (s : ValidatedStore R) k r : rs_get s k = Some r → rec_key r = k.
Proof using Rl. apply (rs_get_key (vs_store s)). Qed.
Lemma stored_records (s : ValidatedStore R) r : r ∈ rs_records s ↔ rs_get s (rec_key r) = Some r.
Proof using Rl. apply (rs_records_get (vs_store s)). Qed.

(** The owner of the key signed the key with the value. *)
Definition authentic (signed : PubKey → bytes → Prop) (key : bytes) (v : RecordValue) : Prop :=
  ∃ k, RecordKey_to_bytes k = key ∧
    (requires_authentication (rk_namespace k) = true →
     ∃ owner signature, v = Signed (RecordValue_value v) signature ∧ dk_from_bytes (rk_key k) = Some owner ∧
       signed owner (key ++ RecordValue_value v)).

Lemma record_valid_authentic `{Sl : !SignatureLaws Sg signed} r :
  record_valid r → ∃ v, rv_deserialize (rec_value r) = Some v ∧ authentic signed (rec_key r) v.
Proof using Type.
  intros (v & k & Hv & Hk & Hval). exists v. split; [done|]. exists k. split; [by eapply try_from_bytes_inv|].
  apply try_from_bytes_inv in Hk. intros Hauth. unfold RecordValue_validate in Hval. rewrite Hauth in Hval. simpl in Hval.
  destruct v as [value signature|]; [|done]. destruct (dk_from_bytes (rk_key k)) as [owner|]; [|done].
  exists owner, signature. split_and!; [done..|]. rewrite <- Hk. by eapply verify_unforgeable.
Qed.

(** A value that does not decode is reported as stored, and is not. *)
Lemma undecodable_put_succeeds (s : ValidatedStore R) r :
  rv_deserialize (rec_value r) = None → rs_put s r = (s, true).
Proof using Type. intros Hr. simpl. unfold validated_put. by rewrite Hr. Qed.

(** A save that fails resets the count of changes like one that succeeds, and the
    changes made while it ran are not counted either. *)
Lemma failed_save_resets_delta (s : PersistentStore (ValidatedStore R) D) timed_out :
  is_Some (ps_saving s) → ps_record_delta (save_finished timed_out s) = 0.
Proof using Type. intros [l Hl]. unfold save_finished. by rewrite Hl. Qed.

(** Whatever is put, removed, saved and restored from disk, every record the store
    holds decodes, and one in an authenticated namespace carries a signature of the key
    it is filed under, made by the owner of that key over the key and the value. *)
Theorem stored_records_are_signed `{Sl : !SignatureLaws Sg signed}
    (s : PersistentStore (ValidatedStore R) D) ops k r :
  (∀ k, rs_get (ps_store s) k = None) → Forall (op_ok ∘ snd) ops →
  rs_get (ps_store (store_run s ops)) k = Some r →
  ∃ v, rv_deserialize (rec_value r) = Some v ∧ authentic signed k v.
Proof using Rl.
  intros Hempty Hops Hget. assert (record_valid r) as Hr.
  { eapply store_run_valid; [done| |exact Hget]. intros k' r' H. by rewrite Hempty in H. }
  apply (record_valid_authentic (Sl := Sl)) in Hr as (v & Hv & Ha). exists v. split; [done|].
  by rewrite <- (stored_key _ _ _ Hget).
Qed.

(** A store that is saved and restored into an empty store of the same size holds
    exactly the records it held, with the same key, value and publisher and an expiry
    that moved by less than a second, leaving out those whose expiry cannot be
    converted. *)
Theorem dht_survives_restart `{Rb : !BoundedStore R} `{Dl : !StorageLaws D}
    (s0 : PersistentStore (ValidatedStore R) D) ops now now' fresh max :
  (∀ k, rs_get (ps_store s0) k = None) → Forall (op_ok ∘ snd) ops →
  let s := store_run s0 ops in
  now_system now - now_instant now = now_system now' - now_instant now' → ps_saving s = None →
  let saved := (try_save_to_persistent_storage now s).1 in
  (dps_save (ps_storage saved) (default [] (ps_saving saved))).2 = true →
  (∀ k, rs_get fresh k = None) → rs_max_records fresh = rs_max_records (vs_store (ps_store s)) →
  rs_max_value_bytes fresh = rs_max_value_bytes (vs_store (ps_store s)) →
  let s' := PersistentStore_new now' {| vs_store := fresh |} (ps_storage (save_finished None saved)) max in
  (∀ k r, rs_get (ps_store s) k = Some r → is_Some (to_serializable now r ≫= from_serializable now') →
     ∃ r', rs_get (ps_store s') k = Some r' ∧ same_record r r') ∧
  (∀ k r', rs_get (ps_store s') k = Some r' → ∃ r, rs_get (ps_store s) k = Some r ∧ same_record r r').
Proof using Rl.
  intros Hempty Hops s Hd Hsav saved Hok Hfresh Hmax Hmaxv s'.
  assert (all_valid s) as Hval by (apply store_run_valid; [done|]; intros k' r' H; by rewrite Hempty in H).
  pose proof (dht_restart_lemma now now' s fresh max Hd Hval Hsav Hok Hfresh Hmax Hmaxv) as Hall. fold saved s' in Hall.
  split.
  - intros k r Hr [r' Hconv]. exists r'. apply bind_Some in Hconv as (x & Hx & Hr').
    pose proof (serializable_roundtrip _ _ _ _ _ Hd Hx Hr') as Hsame. split; [|done].
    assert (rec_key r = k) as Hk by by eapply stored_key. destruct Hsame as (Hk' & _). rewrite <- Hk, <- Hk'. apply Hall.
    apply list_elem_of_omap. exists x. split; [|done]. apply list_elem_of_omap. exists r. split; [|done].
    apply stored_records. by rewrite Hk.
  - intros k r' Hr'. assert (rec_key r' = k) as <- by by eapply stored_key. apply Hall in Hr'.
    apply (restored_sound _ _ _ _ Hd) in Hr' as (r & Hin & Hsame). exists r. split; [|done].
    apply stored_records in Hin. by destruct Hsame as (-> & _).
Qed.
End Properties.
End Records.
Arguments vs_store {R}.
Arguments ps_store {R D}.
Arguments ps_storage {R D}.
Arguments ps_saving {R D}.
Arguments ps_max_record_delta {R D}.
Arguments ps_record_delta {R D}.

(** ** A store in memory, and an encoding *)

Module MemStore.
(** At most eight records, of fewer than 64 bytes. *)
Definition mem_ok (m : gmap bytes KadRecord) : Prop :=
  (size m <= 8)%nat ∧ map_Forall (fun k r => rec_key r = k ∧ (length (rec_value r) < 64)%nat) m.
#[global] Instance mem_ok_dec m : Decision (mem_ok m).
Proof. unfold mem_ok. apply _. Defined.

Record mem := { mm : gmap bytes KadRecord; mm_ok : bool_decide (mem_ok mm) = true }.

Definition mem_put (s : mem) (r : KadRecord) : mem * bool :=
  let m := <[rec_key r := r]> (mm s) in
  match Bool.bool_dec (bool_decide (mem_ok m)) true with
  | left H => ({| mm := m; mm_ok := H |}, true)
  | right _ => (s, false)
  end.

Lemma mem_ok_delete m k : mem_ok m → mem_ok (delete k m).
Proof.
  intros [Hs Hm]. split; [|by apply map_Forall_delete].
  transitivity (size m); [apply map_subseteq_size, delete_subseteq|done].
Qed.
Lemma mem_ok_empty : mem_ok ∅.
Proof. split; [rewrite map_size_empty; lia|apply map_Forall_empty]. Qed.
Definition empty : mem := {| mm := ∅; mm_ok := bool_decide_eq_true_2 _ mem_ok_empty |}.

#[global] Instance mem_store : RecordStore mem := {|
  rs_put := mem_put;
  rs_get s k := mm s !! k;
  rs_remove s k := {| mm := delete k (mm s);
    mm_ok := bool_decide_eq_true_2 _ (mem_ok_delete _ k (bool_decide_eq_true_1 _ (mm_ok s))) |};
  rs_records s := (map_to_list (mm s)).*2;
|}.

Lemma mem_key (s : mem) k r : mm s !! k = Some r → rec_key r = k ∧ (length (rec_value r) < 64)%nat.
Proof. destruct (bool_decide_eq_true_1 _ (mm_ok s)) as [_ H]. apply H. Qed.

Lemma mem_records_keys (s : mem) : map rec_key (map_to_list (mm s)).*2 = (map_to_list (mm s)).*1.
Proof.
  rewrite map_map. apply map_ext_in. intros [k r] Hin%list_elem_of_In%elem_of_map_to_list. by apply mem_key in Hin as [? _].
Qed.

#[global] Instance mem_store_laws : RecordStoreLaws mem.
Proof.
  split; simpl.
  - intros s r s' k. unfold mem_put. destruct (Bool.bool_dec _ _); [|done]. intros [= <-]. simpl.
    case_decide as Hk; [by rewrite Hk, lookup_insert_eq|by rewrite lookup_insert_ne by congruence].
  - intros s r s' k. unfold mem_put. destruct (Bool.bool_dec _ _); [done|]. by intros [= <-].
  - intros s k r Hr. by apply mem_key in Hr as [? _].
  - intros s k k'. case_decide as Hk; [by rewrite Hk, lookup_delete_eq|by rewrite lookup_delete_ne by congruence].
  - intros s r. rewrite list_elem_of_fmap. split.
    + intros ([k r'] & -> & Hin%elem_of_map_to_list). simpl. by destruct (mem_key _ _ _ Hin) as [-> _].
    + intros Hr. exists (rec_key r, r). split; [done|]. by apply elem_of_map_to_list.
  - intros s. rewrite mem_records_keys. apply NoDup_fst_map_to_list.
Qed.

#[global, refine] Instance mem_bounded : BoundedStore mem := {|
  rs_max_records _ := 8%nat;
  rs_max_value_bytes _ := 64%nat;
  rs_put_bounds _ _ := conj eq_refl eq_refl;
  rs_put_ok s r := _;
  rs_within s := _;
  rs_value_within s r := _;
|}.
Proof.
  - intros Hv Hl. simpl in *. unfold mem_put. destruct (Bool.bool_dec _ _) as [|Hno]; [done|]. destruct Hno.
    apply bool_decide_eq_true. destruct (bool_decide_eq_true_1 _ (mm_ok s)) as [_ Hm].
    rewrite length_fmap, length_map_to_list in Hl. split; [|by apply map_Forall_insert_2].
    destruct (mm s !! rec_key r) eqn:Hr; [rewrite map_size_insert_Some by eauto|rewrite map_size_insert_None by done]; lia.
  - simpl. rewrite length_fmap, length_map_to_list. apply (bool_decide_eq_true_1 _ (mm_ok s)).
  - simpl. intros ([k r'] & -> & Hin%elem_of_map_to_list)%list_elem_of_fmap. by apply mem_key in Hin as [_ ?].
Defined.

(** A storage that keeps what it is given. *)
#[global] Instance mem_storage : DhtPersistentStorage (list SerializableRecord) := {|
  dps_save _ l := (l, true);
  dps_load l := Some l;
|}.
#[global] Instance mem_storage_laws : StorageLaws (list SerializableRecord).
Proof. by intros d l d' [= <-]. Qed.

(** Values encoded as one number. *)
#[local] Existing Instance Ideal.open_signatures.
Definition value_pair (v : RecordValue) : bytes * option Sig :=
  match v with Signed value s => (value, Some s) | Unsigned value => (value, None) end.
Definition pair_value (p : bytes * option Sig) : RecordValue :=
  match p with (value, Some s) => Signed value s | (value, None) => Unsigned value end.
Definition sr_tuple (r : SerializableRecord) := (sr_key r, sr_value r, sr_publisher r, sr_expires_unix_secs r).
Definition tuple_sr (t : bytes * bytes * option Z * option Z) : SerializableRecord :=
  let '(k, v, p, e) := t in {| sr_key := k; sr_value := v; sr_publisher := p; sr_expires_unix_secs := e |}.
Definition number {A} `{Countable A} (x : A) : bytes := [Z.pos (encode x)].
Definition of_number {A} `{Countable A} (b : bytes) : option A :=
  match b with [Z.pos p] => decode p | _ => None end.
Lemma of_number_number {A} `{Countable A} (x : A) : of_number (number x) = Some x.
Proof. apply decode_encode. Qed.

#[global] Instance sig_countable : Countable (@Sig Ideal.open_signatures) := _ : Countable (list (Z * bytes)).
#[global] Instance codec : DhtCodec := {|
  cfg_test := false;
  dk_from_bytes b := match b with [k] => Some (k : PubKey) | _ => None end;
  dk_to_bytes (k : PubKey) := [k : Z];
  rv_serialize v := Some (number (value_pair v));
  rv_deserialize b := pair_value <$> of_number b;
  srs_serialize l := Some (number (map sr_tuple l));
  srs_deserialize b := map tuple_sr <$> of_number b;
|}.
#[global] Instance codec_laws : DhtCodecLaws.
Proof.
  split; simpl.
  - done.
  - intros v b [= <-]. rewrite of_number_number. by destruct v.
  - intros l b [= <-]. rewrite of_number_number. simpl. f_equal.
    induction l as [|[] l IH]; simpl; [done|by f_equal].
Qed.
End MemStore.

Module DsWitnesses.
Import MemStore.
#[local] Existing Instance Ideal.open_signatures.

(** Key seven publishes the value five. *)
Definition my_key : RecordKey := {| rk_namespace := NsLookup; rk_key := [7] |}.
Definition my_value : RecordValue := Signed [5] ([(7, [0; 7; 5])] : Sig).
Definition my_bytes : bytes := number (value_pair my_value).
Definition my_record : KadRecord :=
  {| rec_key := RecordKey_to_bytes my_key; rec_value := my_bytes; rec_publisher := None; rec_expires := Some (3 * nanos + 5) |}.
Definition noon : Now := {| now_instant := nanos; now_system := 1000 * nanos |}.
Definition later : Now := {| now_instant := 2 * nanos + 7; now_system := 1001 * nanos + 7 |}.

Definition start : PersistentStore (ValidatedStore mem) (list SerializableRecord) :=
  {| ps_store := {| vs_store := empty |}; ps_storage := []; ps_saving := None; ps_max_record_delta := 10; ps_record_delta := 0 |}.
(** The record is put; another one, that is not signed, is refused. *)
Definition ops : list (Now * StoreOp (R := mem) (D := list SerializableRecord)) :=
  [(noon, OpPut my_record);
   (noon, OpPut {| rec_key := [0; 8]; rec_value := number (value_pair (Unsigned [6])); rec_publisher := None; rec_expires := None |})].

Lemma ops_ok : Forall (op_ok ∘ snd) ops.
Proof. by repeat constructor. Qed.

Lemma stored_records_are_signed_witness :
  rs_get (ps_store (store_run start ops)) [0; 8] = None ∧
  ∃ v, rv_deserialize my_bytes = Some v ∧ authentic (fun k m => Ideal.all_sign k m = true) [0; 7] v.
Proof.
  split; [vm_compute; reflexivity|].
  apply (stored_records_are_signed (Sl := Ideal.open_laws) start ops [0; 7] my_record).
  - intros k. apply lookup_empty.
  - apply ops_ok.
  - vm_compute. reflexivity.
Defined.

Lemma dht_survives_restart_witness :
  ∃ r', rs_get (ps_store (PersistentStore_new later {| vs_store := empty |}
                 (ps_storage (save_finished None (try_save_to_persistent_storage noon (store_run start ops)).1)) 10)) [0; 7] = Some r' ∧
        same_record my_record r'.
Proof.
  destruct (dht_survives_restart start ops noon later empty 10) as [H _].
  - intros k. apply lookup_empty.
  - apply ops_ok.
  - reflexivity.
  - vm_compute. reflexivity.
  - vm_compute. reflexivity.
  - intros k. apply lookup_empty.
  - reflexivity.
  - reflexivity.
  - apply (H [0; 7] my_record); [vm_compute; reflexivity|]. vm_compute. eexists. reflexivity.
Defined.
End DsWitnesses.
