(* ===== verification/Dht.v ===== *)
(** * Queries to the DHT and direct messages

    [libp2p-networking/src/network/behaviours/dht/mod.rs], [dht/bootstrap.rs],
    [direct_message.rs], [exponential_backoff.rs], the request handler of
    [network/node.rs] and the calls of [node/handle.rs].

    Libp2p is outside: it hands out fresh query ids, keeps the record store of
    [DhtStore] ([kad_stamp] fills in the publisher and the expiry of a record it
    publishes), and reports events.  A channel to a client is a number; an input comes
    with the clock and the channels whose receiver is gone.  What a step does is the
    list of [Out]s it returns; a channel that a step drops is not in any of them, and
    its client sees the request as cancelled. *)

From S2P Require Import Prelude Crypto DhtStore.

(** ** Exponential backoff *)

(** [Duration]s in nanoseconds; [Duration::MAX] has [u64::MAX] seconds. *)
Definition duration_limit : Z := u64_modulus * nanos.
Definition duration_checked_mul (d k : Z) : option Z := if d * k <? duration_limit then Some (d * k) else None.

Record ExponentialBackoff := {
  reset_val : Z;
  backoff_factor : Z;
  eb_timeout : Z;
  eb_started : option Z;
}.

(** The product of durations panics on overflow. *)
Definition ExponentialBackoff_new (factor next_timeout : Z) : outcome Error ExponentialBackoff :=
  timeout ← unwrap (duration_checked_mul next_timeout factor);
  Ok {| reset_val := next_timeout; backoff_factor := factor; eb_timeout := timeout; eb_started := None |}.

Definition backoff_reset (b : ExponentialBackoff) : ExponentialBackoff :=
  {| reset_val := reset_val b; backoff_factor := backoff_factor b; eb_timeout := reset_val b; eb_started := eb_started b |}.

Definition start_next (now : Z) (b : ExponentialBackoff) (result : bool) : ExponentialBackoff :=
  {| reset_val := reset_val b; backoff_factor := backoff_factor b;
     eb_timeout := if result then reset_val b
                   else default (eb_timeout b) (duration_checked_mul (eb_timeout b) (backoff_factor b));
     eb_started := Some now |}.

Definition next_timeout (now : Z) (b : ExponentialBackoff) (result : bool) : Z * ExponentialBackoff :=
  (eb_timeout b, start_next now b result).

(** [elapsed] is zero for a time in the future. *)
Definition is_expired (now : Z) (b : ExponentialBackoff) : bool :=
  match eb_started b with
  | Some started => eb_timeout b <? Z.max 0 (now - started)
  | None => true
  end.

Definition expire (b : ExponentialBackoff) : ExponentialBackoff :=
  {| reset_val := reset_val b; backoff_factor := backoff_factor b; eb_timeout := eb_timeout b; eb_started := None |}.

Definition millis : Z := 10 ^ 6.
Definition ExponentialBackoff_default : ExponentialBackoff :=
  {| reset_val := 500 * millis; backoff_factor := 2; eb_timeout := 500 * millis; eb_started := None |}.

(** ** Requests, queries, events *)

Definition NUM_REPLICATED_TO_TRUST : Z := 2.
Definition MAX_DHT_QUERY_SIZE : Z := 50.

Inductive ClientRequest :=
  | BeginBootstrap
  | LookupPeer (pid : Z) (chan : nat)
  | PutDHT (key value : bytes) (notify : nat)
  | GetDHT (key : bytes) (notify : list nat) (retry_count : Z)
  | DirectRequest (pid : Z) (contents : bytes) (retry_count : Z)
  | DirectResponse (chan : nat) (msg : bytes)
  | Shutdown
  | GossipMsg (topic : string) (contents : bytes)
  | Subscribe (topic : string) (chan : option nat)
  | Unsubscribe (topic : string) (chan : option nat)
  | Prune (pid : Z)
  | AddKnownPeers (peers : list (Z * bytes))
  | IgnorePeers (peers : list Z)
  | GetConnectedPeerNum (chan : nat)
  | GetConnectedPeers (chan : nat)
  | GetRoutingTable (chan : nat).

Inductive DHTProgress := InProgress (id : nat) | NotStarted.

Record KadGetQuery := {
  gq_backoff : ExponentialBackoff;
  gq_progress : DHTProgress;
  gq_notify : list nat;
  gq_num_replicas : Z;
  gq_key : bytes;
  gq_retry_count : Z;
  gq_records : gmap bytes Z;
}.

Record KadPutQuery := {
  pq_backoff : ExponentialBackoff;
  pq_progress : DHTProgress;
  pq_notify : nat;
  pq_key : bytes;
  pq_value : bytes;
}.

Record DMRequest := {
  dm_peer_id : Z;
  dm_data : bytes;
  dm_backoff : ExponentialBackoff;
  dm_retry_count : Z;
}.

(** [GetRecordResult] *)
Inductive GetRecordResult := FoundRecord (r : KadRecord) | FinishedWithNoAdditionalRecord | GetRecordErr.

Inductive KademliaEvent :=
  | PutRecordProgressed (id : nat) (ok last : bool)
  | GetClosestPeersProgressed (id : nat) (ok last : bool)
  | GetRecordProgressed (id : nat) (result : GetRecordResult) (last : bool)
  | BootstrapProgressed (num_remaining : Z) (last : bool)
  | BootstrapFailed
  | OtherKademliaEvent.

(** [request_response::Event]; a channel for the response is a number. *)
Inductive DMMessageEvent :=
  | InboundFailure (peer : Z)
  | OutboundFailure (peer : Z) (request_id : nat)
  | MessageRequest (peer : Z) (request : bytes) (channel : nat)
  | MessageResponse (peer : Z) (request_id : nat) (response : bytes)
  | ResponseSent.

Inductive NetworkEvent :=
  | GossipMsgEvent (msg : bytes)
  | DirectRequestEvent (msg : bytes) (peer : Z) (channel : nat)
  | DirectResponseEvent (msg : bytes) (peer : Z)
  | IsBootstrapped
  | ConnectedPeersUpdate (num_peers : nat).

Inductive Out :=
  (** A value, or a bare signal, on the channel of a client. *)
  | ToClient (chan : nat) (value : bytes)
  | DoneClient (chan : nat)
  (** A task sleeps and then sends the request again. *)
  | Resend (delay : Z) (r : ClientRequest)
  | KadBootstrap
  | KadGetClosestPeers (id : nat) (pid : Z)
  | KadGetRecord (id : nat) (key : bytes)
  | KadPutRecord (id : nat) (r : KadRecord) (quorum : Z)
  | SendDirect (id : nat) (pid : Z) (contents : bytes)
  | SendDirectResponse (chan : nat) (msg : bytes)
  | BootstrapFinishedSignal
  | ToApplication (e : NetworkEvent)
  | CountToClient (chan : nat) (count : nat)
  | PeersToClient (chan : nat) (peers : gset Z)
  | PublishGossip (topic : string) (contents : bytes)
  | SubscribeGossip (topic : string)
  | UnsubscribeGossip (topic : string)
  | AddAddress (pid : Z) (address : bytes)
  | Disconnect (pid : Z)
  | PrintRoutingTable
  (** The listener is removed and the loop ends. *)
  | EndLoop.

(** ** The node *)

Record DHTBehaviour := {
  in_progress_get_closest_peers : gmap nat nat;
  in_progress_record_queries : gmap nat KadGetQuery;
  outstanding_dht_query_keys : gmap bytes nat;
  in_progress_put_record_queries : gmap nat KadPutQuery;
  replication_factor : Z;
  retry_tx : bool;
  bootstrap_tx : bool;
}.

(** [bootstrap_state] is never read. *)
Definition DHTBehaviour_new (factor : Z) : DHTBehaviour :=
  {| in_progress_get_closest_peers := ∅; in_progress_record_queries := ∅; outstanding_dht_query_keys := ∅;
     in_progress_put_record_queries := ∅; replication_factor := factor; retry_tx := false; bootstrap_tx := false |}.

Definition set_retry (d : DHTBehaviour) : DHTBehaviour :=
  {| in_progress_get_closest_peers := in_progress_get_closest_peers d;
     in_progress_record_queries := in_progress_record_queries d;
     outstanding_dht_query_keys := outstanding_dht_query_keys d;
     in_progress_put_record_queries := in_progress_put_record_queries d;
     replication_factor := replication_factor d; retry_tx := true; bootstrap_tx := bootstrap_tx d |}.
Definition set_bootstrap_sender (d : DHTBehaviour) : DHTBehaviour :=
  {| in_progress_get_closest_peers := in_progress_get_closest_peers d;
     in_progress_record_queries := in_progress_record_queries d;
     outstanding_dht_query_keys := outstanding_dht_query_keys d;
     in_progress_put_record_queries := in_progress_put_record_queries d;
     replication_factor := replication_factor d; retry_tx := retry_tx d; bootstrap_tx := true |}.
Definition set_gets (d : DHTBehaviour) (queries : gmap nat KadGetQuery) (keys : gmap bytes nat) : DHTBehaviour :=
  {| in_progress_get_closest_peers := in_progress_get_closest_peers d;
     in_progress_record_queries := queries; outstanding_dht_query_keys := keys;
     in_progress_put_record_queries := in_progress_put_record_queries d;
     replication_factor := replication_factor d; retry_tx := retry_tx d; bootstrap_tx := bootstrap_tx d |}.
Definition set_puts (d : DHTBehaviour) (puts : gmap nat KadPutQuery) : DHTBehaviour :=
  {| in_progress_get_closest_peers := in_progress_get_closest_peers d;
     in_progress_record_queries := in_progress_record_queries d;
     outstanding_dht_query_keys := outstanding_dht_query_keys d;
     in_progress_put_record_queries := puts;
     replication_factor := replication_factor d; retry_tx := retry_tx d; bootstrap_tx := bootstrap_tx d |}.
Definition set_closest (d : DHTBehaviour) (m : gmap nat nat) : DHTBehaviour :=
  {| in_progress_get_closest_peers := m;
     in_progress_record_queries := in_progress_record_queries d;
     outstanding_dht_query_keys := outstanding_dht_query_keys d;
     in_progress_put_record_queries := in_progress_put_record_queries d;
     replication_factor := replication_factor d; retry_tx := retry_tx d; bootstrap_tx := bootstrap_tx d |}.

Section Node.
Context `{Sg : SignatureScheme} `{Dc : !DhtCodec}.
Context {R D : Type} `{Rs : !RecordStore R} `{Ds : !DhtPersistentStorage D}.
Context (kad_stamp : KadRecord → KadRecord).

Abbreviation Store := (PersistentStore (ValidatedStore R) D).

Record NetworkNode := {
  node_peer_id : Z;
  dht_handler : DHTBehaviour;
  direct_message_state : gmap nat DMRequest;
  node_store : Store;
  resend_tx : bool;
  next_query : nat;
}.

(** The surroundings of a step. *)
Record Env := { env_now : Now; closed : gset nat; connected : gset Z }.

Definition NetworkNode_new (pid : Z) (store : Store) (factor : Z) : NetworkNode :=
  {| node_peer_id := pid; dht_handler := DHTBehaviour_new factor; direct_message_state := ∅; node_store := store; resend_tx := false;
     next_query := 0 |}.
(** The senders that [spawn_listeners] sets. *)
Definition spawn_listeners (n : NetworkNode) : NetworkNode :=
  {| node_peer_id := node_peer_id n; dht_handler := set_bootstrap_sender (dht_handler n); direct_message_state := direct_message_state n;
     node_store := node_store n; resend_tx := true; next_query := next_query n |}.

Definition with_dht (n : NetworkNode) (d : DHTBehaviour) : NetworkNode :=
  {| node_peer_id := node_peer_id n; dht_handler := d; direct_message_state := direct_message_state n; node_store := node_store n;
     resend_tx := resend_tx n; next_query := next_query n |}.
Definition with_dm (n : NetworkNode) (m : gmap nat DMRequest) : NetworkNode :=
  {| node_peer_id := node_peer_id n; dht_handler := dht_handler n; direct_message_state := m; node_store := node_store n;
     resend_tx := resend_tx n; next_query := next_query n |}.
Definition with_node_store (n : NetworkNode) (s : Store) : NetworkNode :=
  {| node_peer_id := node_peer_id n; dht_handler := dht_handler n; direct_message_state := direct_message_state n; node_store := s;
     resend_tx := resend_tx n; next_query := next_query n |}.
(** A fresh id from libp2p. *)
Definition fresh_query (n : NetworkNode) : NetworkNode * nat :=
  ({| node_peer_id := node_peer_id n; dht_handler := dht_handler n; direct_message_state := direct_message_state n; node_store := node_store n;
      resend_tx := resend_tx n; next_query := S (next_query n) |}, next_query n).

(** [chan.send] of a value to every channel that is still open. *)
Definition send_all (env : Env) (chans : list nat) (value : bytes) : list Out :=
  map (fun chan => ToClient chan value) (base.filter (fun chan => chan ∉ closed env) chans).
Definition send_done (env : Env) (chan : nat) : list Out :=
  if decide (chan ∈ closed env) then [] else [DoneClient chan].

(** ** Getting records *)

Definition get_record (env : Env) (n : NetworkNode) (key : bytes) (chans : list nat) (factor : Z)
    (backoff : ExponentialBackoff) (retry_count : Z) : NetworkNode * list Out :=
  if retry_count =? 0 then (n, [])
  else
    match rs_get (ps_store (node_store n)) key with
    | Some entry => (n, send_all env chans (rec_value entry))
    | None =>
        let d := dht_handler n in
        match outstanding_dht_query_keys d !! key with
        | Some qid =>
            match in_progress_record_queries d !! qid with
            | None => (n, [])
            | Some query =>
                let query := {| gq_backoff := gq_backoff query; gq_progress := gq_progress query;
                  gq_notify := gq_notify query ++ chans; gq_num_replicas := gq_num_replicas query;
                  gq_key := gq_key query; gq_retry_count := gq_retry_count query; gq_records := gq_records query |} in
                (with_dht n (set_gets d (<[qid := query]> (in_progress_record_queries d)) (outstanding_dht_query_keys d)), [])
            end
        | None =>
            let '(n, qid) := fresh_query n in
            let query := {| gq_backoff := backoff; gq_progress := InProgress qid; gq_notify := chans;
              gq_num_replicas := factor; gq_key := key; gq_retry_count := retry_count - 1; gq_records := ∅ |} in
            (with_dht n (set_gets d (<[qid := query]> (in_progress_record_queries d))
                           (<[key := qid]> (outstanding_dht_query_keys d))), [KadGetRecord qid key])
        end
    end.

Definition retry_get (env : Env) (d : DHTBehaviour) (query : KadGetQuery) : list Out :=
  if retry_tx d then
    [Resend (next_timeout (now_instant (env_now env)) (gq_backoff query) false).1
       (GetDHT (gq_key query) (gq_notify query) (gq_retry_count query))]
  else [].

Definition retry_put (env : Env) (d : DHTBehaviour) (query : KadPutQuery) : list Out :=
  if retry_tx d then
    [Resend (next_timeout (now_instant (env_now env)) (pq_backoff query) false).1
       (PutDHT (pq_key query) (pq_value query) (pq_notify query))]
  else [].

(** The end of a query: enough copies of a value, or no more results. *)
Definition finish_get_query (env : Env) (n : NetworkNode) (query : KadGetQuery) : NetworkNode * list Out :=
  let notify := base.filter (fun chan => chan ∉ closed env) (gq_notify query) in
  match notify with
  | [] => (n, [])
  | _ =>
      match list_find (fun kv => NUM_REPLICATED_TO_TRUST <= kv.2) (map_to_list (gq_records query)) with
      | Some (_, (r, _)) =>
          let record := {| rec_key := gq_key query; rec_value := r; rec_publisher := None; rec_expires := None |} in
          let '(store, ok) := persistent_put (env_now env) (node_store n) record in
          (with_node_store n store, if (ok : bool) then send_all env notify r else [])
      | None =>
          (n, if 0 <? gq_retry_count query then
                retry_get env (dht_handler n)
                  {| gq_backoff := gq_backoff query; gq_progress := NotStarted; gq_notify := notify;
                     gq_num_replicas := Z.max (gq_num_replicas query + 1) MAX_DHT_QUERY_SIZE;
                     gq_key := gq_key query; gq_retry_count := gq_retry_count query - 1; gq_records := ∅ |}
              else [])
      end
  end.

Definition handle_get_query (env : Env) (n : NetworkNode) (record_results : GetRecordResult) (id : nat) (last : bool)
    : NetworkNode * list Out :=
  let d := dht_handler n in
  match in_progress_record_queries d !! id with
  | None => (n, [])
  | Some query =>
      let '(query, num, last) :=
        match record_results with
        | FoundRecord r =>
            let num := default 0 (gq_records query !! rec_value r) + 1 in
            ({| gq_backoff := gq_backoff query; gq_progress := gq_progress query; gq_notify := gq_notify query;
                gq_num_replicas := gq_num_replicas query; gq_key := gq_key query;
                gq_retry_count := gq_retry_count query; gq_records := <[rec_value r := num]> (gq_records query) |}, num, last)
        | FinishedWithNoAdditionalRecord => (query, 0, true)
        | GetRecordErr => (query, 0, last)
        end in
      if (NUM_REPLICATED_TO_TRUST <=? num) || last then
        finish_get_query env
          (with_dht n (set_gets d (delete id (in_progress_record_queries d))
                         (delete (gq_key query) (outstanding_dht_query_keys d)))) query
      else (with_dht n (set_gets d (<[id := query]> (in_progress_record_queries d)) (outstanding_dht_query_keys d)), [])
  end.

(** ** Putting records *)

(** [put_record] of [node.rs]: the quorum is half of the replication factor, which must
    not be zero; libp2p stores the record itself first. *)
Definition put_record (env : Env) (n : NetworkNode) (query : KadPutQuery) : outcome Error (NetworkNode * list Out) :=
  let d := dht_handler n in
  let record := {| rec_key := pq_key query; rec_value := pq_value query; rec_publisher := None; rec_expires := None |} in
  quorum ← nonzero (replication_factor d / 2);
  let '(store, ok) := persistent_put (env_now env) (node_store n) (kad_stamp record) in
  let n := with_node_store n store in
  Ok (if (ok : bool) then
        let '(n, qid) := fresh_query n in
        let query := {| pq_backoff := pq_backoff query; pq_progress := InProgress qid; pq_notify := pq_notify query;
                        pq_key := pq_key query; pq_value := pq_value query |} in
        (with_dht n (set_puts d (<[qid := query]> (in_progress_put_record_queries d))), [KadPutRecord qid record quorum])
      else (n, [])).

Definition handle_put_query (env : Env) (n : NetworkNode) (ok : bool) (id : nat) : NetworkNode * list Out :=
  let d := dht_handler n in
  match in_progress_put_record_queries d !! id with
  | None => (n, [])
  | Some query =>
      let n := with_dht n (set_puts d (delete id (in_progress_put_record_queries d))) in
      if decide (pq_notify query ∈ closed env) then (n, [])
      else if ok then (n, send_done env (pq_notify query))
      else
        (n, retry_put env d {| pq_backoff := start_next (now_instant (env_now env)) (pq_backoff query) false;
               pq_progress := NotStarted; pq_notify := pq_notify query; pq_key := pq_key query; pq_value := pq_value query |})
  end.

(** ** Events *)

Definition finish_bootstrap (d : DHTBehaviour) : list Out := if bootstrap_tx d then [BootstrapFinishedSignal] else [].

Definition dht_handle_event (env : Env) (n : NetworkNode) (event : KademliaEvent) : NetworkNode * list Out :=
  let d := dht_handler n in
  match event with
  | PutRecordProgressed id ok last => if last then handle_put_query env n ok id else (n, [])
  | GetClosestPeersProgressed id _ true =>
      match in_progress_get_closest_peers d !! id with
      | Some chan => (with_dht n (set_closest d (delete id (in_progress_get_closest_peers d))), send_done env chan)
      | None => (n, [])
      end
  | GetRecordProgressed id result last => handle_get_query env n result id last
  | BootstrapProgressed num_remaining true =>
      (n, (if num_remaining =? 0 then finish_bootstrap d else []) ++ [ToApplication IsBootstrapped])
  | BootstrapFailed => (n, finish_bootstrap d)
  | _ => (n, [])
  end.

(** *** Direct messages *)

Definition add_direct_request (m : gmap nat DMRequest) (req : DMRequest) (request_id : nat) : gmap nat DMRequest :=
  if dm_retry_count req =? 0 then m
  else <[request_id := {| dm_peer_id := dm_peer_id req; dm_data := dm_data req; dm_backoff := dm_backoff req;
                          dm_retry_count := dm_retry_count req - 1 |}]> m.

Definition handle_dm_event (env : Env) (n : NetworkNode) (event : DMMessageEvent) : NetworkNode * list Out :=
  match event with
  | InboundFailure _ => (n, [])
  | OutboundFailure peer request_id =>
      match direct_message_state n !! request_id with
      | None => (n, [])
      | Some req =>
          let n := with_dm n (delete request_id (direct_message_state n)) in
          if dm_retry_count req =? 0 then (n, [])
          else (n, if resend_tx n then
                     [Resend (next_timeout (now_instant (env_now env)) (dm_backoff req) false).1
                        (DirectRequest peer (dm_data req) (dm_retry_count req - 1))]
                   else [])
      end
  | MessageRequest peer request channel => (n, [ToApplication (DirectRequestEvent request peer channel)])
  | MessageResponse _ request_id response =>
      match direct_message_state n !! request_id with
      | Some req =>
          (with_dm n (delete request_id (direct_message_state n)), [ToApplication (DirectResponseEvent response (dm_peer_id req))])
      | None => (n, [])
      end
  | ResponseSent => (n, [])
  end.

(** ** Requests *)

(** The peers are added in a random order; the order is not modelled. *)
Definition add_known_peers (n : NetworkNode) (known_peers : list (Z * bytes)) : list Out :=
  map (fun '(pid, address) => AddAddress pid address) (base.filter (fun p => p.1 ≠ node_peer_id n) known_peers).

Definition handle_client_requests (env : Env) (n : NetworkNode) (msg : ClientRequest) : outcome Error (NetworkNode * list Out) :=
  match msg with
  | BeginBootstrap => Ok (n, [KadBootstrap])
  | LookupPeer pid chan =>
      let '(n, id) := fresh_query n in
      let d := dht_handler n in
      Ok (with_dht n (set_closest d (<[id := chan]> (in_progress_get_closest_peers d))), [KadGetClosestPeers id pid])
  | PutDHT key value notify =>
      put_record env n {| pq_backoff := ExponentialBackoff_default; pq_progress := NotStarted; pq_notify := notify;
                          pq_key := key; pq_value := value |}
  | GetDHT key notify retry_count =>
      Ok (get_record env n key notify NUM_REPLICATED_TO_TRUST ExponentialBackoff_default retry_count)
  | DirectRequest pid contents retry_count =>
      let '(n, id) := fresh_query n in
      let req := {| dm_peer_id := pid; dm_data := contents; dm_backoff := ExponentialBackoff_default;
                    dm_retry_count := retry_count |} in
      Ok (with_dm n (add_direct_request (direct_message_state n) req id), [SendDirect id pid contents])
  | DirectResponse chan msg => Ok (n, [SendDirectResponse chan msg])
  | Shutdown => Ok (n, [EndLoop])
  | GossipMsg topic contents => Ok (n, [PublishGossip topic contents])
  | Subscribe topic chan => Ok (n, SubscribeGossip topic :: from_option (send_done env) [] chan)
  | Unsubscribe topic chan => Ok (n, UnsubscribeGossip topic :: from_option (send_done env) [] chan)
  | Prune pid => Ok (n, [Disconnect pid])
  | AddKnownPeers peers => Ok (n, add_known_peers n peers)
  | IgnorePeers _ => Ok (n, [])
  | GetConnectedPeerNum chan => Ok (n, if decide (chan ∈ closed env) then [] else [CountToClient chan (size (connected env))])
  | GetConnectedPeers chan => Ok (n, if decide (chan ∈ closed env) then [] else [PeersToClient chan (connected env)])
  | GetRoutingTable chan => Ok (n, PrintRoutingTable :: send_done env chan)
  end.

(** One input of the node: a request, an event of libp2p, or something libp2p does to
    the record store on behalf of peers. *)
Inductive NodeInput :=
  | InRequest (r : ClientRequest)
  | InDht (e : KademliaEvent)
  | InDm (e : DMMessageEvent)
  | InStore (o : StoreOp (R := R) (D := D)).

Definition node_step (env : Env) (n : NetworkNode) (i : NodeInput) : outcome Error (NetworkNode * list Out) :=
  match i with
  | InRequest r => handle_client_requests env n r
  | InDht e => Ok (dht_handle_event env n e)
  | InDm e => Ok (handle_dm_event env n e)
  | InStore o => Ok (with_node_store n (store_step (env_now env) (node_store n) o), [])
  end.

(** A run, with what each input led to. *)
Fixpoint node_run (n : NetworkNode) (inputs : list (Env * NodeInput)) : outcome Error (NetworkNode * list (NodeInput * list Out)) :=
  match inputs with
  | [] => Ok (n, [])
  | (env, i) :: inputs =>
      '(n, out) ← node_step env n i;
      '(n, trace) ← node_run n inputs;
      Ok (n, (i, out) :: trace)
  end.

(** ** Calls of a client: [node/handle.rs] *)

Inductive HandleResult (A : Type) := HOk (a : A) | RequestCancelled | FailedToDeserialize.
Arguments HOk {A}.
Arguments RequestCancelled {A}.
Arguments FailedToDeserialize {A}.

(** The request of [get_record], and what it makes of the answer; a dropped channel is
    [None]. *)
Definition handle_get_request (key : RecordKey) (retry_count : Z) (chan : nat) : ClientRequest :=
  GetDHT (RecordKey_to_bytes key) [chan] retry_count.
Definition handle_get_answer (answer : option bytes) : HandleResult bytes :=
  match answer with
  | None => RequestCancelled
  | Some result =>
      match rv_deserialize result with
      | None => FailedToDeserialize
      | Some record => HOk (RecordValue_value record)
      end
  end.

Definition handle_put_request (key : RecordKey) (value : RecordValue) (chan : nat) : option ClientRequest :=
  value ← rv_serialize value;
  Some (PutDHT (RecordKey_to_bytes key) value chan).

(** [direct_request_no_serialize] *)
Definition direct_request_no_serialize (pid : Z) (contents : bytes) : ClientRequest := DirectRequest pid contents 1.
(** ** What clients get *)

Section Answers.
Context `{Rl : !RecordStoreLaws R}.

(** A client asked for a key; the replies of peers to a query that have a value. *)
Definition asked (past : list NodeInput) (chan : nat) (key : bytes) : Prop :=
  ∃ notify retry_count, InRequest (GetDHT key notify retry_count) ∈ past ∧ chan ∈ notify.
Definition is_reply (id : nat) (value : bytes) (i : NodeInput) : bool :=
  match i with
  | InDht (GetRecordProgressed id' (FoundRecord r) _) => bool_decide (id' = id ∧ rec_value r = value)
  | _ => false
  end.
Definition replies (past : list NodeInput) (id : nat) (value : bytes) : Z :=
  Z.of_nat (length (base.filter (fun i => is_reply id value i = true) past)).

(** A value that, if it decodes, is valid under the key. *)
Definition good_value (key value : bytes) : Prop :=
  is_Some (rv_deserialize value) → ∃ r, rec_key r = key ∧ rec_value r = value ∧ record_valid r.

Definition query_ok (past : list NodeInput) (id : nat) (query : KadGetQuery) : Prop :=
  (∀ chan, chan ∈ gq_notify query → asked past chan (gq_key query)) ∧
  (∀ v c, gq_records query !! v = Some c → c < NUM_REPLICATED_TO_TRUST ∧ c <= replies past id v).

(** The two maps of queries are in step. *)
Definition queries_in_step (d : DHTBehaviour) (next : nat) : Prop :=
  (∀ id query, in_progress_record_queries d !! id = Some query →
     (id < next)%nat ∧ outstanding_dht_query_keys d !! gq_key query = Some id) ∧
  (∀ key id, outstanding_dht_query_keys d !! key = Some id →
     ∃ query, in_progress_record_queries d !! id = Some query ∧ gq_key query = key).

Definition node_ok (n : NetworkNode) (past : list NodeInput) : Prop :=
  all_valid (node_store n) ∧ queries_in_step (dht_handler n) (next_query n) ∧
  ∀ id query, in_progress_record_queries (dht_handler n) !! id = Some query → query_ok past id query.

(** What a step may tell a client. *)
Definition answer_ok (past : list NodeInput) (o : Out) : Prop :=
  match o with
  | ToClient chan value => ∃ key, asked past chan key ∧ good_value key value
  | _ => True
  end.

Lemma asked_app past l chan key : asked past chan key → asked (past ++ l) chan key.
Proof using Type. intros (notify & rc & ? & ?). exists notify, rc. split; [apply elem_of_app; by left|done]. Qed.

Lemma replies_snoc past i id v : replies (past ++ [i]) id v = replies past id v + if is_reply id v i then 1 else 0.
Proof using Type.
  unfold replies. rewrite filter_app, length_app. simpl. destruct (is_reply id v i) eqn:Hi.
  - rewrite filter_cons_True by done. simpl. lia.
  - rewrite filter_cons_False by congruence. simpl. lia.
Qed.

Lemma query_ok_snoc past i id query : query_ok past id query → query_ok (past ++ [i]) id query.
Proof using Type.
  intros [Ha Hr]. split; [intros chan Hc; by apply asked_app, Ha|]. intros v c Hv. apply Hr in Hv as [? ?].
  split; [done|]. rewrite replies_snoc. destruct (is_reply id v i); lia.
Qed.

Lemma node_ok_snoc n past i : node_ok n past → node_ok n (past ++ [i]).
Proof using Type. intros (? & ? & Hq). split_and!; [done..|]. intros id query Hid. by apply query_ok_snoc, Hq. Qed.

(** Steps that leave the queries alone. *)
Lemma node_ok_same n n' past :
  node_ok n past → in_progress_record_queries (dht_handler n') = in_progress_record_queries (dht_handler n) →
  outstanding_dht_query_keys (dht_handler n') = outstanding_dht_query_keys (dht_handler n) →
  (next_query n <= next_query n')%nat → all_valid (node_store n') → node_ok n' past.
Proof using Type.
  intros (Hv & [H1 H2] & Hq) Hp Ho Hn Hv'. split_and!; [done| |by rewrite Hp]. split; rewrite Hp, Ho; [|done].
  intros id query Hid. destruct (H1 _ _ Hid). split; [lia|done].
Qed.

Lemma elem_of_send_all env chans value o :
  o ∈ send_all env chans value → ∃ chan, o = ToClient chan value ∧ chan ∈ chans.
Proof using Type.
  unfold send_all. intros (chan & -> & Hc)%list_elem_of_fmap. apply list_elem_of_filter in Hc as [_ ?]. eauto.
Qed.

Lemma persistent_put_spec now (s : PersistentStore (ValidatedStore R) D) r s' ok :
  all_valid s → persistent_put now s r = (s', ok) →
  all_valid s' ∧ (ok = true → is_Some (rv_deserialize (rec_value r)) → record_valid r).
Proof using Rl Ds.
  intros Hs Hput. split.
  - pose proof (store_step_valid now s (OpPut r) I Hs) as H. simpl in H. by rewrite Hput in H.
  - unfold persistent_put in Hput. destruct (rs_put (ps_store s) r) as [store ok'] eqn:Hp. simpl in Hput.
    injection Hput as _ ->. intros -> [v Hv]. simpl in Hp. unfold validated_put in Hp. rewrite Hv in Hp.
    destruct (try_from_bytes cfg_test (rec_key r)) as [k|] eqn:Hk; [|done].
    destruct (RecordValue_validate v k) eqn:Hval; [|done]. by exists v, k.
Qed.

(** *** Getting a record *)

Lemma get_record_ok env n key chans factor backoff rc past n' out :
  node_ok n past → (∀ chan, chan ∈ chans → asked past chan key) →
  get_record env n key chans factor backoff rc = (n', out) →
  node_ok n' past ∧ Forall (answer_ok past) out.
Proof using Rl Ds.
  intros Hn Hask. unfold get_record. destruct (rc =? 0); [by intros [= <- <-]|].
  destruct (rs_get _ key) as [entry|] eqn:Hget.
  { intros [= <- <-]. split; [done|]. apply Forall_forall. intros o (chan & -> & Hc)%elem_of_send_all.
    exists key. split; [by apply Hask|]. intros _. exists entry. split_and!; [|done|].
    - by eapply (stored_key (ps_store (node_store n))).
    - by eapply Hn. }
  destruct Hn as (Hv & [H1 H2] & Hq). destruct (outstanding_dht_query_keys _ !! key) as [qid|] eqn:Ho.
  - destruct (H2 _ _ Ho) as (query & Hquery & Hkey). rewrite Hquery. intros [= <- <-]. split; [|done].
    split_and!; [done| |].
    + split; simpl; [|intros k id Hk; destruct (H2 _ _ Hk) as (q & Hid & ?)].
      * intros id q [[<- <-]|[_ Hid]]%lookup_insert_Some; [exact (H1 _ _ Hquery)|by apply H1].
      * destruct (decide (id = qid)) as [->|?]; [rewrite lookup_insert_eq|rewrite lookup_insert_ne by done; eauto].
        eexists. split; [done|]. simpl. congruence.
    + simpl. intros id q [[<- <-]|[_ Hid]]%lookup_insert_Some; [|by apply Hq].
      destruct (Hq _ _ Hquery) as [Ha Hr]. split; [|done]. simpl.
      intros chan [?|?]%elem_of_app; [by apply Ha|]. rewrite Hkey. by apply Hask.
  - intros [= <- <-]. split; [|by repeat constructor]. split_and!; [done| |].
    + split; simpl.
      * intros id q [[<- <-]|[Hne Hid]]%lookup_insert_Some; simpl; [rewrite lookup_insert_eq; by auto|].
        destruct (H1 _ _ Hid) as [? Hk]. split; [lia|]. rewrite lookup_insert_ne; [done|congruence].
      * intros k id [[<- <-]|[Hne Hid]]%lookup_insert_Some; [rewrite lookup_insert_eq; by eauto|].
        destruct (H2 _ _ Hid) as (q & Hqid & ?). exists q. split; [|done].
        rewrite lookup_insert_ne; [done|]. intros <-. apply H1 in Hqid as [? _]. lia.
    + simpl. intros id q [[<- <-]|[_ Hid]]%lookup_insert_Some; [|by apply Hq]. split; simpl; [done|].
      intros v c Hc. by rewrite lookup_empty in Hc.
Qed.

(** *** Results of queries *)

Lemma finish_get_query_ok env n query past id n' out :
  node_ok n past → (∀ chan, chan ∈ gq_notify query → asked past chan (gq_key query)) →
  (∀ v c, gq_records query !! v = Some c → c <= replies past id v) →
  finish_get_query env n query = (n', out) →
  node_ok n' past ∧ Forall (answer_ok past) out ∧
  ∀ chan value, ToClient chan value ∈ out → NUM_REPLICATED_TO_TRUST <= replies past id value.
Proof using Rl Ds.
  intros Hn Hask Hrec. unfold finish_get_query. set (notify := base.filter _ _).
  assert (∀ chan, chan ∈ notify → asked past chan (gq_key query)) as Hask'.
  { intros chan [_ ?]%list_elem_of_filter. by apply Hask. }
  destruct notify as [|c0 rest] eqn:Hnot.
  { intros [= <- <-]. split_and!; [done..|]. by intros ? ? ?%elem_of_nil. }
  rewrite <- Hnot in *. clear Hnot c0 rest.
  destruct (list_find _ _) as [[i [r num]]|] eqn:Hfind.
  - destruct (persistent_put _ _ _) as [store ok] eqn:Hput. intros [= <- <-].
    apply (persistent_put_spec _ _ _ _ _ (proj1 Hn)) in Hput as [Hstore Hval].
    apply list_find_Some in Hfind as (Hi & Hnum & _). simpl in Hnum.
    apply list_elem_of_lookup_2, elem_of_map_to_list, Hrec in Hi.
    split; [by eapply node_ok_same|]. destruct ok; [|split; [done|]; by intros ? ? ?%elem_of_nil]. split.
    + apply Forall_forall. intros o (chan & -> & Hc)%elem_of_send_all. exists (gq_key query). split; [by apply Hask'|].
      intros Hsome. eexists. split_and!; [| |by apply Hval]; done.
    + intros chan value (chan' & [= -> ->] & _)%elem_of_send_all. lia.
  - intros [= <- <-]. split; [done|]. unfold retry_get.
    destruct (0 <? gq_retry_count query), (retry_tx (dht_handler n)); simpl; split;
      try (by repeat constructor); intros chan value; rewrite ?list_elem_of_singleton, ?elem_of_nil; done.
Qed.

Lemma handle_get_query_ok env n result id last past n' out :
  node_ok n past → handle_get_query env n result id last = (n', out) →
  let past' := past ++ [InDht (GetRecordProgressed id result last)] in
  node_ok n' past' ∧ Forall (answer_ok past') out ∧
  ∀ chan value, ToClient chan value ∈ out → NUM_REPLICATED_TO_TRUST <= replies past' id value.
Proof using Rl Ds.
  intros Hn Hget past'. assert (node_ok n past') as (Hv & [H1 H2] & Hq) by by apply node_ok_snoc.
  unfold handle_get_query in Hget. destruct (in_progress_record_queries _ !! id) as [query|] eqn:Hid.
  2:{ injection Hget as <- <-. split_and!; [done..|]. by intros ? ? ?%elem_of_nil. }
  destruct (Hq _ _ Hid) as [Hask Hrec]. destruct (proj2 (proj2 Hn) _ _ Hid) as [_ Hrec0].
  set (counted := match result with FoundRecord _ => _ | _ => _ end) in Hget.
  assert (let '(q, num, _) := counted in
    gq_key q = gq_key query ∧ gq_notify q = gq_notify query ∧
    ∀ v c, gq_records q !! v = Some c → (c < NUM_REPLICATED_TO_TRUST ∨ c = num) ∧ c <= replies past' id v) as Hcount.
  { subst counted. destruct result as [r| |]; split_and!; try done; [|intros v c Hc; destruct (Hrec _ _ Hc); by auto..].
    simpl. intros v c [[<- <-]|[_ Hc]]%lookup_insert_Some; [|destruct (Hrec _ _ Hc); by auto].
    split; [by right|]. subst past'. rewrite replies_snoc. simpl. rewrite bool_decide_eq_true_2 by done.
    destruct (gq_records query !! rec_value r) as [c|] eqn:Hc; simpl; [apply Hrec0 in Hc; lia|].
    unfold replies. lia. }
  destruct counted as [[q num] last']. destruct Hcount as (Hk & Hnt & Hc).
  destruct ((NUM_REPLICATED_TO_TRUST <=? num) || last') eqn:Hdone.
  - eapply finish_get_query_ok; [| | |exact Hget]; [|by rewrite Hk, Hnt|intros v c Hvc; destruct (Hc v c Hvc); done]. split_and!; [done| |].
    + split; simpl.
      * intros id' q' [Hne Hid']%lookup_delete_Some. destruct (H1 _ _ Hid') as [? Ho]. split; [done|].
        rewrite lookup_delete_ne; [done|]. rewrite Hk. intros Heq. destruct (H1 _ _ Hid) as [_ Ho']. congruence.
      * intros k id' [Hne Ho]%lookup_delete_Some. destruct (H2 _ _ Ho) as (q' & Hq' & ?). exists q'.
        rewrite lookup_delete_ne; [done|]. intros ->. congruence.
    + simpl. intros id' q' [_ ?]%lookup_delete_Some. by apply Hq.
  - injection Hget as <- <-. apply orb_false_iff in Hdone as [Hnum _]. apply Z.leb_gt in Hnum.
    split_and!; [|done|by intros ? ? ?%elem_of_nil]. split_and!; [done| |].
    + split; simpl.
      * intros id' q' [[<- <-]|[_ ?]]%lookup_insert_Some; [rewrite Hk; by apply H1|by apply H1].
      * intros k id' Ho. destruct (H2 _ _ Ho) as (q' & Hq' & ?). destruct (decide (id' = id)) as [->|?].
        -- rewrite lookup_insert_eq. exists q. split; [done|]. congruence.
        -- rewrite lookup_insert_ne by done. eauto.
    + simpl. intros id' q' [[<- <-]|[_ ?]]%lookup_insert_Some; [|by apply Hq]. split; [by rewrite Hk, Hnt|].
      intros v c Hvc. destruct (Hc v c Hvc) as [[?| ->] ?]; done.
Qed.

(** *** Any input *)

Definition input_ok (i : NodeInput) : Prop := match i with InStore o => op_ok o | _ => True end.

(** A value comes from a query with enough replies, unless it was in the store. *)
Definition replicated (past : list NodeInput) (i : NodeInput) (o : Out) : Prop :=
  match o with
  | ToClient _ value =>
      (∃ key notify retry_count, i = InRequest (GetDHT key notify retry_count)) ∨
      ∃ id, NUM_REPLICATED_TO_TRUST <= replies past id value
  | _ => True
  end.

(** Steps that tell no client a value. *)
Lemma quiet_step n' past (i : NodeInput) out :
  node_ok n' past → Forall (fun o => match o with ToClient _ _ => False | _ => True end) out →
  node_ok n' past ∧ Forall (answer_ok past) out ∧ Forall (replicated past i) out.
Proof using Type.
  intros Hn Hout. split; [done|]. split; (eapply Forall_impl; [exact Hout|]); by intros [].
Qed.

Lemma send_done_quiet env chan : Forall (fun o => match o with ToClient _ _ => False | _ => True end) (send_done env chan).
Proof using Type. unfold send_done. case_decide; by repeat constructor. Qed.

Lemma handle_client_requests_ok env n r past n' out :
  node_ok n (past ++ [InRequest r]) → handle_client_requests env n r = Ok (n', out) →
  node_ok n' (past ++ [InRequest r]) ∧ Forall (answer_ok (past ++ [InRequest r])) out ∧
  Forall (replicated (past ++ [InRequest r]) (InRequest r)) out.
Proof using Rl Ds.
  intros Hn. destruct r as [|pid chan|key value notify|key notify rc|pid contents rc|chan msg| |topic contents|topic chan
    |topic chan|pid|peers|peers|chan|chan|chan]; simpl; try by (intros [= <- <-]; apply quiet_step; [done|repeat constructor]).
  - intros [= <- <-]. apply quiet_step; [|by repeat constructor].
    eapply node_ok_same; [exact Hn|done..|simpl; lia|apply Hn].
  - unfold put_record, nonzero. destruct (_ / 2 =? 0); [done|]. do 2 mon.
    destruct (persistent_put _ _ _) as [store ok] eqn:Hput.
    destruct (persistent_put_spec _ _ _ _ _ (proj1 Hn) Hput) as [Hstore _].
    destruct ok; intros [= <- <-]; apply quiet_step; try (by repeat constructor);
      (eapply node_ok_same; [exact Hn|done..|simpl; lia|done]).
  - intros [= Hg]. eapply get_record_ok in Hg as [? ?]; [|exact Hn|].
    2:{ intros chan Hc. exists notify, rc. split; [apply elem_of_app; right; by left|done]. }
    split_and!; [done..|].
    apply Forall_forall. intros [] _; simpl; eauto.
  - intros [= <- <-]. apply quiet_step; [|by repeat constructor].
    eapply node_ok_same; [exact Hn|done..|simpl; lia|apply Hn].
  - intros [= <- <-]. apply quiet_step; [done|]. constructor; [done|]. destruct chan; [apply send_done_quiet|done].
  - intros [= <- <-]. apply quiet_step; [done|]. constructor; [done|]. destruct chan; [apply send_done_quiet|done].
  - intros [= <- <-]. apply quiet_step; [done|]. unfold add_known_peers. apply Forall_forall.
    by intros o ([] & -> & _)%list_elem_of_fmap.
  - intros [= <- <-]. apply quiet_step; [done|]. case_decide; by repeat constructor.
  - intros [= <- <-]. apply quiet_step; [done|]. case_decide; by repeat constructor.
  - intros [= <- <-]. apply quiet_step; [done|]. constructor; [done|apply send_done_quiet].
Qed.

Lemma dht_handle_event_ok env n e past n' out :
  node_ok n past → dht_handle_event env n e = (n', out) →
  node_ok n' (past ++ [InDht e]) ∧ Forall (answer_ok (past ++ [InDht e])) out ∧
  Forall (replicated (past ++ [InDht e]) (InDht e)) out.
Proof using Rl Ds.
  intros Hn0. assert (node_ok n (past ++ [InDht e])) as Hn by by apply node_ok_snoc.
  destruct e as [id ok last|id ok last|id result last|num last| |]; simpl.
  - destruct last; [|intros [= <- <-]; by apply quiet_step]. unfold handle_put_query.
    destruct (in_progress_put_record_queries _ !! id) as [q|]; [|intros [= <- <-]; by apply quiet_step].
    case_decide; [|destruct ok]; intros [= <- <-]; (apply quiet_step; [by eapply node_ok_same; [exact Hn|done..|apply Hn]|]).
    + done.
    + apply send_done_quiet.
    + unfold retry_put. case_match; by repeat constructor.
  - destruct last; [|intros [= <- <-]; by apply quiet_step].
    case_match; intros [= <- <-]; apply quiet_step; try done. apply send_done_quiet.
  - intros Hg. destruct (handle_get_query_ok _ _ _ _ _ _ _ _ Hn0 Hg) as (? & ? & Hr). split_and!; [done..|].
    apply Forall_forall. intros [] Ho; simpl; try done. right. eauto.
  - destruct last; [|intros [= <- <-]; by apply quiet_step]. intros [= <- <-]. apply quiet_step; [done|].
    unfold finish_bootstrap. repeat case_match; by repeat constructor.
  - intros [= <- <-]. apply quiet_step; [done|]. unfold finish_bootstrap. case_match; by repeat constructor.
  - intros [= <- <-]. by apply quiet_step.
Qed.

Lemma node_step_ok env n i past n' out :
  node_ok n past → input_ok i → node_step env n i = Ok (n', out) →
  node_ok n' (past ++ [i]) ∧ Forall (answer_ok (past ++ [i])) out ∧ Forall (replicated (past ++ [i]) i) out.
Proof using Rl Ds.
  intros Hn0 Hi. assert (node_ok n (past ++ [i])) as Hn by by apply node_ok_snoc.
  destruct i as [r|e|e|o]; cbn [node_step].
  - by apply handle_client_requests_ok.
  - intros He%Ok_inj. by eapply dht_handle_event_ok.
  - intros He%Ok_inj. revert He. destruct e; simpl; repeat case_match; intros [= <- <-]; apply quiet_step; try done;
      try (eapply node_ok_same; [exact Hn|done..|apply Hn]); by repeat constructor.
  - intros [= <- <-]%Ok_inj. apply quiet_step; [|done]. eapply node_ok_same; [exact Hn|done..|].
    apply store_step_valid; [done|apply Hn].
Qed.

Lemma replies_app past l id v : replies past id v <= replies (past ++ l) id v.
Proof using Type. unfold replies. rewrite filter_app, length_app. lia. Qed.

Lemma answer_ok_app past l o : answer_ok past o → answer_ok (past ++ l) o.
Proof using Type. destruct o; simpl; try done. intros (key & ? & ?). exists key. split; [by apply asked_app|done]. Qed.

Lemma replicated_app past l i o : replicated past i o → replicated (past ++ l) i o.
Proof using Type.
  destruct o as [chan value| | | | | | | | | | | | | | | | | | |]; simpl; try done. intros [?|[id ?]]; [by left|right].
  exists id. pose proof (replies_app past l id value). lia.
Qed.

Lemma node_run_ok inputs n past n' trace :
  node_ok n past → Forall (input_ok ∘ snd) inputs → node_run n inputs = Ok (n', trace) →
  node_ok n' (past ++ map snd inputs) ∧
  ∀ i out o, (i, out) ∈ trace → o ∈ out →
    answer_ok (past ++ map snd inputs) o ∧ replicated (past ++ map snd inputs) i o.
Proof using Rl Ds.
  revert n past trace. induction inputs as [|[env i] inputs IH]; intros n past trace Hn Hin.
  { intros [= <- <-]. rewrite app_nil_r. split; [done|]. by intros ? ? ? ?%elem_of_nil. }
  apply Forall_cons in Hin as [Hi Hin]. cbn [node_run]. intros ([n1 out1] & Hs & Hr)%bind_ok_inv.
  apply bind_ok_inv in Hr as ([n2 trace2] & Hr & Heq). apply Ok_inj in Heq. injection Heq as <- <-.
  destruct (node_step_ok _ _ _ _ _ _ Hn Hi Hs) as (Hn1 & Ha & Hrep).
  destruct (IH _ _ _ Hn1 Hin Hr) as [Hn2 Htr].
  simpl. replace (past ++ i :: map snd inputs) with ((past ++ [i]) ++ map snd inputs) by by rewrite <- app_assoc.
  split; [done|]. intros i' out' o [[= -> ->]|Hin']%elem_of_cons Ho; [|by eapply Htr].
  rewrite Forall_forall in Ha, Hrep. split; [by apply answer_ok_app, Ha|by apply replicated_app, Hrep].
Qed.

Lemma node_start_ok pid (store : Store) factor :
  (∀ k, rs_get (ps_store store) k = None) → node_ok (spawn_listeners (NetworkNode_new pid store factor)) [].
Proof using Type.
  intros Hempty. split_and!.
  - intros k r Hr. by rewrite Hempty in Hr.
  - split; simpl; intros ? ?; by rewrite lookup_empty.
  - simpl. intros ? ?. by rewrite lookup_empty.
Qed.

Lemma RecordKey_to_bytes_inj k k' : RecordKey_to_bytes k = RecordKey_to_bytes k' → k = k'.
Proof using Type.
  destruct k as [ns b], k' as [ns' b']. unfold RecordKey_to_bytes. simpl. intros [= Hns ->]. f_equal.
  by destruct ns, ns'.
Qed.

(** When a client of the DHT looks up a key and gets a value, the owner of the key
    signed the key with that value, whatever peers reply and put into the store; and
    unless the node had the record already, two replies to one query agreed on it. *)
Theorem lookups_are_authentic `{Sl : !SignatureLaws Sg signed} pid (store : Store) factor inputs n trace key chan i out b value :
  (∀ k, rs_get (ps_store store) k = None) → Forall (input_ok ∘ snd) inputs →
  node_run (spawn_listeners (NetworkNode_new pid store factor)) inputs = Ok (n, trace) →
  (∀ k notify rc, InRequest (GetDHT k notify rc) ∈ map snd inputs → chan ∈ notify → k = RecordKey_to_bytes key) →
  (i, out) ∈ trace → ToClient chan b ∈ out → handle_get_answer (Some b) = HOk value →
  requires_authentication (rk_namespace key) = true →
  (∃ owner, dk_from_bytes (rk_key key) = Some owner ∧ signed owner (RecordKey_to_bytes key ++ value)) ∧
  ((∃ k notify rc, i = InRequest (GetDHT k notify rc)) ∨
   ∃ id, NUM_REPLICATED_TO_TRUST <= replies (map snd inputs) id b).
Proof using Rl Ds.
  intros Hempty Hin Hrun Hchan Hi Ho Hval Hauth.
  destruct (node_run_ok _ _ [] _ _ (node_start_ok pid store factor Hempty) Hin Hrun) as [_ Htr].
  destruct (Htr _ _ _ Hi Ho) as [(k & (notify & rc & Hask & Hc) & Hgood) Hrep]. split; [|exact Hrep].
  rewrite (Hchan _ _ _ Hask Hc) in Hgood. simpl in Hval.
  destruct (rv_deserialize b) as [v|] eqn:Hv; [|done]. injection Hval as <-.
  destruct Hgood as (r & Hk & Hb & Hr); [by rewrite Hv|].
  apply (record_valid_authentic (Sl := Sl)) in Hr as (v' & Hv' & k' & Hk' & Ha). rewrite Hb, Hv in Hv'. injection Hv' as <-.
  rewrite Hk in *. apply RecordKey_to_bytes_inj in Hk' as ->.
  destruct (Ha Hauth) as (owner & sig & _ & Hown & Hs). by exists owner.
Qed.
End Answers.

(** ** Retries *)

(** The requests that clients make: direct messages with one retry. *)
Definition client_made (i : NodeInput) : Prop :=
  match i with InRequest (DirectRequest pid contents rc) => DirectRequest pid contents rc = direct_request_no_serialize pid contents | _ => True end.

Definition no_resend (o : Out) : Prop := match o with Resend _ _ => False | _ => True end.

Definition never_resends (n : NetworkNode) : Prop :=
  retry_tx (dht_handler n) = false ∧ map_Forall (fun _ r => dm_retry_count r = 0) (direct_message_state n).

Lemma send_all_no_resend env chans value : Forall no_resend (send_all env chans value).
Proof using Type. apply Forall_forall. by intros o (chan & -> & _)%elem_of_send_all. Qed.
Lemma send_done_no_resend env chan : Forall no_resend (send_done env chan).
Proof using Type. unfold send_done. case_decide; by repeat constructor. Qed.

Lemma get_record_never env n key chans factor backoff rc n' out :
  never_resends n → get_record env n key chans factor backoff rc = (n', out) → never_resends n' ∧ Forall no_resend out.
Proof using Type.
  intros Hn. unfold get_record, fresh_query. repeat case_match; intros; simplify_eq/=; split; try done;
    first [exact Hn|apply send_all_no_resend|by repeat constructor].
Qed.

Lemma handle_get_query_never env n result id last n' out :
  never_resends n → handle_get_query env n result id last = (n', out) → never_resends n' ∧ Forall no_resend out.
Proof using Type.
  intros [Hn Hdm]. unfold handle_get_query. destruct (in_progress_record_queries _ !! id) as [query|]; [|by intros [= <- <-]].
  destruct (match result with FoundRecord _ => _ | _ => _ end) as [[q num] last'].
  destruct (_ || last'); [|by intros [= <- <-]]. unfold finish_get_query, retry_get. simpl. rewrite Hn.
  destruct (base.filter _ _) as [|c l]; [by intros [= <- <-]|]. destruct (list_find _ _) as [[? [r ?]]|].
  - destruct (persistent_put _ _ _) as [store ok]. intros [= <- <-]. split; [done|].
    destruct ok; [apply send_all_no_resend|done].
  - intros [= <- <-]. split; [done|]. by case_match.
Qed.

Lemma node_step_never env n i n' out :
  never_resends n → client_made i → node_step env n i = Ok (n', out) → never_resends n' ∧ Forall no_resend out.
Proof using Type.
  intros Hn Hi. destruct i as [r|e|e|o]; cbn [node_step].
  - destruct r as [|pid chan|key value notify|key notify rc|pid contents rc|chan msg| |topic contents|topic chan
      |topic chan|pid|peers|peers|chan|chan|chan]; simpl; try by (intros [= <- <-]; (split; [exact Hn|by repeat constructor])).
    + unfold put_record, nonzero. destruct (_ / 2 =? 0); [done|]. do 2 mon.
      destruct (persistent_put _ _ _) as [store []]; intros [= <- <-]; (split; [exact Hn|by repeat constructor]).
    + intros Hg%Ok_inj. by eapply get_record_never.
    + simpl in Hi. injection Hi as ->. intros [= <- <-]. split; [|by repeat constructor]. destruct Hn as [? Hdm].
      split; [done|]. simpl. unfold add_direct_request. simpl. by apply map_Forall_insert_2.
    + intros [= <- <-]. split; [done|]. constructor; [done|]. destruct chan; [apply send_done_no_resend|done].
    + intros [= <- <-]. split; [done|]. constructor; [done|]. destruct chan; [apply send_done_no_resend|done].
    + intros [= <- <-]. split; [done|]. unfold add_known_peers. apply Forall_forall.
      by intros o ([] & -> & _)%list_elem_of_fmap.
    + intros [= <- <-]. split; [done|]. case_decide; by repeat constructor.
    + intros [= <- <-]. split; [done|]. case_decide; by repeat constructor.
    + intros [= <- <-]. split; [done|]. constructor; [done|apply send_done_no_resend].
  - intros He%Ok_inj. destruct e as [id ok last|id ok last|id result last|num last| |]; simpl in He.
    + destruct last; [|by injection He as <- <-]. unfold handle_put_query, retry_put in He. destruct Hn as [Hr Hdm].
      rewrite Hr in He. repeat case_match; injection He as <- <-; split; try done. apply send_done_no_resend.
    + repeat case_match; injection He as <- <-; split; try done. apply send_done_no_resend.
    + by eapply handle_get_query_never.
    + unfold finish_bootstrap in He. repeat case_match; injection He as <- <-; (split; [exact Hn|by repeat constructor]).
    + unfold finish_bootstrap in He. repeat case_match; injection He as <- <-; (split; [exact Hn|by repeat constructor]).
    + by injection He as <- <-.
  - intros He%Ok_inj. destruct Hn as [Hr Hdm]. revert He. destruct e as [|peer id| |peer id resp|]; simpl; try by intros [= <- <-]; repeat constructor.
    + destruct (direct_message_state n !! id) as [req|] eqn:Hid; [|by intros [= <- <-]].
      rewrite (Hdm _ _ Hid). intros [= <- <-]. split; [|done]. split; [done|]. simpl. by apply map_Forall_delete.
    + destruct (direct_message_state n !! id) as [req|]; intros [= <- <-]; [|by repeat constructor].
      split; [|by repeat constructor]. split; [done|]. simpl. by apply map_Forall_delete.
  - intros [= <- <-]%Ok_inj. by split.
Qed.

(** Nothing is ever sent again: the DHT handler of a running node has no channel for
    retries, and the one retry of a direct message is used up when it is sent first.
    So a get whose replies disagree, a put that fails and a message that is not
    delivered end there, in every run. *)
Theorem nothing_is_retried pid (store : Store) factor inputs n trace i out delay r :
  Forall (client_made ∘ snd) inputs →
  node_run (spawn_listeners (NetworkNode_new pid store factor)) inputs = Ok (n, trace) →
  (i, out) ∈ trace → Resend delay r ∉ out.
Proof using Type.
  intros Hin. assert (never_resends (spawn_listeners (NetworkNode_new pid store factor))) as Hn by (split; [done|apply map_Forall_empty]).
  revert Hn trace. generalize (spawn_listeners (NetworkNode_new pid store factor)).
  induction Hin as [|[env i'] inputs Hi Hin IH]; intros n0 Hn trace; cbn [node_run].
  { intros [= <- <-] H. by apply elem_of_nil in H. }
  intros ([n1 out1] & Hs & Hr)%bind_ok_inv. apply bind_ok_inv in Hr as ([n2 trace2] & Hr & Heq).
  apply Ok_inj in Heq. injection Heq as <- <-. destruct (node_step_never _ _ _ _ _ Hn Hi Hs) as [Hn1 Hout].
  intros [[= -> ->]|Ht]%elem_of_cons; [|by eapply IH]. intros Ho. rewrite Forall_forall in Hout. by apply Hout in Ho.
Qed.

(** ** Publishing *)

Section Publishing.
Context `{Rl : !RecordStoreLaws R} `{Rb : !BoundedStore R} `{Cl : !DhtCodecLaws}.

(** A signed record passes the validated store when there is room for it. *)
Lemma signed_record_stored `{Sl : !SignatureLaws Sg signed} now (s : Store) key value sk v b r :
  cfg_test || bool_decide (rk_namespace key = NsLookup) = true → rk_key key = dk_to_bytes (from_private sk) →
  new_signed key value sk = Some v → rv_serialize v = Some b →
  rec_key r = RecordKey_to_bytes key → rec_value r = b →
  (length b < rs_max_value_bytes (vs_store (ps_store s)))%nat →
  (length (rs_records (ps_store s)) < rs_max_records (vs_store (ps_store s)))%nat →
  ∃ s', persistent_put now s r = (s', true) ∧ rs_get (ps_store s') (RecordKey_to_bytes key) = Some r.
Proof using Rl Rb Cl.
  intros Hns Hown (sig & Hsig & [= <-])%bind_Some Hb Hk Hv Hlen Hroom.
  pose proof (rs_put_ok (vs_store (ps_store s)) r) as Hok. rewrite Hv in Hok. specialize (Hok Hlen Hroom).
  destruct (rs_put (vs_store (ps_store s)) r) as [store ok] eqn:Hput. simpl in Hok. subst ok.
  assert (rs_put (ps_store s) r = ({| vs_store := store |}, true)) as Hvp.
  { simpl. unfold validated_put. rewrite Hv, (rv_roundtrip _ _ Hb), Hk, key_bytes_roundtrip by done.
    assert (RecordValue_validate (Signed value sig) key = true) as ->; [|by rewrite Hput].
    unfold RecordValue_validate. case_match; [done|]. rewrite Hown, dk_roundtrip. by apply (sign_verify (SignatureLaws := Sl)). }
  unfold persistent_put. rewrite Hvp. eexists. split; [done|]. rewrite count_change_store. simpl.
  rewrite (rs_put_get _ _ _ _ Hput), <- Hk. by rewrite decide_True.
Qed.

(** A node that publishes a value it signed under its own key stores it, asks libp2p
    to replicate it, tells its client when that has succeeded, and answers a client
    that asks for the key with that value. *)
Theorem published_records_are_found `{Sl : !SignatureLaws Sg signed} env env' env'' (n : NetworkNode) key value sk v b chan chan' rc :
  (∀ r, rec_key (kad_stamp r) = rec_key r ∧ rec_value (kad_stamp r) = rec_value r) →
  cfg_test || bool_decide (rk_namespace key = NsLookup) = true → rk_key key = dk_to_bytes (from_private sk) →
  new_signed key value sk = Some v → rv_serialize v = Some b →
  (length b < rs_max_value_bytes (vs_store (ps_store (node_store n))))%nat →
  (length (rs_records (ps_store (node_store n))) < rs_max_records (vs_store (ps_store (node_store n))))%nat →
  2 <= replication_factor (dht_handler n) → chan ∉ closed env' → chan' ∉ closed env'' → rc ≠ 0 →
  ∃ req q n1 n2 r,
    handle_put_request key v chan = Some req ∧
    node_step env n (InRequest req) = Ok (n1, [KadPutRecord q r (replication_factor (dht_handler n) / 2)]) ∧
    node_step env' n1 (InDht (PutRecordProgressed q true true)) = Ok (n2, [DoneClient chan]) ∧
    node_step env'' n2 (InRequest (handle_get_request key rc chan')) = Ok (n2, [ToClient chan' b]) ∧
    handle_get_answer (Some b) = HOk value.
Proof using Rl Rb Cl.
  intros Hstamp Hns Hown Hsign Hb Hlen Hroom Hfac Hc Hc' Hrc.
  set (r := {| rec_key := RecordKey_to_bytes key; rec_value := b; rec_publisher := None; rec_expires := None |}).
  destruct (Hstamp r) as [Hk Hv].
  destruct (signed_record_stored (Sl := Sl) (env_now env) (node_store n) key value sk v b (kad_stamp r)) as (s' & Hput & Hget); try done.
  assert (RecordValue_value v = value) as Hval by (apply bind_Some in Hsign as (sig & _ & [= <-]); done).
  eexists _, (next_query n), _, _, r. split; [unfold handle_put_request; by rewrite Hb|]. split.
  { simpl. unfold put_record. fold r. unfold nonzero. simpl. assert (replication_factor (dht_handler n) / 2 ≠ 0) as Hq.
    { assert (1 <= replication_factor (dht_handler n) / 2) by (apply Z.div_le_lower_bound; lia). lia. }
    apply Z.eqb_neq in Hq. rewrite Hq. simpl. fold r. rewrite Hput. done. }
  split.
  { cbn [node_step dht_handle_event]. unfold handle_put_query. simpl. rewrite lookup_insert_eq. simpl.
    rewrite decide_False by done. unfold send_done. by rewrite decide_False. }
  split; [|simpl; by rewrite (rv_roundtrip _ _ Hb), Hval].
  simpl. unfold get_record. apply Z.eqb_neq in Hrc. rewrite Hrc. simpl. simpl in Hget. rewrite Hget.
  unfold send_all. rewrite filter_cons_True by done. simpl. by rewrite Hv.
Qed.
End Publishing.
End Node.
Arguments HOk {A}.
Arguments RequestCancelled {A}.
Arguments FailedToDeserialize {A}.

(** ** The bootstrap task *)

Inductive InputEvent := StartBootstrap | BootstrapFinished | ShutdownBootstrap.

(** What the task waits for: an event, the end of its channel, or, when no bootstrap is
    in progress, the timeout of two minutes. *)
Inductive BootstrapInput := BsEvent (e : InputEvent) | BsClosed | BsTimeout.
#[global] Instance InputEvent_eq_dec : EqDecision InputEvent.
Proof. solve_decision. Defined.
#[global] Instance BootstrapInput_eq_dec : EqDecision BootstrapInput.
Proof. solve_decision. Defined.

(** [run_loop], with the number of times it asks for a bootstrap; the timeout is not
    armed while one is in progress. *)
Fixpoint run_loop (in_progress : bool) (inputs : list BootstrapInput) : list ClientRequest :=
  match inputs with
  | [] => []
  | i :: inputs =>
      if in_progress then
        match i with
        | BsEvent BootstrapFinished => run_loop false inputs
        | BsEvent ShutdownBootstrap | BsClosed => []
        | BsEvent StartBootstrap | BsTimeout => run_loop true inputs
        end
      else
        match i with
        | BsEvent StartBootstrap | BsTimeout => BeginBootstrap :: run_loop true inputs
        | BsEvent ShutdownBootstrap | BsClosed => []
        | BsEvent BootstrapFinished => run_loop false inputs
        end
  end.

(** At most one bootstrap runs at a time: it is asked for again only after it finished. *)
Lemma bootstraps_are_separated in_progress inputs :
  (length (run_loop in_progress inputs) <=
   (if in_progress then 0 else 1) + length (base.filter (.= BsEvent BootstrapFinished) inputs))%nat.
Proof.
  revert in_progress. induction inputs as [|i inputs IH]; intros b; simpl; [lia|].
  pose proof (IH true). pose proof (IH false). rewrite filter_cons.
  destruct b, i as [[]| |]; repeat case_decide; simpl in *; try done; lia.
Qed.

(** ** Backoff *)

(** After [k] failures in a row the timeout has grown [k] times, as long as it fits. *)
Lemma backoff_grows now b k :
  0 < backoff_factor b → 0 <= eb_timeout b →
  eb_timeout b * backoff_factor b ^ Z.of_nat k < duration_limit →
  eb_timeout (Nat.iter k (fun b => start_next now b false) b) = eb_timeout b * backoff_factor b ^ Z.of_nat k.
Proof.
  intros Hf Ht. induction k as [|k IH]; intros Hlt; simpl; [lia|].
  rewrite Nat2Z.inj_succ, Z.pow_succ_r in Hlt |- * by lia.
  assert (0 <= backoff_factor b ^ Z.of_nat k) by (apply Z.pow_nonneg; lia).
  assert (backoff_factor (Nat.iter k (fun b => start_next now b false) b) = backoff_factor b) as ->
    by (clear; induction k; simpl; done).
  rewrite IH by nia. unfold duration_checked_mul.
  replace (eb_timeout b * backoff_factor b ^ Z.of_nat k * backoff_factor b)
    with (eb_timeout b * (backoff_factor b * backoff_factor b ^ Z.of_nat k)) by ring.
  apply Z.ltb_lt in Hlt. by rewrite Hlt.
Qed.

(** A success, or a reset, starts over. *)
Lemma backoff_resets now b : eb_timeout (start_next now b true) = reset_val b ∧ eb_timeout (backoff_reset b) = reset_val b.
Proof. done. Qed.

(** A backoff that has expired, or that was marked as expired, lets the next try go. *)
Lemma backoff_expires now b :
  is_expired now (expire b) = true ∧
  ∀ later, 0 <= eb_timeout b → eb_timeout (start_next now b true) < later - now → is_expired later (start_next now b true) = true.
Proof. split; [done|]. intros later Ht Hl. unfold is_expired. simpl in *. apply Z.ltb_lt. lia. Qed.

Module DhtWitnesses.
Import MemStore DsWitnesses.
#[local] Existing Instance Ideal.open_signatures.

Definition env : Env := {| env_now := noon; closed := ∅; connected := ∅ |}.
Definition node : NetworkNode := spawn_listeners (NetworkNode_new 0 start 4).
Definition asks : NodeInput (R := mem) (D := list SerializableRecord) := InRequest (handle_get_request my_key 3 1).
Abbreviation stamp := (fun r : KadRecord => r).

(** A client asks; two peers reply with the record. *)
Definition found : list (Env * NodeInput (R := mem) (D := list SerializableRecord)) :=
  [(env, asks); (env, InDht (GetRecordProgressed 0 (FoundRecord my_record) false));
   (env, InDht (GetRecordProgressed 0 (FoundRecord my_record) false))].
(** No peer has it. *)
Definition not_found : list (Env * NodeInput (R := mem) (D := list SerializableRecord)) :=
  [(env, asks); (env, InDht (GetRecordProgressed 0 FinishedWithNoAdditionalRecord true))].

(** A run is checked by its trace. *)
Lemma runs {A B} (x : outcome Error (A * B)) b : (match x with Ok (_, b) => Some b | _ => None end) = Some b → ∃ a, x = Ok (a, b).
Proof. destruct x as [[a b']| |]; [|done..]. intros [= ->]. by exists a. Qed.

Lemma lookups_are_authentic_witness :
  (∃ owner, dk_from_bytes [7] = Some owner ∧ Ideal.all_sign owner ([0; 7] ++ [5]) = true) ∧
  ((∃ k notify rc, InDht (GetRecordProgressed 0 (FoundRecord my_record) false) = InRequest (R := mem) (D := list SerializableRecord) (GetDHT k notify rc)) ∨
   ∃ id, NUM_REPLICATED_TO_TRUST <= replies (map snd found) id my_bytes).
Proof.
  destruct (runs (node_run stamp node found)
    [(asks, [KadGetRecord 0 [0; 7]]); (InDht (GetRecordProgressed 0 (FoundRecord my_record) false), []);
     (InDht (GetRecordProgressed 0 (FoundRecord my_record) false), [ToClient 1 my_bytes])]) as [n Hrun];
    [vm_compute; reflexivity|].
  refine (lookups_are_authentic stamp (Sl := Ideal.open_laws) 0 start 4 found n _ my_key 1
           (InDht (GetRecordProgressed 0 (FoundRecord my_record) false)) [ToClient 1 my_bytes] my_bytes [5] _ _ Hrun _ _ _ _ _).
  - intros k. apply lookup_empty.
  - repeat constructor.
  - intros k notify rc Hin _. unfold found in Hin. cbn [map snd] in Hin. apply elem_of_cons in Hin as [Hin|Hin]; [by injection Hin as -> _ _|].
    apply elem_of_cons in Hin as [Hin|Hin]; [discriminate Hin|].
    apply elem_of_cons in Hin as [Hin|Hin]; [discriminate Hin|].
    destruct (not_elem_of_nil _ Hin).
  - right. right. left.
  - left.
  - vm_compute. reflexivity.
  - reflexivity.
Defined.

Lemma nothing_is_retried_witness :
  ∃ n, node_run stamp node not_found = Ok (n, [(asks, [KadGetRecord 0 [0; 7]]);
         (InDht (GetRecordProgressed 0 FinishedWithNoAdditionalRecord true), [])]) ∧
       Resend (500 * millis) (GetDHT [0; 7] [1%nat] 1) ∉ ([] : list Out).
Proof.
  destruct (runs (node_run stamp node not_found) [(asks, [KadGetRecord 0 [0; 7]]);
         (InDht (GetRecordProgressed 0 FinishedWithNoAdditionalRecord true), [])]) as [n Hrun]; [vm_compute; reflexivity|].
  exists n. split; [exact Hrun|].
  refine (nothing_is_retried stamp 0 start 4 not_found n _ (InDht (GetRecordProgressed 0 FinishedWithNoAdditionalRecord true)) []
           (500 * millis) (GetDHT [0; 7] [1%nat] 1) _ Hrun _).
  - repeat constructor.
  - right. left.
Defined.

Lemma published_records_are_found_witness :
  ∃ req q n1 n2 r,
    handle_put_request my_key my_value 1 = Some req ∧
    node_step stamp env node (InRequest req) = Ok (n1, [KadPutRecord q r 2]) ∧
    node_step stamp env n1 (InDht (PutRecordProgressed q true true)) = Ok (n2, [DoneClient 1]) ∧
    node_step stamp env n2 (InRequest (handle_get_request my_key 3 2)) = Ok (n2, [ToClient 2 my_bytes]) ∧
    handle_get_answer (Some my_bytes) = HOk [5].
Proof.
  apply (published_records_are_found stamp (Sl := Ideal.open_laws) env env env node my_key [5] (7 : @PrivKey Ideal.open_signatures) my_value my_bytes 1 2 3).
  - done.
  - reflexivity.
  - reflexivity.
  - vm_compute. reflexivity.
  - reflexivity.
  - apply (Nat.ltb_lt (length my_bytes) 64). vm_compute. reflexivity.
  - apply (Nat.ltb_lt 0 8). vm_compute. reflexivity.
  - vm_compute. discriminate.
  - apply not_elem_of_empty.
  - apply not_elem_of_empty.
  - done.
Defined.
End DhtWitnesses.
