(* ===== verification/Libp2pNetwork.v ===== *)
(** * The libp2p network

    [hotshot/src/traits/networking/libp2p_network.rs], with the rest of the node it
    drives: the loop of [libp2p-networking/src/network/node.rs] and the calls of
    [node/handle.rs].

    The network keeps a queue of received messages and sends requests to the node, which
    runs in a task of its own.  One task joins the network, one moves events of the node
    into the queue, one looks up the leaders of views to come.  A direct message waits for
    the DHT to give the peer of its recipient.  [lp_perform] is one uninterrupted part of
    a call or a task; answers of the node are part of the actions.  The code is that of a
    build without the feature [hotshot-testing], which adds unreliable sending. *)

From S2P Require Import Prelude Crypto Epochs Committee Network CombinedNetwork DhtStore Dht.

(** ** Errors, without their text: [NetworkError] of [types/src/traits/network.rs] *)

Inductive NetworkError :=
  | Multiple (errors : list NetworkError)
  | ConfigError
  | MessageSendError
  | MessageReceiveError
  | Unimplemented
  | ListenError
  | ChannelSendError
  | ChannelReceiveError
  | ShutDown
  | FailedToSerialize
  | FailedToDeserialize
  | Timeout
  | RequestCancelled
  | NotReadyYet
  | LookupError.

(** ** The loop of the node *)

(** Events of the swarm; those the node does nothing about are one. *)
Inductive SwarmEvent :=
  | ConnectionEstablished
  | ConnectionClosed
  | DHTEvent (e : KademliaEvent)
  | IdentifyReceived (peer : Z) (listen_addrs : gset bytes)
  | GossipMessage (data : bytes)
  | DMEvent (e : DMMessageEvent)
  | ExternalAddrConfirmed (address : bytes)
  | NewExternalAddrOfPeer (peer : Z) (address : bytes)
  | OtherSwarmEvent.

Section Loop.
Context `{Sg : SignatureScheme} `{Dc : !DhtCodec}.
Context {R D : Type} `{Rs : !RecordStore R} `{Ds : !DhtPersistentStorage D}.
Context (kad_stamp : KadRecord → KadRecord).

Definition for_application (o : Out) : bool := match o with ToApplication _ => true | _ => false end.

(** Events for the application fail when it has dropped its receiver, which ends the
    loop. *)
Definition forward (client_open : bool) (out : list Out) : list Out * bool :=
  if client_open || negb (existsb for_application out) then (out, false)
  else (base.filter (fun o => for_application o = false) out, true).

(** The third component: the event could not be handed over. *)
Definition handle_swarm_events (env : Env) (client_open : bool) (n : NetworkNode (R := R) (D := D)) (event : SwarmEvent)
    : NetworkNode (R := R) (D := D) * (list Out * bool) :=
  match event with
  | ConnectionEstablished | ConnectionClosed =>
      (n, forward client_open [ToApplication (ConnectedPeersUpdate (size (connected env)))])
  | DHTEvent e => let '(n, out) := dht_handle_event env n e in (n, forward client_open out)
  | IdentifyReceived peer listen_addrs => (n, (map (AddAddress peer) (elements listen_addrs), false))
  | GossipMessage data => (n, forward client_open [ToApplication (GossipMsgEvent data)])
  | DMEvent e => let '(n, out) := handle_dm_event env n e in (n, forward client_open out)
  | ExternalAddrConfirmed address => (n, ([AddAddress (node_peer_id n) address], false))
  | NewExternalAddrOfPeer peer address => (n, ([AddAddress peer address], false))
  | OtherSwarmEvent => (n, ([], false))
  end.

Inductive LoopInput :=
  | LSwarm (client_open : bool) (e : SwarmEvent)
  | LRequest (r : ClientRequest)
  | LStore (o : StoreOp (R := R) (D := D)).

(** One turn of the loop that [spawn_listeners] starts; [false]: it ends. *)
Definition loop_step (env : Env) (n : NetworkNode (R := R) (D := D)) (i : LoopInput)
    : outcome Error (NetworkNode (R := R) (D := D) * list Out * bool) :=
  match i with
  | LSwarm client_open e =>
      let '(n, (out, failed)) := handle_swarm_events env client_open n e in Ok (n, out, negb failed)
  | LRequest r =>
      '(n, out) ← handle_client_requests kad_stamp env n r;
      Ok (n, out, match r with Shutdown => false | _ => true end)
  | LStore o => '(n, out) ← node_step kad_stamp env n (InStore o); Ok (n, out, true)
  end.

Fixpoint loop_run (n : NetworkNode (R := R) (D := D)) (inputs : list (Env * LoopInput))
    : outcome Error (NetworkNode (R := R) (D := D) * list (LoopInput * list Out)) :=
  match inputs with
  | [] => Ok (n, [])
  | (env, i) :: inputs =>
      '(n, out, continues) ← loop_step env n i;
      if continues : bool then '(n, trace) ← loop_run n inputs; Ok (n, (i, out) :: trace)
      else Ok (n, [(i, out)])
  end.

(** *** The loop is a run of the node *)

Definition node_input (i : LoopInput) : option (NodeInput (R := R) (D := D)) :=
  match i with
  | LSwarm _ (DHTEvent e) => Some (InDht e)
  | LSwarm _ (DMEvent e) => Some (InDm e)
  | LSwarm _ _ => None
  | LRequest r => Some (InRequest r)
  | LStore o => Some (InStore o)
  end.

Lemma forward_subset client_open out o : o ∈ (forward client_open out).1 → o ∈ out.
Proof using Type. unfold forward. case_match; [done|]. simpl. by intros [_ ?]%list_elem_of_filter. Qed.

(** A turn is a step of the node, or leaves the node as it is and answers no client. *)
Lemma loop_step_node env n i n' out b :
  loop_step env n i = Ok (n', out, b) →
  match node_input i with
  | Some ni => ∃ out', node_step kad_stamp env n ni = Ok (n', out') ∧ ∀ o, o ∈ out → o ∈ out'
  | None => n' = n ∧ ∀ chan v, ToClient chan v ∉ out
  end.
Proof using Type.
  destruct i as [open e|r|o]; simpl.
  - intros H. destruct (handle_swarm_events env open n e) as [n1 [out1 failed]] eqn:He.
    apply Ok_inj in H. injection H as <- <- <-.
    destruct e as [| |e|peer la| |e|addr|peer addr|]; simpl in He.
    3: { destruct (dht_handle_event env n e) as [n2 out2] eqn:Hd. injection He as <- Hf. exists out2. split; [simpl; by rewrite Hd|].
         intros o Ho. eapply forward_subset. by rewrite Hf. }
    5: { destruct (handle_dm_event env n e) as [n2 out2] eqn:Hd. injection He as <- Hf. exists out2. split; [simpl; by rewrite Hd|].
         intros o Ho. eapply forward_subset. by rewrite Hf. }
    1,2,4: injection He as <- Hf; split; [done|]; intros chan v Hin;
      assert (ToClient chan v ∈ [_]) as Hin' by (eapply forward_subset; by rewrite Hf);
      by apply list_elem_of_singleton in Hin'.
    + injection He as <- <- <-. split; [done|]. by intros chan v (? & ? & _)%list_elem_of_fmap.
    + injection He as <- <- <-. split; [done|]. by intros chan v ?%list_elem_of_singleton.
    + injection He as <- <- <-. split; [done|]. by intros chan v ?%list_elem_of_singleton.
    + injection He as <- <- <-. split; [done|]. by intros chan v ?%elem_of_nil.
  - intros ([n1 out1] & Hr & Heq)%bind_ok_inv. apply Ok_inj in Heq. injection Heq as <- <- _. by exists out1.
  - intros H. apply Ok_inj in H. injection H as <- <- _. eexists. split; [done|]. done.
Qed.

(** Whatever the loop tells a client, a run of the node over some of its inputs does. *)
Lemma loop_run_node inputs n n' trace :
  loop_run n inputs = Ok (n', trace) →
  ∃ ninputs ntrace, node_run kad_stamp n ninputs = Ok (n', ntrace) ∧
    (∀ ni, ni ∈ map snd ninputs → ∃ i, i ∈ map snd inputs ∧ node_input i = Some ni) ∧
    (∀ i out chan v, (i, out) ∈ trace → ToClient chan v ∈ out →
       ∃ ni out', (ni, out') ∈ ntrace ∧ ToClient chan v ∈ out').
Proof using Type.
  revert n trace. induction inputs as [|[env i] inputs IH]; intros n trace.
  { intros [= <- <-]. exists [], []. split_and!; [done|..]; set_solver. }
  cbn [loop_run]. intros ([[n1 out] continues] & Hs & Hr)%bind_ok_inv.
  assert (∃ n2 trace2 ninputs ntrace, n2 = n' ∧ trace = (i, out) :: trace2 ∧ node_run kad_stamp n1 ninputs = Ok (n2, ntrace) ∧
    (∀ ni, ni ∈ map snd ninputs → ∃ i, i ∈ map snd inputs ∧ node_input i = Some ni) ∧
    (∀ i out chan v, (i, out) ∈ trace2 → ToClient chan v ∈ out →
       ∃ ni out', (ni, out') ∈ ntrace ∧ ToClient chan v ∈ out')) as (n2 & trace2 & ninputs & ntrace & -> & -> & Hn & Hi & Ht).
  { destruct continues.
    - apply bind_ok_inv in Hr as ([n2 trace2] & Hr & Heq). apply Ok_inj in Heq. injection Heq as <- <-.
      destruct (IH _ _ Hr) as (ninputs & ntrace & ? & ? & ?). by exists n2, trace2, ninputs, ntrace.
    - apply Ok_inj in Hr. injection Hr as <- <-. exists n1, [], [], []. split_and!; [done..|set_solver|set_solver]. }
  apply loop_step_node in Hs. destruct (node_input i) as [ni|] eqn:Hni.
  - destruct Hs as (out' & Hstep & Hsub). exists ((env, ni) :: ninputs), ((ni, out') :: ntrace). split_and!.
    + cbn [node_run]. rewrite Hstep. simpl. by rewrite Hn.
    + intros ni' [->|Hin]%elem_of_cons; [exists i; split; [left|done]|].
      destruct (Hi _ Hin) as (i' & ? & ?). exists i'. split; [by right|done].
    + intros i' o chan v [[= -> ->]|Hin]%elem_of_cons Ho; [exists ni, out'; split; [left|by apply Hsub]|].
      destruct (Ht _ _ _ _ Hin Ho) as (ni' & o' & ? & ?). exists ni', o'. split; [by right|done].
  - destruct Hs as [-> Hno]. exists ninputs, ntrace. split_and!; [done|..].
    + intros ni' Hin. destruct (Hi _ Hin) as (i' & ? & ?). exists i'. split; [by right|done].
    + intros i' o chan v [[= -> ->]|Hin]%elem_of_cons Ho; [by destruct (Hno chan v)|by eapply Ht].
Qed.
End Loop.

(** ** The network *)

Definition QC_TOPIC : string := "global".
Definition topic_to_string (t : Topic) : string := match t with Global => "global" | Da => "DA" end.

Definition LOOK_AHEAD : Z := 5.
(** [(LOOK_AHEAD as f64 * 0.8) as u64] *)
Definition THRESHOLD : Z := LOOK_AHEAD * 4 / 5.

Definition receive_capacity : nat := 1000.
Definition lookup_capacity : nat := 10.

(** [from_config]: the smaller of the default and two thirds of the nodes; [None]: zero is
    an error. *)
Definition DEFAULT_REPLICATION_FACTOR : Z := 10.
Definition config_replication_factor (num_nodes_with_stake : Z) : option Z :=
  let factor := Z.min DEFAULT_REPLICATION_FACTOR (num_nodes_with_stake * 2 / 3) in
  if factor =? 0 then None else Some factor.

Section Network.
Context `{Sg : SignatureScheme} `{Dc : !DhtCodec}.
(** [PeerId::from_bytes] of libp2p. *)
Context (peer_id_from_bytes : bytes → option Z).

Record Libp2pNetworkInner := {
  pk : PubKey;
  (** Both ends of the channel of received messages are kept, so that it stays open. *)
  receiver : list bytes;
  node_lookup : list (option (ViewNumber * PubKey));
  (** The task that reads [node_lookup] still runs. *)
  node_lookup_open : bool;
  bootstrap_addrs : list (Z * bytes);
  is_ready : bool;
  is_bootstrapped : bool;
  num_connected_peers : nat;
  num_failed_messages : Z;
  subscribed_topics : gset string;
  latest_seen_view : ViewNumber;
}.

Definition Libp2pNetwork_new (pk : PubKey) (bootstrap_addrs : list (Z * bytes)) (pid : Z) (addr : bytes) : Libp2pNetworkInner :=
  {| pk := pk; receiver := []; node_lookup := []; node_lookup_open := true;
     bootstrap_addrs := bootstrap_addrs ++ [(pid, addr)]; is_ready := false; is_bootstrapped := false;
     num_connected_peers := 0; num_failed_messages := 0; subscribed_topics := {[QC_TOPIC]}; latest_seen_view := 0 |}.

Definition set_receiver (s : Libp2pNetworkInner) (q : list bytes) : Libp2pNetworkInner :=
  {| pk := pk s; receiver := q; node_lookup := node_lookup s; node_lookup_open := node_lookup_open s;
     bootstrap_addrs := bootstrap_addrs s; is_ready := is_ready s; is_bootstrapped := is_bootstrapped s;
     num_connected_peers := num_connected_peers s; num_failed_messages := num_failed_messages s;
     subscribed_topics := subscribed_topics s; latest_seen_view := latest_seen_view s |}.
Definition set_lookups (s : Libp2pNetworkInner) (q : list (option (ViewNumber * PubKey))) (open : bool) : Libp2pNetworkInner :=
  {| pk := pk s; receiver := receiver s; node_lookup := q; node_lookup_open := open;
     bootstrap_addrs := bootstrap_addrs s; is_ready := is_ready s; is_bootstrapped := is_bootstrapped s;
     num_connected_peers := num_connected_peers s; num_failed_messages := num_failed_messages s;
     subscribed_topics := subscribed_topics s; latest_seen_view := latest_seen_view s |}.
Definition set_flags (s : Libp2pNetworkInner) (ready bootstrapped : bool) : Libp2pNetworkInner :=
  {| pk := pk s; receiver := receiver s; node_lookup := node_lookup s; node_lookup_open := node_lookup_open s;
     bootstrap_addrs := bootstrap_addrs s; is_ready := ready; is_bootstrapped := bootstrapped;
     num_connected_peers := num_connected_peers s; num_failed_messages := num_failed_messages s;
     subscribed_topics := subscribed_topics s; latest_seen_view := latest_seen_view s |}.
Definition set_metrics (s : Libp2pNetworkInner) (peers : nat) (failed : Z) : Libp2pNetworkInner :=
  {| pk := pk s; receiver := receiver s; node_lookup := node_lookup s; node_lookup_open := node_lookup_open s;
     bootstrap_addrs := bootstrap_addrs s; is_ready := is_ready s; is_bootstrapped := is_bootstrapped s;
     num_connected_peers := peers; num_failed_messages := failed;
     subscribed_topics := subscribed_topics s; latest_seen_view := latest_seen_view s |}.
Definition count_failed (s : Libp2pNetworkInner) : Libp2pNetworkInner :=
  set_metrics s (num_connected_peers s) (num_failed_messages s + 1).

(** What can be seen of the network: requests to its node, messages that go into its queue
    and out of it, and what its surroundings tell it. *)
Inductive Seen :=
  | Request (r : ClientRequest)
  | Queued (m : bytes)
  | Taken (m : bytes)
  | Called (m : bytes) (recipient : PubKey)
  | Event (e : NetworkEvent)
  | Answered (chan : nat) (b : bytes)
  | Confirmed (r : ClientRequest)
  | Counted (n : nat).

(** [sender.try_send] *)
Definition try_send (s : Libp2pNetworkInner) (m : bytes) : option (Libp2pNetworkInner * list Seen) :=
  if (length (receiver s) <? receive_capacity)%nat then Some (set_receiver s (receiver s ++ [m]), [Queued m]) else None.

(** [send_request]: the channel to the node is unbounded, and closed once its loop has ended. *)
Definition send_request (up : bool) (r : ClientRequest) : outcome NetworkError (list Seen) :=
  if up then Ok [Request r] else Err ChannelSendError.

(** *** Sending *)

Definition lp_broadcast_message (up : bool) (s : Libp2pNetworkInner) (message : bytes) (topic : Topic)
    : Libp2pNetworkInner * list Seen * outcome NetworkError () :=
  if negb (is_ready s) then (count_failed s, [], Err NotReadyYet)
  else
    let topic := topic_to_string topic in
    match (if decide (topic ∈ subscribed_topics s) then try_send s message else Some (s, [])) with
    | None => (count_failed s, [], Err ShutDown)
    | Some (s, seen) =>
        match send_request up (GossipMsg topic message) with
        | Ok r => (s, seen ++ r, Ok ())
        | _ => (count_failed s, seen, Err ChannelSendError)
        end
    end.

(** [lookup_node] asks the DHT for the record of a key, with three tries; a lookup that does
    not end in time is [TimedOut], and the channel of a query that is dropped gives [None]. *)
Definition lookup_key (k : PubKey) : RecordKey := {| rk_namespace := NsLookup; rk_key := dk_to_bytes k |}.
Definition lookup_request (k : PubKey) (chan : nat) : ClientRequest := handle_get_request (lookup_key k) 3 chan.

Inductive LookupAnswer := TimedOut | Answer (b : option bytes).

Definition lookup_node_result (a : LookupAnswer) : outcome NetworkError Z :=
  match a with
  | TimedOut => Err Timeout
  | Answer b =>
      match handle_get_answer b with
      | Dht.RequestCancelled => Err RequestCancelled
      | Dht.FailedToDeserialize => Err FailedToDeserialize
      | HOk value => match peer_id_from_bytes value with Some pid => Ok pid | None => Err FailedToDeserialize end
      end
  end.

(** [direct_message] up to the lookup; [None]: the lookup has been started. *)
Definition direct_message_start (up : bool) (s : Libp2pNetworkInner) (message : bytes) (recipient : PubKey) (chan : nat)
    : Libp2pNetworkInner * list Seen * option (outcome NetworkError ()) :=
  if negb (is_ready s) then (count_failed s, [], Some (Err NotReadyYet))
  else if decide (recipient = pk s) then
    match try_send s message with
    | Some (s, seen) => (s, seen, Some (Ok ()))
    | None => (count_failed s, [], Some (Err ShutDown))
    end
  else
    match send_request up (lookup_request recipient chan) with
    | Ok r => (s, r, None)
    | _ => (count_failed s, [], Some (Err LookupError))
    end.

(** ... and after it. *)
Definition direct_message_finish (up : bool) (s : Libp2pNetworkInner) (message : bytes) (a : LookupAnswer)
    : Libp2pNetworkInner * list Seen * outcome NetworkError () :=
  match lookup_node_result a with
  | Ok pid =>
      match send_request up (direct_request_no_serialize pid message) with
      | Ok r => (s, r, Ok ())
      | _ => (count_failed s, [], Err ChannelSendError)
      end
  | _ => (count_failed s, [], Err LookupError)
  end.

(** [da_broadcast_message]: the direct messages run side by side; what their results give. *)
Definition da_broadcast_result (results : list (outcome NetworkError ())) : outcome NetworkError () :=
  let errors := omap (fun r => match r with Err e => Some e | _ => None end) results in
  match errors with [] => Ok () | _ => Err (Multiple errors) end.

(** *** Receiving *)

(** The acknowledgement: [bincode] of [Empty { byte: 0 }]. *)
Definition ack : bytes := [0].

Definition handle_recvd_events (up : bool) (s : Libp2pNetworkInner) (msg : NetworkEvent)
    : Libp2pNetworkInner * list Seen * outcome NetworkError () :=
  match msg with
  | GossipMsgEvent m =>
      match try_send s m with Some (s, seen) => (s, seen, Ok ()) | None => (s, [], Err ChannelSendError) end
  | DirectRequestEvent m _ chan =>
      match try_send s m with
      | Some (s, seen) =>
          (s, seen ++ match send_request up (DirectResponse chan ack) with Ok r => r | _ => [] end, Ok ())
      | None => (s, [], Err ChannelSendError)
      end
  | DirectResponseEvent _ _ | IsBootstrapped | ConnectedPeersUpdate _ => (s, [], Ok ())
  end.

(** [recv_message]; on an empty queue it waits. *)
Definition lp_recv_message (s : Libp2pNetworkInner) : option (Libp2pNetworkInner * bytes) :=
  match receiver s with [] => None | m :: q => Some (set_receiver s q, m) end.

(** A turn of [handle_event_generator]. *)
Definition generator_step (up : bool) (s : Libp2pNetworkInner) (message : NetworkEvent) : Libp2pNetworkInner * list Seen :=
  match message with
  | IsBootstrapped => (set_flags s (is_ready s) true, [])
  | GossipMsgEvent _ | DirectRequestEvent _ _ _ | DirectResponseEvent _ _ => (handle_recvd_events up s message).1
  | ConnectedPeersUpdate num_peers => (set_metrics s num_peers (num_failed_messages s), [])
  end.

(** *** Lookups ahead of time *)

Definition queue_node_lookup (s : Libp2pNetworkInner) (e : option (ViewNumber * PubKey)) : option Libp2pNetworkInner :=
  if node_lookup_open s && (length (node_lookup s) <? lookup_capacity)%nat then Some (set_lookups s (node_lookup s ++ [e]) true)
  else None.

Definition lp_update_view `{Mb : !Membership M} (s : Libp2pNetworkInner) (m : M) (view : ViewNumber) (epoch : option EpochNumber)
    : outcome NetworkError Libp2pNetworkInner :=
  let future_view := view + LOOK_AHEAD in
  match leader m future_view epoch with
  | Ok future_leader => Ok (default s (queue_node_lookup s (Some (future_view, future_leader))))
  | Err _ => Ok s
  | Panic => Panic
  end.

(** A turn of [spawn_node_lookup]; it waits for the answer, which it does not use. *)
Definition lookup_turn (up : bool) (s : Libp2pNetworkInner) (chan : nat) : option (Libp2pNetworkInner * list Seen) :=
  match node_lookup s, node_lookup_open s with
  | Some (view_number, k) :: q, true =>
      Some (set_lookups s q true,
            if latest_seen_view s + THRESHOLD <=? view_number then
              match send_request up (lookup_request k chan) with Ok r => r | _ => [] end
            else [])
  | None :: q, true => Some (set_lookups s q false, [])
  | _, _ => None
  end.

(** *** Joining: [spawn_connect] *)

Inductive ConnectStage :=
  | CsStart
  | CsBootstrap
  | CsBootstrapSleep
  | CsSubscribing (r : ClientRequest)
  | CsPublish
  | CsPublishing (r : ClientRequest)
  | CsPublishSleep
  | CsConnect
  | CsCounting
  | CsConnectSleep
  | CsReady
  | CsFailed
  | CsPanicked.

(** The task goes on by itself, or gets an answer; a dropped channel is [false] or [None]. *)
Inductive ConnectInput := CWake | CDone (ok : bool) | CCount (n : option nat).

Definition connect_step (up : bool) (s : Libp2pNetworkInner) (lookup_record_value : RecordValue) (stage : ConnectStage)
    (i : ConnectInput) (chan : nat) : option (ConnectStage * list Seen) :=
  match stage, i with
  | CsStart, CWake =>
      Some (if up then (CsBootstrap, [Request (AddKnownPeers (bootstrap_addrs s)); Request BeginBootstrap]) else (CsPanicked, []))
  | CsBootstrap, CWake =>
      Some (if is_bootstrapped s then
              let r := Subscribe QC_TOPIC (Some chan) in
              if up then (CsSubscribing r, [Request r]) else (CsPanicked, [])
            else (CsBootstrapSleep, []))
  | CsBootstrapSleep, CWake => Some (if up then (CsBootstrap, [Request BeginBootstrap]) else (CsFailed, []))
  | CsSubscribing r, CDone ok => Some (if ok then (CsPublish, [Confirmed r]) else (CsPanicked, []))
  | CsPublish, CWake =>
      Some (match handle_put_request (lookup_key (pk s)) lookup_record_value chan with
            | Some r => if up then (CsPublishing r, [Request r]) else (CsPublishSleep, [])
            | None => (CsPublishSleep, [])
            end)
  | CsPublishing r, CDone ok => Some (if ok then (CsConnect, [Confirmed r]) else (CsPublishSleep, []))
  | CsPublishSleep, CWake => Some (CsPublish, [])
  | CsConnect, CWake => Some (if up then (CsCounting, [Request (GetConnectedPeerNum chan)]) else (CsFailed, []))
  | CsCounting, CCount n =>
      Some (match n with
            | Some n => (if (4 <=? n)%nat then CsReady else CsConnectSleep, [Counted n])
            | None => (CsPanicked, [])
            end)
  | CsConnectSleep, CWake => Some (CsConnect, [])
  | _, _ => None
  end.

(** *** Shutting down *)

Inductive ShutDownStage := SdIdle | SdLookups | SdKill | SdDone.

(** The node is told first, then the lookup task, for which there must be a place in its
    queue unless it has ended, then the event generator. *)
Definition shut_down_step (up : bool) (s : Libp2pNetworkInner) (stage : ShutDownStage)
    : option (Libp2pNetworkInner * list Seen * ShutDownStage) :=
  match stage with
  | SdIdle => Some (s, match send_request up Shutdown with Ok r => r | _ => [] end, SdLookups)
  | SdLookups =>
      if node_lookup_open s then s ← queue_node_lookup s None; Some (s, [], SdKill) else Some (s, [], SdKill)
  | SdKill => Some (s, [], SdDone)
  | SdDone => None
  end.

(** ** Runs *)

Context {M : Type} `{Mb : !Membership M} (membership : M) (lookup_record_value : RecordValue).

Record World := {
  inner : Libp2pNetworkInner;
  (** The loop of the node runs. *)
  node_up : bool;
  stage : ConnectStage;
  shutting : ShutDownStage;
  (** The direct messages that wait for a lookup, by the channel of its answer. *)
  direct_calls : gmap nat (bytes * PubKey);
  (** The lookup task waits for an answer. *)
  lookup_busy : bool;
  next_chan : nat;
}.

Definition world_new (k : PubKey) (addrs : list (Z * bytes)) (pid : Z) (addr : bytes) : World :=
  {| inner := Libp2pNetwork_new k addrs pid addr; node_up := true; stage := CsStart; shutting := SdIdle;
     direct_calls := ∅; lookup_busy := false; next_chan := 0 |}.

Inductive LpAction :=
  | LpBroadcast (m : bytes) (topic : Topic)
  | LpDirect (m : bytes) (recipient : PubKey)
  | LpDaBroadcast (m : bytes) (recipients : list PubKey)
  | LpAnswer (chan : nat) (a : LookupAnswer)
  | LpEvent (e : NetworkEvent)
  | LpRecv
  | LpUpdateView (view : ViewNumber) (epoch : option EpochNumber)
  | LpLookup
  | LpLookupDone
  | LpConnect (i : ConnectInput)
  | LpShutDown
  | LpNodeEnds.

Definition set_inner (w : World) (s : Libp2pNetworkInner) : World :=
  {| inner := s; node_up := node_up w; stage := stage w; shutting := shutting w; direct_calls := direct_calls w;
     lookup_busy := lookup_busy w; next_chan := next_chan w |}.
Definition set_direct_calls (w : World) (m : gmap nat (bytes * PubKey)) : World :=
  {| inner := inner w; node_up := node_up w; stage := stage w; shutting := shutting w; direct_calls := m;
     lookup_busy := lookup_busy w; next_chan := next_chan w |}.
Definition use_chan (w : World) : World :=
  {| inner := inner w; node_up := node_up w; stage := stage w; shutting := shutting w; direct_calls := direct_calls w;
     lookup_busy := lookup_busy w; next_chan := S (next_chan w) |}.
Definition set_tasks (w : World) (up : bool) (st : ConnectStage) (sd : ShutDownStage) (busy : bool) : World :=
  {| inner := inner w; node_up := up; stage := st; shutting := sd; direct_calls := direct_calls w;
     lookup_busy := busy; next_chan := next_chan w |}.

Definition perform_direct (w : World) (m : bytes) (recipient : PubKey) : World * list Seen :=
  let chan := next_chan w in
  let '(s, seen, r) := direct_message_start (node_up w) (inner w) m recipient chan in
  let w := use_chan (set_inner w s) in
  (match r with None => set_direct_calls w (<[chan := (m, recipient)]> (direct_calls w)) | Some _ => w end,
   Called m recipient :: seen).

Fixpoint perform_directs (w : World) (m : bytes) (recipients : list PubKey) : World * list Seen :=
  match recipients with
  | [] => (w, [])
  | k :: recipients =>
      let '(w, seen) := perform_direct w m k in
      let '(w, seen') := perform_directs w m recipients in
      (w, seen ++ seen')
  end.

Definition answer_seen (chan : nat) (a : LookupAnswer) : list Seen :=
  match a with Answer (Some b) => [Answered chan b] | _ => [] end.

(** [None]: the step can not be made now. *)
Definition lp_perform (w : World) (a : LpAction) : option (World * list Seen) :=
  let s := inner w in
  let up := node_up w in
  match a with
  | LpBroadcast m topic => let '(s, seen, _) := lp_broadcast_message up s m topic in Some (set_inner w s, seen)
  | LpDirect m recipient => Some (perform_direct w m recipient)
  | LpDaBroadcast m recipients =>
      Some (if is_ready s then perform_directs w m recipients else (set_inner w (count_failed s), []))
  | LpAnswer chan a =>
      '(m, _) ← direct_calls w !! chan;
      let '(s, seen, _) := direct_message_finish up s m a in
      Some (set_direct_calls (set_inner w s) (delete chan (direct_calls w)), answer_seen chan a ++ seen)
  | LpEvent e =>
      match shutting w with
      | SdDone => None
      | _ => let '(s, seen) := generator_step up s e in Some (set_inner w s, Event e :: seen)
      end
  | LpRecv => '(s, m) ← lp_recv_message s; Some (set_inner w s, [Taken m])
  | LpUpdateView view epoch =>
      match lp_update_view s membership view epoch with Ok s => Some (set_inner w s, []) | _ => None end
  | LpLookup =>
      if lookup_busy w then None
      else
        '(s, seen) ← lookup_turn up s (next_chan w);
        Some (set_tasks (use_chan (set_inner w s)) up (stage w) (shutting w) (negb (bool_decide (seen = []))), seen)
  | LpLookupDone => if lookup_busy w then Some (set_tasks w up (stage w) (shutting w) false, []) else None
  | LpConnect i =>
      '(st, seen) ← connect_step up s lookup_record_value (stage w) i (next_chan w);
      let s := match st with CsReady => set_flags s true (is_bootstrapped s) | _ => s end in
      Some (set_tasks (use_chan (set_inner w s)) up st (shutting w) (lookup_busy w), seen)
  | LpShutDown =>
      '(s, seen, sd) ← shut_down_step up s (shutting w);
      Some (set_tasks (set_inner w s) up (stage w) sd (lookup_busy w), seen)
  | LpNodeEnds => Some (set_tasks w false (stage w) (shutting w) (lookup_busy w), [])
  end.

(** A run from the start of the network, with all that was seen. *)
Inductive lp_run (w0 : World) : list Seen → World → Prop :=
  | lp_run_start : lp_run w0 [] w0
  | lp_run_next tr w a w' seen : lp_run w0 tr w → lp_perform w a = Some (w', seen) → lp_run w0 (tr ++ seen) w'.
End Network.

(** ** What holds of every run *)

Section Runs.
Context `{Sg : SignatureScheme} `{Dc : !DhtCodec} (peer_id_from_bytes : bytes → option Z).
Context {M : Type} `{Mb : !Membership M} (membership : M) (lookup_record_value : RecordValue).
Context (me : PubKey).
Implicit Types (tr seen : list Seen) (w : World) (s : Libp2pNetworkInner).

Definition taken_of (x : Seen) : option bytes := match x with Taken m => Some m | _ => None end.
Definition queued_of (x : Seen) : option bytes := match x with Queued m => Some m | _ => None end.

(** The node has bootstrapped into the DHT, subscribed to the topic of all nodes, published
    its own record, and been connected to four peers. *)
Definition booted tr : Prop := Event IsBootstrapped ∈ tr.
Definition subscribed tr : Prop := ∃ chan, Confirmed (Subscribe QC_TOPIC (Some chan)) ∈ tr.
Definition published tr : Prop :=
  ∃ chan r, handle_put_request (lookup_key me) lookup_record_value chan = Some r ∧ Confirmed r ∈ tr.
Definition connected_to_four tr : Prop := ∃ n, (4 <= n)%nat ∧ Counted n ∈ tr.
Definition joined tr : Prop := booted tr ∧ subscribed tr ∧ published tr ∧ connected_to_four tr.

Definition stage_ok tr (st : ConnectStage) : Prop :=
  match st with
  | CsStart | CsBootstrap | CsBootstrapSleep | CsFailed | CsPanicked => True
  | CsSubscribing r => booted tr ∧ ∃ chan, r = Subscribe QC_TOPIC (Some chan)
  | CsPublish | CsPublishSleep => booted tr ∧ subscribed tr
  | CsPublishing r =>
      booted tr ∧ subscribed tr ∧ ∃ chan, handle_put_request (lookup_key me) lookup_record_value chan = Some r
  | CsConnect | CsCounting | CsConnectSleep => booted tr ∧ subscribed tr ∧ published tr
  | CsReady => joined tr
  end.

(** A direct message went to the peer that the answer to a lookup of its recipient names. *)
Definition sent_to tr (pid : Z) (m : bytes) : Prop :=
  ∃ recipient chan b value, recipient ≠ me ∧ Called m recipient ∈ tr ∧ Request (lookup_request recipient chan) ∈ tr ∧
    Answered chan b ∈ tr ∧ handle_get_answer (Some b) = HOk value ∧ peer_id_from_bytes value = Some pid.

(** Every lookup has a channel of its own. *)
Definition lookups_ok tr (next : nat) : Prop :=
  (∀ k notify rc, Request (GetDHT k notify rc) ∈ tr → ∃ c, notify = [c] ∧ (c < next)%nat) ∧
  (∀ k k' c rc rc', Request (GetDHT k [c] rc) ∈ tr → Request (GetDHT k' [c] rc') ∈ tr → k = k').

Record world_ok tr w : Prop := {
  wo_pk : pk (inner w) = me;
  wo_latest : latest_seen_view (inner w) = 0;
  wo_queue : omap taken_of tr ++ receiver (inner w) = omap queued_of tr;
  wo_length : (length (receiver (inner w)) <= receive_capacity)%nat;
  wo_boot : is_bootstrapped (inner w) = true → booted tr;
  wo_stage : stage_ok tr (stage w);
  wo_ready : is_ready (inner w) = true → joined tr;
  wo_acks chan b : Request (DirectResponse chan b) ∈ tr →
    ∃ m peer, Event (DirectRequestEvent m peer chan) ∈ tr ∧ Queued m ∈ tr;
  wo_calls chan m r : direct_calls w !! chan = Some (m, r) → r ≠ me ∧ Called m r ∈ tr ∧ Request (lookup_request r chan) ∈ tr;
  wo_lookups : lookups_ok tr (next_chan w);
  wo_directs pid m rc : Request (DirectRequest pid m rc) ∈ tr → sent_to tr pid m;
}.

Lemma joined_app tr seen : joined tr → joined (tr ++ seen).
Proof using Type. unfold joined, booted, subscribed, published, connected_to_four. set_solver. Qed.
Lemma stage_ok_app tr seen st : stage_ok tr st → stage_ok (tr ++ seen) st.
Proof using Type.
  destruct st; simpl; try done; unfold joined, booted, subscribed, published, connected_to_four; set_solver.
Qed.
Lemma sent_to_app tr seen pid m : sent_to tr pid m → sent_to (tr ++ seen) pid m.
Proof using Type. intros (r & c & b & v & ? & ? & ? & ? & ? & ?). exists r, c, b, v. set_solver. Qed.

(** The messages that go through the queue, and the flags, in one part of a call. *)
Record calm s s' seen : Prop := {
  calm_pk : pk s' = pk s;
  calm_latest : latest_seen_view s' = latest_seen_view s;
  calm_ready : is_ready s' = is_ready s;
  calm_boot : is_bootstrapped s' = is_bootstrapped s;
  calm_queue : omap taken_of seen ++ receiver s' = receiver s ++ omap queued_of seen;
  calm_length : (length (receiver s) <= receive_capacity → length (receiver s') <= receive_capacity)%nat;
}.

(** The lookups of a part all use the channel [chan]. *)
Definition one_lookup seen (chan : nat) : Prop :=
  ∃ k, ∀ k' notify rc, Request (GetDHT k' notify rc) ∈ seen → GetDHT k' notify rc = lookup_request k chan.

Lemma lookups_ok_app tr seen next next' :
  lookups_ok tr next → (next <= next')%nat →
  ((∀ k notify rc, Request (GetDHT k notify rc) ∉ seen) ∨ one_lookup seen next ∧ (next < next')%nat) →
  lookups_ok (tr ++ seen) next'.
Proof using Type.
  intros [Hb Hu] Hle Hseen. split.
  - intros k notify rc [H|H]%elem_of_app.
    + destruct (Hb _ _ _ H) as (c & -> & ?). exists c. split; [done|lia].
    + destruct Hseen as [Hno|[[k0 Hk] ?]]; [by destruct (Hno k notify rc)|].
      specialize (Hk _ _ _ H). injection Hk as _ -> _. by exists next.
  - intros k k' c rc rc' H H'. apply elem_of_app in H, H'.
    destruct Hseen as [Hno|[[k0 Hk] _]].
    + destruct H as [H|H]; [|by destruct (Hno k [c] rc)]. destruct H' as [H'|H']; [|by destruct (Hno k' [c] rc')]. eauto.
    + destruct H as [H|H], H' as [H'|H']; [by eauto|..].
      * destruct (Hb _ _ _ H) as (c' & [= <-] & ?). specialize (Hk _ _ _ H'). injection Hk as _ -> _. lia.
      * destruct (Hb _ _ _ H') as (c' & [= <-] & ?). specialize (Hk _ _ _ H). injection Hk as _ -> _. lia.
      * apply Hk in H, H'. congruence.
Qed.

Lemma world_ok_step tr w seen w' :
  world_ok tr w → pk (inner w') = me → latest_seen_view (inner w') = 0 →
  omap taken_of seen ++ receiver (inner w') = receiver (inner w) ++ omap queued_of seen →
  (length (receiver (inner w')) <= receive_capacity)%nat →
  (is_bootstrapped (inner w') = true → booted (tr ++ seen)) → stage_ok (tr ++ seen) (stage w') →
  (is_ready (inner w') = true → joined (tr ++ seen)) →
  (∀ chan b, Request (DirectResponse chan b) ∈ seen → ∃ m peer, Event (DirectRequestEvent m peer chan) ∈ seen ∧ Queued m ∈ seen) →
  (∀ chan m r, direct_calls w' !! chan = Some (m, r) → direct_calls w !! chan = Some (m, r) ∨
     (r ≠ me ∧ Called m r ∈ seen ∧ Request (lookup_request r chan) ∈ seen)) →
  (next_chan w <= next_chan w')%nat →
  ((∀ k notify rc, Request (GetDHT k notify rc) ∉ seen) ∨ one_lookup seen (next_chan w) ∧ (next_chan w < next_chan w')%nat) →
  (∀ pid m rc, Request (DirectRequest pid m rc) ∈ seen → sent_to (tr ++ seen) pid m) →
  world_ok (tr ++ seen) w'.
Proof using Type.
  intros [] Hpk Hlatest Hq Hlen Hboot Hst Hready Hacks Hcalls Hnext Hlk Hdir. split; try done.
  - rewrite !omap_app, <- app_assoc, Hq, app_assoc. by f_equal.
  - intros chan b [H|H]%elem_of_app; [destruct (wo_acks0 _ _ H) as (m & p & ? & ?)|destruct (Hacks _ _ H) as (m & p & ? & ?)];
      exists m, p; set_solver.
  - intros chan m r [H|H]%Hcalls; [destruct (wo_calls0 _ _ _ H) as (? & ? & ?)|]; set_solver.
  - by eapply lookups_ok_app.
  - intros pid m rc [H|H]%elem_of_app; [by eapply sent_to_app, wo_directs0|by eapply Hdir].
Qed.

(** The common case: nothing of the tasks changes, and no direct message is sent. *)
Lemma world_ok_calm tr w seen w' :
  world_ok tr w → calm (inner w) (inner w') seen → stage w' = stage w →
  (∀ chan b, Request (DirectResponse chan b) ∈ seen → ∃ m peer, Event (DirectRequestEvent m peer chan) ∈ seen ∧ Queued m ∈ seen) →
  (∀ chan m r, direct_calls w' !! chan = Some (m, r) → direct_calls w !! chan = Some (m, r) ∨
     (r ≠ me ∧ Called m r ∈ seen ∧ Request (lookup_request r chan) ∈ seen)) →
  (next_chan w <= next_chan w')%nat →
  ((∀ k notify rc, Request (GetDHT k notify rc) ∉ seen) ∨ one_lookup seen (next_chan w) ∧ (next_chan w < next_chan w')%nat) →
  (∀ pid m rc, Request (DirectRequest pid m rc) ∈ seen → sent_to (tr ++ seen) pid m) →
  world_ok (tr ++ seen) w'.
Proof using Type.
  intros Hok [] Hst Hacks Hcalls Hnext Hlk Hdir. pose proof Hok as []. apply (world_ok_step tr w); try done; [congruence|congruence|auto|..].
  - rewrite calm_boot0. intros H%wo_boot0. unfold booted in *. set_solver.
  - rewrite Hst. by apply stage_ok_app.
  - rewrite calm_ready0. intros H%wo_ready0. by apply joined_app.
Qed.

Lemma calm_refl s seen : omap taken_of seen = [] → omap queued_of seen = [] → calm s s seen.
Proof using Type. intros H1 H2. split; try done. by rewrite H1, H2, app_nil_r. Qed.
Lemma calm_failed s s' seen : calm s s' seen → calm s (count_failed s') seen.
Proof using Type. intros []. by split. Qed.
Lemma calm_try_send s m s' seen : try_send s m = Some (s', seen) → calm s s' seen ∧ seen = [Queued m].
Proof using Type.
  unfold try_send. case_match eqn:Hlt; [|done]. intros [= <- <-]. split; [|done]. apply Nat.ltb_lt in Hlt.
  split; simpl; try done. intros _. rewrite length_app. simpl. lia.
Qed.
Lemma calm_app s s' seen seen' :
  calm s s' seen → omap taken_of seen' = [] → omap queued_of seen' = [] → calm s s' (seen ++ seen').
Proof using Type. intros [] H1 H2. split; try done. by rewrite !omap_app, H1, H2, !app_nil_r. Qed.

(** Membership in a list that is written out. *)
#[local] Ltac seen_in := repeat match goal with
  | H : _ ∈ _ :: _ |- _ => apply elem_of_cons in H as [H|H]
  | H : _ ∈ [] |- _ => by apply elem_of_nil in H
  | H : _ ∈ _ ++ _ |- _ => apply elem_of_app in H as [H|H]
  end; try discriminate.
#[local] Ltac nothing_sent := solve [intros; exfalso; seen_in].
#[local] Ltac no_lookup := left; intros; intros ?; seen_in.

(** Requests that neither acknowledge, look up nor carry a direct message. *)
Definition plain (r : ClientRequest) : Prop :=
  match r with DirectResponse _ _ | GetDHT _ _ _ | DirectRequest _ _ _ => False | _ => True end.

Lemma world_ok_plain tr w seen w' :
  world_ok tr w → calm (inner w) (inner w') seen → stage w' = stage w → direct_calls w' = direct_calls w →
  (next_chan w <= next_chan w')%nat → (∀ r, Request r ∈ seen → plain r) → world_ok (tr ++ seen) w'.
Proof using Type.
  intros Hok Hc Hst Hcalls Hnext Hplain. eapply world_ok_calm; [done|done|done|..]; rewrite ?Hcalls.
  - by intros chan b []%Hplain.
  - by left.
  - done.
  - left. by intros k nt rc []%Hplain.
  - by intros pid m rc []%Hplain.
Qed.

Lemma broadcast_calm up s m t s' seen r :
  lp_broadcast_message up s m t = (s', seen, r) →
  calm s s' seen ∧ ∀ x, x ∈ seen → x = Queued m ∨ x = Request (GossipMsg (topic_to_string t) m).
Proof using Type.
  unfold lp_broadcast_message. destruct (negb (is_ready s)).
  { intros [= <- <- _]. split; [by apply calm_failed, calm_refl|]. by intros x ?%elem_of_nil. }
  destruct (if decide (topic_to_string t ∈ subscribed_topics s) then try_send s m else Some (s, [])) as [[s1 seen1]|] eqn:Hs.
  2: { intros [= <- <- _]. split; [by apply calm_failed, calm_refl|]. by intros x ?%elem_of_nil. }
  assert (calm s s1 seen1 ∧ ∀ x, x ∈ seen1 → x = Queued m) as [Hc Hx].
  { case_decide; [destruct (calm_try_send _ _ _ _ Hs) as [? ->]; split; [done|]; by intros x ?%list_elem_of_singleton|].
    injection Hs as <- <-. split; [by apply calm_refl|]. by intros x ?%elem_of_nil. }
  destruct up; simpl; intros [= <- <- _].
  - split; [by apply calm_app|]. intros x [?|?%list_elem_of_singleton]%elem_of_app; auto.
  - split; [by apply calm_failed|]. auto.
Qed.

Lemma world_ok_direct tr w m k w' seen :
  world_ok tr w → perform_direct w m k = (w', seen) → world_ok (tr ++ seen) w'.
Proof using Type.
  intros Hok. unfold perform_direct. destruct (direct_message_start _ _ _ _ _) as [[s' sn] r] eqn:Hd.
  assert (calm (inner w) s' (Called m k :: sn) ∧
    ((r = None ∧ k ≠ me ∧ sn = [Request (lookup_request k (next_chan w))]) ∨
     (is_Some r ∧ ∀ x, x ∈ sn → x = Queued m))) as [Hc Hsn].
  { pose proof (wo_pk _ _ Hok) as Hpk. unfold direct_message_start in Hd.
    destruct (negb _); [injection Hd as <- <- <-; split; [by apply calm_failed, calm_refl|]; right; split; [done|]; nothing_sent|].
    case_decide as Hk.
    - destruct (try_send (inner w) m) as [[s1 seen1]|] eqn:Hs.
      + injection Hd as <- <- <-. apply calm_try_send in Hs as [Hc ->]. split; [by destruct Hc; split|].
        right. split; [done|]. intros x Hx. by seen_in.
      + injection Hd as <- <- <-. split; [by apply calm_failed, calm_refl|]. right. split; [done|]. nothing_sent.
    - rewrite Hpk in Hk. destruct (node_up w); simpl in Hd; injection Hd as <- <- <-.
      + split; [by apply calm_refl|]. by left.
      + split; [by apply calm_failed, calm_refl|]. right. split; [done|]. nothing_sent. }
  destruct Hsn as [(-> & Hk & ->)|[[x ->] Hsn]]; intros [= <- <-]; eapply world_ok_calm; try done; simpl; try lia.
  - nothing_sent.
  - intros chan m' r'. destruct (decide (chan = next_chan w)) as [->|?].
    + rewrite lookup_insert_eq. intros [= <- <-]. right. set_solver.
    + rewrite lookup_insert_ne by done. by left.
  - right. split; [|lia]. exists k. intros k' nt rc Hin. seen_in. by injection Hin as -> -> ->.
  - nothing_sent.
  - intros chan b Hin. seen_in. by apply Hsn in Hin.
  - by left.
  - left. intros k' nt rc Hin. seen_in. by apply Hsn in Hin.
  - intros pid m' rc Hin. seen_in. by apply Hsn in Hin.
Qed.

Lemma world_ok_directs tr w m ks w' seen :
  world_ok tr w → perform_directs w m ks = (w', seen) → world_ok (tr ++ seen) w'.
Proof using Type.
  revert tr w seen. induction ks as [|k ks IH]; intros tr w seen Hok; simpl; [intros [= <- <-]; by rewrite app_nil_r|].
  destruct (perform_direct w m k) as [w1 seen1] eqn:Hd. destruct (perform_directs w1 m ks) as [w2 seen2] eqn:Hds.
  intros [= <- <-]. rewrite app_assoc. eapply IH; [|done]. by eapply world_ok_direct.
Qed.

Lemma world_ok_answer tr w chan a w' seen :
  world_ok tr w → lp_perform peer_id_from_bytes membership lookup_record_value w (LpAnswer chan a) = Some (w', seen) →
  world_ok (tr ++ seen) w'.
Proof using Type.
  intros Hok. simpl. intros ([m k] & Hcall & Hw)%bind_Some.
  destruct (direct_message_finish _ _ _ _ _) as [[s' sn] r] eqn:Hd. injection Hw as <- <-.
  assert (omap taken_of (answer_seen chan a) = [] ∧ omap queued_of (answer_seen chan a) = [] ∧
    ∀ r, Request r ∉ answer_seen chan a) as (Ht & Hq & Hr).
  { destruct a as [|[b|]]; simpl; split_and!; try done; intros r' ?; seen_in. }
  destruct (wo_calls _ _ Hok _ _ _ Hcall) as (Hk & Hcalled & Hreq).
  assert (calm (inner w) s' sn ∧ ∀ x, x ∈ sn → ∃ pid, x = Request (DirectRequest pid m 1) ∧ lookup_node_result peer_id_from_bytes a = Ok pid)
    as [Hc Hsn].
  { unfold direct_message_finish in Hd. destruct (lookup_node_result _ _) as [pid| |] eqn:Hl.
    2,3: injection Hd as <- <- _; split; [by apply calm_failed, calm_refl|nothing_sent].
    destruct (node_up w); simpl in Hd; injection Hd as <- <- _.
    - split; [by apply calm_refl|]. intros x Hx. seen_in. by exists pid.
    - split; [by apply calm_failed, calm_refl|]. nothing_sent. }
  eapply world_ok_calm; try done; simpl.
  - destruct Hc as [? ? ? ? Hqq ?]. split; try done. by rewrite !omap_app, Ht, Hq.
  - intros c b Hin. seen_in; [by apply Hr in Hin|]. by apply Hsn in Hin as (? & ? & _).
  - intros c m' r' [_ H]%lookup_delete_Some. by left.
  - left. intros k' nt rc Hin. seen_in; [by apply Hr in Hin|]. by apply Hsn in Hin as (? & ? & _).
  - intros pid m' rc Hin. seen_in; [by apply Hr in Hin|]. apply Hsn in Hin as (pid' & [= -> -> _] & Hl).
    destruct a as [|[b|]]; [done| |done]. unfold lookup_node_result in Hl.
    destruct (handle_get_answer (Some b)) as [value| |] eqn:Hb; [|done..].
    destruct (peer_id_from_bytes value) as [p|] eqn:Hp; [|done]. injection Hl as ->.
    exists k, chan, b, value. set_solver.
Qed.

Lemma world_ok_event tr w e w' seen :
  world_ok tr w → lp_perform peer_id_from_bytes membership lookup_record_value w (LpEvent e) = Some (w', seen) →
  world_ok (tr ++ seen) w'.
Proof using Type.
  intros Hok. simpl. intros Hw. assert ((let '(s, sn) := generator_step (node_up w) (inner w) e in Some (set_inner w s, Event e :: sn)) = Some (w', seen)) as Hw'
    by (by destruct (shutting w)). clear Hw. pose proof Hok as [].
  destruct (generator_step _ _ _) as [s' sn] eqn:Hg. injection Hw' as <- <-.
  destruct e as [m|m peer chan|m peer| |n]; simpl in Hg.
  - destruct (try_send (inner w) m) as [[s1 seen1]|] eqn:Hs; simpl in Hg; injection Hg as <- <-;
      eapply world_ok_plain; try done; try nothing_sent.
    + apply calm_try_send in Hs as [[] ->]. by split.
    + apply calm_try_send in Hs as [_ ->]. nothing_sent.
    + by apply calm_refl.
  - destruct (try_send (inner w) m) as [[s1 seen1]|] eqn:Hs; simpl in Hg.
    + apply calm_try_send in Hs as [[] ->]. destruct (node_up w); simpl in Hg; injection Hg as <- <-.
      * eapply world_ok_calm; [done|by split|done| |by left|done|no_lookup|nothing_sent].
        intros c b Hin. seen_in. injection Hin as -> ->. exists m, peer. set_solver.
      * eapply world_ok_plain; [done|by split|done|done|done|nothing_sent].
    + injection Hg as <- <-. eapply world_ok_plain; [done|by apply calm_refl|done|done|done|nothing_sent].
  - injection Hg as <- <-. eapply world_ok_plain; [done|by apply calm_refl|done|done|done|nothing_sent].
  - injection Hg as <- <-. eapply world_ok_step; [done|done|done| | | | | |nothing_sent|by left|done|no_lookup|nothing_sent]; simpl.
    + by rewrite app_nil_r.
    + done.
    + intros _. unfold booted. set_solver.
    + by apply stage_ok_app.
    + intros H. by apply joined_app, wo_ready0.
  - injection Hg as <- <-. eapply world_ok_plain; [done| |done|done|done|nothing_sent].
    split; simpl; try done. by rewrite app_nil_r.
Qed.

(** Joining asks for nothing but what its stages name, and moves from stage to stage as the
    answers allow. *)
Lemma connect_step_ok tr w i st seen :
  world_ok tr w → connect_step (node_up w) (inner w) lookup_record_value (stage w) i (next_chan w) = Some (st, seen) →
  stage_ok (tr ++ seen) st ∧ omap taken_of seen = [] ∧ omap queued_of seen = [] ∧ ∀ r, Request r ∈ seen → plain r.
Proof using Type.
  intros [Hpk _ _ _ Hboot Hst _ _ _ _ _]. apply (stage_ok_app _ seen) in Hst.
  assert (is_bootstrapped (inner w) = true → booted (tr ++ seen)) as Hboot' by (intros ?%Hboot; unfold booted in *; set_solver).
  destruct (stage w) as [| | |r| |r| | | | | | |], i as [|ok|n]; cbn [connect_step stage_ok] in *; try done.
  - destruct (node_up w); intros [= <- <-]; simpl; (split_and!; [done..|]); intros r Hr; seen_in; by simplify_eq.
  - destruct (is_bootstrapped (inner w)) eqn:Hb; [destruct (node_up w)|]; intros [= <- <-]; simpl; (split_and!; try done; try nothing_sent).
    + auto.
    + by eexists.
    + intros r Hr. seen_in. by simplify_eq.
  - destruct (node_up w); intros [= <- <-]; simpl; (split_and!; [done..|]); intros r Hr; seen_in; by simplify_eq.
  - destruct Hst as (Hbo & chan & ->).
    destruct ok; intros [= <- <-]; simpl; (split_and!; try done; try nothing_sent). exists chan. set_solver.
  - destruct Hst as (Hbo & Hsub). destruct (handle_put_request _ _ _) as [r|] eqn:Hp; [destruct (node_up w)|];
      intros [= <- <-]; simpl; (split_and!; try done; try nothing_sent).
    + exists (next_chan w). by rewrite <- Hpk.
    + intros r' Hr. seen_in. injection Hr as ->. unfold handle_put_request in Hp. by apply bind_Some in Hp as (v & _ & [= <-]).
  - destruct Hst as (Hbo & Hsub & chan & Hput). destruct ok; intros [= <- <-]; simpl; (split_and!; try done; try nothing_sent).
    exists chan, r. set_solver.
  - intros [= <- <-]. simpl. split_and!; try done; [apply Hst..|nothing_sent].
  - destruct (node_up w); intros [= <- <-]; simpl; (split_and!; try done; try apply Hst; try nothing_sent).
    intros r Hr. seen_in. by simplify_eq.
  - destruct n as [n|]; [destruct (Nat.leb_spec 4 n)|]; intros [= <- <-]; (split_and!; try done; try nothing_sent).
    destruct Hst as (? & ? & ?). split_and!; [done..|]. exists n. set_solver.
  - intros [= <- <-]. simpl. split_and!; try done; [apply Hst..|nothing_sent].
Qed.

Lemma queue_lookup_calm s e s' : queue_node_lookup s e = Some s' → calm s s' [].
Proof using Type. unfold queue_node_lookup. case_match; [|done]. intros [= <-]. split; simpl; try done. by rewrite app_nil_r. Qed.

Lemma world_ok_perform tr w a w' seen :
  world_ok tr w → lp_perform peer_id_from_bytes membership lookup_record_value w a = Some (w', seen) → world_ok (tr ++ seen) w'.
Proof using Type.
  intros Hok. destruct a as [m t|m k|m ks|chan a|e| |view epoch| | |i| |].
  - simpl. destruct (lp_broadcast_message _ _ _ _) as [[s' sn] r] eqn:Hb. intros [= <- <-].
    apply broadcast_calm in Hb as [Hc Hx]. eapply world_ok_plain; try done. intros r' Hr. by destruct (Hx _ Hr) as [?|[= ->]].
  - intros H. simpl in H. injection H as H. by eapply world_ok_direct.
  - simpl. destruct (is_ready (inner w)); [intros [= H]; by eapply world_ok_directs|]. intros [= <- <-].
    eapply world_ok_plain; try done; [by apply calm_failed, calm_refl|nothing_sent].
  - by apply world_ok_answer.
  - by apply world_ok_event.
  - simpl. unfold lp_recv_message. destruct (receiver (inner w)) as [|m q] eqn:Hq; [done|]. intros [= <- <-].
    eapply world_ok_plain; try done; [|nothing_sent]. split; simpl; try done; rewrite Hq; [by rewrite app_nil_r|]. simpl. lia.
  - simpl. unfold lp_update_view. destruct (leader _ _ _) as [l| |]; [|intros [= <- <-]; eapply world_ok_plain; try done; [by apply calm_refl|nothing_sent]|done].
    intros [= <- <-]. eapply world_ok_plain; try done; [|nothing_sent]. simpl.
    destruct (queue_node_lookup (inner w) _) as [s'|] eqn:Hl; [by eapply queue_lookup_calm|by apply calm_refl].
  - simpl. destruct (lookup_busy w); [done|]. intros ([s' sn] & Hl & [= <- <-])%bind_Some.
    assert (calm (inner w) s' sn ∧ (sn = [] ∨ ∃ k, sn = [Request (lookup_request k (next_chan w))])) as [Hc Hsn].
    { unfold lookup_turn in Hl. destruct (node_lookup (inner w)) as [|[[v k]|] q], (node_lookup_open (inner w)); try done;
        injection Hl as <- <-; [|split; [|by left]; split; simpl; try done; by rewrite app_nil_r].
      case_match; [destruct (node_up w)|]; simpl; (split; [split; simpl; try done; by rewrite app_nil_r|]); eauto. }
    destruct Hsn as [->|[k ->]]; eapply world_ok_calm; try done; simpl; try lia; [nothing_sent|by left|no_lookup|nothing_sent|nothing_sent|by left| |nothing_sent].
    right. split; [|lia]. exists k. intros k' nt rc Hin. seen_in. by injection Hin as -> -> ->.
  - simpl. destruct (lookup_busy w); [|done]. intros [= <- <-]. eapply world_ok_plain; try done; [by apply calm_refl|nothing_sent].
  - simpl. intros ([st sn] & Hcn & Hw)%bind_Some. injection Hw as <- <-. pose proof Hok as [].
    destruct (connect_step_ok _ _ _ _ _ Hok Hcn) as (Hst & Ht & Hq & Hplain).
    assert (∀ A (f : Libp2pNetworkInner → A), (∀ s b, f (set_flags s b (is_bootstrapped s)) = f s) →
      f (match st with CsReady => set_flags (inner w) true (is_bootstrapped (inner w)) | _ => inner w end) = f (inner w)) as Hsame
      by (intros A f Hf; by destruct st).
    eapply world_ok_step; [done|..]; cbn [inner set_tasks use_chan set_inner stage direct_calls next_chan]; try lia.
    + by rewrite (Hsame _ pk).
    + by rewrite (Hsame _ latest_seen_view).
    + by rewrite (Hsame _ receiver), Ht, Hq, app_nil_r.
    + by rewrite (Hsame _ receiver).
    + rewrite (Hsame _ is_bootstrapped) by done. intros ?%wo_boot0. unfold booted in *. set_solver.
    + done.
    + intros Hr. destruct st; try (by apply joined_app, wo_ready0). exact Hst.
    + by intros chan b []%Hplain.
    + by left.
    + left. by intros k nt rc []%Hplain.
    + by intros pid m rc []%Hplain.
  - simpl. intros ([[s' sn] sd] & Hs & [= <- <-])%bind_Some. unfold shut_down_step in Hs.
    eapply world_ok_plain; try done; simpl.
    + destruct (shutting w); [injection Hs as <- <- _; apply calm_refl; by destruct (node_up w)| |injection Hs as <- <- _; by apply calm_refl|done].
      destruct (node_lookup_open (inner w)); [|injection Hs as <- <- _; by apply calm_refl].
      apply bind_Some in Hs as (s1 & Hl & [= <- <- _]). by eapply queue_lookup_calm.
    + destruct (shutting w); [injection Hs as _ <- _; destruct (node_up w); simpl; intros r Hr; seen_in; by simplify_eq| |injection Hs as _ <- _; nothing_sent|done].
      destruct (node_lookup_open (inner w)); [apply bind_Some in Hs as (? & _ & [= _ <- _])|injection Hs as _ <- _]; nothing_sent.
  - simpl. intros [= <- <-]. eapply world_ok_plain; try done; [by apply calm_refl|nothing_sent].
Qed.

Lemma world_ok_run addrs pid addr tr w :
  lp_run peer_id_from_bytes membership lookup_record_value (world_new me addrs pid addr) tr w → world_ok tr w.
Proof using Type.
  induction 1 as [|tr w a w' seen _ IH Hp]; [|by eapply world_ok_perform].
  split; simpl; try done; try (by intros; exfalso; seen_in).
  - unfold receive_capacity. lia.
  - split; intros; exfalso; seen_in.
Qed.

(** In every run the messages that the application takes are those that were put into the
    queue, in that order, of which the queue never holds more than it has places for; a
    direct message that was acknowledged was put into the queue; and the network calls
    itself ready only after it has joined. *)
Theorem libp2p_network_runs addrs pid addr tr w :
  lp_run peer_id_from_bytes membership lookup_record_value (world_new me addrs pid addr) tr w →
  omap taken_of tr ++ receiver (inner w) = omap queued_of tr ∧
  (length (receiver (inner w)) <= receive_capacity)%nat ∧
  (∀ chan b, Request (DirectResponse chan b) ∈ tr →
     ∃ m peer, Event (DirectRequestEvent m peer chan) ∈ tr ∧ Queued m ∈ tr) ∧
  (is_ready (inner w) = true → joined tr).
Proof using Type. intros []%world_ok_run. done. Qed.

(** Nothing updates the latest view, so a lookup that has been queued for a view is made
    however late the task gets to it. *)
Lemma lookups_are_never_stale addrs pid addr tr w view k q :
  lp_run peer_id_from_bytes membership lookup_record_value (world_new me addrs pid addr) tr w →
  THRESHOLD <= view → node_lookup (inner w) = Some (view, k) :: q → node_lookup_open (inner w) = true → node_up w = true →
  ∃ s, lookup_turn (node_up w) (inner w) (next_chan w) = Some (s, [Request (lookup_request k (next_chan w))]).
Proof using Type.
  intros []%world_ok_run Hv Hq Ho Hup. eexists. unfold lookup_turn. rewrite Hq, Ho, Hup, wo_latest0.
  by destruct (Z.leb_spec (0 + THRESHOLD) view); [|lia].
Qed.
End Runs.

(** ** Calls that fail *)

Section Failures.
Context `{Sg : SignatureScheme} `{Dc : !DhtCodec}.
Implicit Types (s : Libp2pNetworkInner).

(** When the queue of received messages is full a broadcast to all is not sent to anyone,
    and fails as if the network were shut down. *)
Lemma full_queue_stops_broadcasts up s m :
  is_ready s = true → QC_TOPIC ∈ subscribed_topics s → length (receiver s) = receive_capacity →
  lp_broadcast_message up s m Global = (count_failed s, [], Err ShutDown).
Proof using Type.
  intros Hr Ht Hl. unfold lp_broadcast_message, try_send. rewrite Hr, Hl, Nat.ltb_irrefl. cbn [negb topic_to_string].
  unfold QC_TOPIC in Ht. by rewrite decide_True by exact Ht.
Qed.

(** A broadcast that fails because the node has ended has reached the node itself. *)
Lemma failed_broadcast_reaches_itself s m :
  is_ready s = true → QC_TOPIC ∈ subscribed_topics s → (length (receiver s) < receive_capacity)%nat →
  ∃ s', lp_broadcast_message false s m Global = (s', [Queued m], Err ChannelSendError) ∧ receiver s' = receiver s ++ [m].
Proof using Type.
  intros Hr Ht Hl. unfold lp_broadcast_message, try_send. rewrite Hr. cbn [negb topic_to_string].
  unfold QC_TOPIC in Ht. rewrite decide_True by exact Ht. apply Nat.ltb_lt in Hl. rewrite Hl. simpl. by eexists.
Qed.

(** A DA broadcast succeeds if and only if every direct message does. *)
Lemma da_broadcast_succeeds_iff (results : list (outcome NetworkError ())) :
  Forall (fun r => r ≠ Panic) results → (da_broadcast_result results = Ok () ↔ Forall (fun r => r = Ok ()) results).
Proof using Type.
  intros Hp. unfold da_broadcast_result. split.
  - intros H. induction Hp as [|r rs Hr Hp IH]; [done|]. destruct r as [[]|e|]; [|done|done]. constructor; [done|]. by apply IH.
  - intros H. assert (omap (fun r : outcome NetworkError () => match r with Err e => Some e | _ => None end) results = []) as ->;
      [|done]. induction H as [|r rs -> _ IH]; [done|]. simpl. apply IH. by inversion Hp.
Qed.
End Failures.

(** A network of one node with stake can not be configured, and one of two gets a
    replication factor with which publishing a record panics. *)
Lemma small_networks_fail `{Sg : SignatureScheme} `{Dc : !DhtCodec} {R D} `{Rs : !RecordStore R} `{Ds : !DhtPersistentStorage D}
    (kad_stamp : KadRecord → KadRecord) env (n : NetworkNode (R := R) (D := D)) query :
  config_replication_factor 1 = None ∧
  (config_replication_factor 2 = Some (replication_factor (dht_handler n)) → put_record kad_stamp env n query = Panic).
Proof. split; [done|]. intros [= Hf]. unfold put_record. by rewrite <- Hf. Qed.

(** ** Direct messages *)

Section Addressee.
Context `{Sg : SignatureScheme} `{Dc : !DhtCodec} `{Dl : !DhtCodecLaws} `{Sl : !SignatureLaws Sg signed}.
Context {R D : Type} `{Rs : !RecordStore R} `{Ds : !DhtPersistentStorage D} `{Rl : !RecordStoreLaws R}.
Context (kad_stamp : KadRecord → KadRecord) (peer_id_from_bytes : bytes → option Z).
Context {M : Type} `{Mb : !Membership M} (membership : M) (lookup_record_value : RecordValue).

(** C35. Whatever other peers do, a direct message that leaves the network goes to a peer id
    that the owner of the recipient's key has signed for that key: from the call of
    [direct_message], over the lookup in the DHT that the node runs, to the request. *)
Theorem direct_messages_reach_their_addressee me addrs pid addr tr w peer_id (store : PersistentStore (ValidatedStore R) D)
    factor inputs n trace to m rc :
  lp_run peer_id_from_bytes membership lookup_record_value (world_new me addrs pid addr) tr w →
  (∀ k, rs_get (ps_store store) k = None) →
  Forall (fun i => match i.2 with LStore o => op_ok o | _ => True end) inputs →
  loop_run kad_stamp (spawn_listeners (NetworkNode_new peer_id store factor)) inputs = Ok (n, trace) →
  (∀ k notify rc, LRequest (GetDHT k notify rc) ∈ map snd inputs → Request (GetDHT k notify rc) ∈ tr) →
  (∀ chan b, Answered chan b ∈ tr → ∃ i out, (i, out) ∈ trace ∧ ToClient chan b ∈ out) →
  Request (DirectRequest to m rc) ∈ tr →
  ∃ recipient value, Called m recipient ∈ tr ∧ recipient ≠ me ∧ peer_id_from_bytes value = Some to ∧
    signed recipient (RecordKey_to_bytes (lookup_key recipient) ++ value).
Proof using Dl Sl Rl.
  intros Hrun Hempty Hin Hloop Hreq Hans Hsent.
  destruct (world_ok_run _ _ _ _ _ _ _ _ _ Hrun) as [_ _ _ _ _ _ _ _ _ [Hchans Huniq] Hdirect].
  destruct (Hdirect _ _ _ Hsent) as (k & chan & b & value & Hne & Hcalled & Hlookup & Hb & Hval & Hto).
  exists k, value. split_and!; [done..|].
  destruct (loop_run_node _ _ _ _ _ Hloop) as (ninputs & ntrace & Hnode & Hni & Htr).
  destruct (Hans _ _ Hb) as (i & out & Hi & Ho). destruct (Htr _ _ _ _ Hi Ho) as (ni & out' & Hni' & Ho').
  destruct (lookups_are_authentic kad_stamp (Sl := Sl) peer_id store factor ninputs n ntrace (lookup_key k) chan ni out' b value)
    as [(owner & Hown & Hs) _]; try done.
  - apply Forall_forall. intros [env x] Hx. destruct (Hni x) as (j & Hj & Hjx); [apply list_elem_of_fmap; by exists (env, x)|].
    apply list_elem_of_fmap in Hj as ([env' j'] & -> & Hj). rewrite Forall_forall in Hin. specialize (Hin _ Hj). simpl in *.
    destruct j' as [? []| |]; simplify_eq/=; done.
  - intros k' notify rc' Hx Hc. destruct (Hni _ Hx) as (j & Hj & Hjx).
    assert (j = LRequest (GetDHT k' notify rc')) as -> by (destruct j as [? []| |]; by simplify_eq/=).
    pose proof (Hreq _ _ _ Hj) as Hr. destruct (Hchans _ _ _ Hr) as (c & -> & _).
    apply list_elem_of_singleton in Hc as ->. by eapply Huniq.
  - simpl in Hown. rewrite dk_roundtrip in Hown. injection Hown as ->. exact Hs.
Qed.
End Addressee.

Module Libp2pWitnesses.
Import MemStore DsWitnesses DhtWitnesses.
#[local] Existing Instance Ideal.open_signatures.
#[local] Existing Instance StaticCommittee.

Definition three : @PubKey Ideal.open_signatures := 3.
Definition seven : @PubKey Ideal.open_signatures := 7.
Definition three_value : @RecordValue Ideal.open_signatures := Signed [3] ([] : Sig).
Abbreviation perform_demo := (lp_perform (@head Z) Committee.Demo.committee three_value).
Abbreviation run_demo := (lp_run (@head Z) Committee.Demo.committee three_value (world_new three [] 9 [])).

Fixpoint perform_all (w : World) (l : list LpAction) : option (World * list Seen) :=
  match l with
  | [] => Some (w, [])
  | a :: l => '(w, seen) ← perform_demo w a; '(w, seen') ← perform_all w l; Some (w, seen ++ seen')
  end.

Lemma perform_all_run tr w l w' seen : run_demo tr w → perform_all w l = Some (w', seen) → run_demo (tr ++ seen) w'.
Proof.
  revert tr w seen. induction l as [|a l IH]; intros tr w seen Hr; simpl; [intros [= <- <-]; by rewrite app_nil_r|].
  intros ([w1 s1] & Hp & ([w2 s2] & Ha & [= <- <-])%bind_Some)%bind_Some. rewrite app_assoc. eapply IH; [|done].
  by eapply lp_run_next.
Qed.

(** Node three joins, and sends a message to key seven, which has published peer five. *)
Definition actions : list LpAction :=
  [LpConnect CWake; LpEvent IsBootstrapped; LpConnect CWake; LpConnect (CDone true); LpConnect CWake; LpConnect (CDone true);
   LpConnect CWake; LpConnect (CCount (Some 4%nat)); LpDirect [42] seven; LpAnswer 7 (Answer (Some my_bytes))].
Definition seen_all : list Seen := default [] (snd <$> perform_all (world_new three [] 9 []) actions).

Definition node_inputs : list (Env * LoopInput (R := mem) (D := list SerializableRecord)) :=
  [(env, LSwarm true ConnectionEstablished); (env, LRequest (lookup_request seven 7));
   (env, LSwarm true (DHTEvent (GetRecordProgressed 0 (FoundRecord my_record) false)));
   (env, LSwarm true (DHTEvent (GetRecordProgressed 0 (FoundRecord my_record) false)))].

Lemma actions_run : ∃ w, run_demo seen_all w ∧ is_ready (inner w) = true.
Proof.
  destruct (perform_all (world_new three [] 9 []) actions) as [[w tr]|] eqn:Hp; [|vm_compute in Hp; discriminate Hp].
  exists w. split.
  - unfold seen_all. rewrite Hp. simpl. apply (perform_all_run [] (world_new three [] 9 []) actions); [constructor|exact Hp].
  - assert (is_ready ∘ inner ∘ fst <$> perform_all (world_new three [] 9 []) actions = Some true) as H by (vm_compute; reflexivity).
    rewrite Hp in H. simpl in H. congruence.
Qed.

Lemma node_runs : ∃ n, loop_run stamp node node_inputs = Ok (n,
  [(LSwarm true ConnectionEstablished, [ToApplication (ConnectedPeersUpdate 0)]);
   (LRequest (lookup_request seven 7), [KadGetRecord 0 [0; 7]]);
   (LSwarm true (DHTEvent (GetRecordProgressed 0 (FoundRecord my_record) false)), []);
   (LSwarm true (DHTEvent (GetRecordProgressed 0 (FoundRecord my_record) false)), [ToClient 7 my_bytes])]).
Proof. apply runs. vm_compute. reflexivity. Qed.

Lemma libp2p_network_runs_witness :
  ∃ w, run_demo seen_all w ∧ joined three_value three seen_all.
Proof.
  destruct actions_run as (w & Hrun & Hready). exists w. split; [exact Hrun|].
  exact (proj2 (proj2 (proj2 (libp2p_network_runs (@head Z) Committee.Demo.committee three_value three [] 9 [] seen_all w Hrun))) Hready).
Defined.

Lemma seen_shape : seen_all =
  [Request (AddKnownPeers [(9, [])]); Request BeginBootstrap; Event IsBootstrapped; Request (Subscribe QC_TOPIC (Some 1%nat));
   Confirmed (Subscribe QC_TOPIC (Some 1%nat))] ++
  map Request (option_list (handle_put_request (lookup_key three) three_value 3)) ++
  map Confirmed (option_list (handle_put_request (lookup_key three) three_value 3)) ++
  [Request (GetConnectedPeerNum 5); Counted 4; Called [42] seven; Request (lookup_request seven 7);
   Answered 7 my_bytes; Request (DirectRequest 5 [42] 1)].
Proof. vm_compute. reflexivity. Qed.

(** The only lookup of the node is the one that was seen, and so is the only answer. *)
Lemma seen_lookups k notify rc :
  LRequest (R := mem) (D := list SerializableRecord) (GetDHT k notify rc) ∈ map snd node_inputs → Request (GetDHT k notify rc) ∈ seen_all.
Proof.
  intros H. assert (GetDHT k notify rc = lookup_request seven 7) as ->.
  { unfold node_inputs in H. cbn [map snd] in H. rewrite !elem_of_cons, elem_of_nil in H. by destruct H as [?|[[= -> -> ->]|[?|[?|[]]]]]. }
  rewrite seen_shape. do 3 (apply elem_of_app; right). do 3 right. left.
Qed.

Lemma seen_sent : Request (DirectRequest 5 [42] 1) ∈ seen_all.
Proof. rewrite seen_shape. do 3 (apply elem_of_app; right). do 5 right. left. Qed.

Lemma seen_answers chan b : Answered chan b ∈ seen_all → chan = 7%nat ∧ b = my_bytes.
Proof.
  rewrite seen_shape, !elem_of_app, !list_elem_of_fmap. intros [H|[(? & ? & _)|[(? & ? & _)|H]]]; [|done..|];
    rewrite !elem_of_cons, elem_of_nil in H; naive_solver.
Qed.

Lemma direct_messages_reach_their_addressee_witness :
  ∃ recipient value, Called [42] recipient ∈ seen_all ∧ recipient ≠ three ∧ head value = Some 5 ∧
    Ideal.all_sign recipient (RecordKey_to_bytes (lookup_key recipient) ++ value) = true.
Proof.
  destruct actions_run as (w & Hrun & _). destruct node_runs as [n Hloop].
  refine (direct_messages_reach_their_addressee (Sl := Ideal.open_laws) stamp (@head Z) Committee.Demo.committee three_value
    three [] 9 [] seen_all w 0 start 4 node_inputs n _ 5 [42] 1 Hrun _ _ Hloop seen_lookups _ _).
  - intros k. apply lookup_empty.
  - repeat constructor.
  - intros chan b [-> ->]%seen_answers. do 2 eexists. split; [do 3 right; left|left].
  - exact seen_sent.
Defined.
End Libp2pWitnesses.
