(* ===== verification/Transport.v ===== *)
(** * The authenticated transport

    [libp2p-networking/src/network/transport.rs]: when a connection is made, the two
    sides exchange messages in which each proves that the holder of a stake table key
    vouches for its peer id.  The side that dials sends its message first; the side that
    accepts checks the message before it sends its own.

    The transport below, [bincode] and the encoding of keys and peer ids are outside.
    A stream is the list of bytes that the other side has sent. *)

From S2P Require Import Prelude Epochs Crypto Committee RequestMessage.

Definition MAX_AUTH_MESSAGE_SIZE : Z := 1024.

(** ** Length-delimited messages *)

(** [u32::to_be_bytes] and [from_be_bytes] *)
Definition to_be_bytes (n : nat) (x : Z) : bytes := reverse (to_le_bytes n x).
Definition from_be_bytes (b : bytes) : Z := from_le_bytes (reverse b).

Definition read_length_delimited (max_size : Z) : Reader bytes :=
  len_bytes ← read_exact 4;
  let len := from_be_bytes len_bytes in
  _ ← reader_of (ensure (len <=? max_size) "Message too large");
  read_exact (Z.to_nat len).

(** What is written to the stream. *)
Definition write_length_delimited (message : bytes) : outcome Error bytes :=
  let len := Z.of_nat (length message) in
  _ ← ensure (len <? 2 ^ 32) "out of range integral type conversion attempted";
  Ok (to_be_bytes 4 len ++ message).

Lemma length_delimited_roundtrip max message w :
  Z.of_nat (length message) <= max → write_length_delimited message = Ok w → reads (read_length_delimited max) w message.
Proof.
  unfold write_length_delimited. intros Hmax (u & Hlen%ensure_ok_inv & <-%Ok_inj)%bind_ok_inv. bool_facts.
  eapply bind_reads; [apply read_exact_reads; unfold to_be_bytes; by rewrite length_reverse, to_le_length|].
  unfold from_be_bytes, to_be_bytes. rewrite reverse_involutive, le_roundtrip by (simpl; lia).
  intros rest. unfold mbind, reader_bind, reader_of. apply Z.leb_le in Hmax. rewrite Hmax. simpl.
  rewrite Nat2Z.id. by apply read_exact_reads.
Qed.

Section Transport.
Context `{Sg : SignatureScheme}.

(** ** Authentication messages *)

Record AuthMessage := {
  public_key_bytes : bytes;
  peer_id_bytes : bytes;
  auth_signature : Sig;
}.

(** Peer ids, and the encodings. *)
Class AuthCodec := {
  PeerId : Type;
  #[global] PeerId_eq_dec :: EqDecision PeerId;
  peer_id_to_bytes : PeerId → bytes;
  peer_id_from_bytes : bytes → option PeerId;
  ak_to_bytes : PubKey → bytes;
  ak_from_bytes : bytes → option PubKey;
  auth_serialize : AuthMessage → option bytes;
  auth_deserialize : bytes → option AuthMessage;
}.

(** The encoding of a key has a fixed length, and reading a key ignores what follows
    ([CanonicalDeserialize] reads from a reader). *)
Class AuthCodecLaws `{AuthCodec} := {
  peer_id_roundtrip p : peer_id_from_bytes (peer_id_to_bytes p) = Some p;
  ak_roundtrip k rest : ak_from_bytes (ak_to_bytes k ++ rest) = Some k;
  auth_roundtrip m b : auth_serialize m = Some b → auth_deserialize b = Some m;
}.
Context `{Ac : AuthCodec}.

Definition AuthMessage_validate (m : AuthMessage) : outcome Error PubKey :=
  public_key ← ok_or (ak_from_bytes (public_key_bytes m)) "Failed to deserialize public key";
  let signed_message := ak_to_bytes public_key ++ peer_id_bytes m in
  _ ← ensure (validate public_key (auth_signature m) signed_message) "Invalid signature";
  Ok public_key.

(** The field for the public key also holds the peer id, which is appended for
    signing. *)
Definition construct_auth_message (public_key : PubKey) (peer_id : PeerId) (private_key : PrivKey) : outcome Error bytes :=
  let peer_id_bytes := peer_id_to_bytes peer_id in
  let public_key_bytes := ak_to_bytes public_key ++ peer_id_bytes in
  signature ← ok_or (sign private_key public_key_bytes) "Failed to sign public key";
  ok_or (auth_serialize {| public_key_bytes := public_key_bytes; peer_id_bytes := peer_id_bytes; auth_signature := signature |})
    "Failed to serialize auth message".

(** ** The handshake *)

Context {M : Type} `{Mb : !Membership M}.

(** What is written to the stream. *)
Definition authenticate_with_remote_peer (auth_message : option bytes) : outcome Error bytes :=
  match auth_message with
  | Some auth_message => write_length_delimited auth_message
  | None => Ok []
  end.

Definition verify_peer_authentication (membership : option M) (required_peer_id : PeerId) : Reader unit :=
  match membership with
  | Some _ =>
      message ← read_length_delimited MAX_AUTH_MESSAGE_SIZE;
      auth_message ← reader_of (ok_or (auth_deserialize message) "Failed to deserialize auth message");
      _ ← reader_of (AuthMessage_validate auth_message);
      peer_id ← reader_of (ok_or (peer_id_from_bytes (peer_id_bytes auth_message)) "Failed to deserialize peer ID");
      reader_of (ensure (bool_decide (peer_id = required_peer_id)) "Peer ID mismatch")
  | None => mret tt
  end.

Record StakeTableAuthentication := {
  sta_membership : option M;
  sta_auth_message : option bytes;
}.

(** One side of the handshake, on what it receives: what it sends, and whether it
    accepts the connection.  The timeout of five seconds turns a side that still waits
    for bytes into an error, which is also what a stream that ends gives. *)
Definition gen_handshake (t : StakeTableAuthentication) (outgoing : bool) (peer_id : PeerId) (received : bytes)
    : bytes * outcome Error unit :=
  let verify := fst <$> verify_peer_authentication (sta_membership t) peer_id received in
  let send := authenticate_with_remote_peer (sta_auth_message t) in
  if outgoing then
    match send with
    | Ok w => (w, verify)
    | Err e => ([], Err e)
    | Panic => ([], Panic)
    end
  else
    match verify with
    | Ok _ =>
        match send with
        | Ok w => (w, Ok tt)
        | Err e => ([], Err e)
        | Panic => ([], Panic)
        end
    | r => ([], r)
    end.

(** A dialling and an accepting side on one connection: the dialler's message arrives
    first, and then the answer. *)
Definition connect (dialler accepter : StakeTableAuthentication) (dialler_id accepter_id : PeerId)
    : outcome Error unit * outcome Error unit :=
  let first := match authenticate_with_remote_peer (sta_auth_message dialler) with Ok w => w | _ => [] end in
  let '(answer, accepted) := gen_handshake accepter false dialler_id first in
  (snd (gen_handshake dialler true accepter_id answer), accepted).

(** ** Properties *)

Lemma verify_inv m pid received u rest :
  verify_peer_authentication (Some m) pid received = Ok (u, rest) →
  ∃ message a key, auth_deserialize message = Some a ∧ AuthMessage_validate a = Ok key ∧
    peer_id_from_bytes (peer_id_bytes a) = Some pid.
Proof using Type.
  unfold verify_peer_authentication, mbind at 1, reader_bind.
  intros ([message r1] & _ & H)%bind_ok_inv. apply bind_ok_inv in H as ([a r2] & Ha & H).
  apply bind_ok_inv in Ha as (a' & Ha & [= -> _]%Ok_inj).
  apply bind_ok_inv in H as ([key r3] & Hk & H). apply bind_ok_inv in Hk as (key' & Hk & [= -> _]%Ok_inj).
  apply bind_ok_inv in H as ([p r4] & Hp & H). apply bind_ok_inv in Hp as (p' & Hp & [= -> _]%Ok_inj).
  apply bind_ok_inv in H as (u' & Hu%ensure_ok_inv & _). apply bool_decide_eq_true in Hu as ->.
  exists message, a, key. split_and!; [by eapply ok_or_Ok|done|by eapply ok_or_Ok].
Qed.

Lemma handshake_verified t outgoing pid received w u :
  gen_handshake t outgoing pid received = (w, Ok u) →
  ∃ u' rest, verify_peer_authentication (sta_membership t) pid received = Ok (u', rest).
Proof using Type.
  unfold gen_handshake. destruct (verify_peer_authentication _ _ _) as [[u' rest]| |]; simpl; [by eauto|..];
    destruct outgoing; repeat case_match; intros [=].
Qed.

(** C34. A connection that passes the handshake of a node with a stake table comes from a
    peer for whose id the holder of some key has signed. *)
Theorem accepted_peers_are_vouched_for `{Sl : !SignatureLaws Sg signed} t m outgoing pid received w :
  sta_membership t = Some m → gen_handshake t outgoing pid received = (w, Ok tt) →
  ∃ key b, peer_id_from_bytes b = Some pid ∧ signed key (ak_to_bytes key ++ b).
Proof using Type.
  intros Hm (u & rest & Hv)%handshake_verified. rewrite Hm in Hv.
  apply verify_inv in Hv as (message & a & key & _ & Hval & Hp). exists key, (peer_id_bytes a). split; [done|].
  apply bind_ok_inv in Hval as (k & _ & Hval). apply bind_ok_inv in Hval as (u' & Hs%ensure_ok_inv & ->%Ok_inj).
  by eapply verify_unforgeable.
Qed.

Section Honest.
Context `{Al : !AuthCodecLaws} `{Sl : !SignatureLaws Sg signed}.

(** The message of a node passes the check of its peer. *)
Lemma own_message_verifies m sk pid msg w rest :
  construct_auth_message (from_private sk) pid sk = Ok msg → Z.of_nat (length msg) <= MAX_AUTH_MESSAGE_SIZE →
  authenticate_with_remote_peer (Some msg) = Ok w →
  verify_peer_authentication (Some m) pid (w ++ rest) = Ok (tt, rest).
Proof using Al Sl.
  intros Hc Hlen Hw. apply bind_ok_inv in Hc as (sig & Hsig%ok_or_Ok & Hser%ok_or_Ok).
  unfold verify_peer_authentication, mbind at 1, reader_bind.
  rewrite (length_delimited_roundtrip _ _ _ Hlen Hw rest). simpl. unfold mbind at 1, reader_bind, reader_of at 1.
  rewrite (auth_roundtrip _ _ Hser). simpl. unfold mbind at 1, reader_bind, reader_of at 1, AuthMessage_validate. simpl.
  rewrite ak_roundtrip. simpl. unfold validate. rewrite (sign_verify (SignatureLaws := Sl) _ _ _ Hsig). simpl.
  unfold mbind at 1, reader_bind, reader_of. rewrite peer_id_roundtrip. simpl. by rewrite bool_decide_eq_true_2.
Qed.

(** Two nodes that send the messages made for their own key and peer id accept each
    other, in the order in which the two sides of the handshake wait for each other.
    This holds for every pair of stake tables: the tables are not looked at, so a node
    without stake is accepted like one with stake. *)
Theorem handshake_succeeds m m' sk sk' pid pid' msg msg' :
  construct_auth_message (from_private sk) pid sk = Ok msg → Z.of_nat (length msg) <= MAX_AUTH_MESSAGE_SIZE →
  construct_auth_message (from_private sk') pid' sk' = Ok msg' → Z.of_nat (length msg') <= MAX_AUTH_MESSAGE_SIZE →
  connect {| sta_membership := Some m; sta_auth_message := Some msg |}
          {| sta_membership := Some m'; sta_auth_message := Some msg' |} pid pid' = (Ok tt, Ok tt).
Proof using Al Sl.
  intros Hc Hl Hc' Hl'. assert (∀ msg, Z.of_nat (length msg) <= MAX_AUTH_MESSAGE_SIZE →
    ∃ w, authenticate_with_remote_peer (Some msg) = Ok w) as Hw.
  { intros x Hx. simpl. unfold write_length_delimited. unfold MAX_AUTH_MESSAGE_SIZE in Hx.
    assert (Z.of_nat (length x) <? 2 ^ 32 = true) as -> by (apply Z.ltb_lt; lia). simpl. by eexists. }
  destruct (Hw _ Hl) as [w Hw1], (Hw _ Hl') as [w' Hw2]. unfold connect, gen_handshake. cbn [sta_membership sta_auth_message].
  pose proof (own_message_verifies m' _ _ _ _ [] Hc Hl Hw1) as Hv.
  pose proof (own_message_verifies m _ _ _ _ [] Hc' Hl' Hw2) as Hv'. rewrite app_nil_r in Hv, Hv'.
  rewrite Hw1, Hw2, Hv. cbn [fmap outcome_fmap fst]. by rewrite Hv'.
Qed.
End Honest.

(** The contents of the stake table make no difference. *)
Lemma stake_table_is_not_checked m m' msg outgoing pid received :
  gen_handshake {| sta_membership := Some m; sta_auth_message := msg |} outgoing pid received =
  gen_handshake {| sta_membership := Some m'; sta_auth_message := msg |} outgoing pid received.
Proof using Type. done. Qed.
End Transport.

Module TrWitnesses.
#[local] Existing Instance Ideal.open_signatures.
#[local] Instance sig_countable : Countable (@Sig Ideal.open_signatures) := _ : Countable (list (Z * bytes)).

(** Keys and peer ids are numbers; a message is encoded as one number. *)
#[local] Instance codec : AuthCodec := {|
  PeerId := Z;
  peer_id_to_bytes p := [p];
  peer_id_from_bytes b := match b with [p] => Some p | _ => None end;
  ak_to_bytes (k : PubKey) := [k : Z];
  ak_from_bytes b := match b with k :: _ => Some (k : PubKey) | [] => None end;
  auth_serialize m := Some [Z.pos (encode (public_key_bytes m, peer_id_bytes m, auth_signature m))];
  auth_deserialize b :=
    match b with
    | [Z.pos p] => '(k, i, s) ← decode p; Some {| public_key_bytes := k; peer_id_bytes := i; auth_signature := s |}
    | _ => None
    end;
|}.
#[local] Instance codec_laws : AuthCodecLaws.
Proof.
  split; [done|done|]. intros m b [= <-]. change ((decode (encode (public_key_bytes m, peer_id_bytes m, auth_signature m))
    ≫= fun '(k, i, s) => Some {| public_key_bytes := k; peer_id_bytes := i; auth_signature := s |}) = Some m).
  rewrite decode_encode. by destruct m.
Qed.

Definition pid (z : Z) : @PeerId _ codec := z.

(** A committee without members. *)
Definition nobody : Committee := committee_new [] [].
Definition message (sk : Z) (id : Z) : bytes :=
  match construct_auth_message (sk : @PubKey Ideal.open_signatures) (pid id) (sk : @PrivKey Ideal.open_signatures) with Ok m => m | _ => [] end.
Definition node (sk id : Z) : StakeTableAuthentication (M := Committee) :=
  {| sta_membership := Some nobody; sta_auth_message := Some (message sk id) |}.

Lemma handshake_succeeds_witness :
  connect (node 7 1) (node 8 2) (pid 1) (pid 2) = (Ok tt, Ok tt).
Proof.
  apply (handshake_succeeds (Sl := Ideal.open_laws) nobody nobody (7 : @PrivKey Ideal.open_signatures) (8 : @PrivKey Ideal.open_signatures)
           (pid 1) (pid 2) (message 7 1) (message 8 2)).
  - reflexivity.
  - done.
  - reflexivity.
  - done.
Defined.

Lemma accepted_peers_are_vouched_for_witness :
  ∃ (key : Z) b, peer_id_from_bytes b = Some (pid 1) ∧ Ideal.all_sign key ([key] ++ b) = true.
Proof.
  refine (accepted_peers_are_vouched_for (Sl := Ideal.open_laws) (node 8 2) nobody false (pid 1)
           (match authenticate_with_remote_peer (Some (message 7 1)) with Ok w => w | _ => [] end)
           (match authenticate_with_remote_peer (Some (message 8 2)) with Ok w => w | _ => [] end) _ _).
  - reflexivity.
  - vm_compute. reflexivity.
Defined.
End TrWitnesses.
