(* ===== verification/Orchestrator.v ===== *)
(** * The orchestrator

    [orchestrator/src/lib.rs]: the server that hands out node indices, collects the
    nodes' keys into a configuration, gives the signal to start, and aggregates the
    results of a run.  The state is behind a lock: a request is one step.

    The decoding of request bodies, the checks whether a builder can be reached and the
    output of results are outside.  Of the configuration only the fields that the
    server reads or writes are kept; the others are copied along. *)

From S2P Require Import Prelude Crypto.

(** ** Integers of 16 and 64 bits *)

Definition u16_modulus : Z := 2 ^ 16.
Definition i64_wrap (x : Z) : Z := (x + 2 ^ 63) mod 2 ^ 64 - 2 ^ 63.
Definition i64_div {E} (a b : Z) : outcome E Z :=
  if (b =? 0) || ((a =? - 2 ^ 63) && (b =? -1)) then Panic else Ok (Z.quot a b).

(** ** Configuration *)

Inductive BuilderType := External | Simple | Random.

Section Orchestrator.
Context `{Sg : SignatureScheme}.

(** [PeerConfig]; a state key is a number. *)
Record PeerConfig := { stake_table_entry : StakeTableEntry; state_ver_key : Z }.
#[global] Instance PeerConfig_eq_dec : EqDecision PeerConfig.
Proof using Type. solve_decision. Defined.

Record PeerConfigKeys := {
  pk_stake_table_key : PubKey;
  pk_state_ver_key : Z;
  pk_stake : Z;
  pk_da : bool;
}.

(** [HotShotConfig] *)
Record HotShotConfig := {
  start_threshold : Z * Z;
  num_nodes_with_stake : Z;
  known_nodes_with_stake : list PeerConfig;
  known_da_nodes : list PeerConfig;
  da_staked_committee_size : Z;
  builder_urls : list string;
}.

(** [bootstrap_nodes] are peer ids with addresses. *)
Record NetworkConfig := {
  indexed_da : bool;
  manual_start_password : option string;
  libp2p_config : option (list (Z * string));
  config : HotShotConfig;
  builder : BuilderType;
  public_keys : list PeerConfigKeys;
}.

Definition peer_of_keys (keys : PeerConfigKeys) : PeerConfig :=
  {| stake_table_entry := {| stake_key := pk_stake_table_key keys; stake_amount := pk_stake keys |};
     state_ver_key := pk_state_ver_key keys |}.

Definition set_known (c : NetworkConfig) (nodes da_nodes : list PeerConfig) : NetworkConfig :=
  {| indexed_da := indexed_da c; manual_start_password := manual_start_password c; libp2p_config := libp2p_config c;
     config := {| start_threshold := start_threshold (config c); num_nodes_with_stake := num_nodes_with_stake (config c);
                  known_nodes_with_stake := nodes; known_da_nodes := da_nodes;
                  da_staked_committee_size := da_staked_committee_size (config c); builder_urls := builder_urls (config c) |};
     builder := builder c; public_keys := public_keys c |}.

(** ** State *)

Record BenchResults := {
  partial_results : string;
  avg_latency_in_sec : Z;
  num_latency : Z;
  minimum_latency_in_sec : Z;
  maximum_latency_in_sec : Z;
  throughput_bytes_per_sec : Z;
  total_transactions_committed : Z;
  transaction_size_in_bytes : Z;
  total_time_elapsed_in_sec : Z;
  total_num_views : Z;
  failed_num_views : Z;
  committee_type : string;
}.
Definition BenchResults_default : BenchResults :=
  {| partial_results := ""; avg_latency_in_sec := 0; num_latency := 0; minimum_latency_in_sec := 0;
     maximum_latency_in_sec := 0; throughput_bytes_per_sec := 0; total_transactions_committed := 0;
     transaction_size_in_bytes := 0; total_time_elapsed_in_sec := 0; total_num_views := 0; failed_num_views := 0;
     committee_type := "" |}.

Record OrchestratorState := {
  latest_index : Z;
  tmp_latest_index : Z;
  o_config : NetworkConfig;
  peer_pub_ready : bool;
  pub_posted : gmap bytes (Z * bool);
  o_start : bool;
  (** A set; new nodes come last. *)
  nodes_connected : list PeerConfig;
  bench_results : BenchResults;
  nodes_post_results : Z;
  manual_start_allowed : bool;
  accepting_new_keys : bool;
  builders : list string;
  fixed_stake_table : bool;
}.

Definition OrchestratorState_new (c : NetworkConfig) : OrchestratorState :=
  let fixed := negb (bool_decide (known_nodes_with_stake (config c) = [])) in
  {| latest_index := 0; tmp_latest_index := 0; o_config := c; peer_pub_ready := fixed; pub_posted := ∅;
     o_start := false; nodes_connected := []; bench_results := BenchResults_default; nodes_post_results := 0;
     manual_start_allowed := true; accepting_new_keys := true;
     builders := match builder c with External => builder_urls (config c) | _ => [] end;
     fixed_stake_table := fixed |}.

(** The configuration that [run_orchestrator] starts from: the keys of the file make up
    the stake table. *)
Definition run_orchestrator_config (c : NetworkConfig) (env_password : option string)
    (env_public_keys : option (list PeerConfigKeys)) : NetworkConfig :=
  let keys := default (public_keys c) env_public_keys in
  let c := {| indexed_da := indexed_da c;
              manual_start_password := match env_password with Some p => Some p | None => manual_start_password c end;
              libp2p_config := libp2p_config c; config := config c; builder := builder c; public_keys := keys |} in
  set_known c (map peer_of_keys keys) (map peer_of_keys (base.filter (fun k => pk_da k = true) keys)).

(** Changes of single fields. *)
Definition with_indices (s : OrchestratorState) (latest tmp : Z) : OrchestratorState :=
  {| latest_index := latest; tmp_latest_index := tmp; o_config := o_config s; peer_pub_ready := peer_pub_ready s;
     pub_posted := pub_posted s; o_start := o_start s; nodes_connected := nodes_connected s;
     bench_results := bench_results s; nodes_post_results := nodes_post_results s;
     manual_start_allowed := manual_start_allowed s; accepting_new_keys := accepting_new_keys s;
     builders := builders s; fixed_stake_table := fixed_stake_table s |}.
Definition with_config (s : OrchestratorState) (c : NetworkConfig) (posted : gmap bytes (Z * bool)) : OrchestratorState :=
  {| latest_index := latest_index s; tmp_latest_index := tmp_latest_index s; o_config := c;
     peer_pub_ready := peer_pub_ready s; pub_posted := posted; o_start := o_start s;
     nodes_connected := nodes_connected s; bench_results := bench_results s;
     nodes_post_results := nodes_post_results s; manual_start_allowed := manual_start_allowed s;
     accepting_new_keys := accepting_new_keys s; builders := builders s; fixed_stake_table := fixed_stake_table s |}.
Definition with_flags (s : OrchestratorState) (ready started manual accepting : bool) : OrchestratorState :=
  {| latest_index := latest_index s; tmp_latest_index := tmp_latest_index s; o_config := o_config s;
     peer_pub_ready := ready; pub_posted := pub_posted s; o_start := started;
     nodes_connected := nodes_connected s; bench_results := bench_results s;
     nodes_post_results := nodes_post_results s; manual_start_allowed := manual;
     accepting_new_keys := accepting; builders := builders s; fixed_stake_table := fixed_stake_table s |}.
Definition with_connected (s : OrchestratorState) (l : list PeerConfig) : OrchestratorState :=
  {| latest_index := latest_index s; tmp_latest_index := tmp_latest_index s; o_config := o_config s;
     peer_pub_ready := peer_pub_ready s; pub_posted := pub_posted s; o_start := o_start s;
     nodes_connected := l; bench_results := bench_results s;
     nodes_post_results := nodes_post_results s; manual_start_allowed := manual_start_allowed s;
     accepting_new_keys := accepting_new_keys s; builders := builders s; fixed_stake_table := fixed_stake_table s |}.
Definition with_results (s : OrchestratorState) (b : BenchResults) (n : Z) : OrchestratorState :=
  {| latest_index := latest_index s; tmp_latest_index := tmp_latest_index s; o_config := o_config s;
     peer_pub_ready := peer_pub_ready s; pub_posted := pub_posted s; o_start := o_start s;
     nodes_connected := nodes_connected s; bench_results := b;
     nodes_post_results := n; manual_start_allowed := manual_start_allowed s;
     accepting_new_keys := accepting_new_keys s; builders := builders s; fixed_stake_table := fixed_stake_table s |}.
Definition with_builders (s : OrchestratorState) (l : list string) : OrchestratorState :=
  {| latest_index := latest_index s; tmp_latest_index := tmp_latest_index s; o_config := o_config s;
     peer_pub_ready := peer_pub_ready s; pub_posted := pub_posted s; o_start := o_start s;
     nodes_connected := nodes_connected s; bench_results := bench_results s;
     nodes_post_results := nodes_post_results s; manual_start_allowed := manual_start_allowed s;
     accepting_new_keys := accepting_new_keys s; builders := l; fixed_stake_table := fixed_stake_table s |}.

(** The status codes of the errors. *)
Inductive ServerError := BadRequest | Forbidden | NotFound.

(** ** Handlers

    A handler returns the new state also with an error. *)

(** [PeerConfig::from_bytes] *)
Context (from_bytes : bytes → option PeerConfig).

(** The bootstrap nodes get the node, if libp2p is configured and the node sent both
    its key and its address. *)
Definition add_bootstrap (c : NetworkConfig) (address : option string) (key : option Z) : NetworkConfig :=
  {| indexed_da := indexed_da c; manual_start_password := manual_start_password c;
     libp2p_config := match libp2p_config c, key, address with
                      | Some nodes, Some key, Some address => Some (nodes ++ [(key, address)])
                      | l, _, _ => l
                      end;
     config := config c; builder := builder c; public_keys := public_keys c |}.

(** The indices are [u16]s that wrap around. *)
Definition post_identity (s : OrchestratorState) (address : option string) (key : option Z)
    : OrchestratorState * outcome ServerError Z :=
  let node_index := latest_index s in
  let s := with_indices s ((latest_index s + 1) mod u16_modulus) (tmp_latest_index s) in
  if num_nodes_with_stake (config (o_config s)) <=? node_index then (s, Err BadRequest)
  else (with_config s (add_bootstrap (o_config s) address key) (pub_posted s), Ok node_index).

Definition post_getconfig (s : OrchestratorState) (_node_index : Z) : OrchestratorState * outcome ServerError NetworkConfig :=
  (s, Ok (o_config s)).

Definition get_tmp_node_index (s : OrchestratorState) : OrchestratorState * outcome ServerError Z :=
  let tmp_node_index := tmp_latest_index s in
  let s := with_indices s (latest_index s) ((tmp_latest_index s + 1) mod u16_modulus) in
  if num_nodes_with_stake (config (o_config s)) <=? tmp_node_index then (s, Err BadRequest) else (s, Ok tmp_node_index).

Definition register_unknown (s : OrchestratorState) (pubkey : bytes) (da_requested : bool)
    (address : option string) (key : option Z) : OrchestratorState * outcome ServerError (Z * bool) :=
  match pub_posted s !! pubkey with
  | Some r => (s, Ok r)
  | None =>
      if negb (accepting_new_keys s) then (s, Err Forbidden)
      else
        let node_index := Z.of_nat (size (pub_posted s)) in
        match from_bytes pubkey with
        | None => (s, Panic)
        | Some staked_pubkey =>
            let c := o_config s in
            let nodes := known_nodes_with_stake (config c) ++ [staked_pubkey] in
            let da_full := da_staked_committee_size (config c) <=? Z.of_nat (length (known_da_nodes (config c))) in
            let added_to_da := (indexed_da c || (negb (indexed_da c) && da_requested)) && negb da_full in
            let da_nodes := if added_to_da then known_da_nodes (config c) ++ [staked_pubkey] else known_da_nodes (config c) in
            let posted := <[pubkey := (node_index, added_to_da)]> (pub_posted s) in
            let s := with_config s (add_bootstrap (set_known c nodes da_nodes) address key) posted in
            let s := if num_nodes_with_stake (config c) <=? node_index + 1
                     then with_flags s true (o_start s) (manual_start_allowed s) false else s in
            (s, Ok (node_index, added_to_da))
        end
  end.

Definition register_from_list (s : OrchestratorState) (pubkey : bytes) (da_requested : bool)
    (address : option string) (key : option Z) : OrchestratorState * outcome ServerError (Z * bool) :=
  match pub_posted s !! pubkey with
  | Some r => (s, Ok r)
  | None =>
      match from_bytes pubkey with
      | None => (s, Panic)
      | Some staked_pubkey =>
          match list_find (fun keys => pk_stake_table_key keys = stake_key (stake_table_entry staked_pubkey))
                  (public_keys (o_config s)) with
          | None => (s, Err Forbidden)
          | Some (node_index, node_config) =>
              if negb (bool_decide (pk_da node_config = da_requested)) then (s, Err BadRequest)
              else
                let r := (Z.of_nat node_index, pk_da node_config) in
                (with_config s (add_bootstrap (o_config s) address key) (<[pubkey := r]> (pub_posted s)), Ok r)
          end
      end
  end.

Definition register_public_key (s : OrchestratorState) (pubkey : bytes) (da_requested : bool)
    (address : option string) (key : option Z) : OrchestratorState * outcome ServerError (Z * bool) :=
  if fixed_stake_table s then register_from_list s pubkey da_requested address key
  else register_unknown s pubkey da_requested address key.

Definition get_peer_pub_ready (s : OrchestratorState) : outcome ServerError bool :=
  if peer_pub_ready s then Ok true else Err BadRequest.

Definition post_config_after_peer_collected (s : OrchestratorState) : OrchestratorState * outcome ServerError NetworkConfig :=
  (s, if peer_pub_ready s then Ok (o_config s) else Err BadRequest).

Definition get_start (s : OrchestratorState) : outcome ServerError bool :=
  if o_start s then Ok true else Err BadRequest.

Definition post_ready (s : OrchestratorState) (peer_config : PeerConfig) : OrchestratorState * outcome ServerError unit :=
  let c := config (o_config s) in
  if negb (bool_decide (peer_config ∈ known_nodes_with_stake c)) then (s, Err Forbidden)
  else
    let s := if decide (peer_config ∈ nodes_connected s) then s
             else with_connected s (nodes_connected s ++ [peer_config]) in
    let s := if u64_mul (num_nodes_with_stake c) (start_threshold c).1
                <=? u64_mul (Z.of_nat (length (nodes_connected s))) (start_threshold c).2
             then with_flags s (peer_pub_ready s) true false false else s in
    (s, Ok tt).

(** [from_utf8] of the password is a parameter; bytes that are not UTF-8 panic. *)
Context (from_utf8 : bytes → option string).

Definition post_manual_start (s : OrchestratorState) (password_bytes : bytes) : OrchestratorState * outcome ServerError unit :=
  if negb (manual_start_allowed s) then (s, Err Forbidden)
  else
    match from_utf8 password_bytes with
    | None => (s, Panic)
    | Some password =>
        let c := o_config s in
        if negb (bool_decide (manual_start_password c = Some password)) then (s, Err Forbidden)
        else
          let registered_nodes_with_stake := Z.of_nat (length (known_nodes_with_stake (config c))) in
          let registered_da_nodes := Z.of_nat (length (known_da_nodes (config c))) in
          if 1 <? registered_da_nodes then
            if registered_nodes_with_stake =? 0 then (s, Panic)
            else
              let hc := {| start_threshold := start_threshold (config c); num_nodes_with_stake := registered_nodes_with_stake;
                           known_nodes_with_stake := known_nodes_with_stake (config c);
                           known_da_nodes := known_da_nodes (config c); da_staked_committee_size := registered_da_nodes;
                           builder_urls := builder_urls (config c) |} in
              let c := {| indexed_da := indexed_da c; manual_start_password := manual_start_password c;
                          libp2p_config := libp2p_config c; config := hc; builder := builder c; public_keys := public_keys c |} in
              (with_flags (with_config s c (pub_posted s)) true true false false, Ok tt)
          else (s, Err Forbidden)
    end.

(** *** Results *)

Definition merge_results (m cur : BenchResults) : outcome ServerError BenchResults :=
  avg ← i64_div (i64_wrap (i64_wrap (avg_latency_in_sec m * num_latency m) +
                           i64_wrap (avg_latency_in_sec cur * num_latency cur)))
                (i64_wrap (num_latency m + num_latency cur));
  Ok {| partial_results := partial_results cur; avg_latency_in_sec := avg;
        num_latency := i64_wrap (num_latency cur + num_latency m);
        minimum_latency_in_sec := Z.min (minimum_latency_in_sec m) (minimum_latency_in_sec cur);
        maximum_latency_in_sec := Z.max (maximum_latency_in_sec m) (maximum_latency_in_sec cur);
        throughput_bytes_per_sec := Z.max (throughput_bytes_per_sec m) (throughput_bytes_per_sec cur);
        total_transactions_committed := Z.max (total_transactions_committed m) (total_transactions_committed cur);
        transaction_size_in_bytes := transaction_size_in_bytes cur;
        total_time_elapsed_in_sec := Z.max (total_time_elapsed_in_sec m) (total_time_elapsed_in_sec cur);
        total_num_views := Z.min (total_num_views m) (total_num_views cur);
        failed_num_views := Z.max (failed_num_views m) (failed_num_views cur);
        committee_type := committee_type cur |}.

Definition set_partial (b : BenchResults) (p : string) : BenchResults :=
  {| partial_results := p; avg_latency_in_sec := avg_latency_in_sec b; num_latency := num_latency b;
     minimum_latency_in_sec := minimum_latency_in_sec b; maximum_latency_in_sec := maximum_latency_in_sec b;
     throughput_bytes_per_sec := throughput_bytes_per_sec b; total_transactions_committed := total_transactions_committed b;
     transaction_size_in_bytes := transaction_size_in_bytes b; total_time_elapsed_in_sec := total_time_elapsed_in_sec b;
     total_num_views := total_num_views b; failed_num_views := failed_num_views b; committee_type := committee_type b |}.

(** The stages of the partial results; each one is printed and written to the file. *)
Definition next_stage (from to : string) (cond : bool) (r : BenchResults * list string) : BenchResults * list string :=
  if bool_decide (partial_results r.1 = from) && cond then (set_partial r.1 to, r.2 ++ [to]) else r.
Definition final_stage (to : string) (cond : bool) (r : BenchResults * list string) : BenchResults * list string :=
  if negb (bool_decide (partial_results r.1 = to)) && cond then (set_partial r.1 to, r.2 ++ [to]) else r.

(** With the stages that are output. *)
Definition post_run_results (s : OrchestratorState) (metrics : BenchResults)
    : OrchestratorState * outcome ServerError (list string) :=
  let merged :=
    if total_transactions_committed metrics =? 0 then Ok (bench_results s)
    else if total_transactions_committed (bench_results s) =? 0 then Ok metrics
    else merge_results metrics (bench_results s) in
  match merged with
  | Ok b =>
      let n := u64_add (nodes_post_results s) 1 in
      let c := config (o_config s) in
      let r := next_stage "Unset" "One" true (b, []) in
      let r := next_stage "One" "HalfDA" (da_staked_committee_size c / 2 <=? n) r in
      let r := next_stage "HalfDA" "Half" (num_nodes_with_stake c / 2 <=? n) r in
      let r := final_stage "Full" (num_nodes_with_stake c <=? n) r in
      (with_results s r.1 n, Ok r.2)
  | Err e => (s, Err e)
  | Panic => (s, Panic)
  end.

(** *** Builders *)

Definition post_builder (s : OrchestratorState) (url : string) : OrchestratorState * outcome ServerError unit :=
  (with_builders s (builders s ++ [url]), Ok tt).

Definition get_builders (s : OrchestratorState) : outcome ServerError (list string) :=
  match builder (o_config s) with
  | External => Ok (builders s)
  | _ => if Z.of_nat (length (builders s)) =? da_staked_committee_size (config (o_config s))
         then Ok (builders s) else Err NotFound
  end.

(** ** Routes

    A body is decoded without its first twelve bytes; one that is shorter panics. *)
Context (decode_identity : bytes → option (option string * option Z)).
Context (decode_pubkey : bytes → option (bytes * option string * option Z)).
Context (decode_results : bytes → option BenchResults).
Context (decode_urls : bytes → option (list string)).

Inductive Request :=
  | PostIdentity (body : bytes)
  | PostGetconfig (node_index : Z)
  | GetTmpNodeIndex
  | PostPubkey (body : bytes) (is_da : bool)
  | PeerPubconfigReady
  | PostConfigAfterPeerCollected
  | PostReady (body : bytes)
  | PostManualStart (body : bytes)
  | GetStart
  | PostResults (body : bytes)
  (** With the first address that could be reached, if any. *)
  | PostBuilder (body : bytes) (reachable : list string → option string)
  | GetBuilders.

Inductive Response :=
  | RIndex (i : Z)
  | RConfig (c : NetworkConfig)
  | RRegistered (i : Z) (is_da : bool)
  | RBool (b : bool)
  | RUnit
  | RStages (l : list string)
  | RBuilders (l : list string).

Definition drain12 (b : bytes) : option bytes := if decide (length b < 12)%nat then None else Some (drop 12 b).

(** A body that is drained, decoded and handled. *)
Definition with_body {A} (s : OrchestratorState) (body : bytes) (decode : bytes → option A)
    (handle : A → OrchestratorState * outcome ServerError Response) : OrchestratorState * outcome ServerError Response :=
  match drain12 body with
  | None => (s, Panic)
  | Some b => match decode b with None => (s, Err BadRequest) | Some a => handle a end
  end.
Definition respond {A} (f : A → Response) (r : OrchestratorState * outcome ServerError A)
    : OrchestratorState * outcome ServerError Response :=
  (r.1, match r.2 with Ok a => Ok (f a) | Err e => Err e | Panic => Panic end).

Definition serve (s : OrchestratorState) (r : Request) : OrchestratorState * outcome ServerError Response :=
  match r with
  | PostIdentity body =>
      with_body s body decode_identity (fun '(address, key) => respond RIndex (post_identity s address key))
  | PostGetconfig i => respond RConfig (post_getconfig s i)
  | GetTmpNodeIndex => respond RIndex (get_tmp_node_index s)
  | PostPubkey body is_da =>
      with_body s body decode_pubkey (fun '(pubkey, address, key) =>
        respond (fun '(i, da) => RRegistered i da) (register_public_key s pubkey is_da address key))
  | PeerPubconfigReady => respond RBool (s, get_peer_pub_ready s)
  | PostConfigAfterPeerCollected => respond RConfig (post_config_after_peer_collected s)
  | PostReady body => with_body s body from_bytes (fun p => respond (fun _ => RUnit) (post_ready s p))
  | PostManualStart body => respond (fun _ => RUnit) (post_manual_start s body)
  | GetStart => respond RBool (s, get_start s)
  | PostResults body =>
      match decode_results body with
      | None => (s, Panic)
      | Some m => respond RStages (post_run_results s m)
      end
  | PostBuilder body reachable =>
      with_body s body decode_urls (fun urls =>
        match reachable urls with
        | Some url => respond (fun _ => RUnit) (post_builder s url)
        | None => (s, Err BadRequest)
        end)
  | GetBuilders => respond RBuilders (s, get_builders s)
  end.

(** A run, with every request and its answer. *)
Fixpoint serve_all (s : OrchestratorState) (rs : list Request)
    : OrchestratorState * list (Request * outcome ServerError Response) :=
  match rs with
  | [] => (s, [])
  | r :: rs =>
      let '(s, a) := serve s r in
      let '(s, l) := serve_all s rs in
      (s, (r, a) :: l)
  end.

(** ** What requests change *)

(** The stake table that a configuration describes. *)
Definition tables (s : OrchestratorState) : list PeerConfig * list PeerConfig :=
  (known_nodes_with_stake (config (o_config s)), known_da_nodes (config (o_config s))).

(** A table that was announced as ready is closed. *)
Definition closed_when_ready (s : OrchestratorState) : Prop :=
  peer_pub_ready s = true → fixed_stake_table s = true ∨ accepting_new_keys s = false.

(** What holds between the states before and after any request. *)
Record evolves (s s' : OrchestratorState) : Prop := {
  ev_closed : closed_when_ready s → closed_when_ready s';
  ev_ready : peer_pub_ready s = true → peer_pub_ready s' = true;
  ev_tables : closed_when_ready s → peer_pub_ready s = true → tables s' = tables s;
  ev_started : o_start s = true → o_start s' = true;
  ev_fixed : fixed_stake_table s' = fixed_stake_table s;
  ev_posted k r : pub_posted s !! k = Some r → pub_posted s' !! k = Some r;
}.

Lemma evolves_refl s : evolves s s.
Proof using Type. by split. Qed.

Lemma evolves_trans s s' s'' : evolves s s' → evolves s' s'' → evolves s s''.
Proof using Type.
  intros [] []. split; auto; [|congruence]. intros Hc Hr. etrans; [by auto|]. by auto.
Qed.

(** Changes that leave the flags, the tables and the registrations alone. *)
Lemma evolves_same s s' :
  tables s' = tables s → peer_pub_ready s' = peer_pub_ready s → fixed_stake_table s' = fixed_stake_table s →
  accepting_new_keys s' = accepting_new_keys s → o_start s' = o_start s → pub_posted s' = pub_posted s → evolves s s'.
Proof using Type.
  intros Ht Hr Hf Ha Hs Hp. split; unfold closed_when_ready; rewrite ?Hr, ?Hf, ?Ha, ?Hs, ?Hp; auto.
Qed.

Lemma register_evolves s pubkey da address key : evolves s (register_public_key s pubkey da address key).1.
Proof using All.
  unfold register_public_key. destruct (fixed_stake_table s) eqn:Hf.
  - unfold register_from_list. destruct (pub_posted s !! pubkey) eqn:Hp; [apply evolves_refl|].
    repeat case_match; try apply evolves_refl. simpl. split; simpl; auto.
    intros k r Hk. rewrite lookup_insert_ne; [done|congruence].
  - unfold register_unknown. destruct (pub_posted s !! pubkey) eqn:Hp; [apply evolves_refl|].
    destruct (accepting_new_keys s) eqn:Ha; simpl; [|apply evolves_refl].
    destruct (from_bytes pubkey) as [p|]; [|apply evolves_refl]. simpl.
    assert (closed_when_ready s → peer_pub_ready s = true → False) as Hno.
    { intros Hc Hr. destruct (Hc Hr); congruence. }
    destruct (_ <=? _); split; unfold closed_when_ready in *; simpl; try done; try tauto;
      intros k r Hk; (rewrite lookup_insert_ne; [done|congruence]).
Qed.

Lemma post_ready_evolves s p : evolves s (post_ready s p).1.
Proof using All.
  unfold post_ready. destruct (bool_decide _); simpl; [|apply evolves_refl].
  set (s1 := if decide _ then _ else _).
  assert (tables s1 = tables s ∧ peer_pub_ready s1 = peer_pub_ready s ∧ fixed_stake_table s1 = fixed_stake_table s ∧
          accepting_new_keys s1 = accepting_new_keys s ∧ o_start s1 = o_start s ∧ pub_posted s1 = pub_posted s)
    as (H1 & H2 & H3 & H4 & H5 & H6) by (subst s1; by case_decide).
  destruct (_ <=? _); [|by apply evolves_same]. split; unfold closed_when_ready; simpl; rewrite ?H2, ?H3, ?H6; auto.
Qed.

Lemma manual_start_evolves s b : evolves s (post_manual_start s b).1.
Proof using All. unfold post_manual_start. repeat case_match; try apply evolves_refl. split; simpl; auto. by intros _ _; right. Qed.

Lemma serve_evolves s r : evolves s (serve s r).1.
Proof using All.
  assert (∀ A body (decode : bytes → option A) handle, (∀ a, evolves s (handle a).1) →
            evolves s (with_body s body decode handle).1) as Hbody.
  { intros A body decode handle Hh. unfold with_body. repeat case_match; try apply evolves_refl. apply Hh. }
  destruct r as [body| | |body is_da| | |body|body| |body|body reachable|]; simpl; try apply evolves_refl.
  - apply Hbody. intros [address key]. simpl. unfold post_identity. by case_match; apply evolves_same.
  - unfold get_tmp_node_index. by case_match; apply evolves_same.
  - apply Hbody. intros [[pubkey address] key]. apply register_evolves.
  - apply Hbody. intros p. apply post_ready_evolves.
  - apply manual_start_evolves.
  - case_match; [|apply evolves_refl]. simpl. unfold post_run_results. repeat case_match; first [by apply evolves_same|apply evolves_refl].
  - apply Hbody. intros urls. case_match; [by apply evolves_same|apply evolves_refl].
Qed.

Lemma serve_all_evolves s rs : evolves s (serve_all s rs).1.
Proof using All.
  revert s. induction rs as [|r rs IH]; intros s; simpl; [apply evolves_refl|].
  pose proof (serve_evolves s r) as H1. destruct (serve s r) as [s1 a]. specialize (IH s1).
  destruct (serve_all s1 rs) as [s2 l]. by eapply evolves_trans.
Qed.

(** *** Registrations without a fixed stake table *)

Record reg_ok (s : OrchestratorState) : Prop := {
  ro_dynamic : fixed_stake_table s = false;
  ro_length : length (tables s).1 = size (pub_posted s);
  (** The node with an index is the one at that place of the table, and a node that was
      told so is on the DA committee. *)
  ro_entry k i da : pub_posted s !! k = Some (i, da) →
    0 <= i ∧ ∃ p, from_bytes k = Some p ∧ (tables s).1 !! Z.to_nat i = Some p ∧ (da = true → p ∈ (tables s).2);
  ro_inj k k' i da da' : pub_posted s !! k = Some (i, da) → pub_posted s !! k' = Some (i, da') → k = k';
  ro_da : (tables s).2 `sublist_of` (tables s).1;
  ro_da_size : Z.of_nat (length (tables s).2) <= da_staked_committee_size (config (o_config s));
  ro_capacity : Z.of_nat (size (pub_posted s)) <= num_nodes_with_stake (config (o_config s));
  ro_room : accepting_new_keys s = true → Z.of_nat (size (pub_posted s)) < num_nodes_with_stake (config (o_config s));
}.

Definition limits (s : OrchestratorState) : Z * Z :=
  (num_nodes_with_stake (config (o_config s)), da_staked_committee_size (config (o_config s))).

Lemma reg_ok_same s s' :
  reg_ok s → tables s' = tables s → limits s' = limits s → pub_posted s' = pub_posted s →
  fixed_stake_table s' = fixed_stake_table s → (accepting_new_keys s' = true → accepting_new_keys s = true) → reg_ok s'.
Proof using Type.
  intros [] Ht Hl Hp Hf Ha. unfold limits in Hl. injection Hl as Hl1 Hl2.
  split; rewrite ?Ht, ?Hp, ?Hf, ?Hl1, ?Hl2; auto.
Qed.

Lemma register_unknown_ok s pubkey da address key :
  reg_ok s → reg_ok (register_unknown s pubkey da address key).1.
Proof using Type.
  intros Hr. unfold register_unknown. destruct (pub_posted s !! pubkey) eqn:Hp; [done|].
  destruct (accepting_new_keys s) eqn:Ha; simpl; [|done]. destruct (from_bytes pubkey) as [p|] eqn:Hb; [|done]. simpl.
  destruct Hr as [Hf Hlen Hent Hinj Hda Hds Hcap Hroom]. specialize (Hroom Ha).
  set (added := _ && _). set (s1 := with_config _ _ _).
  assert (∀ k i d, pub_posted s !! k = Some (i, d) → i < Z.of_nat (size (pub_posted s))) as Hlt.
  { intros k i d Hk. destruct (Hent _ _ _ Hk) as (Hi & q & _ & Hq & _). apply lookup_lt_Some in Hq. lia. }
  assert (size (pub_posted s1) = S (size (pub_posted s))) as Hsize by (simpl; by rewrite map_size_insert_None).
  assert (reg_ok (with_flags s1 (peer_pub_ready s1) (o_start s1) (manual_start_allowed s1) false)) as Hoff.
  { split; try done.
    - simpl. rewrite length_app. simpl in *. rewrite Hsize. lia.
    - intros k i d. simpl. intros [[<- [= <- <-]]|[_ Hk]]%lookup_insert_Some.
      + split; [lia|]. exists p. rewrite Nat2Z.id, <- Hlen. split_and!; [done|by apply list_lookup_middle|].
        intros ->. apply elem_of_app. right. by left.
      + destruct (Hent _ _ _ Hk) as (? & q & ? & Hq & Hd). split; [done|]. exists q. split_and!; [done| |].
        * by apply lookup_app_l_Some.
        * intros Ht. specialize (Hd Ht). destruct added; [apply elem_of_app; by left|done].
    - intros k k' i d d'. simpl. intros [[Hk0 [= Hi _]]|[_ Hk]]%lookup_insert_Some [[Hk0' Hi']|[_ Hk']]%lookup_insert_Some;
        [congruence|apply Hlt in Hk'; lia|apply Hlt in Hk; injection Hi' as ? _; lia|by eapply Hinj].
    - simpl. destruct added; [by apply sublist_app|by apply sublist_inserts_r].
    - simpl. subst added. destruct (da_staked_committee_size _ <=? _) eqn:Hfull; [by rewrite andb_false_r|].
      apply Z.leb_gt in Hfull. destruct (_ && _); [rewrite length_app; simpl|]; lia.
    - simpl in *. rewrite Hsize. lia. }
  destruct (num_nodes_with_stake _ <=? _) eqn:Hle.
  - eapply reg_ok_same; [exact Hoff|..]; done.
  - apply Z.leb_gt in Hle. destruct Hoff as [? ? ? ? ? ? ? _]. split; try done. simpl in *. rewrite Hsize. lia.
Qed.

Lemma serve_reg_ok s r : reg_ok s → reg_ok (serve s r).1.
Proof using Type.
  intros Hr. assert (∀ A body (decode : bytes → option A) handle, (∀ a, reg_ok (handle a).1) →
            reg_ok (with_body s body decode handle).1) as Hbody.
  { intros A body decode handle Hh. unfold with_body. by repeat case_match. }
  destruct r as [body| | |body is_da| | |body|body| |body|body reachable|]; simpl; try done.
  - apply Hbody. intros [address key]. simpl. unfold post_identity. by case_match; eapply reg_ok_same.
  - unfold get_tmp_node_index. by case_match; eapply reg_ok_same.
  - apply Hbody. intros [[pubkey address] key]. simpl. unfold register_public_key. rewrite (ro_dynamic _ Hr).
    by apply register_unknown_ok.
  - apply Hbody. intros p. simpl. unfold post_ready. destruct (bool_decide _); simpl; [|done].
    set (s1 := if decide _ then _ else _).
    assert (reg_ok s1) as Hs1 by (subst s1; case_decide; [done|by eapply reg_ok_same]).
    case_match; [|done]. by eapply reg_ok_same.
  - unfold post_manual_start. repeat case_match; simpl; try done. destruct Hr. split; simpl in *; try done; lia.
  - case_match; [|done]. simpl. unfold post_run_results. repeat case_match; try done; by eapply reg_ok_same.
  - apply Hbody. intros urls. case_match; [by eapply reg_ok_same|done].
Qed.

(** ** Properties *)

Lemma new_closed c : closed_when_ready (OrchestratorState_new c).
Proof using Type. unfold closed_when_ready. simpl. by left. Qed.

Lemma serve_all_cons s r rs :
  serve_all s (r :: rs) =
  ((serve_all (serve s r).1 rs).1, (r, (serve s r).2) :: (serve_all (serve s r).1 rs).2).
Proof using Type. simpl. destruct (serve s r) as [s1 a]. simpl. by destruct (serve_all s1 rs). Qed.

(** A configuration that is handed out as complete has the tables of the end. *)
Lemma handed_out_tables s rs c :
  closed_when_ready s → (PostConfigAfterPeerCollected, Ok (RConfig c)) ∈ (serve_all s rs).2 →
  (known_nodes_with_stake (config c), known_da_nodes (config c)) = tables (serve_all s rs).1.
Proof using Type.
  revert s. induction rs as [|r rs IH]; intros s Hc; [intros H%elem_of_nil; done|].
  rewrite serve_all_cons. cbn [fst snd]. intros [Heq|Hin]%elem_of_cons.
  - injection Heq as <- Ha. cbn [serve] in *. unfold respond, post_config_after_peer_collected in *. cbn [fst snd] in *.
    destruct (peer_pub_ready s) eqn:Hr; [|done]. injection Ha as ->.
    pose proof (serve_all_evolves s rs) as He. by rewrite (ev_tables _ _ He).
  - apply IH; [by apply (ev_closed _ _ (serve_evolves s r))|done].
Qed.

(** C36. All nodes that get a configuration after the keys were collected get the same
    stake table and the same DA committee, whatever requests come in between and in
    whatever order, in a run with a fixed table and in one where nodes register. *)
Theorem nodes_get_the_same_tables c rs c1 c2 :
  let h := (serve_all (OrchestratorState_new c) rs).2 in
  (PostConfigAfterPeerCollected, Ok (RConfig c1)) ∈ h → (PostConfigAfterPeerCollected, Ok (RConfig c2)) ∈ h →
  known_nodes_with_stake (config c1) = known_nodes_with_stake (config c2) ∧
  known_da_nodes (config c1) = known_da_nodes (config c2).
Proof using Type.
  intros h H1%handed_out_tables H2%handed_out_tables; [|apply new_closed..]. rewrite <- H1 in H2. by injection H2.
Qed.

Lemma serve_all_reg_ok s rs : reg_ok s → reg_ok (serve_all s rs).1.
Proof using Type.
  revert s. induction rs as [|r rs IH]; intros s Hs; [done|]. rewrite serve_all_cons. by apply IH, serve_reg_ok.
Qed.

(** An answer to a registration stays on record. *)
Lemma registered_posted s pubkey da address key r :
  (register_public_key s pubkey da address key).2 = Ok r →
  pub_posted (register_public_key s pubkey da address key).1 !! pubkey = Some r.
Proof using Type.
  unfold register_public_key, register_from_list, register_unknown.
  destruct (pub_posted s !! pubkey) as [r0|] eqn:Hp; [case_match; simpl; by intros [= ->]|].
  repeat case_match; simpl; try done; intros [= <-]; by rewrite lookup_insert_eq.
Qed.

Lemma answered_posted s rs body is_da i da :
  (PostPubkey body is_da, Ok (RRegistered i da)) ∈ (serve_all s rs).2 →
  ∃ b pubkey address key, drain12 body = Some b ∧ decode_pubkey b = Some (pubkey, address, key) ∧
    pub_posted (serve_all s rs).1 !! pubkey = Some (i, da).
Proof using Type.
  revert s. induction rs as [|r rs IH]; intros s; [intros H%elem_of_nil; done|].
  rewrite serve_all_cons. cbn [fst snd]. intros [Heq|Hin]%elem_of_cons; [|by apply IH].
  injection Heq as <- Ha. cbn [serve] in *. unfold with_body in *.
  destruct (drain12 body) as [b|]; [|done]. destruct (decode_pubkey b) as [[[pubkey address] key]|] eqn:Hd; [|done].
  unfold respond in *. cbn [fst snd] in *. exists b, pubkey, address, key. split_and!; [done..|].
  apply (ev_posted _ _ (serve_all_evolves _ rs)), registered_posted.
  destruct (register_public_key s pubkey is_da address key).2 as [[i' da']| |]; [|done..]. by injection Ha as -> ->.
Qed.

(** Without a fixed stake table, the answers to registrations are consistent: a key
    always gets the same index and DA flag, two keys never share an index, the node with
    an index is the one at that place of the stake table, and one that was told so is on
    the DA committee; there are never more nodes or DA nodes than configured. *)
Theorem registrations_are_consistent c rs :
  known_nodes_with_stake (config c) = [] → known_da_nodes (config c) = [] →
  0 < num_nodes_with_stake (config c) → 0 <= da_staked_committee_size (config c) →
  let '(s, h) := serve_all (OrchestratorState_new c) rs in
  reg_ok s ∧
  ∀ body is_da i da, (PostPubkey body is_da, Ok (RRegistered i da)) ∈ h →
    ∃ b pubkey address key, drain12 body = Some b ∧ decode_pubkey b = Some (pubkey, address, key) ∧
      pub_posted s !! pubkey = Some (i, da).
Proof using Type.
  intros Hn Hd Hnum Hda. destruct (serve_all (OrchestratorState_new c) rs) as [s h] eqn:Hrun. split.
  - replace s with (serve_all (OrchestratorState_new c) rs).1 by by rewrite Hrun. apply serve_all_reg_ok.
    split; unfold tables; simpl; rewrite ?Hn, ?Hd; simpl; rewrite ?map_size_empty; try done; try lia.
  - intros body is_da i da Hin. pose proof (answered_posted (OrchestratorState_new c) rs body is_da i da) as H.
    rewrite Hrun in H. by apply H.
Qed.

(** *** Indices *)

(** The indices that are handed out are consecutive, as long as they do not wrap. *)
Definition identities (h : list (Request * outcome ServerError Response)) : list Z :=
  omap (fun x => match x with (PostIdentity _, Ok (RIndex i)) => Some i | _ => None end) h.
Definition identity_requests (h : list (Request * outcome ServerError Response)) : Z :=
  Z.of_nat (length (base.filter (fun x => match x.1 with PostIdentity _ => true | _ => false end = true) h)).

(** Only requests for an identity move the index. *)
Lemma serve_latest_index s r :
  match r with
  | PostIdentity _ =>
      (serve s r).1 = s ∧ (∀ i, (serve s r).2 ≠ Ok (RIndex i)) ∨
      latest_index (serve s r).1 = (latest_index s + 1) mod u16_modulus ∧
      ∀ i, (serve s r).2 = Ok (RIndex i) → i = latest_index s
  | _ => latest_index (serve s r).1 = latest_index s
  end.
Proof using Type.
  destruct r as [body| | |body is_da| | |body|body| |body|body reachable|]; simpl; try done; unfold with_body;
    [destruct (drain12 body) as [b|]; [|by left]; destruct (decode_identity b) as [[address key]|]; [|by left]; right|..].
  - unfold post_identity. case_match; simpl; split; try done. by intros i [= <-].
  - unfold get_tmp_node_index. by case_match.
  - repeat case_match; try done. simpl. unfold register_public_key, register_from_list, register_unknown.
    by repeat case_match.
  - repeat case_match; try done. simpl. unfold post_ready. by repeat case_match.
  - unfold post_manual_start. by repeat case_match.
  - case_match; [|done]. simpl. unfold post_run_results. by repeat case_match.
  - by repeat case_match.
Qed.

Lemma identities_range rs s :
  0 <= latest_index s → latest_index s + identity_requests (serve_all s rs).2 < u16_modulus →
  NoDup (identities (serve_all s rs).2) ∧
  ∀ i, i ∈ identities (serve_all s rs).2 → latest_index s <= i.
Proof using Type.
  revert s. induction rs as [|r rs IH]; intros s H0 Hle; [split; [constructor|by intros i ?%elem_of_nil]|].
  rewrite serve_all_cons in *. cbn [snd] in *. pose proof (serve_latest_index s r) as Hr.
  unfold identity_requests in Hle, IH. rewrite filter_cons in Hle. cbn [fst] in Hle.
  destruct r as [body| | | | | | | | | | |]; cbn [identities omap list_omap] in *;
    try (rewrite decide_False in Hle by done; rewrite <- Hr in H0, Hle |- *; by apply IH).
  rewrite decide_True in Hle by done. cbn [length] in Hle. rewrite Nat2Z.inj_succ in Hle.
  destruct Hr as [[Hs Hno]|[Hl Hans]].
  - rewrite Hs in *. destruct (serve s (PostIdentity body)).2 as [[]| |]; try (apply IH; lia). by destruct (Hno i).
  - rewrite Z.mod_small in Hl by lia. destruct (IH (serve s (PostIdentity body)).1) as [Hnd Hge]; rewrite ?Hl in *; [lia..|].
    assert (∀ i, i ∈ identities (serve_all (serve s (PostIdentity body)).1 rs).2 → latest_index s < i) as Hlt.
    { intros i Hi%Hge. lia. }
    destruct (serve s (PostIdentity body)).2 as [[i| | | | | |]| |]; try (split; [exact Hnd|]; intros j Hj%Hlt; lia).
    rewrite (Hans i eq_refl). split.
    + constructor; [|done]. intros Hin%Hlt. lia.
    + intros j [->|Hj%Hlt]%elem_of_cons; lia.
Qed.

(** As long as fewer than 65536 identities are asked for, no two nodes are given the
    same index, however other requests are mixed in. *)
Theorem identities_are_distinct c rs :
  let h := (serve_all (OrchestratorState_new c) rs).2 in
  identity_requests h < u16_modulus → NoDup (identities h).
Proof using Type. intros h Hh. apply identities_range; simpl; [lia|done]. Qed.

(** Beyond that the index wraps around, also when the network is full, and an index
    is given out again. *)
Lemma identities_wrap s address key :
  latest_index s = u16_modulus - 1 → 0 < num_nodes_with_stake (config (o_config s)) →
  (post_identity (post_identity s address key).1 address key).2 = Ok 0.
Proof using Type.
  intros Hl Hn. assert (latest_index (post_identity s address key).1 = 0 ∧
    num_nodes_with_stake (config (o_config (post_identity s address key).1)) = num_nodes_with_stake (config (o_config s))) as [H1 H2].
  { unfold post_identity. rewrite Hl. by case_match. }
  unfold post_identity at 1. simpl. rewrite H1, H2. apply Z.leb_gt in Hn. by rewrite Hn.
Qed.

(** Results with transactions but without measured latencies bring the server down. *)
Lemma results_without_latency_panic s m :
  total_transactions_committed m ≠ 0 → total_transactions_committed (bench_results s) ≠ 0 →
  num_latency m = 0 → num_latency (bench_results s) = 0 → (post_run_results s m).2 = Panic.
Proof using Type.
  intros Hm Hs H1 H2. unfold post_run_results. apply Z.eqb_neq in Hm, Hs. rewrite Hm, Hs.
  unfold merge_results. rewrite H1, H2. reflexivity.
Qed.

End Orchestrator.

(** ** A run of the model *)

Module OrcWitnesses.
#[local] Existing Instance Ideal.open_signatures.

Definition peer (k : Z) : PeerConfig :=
  {| stake_table_entry := {| stake_key := k : PubKey; stake_amount := 1 |}; state_ver_key := k |}.
Definition from_bytes (b : bytes) : option PeerConfig := match b with [k] => Some (peer k) | _ => None end.
Definition body (b : bytes) : bytes := replicate 12 0 ++ b.
(** Three nodes, two of them on the DA committee. *)
Definition three : NetworkConfig :=
  {| indexed_da := true; manual_start_password := Some "secret"; libp2p_config := None;
     config := {| start_threshold := (2, 3); num_nodes_with_stake := 3; known_nodes_with_stake := []; known_da_nodes := [];
                  da_staked_committee_size := 2; builder_urls := [] |};
     builder := Simple; public_keys := [] |}.

Definition serves := serve_all from_bytes (fun _ => Some "secret") (fun _ => Some (None, None))
  (fun b => Some (b, None, None)) (fun _ => None) (fun _ => None).
Definition registers (k : Z) : Request := PostPubkey (body [k]) false.

(** The nodes register, the first one twice; a fourth one is refused; two nodes fetch
    the configuration, one asks for an identity in between. *)
Definition requests : list Request :=
  [registers 7; registers 8; registers 7; registers 9; registers 10; PostConfigAfterPeerCollected;
   PostIdentity (body []); PostConfigAfterPeerCollected; PostIdentity (body [])].

Definition complete : NetworkConfig :=
  {| indexed_da := true; manual_start_password := Some "secret"; libp2p_config := None;
     config := {| start_threshold := (2, 3); num_nodes_with_stake := 3; known_nodes_with_stake := [peer 7; peer 8; peer 9];
                  known_da_nodes := [peer 7; peer 8]; da_staked_committee_size := 2; builder_urls := [] |};
     builder := Simple; public_keys := [] |}.

Lemma orc_answers : (serves (OrchestratorState_new three) requests).2 =
  [(registers 7, Ok (RRegistered 0 true)); (registers 8, Ok (RRegistered 1 true)); (registers 7, Ok (RRegistered 0 true));
   (registers 9, Ok (RRegistered 2 false)); (registers 10, Err Forbidden); (PostConfigAfterPeerCollected, Ok (RConfig complete));
   (PostIdentity (body []), Ok (RIndex 0)); (PostConfigAfterPeerCollected, Ok (RConfig complete));
   (PostIdentity (body []), Ok (RIndex 1))].
Proof. vm_compute. reflexivity. Qed.

Lemma nodes_get_the_same_tables_witness :
  known_nodes_with_stake (config complete) = [peer 7; peer 8; peer 9] ∧
  known_nodes_with_stake (config complete) = known_nodes_with_stake (config complete) ∧
  known_da_nodes (config complete) = known_da_nodes (config complete).
Proof.
  split; [reflexivity|].
  assert ((PostConfigAfterPeerCollected, Ok (RConfig complete)) ∈ (serves (OrchestratorState_new three) requests).2) as Hin.
  { rewrite orc_answers. do 5 right. left. }
  exact (nodes_get_the_same_tables _ _ _ _ _ _ three requests complete complete Hin Hin).
Defined.

Lemma registrations_are_consistent_witness :
  ∃ b pubkey address key, drain12 (body [9]) = Some b ∧ Some (b, @None string, @None Z) = Some (pubkey, address, key) ∧
    pub_posted (serves (OrchestratorState_new three) requests).1 !! pubkey = Some (2, false).
Proof.
  pose proof (registrations_are_consistent from_bytes (fun _ => Some "secret") (fun _ => Some (None, None))
    (fun b => Some (b, None, None)) (fun _ => None) (fun _ => None) three requests eq_refl eq_refl eq_refl) as H.
  specialize (H ltac:(done)). pose proof orc_answers as Ha. unfold serves in *.
  destruct (serve_all _ _ _ _ _ _ _ requests) as [s h]. destruct H as [_ H]. simpl in Ha. apply (H (body [9]) false 2 false).
  rewrite Ha. do 3 right. left.
Defined.

Lemma identities_are_distinct_witness :
  identities (serves (OrchestratorState_new three) requests).2 = [0; 1] ∧
  NoDup (identities (serves (OrchestratorState_new three) requests).2).
Proof.
  split; [vm_compute; reflexivity|].
  apply (identities_are_distinct from_bytes (fun _ => Some "secret") (fun _ => Some (None, None))
    (fun b => Some (b, None, None)) (fun _ => None) (fun _ => None) three requests).
  vm_compute. reflexivity.
Defined.
End OrcWitnesses.
